(* ===== verification/_CoqProject ===== *)
-Q . S2P
Prelude.v
Bytes.v
Cursor.v
Checkpoint.v
CheckpointProps.v
DurableState.v
DurableStateProps.v
StateTransition.v
StateTransitionProps.v
StateRuns.v
Envelope.v
Io.v
SpoolModel.v
SegmentFormat.v
SegmentFormatProps.v
SegmentRoundTrip.v
SpoolQuota.v
SpoolQuotaProps.v
FileSystem.v
FileSystemProps.v
SecureFs.v
SecureFsProps.v
FileReads.v
StateStore.v
StateStoreProps.v
StateStoreRuns.v
StateStoreDemo.v
Spool.v
SpoolLifecycle.v
SpoolProps.v
SpoolDelivery.v
SpoolWriting.v
SpoolSegmentLife.v
SpoolRuns.v
SpoolScan.v
SpoolStartup.v
SpoolDemo.v
RisingMetadata.v
Daemon.v
Delivery.v
Collection.v
Rising.v
DeliveryProps.v
Backlog.v
CollectionProps.v
RisingTransitions.v
RisingProps.v
RisingCrash.v
Scheduler.v
Runtime.v
RuntimeProps.v
DaemonDemo.v
Text.v
Sdk.v
Arrow.v
Config.v
ConfigProps.v
Settings.v
Prepared.v
PreparedProps.v
ConfigDemo.v
Native.v
NativeProps.v
MssqlSql.v
MssqlSqlProps.v
MssqlConnector.v
MssqlTyped.v
Decimals.v
MssqlTypedProps.v
NativeDemo.v
Pipeline.v
PipelineDemo.v
SecretStore.v
Deployment.v
DeploymentEnvelope.v
DeploymentImport.v
DeploymentReconcile.v
DeploymentDemo.v
MysqlSql.v
