(* ===== verification/Prelude.v ===== *)
(** * dbx-rs: verification of the collection, spool, state and delivery pipeline

    dbx-rs is a daemon that runs SQL queries at databases on a schedule, seals the rows in
    an encrypted spool on the local disk, delivers them to a Splunk HTTP event collector,
    and, for a "rising" input, remembers durably up to which (timestamp, identifier) cursor
    everything was delivered.  This library models that path from the configuration files
    to the committed cursor.  The point of it is the promise the program makes: a cursor is
    only committed after the rows before it were acknowledged, and no page is lost,
    whatever fails on the way.

    ** The parts and how they interact

    - [Config] (crates/dbx-rs-config/src/lib.rs): two layered INI files become an
      [EffectiveConfig].  [Settings] (daemon/src/runtime.rs): what the daemon takes of it.
    - [Prepared] (daemon/src/prepared.rs): an input, its query and CA file become a
      [PreparedInput] with fingerprints that stand for its identity, lineage and revision.
    - [Scheduler] (daemon/src/runtime.rs, [ScheduleState] and [ConfigurationGenerations])
      decides which inputs run next and under which generation.  [Runtime]
      (daemon/src/runtime.rs, [run_inner]) is the loop around it: finished workers, reload,
      backlog, launching, shutdown.
    - [Sdk] (connector-sdk/src/contract.rs, error.rs, model.rs) and [Cursor]
      (connector-sdk/src/cursor.rs): what daemon and connectors exchange.
    - The SQL Server connector: [MssqlSql] (connectors/mssql/src/connector/sql.rs) checks and
      wraps the query of an input, [MssqlConnector] (connector.rs) validates connections,
      opens sessions and classifies errors, [MssqlTyped] (connector/typed.rs) plans the
      columns, converts the rows and sends them as Arrow batches.  Of the MySQL connector
      [MysqlSql] (connectors/mysql/src/connector/sql.rs) checks and wraps the query.
    - [Native] (native-connectors/src/lib.rs): a connector is prepared and executed, and its
      Arrow batches ([Arrow]) become JSON rows.
    - [Collection] (daemon/src/worker.rs): the JSON rows become the events of one spool
      segment with [RisingMetadata] (daemon/src/rising_metadata.rs).  [Pipeline] joins the
      registry and the worker as [run_input_inner] does.
    - [SegmentFormat] (spool/src/format.rs), [SpoolQuota], [Spool] and [SpoolLifecycle]
      (spool/src/spool.rs), [SpoolModel] (identity.rs, model.rs, key.rs, error.rs of the
      spool): the encrypted segment files, the byte quotas, and the lifecycle
      open - ready - delivered - compacted.
    - [Delivery] (daemon/src/worker.rs) and [Daemon] (daemon/src/hec.rs, error.rs,
      identity.rs): a ready segment is read back, sent in batches, acknowledged, and only
      then marked delivered.
    - [Checkpoint] (checkpoint/src/lib.rs): the coordinator, the in-memory state machine of
      an attempt.  [DurableState] (state/src/model.rs), [StateTransition], [Envelope] and
      [StateStore] (state/src/store.rs): the durable state of an input, which replacements
      of it are accepted, its file format, and its files with compare-and-exchange.
    - [Rising] (daemon/src/rising.rs): drives all of these for a rising input: start,
      adoption of a sealed page, reconciliation, receipts, commit.
    - [SecureFs] (secure-store/src/fs.rs, error.rs) over [FileSystem]: private directories
      and atomic writes, used by the store, the spool and the secrets.  [Io], [Bytes],
      [Text]: streams, ciphers, codecs, strings, numbers and paths of the standard library.
    - [SecretStore] (secure-store/src/store.rs): encrypted local secrets.  [Deployment]
      (secure-store/src/deployment.rs): credentials sealed by an authority for enrolled
      installations, their verification, and their import into the secret store with
      receipts against replays of older revisions.

    An operation keeps the name it has in the source.  A struct is a Record, an enum an
    Inductive type, [Result] is [result E] and a method on [&mut self] a computation of the
    state monad [st S E] below, which returns the state on the error path as well.  An
    index out of range, an [unwrap] or an overflow that would panic is an error value of
    its own ([panicked] in a connector), so that "does not panic" is a theorem.

    ** What the theorems show

    - The promise, end to end: [RisingProps.committed_scan_was_delivered] (commit only after
      acknowledgement of exactly the sealed rows), [RisingCrash.pages_survive_until_receipted]
      (no page is lost before its receipt at any crash),
      [DeliveryProps.delivered_only_after_acknowledgement],
      [CollectionProps.completed_run_publishes],
      [NativeProps.collection_reports_what_it_sent] and [collection_stays_within_limits],
      [Pipeline.connector_page_is_adopted] (what a connector sends is sealed and adopted),
      [RisingTransitions] (the store accepts what the coordinator computes)
      and the fencing of the backlog ([Backlog]).
    - The coordinator and the durable policy: refinement of a step relation
      ([CheckpointProps.run_command_refines]), delivery-gated commit in memory and on disk
      ([commit_is_delivery_gated], [StateRuns.durable_commit_gate]), the stored scan as a
      refinement of the full ghost log of sealed segments.
    - The storage: round trip, canonicity, progress and termination of the segment format
      ([SegmentRoundTrip]), exact envelope decoding, the life of a segment and its survival
      along all runs and crashes ([SpoolSegmentLife], [SpoolRuns], [SpoolDelivery]), the
      accounting as a refinement of a ledger, the startup scan, all-or-nothing atomic
      writes, and compare-and-exchange ([StateStoreRuns]).
    - The configuration: bounds of an accepted one, canonical identities, fingerprints that
      stand for one configuration, inputs that always fit a segment and always prepare.
    - The loop: no turn panics, the schedule is exact, generations are never reused.
    - The credentials: a stored secret is what is resolved, atomically ([SecretStore]);
      exactly the authorised envelopes are opened, and they open to what was sealed
      ([DeploymentEnvelope]); an import never shows the receipt without the secret and never
      goes back to an older revision while its receipt can be inspected ([DeploymentImport]);
      a directory is reconciled completely ([DeploymentReconcile]).
    - The SQL Server connector: a base query cannot leave the parentheses it is wrapped in
      ([MssqlSqlProps]), an execution talks to verified servers only and in no statements but
      its own, and what it sends are the rows the server answered ([MssqlTypedProps]), with
      the decimals exactly as they were printed ([Decimals]); the row limit of a MySQL query
      is code unless the query ends in a line comment ([MysqlSql]).

    Files named [...Props], [...Runs], [...Demo] and the like hold the theorems about the
    component of that name; the [Demo] files evaluate concrete runs, the witnesses that the
    hypotheses can hold.

    ** What is outside: parameters and their laws

    Libraries and services are arguments: SHA-256 ([Sha256]), HKDF and ChaCha20-Poly1305
    ([Crypto], with the laws that sealing and opening are inverse and that the tag has 16
    bytes), serde_json of the durable state ([SerdeJson]: it parses what it writes;
    [SerdeJsonWidths]: integers it parses fit their types), the JSON of the event collector
    ([HecJson]), configparser's lookups (the [Ini] arguments of [Config]), the credential
    store and the certificates in [Prepared], Arrow IPC, chrono and the JSON of scalars
    ([ArrowIpc], [Chrono], [SerdeScalars]), the connectors ([Connector]: what they answer to
    prepare, which batches they send and their result), and under the SQL Server connector
    the certificates of [Rustls], the rows of the driver ([MssqlRow]) and the decimal shapes
    Arrow accepts; under the credentials HPKE ([Hpke]: an identity opens what was sealed for
    its public key), [Ed25519] (a signature verifies) and the parser of certificates
    ([X509]).  The server is a schedule of what it answers to each question; what it was
    asked is recorded.  No law says that a hash does not
    collide; where it matters the theorem says "as long as no two of the hashed messages
    collide".  Random identifiers come from a schedule; that they are fresh is a premise of
    the spool's step relation.

    ** Failures, crashes and time

    Every call to the file system takes its outcome from a schedule of faults; a crash is a
    schedule whose remaining calls all fail.  The disk keeps, next to the current tree, the
    past versions a crash may still reveal: directory changes reach the disk in order and
    at the latest when the directory is synchronised, a file that was not synchronised may
    be torn.  A theorem about "every version" is about what is found after a crash.  The
    file of an open segment is a stream that the writer mirrors into the tree with each
    write.  The network, the clocks, the cancellation of a task and the receiver of a
    channel are schedules too; log entries of the event collector (what it acknowledged)
    are ghost state.  Concurrency is interleaving: the operations of a component are
    atomic under the locks that the code takes, and futures that run side by side and meet
    only in a channel are run one after the other.  One daemon process owns the state and
    spool directories, as their lock files demand.

    ** Bounds and fuel

    Integers are [N] and [Z] with their widths written out: checked and saturating
    operations of 64-bit integers, [in_u32] and [in_u64] as premises where a type gives
    them.  Recursion that is not structural has fuel, with a theorem or a bound that it is
    enough: reading a segment ends within one call per byte ([segment_reading_terminates]);
    [scan_loop] of the SQL scanner takes one byte at least per turn and has as much fuel as
    bytes, [decimal_digits] has one more than the binary logarithm; the loops over pages,
    events and acknowledgement rounds run over the finite lists or schedules they consume.

    ** Not modelled

    Windows branches (access lists, MoveFileEx), other processes on the same files, Debug
    and Display texts, messages of errors, telemetry, the splunkd session and signals, the
    TLS and HTTP client, the wire protocol of mssql-client and the probe of its connector,
    the MySQL connector but for its SQL, the PostgreSQL and Oracle connectors,
    the control service, the command line, the app builder, and the vendored Oracle driver.  Texts are lists of
    Unicode scalar values, paths of the configuration are texts. *)

From stdpp Require Export base tactics option list numbers gmap.
From stdpp Require Export strings.
From Stdlib Require Import ZArith NArith Lia.

#[export] Set Default Proof Using "Type".

(** ** Results and errors

    Rust's [Result<A, E>].  The error type comes first so that [result E] is a
    monad; [?] is [mbind], [return Err(e)] is [mthrow]. *)
Inductive result (E A : Type) : Type :=
  | Ok (a : A)
  | Err (e : E).
Arguments Ok {E A} a.
Arguments Err {E A} e.

#[global] Instance result_ret E : MRet (result E) := λ A a, Ok a.
#[global] Instance result_bind E : MBind (result E) := λ A B f r,
  match r with Ok a => f a | Err e => Err e end.
#[global] Instance result_fmap E : FMap (result E) := λ A B f r,
  match r with Ok a => Ok (f a) | Err e => Err e end.
#[global] Instance result_throw E : MThrow E (result E) := λ A e, Err e.

#[global] Instance result_eq_dec `{EqDecision E, EqDecision A} :
  EqDecision (result E A).
Proof. solve_decision. Defined.

(** [Option::ok_or], [Result::map_err], [Result::is_ok], [Result::ok]. *)
Definition ok_or {E A} (e : E) (o : option A) : result E A :=
  match o with Some a => Ok a | None => Err e end.
Definition map_err {E F A} (f : E → F) (r : result E A) : result F A :=
  match r with Ok a => Ok a | Err e => Err (f e) end.
Definition is_ok {E A} (r : result E A) : bool :=
  match r with Ok _ => true | Err _ => false end.
Definition result_ok {E A} (r : result E A) : option A :=
  match r with Ok a => Some a | Err _ => None end.
(** [Option::is_some_and], [Option::is_none_or]. *)
Definition is_some_and {A} (p : A → bool) (o : option A) : bool :=
  match o with Some a => p a | None => false end.
Definition is_none_or {A} (p : A → bool) (o : option A) : bool :=
  match o with Some a => p a | None => true end.

(** ** State passing

    A method taking [&mut self] and returning a [Result].  The final state is
    returned on the error path as well, so that "an error leaves the state
    alone" is a theorem and not built into the type. *)
Definition st (S E A : Type) : Type := S → S * result E A.

#[global] Instance st_ret S E : MRet (st S E) := λ A a s, (s, Ok a).
#[global] Instance st_bind S E : MBind (st S E) := λ A B f m s,
  match m s with
  | (s', Ok a) => f a s'
  | (s', Err e) => (s', Err e)
  end.
#[global] Instance st_throw S E : MThrow E (st S E) := λ A e s, (s, Err e).
Definition st_get {S E} : st S E S := λ s, (s, Ok s).
Definition st_put {S E} (s' : S) : st S E () := λ _, (s', Ok tt).
Definition st_lift {S E A} (r : result E A) : st S E A := λ s, (s, r).
Definition st_map_err {S E F A} (f : E → F) (m : st S E A) : st S F A := λ s,
  let '(s', r) := m s in (s', map_err f r).

(** An operation that can also panic: [unreachable!], a failed [expect]. *)
Inductive fault (E : Type) : Type :=
  | Error (e : E)
  | Panic.
Arguments Error {E} e.
Arguments Panic {E}.

(** ** Notations *)
Declare Scope dbx_scope.
Delimit Scope dbx_scope with dbx.

(** [if P { return Err(e); } k] *)
Notation "'reject' e 'when' P ;; k" :=
  (if decide P then mthrow e else k)
  (at level 10, e at level 0, P at level 99, k at level 200,
   format "'[v' 'reject'  e  'when'  P  ;;  '/' k ']'") : dbx_scope.

(** [let Some(x) = o else { return Err(e) }; k] *)
Notation "'let_some' x := o 'else' e ;; k" :=
  (match o with Some x => k | None => mthrow e end)
  (at level 10, x name, o at level 99, e at level 0, k at level 200,
   format "'[v' 'let_some'  x  :=  o  'else'  e  ;;  '/' k ']'") : dbx_scope.

#[export] Hint Extern 0 (Decision _) => progress cbv beta : typeclass_instances.

(** ** Machine integers

    Unsigned integers are [N] and signed ones [Z]; the width shows in the
    checked operations below and in the [in_*] predicates. *)
Definition u16_max : N := 65535.
Definition u32_max : N := 4294967295.
Definition u64_max : N := 18446744073709551615.
Definition i64_min : Z := -9223372036854775808.
Definition i64_max : Z := 9223372036854775807.

Definition in_u16 (n : N) : Prop := (n ≤ u16_max)%N.
Definition in_u32 (n : N) : Prop := (n ≤ u32_max)%N.
Definition in_u64 (n : N) : Prop := (n ≤ u64_max)%N.
Definition in_i64 (z : Z) : Prop := (i64_min ≤ z ≤ i64_max)%Z.
#[global] Instance in_u32_dec n : Decision (in_u32 n).
Proof. unfold in_u32. apply _. Defined.
#[global] Instance in_u64_dec n : Decision (in_u64 n).
Proof. unfold in_u64. apply _. Defined.
#[global] Instance in_i64_dec z : Decision (in_i64 z).
Proof. unfold in_i64. apply _. Defined.

(** [u64::checked_add], [u64::checked_mul], [u64::checked_sub], [u64::saturating_sub],
    [u64::saturating_add]; [usize] is 64 bits wide. *)
Definition checked_add (a b : N) : option N :=
  if decide (in_u64 (a + b)) then Some (a + b)%N else None.
Definition checked_mul (a b : N) : option N :=
  if decide (in_u64 (a * b)) then Some (a * b)%N else None.
Definition checked_sub (a b : N) : option N :=
  if decide (b ≤ a)%N then Some (a - b)%N else None.
Definition saturating_sub (a b : N) : N := (a - b)%N.
Definition saturating_add (a b : N) : N := (N.min (a + b) u64_max)%N.
(** [u32::try_from] and [i64::try_from] of a non-negative value. *)
Definition u32_try_from (a : N) : option N :=
  if decide (a ≤ u32_max)%N then Some a else None.
Definition i64_try_from (a : N) : option Z :=
  if decide (Z.of_N a ≤ i64_max)%Z then Some (Z.of_N a) else None.
(** [i64::checked_sub]. *)
Definition i64_checked_sub (a b : Z) : option Z :=
  if decide (in_i64 (a - b)) then Some (a - b)%Z else None.
(** [usize] lengths of slices. *)
Definition lengthN {A} (l : list A) : N := N.of_nat (length l).
#[global] Arguments lengthN : simpl never.

(** ** Tactics *)

(** Linear arithmetic after exposing the width constants. *)
Ltac ulia :=
  unfold in_u16, in_u32, in_u64, in_i64, saturating_sub, saturating_add, lengthN,
    u16_max, u32_max, u64_max, i64_min, i64_max in *; lia.

(** Expose the monad operations, then split every guard and match of the
    goal or of the hypotheses, discarding the impossible branches. *)
Ltac unfold_monad :=
  unfold mret, mbind, mthrow, fmap, result_ret, result_bind, result_throw, result_fmap,
    st_ret, st_bind, st_throw, st_get, st_put, st_lift, st_map_err, ok_or, map_err in *; cbn in *.
Ltac split_step :=
  first [ case_decide | case_match ]; simplify_eq; cbn in *.
Ltac split_all := repeat split_step.

(** Invert [x ← m; k] known to have returned [Ok]. *)
Lemma result_bind_ok {E A B} (f : A → result E B) (m : result E A) b :
  mbind f m = Ok b ↔ ∃ a, m = Ok a ∧ f a = Ok b.
Proof. destruct m; naive_solver. Qed.

(** Rewriting with these keeps the continuation folded, which [cbn] does not. *)
Lemma some_bind {A B} (f : A → option B) a : (Some a ≫= f) = f a.
Proof. done. Qed.
Lemma ok_bind {E A B} (f : A → result E B) a : (Ok a ≫= f) = f a.
Proof. done. Qed.

Lemma ok_or_ok {E A} (e : E) (o : option A) a : ok_or e o = Ok a ↔ o = Some a.
Proof. destruct o; naive_solver. Qed.

Lemma map_err_ok {E F A} (f : E → F) (r : result E A) a :
  map_err f r = Ok a ↔ r = Ok a.
Proof. destruct r; naive_solver. Qed.

(** Inverting and running the state monad one statement at a time. *)
Lemma st_bind_ok {S E A B} (m : st S E A) (f : A → st S E B) s s' b :
  mbind f m s = (s', Ok b) ↔ ∃ a s1, m s = (s1, Ok a) ∧ f a s1 = (s', Ok b).
Proof. unfold mbind, st_bind. destruct (m s) as [s1 [a|e]]; naive_solver. Qed.

Lemma st_lift_ok {S E A} (r : result E A) (s s' : S) a :
  st_lift r s = (s', Ok a) ↔ s' = s ∧ r = Ok a.
Proof. unfold st_lift. naive_solver. Qed.

Lemma st_map_err_ok {S E F A} (g : E → F) (m : st S E A) s s' a :
  st_map_err g m s = (s', Ok a) ↔ m s = (s', Ok a).
Proof. unfold st_map_err. destruct (m s) as [s1 [x|e]]; naive_solver. Qed.

Lemma st_bind_run {S E A B} (f : A → st S E B) (m : st S E A) s s1 a :
  m s = (s1, Ok a) → mbind f m s = f a s1.
Proof. unfold mbind, st_bind. by intros ->. Qed.

Lemma st_lift_run {S E A B} (f : A → st S E B) (r : result E A) s a :
  r = Ok a → mbind f (st_lift r) s = f a s.
Proof. unfold mbind, st_bind, st_lift. by intros ->. Qed.

Lemma st_get_run {S E B} (f : S → st S E B) s : mbind f st_get s = f s s.
Proof. done. Qed.

Lemma st_put_run {S E B} (f : () → st S E B) s s' : mbind f (st_put s') s = f tt s'.
Proof. done. Qed.

Lemma st_lift_err {S E A B} (f : A → st S E B) (r : result E A) s e :
  r = Err e → mbind f (st_lift r) s = (s, Err e).
Proof. unfold mbind, st_bind, st_lift. by intros ->. Qed.

Lemma checked_add_some a b c :
  checked_add a b = Some c ↔ c = (a + b)%N ∧ in_u64 (a + b).
Proof. unfold checked_add. case_decide; naive_solver. Qed.

Lemma checked_add_none a b : checked_add a b = None ↔ (u64_max < a + b)%N.
Proof. unfold checked_add, in_u64. case_decide; split; intros; try done; lia. Qed.

Lemma checked_sub_some a b c :
  checked_sub a b = Some c ↔ (b ≤ a)%N ∧ c = (a - b)%N.
Proof. unfold checked_sub. case_decide; naive_solver. Qed.

Lemma u32_try_from_some a b : u32_try_from a = Some b ↔ b = a ∧ in_u32 a.
Proof. unfold u32_try_from, in_u32. case_decide; naive_solver. Qed.

Create HintDb dbx.
Create Rewrite HintDb dbx.
#[export] Hint Rewrite @result_bind_ok @ok_or_ok @map_err_ok checked_add_some
  checked_sub_some : dbx.

(** ** Lists *)

(** [starts_with] on slices. *)
Definition starts_with {A} `{EqDecision A} (l k : list A) : bool :=
  bool_decide (take (length k) l = k).

Lemma starts_with_true {A} `{EqDecision A} (l k : list A) :
  starts_with l k = true ↔ k `prefix_of` l.
Proof.
  unfold starts_with. rewrite bool_decide_eq_true. split.
  - intros H. exists (drop (length k) l). rewrite <- H at 1. by rewrite take_drop.
  - intros [m ->]. apply take_app_length.
Qed.

(** [&l[a..b]] of a slice long enough. *)
Definition slice {A} (a b : nat) (l : list A) : list A := take (b - a) (drop a l).
#[global] Arguments slice : simpl never.

Lemma slice_here {A} n (l k : list A) : length l = n → slice 0 n (l ++ k) = l.
Proof. intros <-. unfold slice. rewrite Nat.sub_0_r, drop_0. apply take_app_length. Qed.

Lemma slice_skip {A} n a b (l k : list A) :
  length l = n → (n ≤ a)%nat → slice a b (l ++ k) = slice (a - n) (b - n) k.
Proof.
  intros <- Hn. unfold slice. rewrite drop_app_ge by done. f_equal. lia.
Qed.

Lemma drop_skip {A} n a (l k : list A) :
  length l = n → (n ≤ a)%nat → drop a (l ++ k) = drop (a - n) k.
Proof. intros <- Hn. by rewrite drop_app_ge. Qed.

Lemma length_slice {A} a b (l : list A) :
  (b ≤ length l)%nat → length (slice a b l) = (b - a)%nat.
Proof. intros. unfold slice. rewrite length_take, length_drop. lia. Qed.

(** What follows a position is a slice from there and what follows the slice. *)
Lemma drop_slice {A} a b (l : list A) : (a ≤ b)%nat → drop a l = slice a b l ++ drop b l.
Proof.
  intros Hab. unfold slice. rewrite <- (take_drop (b - a) (drop a l)) at 1. rewrite drop_drop. do 2 f_equal. lia.
Qed.

(** Cut a list at a position inside it. *)
Lemma list_cut {A} n (l : list A) :
  (n ≤ length l)%nat → ∃ l1 l2, l = l1 ++ l2 ∧ length l1 = n ∧ length l2 = (length l - n)%nat.
Proof.
  intros Hn. exists (take n l), (drop n l).
  rewrite take_drop, length_take, length_drop. split_and!; [done|lia|done].
Qed.

(** Sum of a list of counters. *)
Definition sumN (l : list N) : N := foldr N.add 0%N l.

Lemma sumN_cons x l : sumN (x :: l) = (x + sumN l)%N.
Proof. done. Qed.

Lemma sumN_app l k : sumN (l ++ k) = (sumN l + sumN k)%N.
Proof. unfold sumN. induction l; simpl in *; lia. Qed.

Lemma lengthN_app {A} (l k : list A) : lengthN (l ++ k) = (lengthN l + lengthN k)%N.
Proof. unfold lengthN. rewrite length_app. lia. Qed.

Lemma lengthN_fmap {A B} (f : A → B) l : lengthN (f <$> l) = lengthN l.
Proof. unfold lengthN. by rewrite length_fmap. Qed.

Lemma lengthN_cons {A} (x : A) l : lengthN (x :: l) = (lengthN l + 1)%N.
Proof. unfold lengthN. cbn [length]. lia. Qed.

Lemma lengthN_nil {A} : lengthN (@nil A) = 0%N.
Proof. done. Qed.
#[export] Hint Rewrite @lengthN_app @lengthN_cons @lengthN_nil sumN_app sumN_cons @fmap_cons : dbx.

(** ** Reachability of step relations *)
Section Steps.
Context {S : Type} (R : S → S → Prop).

(** An invariant of every step holds along every run. *)
Lemma rtc_invariant (P : S → Prop) s s' :
  (∀ a b, P a → R a b → P b) → rtc R s s' → P s → P s'.
Proof. intros Hstep. induction 1; eauto. Qed.

(** A preorder between consecutive states relates the ends of a run. *)
Lemma rtc_preorder (Q : S → S → Prop) `{!PreOrder Q} s s' :
  (∀ a b, R a b → Q a b) → rtc R s s' → Q s s'.
Proof.
  intros Hstep. induction 1; [reflexivity|]. etrans; eauto.
Qed.
End Steps.
