(* ===== verification/Bytes.v ===== *)
(** * Bytes, fixed-size arrays and the elementary codecs

    [u8], [[u8; N]], big-endian integers and lowercase hexadecimal names, as used
    by the cursor, the checkpoint envelope and the spool segment format. *)

From stdpp Require Export vector.
From Stdlib Require Export Strings.Byte.
From S2P Require Export Prelude.

Local Open Scope N_scope.

(** ** Bytes *)
Abbreviation byte := Byte.byte.

#[global] Instance byte_eq_dec : EqDecision byte := Byte.byte_eq_dec.
#[global] Program Instance byte_countable : Countable byte :=
  inj_countable Byte.to_N Byte.of_N _.
Next Obligation. intros b. apply Byte.of_to_N. Qed.

(** Truncating conversion, [n as u8]. *)
Definition byte_of_N (n : N) : byte :=
  match Byte.of_N (n mod 256) with Some b => b | None => x00 end.

Lemma byte_to_N_lt b : Byte.to_N b < 256.
Proof. pose proof (Byte.to_N_bounded b). lia. Qed.

Lemma byte_of_to_N b : byte_of_N (Byte.to_N b) = b.
Proof.
  unfold byte_of_N. rewrite N.mod_small by apply byte_to_N_lt.
  by rewrite Byte.of_to_N.
Qed.

Lemma byte_to_of_N n : Byte.to_N (byte_of_N n) = n mod 256.
Proof.
  unfold byte_of_N. destruct (Byte.of_N (n mod 256)) as [b|] eqn:E.
  - by apply Byte.to_of_N in E.
  - apply Byte.of_N_None_iff in E. pose proof (N.mod_lt n 256). lia.
Qed.

(** ** Fixed-size arrays *)
Abbreviation array n := (vec byte n).

(** [<[u8; N]>::from] a slice of exactly [N] bytes; the callers only pass such
    slices (see [array_of_list_id]). *)
Fixpoint array_of_list (n : nat) (l : list byte) : array n :=
  match n with
  | O => [#]
  | S n => match l with
           | [] => x00 ::: array_of_list n []
           | b :: l => b ::: array_of_list n l
           end
  end.

Lemma array_of_list_id n l : length l = n → vec_to_list (array_of_list n l) = l.
Proof. revert l. induction n; intros [|b l] [=]; cbn; f_equal; auto. Qed.

Lemma array_of_to_list n (a : array n) : array_of_list n (vec_to_list a) = a.
Proof. apply vec_to_list_inj2, array_of_list_id, length_vec_to_list. Qed.

#[global] Arguments array_of_list : simpl never.

(** An executable instance for map keys ([vec_countable] is opaque). *)
#[global] Instance array_countable n : Countable (array n) :=
  inj_countable' vec_to_list (array_of_list n) (array_of_to_list n).

(** [format::take]: reads [N] bytes at the offset; the offset is the part of the
    slice already consumed. *)
Definition take_array (n : nat) (input : list byte) : array n * list byte :=
  (array_of_list n (take n input), drop n input).

Lemma take_array_app n (a : array n) rest :
  take_array n (vec_to_list a ++ rest) = (a, rest).
Proof.
  unfold take_array. rewrite take_app_length', drop_app_length' by (by rewrite length_vec_to_list).
  by rewrite array_of_to_list.
Qed.

Lemma take_array_spec n input :
  (n ≤ length input)%nat →
  vec_to_list (take_array n input).1 ++ (take_array n input).2 = input
  ∧ length (take_array n input).2 = (length input - n)%nat.
Proof.
  intros Hn. cbn. rewrite array_of_list_id by (rewrite length_take; lia).
  by rewrite take_drop, length_drop.
Qed.

(** ** Big-endian integers: [to_be_bytes] and [from_be_bytes] *)
Fixpoint be_bytes (n : nat) (v : N) : list byte :=
  match n with
  | O => []
  | S n => be_bytes n (v / 256) ++ [byte_of_N v]
  end.

Definition from_be (l : list byte) : N :=
  fold_left (λ acc b, acc * 256 + Byte.to_N b) l 0.

Lemma length_be_bytes n v : length (be_bytes n v) = n.
Proof. revert v. induction n; intros v; cbn; [done|]. rewrite length_app, IHn. cbn. lia. Qed.

Lemma from_be_snoc l b : from_be (l ++ [b]) = from_be l * 256 + Byte.to_N b.
Proof. unfold from_be. by rewrite fold_left_app. Qed.

Lemma from_be_bytes n v : from_be (be_bytes n v) = v mod 256 ^ N.of_nat n.
Proof.
  revert v. induction n; intros v.
  - cbn. by rewrite N.mod_1_r.
  - cbn [be_bytes]. rewrite from_be_snoc, IHn, byte_to_of_N, Nat2N.inj_succ, N.pow_succ_r'.
    rewrite N.Div0.mod_mul_r. lia.
Qed.

Lemma from_be_lt l : from_be l < 256 ^ lengthN l.
Proof.
  induction l as [|b l IH] using rev_ind; [done|].
  rewrite from_be_snoc. autorewrite with dbx.
  change (lengthN [b]) with 1. rewrite N.pow_add_r, N.pow_1_r.
  pose proof (byte_to_N_lt b). nia.
Qed.

Lemma be_bytes_from l : be_bytes (length l) (from_be l) = l.
Proof.
  induction l as [|b l IH] using rev_ind; [done|].
  rewrite length_app, Nat.add_1_r. cbn [be_bytes]. rewrite from_be_snoc.
  pose proof (byte_to_N_lt b).
  rewrite N.div_add_l, (N.div_small (Byte.to_N b)), N.add_0_r, IH by lia.
  do 2 f_equal. unfold byte_of_N.
  rewrite N.add_comm, N.Div0.mod_add, N.mod_small, Byte.of_to_N by lia. done.
Qed.

Lemma be_bytes_mod n v : be_bytes n (v mod 256 ^ N.of_nat n) = be_bytes n v.
Proof.
  rewrite <- from_be_bytes. rewrite <- (length_be_bytes n v) at 1. apply be_bytes_from.
Qed.

Definition u16_be (v : N) : list byte := be_bytes 2 v.
Definition u32_be (v : N) : list byte := be_bytes 4 v.
Definition u64_be (v : N) : list byte := be_bytes 8 v.

(** [i64::to_be_bytes] and [i64::from_be_bytes]: two's complement. *)
Definition i64_be (z : Z) : list byte := u64_be (Z.to_N (z mod 2 ^ 64)).
Definition i64_from_be (l : list byte) : Z :=
  let n := Z.of_N (from_be l) in if decide (n < 2 ^ 63)%Z then n else (n - 2 ^ 64)%Z.

Lemma u16_from_be v : in_u16 v → from_be (u16_be v) = v.
Proof. intros. unfold u16_be. rewrite from_be_bytes. apply N.mod_small. change (256 ^ _) with 65536. ulia. Qed.
Lemma u32_from_be v : in_u32 v → from_be (u32_be v) = v.
Proof. intros. unfold u32_be. rewrite from_be_bytes. apply N.mod_small. change (256 ^ _) with 4294967296. ulia. Qed.
Lemma u64_from_be v : in_u64 v → from_be (u64_be v) = v.
Proof.
  intros. unfold u64_be. rewrite from_be_bytes. apply N.mod_small.
  change (256 ^ _) with 18446744073709551616. ulia.
Qed.

Lemma from_be_in_u64 l : length l = 8%nat → in_u64 (from_be l).
Proof.
  intros Hl. pose proof (from_be_lt l) as H. unfold lengthN in H. rewrite Hl in H.
  change (256 ^ _) with 18446744073709551616 in H. ulia.
Qed.
Lemma from_be_in_u32 l : length l = 4%nat → in_u32 (from_be l).
Proof.
  intros Hl. pose proof (from_be_lt l) as H. unfold lengthN in H. rewrite Hl in H.
  change (256 ^ _) with 4294967296 in H. ulia.
Qed.

Lemma u64_be_from l : length l = 8%nat → u64_be (from_be l) = l.
Proof. intros H. unfold u16_be, u32_be, u64_be. rewrite <- H. apply be_bytes_from. Qed.
Lemma u32_be_from l : length l = 4%nat → u32_be (from_be l) = l.
Proof. intros H. unfold u16_be, u32_be, u64_be. rewrite <- H. apply be_bytes_from. Qed.
Lemma u16_be_from l : length l = 2%nat → u16_be (from_be l) = l.
Proof. intros H. unfold u16_be, u32_be, u64_be. rewrite <- H. apply be_bytes_from. Qed.

Lemma i64_from_be_i64_be z : in_i64 z → i64_from_be (i64_be z) = z.
Proof.
  intros H. unfold i64_from_be, i64_be. pose proof (Z.mod_pos_bound z (2 ^ 64) eq_refl).
  rewrite u64_from_be, Z2N.id by ulia.
  destruct (decide (0 ≤ z)%Z).
  - rewrite Z.mod_small by ulia. case_decide; ulia.
  - assert (z mod 2 ^ 64 = z + 2 ^ 64)%Z as ->.
    { rewrite <- (Z_mod_plus_full z 1). apply Z.mod_small. ulia. }
    case_decide; ulia.
Qed.

Lemma i64_from_be_bounds l : length l = 8%nat → in_i64 (i64_from_be l).
Proof.
  intros H%from_be_in_u64. unfold i64_from_be. case_decide; ulia.
Qed.

Lemma i64_be_from l : length l = 8%nat → i64_be (i64_from_be l) = l.
Proof.
  intros Hl. pose proof (from_be_in_u64 l Hl). unfold i64_be, i64_from_be.
  assert (∀ n, (0 ≤ n < 2 ^ 64)%Z → ((n - 2 ^ 64) mod 2 ^ 64 = n)%Z) as Hsub.
  { intros n ?. rewrite <- (Z_mod_plus_full _ 1), Z.mod_small; lia. }
  case_decide; [rewrite Z.mod_small by ulia | rewrite Hsub by ulia];
    rewrite N2Z.id; by apply u64_be_from.
Qed.

Lemma length_u16_be v : length (u16_be v) = 2%nat. Proof. apply length_be_bytes. Qed.
Lemma length_u32_be v : length (u32_be v) = 4%nat. Proof. apply length_be_bytes. Qed.
Lemma length_u64_be v : length (u64_be v) = 8%nat. Proof. apply length_be_bytes. Qed.
Lemma length_i64_be v : length (i64_be v) = 8%nat. Proof. apply length_be_bytes. Qed.
#[global] Opaque u16_be u32_be u64_be i64_be from_be i64_from_be.
Create Rewrite HintDb lens.
#[export] Hint Rewrite length_u16_be length_u32_be length_u64_be length_i64_be
  @length_vec_to_list @length_app : lens.

(** ** The digest

    [ring::digest] with [SHA256].  A [Context] hashes the concatenation of its
    [update]s; the function itself is a parameter of the model. *)
Class Sha256 := sha256 : list byte → array 32.

(** ** Lowercase hexadecimal names (identity.rs) *)
Definition HEX : list byte := String.list_byte_of_string "0123456789abcdef".

Definition hex_digit (n : N) : byte := default x00 (HEX !! N.to_nat n).

Definition encode_hex (bytes : list byte) : list byte :=
  b ← bytes; [hex_digit (N.shiftr (Byte.to_N b) 4); hex_digit (N.land (Byte.to_N b) 15)].

Definition is_lower_hex (b : byte) : bool :=
  bool_decide (48 ≤ Byte.to_N b ≤ 57) || bool_decide (97 ≤ Byte.to_N b ≤ 102).

Definition hex_value (b : byte) : option N :=
  let n := Byte.to_N b in
  if bool_decide (48 ≤ n ≤ 57) then Some (n - 48)
  else if bool_decide (97 ≤ n ≤ 102) then Some (n - 97 + 10)
  else None.

(** The loop over the output array: two input bytes per output byte. *)
Fixpoint decode_hex_loop (value : list byte) : option (list byte) :=
  match value with
  | hi :: lo :: rest =>
      high ← hex_value hi; low ← hex_value lo;
      out ← decode_hex_loop rest;
      Some (byte_of_N (N.lor (N.shiftl high 4) low) :: out)
  | _ => Some []
  end.

Definition decode_hex (n : nat) (value : list byte) : option (array n) :=
  if bool_decide (length value ≠ (n * 2)%nat) || negb (forallb is_lower_hex value) then None
  else array_of_list n <$> decode_hex_loop value.

(** Every byte survives its two digits; checked by enumeration. *)
Lemma hex_digits_byte b :
  is_lower_hex (hex_digit (N.shiftr (Byte.to_N b) 4)) = true
  ∧ is_lower_hex (hex_digit (N.land (Byte.to_N b) 15)) = true
  ∧ hex_value (hex_digit (N.shiftr (Byte.to_N b) 4)) = Some (N.shiftr (Byte.to_N b) 4)
  ∧ hex_value (hex_digit (N.land (Byte.to_N b) 15)) = Some (N.land (Byte.to_N b) 15)
  ∧ byte_of_N (N.lor (N.shiftl (N.shiftr (Byte.to_N b) 4) 4) (N.land (Byte.to_N b) 15)) = b.
Proof. destruct b; vm_compute; auto. Qed.

Lemma hex_value_digit b h : hex_value b = Some h → h < 16 ∧ hex_digit h = b.
Proof. destruct b; vm_compute; intros [=<-]; auto. Qed.

(** Joining two digits and splitting the byte again. *)
Lemma nibbles h l : h < 16 → l < 16 →
  let b := Byte.to_N (byte_of_N (N.lor (N.shiftl h 4) l)) in
  N.shiftr b 4 = h ∧ N.land b 15 = l.
Proof.
  intros Hh Hl. cbn zeta.
  assert (∀ n, n < 16 → n ∈ N.of_nat <$> seq 0 16) as Hin
    by (intros n Hn; apply list_elem_of_fmap; exists (N.to_nat n); rewrite elem_of_seq; lia).
  assert (Forall (λ h, Forall (λ l,
    N.shiftr (Byte.to_N (byte_of_N (N.lor (N.shiftl h 4) l))) 4 = h
    ∧ N.land (Byte.to_N (byte_of_N (N.lor (N.shiftl h 4) l))) 15 = l) (N.of_nat <$> seq 0 16)) (N.of_nat <$> seq 0 16)) as HF
    by (apply (bool_decide_unpack _); vm_compute; exact I).
  rewrite Forall_forall in HF. specialize (HF h (Hin h Hh)).
  rewrite Forall_forall in HF. apply (HF l (Hin l Hl)).
Qed.

Lemma length_encode_hex l : length (encode_hex l) = (length l * 2)%nat.
Proof. induction l as [|b l IH]; [done|]. change (length (encode_hex (b :: l))) with (S (S (length (encode_hex l)))). cbn. lia. Qed.

Lemma forallb_encode_hex l : forallb is_lower_hex (encode_hex l) = true.
Proof.
  induction l as [|b l IH]; [done|].
  destruct (hex_digits_byte b) as (H1 & H2 & _).
  change (encode_hex (b :: l)) with
    (hex_digit (N.shiftr (Byte.to_N b) 4) :: hex_digit (N.land (Byte.to_N b) 15) :: encode_hex l).
  cbn -[is_lower_hex hex_digit encode_hex N.land N.shiftr]. by rewrite H1, H2.
Qed.

Lemma decode_hex_loop_encode l : decode_hex_loop (encode_hex l) = Some l.
Proof.
  induction l as [|b l IH]; [done|].
  destruct (hex_digits_byte b) as (_ & _ & H3 & H4 & H5).
  change (encode_hex (b :: l)) with
    (hex_digit (N.shiftr (Byte.to_N b) 4) :: hex_digit (N.land (Byte.to_N b) 15) :: encode_hex l).
  cbn -[hex_value hex_digit encode_hex N.land N.shiftr N.shiftl N.lor byte_of_N].
  rewrite H3, H4. cbn -[encode_hex N.land N.shiftr N.shiftl N.lor byte_of_N].
  rewrite IH. cbn -[N.land N.shiftr N.shiftl N.lor byte_of_N]. by rewrite H5.
Qed.

Lemma decode_encode_hex n (a : array n) : decode_hex n (encode_hex (vec_to_list a)) = Some a.
Proof.
  unfold decode_hex. rewrite length_encode_hex, forallb_encode_hex, length_vec_to_list.
  rewrite bool_decide_false by (intros []; done). cbn.
  by rewrite decode_hex_loop_encode; cbn; rewrite array_of_to_list.
Qed.

Lemma decode_hex_loop_inv n value out :
  length value = (n * 2)%nat → decode_hex_loop value = Some out →
  length out = n ∧ encode_hex out = value.
Proof.
  revert value out. induction n as [|n IH]; intros [|hi [|lo rest]] out; intros Hlen; try discriminate Hlen.
  - cbn. intros [=<-]. done.
  - cbn -[hex_value byte_of_N N.lor N.shiftl].
    destruct (hex_value hi) as [h|] eqn:Hh; [|done].
    destruct (hex_value lo) as [l|] eqn:Hl; [|done].
    cbn -[hex_value byte_of_N N.lor N.shiftl].
    destruct (decode_hex_loop rest) as [o|] eqn:Ho; [|done].
    intros [=<-]. destruct (IH rest o) as [<- He]; [cbn in Hlen; lia|done|].
    apply hex_value_digit in Hh as [Hh Hhd], Hl as [Hl Hld].
    destruct (nibbles h l Hh Hl) as [H1 H2]. split; [done|].
    change (encode_hex (?b :: o)) with
      ([hex_digit (N.shiftr (Byte.to_N b) 4); hex_digit (N.land (Byte.to_N b) 15)] ++ encode_hex o).
    by rewrite H1, H2, He, Hhd, Hld.
Qed.

(** A name is accepted exactly when it is the canonical encoding. *)
Lemma decode_hex_some n value (a : array n) :
  decode_hex n value = Some a ↔ value = encode_hex (vec_to_list a).
Proof.
  split; [|intros ->; apply decode_encode_hex].
  unfold decode_hex. destruct (decide (length value = (n * 2)%nat)) as [Hlen|Hlen];
    [rewrite bool_decide_false by tauto|by rewrite bool_decide_true].
  cbn -[decode_hex_loop]. destruct (forallb is_lower_hex value); [|done]. cbn -[decode_hex_loop].
  destruct (decode_hex_loop value) as [out|] eqn:Ho; [|done]. cbn. intros [=<-].
  destruct (decode_hex_loop_inv n value out Hlen Ho) as [Hn <-].
  by rewrite array_of_list_id.
Qed.

(** ** The order of byte strings *)
Fixpoint bytes_le (a b : list byte) : bool :=
  match a, b with
  | [], _ => true
  | _, [] => false
  | x :: a, y :: b =>
      match N.compare (Byte.to_N x) (Byte.to_N y) with Lt => true | Gt => false | Eq => bytes_le a b end
  end.
