(* ===== verification/Cursor.v ===== *)
(** * The composite rising cursor (crates/dbx-rs-connector-sdk/src/cursor.rs)

    A cursor is a (timestamp, identifier) pair ordered lexicographically, with a
    stable 18-byte representation, and a request computes the lower bound of the
    next query from the committed cursor, an overlap window and a resume cursor. *)

From S2P Require Export Bytes.

Local Open Scope Z_scope.
Local Open Scope dbx_scope.

(** ** Data *)

(** [i64] fields; [wf_cursor] is the width. *)
Record TimestampIdCursor := mkCursor {
  timestamp_epoch_micros : Z;
  cursor_id : Z;
}.

#[global] Instance cursor_eq_dec : EqDecision TimestampIdCursor.
Proof. solve_decision. Defined.

Definition wf_cursor (c : TimestampIdCursor) : Prop :=
  in_i64 (timestamp_epoch_micros c) ∧ in_i64 (cursor_id c).

Definition TIMESTAMP_ID_CURSOR_FORMAT_VERSION : N := 1.
Definition TIMESTAMP_ID_CURSOR_CANONICAL_BYTES : nat := 18.

(** [std::time::Duration]: whole seconds and less than a second of nanoseconds. *)
Record Duration := mkDuration { secs : N; nanos : N }.
Definition wf_duration (d : Duration) : Prop := in_u64 (secs d) ∧ (nanos d < 1000000000)%N.
Definition is_zero (d : Duration) : bool := bool_decide (secs d = 0 ∧ nanos d = 0)%N.
Definition as_micros (d : Duration) : N := (secs d * 1000000 + nanos d / 1000)%N.

Inductive CursorNullPolicy := Reject.

(** Strings are sequences of Unicode scalar values. *)
Abbreviation rust_string := (list N).

(** [char::is_whitespace]: the Unicode White_Space property. *)
Definition is_whitespace (c : N) : bool :=
  bool_decide ((9 ≤ c ≤ 13)%N ∨ c = 32%N ∨ c = 133%N ∨ c = 160%N ∨ c = 5760%N
    ∨ (8192 ≤ c ≤ 8202)%N ∨ c = 8232%N ∨ c = 8233%N ∨ c = 8239%N ∨ c = 8287%N ∨ c = 12288%N).

(** [str::trim]. *)
Fixpoint trim_start (s : rust_string) : rust_string :=
  match s with
  | [] => []
  | c :: rest => if is_whitespace c then trim_start rest else s
  end.
Definition trim (s : rust_string) : rust_string := reverse (trim_start (reverse (trim_start s))).

Record TimestampIdCursorSpec := mkSpec {
  timestamp_field : rust_string;
  id_field : rust_string;
  overlap : Duration;
  null_policy : CursorNullPolicy;
}.

Record TimestampIdCursorBound := mkBound {
  bound_value : TimestampIdCursor;
  inclusive : bool;
}.

Record TimestampIdCursorRequest := mkRequest {
  req_spec : TimestampIdCursorSpec;
  req_committed : option TimestampIdCursor;
  req_resume_after : option TimestampIdCursor;
}.

Inductive CursorContractError :=
  | EmptyFieldName
  | DuplicateFieldName
  | OverlapOutOfRange
  | OverlapPrecisionLoss
  | TimestampUnderflow
  | ResumeBeforeInitialBound
  | InvalidCanonicalLength
  | UnsupportedFormatVersion.

#[global] Instance contract_error_eq_dec : EqDecision CursorContractError.
Proof. solve_decision. Defined.

(** ** Operations *)

Definition position_cmp (self other : TimestampIdCursor) : comparison :=
  match timestamp_epoch_micros self ?= timestamp_epoch_micros other with
  | Eq => cursor_id self ?= cursor_id other
  | ordering => ordering
  end.

Definition to_canonical_bytes (self : TimestampIdCursor) : list byte :=
  u16_be TIMESTAMP_ID_CURSOR_FORMAT_VERSION ++ i64_be (timestamp_epoch_micros self)
    ++ i64_be (cursor_id self).

Definition from_canonical_bytes (bytes : list byte)
    : result CursorContractError TimestampIdCursor :=
  reject InvalidCanonicalLength when (length bytes ≠ TIMESTAMP_ID_CURSOR_CANONICAL_BYTES);;
  let version := from_be (take 2 bytes) in
  reject UnsupportedFormatVersion when (version ≠ TIMESTAMP_ID_CURSOR_FORMAT_VERSION);;
  let timestamp := i64_from_be (take 8 (drop 2 bytes)) in
  let ident := i64_from_be (drop 10 bytes) in
  mret (mkCursor timestamp ident).

Definition spec_validate (self : TimestampIdCursorSpec) : result CursorContractError () :=
  reject EmptyFieldName
    when (trim (timestamp_field self) = [] ∨ trim (id_field self) = []);;
  reject DuplicateFieldName when (timestamp_field self = id_field self);;
  reject OverlapPrecisionLoss when (nanos (overlap self) `mod` 1000 ≠ 0)%N;;
  _ ← ok_or OverlapOutOfRange (i64_try_from (as_micros (overlap self)));
  mret ().

Definition initial_bound (self : TimestampIdCursorRequest)
    : result CursorContractError (option TimestampIdCursorBound) :=
  match req_committed self with
  | None => mret None
  | Some committed =>
      if is_zero (overlap (req_spec self)) then
        mret (Some (mkBound committed false))
      else
        overlap_micros ← ok_or OverlapOutOfRange (i64_try_from (as_micros (overlap (req_spec self))));
        timestamp ← ok_or TimestampUnderflow
          (i64_checked_sub (timestamp_epoch_micros committed) overlap_micros);
        mret (Some (mkBound (mkCursor timestamp i64_min) true))
  end.

Definition effective_bound (self : TimestampIdCursorRequest)
    : result CursorContractError (option TimestampIdCursorBound) :=
  _ ← spec_validate (req_spec self);
  match req_resume_after self with
  | Some resume_after =>
      initial ← initial_bound self;
      reject ResumeBeforeInitialBound
        when (is_some_and (λ bound,
          bool_decide (position_cmp resume_after (bound_value bound) = Lt)) initial);;
      mret (Some (mkBound resume_after false))
  | None => initial_bound self
  end.

(** ** The cursor order *)

Definition cursor_lt (a b : TimestampIdCursor) : Prop := position_cmp a b = Lt.
Definition cursor_le (a b : TimestampIdCursor) : Prop := position_cmp a b ≠ Gt.
#[global] Instance cursor_lt_dec a b : Decision (cursor_lt a b).
Proof. unfold cursor_lt. apply _. Defined.
#[global] Instance cursor_le_dec a b : Decision (cursor_le a b).
Proof. unfold cursor_le. apply _. Defined.

(** The order as arithmetic on the two fields. *)
Lemma cursor_lt_spec a b :
  cursor_lt a b ↔ timestamp_epoch_micros a < timestamp_epoch_micros b
    ∨ (timestamp_epoch_micros a = timestamp_epoch_micros b ∧ cursor_id a < cursor_id b).
Proof.
  unfold cursor_lt, position_cmp.
  destruct (Z.compare_spec (timestamp_epoch_micros a) (timestamp_epoch_micros b)),
    (Z.compare_spec (cursor_id a) (cursor_id b)); split; intros; try done; lia.
Qed.

Lemma cursor_le_spec a b :
  cursor_le a b ↔ timestamp_epoch_micros a < timestamp_epoch_micros b
    ∨ (timestamp_epoch_micros a = timestamp_epoch_micros b ∧ cursor_id a ≤ cursor_id b).
Proof.
  unfold cursor_le, position_cmp.
  destruct (Z.compare_spec (timestamp_epoch_micros a) (timestamp_epoch_micros b)),
    (Z.compare_spec (cursor_id a) (cursor_id b)); split; intros; try done; lia.
Qed.

Lemma position_cmp_gt a b : position_cmp a b = Gt ↔ cursor_lt b a.
Proof.
  rewrite cursor_lt_spec. unfold position_cmp.
  destruct (Z.compare_spec (timestamp_epoch_micros a) (timestamp_epoch_micros b)),
    (Z.compare_spec (cursor_id a) (cursor_id b)); split; intros; try done; lia.
Qed.

Lemma position_cmp_not_lt a b : position_cmp a b ≠ Lt ↔ cursor_le b a.
Proof.
  rewrite cursor_le_spec. unfold position_cmp.
  destruct (Z.compare_spec (timestamp_epoch_micros a) (timestamp_epoch_micros b)),
    (Z.compare_spec (cursor_id a) (cursor_id b)); split; intros; try done; lia.
Qed.

Lemma position_cmp_eq a b : position_cmp a b = Eq ↔ a = b.
Proof.
  destruct a as [ta ia], b as [tb ib]. unfold position_cmp. cbn.
  destruct (Z.compare_spec ta tb), (Z.compare_spec ia ib);
    split; intros; simplify_eq; try done; lia.
Qed.

#[global] Instance cursor_le_preorder : PreOrder cursor_le.
Proof.
  split.
  - intros a. rewrite cursor_le_spec. lia.
  - intros a b c. rewrite !cursor_le_spec. lia.
Qed.
#[global] Instance cursor_lt_strict : StrictOrder cursor_lt.
Proof.
  split.
  - intros a. unfold complement. rewrite cursor_lt_spec. lia.
  - intros a b c. rewrite !cursor_lt_spec. lia.
Qed.
Lemma cursor_lt_le a b : cursor_lt a b → cursor_le a b.
Proof. rewrite cursor_lt_spec, cursor_le_spec. lia. Qed.

(** The order on optional cursors: [None] is before every cursor. *)
Definition opt_cursor_le (a b : option TimestampIdCursor) : Prop :=
  match a, b with
  | None, _ => True
  | Some a, Some b => cursor_le a b
  | Some _, None => False
  end.
#[global] Instance opt_cursor_le_preorder : PreOrder opt_cursor_le.
Proof.
  split.
  - intros [a|]; cbn; [reflexivity|done].
  - intros [a|] [b|] [c|]; cbn; try done. apply transitivity.
Qed.
#[export] Hint Resolve cursor_lt_le : dbx.

(** ** What the bound means for the query

    The connectors translate an exclusive bound to [position > value] and an
    inclusive one to [position >= value]. *)
Definition bound_admits (bound : option TimestampIdCursorBound) (row : TimestampIdCursor) : Prop :=
  match bound with
  | None => True
  | Some b => if inclusive b then cursor_le (bound_value b) row else cursor_lt (bound_value b) row
  end.

(** ** Lemmas *)

Lemma length_to_canonical_bytes c :
  length (to_canonical_bytes c) = TIMESTAMP_ID_CURSOR_CANONICAL_BYTES.
Proof. unfold to_canonical_bytes. by autorewrite with lens. Qed.

Lemma spec_validate_ok s :
  spec_validate s = Ok tt ↔
    trim (timestamp_field s) ≠ [] ∧ trim (id_field s) ≠ [] ∧ timestamp_field s ≠ id_field s
    ∧ (nanos (overlap s) `mod` 1000 = 0)%N ∧ Z.of_N (as_micros (overlap s)) ≤ i64_max.
Proof.
  unfold spec_validate, i64_try_from. unfold_monad.
  repeat case_decide; cbn; split; intros; try done; naive_solver.
Qed.

(** Under a valid definition the bound is fixed by the overlap. *)
Lemma initial_bound_ok req b :
  initial_bound req = Ok b →
  b = match req_committed req with
      | None => None
      | Some c =>
          if is_zero (overlap (req_spec req)) then Some (mkBound c false)
          else Some (mkBound (mkCursor (timestamp_epoch_micros c
            - Z.of_N (as_micros (overlap (req_spec req)))) i64_min) true)
      end.
Proof.
  unfold initial_bound, i64_try_from, i64_checked_sub. unfold_monad.
  destruct (req_committed req) as [c|]; [|naive_solver].
  destruct (is_zero _); [naive_solver|]. repeat case_decide; naive_solver.
Qed.

Lemma bound_admits_inclusive ts row :
  in_i64 (cursor_id row) →
  bound_admits (Some (mkBound (mkCursor ts i64_min) true)) row ↔ ts ≤ timestamp_epoch_micros row.
Proof. intros Hid. cbn. rewrite cursor_le_spec. cbn. ulia. Qed.

(** What the bound of a successful request admits. *)
Lemma effective_bound_admits req bound row :
  effective_bound req = Ok bound → in_i64 (cursor_id row) →
  bound_admits bound row ↔
    match req_resume_after req, req_committed req with
    | Some r, _ => cursor_lt r row
    | None, None => True
    | None, Some c =>
        if is_zero (overlap (req_spec req)) then cursor_lt c row
        else timestamp_epoch_micros c - Z.of_N (as_micros (overlap (req_spec req)))
               ≤ timestamp_epoch_micros row
    end.
Proof.
  unfold effective_bound. intros H Hid.
  apply result_bind_ok in H as ([] & _ & H).
  destruct (req_resume_after req) as [r|].
  - apply result_bind_ok in H as (ini & _ & H). revert H. unfold_monad.
    case_decide; naive_solver.
  - apply initial_bound_ok in H as ->. destruct (req_committed req) as [c|]; [|done].
    destruct (is_zero _); [done|]. by apply bound_admits_inclusive.
Qed.

(** ** Properties *)

(** The cursor order is a strict total order: antisymmetric under argument
    exchange, [Equal] exactly on equal cursors, transitive and total. *)
Theorem position_cmp_total_order a b c :
  position_cmp b a = CompOpp (position_cmp a b)
  ∧ (position_cmp a b = Eq ↔ a = b)
  ∧ (position_cmp a b = Lt → position_cmp b c = Lt → position_cmp a c = Lt)
  ∧ (cursor_lt a b ∨ a = b ∨ cursor_lt b a).
Proof.
  split_and!.
  - unfold position_cmp.
    rewrite (Z.compare_antisym (timestamp_epoch_micros a)), (Z.compare_antisym (cursor_id a)).
    by destruct (timestamp_epoch_micros a ?= _).
  - apply position_cmp_eq.
  - intros H1 H2. exact (transitivity (R := cursor_lt) H1 H2).
  - destruct (position_cmp a b) eqn:E.
    + right; left. by apply position_cmp_eq.
    + by left.
    + right; right. by apply position_cmp_gt.
Qed.

(** Decoding accepts exactly the canonical representation of the cursors
    whose fields fit 64 bits; the encoding round-trips in both directions. *)
Theorem canonical_bytes_iff bytes c :
  from_canonical_bytes bytes = Ok c ↔ wf_cursor c ∧ bytes = to_canonical_bytes c.
Proof.
  unfold from_canonical_bytes, to_canonical_bytes, wf_cursor. unfold_monad. split.
  - case_decide as Hlen; [done|].
    case_decide as Hver; [done|]. intros [=<-]. cbn.
    change TIMESTAMP_ID_CURSOR_CANONICAL_BYTES with 18%nat in Hlen.
    assert (length (take 2 bytes) = 2%nat) by (rewrite length_take; lia).
    assert (length (take 8 (drop 2 bytes)) = 8%nat) by (rewrite length_take, length_drop; lia).
    assert (length (drop 10 bytes) = 8%nat) by (rewrite length_drop; lia).
    split; [split; by apply i64_from_be_bounds|].
    rewrite <- Hver, u16_be_from, !i64_be_from by done.
    change (drop 10 bytes) with (drop (2 + 8) bytes). by rewrite <- drop_drop, !take_drop.
  - intros [[Ht Hi] ->]. destruct c as [ts i]. cbn in *.
    autorewrite with lens. rewrite decide_False by (intros []; done).
    rewrite take_app_length' by (by autorewrite with lens).
    rewrite u16_from_be by done. rewrite decide_False by (intros []; done).
    rewrite drop_app_length' by (by autorewrite with lens).
    rewrite take_app_length' by (by autorewrite with lens).
    change 10%nat with (2 + 8)%nat. rewrite <- drop_drop.
    rewrite !drop_app_length' by (by autorewrite with lens).
    by rewrite !i64_from_be_i64_be.
Qed.

(** The bound selects exactly the intended window.  A resume cursor wins and
    is exclusive; without overlap the query continues strictly after the
    committed tuple; with overlap it rereads every row from the rewound
    timestamp on, whatever its identifier. *)
Theorem effective_bound_window req bound row :
  effective_bound req = Ok bound → in_i64 (cursor_id row) →
  bound_admits bound row ↔
    match req_resume_after req, req_committed req with
    | Some r, _ => cursor_lt r row
    | None, None => True
    | None, Some c =>
        if is_zero (overlap (req_spec req)) then cursor_lt c row
        else timestamp_epoch_micros c - Z.of_N (as_micros (overlap (req_spec req)))
               ≤ timestamp_epoch_micros row
    end.
Proof. apply effective_bound_admits. Qed.

(** No row is skipped: whatever the overlap, a first-page query reads every
    row positioned after the committed cursor; and a resume cursor is never
    accepted before the start of that window. *)
Theorem effective_bound_no_skip req bound c row :
  effective_bound req = Ok bound → in_i64 (cursor_id row) → req_committed req = Some c →
  match req_resume_after req with
  | None => cursor_lt c row → bound_admits bound row
  | Some r => ∃ ini, initial_bound req = Ok (Some ini) ∧ cursor_le (bound_value ini) r
      ∧ bound = Some (mkBound r false)
  end.
Proof.
  intros H Hid Hc. destruct (req_resume_after req) as [r|] eqn:Hr.
  - unfold effective_bound in H. rewrite Hr in H.
    apply result_bind_ok in H as ([] & _ & H). apply result_bind_ok in H as (ini & Hi & H).
    pose proof (initial_bound_ok _ _ Hi) as E. rewrite Hc in E.
    assert (∃ b, ini = Some b) as [b ->] by (destruct (is_zero _); eauto).
    revert H. unfold_monad. case_decide as Hd; [done|]. intros [=<-].
    exists b. split_and!; try done.
    apply position_cmp_not_lt. contradict Hd. by apply Is_true_true, bool_decide_eq_true.
  - intros Hlt. apply (effective_bound_admits _ _ row H Hid). rewrite Hr, Hc.
    destruct (is_zero _); [done|]. apply cursor_lt_spec in Hlt. lia.
Qed.

(** ** Witnesses *)
Definition sample_spec (ov : Duration) : TimestampIdCursorSpec :=
  mkSpec [117; 112]%N [105; 100]%N ov Reject.
Definition sample_request : TimestampIdCursorRequest :=
  mkRequest (sample_spec (mkDuration 2 0)) (Some (mkCursor 5000000 42)) None.

Lemma effective_bound_window_witness :
  bound_admits (Some (mkBound (mkCursor 3000000 i64_min) true)) (mkCursor 3000000 7) ↔
    5000000 - 2000000 ≤ 3000000.
Proof.
  apply (effective_bound_window sample_request); [vm_compute; reflexivity|].
  unfold in_i64, i64_min, i64_max. cbn. lia.
Defined.

Lemma effective_bound_no_skip_witness :
  bound_admits (Some (mkBound (mkCursor 3000000 i64_min) true)) (mkCursor 5000000 43).
Proof.
  apply (effective_bound_no_skip sample_request
    (Some (mkBound (mkCursor 3000000 i64_min) true)) (mkCursor 5000000 42) (mkCursor 5000000 43)).
  - vm_compute. reflexivity.
  - unfold in_i64, i64_min, i64_max. cbn. lia.
  - reflexivity.
  - vm_compute. reflexivity.
Defined.
