(* ===== verification/Checkpoint.v ===== *)
(** * The checkpoint coordinator (crates/dbx-rs-checkpoint/src/lib.rs)

    The in-memory state machine that gates cursor advancement on a completed
    collection and a confirmed delivery of the same attempt.  Every method taking
    [&mut self] is a state-passing function of type [st Snapshot _ _]. *)

From S2P Require Export Cursor.

Local Open Scope N_scope.
Local Open Scope dbx_scope.

(** ** Data *)

Definition SNAPSHOT_FORMAT_VERSION : N := 1.

Definition AttemptId : Type := array 16.

Record AttemptFence := mkFence {
  attempt_id : AttemptId;
  fence_configuration_id : array 32;
  fence_generation : N;
}.

Inductive CollectionState :=
  | CollInProgress
  | CollCompleted (rows : N) (candidate : option TimestampIdCursor)
  | CollFailed.

Inductive DeliveryState :=
  | DelInProgress
  | DelConfirmed (rows : N)
  | DelFailed
  | DelUncertain.

Record ActiveAttempt := mkActive {
  fence : AttemptFence;
  collection : CollectionState;
  delivery : DeliveryState;
}.

Record CommittedAttempt := mkCommitted {
  committed_fence : AttemptFence;
  resulting_generation : N;
}.

Record Snapshot := mkSnapshot {
  snap_format_version : N;
  configuration_id : array 32;
  generation : N;
  committed : option TimestampIdCursor;
  active_attempt : option ActiveAttempt;
  last_committed_attempt : option CommittedAttempt;
}.

#[global] Instance AttemptId_eq_dec : EqDecision AttemptId.
Proof. unfold AttemptId. apply _. Defined.
#[global] Instance AttemptFence_eq_dec : EqDecision AttemptFence.
Proof. solve_decision. Defined.
#[global] Instance CollectionState_eq_dec : EqDecision CollectionState.
Proof. solve_decision. Defined.
#[global] Instance DeliveryState_eq_dec : EqDecision DeliveryState.
Proof. solve_decision. Defined.
#[global] Instance ActiveAttempt_eq_dec : EqDecision ActiveAttempt.
Proof. solve_decision. Defined.
#[global] Instance CommittedAttempt_eq_dec : EqDecision CommittedAttempt.
Proof. solve_decision. Defined.
#[global] Instance Snapshot_eq_dec : EqDecision Snapshot.
Proof. solve_decision. Defined.

Inductive StartOutcome := Started | AlreadyActive.
Inductive RecordOutcome := Recorded | Unchanged.
Inductive CommitOutcome :=
  | Committed (generation : N) (cursor_advanced : bool)
  | AlreadyCommitted (generation : N).

Module ReplayReason.
Inductive ReplayReason :=
  | CollectionInProgress
  | DeliveryInProgress
  | CollectionFailed
  | DeliveryFailed
  | DeliveryUncertain
  | RowCountMismatch.
End ReplayReason.
Abbreviation ReplayReason := ReplayReason.ReplayReason.

Inductive RecoveryAction :=
  | StartNewAttempt
  | ReplayFromCommitted (attempt_id : AttemptId) (reason : ReplayReason)
  | RecoveryCommitted (attempt_id : AttemptId) (generation : N) (cursor_advanced : bool).

Module CheckpointError.
Inductive CheckpointError :=
  | UnsupportedSnapshotVersion
  | InvalidSnapshot
  | ConfigurationMismatch
  | GenerationMismatch
  | AttemptMismatch
  | ActiveAttemptExists
  | NoActiveAttempt
  | MissingCandidate
  | CandidateForEmptyCollection
  | CandidateRegression
  | ConflictingCollectionState
  | ConflictingDeliveryState
  | CollectionInProgress
  | CollectionFailed
  | DeliveryInProgress
  | DeliveryFailed
  | DeliveryUncertain
  | RowCountMismatch
  | GenerationOverflow.
End CheckpointError.
Abbreviation CheckpointError := CheckpointError.CheckpointError.

#[global] Instance CheckpointError_eq_dec : EqDecision CheckpointError.
Proof. solve_decision. Defined.

(** Field assignments. *)
Definition set_active_attempt (a : option ActiveAttempt) (s : Snapshot) : Snapshot :=
  mkSnapshot (snap_format_version s) (configuration_id s) (generation s) (committed s) a
    (last_committed_attempt s).
Definition set_collection (c : CollectionState) (a : ActiveAttempt) : ActiveAttempt :=
  mkActive (fence a) c (delivery a).
Definition set_delivery (d : DeliveryState) (a : ActiveAttempt) : ActiveAttempt :=
  mkActive (fence a) (collection a) d.

(** ** Checks *)

Definition Snapshot_new (configuration_id : array 32) (generation : N)
    (committed : option TimestampIdCursor) : Snapshot :=
  mkSnapshot SNAPSHOT_FORMAT_VERSION configuration_id generation committed None None.

Definition validate_candidate (committed : option TimestampIdCursor) (rows : N)
    (candidate : option TimestampIdCursor) : result CheckpointError () :=
  if decide (rows = 0) then
    match candidate with
    | None => mret ()
    | Some _ => mthrow CheckpointError.CandidateForEmptyCollection
    end
  else
    candidate ← ok_or CheckpointError.MissingCandidate candidate;
    reject CheckpointError.CandidateRegression
      when (is_some_and (λ c, bool_decide (position_cmp candidate c = Lt)) committed);;
    mret ().

(** The two blocks of [Snapshot::validate]. *)
Definition validate_active (self : Snapshot) : result CheckpointError () :=
  match active_attempt self with
  | Some active =>
      reject CheckpointError.InvalidSnapshot
        when (fence_configuration_id (fence active) ≠ configuration_id self
              ∨ fence_generation (fence active) ≠ generation self);;
      match collection active with
      | CollCompleted rows candidate => validate_candidate (committed self) rows candidate
      | _ => mret ()
      end
  | None => mret ()
  end.

Definition validate_last_committed (self : Snapshot) : result CheckpointError () :=
  match last_committed_attempt self with
  | Some last =>
      let_some expected_generation := checked_add (fence_generation (committed_fence last)) 1
        else CheckpointError.InvalidSnapshot;;
      reject CheckpointError.InvalidSnapshot
        when (fence_configuration_id (committed_fence last) ≠ configuration_id self
              ∨ expected_generation ≠ resulting_generation last
              ∨ resulting_generation last ≠ generation self);;
      mret ()
  | None => mret ()
  end.

Definition snapshot_validate (self : Snapshot) : result CheckpointError () :=
  reject CheckpointError.UnsupportedSnapshotVersion
    when (snap_format_version self ≠ SNAPSHOT_FORMAT_VERSION);;
  _ ← validate_active self;
  validate_last_committed self.

Definition require_snapshot_context (self : Snapshot) (cfg : array 32) (gen : N)
    : result CheckpointError () :=
  reject CheckpointError.ConfigurationMismatch when (cfg ≠ configuration_id self);;
  reject CheckpointError.GenerationMismatch when (gen ≠ generation self);;
  mret ().

Definition require_current_context (self : Snapshot) (f : AttemptFence)
    : result CheckpointError () :=
  require_snapshot_context self (fence_configuration_id f) (fence_generation f).

Definition require_active_fence (self : Snapshot) (f : AttemptFence)
    : result CheckpointError () :=
  _ ← require_current_context self f;
  active ← ok_or CheckpointError.NoActiveAttempt (active_attempt self);
  reject CheckpointError.AttemptMismatch when (attempt_id (fence active) ≠ attempt_id f);;
  mret ().

(** ** Transitions *)

Abbreviation snap A := (st Snapshot CheckpointError A).

Definition start_attempt (f : AttemptFence) : snap StartOutcome :=
  self ← st_get;
  _ ← st_lift (snapshot_validate self);
  _ ← st_lift (require_current_context self f);
  match active_attempt self with
  | Some active =>
      if decide (attempt_id (fence active) = attempt_id f) then mret AlreadyActive
      else mthrow CheckpointError.ActiveAttemptExists
  | None =>
      _ ← st_put (set_active_attempt (Some (mkActive f CollInProgress DelInProgress)) self);
      mret Started
  end.

Definition collection_completed (f : AttemptFence) (rows : N)
    (candidate : option TimestampIdCursor) : snap RecordOutcome :=
  self ← st_get;
  _ ← st_lift (snapshot_validate self);
  _ ← st_lift (require_active_fence self f);
  _ ← st_lift (validate_candidate (committed self) rows candidate);
  active ← st_lift (ok_or CheckpointError.InvalidSnapshot (active_attempt self));
  match collection active with
  | CollInProgress =>
      _ ← st_put (set_active_attempt (Some (set_collection (CollCompleted rows candidate) active)) self);
      mret Recorded
  | CollCompleted recorded_rows recorded_candidate =>
      if decide (recorded_rows = rows ∧ recorded_candidate = candidate) then mret Unchanged
      else mthrow CheckpointError.ConflictingCollectionState
  | CollFailed => mthrow CheckpointError.ConflictingCollectionState
  end.

Definition collection_failed (f : AttemptFence) : snap RecordOutcome :=
  self ← st_get;
  _ ← st_lift (snapshot_validate self);
  _ ← st_lift (require_active_fence self f);
  active ← st_lift (ok_or CheckpointError.InvalidSnapshot (active_attempt self));
  match collection active with
  | CollInProgress =>
      _ ← st_put (set_active_attempt (Some (set_collection CollFailed active)) self);
      mret Recorded
  | CollFailed => mret Unchanged
  | CollCompleted _ _ => mthrow CheckpointError.ConflictingCollectionState
  end.

Definition delivery_confirmed (f : AttemptFence) (rows : N) : snap RecordOutcome :=
  self ← st_get;
  _ ← st_lift (snapshot_validate self);
  _ ← st_lift (require_active_fence self f);
  active ← st_lift (ok_or CheckpointError.InvalidSnapshot (active_attempt self));
  match delivery active with
  | DelInProgress =>
      _ ← st_put (set_active_attempt (Some (set_delivery (DelConfirmed rows) active)) self);
      mret Recorded
  | DelConfirmed recorded_rows =>
      if decide (recorded_rows = rows) then mret Unchanged
      else mthrow CheckpointError.ConflictingDeliveryState
  | DelFailed | DelUncertain => mthrow CheckpointError.ConflictingDeliveryState
  end.

Definition record_delivery_terminal (f : AttemptFence) (terminal : DeliveryState)
    : snap RecordOutcome :=
  self ← st_get;
  _ ← st_lift (snapshot_validate self);
  _ ← st_lift (require_active_fence self f);
  active ← st_lift (ok_or CheckpointError.InvalidSnapshot (active_attempt self));
  match delivery active with
  | DelInProgress =>
      _ ← st_put (set_active_attempt (Some (set_delivery terminal active)) self);
      mret Recorded
  | current =>
      if decide (current = terminal) then mret Unchanged
      else mthrow CheckpointError.ConflictingDeliveryState
  end.

Definition delivery_failed (f : AttemptFence) : snap RecordOutcome :=
  record_delivery_terminal f DelFailed.
Definition delivery_uncertain (f : AttemptFence) : snap RecordOutcome :=
  record_delivery_terminal f DelUncertain.

Definition cursor_advanced_by (committed candidate : option TimestampIdCursor) : bool :=
  match committed, candidate with
  | Some committed, Some candidate => bool_decide (position_cmp candidate committed = Gt)
  | None, Some _ => true
  | _, None => false
  end.

Definition commit (f : AttemptFence) : snap CommitOutcome :=
  self ← st_get;
  _ ← st_lift (snapshot_validate self);
  if decide (is_some_and (λ last, bool_decide (committed_fence last = f))
               (last_committed_attempt self)) then
    mret (AlreadyCommitted (generation self))
  else
    _ ← st_lift (require_active_fence self f);
    active ← st_lift (ok_or CheckpointError.InvalidSnapshot (active_attempt self));
    '(collection_rows, candidate) ←
      match collection active with
      | CollInProgress => mthrow CheckpointError.CollectionInProgress
      | CollCompleted rows candidate => mret (rows, candidate)
      | CollFailed => mthrow CheckpointError.CollectionFailed
      end;
    delivery_rows ←
      match delivery active with
      | DelInProgress => mthrow CheckpointError.DeliveryInProgress
      | DelConfirmed rows => mret rows
      | DelFailed => mthrow CheckpointError.DeliveryFailed
      | DelUncertain => mthrow CheckpointError.DeliveryUncertain
      end;
    reject CheckpointError.RowCountMismatch when (collection_rows ≠ delivery_rows);;
    next_generation ← st_lift
      (ok_or CheckpointError.GenerationOverflow (checked_add (generation self) 1));
    let advanced := cursor_advanced_by (committed self) candidate in
    _ ← st_put (mkSnapshot (snap_format_version self) (configuration_id self) next_generation
          (match candidate with Some c => Some c | None => committed self end)
          None (Some (mkCommitted f next_generation)));
    mret (Committed next_generation advanced).

Inductive RecoveryDisposition :=
  | DispositionCommit
  | DispositionReplay (reason : ReplayReason).

Definition recovery_disposition (active : ActiveAttempt) : RecoveryDisposition :=
  match collection active, delivery active with
  | CollFailed, _ => DispositionReplay ReplayReason.CollectionFailed
  | _, DelFailed => DispositionReplay ReplayReason.DeliveryFailed
  | _, DelUncertain => DispositionReplay ReplayReason.DeliveryUncertain
  | CollInProgress, _ => DispositionReplay ReplayReason.CollectionInProgress
  | CollCompleted _ _, DelInProgress => DispositionReplay ReplayReason.DeliveryInProgress
  | CollCompleted collection_rows _, DelConfirmed delivery_rows =>
      if decide (collection_rows ≠ delivery_rows) then
        DispositionReplay ReplayReason.RowCountMismatch
      else DispositionCommit
  end.

(** [unreachable!] is [Panic]. *)
Definition recover (cfg : array 32) (gen : N)
    : st Snapshot (fault CheckpointError) RecoveryAction :=
  self ← st_get;
  _ ← st_map_err Error (st_lift (snapshot_validate self));
  _ ← st_map_err Error (st_lift (require_snapshot_context self cfg gen));
  match active_attempt self with
  | None => mret StartNewAttempt
  | Some active =>
      let f := fence active in
      match recovery_disposition active with
      | DispositionCommit =>
          outcome ← st_map_err Error (commit f);
          match outcome with
          | Committed generation cursor_advanced =>
              mret (RecoveryCommitted (attempt_id f) generation cursor_advanced)
          | AlreadyCommitted _ => mthrow Panic
          end
      | DispositionReplay reason =>
          _ ← st_put (set_active_attempt None self);
          mret (ReplayFromCommitted (attempt_id f) reason)
      end
  end.

(** ** Abstract specification

    The checks as propositions, and the coordinator as a step relation whose
    steps say only what a transition may do. *)

Definition candidate_ok (committed : option TimestampIdCursor) (rows : N)
    (candidate : option TimestampIdCursor) : Prop :=
  (rows = 0 ∧ candidate = None)
  ∨ (rows ≠ 0 ∧ ∃ c, candidate = Some c ∧ ∀ k, committed = Some k → cursor_le k c).

Record valid (s : Snapshot) : Prop := mkValid {
  valid_version : snap_format_version s = SNAPSHOT_FORMAT_VERSION;
  valid_fence : ∀ a, active_attempt s = Some a →
    fence_configuration_id (fence a) = configuration_id s
    ∧ fence_generation (fence a) = generation s;
  valid_candidate : ∀ a rows cand, active_attempt s = Some a →
    collection a = CollCompleted rows cand → candidate_ok (committed s) rows cand;
  valid_last : ∀ l, last_committed_attempt s = Some l →
    fence_configuration_id (committed_fence l) = configuration_id s
    ∧ in_u64 (fence_generation (committed_fence l) + 1)
    ∧ resulting_generation l = fence_generation (committed_fence l) + 1
    ∧ generation s = fence_generation (committed_fence l) + 1;
}.

Definition after_commit (s : Snapshot) (a : ActiveAttempt) (cand : option TimestampIdCursor)
    : Snapshot :=
  mkSnapshot (snap_format_version s) (configuration_id s) (generation s + 1)
    (match cand with Some c => Some c | None => committed s end)
    None (Some (mkCommitted (fence a) (generation s + 1))).

Inductive trans (s : Snapshot) : Snapshot → Prop :=
  | trans_start f :
      active_attempt s = None →
      fence_configuration_id f = configuration_id s → fence_generation f = generation s →
      trans s (set_active_attempt (Some (mkActive f CollInProgress DelInProgress)) s)
  | trans_collected a rows cand :
      active_attempt s = Some a → collection a = CollInProgress →
      candidate_ok (committed s) rows cand →
      trans s (set_active_attempt (Some (set_collection (CollCompleted rows cand) a)) s)
  | trans_collect_failed a :
      active_attempt s = Some a → collection a = CollInProgress →
      trans s (set_active_attempt (Some (set_collection CollFailed a)) s)
  | trans_delivery a d :
      active_attempt s = Some a → delivery a = DelInProgress → d ≠ DelInProgress →
      trans s (set_active_attempt (Some (set_delivery d a)) s)
  | trans_commit a rows cand :
      active_attempt s = Some a → collection a = CollCompleted rows cand →
      delivery a = DelConfirmed rows → in_u64 (generation s + 1) →
      trans s (after_commit s a cand)
  | trans_discard a reason :
      active_attempt s = Some a → recovery_disposition a = DispositionReplay reason →
      trans s (set_active_attempt None s).

(** The public methods as commands. *)
Inductive command :=
  | CmdStart (f : AttemptFence)
  | CmdCollected (f : AttemptFence) (rows : N) (cand : option TimestampIdCursor)
  | CmdCollectFailed (f : AttemptFence)
  | CmdConfirmed (f : AttemptFence) (rows : N)
  | CmdDeliveryFailed (f : AttemptFence)
  | CmdDeliveryUncertain (f : AttemptFence)
  | CmdCommit (f : AttemptFence)
  | CmdRecover (cfg : array 32) (gen : N).

(** The snapshot a method leaves behind and whether it returned [Ok]. *)
Definition run_command (c : command) (s : Snapshot) : Snapshot * bool :=
  match c with
  | CmdStart f => let '(s', r) := start_attempt f s in (s', is_ok r)
  | CmdCollected f rows cand => let '(s', r) := collection_completed f rows cand s in (s', is_ok r)
  | CmdCollectFailed f => let '(s', r) := collection_failed f s in (s', is_ok r)
  | CmdConfirmed f rows => let '(s', r) := delivery_confirmed f rows s in (s', is_ok r)
  | CmdDeliveryFailed f => let '(s', r) := delivery_failed f s in (s', is_ok r)
  | CmdDeliveryUncertain f => let '(s', r) := delivery_uncertain f s in (s', is_ok r)
  | CmdCommit f => let '(s', r) := commit f s in (s', is_ok r)
  | CmdRecover cfg gen => let '(s', r) := recover cfg gen s in (s', is_ok r)
  end.

Definition snap_step (s s' : Snapshot) : Prop := ∃ c, s' = (run_command c s).1.

(** ** Lemmas *)

Lemma validate_candidate_ok k rows cand :
  validate_candidate k rows cand = Ok tt ↔ candidate_ok k rows cand.
Proof.
  unfold validate_candidate, candidate_ok. unfold_monad.
  destruct (decide (rows = 0)); [destruct cand; naive_solver|].
  destruct cand as [c|]; [|naive_solver]. destruct k as [k|]; cbn.
  - case_decide as H; rewrite bool_decide_spec in H.
    + split; [done|]. intros [|(_ & c' & [= <-] & Hle)]; [naive_solver|].
      by apply (position_cmp_not_lt c k) in H; [|apply Hle].
    + rewrite position_cmp_not_lt in H. naive_solver.
  - case_decide; naive_solver.
Qed.

Lemma validate_active_ok s :
  validate_active s = Ok tt ↔ ∀ a, active_attempt s = Some a →
    fence_configuration_id (fence a) = configuration_id s
    ∧ fence_generation (fence a) = generation s
    ∧ ∀ rows cand, collection a = CollCompleted rows cand → candidate_ok (committed s) rows cand.
Proof.
  unfold validate_active. destruct (active_attempt s) as [a|]; [|naive_solver].
  unfold_monad. case_decide as Hf.
  { split; [done|]. intros H. destruct (H a eq_refl) as (? & ? & _). tauto. }
  assert (fence_configuration_id (fence a) = configuration_id s) by (apply dec_stable; tauto).
  assert (fence_generation (fence a) = generation s) by (apply dec_stable; tauto).
  destruct (collection a) as [|rows cand|] eqn:Hc; [| rewrite validate_candidate_ok |];
    (split; [intros Hk ? [= <-]; split_and!; [done|done|intros ??; congruence]|]);
    intros Hk; try done.
  destruct (Hk a eq_refl) as (_ & _ & Hk'). by apply Hk'.
Qed.

Lemma validate_last_committed_ok s :
  validate_last_committed s = Ok tt ↔ ∀ l, last_committed_attempt s = Some l →
    fence_configuration_id (committed_fence l) = configuration_id s
    ∧ in_u64 (fence_generation (committed_fence l) + 1)
    ∧ resulting_generation l = fence_generation (committed_fence l) + 1
    ∧ generation s = fence_generation (committed_fence l) + 1.
Proof.
  unfold validate_last_committed. destruct (last_committed_attempt s) as [l|]; [|naive_solver].
  unfold_monad. destruct (checked_add _ 1) as [e|] eqn:E.
  - apply checked_add_some in E as [-> Hb]. case_decide as Hf.
    + split; [done|]. intros H. destruct (H l eq_refl) as (? & _ & ? & ?).
      destruct Hf as [|[|]]; done || lia.
    + split; [|done]. intros _ ? [= <-].
      split_and!; [apply dec_stable; tauto|done|lia|lia].
  - apply checked_add_none in E. split; [done|]. intros H.
    destruct (H l eq_refl) as (_ & ? & _). ulia.
Qed.

Lemma snapshot_validate_ok s : snapshot_validate s = Ok tt ↔ valid s.
Proof.
  unfold snapshot_validate. pose proof (validate_active_ok s) as Ha.
  pose proof (validate_last_committed_ok s) as Hl. unfold_monad. split.
  - case_decide; [done|].
    destruct (validate_active s) as [[]|]; [|done]. intros Hok.
    split; naive_solver.
  - intros [Hv Hf Hc Hlast]. rewrite decide_False by tauto.
    destruct Ha as [_ ->]; [exact (proj2 Hl Hlast)|naive_solver].
Qed.

Lemma snapshot_validate_dec s : valid s ∨ ∃ e, snapshot_validate s = Err e.
Proof.
  destruct (snapshot_validate s) as [[]|e] eqn:E; [left; by apply snapshot_validate_ok|eauto].
Qed.

Lemma require_active_fence_ok s f :
  valid s → require_active_fence s f = Ok tt ↔ ∃ a, active_attempt s = Some a ∧ fence a = f.
Proof.
  intros V. unfold require_active_fence, require_current_context, require_snapshot_context.
  unfold_monad. destruct f as [fi fc fg]. cbn.
  destruct (active_attempt s) as [a|] eqn:Ha.
  - pose proof (valid_fence s V a Ha) as [Hc Hg].
    destruct a as [[ai ac ag] co de]. cbn in *. subst ac ag.
    repeat case_decide; cbn; split; intros; try done; naive_solver.
  - repeat case_decide; cbn; naive_solver.
Qed.
