(* ===== verification/CheckpointProps.v ===== *)
(** * Theorems on the checkpoint coordinator

    The methods refine the step relation [trans]; validity, monotonicity of the
    committed cursor and the delivery gate follow by induction on the steps. *)

From S2P Require Export Checkpoint.

Local Open Scope N_scope.

(** Case split on the two entry guards of a method. *)
Ltac split_valid s V :=
  destruct (snapshot_validate_dec s) as [V|[? V]];
  [pose proof (proj2 (snapshot_validate_ok s) V) as ->|rewrite V].
Ltac split_fence s f V a Ha :=
  destruct (require_active_fence s f) as [[]|?] eqn:Ha;
  [apply (require_active_fence_ok s f V) in Ha as (a & Ha & <-); rewrite Ha|].

Lemma commit_cases s f :
  (∃ e, commit f s = (s, Err e))
  ∨ (commit f s = (s, Ok (AlreadyCommitted (generation s))) ∧ valid s
     ∧ ∃ l, last_committed_attempt s = Some l ∧ committed_fence l = f)
  ∨ (∃ a rows cand, valid s ∧ active_attempt s = Some a ∧ fence a = f
     ∧ collection a = CollCompleted rows cand ∧ delivery a = DelConfirmed rows
     ∧ in_u64 (generation s + 1)
     ∧ commit f s = (after_commit s a cand,
         Ok (Committed (generation s + 1) (cursor_advanced_by (committed s) cand)))).
Proof.
  unfold commit. unfold_monad. split_valid s V; [|eauto].
  case_decide as Hl.
  { right; left. destruct (last_committed_attempt s) as [l|]; [|done]. cbn in Hl.
    rewrite bool_decide_spec in Hl. eauto. }
  split_fence s f V a Ha; [|eauto].
  destruct (collection a) as [|rows cand|] eqn:Hc; [eauto| |eauto].
  destruct (delivery a) as [|rows'| |] eqn:Hd; [eauto| |eauto|eauto].
  case_decide as Hr; [eauto|]. subst rows'.
  destruct (checked_add (generation s) 1) as [g|] eqn:Hg; [|eauto].
  apply checked_add_some in Hg as [-> Hg].
  right; right. exists a, rows, cand. by split_and!.
Qed.

(** Each method leaves the snapshot alone or makes its own change. *)
Lemma start_attempt_cases s f s' r :
  start_attempt f s = (s', r) →
  s' = s ∨ (is_ok r = true ∧ valid s ∧ active_attempt s = None
    ∧ fence_configuration_id f = configuration_id s ∧ fence_generation f = generation s
    ∧ s' = set_active_attempt (Some (mkActive f CollInProgress DelInProgress)) s).
Proof.
  unfold start_attempt. unfold_monad. split_valid s V; [|naive_solver].
  unfold require_current_context, require_snapshot_context. unfold_monad.
  case_decide as Hc; [naive_solver|]. case_decide as Hg; [naive_solver|].
  destruct (active_attempt s) as [a|] eqn:Ha; [case_decide; naive_solver|].
  intros [= <- <-]. right. by split_and!.
Qed.

Lemma collection_completed_cases s f rows cand s' r :
  collection_completed f rows cand s = (s', r) →
  s' = s ∨ (is_ok r = true ∧ valid s ∧ ∃ a, active_attempt s = Some a ∧ fence a = f
    ∧ collection a = CollInProgress ∧ candidate_ok (committed s) rows cand
    ∧ s' = set_active_attempt (Some (set_collection (CollCompleted rows cand) a)) s).
Proof.
  unfold collection_completed. unfold_monad. split_valid s V; [|naive_solver].
  split_fence s f V a Ha; [|naive_solver].
  destruct (validate_candidate _ _ _) as [[]|] eqn:Hk; [|naive_solver].
  apply validate_candidate_ok in Hk.
  destruct (collection a) eqn:Hc; [|case_decide; naive_solver|naive_solver].
  intros [= <- <-]. right. split_and!; [done|done|]. exists a. by split_and!.
Qed.

Lemma collection_failed_cases s f s' r :
  collection_failed f s = (s', r) →
  s' = s ∨ (is_ok r = true ∧ valid s ∧ ∃ a, active_attempt s = Some a ∧ fence a = f
    ∧ collection a = CollInProgress
    ∧ s' = set_active_attempt (Some (set_collection CollFailed a)) s).
Proof.
  unfold collection_failed. unfold_monad. split_valid s V; [|naive_solver].
  split_fence s f V a Ha; [|naive_solver].
  destruct (collection a) eqn:Hc; [|naive_solver|naive_solver].
  intros [= <- <-]. right. split_and!; [done|done|]. exists a. by split_and!.
Qed.

Lemma delivery_confirmed_cases s f rows s' r :
  delivery_confirmed f rows s = (s', r) →
  s' = s ∨ (is_ok r = true ∧ valid s ∧ ∃ a, active_attempt s = Some a ∧ fence a = f
    ∧ delivery a = DelInProgress
    ∧ s' = set_active_attempt (Some (set_delivery (DelConfirmed rows) a)) s).
Proof.
  unfold delivery_confirmed. unfold_monad. split_valid s V; [|naive_solver].
  split_fence s f V a Ha; [|naive_solver].
  destruct (delivery a) eqn:Hd; [|case_decide; naive_solver|naive_solver|naive_solver].
  intros [= <- <-]. right. split_and!; [done|done|]. exists a. by split_and!.
Qed.

Lemma record_delivery_terminal_cases s f d s' r :
  record_delivery_terminal f d s = (s', r) →
  s' = s ∨ (is_ok r = true ∧ valid s ∧ ∃ a, active_attempt s = Some a ∧ fence a = f
    ∧ delivery a = DelInProgress
    ∧ s' = set_active_attempt (Some (set_delivery d a)) s).
Proof.
  unfold record_delivery_terminal. unfold_monad.
  split_valid s V; [|naive_solver]. split_fence s f V a Ha; [|naive_solver].
  destruct (delivery a) eqn:Hd; [|case_decide; naive_solver..].
  intros [= <- <-]. right. split_and!; [done|done|]. exists a. by split_and!.
Qed.

Lemma recover_cases s cfg gen s' r :
  recover cfg gen s = (s', r) → s' = s ∨ (is_ok r = true ∧ valid s ∧ trans s s').
Proof.
  unfold recover. unfold_monad. split_valid s V; [|naive_solver].
  destruct (require_snapshot_context _ _ _) as [[]|]; [|naive_solver].
  destruct (active_attempt s) as [a|] eqn:Ha; [|naive_solver].
  destruct (recovery_disposition a) as [|reason] eqn:Hr.
  - destruct (commit_cases s (fence a))
      as [[e ->]|[(-> & _)|(a' & rows & cand & _ & Ha' & Hf & Hc & Hd & Hg & ->)]];
      intros [= <- <-]; [by left|by left|].
    right. split_and!; [done|done|]. by eapply trans_commit.
  - intros [= <- <-]. right. split_and!; [done|done|]. by eapply trans_discard.
Qed.

Lemma run_command_cases c s s' ok :
  run_command c s = (s', ok) → s' = s ∨ (ok = true ∧ valid s ∧ trans s s').
Proof.
  destruct c as [f|f rows cand|f|f rows|f|f|f|cfg gen]; cbn; intros H; case_match; simplify_eq.
  - edestruct start_attempt_cases as [|(? & ? & ? & ? & ? & ->)]; eauto using trans.
  - edestruct collection_completed_cases as [|(? & ? & ? & ? & ? & ? & ? & ->)]; eauto 7 using trans.
  - edestruct collection_failed_cases as [|(? & ? & ? & ? & ? & ? & ->)]; eauto 7 using trans.
  - edestruct delivery_confirmed_cases as [|(? & ? & ? & ? & ? & ? & ->)]; eauto 7 using trans.
  - edestruct record_delivery_terminal_cases as [|(? & ? & ? & ? & ? & ? & ->)];
      [by unfold delivery_failed in *|by left|right; eauto using trans].
  - edestruct record_delivery_terminal_cases as [|(? & ? & ? & ? & ? & ? & ->)];
      [by unfold delivery_uncertain in *|by left|right; eauto using trans].
  - match goal with E : commit _ _ = _ |- _ => rename E into Hcommit end.
    destruct (commit_cases s f)
      as [[e E]|[(E & _)|(a & rows & cand & V & Ha & Hf & Hc & Hd & Hg & E)]];
      rewrite E in Hcommit; simplify_eq; [by left|by left|right].
    split_and!; [done|done|]. by eapply trans_commit.
  - by eapply recover_cases.
Qed.

Lemma trans_valid s s' : valid s → trans s s' → valid s'.
Proof.
  intros V [f Ha Hc Hg|a rows cand Ha Hc Hk|a Ha Hc|a d Ha Hd Hne|a rows cand Ha Hc Hd Hg|a r Ha Hr];
    destruct V as [Vv Vf Vc Vl].
  - split; cbn; naive_solver.
  - split; cbn; [done|naive_solver| |done]. intros ??? [= <-]; cbn. naive_solver.
  - split; cbn; naive_solver.
  - split; cbn; naive_solver.
  - destruct (Vf a Ha) as [Hfc Hfg].
    split; cbn; [done|done|done|]. intros ? [= <-]. cbn. rewrite Hfg. by split_and!.
  - split; cbn; done.
Qed.

Lemma candidate_ok_le k rows cand :
  candidate_ok k rows cand → opt_cursor_le k (match cand with Some c => Some c | None => k end).
Proof.
  intros [[_ ->]|(_ & c & -> & Hle)]; [reflexivity|]. destruct k as [k|]; [by apply Hle|done].
Qed.

(** A single step of the relation either keeps the committed cursor and the
    generation or is the commit of the active attempt. *)
Lemma trans_committed s s' : trans s s' →
  (committed s' = committed s ∧ generation s' = generation s)
  ∨ ∃ a rows cand, active_attempt s = Some a ∧ collection a = CollCompleted rows cand
      ∧ delivery a = DelConfirmed rows ∧ in_u64 (generation s + 1) ∧ s' = after_commit s a cand.
Proof. intros []; cbn; auto. right. eauto 10. Qed.

(** ** Properties of runs *)

(** C3: refinement with error atomicity: every public method either leaves the
    snapshot untouched, which is always the case when it returns an error, or
    performs one step of the abstract coordinator from a valid snapshot. *)
Theorem run_command_refines c s s' ok :
  run_command c s = (s', ok) →
  (ok = false → s' = s) ∧ (s' ≠ s → valid s ∧ trans s s').
Proof. intros H. destruct (run_command_cases c s s' ok H) as [->|(-> & V & T)]; naive_solver. Qed.

(** C36: the structural invariants checked by [validate] are preserved by every
    method, hence along every run. *)
Theorem snapshot_valid_invariant s s' :
  snapshot_validate s = Ok tt → rtc snap_step s s' → snapshot_validate s' = Ok tt.
Proof.
  rewrite !snapshot_validate_ok. intros V H. revert V.
  apply rtc_invariant with (R := snap_step); [|done]. intros a b V [c ->].
  destruct (run_command c a) as [b ok] eqn:E.
  destruct (run_command_cases _ _ _ _ E) as [->|(_ & _ & T)]; [done|]. by eapply trans_valid.
Qed.

Lemma snap_step_cases s s' : snap_step s s' → s' = s ∨ (valid s ∧ trans s s').
Proof.
  intros [c ->]. destruct (run_command c s) as [s' ok] eqn:E. cbn.
  destruct (run_command_cases _ _ _ _ E) as [->|(_ & V & T)]; auto.
Qed.

(** The progress order: the committed cursor and the generation only grow. *)
Definition progress_le (s s' : Snapshot) : Prop :=
  opt_cursor_le (committed s) (committed s') ∧ generation s ≤ generation s'
  ∧ configuration_id s' = configuration_id s.
#[export] Instance progress_le_preorder : PreOrder progress_le.
Proof.
  split.
  - intros s. by split_and!.
  - intros s1 s2 s3 (? & ? & ?) (? & ? & ?).
    split_and!; [by etrans|lia|congruence].
Qed.

Lemma snap_step_progress s s' : snap_step s s' → progress_le s s'.
Proof.
  intros [->|[V T]]%snap_step_cases; [reflexivity|].
  destruct (trans_committed s s' T) as [[Hc Hg]|(a & rows & cand & Ha & Hc & Hd & Hg & ->)].
  - split_and!; [by rewrite Hc|lia|by destruct T].
  - split_and!; cbn; [|lia|done].
    eapply candidate_ok_le, valid_candidate; eauto.
Qed.

Lemma run_progress s s' : rtc snap_step s s' → progress_le s s'.
Proof. apply (rtc_preorder snap_step progress_le), snap_step_progress. Qed.

(** along every run the committed cursor never moves backwards, the
    generation never decreases and the configuration fence stays. *)
Theorem committed_monotone s s' :
  rtc snap_step s s' →
  opt_cursor_le (committed s) (committed s') ∧ generation s ≤ generation s'
  ∧ configuration_id s' = configuration_id s.
Proof. intros (? & ? & ?)%run_progress. by split_and!. Qed.

(** C4: delivery gate: a method changes the committed cursor or the generation
    only by committing the active attempt, whose collection completed and whose
    delivery was confirmed with the same number of rows. *)
Theorem commit_is_delivery_gated c s s' ok :
  run_command c s = (s', ok) →
  committed s' ≠ committed s ∨ generation s' ≠ generation s →
  ∃ a rows cand, active_attempt s = Some a ∧ collection a = CollCompleted rows cand
    ∧ delivery a = DelConfirmed rows ∧ candidate_ok (committed s) rows cand
    ∧ s' = after_commit s a cand.
Proof.
  intros H Hne. destruct (run_command_cases c s s' ok H) as [->|(_ & V & T)]; [naive_solver|].
  destruct (trans_committed s s' T) as [[? ?]|(a & rows & cand & Ha & Hc & Hd & _ & ->)];
    [naive_solver|].
  exists a, rows, cand. split_and!; try done. by eapply valid_candidate.
Qed.

Lemma cursor_advanced_by_true k cand :
  cursor_advanced_by k cand = true ↔ ∃ c, cand = Some c ∧ ∀ k', k = Some k' → cursor_lt k' c.
Proof.
  destruct k as [k|], cand as [c|]; cbn; rewrite ?bool_decide_eq_true, ?position_cmp_gt; naive_solver.
Qed.

(** The ready attempt commits. *)
Lemma commit_ready s a rows cand :
  valid s → active_attempt s = Some a →
  collection a = CollCompleted rows cand → delivery a = DelConfirmed rows →
  in_u64 (generation s + 1) →
  commit (fence a) s = (after_commit s a cand,
    Ok (Committed (generation s + 1) (cursor_advanced_by (committed s) cand))).
Proof.
  intros V Ha Hc Hd Hg. destruct (commit_cases s (fence a))
    as [[e E]|[(E & _ & l & Hl & Hlf)|(a' & rows' & cand' & _ & Ha' & _ & Hc' & Hd' & _ & ->)]].
  - exfalso. revert E. unfold commit. unfold_monad.
    rewrite (proj2 (snapshot_validate_ok s) V). case_decide; [done|].
    rewrite (proj2 (require_active_fence_ok s _ V)) by eauto.
    rewrite Ha. cbn. rewrite Hc, Hd. rewrite decide_False by tauto.
    unfold checked_add. by rewrite decide_True.
  - destruct (valid_last s V l Hl) as (_ & _ & _ & ?).
    destruct (valid_fence s V a Ha) as [_ Hfg]. rewrite Hlf in *. lia.
  - simplify_eq. rewrite Hc in Hc'. by simplify_eq.
Qed.

(** Exact contract of [commit]: it succeeds precisely for the valid active
    attempt of that fence with equal collected and delivered row counts and a
    generation left, and then installs the candidate, bumps the generation,
    clears the attempt and reports whether the position strictly advanced. *)
Theorem commit_committed_iff s f s' g adv :
  commit f s = (s', Ok (Committed g adv)) ↔
  valid s ∧ ∃ a rows cand, active_attempt s = Some a ∧ fence a = f
    ∧ collection a = CollCompleted rows cand ∧ delivery a = DelConfirmed rows
    ∧ g = generation s + 1 ∧ in_u64 g ∧ s' = after_commit s a cand
    ∧ (adv = true ↔ ∃ c, cand = Some c ∧ ∀ k, committed s = Some k → cursor_lt k c).
Proof.
  split.
  - intros H. destruct (commit_cases s f)
      as [[e E]|[(E & _)|(a & rows & cand & V & Ha & Hf & Hc & Hd & Hg & E)]];
      rewrite E in H; simplify_eq.
    split; [done|]. exists a, rows, cand. by rewrite cursor_advanced_by_true.
  - intros (V & a & rows & cand & Ha & <- & Hc & Hd & -> & Hg & -> & Hb).
    rewrite (commit_ready s a rows cand) by done. do 3 f_equal.
    apply eq_bool_prop_intro. rewrite !Is_true_true, Hb. apply cursor_advanced_by_true.
Qed.

(** ** Fencing *)

Definition command_fence (c : command) : option AttemptFence :=
  match c with
  | CmdStart f | CmdCollected f _ _ | CmdCollectFailed f | CmdConfirmed f _
  | CmdDeliveryFailed f | CmdDeliveryUncertain f | CmdCommit f => Some f
  | CmdRecover _ _ => None
  end.

Lemma stale_current_context s f :
  fence_generation f ≠ generation s →
  ∃ e, require_current_context s f = Err e ∧ require_active_fence s f = Err e.
Proof.
  intros Hg. unfold require_active_fence, require_current_context, require_snapshot_context.
  unfold_monad. case_decide; [eauto|]. rewrite decide_True by done. eauto.
Qed.

Lemma stale_fence_inert s f c :
  command_fence c = Some f → fence_generation f ≠ generation s →
  (run_command c s).1 = s ∧ ((run_command c s).2 = true → c = CmdCommit f).
Proof.
  intros Hc Hg. destruct (stale_current_context s f Hg) as (e & He & Ha).
  destruct c; cbn in Hc; simplify_eq; cbn;
    unfold start_attempt, collection_completed, collection_failed, delivery_confirmed,
      delivery_failed, delivery_uncertain, record_delivery_terminal, commit; unfold_monad;
    destruct (snapshot_validate s) as [[]|]; try done; rewrite ?He, ?Ha; try done.
  by case_decide.
Qed.

(** a fence commits at most once: after a successful commit, at any later
    point of the run, no method called with that fence changes the snapshot, and
    every one of them but [commit] itself, which reports the earlier commit,
    fails. *)
Theorem committed_fence_is_dead f s s1 s2 g adv c :
  commit f s = (s1, Ok (Committed g adv)) → rtc snap_step s1 s2 → command_fence c = Some f →
  (run_command c s2).1 = s2 ∧ ((run_command c s2).2 = true → c = CmdCommit f)
  ∧ commit f s1 = (s1, Ok (AlreadyCommitted g)).
Proof.
  intros H Hrun Hc.
  destruct (commit_cases s f)
    as [[e E]|[(E & _)|(a & rows & cand & V & Ha & Hf & Hco & Hd & Hg & E)]];
    rewrite E in H; simplify_eq.
  pose proof (valid_fence s V a Ha) as [_ Hfg].
  destruct (run_progress _ _ Hrun) as (_ & Hge & _). cbn in Hge.
  destruct (stale_fence_inert s2 (fence a) c Hc) as [H1 H2]; [lia|].
  split_and!; [done|done|].
  assert (V1 : valid (after_commit s a cand)) by (eapply trans_valid; [done|by eapply trans_commit]).
  unfold commit. unfold_monad. rewrite (proj2 (snapshot_validate_ok _) V1). cbn.
  rewrite decide_True; [done|]. by rewrite bool_decide_spec.
Qed.

(** ** Collection and delivery are orthogonal *)

(** What a collection-side method does to the collection state, given the
    committed cursor, and likewise for delivery. *)
Definition collection_update (k : option TimestampIdCursor) (c : command) (x : CollectionState)
    : CollectionState * bool :=
  match c, x with
  | CmdCollected _ rows cand, x =>
      if decide (validate_candidate k rows cand = Ok tt) then
        match x with
        | CollInProgress => (CollCompleted rows cand, true)
        | CollCompleted r c => (x, bool_decide (r = rows ∧ c = cand))
        | CollFailed => (x, false)
        end
      else (x, false)
  | CmdCollectFailed _, CollInProgress => (CollFailed, true)
  | CmdCollectFailed _, CollFailed => (CollFailed, true)
  | _, x => (x, false)
  end.

Definition delivery_update (c : command) (x : DeliveryState) : DeliveryState * bool :=
  let terminal d := match x with DelInProgress => (d, true) | _ => (x, bool_decide (x = d)) end in
  match c with
  | CmdConfirmed _ rows => terminal (DelConfirmed rows)
  | CmdDeliveryFailed _ => terminal DelFailed
  | CmdDeliveryUncertain _ => terminal DelUncertain
  | _ => (x, false)
  end.

Definition is_collection_side (c : command) : bool :=
  match c with CmdCollected _ _ _ | CmdCollectFailed _ => true | _ => false end.
Definition is_delivery_side (c : command) : bool :=
  match c with CmdConfirmed _ _ | CmdDeliveryFailed _ | CmdDeliveryUncertain _ => true | _ => false end.

Definition with_attempt (s : Snapshot) (a : ActiveAttempt) : Snapshot := set_active_attempt (Some a) s.

Lemma with_attempt_same s a : active_attempt s = Some a → with_attempt s a = s.
Proof. destruct s. cbn. by intros ->. Qed.

Lemma run_collection_side s f c a :
  is_collection_side c = true → command_fence c = Some f →
  valid s → active_attempt s = Some a → fence a = f →
  run_command c s =
    (with_attempt s (set_collection (collection_update (committed s) c (collection a)).1 a),
     (collection_update (committed s) c (collection a)).2).
Proof.
  intros Hs Hc V Ha Hf. pose proof (with_attempt_same s a Ha) as Hsame.
  pose proof (proj2 (snapshot_validate_ok s) V) as Hv.
  assert (require_active_fence s f = Ok tt) as Hrf by (apply require_active_fence_ok; eauto).
  destruct a as [af ac ad]. destruct c; cbn in Hs, Hc; simplify_eq; cbn in *;
    unfold collection_completed, collection_failed; unfold_monad; rewrite Hv, Hrf.
  - destruct (validate_candidate _ _ _) as [[]|] eqn:Hk; cbn.
    + rewrite Ha; cbn. destruct ac as [|r k|]; repeat case_decide; try case_bool_decide;
        cbn; unfold set_collection; cbn; rewrite ?Hsame; tauto || done.
    + rewrite decide_False by done. unfold set_collection; cbn. by rewrite Hsame.
  - rewrite Ha; cbn. destruct ac; unfold set_collection; cbn; by rewrite ?Hsame.
Qed.

Lemma run_delivery_side s f c a :
  is_delivery_side c = true → command_fence c = Some f →
  valid s → active_attempt s = Some a → fence a = f →
  run_command c s =
    (with_attempt s (set_delivery (delivery_update c (delivery a)).1 a),
     (delivery_update c (delivery a)).2).
Proof.
  intros Hs Hc V Ha Hf. pose proof (with_attempt_same s a Ha) as Hsame.
  pose proof (proj2 (snapshot_validate_ok s) V) as Hv.
  assert (require_active_fence s f = Ok tt) as Hrf by (apply require_active_fence_ok; eauto).
  destruct a as [af ac ad]. destruct c; cbn in Hs, Hc; simplify_eq; cbn in *;
    unfold delivery_confirmed, delivery_failed, delivery_uncertain, record_delivery_terminal;
    unfold_monad; rewrite Hv, Hrf, Ha; destruct ad; cbn;
    try case_decide; try case_bool_decide; simplify_eq; cbn; unfold set_delivery; cbn;
    rewrite ?Hsame; congruence || done.
Qed.

(** A method rejected by its guards does nothing. *)
Lemma run_side_rejected s f c :
  is_collection_side c || is_delivery_side c = true → command_fence c = Some f →
  ¬ (valid s ∧ ∃ a, active_attempt s = Some a ∧ fence a = f) → run_command c s = (s, false).
Proof.
  intros Hs Hc Hno. destruct c; cbn in Hs, Hc; simplify_eq; cbn;
    unfold collection_completed, collection_failed, delivery_confirmed,
      delivery_failed, delivery_uncertain, record_delivery_terminal; unfold_monad;
    (destruct (snapshot_validate_dec s) as [V|[? ->]]; [|done]);
    rewrite (proj2 (snapshot_validate_ok s) V);
    (destruct (require_active_fence s f) as [[]|?] eqn:E; [|done]);
    apply require_active_fence_ok in E; naive_solver.
Qed.

Lemma run_command_valid c s : valid s → valid (run_command c s).1.
Proof.
  intros V. destruct (run_command c s) as [s' ok] eqn:E. cbn.
  destruct (run_command_cases _ _ _ _ E) as [->|(_ & _ & T)]; [done|by eapply trans_valid].
Qed.

Lemma active_fence_dec s f :
  (valid s ∧ ∃ a, active_attempt s = Some a ∧ fence a = f)
  ∨ ¬ (valid s ∧ ∃ a, active_attempt s = Some a ∧ fence a = f).
Proof.
  destruct (snapshot_validate_dec s) as [V|[e E]];
    [|right; intros [V%snapshot_validate_ok _]; congruence].
  destruct (require_active_fence s f) as [[]|] eqn:E.
  - left. split; [done|]. by apply require_active_fence_ok.
  - right. intros [_ H%(require_active_fence_ok s f V)]. congruence.
Qed.

(** C35: collection and delivery may finish in either order: a collection-side
    and a delivery-side method of the same fence commute, with the same
    outcomes, from every snapshot. *)
Theorem collection_delivery_commute s f c d :
  is_collection_side c = true → is_delivery_side d = true →
  command_fence c = Some f → command_fence d = Some f →
  (run_command d (run_command c s).1).1 = (run_command c (run_command d s).1).1
  ∧ (run_command d (run_command c s).1).2 = (run_command d s).2
  ∧ (run_command c (run_command d s).1).2 = (run_command c s).2.
Proof.
  intros Hc Hd Hcf Hdf.
  destruct (active_fence_dec s f) as [(V & a & Ha & Hf)|Hno].
  2: { assert (run_command c s = (s, false)) as Ec
         by (apply (run_side_rejected s f); rewrite ?Hc; done).
       assert (run_command d s = (s, false)) as Ed
         by (apply (run_side_rejected s f); rewrite ?Hd, ?orb_true_r; done).
       rewrite Ec, Ed. cbn. by rewrite Ec, Ed. }
  pose proof (run_collection_side s f c a Hc Hcf V Ha Hf) as Ec.
  pose proof (run_delivery_side s f d a Hd Hdf V Ha Hf) as Ed.
  pose proof (run_command_valid c s V) as Vc. pose proof (run_command_valid d s V) as Vd.
  rewrite Ec in Vc |- *. rewrite Ed in Vd |- *. cbn [fst snd] in *.
  erewrite run_delivery_side, run_collection_side by (done || reflexivity). by destruct a.
Qed.

(** ** Recovery *)

(** An active attempt is never the one committed last. *)
Lemma active_not_last s a l :
  valid s → active_attempt s = Some a → last_committed_attempt s = Some l →
  committed_fence l ≠ fence a.
Proof.
  intros V Ha Hl E. destruct (valid_fence s V a Ha) as [_ Hg].
  destruct (valid_last s V l Hl) as (_ & _ & _ & Hg'). rewrite E in Hg'. lia.
Qed.

Lemma disposition_commit a :
  recovery_disposition a = DispositionCommit ↔
  ∃ rows cand, collection a = CollCompleted rows cand ∧ delivery a = DelConfirmed rows.
Proof.
  unfold recovery_disposition. destruct (collection a), (delivery a); try case_decide; naive_solver.
Qed.

(** What a recovery action says about the snapshot before and after. *)
Definition recovery_result (s s' : Snapshot) (act : RecoveryAction) : Prop :=
  match act with
  | StartNewAttempt => active_attempt s = None ∧ s' = s
  | ReplayFromCommitted aid reason => ∃ a, active_attempt s = Some a
      ∧ aid = attempt_id (fence a) ∧ recovery_disposition a = DispositionReplay reason
      ∧ s' = set_active_attempt None s
  | RecoveryCommitted aid g adv => ∃ a rows cand, active_attempt s = Some a
      ∧ aid = attempt_id (fence a) ∧ collection a = CollCompleted rows cand
      ∧ delivery a = DelConfirmed rows ∧ g = generation s + 1
      ∧ adv = cursor_advanced_by (committed s) cand ∧ s' = after_commit s a cand
  end.

(** recovery is safe and total: it never reaches its [unreachable!]; under
    the current fence, unless the generation counter is exhausted, it returns an
    action; an action leaves no active attempt, commits exactly the fully
    confirmed attempt and otherwise keeps the committed cursor for replay. *)
Theorem recover_safe_total s cfg gen :
  (recover cfg gen s).2 ≠ Err Panic
  ∧ (∀ act, (recover cfg gen s).2 = Ok act →
      active_attempt (recover cfg gen s).1 = None ∧ recovery_result s (recover cfg gen s).1 act)
  ∧ (valid s → cfg = configuration_id s → gen = generation s → in_u64 (generation s + 1) →
      ∃ act, (recover cfg gen s).2 = Ok act).
Proof.
  unfold recover. unfold_monad. split_valid s V; cbn; [|split_and!; [done..|]; intros V'%snapshot_validate_ok; congruence].
  unfold require_snapshot_context. unfold_monad.
  case_decide as Hc; cbn; [split_and!; done|]. case_decide as Hg; cbn; [split_and!; done|].
  destruct (active_attempt s) as [a|] eqn:Ha; cbn;
    [|split_and!; [done|intros ? [= <-]; by split_and!|eauto]].
  destruct (recovery_disposition a) as [|reason] eqn:Hr; cbn.
  - apply disposition_commit in Hr as (rows & cand & Hco & Hd).
    destruct (commit_cases s (fence a))
      as [[e E]|[(E & _ & l & Hl & Hlf)|(a' & rows' & cand' & _ & Ha' & Hf & Hc' & Hd' & Hg' & E)]];
      rewrite E; cbn.
    + split_and!; [done|done|]. intros _ _ _ Hb. exfalso.
      by rewrite (commit_ready s a rows cand) in E.
    + exfalso. by apply (active_not_last s a l).
    + simplify_eq. split_and!; [done| |eauto]. intros ? [= <-].
      split; [done|]. cbn. exists a, rows', cand'. by split_and!.
  - split_and!; [done| |eauto]. intros ? [= <-]. split; [done|]. exists a. by split_and!.
Qed.

(** ** Failed attempts *)

(** An attempt that can no longer commit. *)
Definition doomed (a : ActiveAttempt) : Prop :=
  collection a = CollFailed ∨ delivery a = DelFailed ∨ delivery a = DelUncertain.

Lemma doomed_trans s s' a :
  active_attempt s = Some a → doomed a → trans s s' →
  (∃ a', active_attempt s' = Some a' ∧ fence a' = fence a ∧ doomed a')
  ∨ s' = set_active_attempt None s.
Proof.
  intros Ha Hd [f Hn|? rows cand Ha'|? Ha'|? d Ha'|? rows cand Ha' Hc' Hd'|? r Ha']; simplify_eq.
  - destruct Hd as [|[]]; [congruence|left|left]; eexists; (split_and!; [done..|]); red; cbn; auto.
  - left. eexists. split_and!; [done..|]. red; cbn; auto.
  - destruct Hd as [|[]]; [left|congruence..]. eexists. split_and!; [done..|]. red; cbn; auto.
  - destruct Hd as [|[]]; congruence.
  - by right.
Qed.

Lemma side_keeps_active s f c a :
  is_collection_side c || is_delivery_side c = true → command_fence c = Some f →
  active_attempt s = Some a → active_attempt (run_command c s).1 ≠ None.
Proof.
  intros Hs Hc Ha. destruct (active_fence_dec s f) as [(V & a' & Ha' & Hf)|Hno];
    [|rewrite (run_side_rejected s f c Hs Hc Hno); cbn; by rewrite Ha].
  destruct (is_collection_side c) eqn:E.
  - by rewrite (run_collection_side s f c a').
  - by rewrite (run_delivery_side s f c a').
Qed.

(** A failed collection, a failed or an uncertain delivery is final: as long
    as the attempt is not discarded by recovery it stays failed, and the
    committed cursor and generation do not move. *)
Theorem doomed_never_commits s s' c ok a :
  active_attempt s = Some a → doomed a → run_command c s = (s', ok) →
  committed s' = committed s ∧ generation s' = generation s
  ∧ ((∃ a', active_attempt s' = Some a' ∧ fence a' = fence a ∧ doomed a')
     ∨ (active_attempt s' = None ∧ ∃ cfg gen, c = CmdRecover cfg gen)).
Proof.
  intros Ha Hd Hrun. destruct (run_command_cases c s s' ok Hrun) as [->|(-> & V & T)];
    [split_and!; eauto|].
  assert (committed s' = committed s ∧ generation s' = generation s) as [-> ->].
  { destruct (trans_committed s s' T) as [|(a' & rows & cand & Ha' & Hc & Hdv & _)]; [done|].
    exfalso. destruct Hd as [|[]]; congruence. }
  split_and!; [done|done|].
  destruct (doomed_trans s s' a Ha Hd T) as [|E]; [by left|right]. subst s'. split; [done|].
  assert (s ≠ set_active_attempt None s) as Hn
    by (intros E%(f_equal active_attempt); cbn in E; congruence).
  destruct c as [f|f rows cand|f|f rows|f|f|f|cfg gen]; [..|by eauto]; exfalso; revert Hrun;
    [|match goal with |- run_command ?c s = _ → _ =>
        intros H; apply (side_keeps_active s f c a); [done|done|done|by rewrite H] end..|].
  - cbn. unfold start_attempt. unfold_monad. rewrite (proj2 (snapshot_validate_ok s) V).
    destruct (require_current_context s f); [|done]. rewrite Ha.
    case_decide; cbn; congruence.
  - cbn. destruct (commit_cases s f) as [[e ->]|[(-> & _)|(? & ? & ? & _ & _ & _ & _ & _ & _ & ->)]];
      cbn; first [congruence | intros [=]; lia].
Qed.

(** ** Witnesses: the fixture of the crate's tests *)
Definition CONFIGURATION : array 32 := vreplicate 32 x31.
Definition OTHER_CURSOR : TimestampIdCursor := mkCursor 1001 11.
Definition sample_snapshot : Snapshot := Snapshot_new CONFIGURATION 7 (Some (mkCursor 1000 10)).
Definition sample_fence : AttemptFence := mkFence (vreplicate 16 x11) CONFIGURATION 7.
Definition sample_started : Snapshot := (run_command (CmdStart sample_fence) sample_snapshot).1.
Definition sample_ready : Snapshot :=
  (run_command (CmdConfirmed sample_fence 2)
    (run_command (CmdCollected sample_fence 2 (Some OTHER_CURSOR)) sample_started).1).1.
Definition sample_committed : Snapshot := (run_command (CmdCommit sample_fence) sample_ready).1.
Definition sample_doomed : Snapshot :=
  (run_command (CmdDeliveryUncertain sample_fence) sample_started).1.

Lemma run_command_refines_witness :
  (false = false → sample_committed = sample_committed)
  ∧ (sample_committed ≠ sample_committed → valid sample_committed ∧ trans sample_committed sample_committed).
Proof.
  apply (run_command_refines (CmdStart sample_fence) sample_committed). vm_compute. reflexivity.
Defined.

Lemma snapshot_valid_invariant_witness : snapshot_validate sample_started = Ok tt.
Proof.
  apply (snapshot_valid_invariant sample_snapshot); [vm_compute; reflexivity|].
  apply rtc_once. exists (CmdStart sample_fence). reflexivity.
Defined.

Lemma committed_monotone_witness :
  opt_cursor_le (committed sample_ready) (committed sample_committed)
  ∧ generation sample_ready ≤ generation sample_committed
  ∧ configuration_id sample_committed = configuration_id sample_ready.
Proof.
  apply (committed_monotone sample_ready). apply rtc_once. exists (CmdCommit sample_fence). reflexivity.
Defined.

Lemma commit_is_delivery_gated_witness :
  ∃ a rows cand, active_attempt sample_ready = Some a ∧ collection a = CollCompleted rows cand
    ∧ delivery a = DelConfirmed rows ∧ candidate_ok (committed sample_ready) rows cand
    ∧ sample_committed = after_commit sample_ready a cand.
Proof.
  apply (commit_is_delivery_gated (CmdCommit sample_fence) sample_ready sample_committed true).
  - vm_compute. reflexivity.
  - right. vm_compute. discriminate.
Defined.

Lemma committed_fence_is_dead_witness :
  (run_command (CmdConfirmed sample_fence 2) sample_committed).1 = sample_committed
  ∧ ((run_command (CmdConfirmed sample_fence 2) sample_committed).2 = true →
     CmdConfirmed sample_fence 2 = CmdCommit sample_fence)
  ∧ commit sample_fence sample_committed = (sample_committed, Ok (AlreadyCommitted 8)).
Proof.
  apply (committed_fence_is_dead sample_fence sample_ready sample_committed sample_committed 8 true).
  - vm_compute. reflexivity.
  - apply rtc_refl.
  - reflexivity.
Defined.

Lemma collection_delivery_commute_witness :
  (run_command (CmdConfirmed sample_fence 2)
     (run_command (CmdCollected sample_fence 2 (Some OTHER_CURSOR)) sample_started).1).1
  = (run_command (CmdCollected sample_fence 2 (Some OTHER_CURSOR))
      (run_command (CmdConfirmed sample_fence 2) sample_started).1).1.
Proof.
  apply (collection_delivery_commute sample_started sample_fence); reflexivity.
Defined.

Lemma doomed_never_commits_witness :
  committed sample_doomed = committed sample_doomed ∧ generation sample_doomed = generation sample_doomed
  ∧ ((∃ a', active_attempt sample_doomed = Some a' ∧ fence a' = sample_fence ∧ doomed a')
     ∨ (active_attempt sample_doomed = None
        ∧ ∃ cfg gen, CmdCommit sample_fence = CmdRecover cfg gen)).
Proof.
  apply (doomed_never_commits sample_doomed sample_doomed (CmdCommit sample_fence) false
    (mkActive sample_fence CollInProgress DelUncertain)).
  - vm_compute. reflexivity.
  - right; right. reflexivity.
  - vm_compute. reflexivity.
Defined.
