(* ===== verification/DurableState.v ===== *)
(** * The durable input state (crates/dbx-rs-state/src/model.rs)

    The persisted record of one input: identity fingerprints, the coordinator
    snapshot and the active scan with its sealed-segment references, delivery
    receipt and compacted prefix; and the validation of their relationships. *)

From S2P Require Export Checkpoint.

Local Open Scope N_scope.
Local Open Scope dbx_scope.

(** ** Data *)

Definition DURABLE_STATE_FORMAT_VERSION : N := 2.
Definition MAX_SEGMENTS_PER_SCAN : N := 4096.
Definition STATE_KEY_DOMAIN : list byte :=
  String.list_byte_of_string "dbx-rs-state-key-v1" ++ [x00].
Definition CONFIGURATION_FENCE_DOMAIN : list byte :=
  String.list_byte_of_string "dbx-rs-configuration-fence-v1" ++ [x00].

Definition InputId : Type := array 16.
Definition Fingerprint : Type := array 32.
Definition StateKey : Type := array 32.

Record SegmentRef := mkSegmentRef {
  segment_id : array 16;
  sequence : N;
  page : N;
  rows : N;
  digest : array 32;
}.

Record ActiveScan := mkScan {
  scan_attempt_id : AttemptId;
  base_committed : option TimestampIdCursor;
  resume_after : option TimestampIdCursor;
  maximum_candidate : option TimestampIdCursor;
  compacted_through_sequence : N;
  compacted_rows : N;
  next_page : N;
  complete : bool;
  segments : list SegmentRef;
  delivered_through_sequence : N;
}.

Record DurableInputState := mkState {
  format_version : N;
  input_id : InputId;
  source_lineage_fingerprint : Fingerprint;
  cursor_identity_fingerprint : Fingerprint;
  configuration_fingerprint : Fingerprint;
  configuration_generation : N;
  coordinator : Snapshot;
  active_scan : option ActiveScan;
}.

#[global] Instance InputId_eq_dec : EqDecision InputId.
Proof. unfold InputId. apply _. Defined.
#[global] Instance Fingerprint_eq_dec : EqDecision Fingerprint.
Proof. unfold Fingerprint. apply _. Defined.
#[global] Instance StateKey_eq_dec : EqDecision StateKey.
Proof. unfold StateKey. apply _. Defined.
#[global] Instance StateKey_countable : Countable StateKey := array_countable 32.
#[global] Instance SegmentRef_eq_dec : EqDecision SegmentRef.
Proof. solve_decision. Defined.
#[global] Instance ActiveScan_eq_dec : EqDecision ActiveScan.
Proof. solve_decision. Defined.
#[global] Instance DurableInputState_eq_dec : EqDecision DurableInputState.
Proof. solve_decision. Defined.

Module StateValidationError.
Inductive StateValidationError :=
  | UnsupportedStateVersion
  | UnsupportedCoordinatorVersion
  | InvalidConfigurationGeneration
  | InvalidCoordinator
  | ConfigurationFenceMismatch
  | ScanWithoutActiveAttempt
  | ActiveAttemptWithoutScan
  | ScanAttemptMismatch
  | ScanBaseMismatch
  | InvalidNextPage
  | TooManySegments
  | MissingResumeCursor
  | UnexpectedScanCursor
  | MissingMaximumCandidate
  | CandidateBehindResume
  | CandidateRegression
  | InvalidSegmentOrder
  | DuplicateSegment
  | RowCountOverflow
  | ScanCompletionMismatch
  | DeliveryConfirmationMismatch
  | InvalidDeliveryReceipt.
End StateValidationError.
Abbreviation StateValidationError := StateValidationError.StateValidationError.
Import StateValidationError.

#[global] Instance StateValidationError_eq_dec : EqDecision StateValidationError.
Proof. solve_decision. Defined.

(** ** Identities *)
Section Identities.
Context `{Sha256}.

Definition configuration_fence_id (fp : Fingerprint) (gen : N) : array 32 :=
  sha256 (CONFIGURATION_FENCE_DOMAIN ++ vec_to_list fp ++ u64_be gen).

Definition StateKey_for_input (i : InputId) : StateKey :=
  sha256 (STATE_KEY_DOMAIN ++ vec_to_list i).
End Identities.

Definition directory_name (self : StateKey) : list byte := encode_hex (vec_to_list self).

(** ** Validation of the scan *)

Definition segment_count (self : ActiveScan) : result StateValidationError N :=
  ok_or InvalidSegmentOrder
    (checked_add (compacted_through_sequence self) (lengthN (segments self))).

(** [position_cmp] of two optional cursors is [Less]. *)
Definition both_less (a b : option TimestampIdCursor) : bool :=
  match a, b with
  | Some a, Some b => bool_decide (position_cmp a b = Lt)
  | _, _ => false
  end.

(** The checks before the segment loop; returns the segment count. *)
Definition scan_validate_header (self : ActiveScan) (snapshot : Snapshot) (active : ActiveAttempt)
    : result StateValidationError N :=
  reject ScanAttemptMismatch when (attempt_id (fence active) ≠ scan_attempt_id self);;
  reject ScanBaseMismatch when (base_committed self ≠ committed snapshot);;
  reject InvalidNextPage when (next_page self = 0);;
  reject TooManySegments when (MAX_SEGMENTS_PER_SCAN < lengthN (segments self));;
  count ← segment_count self;
  reject InvalidDeliveryReceipt
    when (delivered_through_sequence self < compacted_through_sequence self
          ∨ count < delivered_through_sequence self
          ∨ (compacted_through_sequence self = 0 ∧ compacted_rows self ≠ 0)
          ∨ (compacted_through_sequence self ≠ 0 ∧ compacted_rows self = 0));;
  _ ← (if decide (count = 0) then
         reject InvalidNextPage
           when (next_page self ≠ 1 ∨ compacted_through_sequence self ≠ 0
                 ∨ compacted_rows self ≠ 0);;
         reject UnexpectedScanCursor
           when (resume_after self ≠ None ∨ maximum_candidate self ≠ None);;
         mret ()
       else
         reject MissingResumeCursor when (resume_after self = None);;
         mret ());
  reject CandidateBehindResume when (both_less (maximum_candidate self) (resume_after self));;
  reject CandidateRegression when (both_less (maximum_candidate self) (base_committed self));;
  mret count.

(** The loop over the retained segments: the identifiers seen, the expected
    sequence and the sealed rows so far. *)
Fixpoint scan_segments_loop (ids : gset (array 16)) (expected_sequence sealed_rows : N)
    (segs : list SegmentRef) : result StateValidationError (N * N) :=
  match segs with
  | [] => mret (expected_sequence, sealed_rows)
  | segment :: segs =>
      reject InvalidSegmentOrder
        when (sequence segment ≠ expected_sequence ∨ page segment ≠ expected_sequence
              ∨ rows segment = 0);;
      reject DuplicateSegment when (segment_id segment ∈ ids);;
      let_some sealed_rows := checked_add sealed_rows (rows segment) else RowCountOverflow;;
      let_some expected_sequence := checked_add expected_sequence 1 else InvalidSegmentOrder;;
      scan_segments_loop ({[segment_id segment]} ∪ ids) expected_sequence sealed_rows segs
  end.

(** The agreement with the coordinator after the loop. *)
Definition scan_validate_completion (self : ActiveScan) (active : ActiveAttempt)
    (count sealed_rows : N) : result StateValidationError () :=
  _ ← match collection active with
      | CollCompleted rows candidate =>
          reject ScanCompletionMismatch
            when (complete self = false ∨ rows ≠ sealed_rows
                  ∨ candidate ≠ maximum_candidate self
                  ∨ (0 < rows ∧ resume_after self = None));;
          mret ()
      | CollInProgress | CollFailed =>
          reject ScanCompletionMismatch when (complete self = true);;
          mret ()
      end;
  match delivery active with
  | DelConfirmed rows =>
      reject DeliveryConfirmationMismatch
        when (complete self = false ∨ delivered_through_sequence self ≠ count
              ∨ rows ≠ sealed_rows);;
      mret ()
  | _ => mret ()
  end.

Definition scan_validate (self : ActiveScan) (snapshot : Snapshot)
    : result StateValidationError () :=
  active ← ok_or ScanWithoutActiveAttempt (active_attempt snapshot);
  count ← scan_validate_header self snapshot active;
  first ← ok_or InvalidSegmentOrder (checked_add (compacted_through_sequence self) 1);
  '(expected_sequence, sealed_rows) ←
    scan_segments_loop ∅ first (compacted_rows self) (segments self);
  reject InvalidSegmentOrder when (expected_sequence ≠ next_page self);;
  reject MissingMaximumCandidate when (0 < sealed_rows ∧ maximum_candidate self = None);;
  scan_validate_completion self active count sealed_rows.

(** ** Validation of the state *)
Section StateValidation.
Context `{Sha256}.

Definition DurableInputState_new (i : InputId) (lineage cursor_identity configuration : Fingerprint)
    (gen : N) (coord : Snapshot) (scan : option ActiveScan) : DurableInputState :=
  mkState DURABLE_STATE_FORMAT_VERSION i lineage cursor_identity configuration gen coord scan.

Definition state_validate (self : DurableInputState) : result StateValidationError () :=
  reject UnsupportedStateVersion when (format_version self ≠ DURABLE_STATE_FORMAT_VERSION);;
  reject InvalidConfigurationGeneration when (configuration_generation self = 0);;
  reject UnsupportedCoordinatorVersion
    when (snap_format_version (coordinator self) ≠ SNAPSHOT_FORMAT_VERSION);;
  _ ← map_err (λ _, InvalidCoordinator) (snapshot_validate (coordinator self));
  let expected_fence :=
    configuration_fence_id (configuration_fingerprint self) (configuration_generation self) in
  reject ConfigurationFenceMismatch when (configuration_id (coordinator self) ≠ expected_fence);;
  match active_scan self with
  | Some scan => scan_validate scan (coordinator self)
  | None =>
      reject ActiveAttemptWithoutScan when (active_attempt (coordinator self) ≠ None);;
      mret ()
  end.
End StateValidation.
