(* ===== verification/DurableStateProps.v ===== *)
(** * What the validation of the durable state guarantees

    [scan_ok] states the well-formedness of an active scan as a proposition;
    [scan_validate] decides it. *)

From S2P Require Export DurableState CheckpointProps.

Local Open Scope N_scope.
Import StateValidationError.

(** ** Specification *)

(** Consecutive sequence numbers from [n], pages equal to them, no empty page. *)
Fixpoint canonical_from (n : N) (segs : list SegmentRef) : Prop :=
  match segs with
  | [] => True
  | seg :: segs => sequence seg = n ∧ page seg = n ∧ rows seg ≠ 0 ∧ canonical_from (n + 1) segs
  end.

Definition rows_sum (segs : list SegmentRef) : N := sumN (rows <$> segs).
#[global] Arguments rows_sum : simpl never.

(** The number of segments ever sealed and the rows in them. *)
Definition sealed_count (scan : ActiveScan) : N :=
  compacted_through_sequence scan + lengthN (segments scan).
Definition sealed_total (scan : ActiveScan) : N := compacted_rows scan + rows_sum (segments scan).

(** Cursors are present exactly with sealed progress, the resume cursor is not
    after the candidate, and the candidate does not regress the base. *)
Definition cursors_ok (scan : ActiveScan) : Prop :=
  if decide (sealed_count scan = 0) then resume_after scan = None ∧ maximum_candidate scan = None
  else ∃ r m, resume_after scan = Some r ∧ maximum_candidate scan = Some m ∧ cursor_le r m
         ∧ ∀ k, base_committed scan = Some k → cursor_le k m.

Record scan_ok (scan : ActiveScan) (snap : Snapshot) (a : ActiveAttempt) : Prop := mkScanOk {
  ok_active : active_attempt snap = Some a;
  ok_attempt : attempt_id (fence a) = scan_attempt_id scan;
  ok_base : base_committed scan = committed snap;
  ok_limit : lengthN (segments scan) ≤ MAX_SEGMENTS_PER_SCAN;
  ok_receipt : compacted_through_sequence scan ≤ delivered_through_sequence scan ≤ sealed_count scan;
  ok_compacted : compacted_through_sequence scan = 0 ↔ compacted_rows scan = 0;
  ok_canonical : canonical_from (compacted_through_sequence scan + 1) (segments scan);
  ok_distinct : NoDup (segment_id <$> segments scan);
  ok_next : next_page scan = sealed_count scan + 1 ∧ in_u64 (sealed_count scan + 1);
  ok_rows : in_u64 (sealed_total scan);
  ok_cursors : cursors_ok scan;
  ok_collection : match collection a with
    | CollCompleted rows cand =>
        complete scan = true ∧ rows = sealed_total scan ∧ cand = maximum_candidate scan
    | _ => complete scan = false
    end;
  ok_delivery : ∀ rows, delivery a = DelConfirmed rows →
    complete scan = true ∧ delivered_through_sequence scan = sealed_count scan
    ∧ rows = sealed_total scan;
}.

(** ** Lemmas *)

Lemma canonical_app n l k :
  canonical_from n (l ++ k) ↔ canonical_from n l ∧ canonical_from (n + lengthN l) k.
Proof.
  revert n. induction l as [|seg l IH]; intros n.
  - cbn. rewrite N.add_0_r. naive_solver.
  - cbn. rewrite IH. replace (n + lengthN (seg :: l)) with (n + 1 + lengthN l) by (rewrite lengthN_cons; lia).
    naive_solver.
Qed.

Lemma rows_sum_app l k : rows_sum (l ++ k) = rows_sum l + rows_sum k.
Proof. unfold rows_sum. by rewrite fmap_app, sumN_app. Qed.

Lemma rows_sum_cons seg l : rows_sum (seg :: l) = rows seg + rows_sum l.
Proof. done. Qed.
#[export] Hint Rewrite rows_sum_app rows_sum_cons : dbx.

(** Every page has rows, so the row sum bounds the number of segments. *)
Lemma canonical_rows_pos n l : canonical_from n l → lengthN l ≤ rows_sum l.
Proof.
  revert n. induction l as [|seg l IH]; intros n; cbn; [done|]. intros (_ & _ & Hr & Hl).
  rewrite rows_sum_cons, lengthN_cons. apply IH in Hl. lia.
Qed.

Lemma scan_segments_loop_ok ids n sealed segs n' sealed' :
  in_u64 n → in_u64 sealed →
  scan_segments_loop ids n sealed segs = Ok (n', sealed') ↔
    canonical_from n segs ∧ NoDup (segment_id <$> segs)
    ∧ (∀ i, i ∈ segment_id <$> segs → i ∉ ids)
    ∧ n' = n + lengthN segs ∧ sealed' = sealed + rows_sum segs
    ∧ in_u64 (n + lengthN segs) ∧ in_u64 (sealed + rows_sum segs).
Proof.
  revert ids n sealed. induction segs as [|seg segs IH]; intros ids n sealed Hn Hs; cbn.
  - unfold rows_sum, lengthN. cbn. rewrite !N.add_0_r. split.
    + intros [= <- <-]. split_and!; try done; [apply NoDup_nil_2|by intros ? ?%elem_of_nil].
    + intros (_ & _ & _ & -> & -> & _). done.
  - rewrite rows_sum_cons. replace (n + lengthN (seg :: segs)) with (n + 1 + lengthN segs)
      by (rewrite lengthN_cons; lia).
    rewrite NoDup_cons. setoid_rewrite elem_of_cons. unfold mthrow, result_throw.
    case_decide as Hseg.
    { split; [done|]. intros ((? & ? & ? & _) & _). destruct Hseg as [|[|]]; done. }
    case_decide as Hid.
    { split; [done|]. intros (_ & _ & Hids & _). exfalso. by apply (Hids (segment_id seg)); [left|]. }
    destruct (checked_add sealed (rows seg)) as [s1|] eqn:Es.
    2: { apply checked_add_none in Es. split; [done|]. intros (_ & _ & _ & _ & _ & _ & ?). ulia. }
    apply checked_add_some in Es as [-> Hs1].
    destruct (checked_add n 1) as [n1|] eqn:En.
    2: { apply checked_add_none in En. split; [done|]. intros (_ & _ & _ & _ & _ & ? & _). ulia. }
    apply checked_add_some in En as [-> Hn1].
    rewrite IH by done. rewrite N.add_assoc.
    assert (sequence seg = n ∧ page seg = n ∧ rows seg ≠ 0) as (Hsq & Hpg & Hr)
      by (split_and!; [apply dec_stable; tauto..|tauto]).
    clear -Hid Hsq Hpg Hr. set_solver.
Qed.

Lemma scan_validate_header_ok scan snap a count :
  scan_validate_header scan snap a = Ok count →
  count = sealed_count scan ∧ in_u64 (sealed_count scan)
  ∧ attempt_id (fence a) = scan_attempt_id scan ∧ base_committed scan = committed snap
  ∧ lengthN (segments scan) ≤ MAX_SEGMENTS_PER_SCAN
  ∧ compacted_through_sequence scan ≤ delivered_through_sequence scan ≤ sealed_count scan
  ∧ (compacted_through_sequence scan = 0 ↔ compacted_rows scan = 0)
  ∧ (sealed_count scan = 0 → resume_after scan = None ∧ maximum_candidate scan = None)
  ∧ (sealed_count scan ≠ 0 → resume_after scan ≠ None)
  ∧ both_less (maximum_candidate scan) (resume_after scan) = false
  ∧ both_less (maximum_candidate scan) (base_committed scan) = false.
Proof.
  unfold scan_validate_header, segment_count. unfold_monad.
  case_decide as H1; [done|]. case_decide as H2; [done|]. case_decide; [done|].
  case_decide; [done|].
  destruct (checked_add _ _) as [c|] eqn:Ec; [|done]. apply checked_add_some in Ec as [-> Hc].
  case_decide as Hr; [done|]. fold (sealed_count scan) in *.
  assert (∀ b : bool, ¬ Is_true b → b = false) as Hbool by (by intros []).
  destruct (decide (sealed_count scan = 0)) as [Hz|Hz].
  - case_decide; [done|]. case_decide as Hcur; [done|].
    case_decide as Hl1; [done|]. case_decide as Hl2; [done|]. intros [= <-].
    split_and!; auto; try done; try lia. intros _. split; apply dec_stable; tauto.
  - case_decide as Hcur; [done|].
    case_decide as Hl1; [done|]. case_decide as Hl2; [done|]. intros [= <-].
    split_and!; auto; try done; lia.
Qed.

Lemma both_less_false_le a b :
  both_less (Some a) (Some b) = false ↔ cursor_le b a.
Proof. cbn. by rewrite bool_decide_eq_false, position_cmp_not_lt. Qed.

Lemma scan_validate_header_complete scan snap a :
  scan_ok scan snap a → scan_validate_header scan snap a = Ok (sealed_count scan).
Proof.
  intros [Ha Hat Hb Hlim Hrc Hcp _ _ [Hn Hn64] _ Hcur _ _].
  unfold scan_validate_header, segment_count. unfold_monad. fold (sealed_count scan).
  rewrite decide_False by tauto. rewrite decide_False by tauto. rewrite decide_False by lia.
  rewrite decide_False by lia. unfold checked_add. fold (sealed_count scan).
  rewrite decide_True by ulia. rewrite decide_False by lia.
  unfold cursors_ok in Hcur. case_decide as Hz.
  - destruct Hcur as [Hr Hm]. unfold sealed_count in *.
    rewrite decide_False by lia. rewrite Hr, Hm. rewrite decide_False by (intros [|]; done).
    by repeat case_decide.
  - destruct Hcur as (r & m & Hr & Hm & Hle & Hbase). rewrite Hr, Hm.
    rewrite decide_False by done. apply both_less_false_le in Hle as ->.
    assert (both_less (Some m) (base_committed scan) = false) as ->; [|by repeat case_decide].
    destruct (base_committed scan); [|done]. apply both_less_false_le. by apply Hbase.
Qed.

Lemma scan_validate_completion_ok scan a count sealed :
  (0 < sealed → resume_after scan ≠ None) →
  scan_validate_completion scan a count sealed = Ok tt ↔
    match collection a with
    | CollCompleted rows cand =>
        complete scan = true ∧ rows = sealed ∧ cand = maximum_candidate scan
    | _ => complete scan = false
    end
    ∧ ∀ rows, delivery a = DelConfirmed rows →
        complete scan = true ∧ delivered_through_sequence scan = count ∧ rows = sealed.
Proof.
  intros Hres. unfold scan_validate_completion. unfold_monad. split.
  - intros H.
    assert (match collection a with
            | CollCompleted rows cand =>
                complete scan = true ∧ rows = sealed ∧ cand = maximum_candidate scan
            | _ => complete scan = false
            end) as Hcoll.
    { destruct (collection a); case_decide as Hc; try done;
        [by destruct (complete scan)| |by destruct (complete scan)].
      destruct (complete scan); [|tauto]. split_and!; [done|apply dec_stable; tauto..]. }
    split; [done|]. intros r Hd. rewrite Hd in H.
    destruct (collection a); case_decide as Hc; try done; case_decide as Hc2; try done;
      (destruct (complete scan); [split_and!; [done|apply dec_stable; tauto..]|tauto]).
  - intros [Hcoll Hdel].
    assert (match delivery a with
      | DelConfirmed rows =>
          if decide (complete scan = false ∨ delivered_through_sequence scan ≠ count ∨ rows ≠ sealed)
          then Err DeliveryConfirmationMismatch else Ok ()
      | _ => Ok () end = Ok tt) as Hd.
    { destruct (delivery a) as [|r| |]; try done. destruct (Hdel r eq_refl) as (-> & -> & ->).
      rewrite decide_False; [done|]. intros [|[|]]; done. }
    destruct (collection a) as [|r c|].
    + rewrite Hcoll, decide_False by done. by rewrite Hcoll in Hd.
    + destruct Hcoll as (Hc & -> & ->). rewrite decide_False; [done|].
      intros [|[|[|[? ?]]]]; [congruence|done|done|by apply Hres].
    + rewrite Hcoll, decide_False by done. by rewrite Hcoll in Hd.
Qed.

Lemma sealed_total_pos scan :
  canonical_from (compacted_through_sequence scan + 1) (segments scan) →
  (compacted_through_sequence scan = 0 ↔ compacted_rows scan = 0) →
  (sealed_total scan = 0 ↔ sealed_count scan = 0).
Proof.
  intros Hc%canonical_rows_pos Hcp. unfold sealed_total, sealed_count.
  destruct (segments scan) as [|seg l] eqn:E.
  - change (lengthN (@nil SegmentRef)) with 0. change (rows_sum []) with 0. lia.
  - rewrite ?E, lengthN_cons in Hc. rewrite lengthN_cons. lia.
Qed.

Lemma scan_validate_iff scan snap :
  in_u64 (compacted_rows scan) →
  scan_validate scan snap = Ok tt ↔ ∃ a, scan_ok scan snap a.
Proof.
  intros Hcr. unfold scan_validate. split.
  - intros H. apply result_bind_ok in H as (a & Ha%ok_or_ok & H).
    apply result_bind_ok in H as (count & Hh & H).
    apply scan_validate_header_ok in Hh
      as (-> & H64 & Hat & Hb & Hlim & Hrc & Hcp & Hz & Hnz & Hl1 & Hl2).
    apply result_bind_ok in H as (first & Hf%ok_or_ok & H).
    apply checked_add_some in Hf as [-> Hf].
    apply result_bind_ok in H as ([n sealed] & Hloop & H).
    apply scan_segments_loop_ok in Hloop as (Hcan & Hnd & _ & -> & -> & Hn64 & Hs64); [|done..].
    fold (sealed_total scan) in *. revert H. unfold_monad.
    case_decide as Hnp; [done|]. case_decide as Hmm; [done|]. intros Hcmp.
    pose proof (sealed_total_pos scan Hcan Hcp) as Hpos.
    apply scan_validate_completion_ok in Hcmp as [Hco Hde]; [|intros; apply Hnz; lia].
    exists a. split; try done.
    + unfold sealed_count in *.
      replace (compacted_through_sequence scan + lengthN (segments scan) + 1)
        with (compacted_through_sequence scan + 1 + lengthN (segments scan)) by lia. done.
    + unfold cursors_ok. case_decide as Hc0; [by apply Hz|].
      destruct (resume_after scan) as [r|]; [|by destruct (Hnz Hc0)].
      destruct (maximum_candidate scan) as [m|]; [|exfalso; apply Hmm; split; [lia|done]].
      exists r, m. split_and!; try done; [by apply both_less_false_le|].
      intros k Hk. rewrite Hk in Hl2. by apply both_less_false_le.
  - intros (a & V). pose proof (scan_validate_header_complete scan snap a V) as Hh.
    destruct V as [Ha Hat Hb Hlim Hrc Hcp Hcan Hnd [Hnp Hn64] Hs64 Hcur Hco Hde].
    rewrite Ha. cbn. rewrite Hh. cbn. unfold sealed_count in Hn64.
    unfold checked_add. rewrite decide_True by ulia. cbn.
    assert (scan_segments_loop ∅ (compacted_through_sequence scan + 1) (compacted_rows scan)
      (segments scan) = Ok (sealed_count scan + 1, sealed_total scan)) as ->.
    { apply scan_segments_loop_ok; [ulia|assumption|]. unfold sealed_count.
      split_and!; try done; try lia.
      replace (compacted_through_sequence scan + 1 + lengthN (segments scan))
        with (compacted_through_sequence scan + lengthN (segments scan) + 1) by lia. done. }
    unfold_monad. rewrite decide_False by (rewrite Hnp; tauto).
    pose proof (sealed_total_pos scan Hcan Hcp) as Hpos.
    unfold cursors_ok in Hcur. case_decide as Hc0.
    + rewrite decide_False by lia. apply scan_validate_completion_ok; [lia|done].
    + destruct Hcur as (r & m & Hr & Hm & _). rewrite decide_False by (rewrite Hm; by intros [_ ?]).
      apply scan_validate_completion_ok; [by rewrite Hr|done].
Qed.
