(* ===== verification/StateTransition.v ===== *)
(** * Durable transitions (crates/dbx-rs-state/src/store.rs, validate_transition)

    Which replacements of a stored state an ordinary compare-and-swap accepts: the
    coordinator transition is recognised by replaying the coordinator's methods,
    and the scan may only grow, acknowledge one segment or drop an acknowledged
    prefix. *)

From S2P Require Export DurableState.

Local Open Scope N_scope.
Local Open Scope dbx_scope.

Module StateStoreError.
Inductive StateStoreError :=
  | InvalidRoot
  | PathSymlink
  | InvalidPathType
  | InvalidPermissions
  | Filesystem
  | LockPoisoned
  | WriterLockUnavailable
  | AlreadyExists
  | OrphanedBackup
  | MissingCurrent
  | MissingBackup
  | StateKeyMismatch
  | EnvelopeTooLarge
  | EnvelopeTruncated
  | InvalidMagic
  | UnsupportedEnvelopeVersion
  | UnsupportedCodec
  | InvalidRevision
  | InvalidEnvelopeLength
  | TrailingData
  | ChecksumMismatch
  | InvalidPayload
  | UnsupportedStateVersion
  | InvalidState (e : StateValidationError)
  | StaleRevision
  | StaleDigest
  | RevisionOverflow
  | NoStateChange
  | IdentityMigrationRequired
  | ConfigurationActivationRequired
  | ConfigurationActivationBlocked
  | ConfigurationUnchanged
  | ConfigurationGenerationOverflow
  | InvalidCheckpointTransition
  | ScanProgressRegression
  | ConfigurationGenerationRegression
  | CheckpointGenerationRegression.
End StateStoreError.
Abbreviation StateStoreError := StateStoreError.StateStoreError.
Import StateStoreError.

#[global] Instance StateStoreError_eq_dec : EqDecision StateStoreError.
Proof. solve_decision. Defined.

Inductive CheckpointTransition :=
  | TransUnchanged
  | TransStartAttempt
  | TransCollectionCompleted
  | TransCollectionFailed
  | TransDeliveryChanged
  | TransCommit.

(** Does the method, run on a copy of [current], succeed and produce [next]? *)
Definition snapshot_after {A} (current next : Snapshot) (transition : snap A) : bool :=
  let '(candidate, r) := transition current in is_ok r && bool_decide (candidate = next).

(** The [match &active.collection] of the classification. *)
Definition classify_collection (current next : Snapshot) (active : ActiveAttempt)
    : option CheckpointTransition :=
  match collection active with
  | CollCompleted rows candidate =>
      if snapshot_after current next (collection_completed (fence active) rows candidate)
      then Some TransCollectionCompleted else None
  | CollFailed =>
      if snapshot_after current next (collection_failed (fence active))
      then Some TransCollectionFailed else None
  | CollInProgress => None
  end.

(** The [match active.delivery]. *)
Definition classify_delivery (current next : Snapshot) (active : ActiveAttempt)
    : option CheckpointTransition :=
  match delivery active with
  | DelConfirmed rows =>
      if snapshot_after current next (delivery_confirmed (fence active) rows)
      then Some TransDeliveryChanged else None
  | DelFailed =>
      if snapshot_after current next (delivery_failed (fence active))
      then Some TransDeliveryChanged else None
  | DelUncertain =>
      if snapshot_after current next (delivery_uncertain (fence active))
      then Some TransDeliveryChanged else None
  | DelInProgress => None
  end.

(** The block under [if let Some(active) = &next.active_attempt]. *)
Definition classify_active (current next : Snapshot) : option CheckpointTransition :=
  match active_attempt next with
  | None => None
  | Some active =>
      if snapshot_after current next (start_attempt (fence active)) then Some TransStartAttempt
      else match classify_collection current next active with
           | Some t => Some t
           | None => classify_delivery current next active
           end
  end.

Definition classify_checkpoint_transition (current next : Snapshot)
    : result StateStoreError CheckpointTransition :=
  if decide (current = next) then mret TransUnchanged
  else match classify_active current next with
  | Some t => mret t
  | None =>
      match active_attempt current with
      | Some active =>
          if snapshot_after current next (commit (fence active)) then mret TransCommit
          else mthrow InvalidCheckpointTransition
      | None => mthrow InvalidCheckpointTransition
      end
  end.

Definition scan_has_full_delivery_receipt (scan : ActiveScan) : result StateStoreError bool :=
  segment_count ← ok_or ScanProgressRegression
    (checked_add (compacted_through_sequence scan) (lengthN (segments scan)));
  mret (complete scan && bool_decide (delivered_through_sequence scan = segment_count)).

Definition validate_initial_scan (scan : ActiveScan) : result StateStoreError () :=
  if decide (next_page scan = 1 ∧ complete scan = false ∧ segments scan = []
             ∧ resume_after scan = None ∧ maximum_candidate scan = None
             ∧ compacted_through_sequence scan = 0 ∧ compacted_rows scan = 0
             ∧ delivered_through_sequence scan = 0)
  then mret () else mthrow ScanProgressRegression.

Definition cursor_strictly_advances (current next : option TimestampIdCursor) : bool :=
  match current, next with
  | None, Some _ => true
  | Some current, Some next => bool_decide (position_cmp next current = Gt)
  | _, None => false
  end.

Definition cursor_regresses (current next : option TimestampIdCursor) : bool :=
  match current, next with
  | Some current, Some next => bool_decide (position_cmp next current = Lt)
  | Some _, None => true
  | None, _ => false
  end.

Definition validate_scan_append (current next : ActiveScan) (completes_collection : bool)
    : result StateStoreError () :=
  reject ScanProgressRegression
    when (scan_attempt_id current ≠ scan_attempt_id next
          ∨ base_committed current ≠ base_committed next
          ∨ complete current = true
          ∨ complete next ≠ completes_collection
          ∨ compacted_through_sequence current ≠ compacted_through_sequence next
          ∨ compacted_rows current ≠ compacted_rows next
          ∨ delivered_through_sequence current ≠ delivered_through_sequence next
          ∨ next_page next < next_page current
          ∨ starts_with (segments next) (segments current) = false);;
  match (length (segments next) - length (segments current))%nat with
  | 0%nat =>
      reject ScanProgressRegression
        when (next_page next ≠ next_page current
              ∨ resume_after next ≠ resume_after current
              ∨ maximum_candidate next ≠ maximum_candidate current);;
      if completes_collection then mret () else mthrow NoStateChange
  | 1%nat =>
      expected_next_page ← ok_or ScanProgressRegression (checked_add (next_page current) 1);
      reject ScanProgressRegression
        when (next_page next ≠ expected_next_page
              ∨ cursor_strictly_advances (resume_after current) (resume_after next) = false
              ∨ cursor_regresses (maximum_candidate current) (maximum_candidate next) = true);;
      mret ()
  | _ => mthrow ScanProgressRegression
  end.

(** Field assignments on a cloned scan. *)
Definition set_delivered (n : N) (s : ActiveScan) : ActiveScan :=
  mkScan (scan_attempt_id s) (base_committed s) (resume_after s) (maximum_candidate s)
    (compacted_through_sequence s) (compacted_rows s) (next_page s) (complete s) (segments s) n.
Definition set_compacted (through rows : N) (segs : list SegmentRef) (s : ActiveScan) : ActiveScan :=
  mkScan (scan_attempt_id s) (base_committed s) (resume_after s) (maximum_candidate s)
    through rows (next_page s) (complete s) segs (delivered_through_sequence s).

Definition validate_delivery_receipt_advance (current next : ActiveScan)
    : result StateStoreError () :=
  expected_sequence ← ok_or ScanProgressRegression
    (checked_add (delivered_through_sequence current) 1);
  reject ScanProgressRegression when (delivered_through_sequence next ≠ expected_sequence);;
  let last_sequence :=
    match last (segments current) with
    | None => compacted_through_sequence current
    | Some segment => sequence segment
    end in
  reject ScanProgressRegression when (last_sequence < delivered_through_sequence next);;
  let expected := set_delivered (delivered_through_sequence next) current in
  if decide (expected = next) then mret () else mthrow ScanProgressRegression.

(** [try_fold] of [checked_add] over the removed segments. *)
Fixpoint try_sum_rows (acc : N) (segs : list SegmentRef) : option N :=
  match segs with
  | [] => Some acc
  | segment :: segs => acc ← checked_add acc (rows segment); try_sum_rows acc segs
  end.

Definition validate_scan_compaction (current next : ActiveScan) : result StateStoreError () :=
  reject ScanProgressRegression
    when (compacted_through_sequence next ≤ compacted_through_sequence current
          ∨ delivered_through_sequence current < compacted_through_sequence next);;
  removed_count ← ok_or ScanProgressRegression
    (checked_sub (compacted_through_sequence next) (compacted_through_sequence current));
  reject ScanProgressRegression when (lengthN (segments current) < removed_count);;
  removed_rows ← ok_or ScanProgressRegression
    (try_sum_rows 0 (take (N.to_nat removed_count) (segments current)));
  compacted_rows' ← ok_or ScanProgressRegression
    (checked_add (compacted_rows current) removed_rows);
  let expected := set_compacted (compacted_through_sequence next) compacted_rows'
    (drop (N.to_nat removed_count) (segments current)) current in
  if decide (expected = next) then mret () else mthrow ScanProgressRegression.

(** The [Unchanged] arm: no coordinator transition. *)
Definition validate_scan_unchanged (current next : DurableInputState) : result StateStoreError () :=
  match active_scan current, active_scan next with
  | Some current_scan, Some next_scan =>
      if decide (delivered_through_sequence current_scan ≠ delivered_through_sequence next_scan)
      then validate_delivery_receipt_advance current_scan next_scan
      else if decide (compacted_through_sequence current_scan ≠ compacted_through_sequence next_scan
                      ∨ compacted_rows current_scan ≠ compacted_rows next_scan)
      then validate_scan_compaction current_scan next_scan
      else
        active ← ok_or NoStateChange (active_attempt (coordinator current));
        reject InvalidCheckpointTransition when (collection active ≠ CollInProgress);;
        validate_scan_append current_scan next_scan false
  | None, Some _ => mthrow InvalidCheckpointTransition
  | None, None => mthrow NoStateChange
  | Some _, None => mthrow ScanProgressRegression
  end.

Definition validate_scan_transition (current next : DurableInputState)
    (transition : CheckpointTransition) : result StateStoreError () :=
  match transition with
  | TransUnchanged => validate_scan_unchanged current next
  | TransStartAttempt =>
      reject ScanProgressRegression when (active_scan current ≠ None);;
      scan ← ok_or ScanProgressRegression (active_scan next);
      validate_initial_scan scan
  | TransCollectionCompleted =>
      match active_scan current, active_scan next with
      | Some current_scan, Some next_scan => validate_scan_append current_scan next_scan true
      | _, _ => mthrow ScanProgressRegression
      end
  | TransCollectionFailed =>
      match active_scan current, active_scan next with
      | Some current_scan, Some next_scan =>
          if decide (current_scan = next_scan) then mret () else mthrow ScanProgressRegression
      | _, _ => mthrow ScanProgressRegression
      end
  | TransDeliveryChanged =>
      match active_scan current, active_scan next with
      | Some current_scan, Some next_scan =>
          reject ScanProgressRegression when (current_scan ≠ next_scan);;
          active ← ok_or InvalidCheckpointTransition (active_attempt (coordinator next));
          match delivery active with
          | DelConfirmed _ =>
              full ← scan_has_full_delivery_receipt next_scan;
              if (full : bool) then mret () else mthrow ScanProgressRegression
          | _ => mret ()
          end
      | _, _ => mthrow ScanProgressRegression
      end
  | TransCommit =>
      scan ← ok_or ScanProgressRegression (active_scan current);
      match active_scan next with
      | Some _ => mthrow ScanProgressRegression
      | None =>
          full ← scan_has_full_delivery_receipt scan;
          if (full : bool) then mret () else mthrow ScanProgressRegression
      end
  end.

Definition validate_transition (current next : DurableInputState) : result StateStoreError () :=
  reject StateKeyMismatch when (input_id current ≠ input_id next);;
  reject IdentityMigrationRequired
    when (source_lineage_fingerprint current ≠ source_lineage_fingerprint next
          ∨ cursor_identity_fingerprint current ≠ cursor_identity_fingerprint next);;
  reject ConfigurationGenerationRegression
    when (configuration_generation next < configuration_generation current);;
  reject ConfigurationActivationRequired
    when (configuration_fingerprint current ≠ configuration_fingerprint next
          ∨ configuration_generation current ≠ configuration_generation next);;
  reject CheckpointGenerationRegression
    when (generation (coordinator next) < generation (coordinator current));;
  transition ← classify_checkpoint_transition (coordinator current) (coordinator next);
  validate_scan_transition current next transition.
