(* ===== verification/StateTransitionProps.v ===== *)
(** * What an accepted durable transition may do

    [durable_step] is the specification of one compare-and-swap: one coordinator
    step with the matching scan change, one more delivery receipt, or the pruning
    of a receipted prefix.  [validate_transition] accepts nothing else. *)

From S2P Require Export StateTransition DurableStateProps.

Local Open Scope N_scope.
Import StateStoreError.

(** ** Specification *)

(** The coordinator change named by a classification. *)
Definition coord_transition (t : CheckpointTransition) (c n : Snapshot) : Prop :=
  match t with
  | TransUnchanged => n = c
  | TransStartAttempt => ∃ f, active_attempt c = None
      ∧ fence_configuration_id f = configuration_id c ∧ fence_generation f = generation c
      ∧ n = set_active_attempt (Some (mkActive f CollInProgress DelInProgress)) c
  | TransCollectionCompleted => ∃ a rows cand, active_attempt c = Some a
      ∧ collection a = CollInProgress ∧ candidate_ok (committed c) rows cand
      ∧ n = set_active_attempt (Some (set_collection (CollCompleted rows cand) a)) c
  | TransCollectionFailed => ∃ a, active_attempt c = Some a ∧ collection a = CollInProgress
      ∧ n = set_active_attempt (Some (set_collection CollFailed a)) c
  | TransDeliveryChanged => ∃ a d, active_attempt c = Some a ∧ delivery a = DelInProgress
      ∧ d ≠ DelInProgress ∧ n = set_active_attempt (Some (set_delivery d a)) c
  | TransCommit => ∃ a rows cand, active_attempt c = Some a
      ∧ collection a = CollCompleted rows cand ∧ delivery a = DelConfirmed rows
      ∧ in_u64 (generation c + 1) ∧ n = after_commit c a cand
  end.

(** One sealed page appended to a scan. *)
Definition append_segment (seg : SegmentRef) (r m : option TimestampIdCursor) (sc : ActiveScan)
    : ActiveScan :=
  mkScan (scan_attempt_id sc) (base_committed sc) r m (compacted_through_sequence sc)
    (compacted_rows sc) (next_page sc + 1) (complete sc) (segments sc ++ [seg])
    (delivered_through_sequence sc).
Definition set_complete (b : bool) (sc : ActiveScan) : ActiveScan :=
  mkScan (scan_attempt_id sc) (base_committed sc) (resume_after sc) (maximum_candidate sc)
    (compacted_through_sequence sc) (compacted_rows sc) (next_page sc) b (segments sc)
    (delivered_through_sequence sc).
Definition initial_scan (aid : AttemptId) (base : option TimestampIdCursor) : ActiveScan :=
  mkScan aid base None None 0 0 1 false [] 0.

(** A page is appended only with a strictly advancing resume cursor and a
    candidate that does not regress. *)
Definition page_appended (sc sc' : ActiveScan) : Prop :=
  ∃ seg r m, sc' = append_segment seg (Some r) m sc
    ∧ (∀ r0, resume_after sc = Some r0 → cursor_lt r0 r)
    ∧ opt_cursor_le (maximum_candidate sc) m.

Definition scan_transition (t : CheckpointTransition) (s : DurableInputState)
    (o o' : option ActiveScan) : Prop :=
  match t with
  | TransUnchanged => ∃ sc sc', o = Some sc ∧ o' = Some sc' ∧
      ( (* one more receipt, within the sealed segments *)
        (sc' = set_delivered (delivered_through_sequence sc + 1) sc
         ∧ delivered_through_sequence sc + 1 ≤
             match last (segments sc) with Some seg => sequence seg
             | None => compacted_through_sequence sc end)
      ∨ (* a receipted prefix is pruned into the counters *)
        (∃ n, (0 < n)%nat ∧ (n ≤ length (segments sc))%nat
           ∧ compacted_through_sequence sc + N.of_nat n ≤ delivered_through_sequence sc
           ∧ sc' = set_compacted (compacted_through_sequence sc + N.of_nat n)
                     (compacted_rows sc + rows_sum (take n (segments sc)))
                     (drop n (segments sc)) sc)
      ∨ (* one more sealed page while collecting *)
        (complete sc = false ∧ page_appended sc sc'
         ∧ ∃ a, active_attempt (coordinator s) = Some a ∧ collection a = CollInProgress))
  | TransStartAttempt => o = None ∧ ∃ aid base, o' = Some (initial_scan aid base)
  | TransCollectionCompleted => ∃ sc sc', o = Some sc ∧ o' = Some (set_complete true sc')
      ∧ complete sc = false ∧ (sc' = sc ∨ page_appended sc sc')
  | TransCollectionFailed => ∃ sc, o = Some sc ∧ o' = Some sc
  | TransDeliveryChanged => ∃ sc, o = Some sc ∧ o' = Some sc
  | TransCommit => ∃ sc, o = Some sc ∧ o' = None ∧ complete sc = true
      ∧ delivered_through_sequence sc = sealed_count sc
  end.

Record durable_step (s s' : DurableInputState) : Prop := mkStep {
  step_identity : input_id s' = input_id s
    ∧ source_lineage_fingerprint s' = source_lineage_fingerprint s
    ∧ cursor_identity_fingerprint s' = cursor_identity_fingerprint s
    ∧ configuration_fingerprint s' = configuration_fingerprint s
    ∧ configuration_generation s' = configuration_generation s;
  step_transition : ∃ t, coord_transition t (coordinator s) (coordinator s')
    ∧ scan_transition t s (active_scan s) (active_scan s');
}.

(** ** Lemmas: the coordinator part *)

Lemma snapshot_after_true {A} c n (m : snap A) :
  snapshot_after c n m = true ↔ ∃ x, m c = (n, Ok x).
Proof.
  unfold snapshot_after. destruct (m c) as [c' [x|e]]; cbn; [|naive_solver].
  rewrite bool_decide_eq_true. naive_solver.
Qed.

Lemma classify_active_ok c n t :
  c ≠ n → classify_active c n = Some t → coord_transition t c n.
Proof.
  intros Hne. unfold classify_active.
  destruct (active_attempt n) as [a|]; [|done].
  destruct (snapshot_after c n (start_attempt (fence a))) eqn:E.
  { apply snapshot_after_true in E as [x E]. intros [= <-].
    apply start_attempt_cases in E as [->|(_ & _ & ? & ? & ? & ->)]; [done|]. cbn. eauto. }
  destruct (classify_collection c n a) as [t'|] eqn:Ec.
  { intros [= ->]. unfold classify_collection in Ec.
    destruct (collection a) as [|rows candidate|]; [done| |]; case_match eqn:E'; simplify_eq;
      apply snapshot_after_true in E' as [x E'].
    - apply collection_completed_cases in E' as [->|(_ & _ & a' & ? & _ & ? & ? & ->)];
        [done|]. exists a', rows, candidate. by split_and!.
    - apply collection_failed_cases in E' as [->|(_ & _ & a' & ? & _ & ? & ->)];
        [done|]. exists a'. by split_and!. }
  unfold classify_delivery. intros Hd.
  destruct (delivery a) as [|rows| |]; [done|..]; case_match eqn:E'; simplify_eq;
    apply snapshot_after_true in E' as [x E'].
  - apply delivery_confirmed_cases in E' as [->|(_ & _ & a' & ? & _ & ? & ->)];
      [done|]. eexists a', _. split_and!; try done; discriminate.
  - apply record_delivery_terminal_cases in E' as [->|(_ & _ & a' & ? & _ & ? & ->)];
      [done|]. eexists a', _. split_and!; try done; discriminate.
  - apply record_delivery_terminal_cases in E' as [->|(_ & _ & a' & ? & _ & ? & ->)];
      [done|]. eexists a', _. split_and!; try done; discriminate.
Qed.

Lemma classify_ok c n t :
  classify_checkpoint_transition c n = Ok t → coord_transition t c n.
Proof.
  unfold classify_checkpoint_transition. unfold_monad.
  case_decide as Heq; [by intros [= <-]|].
  destruct (classify_active c n) as [t'|] eqn:E.
  { intros [= <-]. by apply classify_active_ok. }
  destruct (active_attempt c) as [a|] eqn:Ha; [|done].
  destruct (snapshot_after c n (commit (fence a))) eqn:E'; [|done]. intros [= <-].
  apply snapshot_after_true in E' as [x E'].
  destruct (commit_cases c (fence a))
    as [[e Ec]|[(Ec & _)|(a' & rows & cand & V & Ha' & Hf & Hc & Hd & Hg & Ec)]];
    rewrite Ec in E'; simplify_eq. eexists _, _, _. by split_and!.
Qed.

(** ** Lemmas: the scan part *)

Lemma try_sum_rows_ok acc segs r :
  try_sum_rows acc segs = Some r → r = acc + rows_sum segs.
Proof.
  revert acc. induction segs as [|seg segs IH]; intros acc; cbn.
  - intros [= ->]. unfold rows_sum. cbn. lia.
  - destruct (checked_add acc (rows seg)) as [b|] eqn:E; [|done]. cbn. intros H%IH.
    apply checked_add_some in E as [-> _]. rewrite rows_sum_cons. lia.
Qed.

Lemma receipt_advance_ok sc sc' :
  validate_delivery_receipt_advance sc sc' = Ok tt →
  sc' = set_delivered (delivered_through_sequence sc + 1) sc
  ∧ delivered_through_sequence sc + 1 ≤
      match last (segments sc) with Some seg => sequence seg
      | None => compacted_through_sequence sc end.
Proof.
  unfold validate_delivery_receipt_advance. unfold_monad.
  destruct (checked_add _ 1) as [e|] eqn:E; [|done]. apply checked_add_some in E as [-> _].
  case_decide as H1; [done|]. case_decide as H2; [done|]. case_decide as H3; [|done]. intros _.
  rewrite H1 in H3. split; [done|]. destruct (last (segments sc)); lia.
Qed.

Lemma compaction_ok sc sc' :
  validate_scan_compaction sc sc' = Ok tt →
  ∃ n, (0 < n)%nat ∧ (n ≤ length (segments sc))%nat
    ∧ compacted_through_sequence sc + N.of_nat n ≤ delivered_through_sequence sc
    ∧ sc' = set_compacted (compacted_through_sequence sc + N.of_nat n)
              (compacted_rows sc + rows_sum (take n (segments sc)))
              (drop n (segments sc)) sc.
Proof.
  unfold validate_scan_compaction. unfold_monad.
  case_decide as H1; [done|].
  destruct (checked_sub _ _) as [k|] eqn:E; [|done]. apply checked_sub_some in E as [Hle ->].
  case_decide as H2; [done|].
  destruct (try_sum_rows _ _) as [r|] eqn:Er; [|done]. apply try_sum_rows_ok in Er as ->.
  destruct (checked_add (compacted_rows sc) _) as [cr|] eqn:Ec; [|done].
  apply checked_add_some in Ec as [-> _]. case_decide as H3; [|done]. intros _.
  set (n := N.to_nat (compacted_through_sequence sc' - compacted_through_sequence sc)) in *.
  assert (compacted_through_sequence sc' = compacted_through_sequence sc + N.of_nat n) as Hn by lia.
  exists n. unfold lengthN in H2. split_and!; [lia|lia|lia|]. by rewrite <- H3, Hn.
Qed.

Lemma strictly_advances_spec o o' :
  cursor_strictly_advances o o' = true ↔
  ∃ r, o' = Some r ∧ ∀ r0, o = Some r0 → cursor_lt r0 r.
Proof.
  destruct o as [r0|], o' as [r|]; cbn; rewrite ?bool_decide_eq_true, ?position_cmp_gt; naive_solver.
Qed.

Lemma regresses_spec o o' : cursor_regresses o o' = false ↔ opt_cursor_le o o'.
Proof.
  destruct o as [r0|], o' as [r|]; cbn; rewrite ?bool_decide_eq_false, ?position_cmp_not_lt; naive_solver.
Qed.

Lemma scan_append_ok sc sc' b :
  validate_scan_append sc sc' b = Ok tt →
  complete sc = false ∧ ∃ sc0,
    sc' = set_complete b sc0 ∧ (page_appended sc sc0 ∨ (b = true ∧ sc0 = sc)).
Proof.
  unfold validate_scan_append. unfold_monad. case_decide as H1; [done|].
  assert (complete sc = false) as Hcomp by (apply not_true_is_false; tauto).
  assert (scan_attempt_id sc = scan_attempt_id sc' ∧ base_committed sc = base_committed sc'
    ∧ complete sc' = b ∧ compacted_through_sequence sc = compacted_through_sequence sc'
    ∧ compacted_rows sc = compacted_rows sc'
    ∧ delivered_through_sequence sc = delivered_through_sequence sc')
    as (Ha & Hb & Hc & Hct & Hcr & Hd) by (split_and!; apply dec_stable; tauto).
  assert (starts_with (segments sc') (segments sc) = true) as [k Hk]%starts_with_true
    by (apply not_false_is_true; tauto).
  rewrite Hk, length_app. replace (length (segments sc) + length k - length (segments sc))%nat
    with (length k) by lia.
  destruct k as [|seg [|? ?]]; cbn; [| |done].
  - case_decide as H2; [done|]. destruct b; [|done]. intros _. split; [done|].
    exists sc. split; [|by right]. rewrite app_nil_r in Hk.
    assert (next_page sc' = next_page sc ∧ resume_after sc' = resume_after sc
      ∧ maximum_candidate sc' = maximum_candidate sc) as (? & ? & ?)
      by (split_and!; apply dec_stable; tauto).
    destruct sc, sc'; cbn in *. by subst.
  - destruct (checked_add (next_page sc) 1) as [e|] eqn:E; [|done].
    apply checked_add_some in E as [-> _]. case_decide as H2; [done|]. intros _. split; [done|].
    assert (cursor_strictly_advances (resume_after sc) (resume_after sc') = true)
      as (r & Hr & Hlt)%strictly_advances_spec by (apply not_false_is_true; tauto).
    assert (opt_cursor_le (maximum_candidate sc) (maximum_candidate sc')) as Hle
      by (apply regresses_spec, not_true_is_false; tauto).
    assert (next_page sc' = next_page sc + 1) as Hn by (apply dec_stable; tauto).
    exists (append_segment seg (Some r) (maximum_candidate sc') sc).
    split; [|left; exists seg, r, (maximum_candidate sc'); by split_and!].
    destruct sc, sc'; cbn in *. by subst.
Qed.

Lemma page_appended_complete sc sc' : page_appended sc sc' → complete sc' = complete sc.
Proof. by intros (seg & r & m & -> & _). Qed.

Lemma scan_unchanged_ok s s' :
  validate_scan_unchanged s s' = Ok tt →
  scan_transition TransUnchanged s (active_scan s) (active_scan s').
Proof.
  unfold validate_scan_unchanged.
  destruct (active_scan s) as [sc|], (active_scan s') as [sc'|]; [|done..]. intros H.
  exists sc, sc'. split_and!; [done..|].
  case_decide; [left; by apply receipt_advance_ok|].
  case_decide; [right; left; by apply compaction_ok|].
  right; right. revert H. unfold_monad. destruct (active_attempt (coordinator s)) as [a|]; [|done].
  case_decide as Hc; [done|]. intros (Hcomp & sc0 & -> & [Hp|[? _]])%scan_append_ok; [|done].
  split_and!; [done| |by exists a].
  pose proof (page_appended_complete _ _ Hp) as E. rewrite Hcomp in E.
  destruct sc0; cbn in *; by subst.
Qed.

Lemma full_receipt_ok sc b :
  scan_has_full_delivery_receipt sc = Ok b →
  b = true ↔ complete sc = true ∧ delivered_through_sequence sc = sealed_count sc.
Proof.
  unfold scan_has_full_delivery_receipt. unfold_monad.
  destruct (checked_add _ _) as [n|] eqn:E; [|done]. apply checked_add_some in E as [-> _].
  intros [= <-]. by rewrite andb_true_iff, bool_decide_eq_true.
Qed.

Lemma scan_transition_ok s s' t :
  validate_scan_transition s s' t = Ok tt → scan_transition t s (active_scan s) (active_scan s').
Proof.
  destruct t; cbn -[scan_transition].
  - apply scan_unchanged_ok.
  - unfold_monad. case_decide as H0; [done|].
    destruct (active_scan s') as [sc|]; [|done]. unfold validate_initial_scan. unfold_monad.
    case_decide as H1; [|done]. intros _. split; [done|].
    exists (scan_attempt_id sc), (base_committed sc). destruct sc; cbn in *. naive_solver.
  - destruct (active_scan s) as [sc|], (active_scan s') as [sc'|]; [|done..].
    intros (Hc & sc0 & -> & Hp)%scan_append_ok. exists sc, sc0. naive_solver.
  - destruct (active_scan s) as [sc|], (active_scan s') as [sc'|]; [|done..].
    case_decide; [|done]. intros _. subst. by exists sc'.
  - destruct (active_scan s) as [sc|], (active_scan s') as [sc'|]; [|done..].
    case_decide as H; [done|]. subst. intros _. by exists sc'.
  - destruct (active_scan s) as [sc|]; [|done]. cbn. destruct (active_scan s'); [done|].
    destruct (scan_has_full_delivery_receipt sc) as [b|] eqn:E; [|done]. cbn.
    destruct b; [|done]. intros _. exists sc.
    destruct (proj1 (full_receipt_ok sc true E) eq_refl). by split_and!.
Qed.

Lemma validate_transition_ok s s' :
  validate_transition s s' = Ok tt →
  durable_step s s' ∧ ∃ t, classify_checkpoint_transition (coordinator s) (coordinator s') = Ok t
    ∧ coord_transition t (coordinator s) (coordinator s')
    ∧ scan_transition t s (active_scan s) (active_scan s').
Proof.
  unfold validate_transition. unfold mthrow, result_throw.
  case_decide as H1; [done|]. case_decide as H2; [done|]. case_decide; [done|].
  case_decide as H3; [done|]. case_decide; [done|].
  intros (t & Ht & Hscan)%result_bind_ok.
  pose proof (classify_ok _ _ _ Ht). pose proof (scan_transition_ok _ _ _ Hscan).
  split; [|by exists t]. split; [|by exists t].
  split_and!; symmetry; [done|apply dec_stable; tauto..].
Qed.

Lemma coord_transition_step t c n : coord_transition t c n → n = c ∨ trans c n.
Proof.
  destruct t; cbn; [by left|..].
  - intros (f & ? & ? & ? & ->). right. by apply trans_start.
  - intros (a & rows & cand & ? & ? & ? & ->). right. by eapply trans_collected.
  - intros (a & ? & ? & ->). right. by eapply trans_collect_failed.
  - intros (a & d & ? & ? & ? & ->). right. by eapply trans_delivery.
  - intros (a & rows & cand & ? & ? & ? & ? & ->). right. by eapply trans_commit.
Qed.
