(* ===== verification/StateRuns.v ===== *)
(** * Runs of accepted durable transitions

    The ghost log of every segment sealed since the scan started is represented
    by the retained segments and the compacted counters; commits happen only when
    the whole log has been collected and delivered. *)

From S2P Require Export StateTransitionProps.

Local Open Scope N_scope.
Import StateStoreError.

(** ** Runs of accepted replacements

    The ghost log lists every segment sealed since the scan started; the stored
    state keeps only its tail after compaction. *)
Section Runs.
Context `{Sha256}.

(** [compacted_rows] is a [u64]. *)
Definition widths_ok (s : DurableInputState) : Prop :=
  ∀ sc, active_scan s = Some sc → in_u64 (compacted_rows sc).

Definition accepted (s s' : DurableInputState) : Prop :=
  validate_transition s s' = Ok tt ∧ state_validate s' = Ok tt ∧ widths_ok s'.

Definition log_update (o o' : option ActiveScan) (log : list SegmentRef) : list SegmentRef :=
  match o, o' with
  | Some sc, Some sc' => log ++ drop (length (segments sc)) (segments sc')
  | _, _ => []
  end.

Definition logged_step (p p' : DurableInputState * list SegmentRef) : Prop :=
  accepted p.1 p'.1 ∧ p'.2 = log_update (active_scan p.1) (active_scan p'.1) p.2.

(** The stored scan represents the log. *)
Record log_repr (sc : ActiveScan) (log : list SegmentRef) : Prop := mkRepr {
  repr_le : (N.to_nat (compacted_through_sequence sc) ≤ length log)%nat;
  repr_segments : segments sc = drop (N.to_nat (compacted_through_sequence sc)) log;
  repr_rows : compacted_rows sc = rows_sum (take (N.to_nat (compacted_through_sequence sc)) log);
  repr_canonical : canonical_from 1 log;
}.

Lemma repr_totals sc log :
  log_repr sc log → sealed_count sc = lengthN log ∧ sealed_total sc = rows_sum log.
Proof.
  intros [Hle Hs Hr _]. unfold sealed_count, sealed_total. rewrite Hs, Hr. split.
  - unfold lengthN. rewrite length_drop. lia.
  - by rewrite <- rows_sum_app, take_drop.
Qed.

Lemma state_validate_ok s :
  state_validate s = Ok tt →
  valid (coordinator s)
  ∧ configuration_id (coordinator s)
      = configuration_fence_id (configuration_fingerprint s) (configuration_generation s)
  ∧ match active_scan s with
    | Some sc => scan_validate sc (coordinator s) = Ok tt
    | None => active_attempt (coordinator s) = None
    end.
Proof.
  unfold state_validate. unfold_monad.
  case_decide; [done|]. case_decide; [done|]. case_decide; [done|].
  destruct (snapshot_validate _) as [[]|] eqn:E; [|done]. apply snapshot_validate_ok in E.
  case_decide as Hf; [done|]. destruct (active_scan s); [done|].
  case_decide as Ha; [done|]. done.
Qed.

Lemma state_scan_ok s sc :
  state_validate s = Ok tt → widths_ok s → active_scan s = Some sc →
  ∃ a, scan_ok sc (coordinator s) a.
Proof.
  intros (_ & _ & Hs)%state_validate_ok Hw Hsc. rewrite Hsc in Hs.
  by apply scan_validate_iff; [apply Hw|].
Qed.

(** Representation is preserved by each kind of scan change. *)
Lemma repr_receipt sc log n : log_repr sc log → log_repr (set_delivered n sc) log.
Proof. intros []. by split. Qed.

Lemma repr_complete sc log b : log_repr sc log → log_repr (set_complete b sc) log.
Proof. intros []. by split. Qed.

Lemma repr_prune sc log n :
  log_repr sc log → (n ≤ length (segments sc))%nat →
  log_repr (set_compacted (compacted_through_sequence sc + N.of_nat n)
    (compacted_rows sc + rows_sum (take n (segments sc))) (drop n (segments sc)) sc) log.
Proof.
  intros [Hle Hs Hr Hc] Hn. rewrite Hs, length_drop in Hn.
  assert (N.to_nat (compacted_through_sequence sc + N.of_nat n)
    = (N.to_nat (compacted_through_sequence sc) + n)%nat) as E by lia.
  split; cbn [compacted_through_sequence segments compacted_rows set_compacted]; rewrite ?E; [lia| | |done].
  - by rewrite Hs, drop_drop.
  - rewrite Hr, Hs, <- rows_sum_app. f_equal. by rewrite take_take_drop.
Qed.

Lemma repr_append sc sc' log :
  log_repr sc log → page_appended sc sc' →
  canonical_from (compacted_through_sequence sc' + 1) (segments sc') →
  log_repr sc' (log ++ drop (length (segments sc)) (segments sc')).
Proof.
  intros [Hle Hs Hr Hc] (seg & r & m & -> & _) Hcan. cbn in *.
  rewrite drop_app_length. split; cbn.
  - rewrite length_app. lia.
  - rewrite drop_app_le by done. by rewrite Hs.
  - by rewrite take_app_le.
  - apply canonical_app. split; [done|]. apply canonical_app in Hcan as [_ Hcan].
    replace (1 + lengthN log) with (compacted_through_sequence sc + 1 + lengthN (segments sc)); [done|].
    rewrite Hs. unfold lengthN. rewrite length_drop. lia.
Qed.

Lemma log_update_same sc sc' log :
  segments sc' = segments sc → log_update (Some sc) (Some sc') log = log.
Proof. intros E. cbn. by rewrite E, drop_all, app_nil_r. Qed.

(** The invariant of logged runs. *)
Definition logged_inv (p : DurableInputState * list SegmentRef) : Prop :=
  state_validate p.1 = Ok tt ∧ widths_ok p.1
  ∧ match active_scan p.1 with
    | Some sc => log_repr sc p.2
    | None => p.2 = []
    end.

Lemma scan_transition_repr t s s' sc sc' log :
  scan_transition t s (Some sc) (Some sc') → active_scan s' = Some sc' →
  state_validate s' = Ok tt → widths_ok s' → log_repr sc log →
  log_repr sc' (log_update (Some sc) (Some sc') log).
Proof.
  intros Ht Hs' Hv Hw Hrep.
  destruct (state_scan_ok s' sc' Hv Hw Hs') as (a' & Hok). pose proof (ok_canonical _ _ _ Hok) as Hcan.
  destruct t; cbn [scan_transition] in Ht.
  - destruct Ht as (? & ? & [= <-] & [= <-] & [[-> _]|[(n & _ & Hn & _ & ->)|(_ & Hp & _)]]).
    + rewrite log_update_same by done. by apply repr_receipt.
    + cbn. rewrite (drop_ge (drop n (segments sc))) by (rewrite length_drop; lia).
      rewrite app_nil_r. by apply repr_prune.
    + by apply repr_append.
  - destruct Ht as [[=] _].
  - destruct Ht as (? & sc0 & [= <-] & [= ->] & _ & [->|Hp]).
    + rewrite log_update_same by done. by apply repr_complete.
    + cbn -[log_update]. pose proof (repr_append sc sc0 log Hrep Hp Hcan) as Hr.
      by apply (repr_complete _ _ true) in Hr.
  - destruct Ht as (? & [= <-] & [= <-]). by rewrite log_update_same.
  - destruct Ht as (? & [= <-] & [= <-]). by rewrite log_update_same.
  - by destruct Ht as (? & _ & [=] & _).
Qed.

Lemma logged_step_inv p p' : logged_inv p → logged_step p p' → logged_inv p'.
Proof.
  destruct p as [s log], p' as [s' log']. intros (Hv & Hw & Hrep) ((Ht & Hv' & Hw') & Hlog).
  cbn in *. apply validate_transition_ok in Ht as (_ & t & _ & Hc & Hs).
  split_and!; [done|done|]. cbn.
  destruct (active_scan s') as [sc'|] eqn:Es'.
  - rewrite Hlog. destruct (active_scan s) as [sc|] eqn:Es.
    + by eapply scan_transition_repr.
    + destruct t; cbn in Hs; [naive_solver| |naive_solver..].
      destruct Hs as (_ & aid & base & [= ->]). cbn. split; done.
  - rewrite Hlog. by destruct (active_scan s).
Qed.

Lemma logged_run_inv s0 s log :
  state_validate s0 = Ok tt → active_scan s0 = None →
  rtc logged_step (s0, []) (s, log) → logged_inv (s, log).
Proof.
  intros Hv Hn Hrun. assert (logged_inv (s0, [])) as Hinv.
  { split_and!; cbn; [done|intros ?; cbn; congruence|by rewrite Hn]. }
  revert Hinv. apply rtc_invariant with (R := logged_step); [|done]. apply logged_step_inv.
Qed.

(** *** The theorems *)

(** An ordinary compare-and-swap of the durable state is one step of the
    specification: the identity fingerprints and configuration stay, the
    coordinator makes the classified step, and the scan starts empty, gains one
    page with a strictly advancing cursor, gains one receipt within the sealed
    segments, loses a receipted prefix, completes, or disappears at a commit of a
    fully receipted complete scan. *)
Theorem validate_transition_refines s s' :
  validate_transition s s' = Ok tt → durable_step s s'.
Proof. intros Ht. by apply validate_transition_ok in Ht as [? _]. Qed.

(** C10: however pages are sealed, receipted and pruned, the stored scan always
    represents the full log of sealed segments: the retained segments are the log
    without the pruned prefix, every pruned segment had its receipt, the log is
    numbered 1, 2, ... without gaps, and the totals are those of the log. *)
Theorem durable_log_refinement s0 s log sc :
  state_validate s0 = Ok tt → active_scan s0 = None →
  rtc logged_step (s0, []) (s, log) → active_scan s = Some sc →
  segments sc = drop (N.to_nat (compacted_through_sequence sc)) log
  ∧ compacted_through_sequence sc ≤ delivered_through_sequence sc ≤ lengthN log
  ∧ next_page sc = lengthN log + 1
  ∧ compacted_rows sc = rows_sum (take (N.to_nat (compacted_through_sequence sc)) log)
  ∧ canonical_from 1 log
  ∧ sealed_total sc = rows_sum log.
Proof.
  intros Hv Hn Hrun Hsc. destruct (logged_run_inv s0 s log Hv Hn Hrun) as (Hv' & Hw & Hrep).
  cbn in *. rewrite Hsc in Hrep. destruct (state_scan_ok s sc Hv' Hw Hsc) as (a & Hok).
  destruct (repr_totals sc log Hrep) as [Hcount Htotal], Hrep as [Hle Hs Hr Hc].
  pose proof (ok_receipt _ _ _ Hok). pose proof (ok_next _ _ _ Hok) as [Hnp _].
  rewrite Hcount in *. split_and!; [done|lia|lia|done..].
Qed.

Lemma commit_needs_log s log s' :
  logged_inv (s, log) → accepted s s' →
  committed (coordinator s') ≠ committed (coordinator s)
    ∨ generation (coordinator s') ≠ generation (coordinator s) →
  ∃ sc a, active_scan s = Some sc ∧ active_attempt (coordinator s) = Some a
    ∧ complete sc = true ∧ delivered_through_sequence sc = lengthN log
    ∧ collection a = CollCompleted (rows_sum log) (maximum_candidate sc)
    ∧ delivery a = DelConfirmed (rows_sum log)
    ∧ coordinator s' = after_commit (coordinator s) a (maximum_candidate sc)
    ∧ active_scan s' = None.
Proof.
  intros (Hv & Hw & Hrep) ((_ & t & _ & Hc & Hs)%validate_transition_ok & _ & _) Hne. cbn in *.
  assert (∀ o, coordinator s' = set_active_attempt o (coordinator s) → False) as Hset.
  { intros o Ho. rewrite Ho in Hne. by destruct Hne. }
  destruct t; cbn in Hc; [by rewrite Hc in Hne; destruct Hne| | | | |];
    [destruct Hc as (? & _ & _ & _ & Ho); by apply Hset in Ho
    |destruct Hc as (? & ? & ? & _ & _ & _ & Ho); by apply Hset in Ho
    |destruct Hc as (? & _ & _ & Ho); by apply Hset in Ho
    |destruct Hc as (? & ? & _ & _ & _ & Ho); by apply Hset in Ho|].
  destruct Hc as (a & rows & cand & Ha & Hcol & Hdel & _ & Hn), Hs as (sc & Hsc & Hs' & Hcomp & Hd).
  rewrite Hsc in Hrep. destruct (repr_totals sc log Hrep) as [Hcount Htotal].
  destruct (state_scan_ok s sc Hv Hw Hsc) as (a' & Hok).
  pose proof (ok_active _ _ _ Hok) as Ha'. rewrite Ha in Ha'. injection Ha' as <-.
  pose proof (ok_collection _ _ _ Hok) as Hk. rewrite Hcol in Hk. destruct Hk as (_ & Hr & Hm).
  rewrite Htotal in Hr. subst rows cand. exists sc, a. split_and!; congruence.
Qed.

(** C5: in every run of accepted replacements, the stored cursor or generation
    changes only when the log of all sealed segments is complete, the durable
    receipt covers the whole log, and both collection and delivery counted
    exactly the rows of the log; the new cursor is the candidate of the scan. *)
Theorem durable_commit_gate s0 s log s' :
  state_validate s0 = Ok tt → active_scan s0 = None →
  rtc logged_step (s0, []) (s, log) → accepted s s' →
  committed (coordinator s') ≠ committed (coordinator s)
    ∨ generation (coordinator s') ≠ generation (coordinator s) →
  ∃ sc a, active_scan s = Some sc ∧ active_attempt (coordinator s) = Some a
    ∧ complete sc = true ∧ delivered_through_sequence sc = lengthN log
    ∧ collection a = CollCompleted (rows_sum log) (maximum_candidate sc)
    ∧ delivery a = DelConfirmed (rows_sum log)
    ∧ coordinator s' = after_commit (coordinator s) a (maximum_candidate sc)
    ∧ active_scan s' = None.
Proof. intros Hv Hn Hrun. apply commit_needs_log. by apply (logged_run_inv s0). Qed.

(** What never moves backwards along accepted replacements. *)
Definition durable_le (s s' : DurableInputState) : Prop :=
  input_id s' = input_id s
  ∧ source_lineage_fingerprint s' = source_lineage_fingerprint s
  ∧ cursor_identity_fingerprint s' = cursor_identity_fingerprint s
  ∧ configuration_fingerprint s' = configuration_fingerprint s
  ∧ configuration_generation s' = configuration_generation s
  ∧ progress_le (coordinator s) (coordinator s').

#[global] Instance durable_le_preorder : PreOrder durable_le.
Proof.
  split.
  - intros s. unfold durable_le. by split_and!.
  - intros s1 s2 s3 (? & ? & ? & ? & ? & ?) (? & ? & ? & ? & ? & ?). unfold durable_le.
    split_and!; [congruence..|by etrans].
Qed.

Lemma coord_step_progress c n :
  valid c → n = c ∨ trans c n → progress_le c n.
Proof.
  intros V [->|T]; [reflexivity|].
  destruct (trans_committed c n T) as [[Hc Hg]|(a & rows & cand & Ha & Hc & Hd & Hg & ->)].
  - split_and!; [by rewrite Hc|lia|by destruct T].
  - split_and!; cbn; [|lia|done]. eapply candidate_ok_le, valid_candidate; eauto.
Qed.

Lemma accepted_le s s' : state_validate s = Ok tt → accepted s s' → durable_le s s'.
Proof.
  intros (V & _)%state_validate_ok (([(? & ? & ? & ? & ?) _] & t & _ & Hc & _)%validate_transition_ok & _).
  unfold durable_le. split_and!; [done..|].
  apply coord_step_progress; [done|]. by eapply coord_transition_step.
Qed.

Lemma accepted_run_le s s' :
  state_validate s = Ok tt → rtc accepted s s' → durable_le s s'.
Proof.
  intros Hv Hrun. revert Hv. induction Hrun as [|s s1 s' Ha _ IH]; intros Hv; [reflexivity|].
  etrans; [by apply accepted_le|]. apply IH. by destruct Ha as (_ & ? & _).
Qed.

(** along every run of accepted replacements the identity and configuration
    fields of the durable state stay, its committed cursor never moves backwards
    and its generation never decreases. *)
Theorem durable_progress_monotone s s' :
  state_validate s = Ok tt → rtc accepted s s' →
  (input_id s', source_lineage_fingerprint s', cursor_identity_fingerprint s',
   configuration_fingerprint s', configuration_generation s')
  = (input_id s, source_lineage_fingerprint s, cursor_identity_fingerprint s,
     configuration_fingerprint s, configuration_generation s)
  ∧ opt_cursor_le (committed (coordinator s)) (committed (coordinator s'))
  ∧ generation (coordinator s) ≤ generation (coordinator s').
Proof.
  intros Hv Hrun. destruct (accepted_run_le s s' Hv Hrun) as (-> & -> & -> & -> & -> & ? & ? & _).
  by split_and!.
Qed.

End Runs.

(** the scan validation accepts exactly the well-formed scans of the snapshot's
    active attempt: numbered pages with rows, distinct segments, counters and
    receipts within the sealed segments, consistent cursors, and agreement with
    the recorded collection and delivery. *)
Theorem scan_validate_exact sc snap :
  in_u64 (compacted_rows sc) →
  scan_validate sc snap = Ok tt ↔ ∃ a, scan_ok sc snap a.
Proof. apply scan_validate_iff. Qed.

(** ** Witnesses: one scan of three rows in two pages, the first one pruned *)
Definition toy_sha256 : Sha256 := λ l, array_of_list 32 (rev l).
#[local] Existing Instance toy_sha256.

Definition fp (b : byte) : Fingerprint := vreplicate 32 b.
Definition demo_fence_id : array 32 := configuration_fence_id (fp x03) 1.
Definition demo_snap : Snapshot := Snapshot_new demo_fence_id 7 (Some (mkCursor 1000 10)).
Definition demo_fence : AttemptFence := mkFence (vreplicate 16 x11) demo_fence_id 7.
Definition demo_segment (b : byte) (n r : N) : SegmentRef :=
  mkSegmentRef (vreplicate 16 b) n n r (vreplicate 32 b).
Definition demo (c : Snapshot) (o : option ActiveScan) : DurableInputState :=
  DurableInputState_new (vreplicate 16 x01) (fp x01) (fp x02) (fp x03) 1 c o.
Definition after (cs : list command) : Snapshot := fold_left (λ s c, (run_command c s).1) cs demo_snap.

Definition demo_scan0 : ActiveScan := initial_scan (vreplicate 16 x11) (Some (mkCursor 1000 10)).
Definition demo_scan1 : ActiveScan :=
  append_segment (demo_segment x21 1 2) (Some (mkCursor 1001 11)) (Some (mkCursor 1001 11)) demo_scan0.
Definition demo_scan2 : ActiveScan := set_delivered 1 demo_scan1.
Definition demo_scan3 : ActiveScan := set_compacted 1 2 [] demo_scan2.
Definition demo_scan4 : ActiveScan :=
  append_segment (demo_segment x22 2 1) (Some (mkCursor 1002 1)) (Some (mkCursor 1002 1)) demo_scan3.
Definition demo_scan5 : ActiveScan := set_complete true demo_scan4.
Definition demo_scan6 : ActiveScan := set_delivered 2 demo_scan5.
Definition demo_collected : command := CmdCollected demo_fence 3 (Some (mkCursor 1002 1)).
Definition demo0 := demo demo_snap None.
Definition demo1 := demo (after [CmdStart demo_fence]) (Some demo_scan0).
Definition demo2 := demo (after [CmdStart demo_fence]) (Some demo_scan1).
Definition demo3 := demo (after [CmdStart demo_fence]) (Some demo_scan2).
Definition demo4 := demo (after [CmdStart demo_fence]) (Some demo_scan3).
Definition demo5 := demo (after [CmdStart demo_fence; demo_collected]) (Some demo_scan5).
Definition demo6 := demo (after [CmdStart demo_fence; demo_collected]) (Some demo_scan6).
Definition demo7 :=
  demo (after [CmdStart demo_fence; demo_collected; CmdConfirmed demo_fence 3]) (Some demo_scan6).
Definition demo8 :=
  demo (after [CmdStart demo_fence; demo_collected; CmdConfirmed demo_fence 3; CmdCommit demo_fence]) None.
Definition demo_log : list SegmentRef := [demo_segment x21 1 2; demo_segment x22 2 1].

(** Decides [accepted]. *)
Definition accepted_b (s s' : DurableInputState) : bool :=
  bool_decide (validate_transition s s' = Ok tt) && bool_decide (state_validate s' = Ok tt)
  && match active_scan s' with Some sc => bool_decide (in_u64 (compacted_rows sc)) | None => true end.

Lemma accepted_b_true s s' : accepted_b s s' = true → accepted s s'.
Proof.
  unfold accepted_b. rewrite !andb_true_iff, !bool_decide_eq_true. intros [[? ?] Hw].
  split_and!; [done|done|]. intros sc E. rewrite E in Hw. by apply bool_decide_eq_true in Hw.
Qed.

Ltac accept := apply accepted_b_true; vm_compute; reflexivity.

Lemma demo_run : rtc logged_step (demo0, []) (demo7, demo_log).
Proof.
  eapply (rtc_l _ _ (demo1, [])); [split; [accept|reflexivity]|].
  eapply (rtc_l _ _ (demo2, [demo_segment x21 1 2])); [split; [accept|reflexivity]|].
  eapply (rtc_l _ _ (demo3, [demo_segment x21 1 2])); [split; [accept|reflexivity]|].
  eapply (rtc_l _ _ (demo4, [demo_segment x21 1 2])); [split; [accept|reflexivity]|].
  eapply (rtc_l _ _ (demo5, demo_log)); [split; [accept|reflexivity]|].
  eapply (rtc_l _ _ (demo6, demo_log)); [split; [accept|reflexivity]|].
  eapply (rtc_l _ _ (demo7, demo_log)); [split; [accept|reflexivity]|]. apply rtc_refl.
Qed.

Lemma validate_transition_refines_witness : durable_step demo4 demo5.
Proof. apply validate_transition_refines. vm_compute. reflexivity. Defined.

Lemma durable_log_refinement_witness :
  segments demo_scan6 = drop 1 demo_log ∧ 1 ≤ 2 ≤ lengthN demo_log ∧ 3 = lengthN demo_log + 1
  ∧ 2 = rows_sum (take 1 demo_log) ∧ canonical_from 1 demo_log ∧ sealed_total demo_scan6 = rows_sum demo_log.
Proof.
  apply (durable_log_refinement demo0 demo7 demo_log demo_scan6);
    [vm_compute; reflexivity|reflexivity|exact demo_run|reflexivity].
Defined.

Lemma durable_commit_gate_witness :
  ∃ sc a, active_scan demo7 = Some sc ∧ active_attempt (coordinator demo7) = Some a
    ∧ complete sc = true ∧ delivered_through_sequence sc = lengthN demo_log
    ∧ collection a = CollCompleted (rows_sum demo_log) (maximum_candidate sc)
    ∧ delivery a = DelConfirmed (rows_sum demo_log)
    ∧ coordinator demo8 = after_commit (coordinator demo7) a (maximum_candidate sc)
    ∧ active_scan demo8 = None.
Proof.
  apply (durable_commit_gate demo0);
    [vm_compute; reflexivity|reflexivity|exact demo_run|accept|right; vm_compute; discriminate].
Defined.

Lemma durable_progress_monotone_witness :
  (input_id demo8, source_lineage_fingerprint demo8, cursor_identity_fingerprint demo8,
   configuration_fingerprint demo8, configuration_generation demo8)
  = (input_id demo7, source_lineage_fingerprint demo7, cursor_identity_fingerprint demo7,
     configuration_fingerprint demo7, configuration_generation demo7)
  ∧ opt_cursor_le (committed (coordinator demo7)) (committed (coordinator demo8))
  ∧ generation (coordinator demo7) ≤ generation (coordinator demo8).
Proof.
  apply durable_progress_monotone; [vm_compute; reflexivity|]. apply rtc_once. accept.
Defined.

Lemma scan_validate_exact_witness :
  scan_validate demo_scan6 (coordinator demo7) = Ok tt ↔ ∃ a, scan_ok demo_scan6 (coordinator demo7) a.
Proof. apply scan_validate_exact. vm_compute. discriminate. Defined.
