(* ===== verification/Envelope.v ===== *)
(** * The checkpoint envelope (crates/dbx-rs-state/src/store.rs, codec)

    A stored state is one envelope: a 24-byte prefix (magic, version, codec,
    payload length, revision), the SHA-256 checksum of the prefix and payload, and
    the JSON payload. *)

From S2P Require Export StateTransition.

Local Open Scope N_scope.
Local Open Scope dbx_scope.
Import StateStoreError.

(** ** The JSON codec

    [serde_json::to_vec] and [from_slice] at the type of the state, with the
    derived (de)serialisers, are parameters; what the code relies on is that
    reading back what was written gives the same value. *)
Class SerdeJson := {
  to_vec : DurableInputState → option (list byte);
  from_slice : list byte → option DurableInputState;
}.

Class SerdeJsonLaws `{SerdeJson} : Prop :=
  json_round_trip v payload : to_vec v = Some payload → from_slice payload = Some v.

(** ** Data *)

Definition DURABLE_ENVELOPE_VERSION : N := 1.
Definition MAX_ENVELOPE_BYTES : N := 1048576.
Definition MAGIC : list byte := String.list_byte_of_string "DBXRSCP" ++ [x00].
Definition JSON_CODEC : N := 1.
Definition HEADER_BYTES : nat := 56.
Definition CHECKSUM_START : nat := 24.
Definition CHECKSUM_END : nat := 56.
Definition CHECKSUM_DOMAIN : list byte :=
  String.list_byte_of_string "dbx-rs-checkpoint-envelope-v1" ++ [x00].

Record StateToken := mkToken { revision : N; token_digest : array 32 }.
Record StoredState := mkStored { value : DurableInputState; token : StateToken }.

#[global] Instance StateToken_eq_dec : EqDecision StateToken.
Proof. solve_decision. Defined.
#[global] Instance StoredState_eq_dec : EqDecision StoredState.
Proof. solve_decision. Defined.

Definition map_validation_error (e : StateValidationError) : StateStoreError :=
  match e with
  | StateValidationError.UnsupportedStateVersion
  | StateValidationError.UnsupportedCoordinatorVersion => UnsupportedStateVersion
  | e => InvalidState e
  end.

Definition verify_expected (current expected : StateToken) : result StateStoreError () :=
  reject StaleRevision when (revision current ≠ revision expected);;
  reject StaleDigest when (token_digest current ≠ token_digest expected);;
  mret ().

Definition validate_key `{Sha256} (key : StateKey) (v : DurableInputState)
    : result StateStoreError () :=
  reject StateKeyMismatch when (StateKey_for_input (input_id v) ≠ key);;
  mret ().

(** ** Encoding and decoding *)
Section Codec.
Context `{Sha256, SerdeJson}.

Definition envelope_checksum (prefix payload : list byte) : array 32 :=
  sha256 (CHECKSUM_DOMAIN ++ prefix ++ payload).

(** The first [CHECKSUM_START] bytes. *)
Definition envelope_prefix (payload_len rev : N) : list byte :=
  MAGIC ++ u16_be DURABLE_ENVELOPE_VERSION ++ u16_be JSON_CODEC ++ u32_be payload_len ++ u64_be rev.

Definition encode_payload (payload : list byte) (rev : N) : result StateStoreError (list byte) :=
  reject InvalidRevision when (rev = 0);;
  total ← ok_or EnvelopeTooLarge (checked_add (N.of_nat HEADER_BYTES) (lengthN payload));
  reject EnvelopeTooLarge when (MAX_ENVELOPE_BYTES < total);;
  payload_len ← ok_or EnvelopeTooLarge (u32_try_from (lengthN payload));
  let prefix := envelope_prefix payload_len rev in
  mret (prefix ++ vec_to_list (envelope_checksum prefix payload) ++ payload).

Definition encode_envelope (v : DurableInputState) (rev : N) : result StateStoreError (list byte) :=
  _ ← map_err map_validation_error (state_validate v);
  payload ← ok_or InvalidPayload (to_vec v);
  encode_payload payload rev.

Definition decode_envelope (bytes : list byte) : result StateStoreError StoredState :=
  reject EnvelopeTooLarge when (MAX_ENVELOPE_BYTES < lengthN bytes);;
  reject EnvelopeTruncated when (length bytes < HEADER_BYTES)%nat;;
  reject InvalidMagic when (slice 0 8 bytes ≠ MAGIC);;
  reject UnsupportedEnvelopeVersion
    when (from_be (slice 8 10 bytes) ≠ DURABLE_ENVELOPE_VERSION);;
  reject UnsupportedCodec when (from_be (slice 10 12 bytes) ≠ JSON_CODEC);;
  expected_length ← ok_or InvalidEnvelopeLength
    (checked_add (N.of_nat HEADER_BYTES) (from_be (slice 12 16 bytes)));
  reject EnvelopeTruncated when (lengthN bytes < expected_length);;
  reject TrailingData when (expected_length < lengthN bytes);;
  let rev := from_be (slice 16 24 bytes) in
  reject InvalidRevision when (rev = 0);;
  let payload := drop HEADER_BYTES bytes in
  let calculated := envelope_checksum (slice 0 CHECKSUM_START bytes) payload in
  let stored_digest := array_of_list 32 (slice CHECKSUM_START CHECKSUM_END bytes) in
  reject ChecksumMismatch when (calculated ≠ stored_digest);;
  v ← ok_or InvalidPayload (from_slice payload);
  _ ← map_err map_validation_error (state_validate v);
  mret (mkStored v (mkToken rev stored_digest)).

(** ** Specification: the canonical envelope of a payload *)
Definition frame (payload : list byte) (rev : N) : list byte :=
  envelope_prefix (lengthN payload) rev
    ++ vec_to_list (envelope_checksum (envelope_prefix (lengthN payload) rev) payload) ++ payload.

Definition frame_ok (payload : list byte) (rev : N) : Prop :=
  rev ≠ 0 ∧ in_u64 rev ∧ N.of_nat HEADER_BYTES + lengthN payload ≤ MAX_ENVELOPE_BYTES.

Lemma encode_payload_ok payload rev bytes :
  in_u64 rev →
  encode_payload payload rev = Ok bytes ↔ frame_ok payload rev ∧ bytes = frame payload rev.
Proof.
  intros Hr. unfold encode_payload, frame_ok. unfold_monad.
  case_decide as H1; [naive_solver|].
  destruct (checked_add _ _) as [t|] eqn:E.
  2: { apply checked_add_none in E. split; [done|]. intros ((_ & _ & Hm) & _).
       change (N.of_nat HEADER_BYTES) with 56 in *. unfold MAX_ENVELOPE_BYTES in *. ulia. }
  apply checked_add_some in E as [-> _]. case_decide as H2; [split; [done|]; intros ((_ & _ & Hm) & _); lia|].
  unfold u32_try_from. rewrite decide_True by (unfold MAX_ENVELOPE_BYTES in *; ulia).
  cbn. split; [intros [= <-]; split_and!; (done || lia)|]. by intros [_ ->].
Qed.

Lemma length_prefix n rev : length (envelope_prefix n rev) = 24%nat.
Proof. unfold envelope_prefix. by autorewrite with lens. Qed.

Lemma prefix_app n rev l :
  envelope_prefix n rev ++ l
  = MAGIC ++ u16_be DURABLE_ENVELOPE_VERSION ++ u16_be JSON_CODEC ++ u32_be n ++ u64_be rev ++ l.
Proof. unfold envelope_prefix. by rewrite <- !app_assoc. Qed.

Lemma length_frame payload rev : length (frame payload rev) = (56 + length payload)%nat.
Proof. unfold frame. rewrite !length_app, length_prefix, length_vec_to_list. lia. Qed.

(** Any 56 bytes or more are seven fields. *)
Lemma envelope_fields (bytes : list byte) :
  (56 ≤ length bytes)%nat →
  ∃ m v c n r d p, bytes = m ++ v ++ c ++ n ++ r ++ d ++ p
    ∧ length m = 8%nat ∧ length v = 2%nat ∧ length c = 2%nat ∧ length n = 4%nat
    ∧ length r = 8%nat ∧ length d = 32%nat.
Proof.
  intros Hlen.
  destruct (list_cut 8 bytes) as (m & b1 & -> & Hm & H1); [lia|].
  destruct (list_cut 2 b1) as (v & b2 & -> & Hv & H2); [lia|].
  destruct (list_cut 2 b2) as (c & b3 & -> & Hc & H3); [lia|].
  destruct (list_cut 4 b3) as (n & b4 & -> & Hn & H4); [lia|].
  destruct (list_cut 8 b4) as (r & b5 & -> & Hr & H5); [lia|].
  destruct (list_cut 32 b5) as (d & p & -> & Hd & H6); [lia|].
  by exists m, v, c, n, r, d, p.
Qed.

Section Fields.
Context (m v c n r d p : list byte).
Context (Hm : length m = 8%nat) (Hv : length v = 2%nat) (Hc : length c = 2%nat)
  (Hn : length n = 4%nat) (Hr : length r = 8%nat) (Hd : length d = 32%nat).

Ltac here := apply slice_here; assumption.

Lemma slice_magic : slice 0 8 (m ++ v ++ c ++ n ++ r ++ d ++ p) = m.
Proof using All. here. Qed.
Lemma slice_version : slice 8 10 (m ++ v ++ c ++ n ++ r ++ d ++ p) = v.
Proof using All. rewrite (slice_skip 8) by (assumption || lia). here. Qed.
Lemma slice_codec : slice 10 12 (m ++ v ++ c ++ n ++ r ++ d ++ p) = c.
Proof using All.
  rewrite (slice_skip 8) by (assumption || lia). rewrite (slice_skip 2) by (assumption || lia). here.
Qed.
Lemma slice_payload_len : slice 12 16 (m ++ v ++ c ++ n ++ r ++ d ++ p) = n.
Proof using All.
  rewrite (slice_skip 8) by (assumption || lia). do 2 rewrite (slice_skip 2) by (assumption || lia). here.
Qed.
Lemma slice_revision : slice 16 24 (m ++ v ++ c ++ n ++ r ++ d ++ p) = r.
Proof using All.
  rewrite (slice_skip 8) by (assumption || lia). do 2 rewrite (slice_skip 2) by (assumption || lia).
  rewrite (slice_skip 4) by (assumption || lia). here.
Qed.
Lemma slice_prefix : slice 0 24 (m ++ v ++ c ++ n ++ r ++ d ++ p) = m ++ v ++ c ++ n ++ r.
Proof using All.
  replace (m ++ v ++ c ++ n ++ r ++ d ++ p) with ((m ++ v ++ c ++ n ++ r) ++ d ++ p) by by rewrite <- !app_assoc.
  apply slice_here. rewrite !length_app. lia.
Qed.
Lemma slice_digest : slice 24 56 (m ++ v ++ c ++ n ++ r ++ d ++ p) = d.
Proof using All.
  replace (m ++ v ++ c ++ n ++ r ++ d ++ p) with ((m ++ v ++ c ++ n ++ r) ++ d ++ p) by by rewrite <- !app_assoc.
  rewrite (slice_skip 24) by (rewrite ?length_app; lia). here.
Qed.
Lemma drop_payload : drop 56 (m ++ v ++ c ++ n ++ r ++ d ++ p) = p.
Proof using All.
  replace (m ++ v ++ c ++ n ++ r ++ d ++ p) with ((m ++ v ++ c ++ n ++ r ++ d) ++ p) by by rewrite <- !app_assoc.
  apply drop_app_length'. rewrite !length_app. lia.
Qed.
End Fields.

(** The header fields are as written exactly when the prefix is canonical. *)
Lemma prefix_canonical (m v c n r : list byte) :
  length v = 2%nat → length c = 2%nat → length n = 4%nat → length r = 8%nat →
  m = MAGIC → from_be v = DURABLE_ENVELOPE_VERSION → from_be c = JSON_CODEC →
  m ++ v ++ c ++ n ++ r = envelope_prefix (from_be n) (from_be r).
Proof.
  intros Hv Hc Hn Hr -> E1 E2. unfold envelope_prefix.
  rewrite <- E1, <- E2, (u16_be_from v), (u16_be_from c), u32_be_from, u64_be_from by done. done.
Qed.

Lemma fields_frame (m v c n r d p : list byte) :
  length v = 2%nat → length c = 2%nat → length n = 4%nat → length r = 8%nat → length d = 32%nat →
  m = MAGIC → from_be v = DURABLE_ENVELOPE_VERSION → from_be c = JSON_CODEC →
  from_be n = lengthN p →
  envelope_checksum (envelope_prefix (from_be n) (from_be r)) p = array_of_list 32 d →
  m ++ v ++ c ++ n ++ r ++ d ++ p = frame p (from_be r).
Proof.
  intros Hv Hc Hn Hr Hd Em Ev Ec Hp Hsum. unfold frame. rewrite <- Hp, Hsum, array_of_list_id by done.
  rewrite <- (prefix_canonical m v c n r) by done. by rewrite <- !app_assoc.
Qed.

Lemma decode_envelope_ok bytes s :
  decode_envelope bytes = Ok s →
  ∃ payload, frame_ok payload (revision (token s)) ∧ bytes = frame payload (revision (token s))
    ∧ token_digest (token s)
        = envelope_checksum (envelope_prefix (lengthN payload) (revision (token s))) payload
    ∧ from_slice payload = Some (value s) ∧ state_validate (value s) = Ok tt.
Proof.
  unfold decode_envelope, HEADER_BYTES, CHECKSUM_START, CHECKSUM_END. unfold_monad.
  case_decide as H1; [done|]. case_decide as H2; [done|].
  destruct (envelope_fields bytes) as (m & v & c & n & r & d & p & -> & Hm & Hv & Hc & Hn & Hr & Hd); [lia|].
  rewrite slice_magic, slice_version, slice_codec, slice_payload_len by done.
  case_decide as E1; [done|]. case_decide as E2; [done|]. case_decide as E3; [done|].
  destruct (checked_add _ _) as [el|] eqn:E; [|done]. apply checked_add_some in E as [-> _].
  case_decide as H3; [done|]. case_decide as H4; [done|].
  rewrite slice_revision, slice_prefix, slice_digest, drop_payload by done.
  case_decide as H5; [done|].
  rewrite (prefix_canonical m v c n r) by (done || (apply dec_stable; tauto)).
  assert (from_be n = lengthN p) as Hp.
  { rewrite !lengthN_app in *. unfold lengthN in *. change (N.of_nat 56) with 56 in *. lia. }
  case_decide as H6; [done|].
  destruct (from_slice p) as [st|] eqn:Ej; [|done].
  destruct (state_validate st) as [[]|] eqn:Ev; [|done]. intros [= <-].
  cbn [revision token value token_digest].
  exists p. split_and!; try done.
  - split_and!; [done|by apply from_be_in_u64|change (N.of_nat HEADER_BYTES) with 56; lia].
  - by eapply fields_frame.
  - symmetry. rewrite Hp in H6. exact H6.
Qed.

(** Field values of a canonical envelope. *)
Lemma decode_frame payload rev v :
  frame_ok payload rev → from_slice payload = Some v → state_validate v = Ok tt →
  decode_envelope (frame payload rev) = Ok (mkStored v (mkToken rev
    (envelope_checksum (envelope_prefix (lengthN payload) rev) payload))).
Proof.
  intros (Hr & Hr64 & Hmax) Hj Hv. change (N.of_nat HEADER_BYTES) with 56 in Hmax.
  unfold MAX_ENVELOPE_BYTES in Hmax.
  assert (lengthN (frame payload rev) = 56 + lengthN payload) as Hlen
    by (unfold lengthN; rewrite length_frame; lia).
  unfold decode_envelope, HEADER_BYTES, CHECKSUM_START, CHECKSUM_END.
  rewrite decide_False by (rewrite Hlen; unfold MAX_ENVELOPE_BYTES; lia).
  rewrite decide_False by (rewrite length_frame; lia).
  assert (frame payload rev = MAGIC ++ u16_be DURABLE_ENVELOPE_VERSION ++ u16_be JSON_CODEC
    ++ u32_be (lengthN payload) ++ u64_be rev
    ++ vec_to_list (envelope_checksum (envelope_prefix (lengthN payload) rev) payload) ++ payload) as Hf
    by apply prefix_app.
  assert (slice 0 24 (frame payload rev) = envelope_prefix (lengthN payload) rev) as Hp
    by (unfold frame; apply slice_here, length_prefix).
  rewrite Hp, Hlen, Hf.
  rewrite slice_magic, slice_version, slice_codec, slice_payload_len, slice_revision, slice_digest,
    drop_payload by (by autorewrite with lens).
  rewrite !u16_from_be, u32_from_be, u64_from_be
    by (unfold DURABLE_ENVELOPE_VERSION, JSON_CODEC; ulia).
  rewrite array_of_to_list. rewrite !decide_False by tauto.
  unfold checked_add. change (N.of_nat 56) with 56. rewrite decide_True by ulia.
  unfold_monad. rewrite !decide_False by (tauto || lia). by rewrite Hj, Hv.
Qed.

(** What [encode_envelope] writes, [decode_envelope] reads back as the same
    state at the same revision, and the token is the digest of the envelope; a
    valid state whose JSON fits the limit is always encodable. *)
Theorem envelope_round_trip `{!SerdeJsonLaws} v rev payload :
  state_validate v = Ok tt → to_vec v = Some payload → rev ≠ 0 → in_u64 rev →
  N.of_nat HEADER_BYTES + lengthN payload ≤ MAX_ENVELOPE_BYTES →
  ∃ bytes digest, encode_envelope v rev = Ok bytes
    ∧ decode_envelope bytes = Ok (mkStored v (mkToken rev digest))
    ∧ lengthN bytes = N.of_nat HEADER_BYTES + lengthN payload.
Proof.
  intros Hv Hj Hr Hr64 Hmax. exists (frame payload rev). eexists. split_and!.
  - unfold encode_envelope. rewrite Hv, Hj. cbn. by apply encode_payload_ok.
  - apply decode_frame; [done|by apply json_round_trip|done].
  - unfold lengthN. rewrite length_frame. change (N.of_nat HEADER_BYTES) with 56. lia.
Qed.

(** C34: the decoder accepts nothing but canonical envelopes: the accepted bytes
    are exactly those [encode_payload] writes for some payload, the revision and
    digest of the token are those of the bytes, and the state is valid. *)
Theorem decode_envelope_exact bytes s :
  decode_envelope bytes = Ok s ↔
  ∃ payload, in_u64 (revision (token s))
    ∧ encode_payload payload (revision (token s)) = Ok bytes
    ∧ token_digest (token s)
        = envelope_checksum (envelope_prefix (lengthN payload) (revision (token s))) payload
    ∧ from_slice payload = Some (value s) ∧ state_validate (value s) = Ok tt.
Proof.
  split.
  - intros (p & Hf & -> & Hd & Hj & Hv)%decode_envelope_ok. exists p.
    pose proof Hf as (_ & Hr & _). split_and!; [done| |done..]. by apply encode_payload_ok.
  - intros (p & Hr & [Hf ->]%encode_payload_ok & Hd & Hj & Hv); [|done].
    rewrite (decode_frame p _ (value s)) by done. rewrite <- Hd. by destruct s as [? []].
Qed.

(** The version and length fields of a shorter or longer input are those of the
    envelope it was cut from. *)
Lemma decode_prefix payload rev k :
  frame_ok payload rev → (k < length (frame payload rev))%nat →
  decode_envelope (take k (frame payload rev)) = Err EnvelopeTruncated.
Proof.
  intros (Hr & Hr64 & Hmax) Hk. change (N.of_nat HEADER_BYTES) with 56 in Hmax.
  unfold MAX_ENVELOPE_BYTES in Hmax. rewrite length_frame in Hk.
  unfold decode_envelope, HEADER_BYTES, CHECKSUM_START, CHECKSUM_END.
  assert (length (take k (frame payload rev)) = k) as Hlen
    by (rewrite length_take, length_frame; lia).
  assert (lengthN (take k (frame payload rev)) = N.of_nat k) as HlN by (unfold lengthN; by rewrite Hlen).
  rewrite decide_False by (rewrite HlN; unfold MAX_ENVELOPE_BYTES; ulia).
  case_decide as H1; [done|]. rewrite Hlen in H1.
  assert (take k (frame payload rev) = MAGIC ++ u16_be DURABLE_ENVELOPE_VERSION ++ u16_be JSON_CODEC
    ++ u32_be (lengthN payload) ++ u64_be rev
    ++ vec_to_list (envelope_checksum (envelope_prefix (lengthN payload) rev) payload)
    ++ take (k - 56) payload) as Hf.
  { unfold frame. rewrite app_assoc, take_app_ge;
      rewrite length_app, length_prefix, length_vec_to_list; [|lia].
    apply prefix_app. }
  rewrite HlN, Hf.
  rewrite slice_magic, slice_version, slice_codec, slice_payload_len by (by autorewrite with lens).
  rewrite !u16_from_be, u32_from_be by (unfold DURABLE_ENVELOPE_VERSION, JSON_CODEC; ulia).
  rewrite !decide_False by tauto. unfold checked_add. change (N.of_nat 56) with 56.
  rewrite (decide_True (P := in_u64 _)) by (unfold in_u64, u64_max; lia). cbn [ok_or mbind result_bind].
  rewrite (decide_True (P := N.of_nat k < _)) by (unfold lengthN; lia). done.
Qed.

Lemma decode_trailing payload rev more :
  frame_ok payload rev → more ≠ [] →
  decode_envelope (frame payload rev ++ more)
  = Err (if decide (MAX_ENVELOPE_BYTES < lengthN (frame payload rev ++ more))
         then EnvelopeTooLarge else TrailingData).
Proof.
  intros (Hr & Hr64 & Hmax) Hk. change (N.of_nat HEADER_BYTES) with 56 in Hmax.
  unfold MAX_ENVELOPE_BYTES in Hmax.
  assert (0 < lengthN more) as Hpos by (destruct more; [done|rewrite lengthN_cons; lia]).
  unfold decode_envelope, HEADER_BYTES, CHECKSUM_START, CHECKSUM_END.
  case_decide as H1; [done|].
  assert (lengthN (frame payload rev ++ more) = 56 + lengthN payload + lengthN more) as Hlen
    by (rewrite lengthN_app; unfold lengthN; rewrite length_frame; lia).
  rewrite decide_False by (rewrite length_app, length_frame; lia).
  assert (frame payload rev ++ more = MAGIC ++ u16_be DURABLE_ENVELOPE_VERSION ++ u16_be JSON_CODEC
    ++ u32_be (lengthN payload) ++ u64_be rev
    ++ vec_to_list (envelope_checksum (envelope_prefix (lengthN payload) rev) payload)
    ++ (payload ++ more)) as Hf
    by (unfold frame; rewrite <- !app_assoc; apply prefix_app).
  rewrite Hlen, Hf.
  rewrite slice_magic, slice_version, slice_codec, slice_payload_len by (by autorewrite with lens).
  rewrite !u16_from_be, u32_from_be by (unfold DURABLE_ENVELOPE_VERSION, JSON_CODEC; ulia).
  rewrite !decide_False by tauto. unfold checked_add. change (N.of_nat 56) with 56.
  rewrite (decide_True (P := in_u64 _)) by ulia. cbn [ok_or mbind result_bind].
  rewrite (decide_False (P := (_ + _ < 56 + _))) by lia. by rewrite (decide_True (P := (56 + _ < _))) by lia.
Qed.

(** A decodable envelope cut short anywhere is rejected as truncated, and one
    with bytes after it is rejected as trailing data or as too large. *)
Theorem envelope_length_exact bytes s :
  decode_envelope bytes = Ok s →
  (∀ k, (k < length bytes)%nat → decode_envelope (take k bytes) = Err EnvelopeTruncated)
  ∧ (∀ more, more ≠ [] → ∃ e, decode_envelope (bytes ++ more) = Err e
       ∧ (e = TrailingData ∨ e = EnvelopeTooLarge)).
Proof.
  intros (p & Hf & -> & _)%decode_envelope_ok. split.
  - intros k Hk. by apply decode_prefix.
  - intros more Hm. rewrite decode_trailing by done. eexists. split; [done|].
    case_decide; auto.
Qed.

(** A state has one envelope per revision. *)
Lemma encode_envelope_ok v rev bytes :
  in_u64 rev →
  encode_envelope v rev = Ok bytes ↔
  ∃ payload, state_validate v = Ok tt ∧ to_vec v = Some payload ∧ frame_ok payload rev
    ∧ bytes = frame payload rev.
Proof.
  intros Hr. unfold encode_envelope. unfold_monad.
  destruct (state_validate v) as [[]|]; [|naive_solver].
  destruct (to_vec v) as [p|]; [|naive_solver]. rewrite encode_payload_ok by done. naive_solver.
Qed.

End Codec.

(** ** Witnesses: a codec that knows one state *)
Definition env_sha256 : Sha256 := λ l, array_of_list 32 (rev l).
#[local] Existing Instance env_sha256.
Definition env_state : DurableInputState :=
  DurableInputState_new (vreplicate 16 x01) (vreplicate 32 x01) (vreplicate 32 x02) (vreplicate 32 x03) 1
    (Snapshot_new (configuration_fence_id (vreplicate 32 x03) 1) 7 None) None.
Definition env_payload : list byte := [x7b; x7d].
Definition env_json : SerdeJson := {|
  to_vec v := if decide (v = env_state) then Some env_payload else None;
  from_slice p := if decide (p = env_payload) then Some env_state else None;
|}.
#[local] Existing Instance env_json.

#[local] Instance env_json_laws : SerdeJsonLaws.
Proof. intros v p. cbn. case_decide; [|done]. intros [= <-]. subst. done. Qed.

Definition env_bytes : list byte := Eval vm_compute in frame env_payload 1.
Definition env_stored : StoredState :=
  mkStored env_state (mkToken 1 (envelope_checksum (envelope_prefix 2 1) env_payload)).

Lemma envelope_round_trip_witness :
  ∃ bytes digest, encode_envelope env_state 1 = Ok bytes
    ∧ decode_envelope bytes = Ok (mkStored env_state (mkToken 1 digest))
    ∧ lengthN bytes = N.of_nat HEADER_BYTES + lengthN env_payload.
Proof.
  apply envelope_round_trip; [vm_compute; reflexivity|vm_compute; reflexivity|done
    |vm_compute; discriminate|vm_compute; discriminate].
Defined.

Lemma envelope_length_exact_witness :
  (∀ k, (k < length env_bytes)%nat → decode_envelope (take k env_bytes) = Err EnvelopeTruncated)
  ∧ (∀ more, more ≠ [] → ∃ e, decode_envelope (env_bytes ++ more) = Err e
       ∧ (e = TrailingData ∨ e = EnvelopeTooLarge)).
Proof. apply (envelope_length_exact env_bytes env_stored). vm_compute. reflexivity. Defined.
