(* ===== verification/Io.v ===== *)
(** * I/O errors and byte streams

    The part of [std::io] that the storage crates observe: the error kinds they
    distinguish, a file being written and a file being read.  Every operation takes
    its outcome from a schedule, so that a theorem for all schedules holds for
    every pattern of failures. *)

From S2P Require Export Bytes.

(** ** Error kinds

    The first four are produced by the state of the file system; a [Fault] is a
    failure of the environment (no space, permission, hardware). *)
Inductive fault_kind := PermissionDenied | StorageFull | OtherFault.

Inductive io_kind :=
  | NotFound
  | AlreadyExists
  | NotADirectory
  | IsADirectory
  | TooManyLinks
  | UnexpectedEof
  | Fault (k : fault_kind).

#[global] Instance fault_kind_eq_dec : EqDecision fault_kind.
Proof. solve_decision. Defined.
#[global] Instance io_kind_eq_dec : EqDecision io_kind.
Proof. solve_decision. Defined.

(** ** A file open for writing

    [write_all] either appends all bytes, or fails after some of them have been
    written; [sync_all] can fail. *)
Inductive write_fault :=
  | WriteOk
  | WriteFails (written : nat) (k : fault_kind).

Record sink := mkSink {
  written : list byte;
  write_faults : list write_fault;
}.

Definition next_fault (l : list write_fault) : write_fault * list write_fault :=
  match l with [] => (WriteOk, []) | f :: l => (f, l) end.

Definition write_all (bytes : list byte) : st sink io_kind () := λ s,
  match next_fault (write_faults s) with
  | (WriteOk, l) => (mkSink (written s ++ bytes) l, Ok tt)
  | (WriteFails n k, l) => (mkSink (written s ++ take n bytes) l, Err (Fault k))
  end.

Definition sync_all : st sink io_kind () := λ s,
  match next_fault (write_faults s) with
  | (WriteOk, l) => (mkSink (written s) l, Ok tt)
  | (WriteFails _ k, l) => (mkSink (written s) l, Err (Fault k))
  end.

(** A sink that never fails. *)
Definition reliable (s : sink) : Prop := Forall (λ f, f = WriteOk) (write_faults s).

Lemma next_fault_reliable s :
  reliable s → (next_fault (write_faults s)).1 = WriteOk
  ∧ Forall (λ f, f = WriteOk) (next_fault (write_faults s)).2.
Proof. intros H. unfold reliable in H. destruct H; cbn; auto. Qed.

Lemma write_all_ok bytes s s' :
  write_all bytes s = (s', Ok tt) → written s' = written s ++ bytes.
Proof. unfold write_all. destruct (next_fault _) as [[|n k] l]; [|done]. by intros [= <-]. Qed.

Lemma sync_all_written s s' r : sync_all s = (s', r) → written s' = written s.
Proof. unfold sync_all. by destruct (next_fault _) as [[|n k] l]; intros [= <- _]. Qed.

Lemma write_all_reliable bytes s :
  reliable s → ∃ s', write_all bytes s = (s', Ok tt) ∧ reliable s'.
Proof.
  intros (Hf & Hl)%next_fault_reliable. unfold write_all.
  destruct (next_fault _) as [f l]; cbn in *; subst. eauto.
Qed.

Lemma sync_all_reliable s : reliable s → ∃ s', sync_all s = (s', Ok tt) ∧ reliable s'.
Proof.
  intros (Hf & Hl)%next_fault_reliable. unfold sync_all.
  destruct (next_fault _) as [f l]; cbn in *; subst. eauto.
Qed.

(** ** A file open for reading

    A [BufReader] over a regular file: the unread bytes, and one schedule entry
    per request. *)
Record source := mkSource {
  unread : list byte;
  read_faults : list (option fault_kind);
}.

Definition next_read (l : list (option fault_kind)) : option fault_kind * list (option fault_kind) :=
  match l with [] => (None, []) | f :: l => (f, l) end.

(** [read_exact] of [n] bytes; at the end of the file what is left is consumed. *)
Definition read_exact_io (n : nat) : st source io_kind (list byte) := λ s,
  match next_read (read_faults s) with
  | (Some k, l) => (mkSource (unread s) l, Err (Fault k))
  | (None, l) =>
      if decide (n ≤ length (unread s))%nat
      then (mkSource (drop n (unread s)) l, Ok (take n (unread s)))
      else (mkSource [] l, Err UnexpectedEof)
  end.

(** [read] into a one-byte buffer: the number of bytes read. *)
Definition read_one : st source io_kind nat := λ s,
  match next_read (read_faults s) with
  | (Some k, l) => (mkSource (unread s) l, Err (Fault k))
  | (None, l) =>
      match unread s with
      | [] => (mkSource [] l, Ok 0%nat)
      | _ :: rest => (mkSource rest l, Ok 1%nat)
      end
  end.

Lemma read_exact_io_ok n s s' bs :
  read_exact_io n s = (s', Ok bs) → unread s = bs ++ unread s' ∧ length bs = n.
Proof.
  unfold read_exact_io. destruct (next_read _) as [[k|] l]; [done|].
  case_decide; [|done]. intros [= <- <-]. cbn. rewrite take_drop, length_take. split; [done|lia].
Qed.

Lemma read_one_zero s s' : read_one s = (s', Ok 0%nat) → unread s = [].
Proof.
  unfold read_one. destruct (next_read _) as [[k|] l]; [done|]. by destruct (unread s).
Qed.

Definition calm (s : source) : Prop := Forall (λ f, f = None) (read_faults s).

Lemma next_read_calm s :
  calm s → (next_read (read_faults s)).1 = None
  ∧ Forall (λ f, f = None) (next_read (read_faults s)).2.
Proof. intros H. unfold calm in H. destruct H; cbn; auto. Qed.

Lemma read_exact_io_calm n bs s :
  calm s → take n (unread s) = bs → length bs = n →
  ∃ s', read_exact_io n s = (s', Ok bs) ∧ unread s' = drop n (unread s) ∧ calm s'.
Proof.
  intros (Hf & Hl)%next_read_calm <- Hn. unfold read_exact_io.
  destruct (next_read _) as [f l]; cbn in *; subst.
  rewrite length_take in Hn. rewrite decide_True by lia. eexists. by split_and!.
Qed.

Lemma read_one_calm s :
  calm s → unread s = [] → ∃ s', read_one s = (s', Ok 0%nat).
Proof.
  intros (Hf & Hl)%next_read_calm Hu. unfold read_one.
  destruct (next_read _) as [f l]; cbn in *; subst. rewrite Hu. eauto.
Qed.

(** ** The ciphers of the spool and of the secret store

    [ring]'s HKDF-SHA256 and ChaCha20-Poly1305 are parameters.  [hkdf_sha256]
    takes the salt, the input key and the info; [seal] and [open] take the key, the
    nonce, the associated data and the text, [seal] appending the tag. *)
Local Open Scope N_scope.
Local Open Scope dbx_scope.

Class Crypto := {
  aead_key : Type;
  hkdf_sha256 : list byte → list byte → list byte → option (array 32);
  unbound_key : array 32 → option aead_key;
  seal : aead_key → array 12 → list byte → list byte → option (list byte);
  open : aead_key → array 12 → list byte → list byte → option (list byte);
}.

(** What the formats rely on: the tag has 16 bytes, opening inverts sealing, and
    what opens was sealed with the same key, nonce and associated data (the cipher
    is deterministic). *)
Class CryptoLaws `{Crypto} : Prop := {
  seal_length k n aad p c : seal k n aad p = Some c → length c = (length p + 16)%nat;
  open_seal k n aad p c : seal k n aad p = Some c → open k n aad c = Some p;
  seal_open k n aad p c : open k n aad c = Some p → seal k n aad p = Some c;
}.

(** HKDF-SHA256 yields 32 bytes for every input, a 32-byte key is always accepted,
    and texts far beyond 4 GiB can be sealed. *)
Class CryptoTotal `{Crypto} : Prop := {
  hkdf_total salt ikm info : is_Some (hkdf_sha256 salt ikm info);
  unbound_total k : is_Some (unbound_key k);
  seal_total k n aad p : in_u32 (lengthN p + 16) → is_Some (seal k n aad p);
}.

(** [CHACHA20_POLY1305.tag_len()] and [NONCE_LEN]. *)
Definition tag_len : nat := 16.
