(* ===== verification/SpoolModel.v ===== *)
(** * Spool data (crates/dbx-rs-spool/src/identity.rs, model.rs, key.rs, error.rs) *)

From S2P Require Export Io.
From stdpp Require Export strings.

Local Open Scope N_scope.
Local Open Scope dbx_scope.

(** ** Errors

    A code, the stage, and the kind of the underlying I/O error; the message is
    display text. *)
Record SpoolError := mkSpoolError {
  err_code : string;
  err_stage : string;
  err_io_kind : option io_kind;
}.

Definition SpoolError_new (code stage : string) : SpoolError := mkSpoolError code stage None.
Definition SpoolError_io (code stage : string) (e : io_kind) : SpoolError :=
  mkSpoolError code stage (Some e).

#[global] Instance SpoolError_eq_dec : EqDecision SpoolError.
Proof. solve_decision. Defined.

(** ** Identities *)
Definition InputKey : Type := array 32.
Definition Fingerprint : Type := array 32.
Definition BatchId : Type := array 16.
Definition SegmentId : Type := array 16.

#[global] Instance InputKey_eq_dec : EqDecision InputKey.
Proof. unfold InputKey. apply _. Defined.
#[global] Instance InputKey_countable : Countable InputKey := array_countable 32.
#[global] Instance Fingerprint_eq_dec : EqDecision Fingerprint.
Proof. unfold Fingerprint. apply _. Defined.
#[global] Instance BatchId_eq_dec : EqDecision BatchId.
Proof. unfold BatchId. apply _. Defined.
#[global] Instance SegmentId_eq_dec : EqDecision SegmentId.
Proof. unfold SegmentId. apply _. Defined.

(** ** Keys: the identifier is the first half of the key's digest. *)
Definition KEY_BYTES : nat := 32.
Definition KEY_ID_BYTES : nat := 16.

Record SpoolKey := mkSpoolKey {
  key_bytes : array KEY_BYTES;
  key_id : array KEY_ID_BYTES;
}.

Definition SpoolKey_of_bytes `{Sha256} (bytes : array KEY_BYTES) : SpoolKey :=
  mkSpoolKey bytes
    (array_of_list KEY_ID_BYTES (take KEY_ID_BYTES (vec_to_list (sha256 (vec_to_list bytes))))).

(** ** Metadata, limits, headers and summaries *)
Definition MIN_SEGMENT_BYTES : N := 512.
Definition MAX_RECOVERY_METADATA_BYTES : nat := 128.

Record RecoveryMetadata := mkMetadata { as_bytes : list byte }.

Definition RecoveryMetadata_new (bytes : list byte) : result SpoolError RecoveryMetadata :=
  reject (SpoolError_new "DBX-RS-SPOOL-LIMIT-0015" "recovery_metadata")
    when (MAX_RECOVERY_METADATA_BYTES < length bytes)%nat;;
  mret (mkMetadata bytes).

Definition RecoveryMetadata_empty : RecoveryMetadata := mkMetadata [].

Record SpoolLimits := mkLimits {
  limit_segment : N;
  limit_input : N;
  limit_global : N;
}.

Definition SpoolLimits_new (segment_max_bytes input_max_bytes global_max_bytes : N)
    : result SpoolError SpoolLimits :=
  reject (SpoolError_new "DBX-RS-SPOOL-LIMIT-0001" "limit_validate")
    when (segment_max_bytes < MIN_SEGMENT_BYTES ∨ input_max_bytes < segment_max_bytes
          ∨ global_max_bytes < input_max_bytes);;
  mret (mkLimits segment_max_bytes input_max_bytes global_max_bytes).

Record SegmentHeader := mkHeader {
  input_key : InputKey;
  header_fingerprint : Fingerprint;
  header_generation : N;
  batch_id : BatchId;
  batch_sequence : N;
  segment_sequence : N;
  created_epoch_millis : N;
}.

Record SegmentSummary := mkSummary {
  event_count : N;
  plaintext_bytes : N;
  stream_digest : array 32;
}.

#[global] Instance RecoveryMetadata_eq_dec : EqDecision RecoveryMetadata.
Proof. solve_decision. Defined.
#[global] Instance SegmentHeader_eq_dec : EqDecision SegmentHeader.
Proof. solve_decision. Defined.
#[global] Instance SegmentSummary_eq_dec : EqDecision SegmentSummary.
Proof. solve_decision. Defined.

(** The integer fields of a header are [u64]. *)
Definition header_wf (h : SegmentHeader) : Prop :=
  in_u64 (header_generation h) ∧ in_u64 (batch_sequence h)
  ∧ in_u64 (segment_sequence h) ∧ in_u64 (created_epoch_millis h).
Definition metadata_wf (m : RecoveryMetadata) : Prop :=
  (length (as_bytes m) ≤ MAX_RECOVERY_METADATA_BYTES)%nat.
Record limits_wf (l : SpoolLimits) : Prop := mkLimitsWf {
  limits_min : MIN_SEGMENT_BYTES ≤ limit_segment l;
  limits_segment : limit_segment l ≤ limit_input l;
  limits_input : limit_input l ≤ limit_global l;
}.

Lemma RecoveryMetadata_new_ok bytes m :
  RecoveryMetadata_new bytes = Ok m ↔ m = mkMetadata bytes ∧ metadata_wf m.
Proof.
  unfold RecoveryMetadata_new, metadata_wf. unfold_monad.
  case_decide as H; split; [done| |intros [= <-]; split; [done|cbn; lia]|by intros [-> _]].
  intros [-> ?]. cbn in *. lia.
Qed.

Lemma SpoolLimits_new_ok s i g l :
  SpoolLimits_new s i g = Ok l ↔ l = mkLimits s i g ∧ limits_wf l.
Proof.
  unfold SpoolLimits_new. unfold_monad. case_decide as H; split; [done| | |by intros [-> _]].
  - intros [-> []]. cbn in *. lia.
  - intros [= <-]. split; [done|]. split; cbn; lia.
Qed.
