(* ===== verification/SegmentFormat.v ===== *)
(** * The encrypted segment format (crates/dbx-rs-spool/src/format.rs)

    A segment is a 74-byte plaintext prefix and a sequence of numbered,
    individually authenticated frames: the header, the events, the recovery
    metadata (format version 2) and the footer with the event accounting.  The
    encoder appends to a [sink], the decoder consumes a [source]. *)

From S2P Require Export SpoolModel Io.

Local Open Scope N_scope.
Local Open Scope dbx_scope.

(** ** Constants *)
Definition MAGIC : list byte := String.list_byte_of_string "DBXRSSPL".
Definition LEGACY_FORMAT_VERSION : N := 1.
Definition FORMAT_VERSION : N := 2.
Definition SALT_BYTES : nat := 32.
Definition PREFIX_BYTES : nat := 74.
Definition FRAME_PREFIX_BYTES : N := 12.
Definition HEADER_PAYLOAD_BYTES : nat := 112.
Definition FOOTER_PAYLOAD_BYTES : nat := 48.
Definition FRAME_HEADER : byte := x01.
Definition FRAME_EVENT : byte := x02.
Definition FRAME_FOOTER : byte := x03.
Definition FRAME_RECOVERY_METADATA : byte := x04.

(** ** Errors shared by several checks *)
Definition truncated_segment : SpoolError := SpoolError_new "DBX-RS-SPOOL-FORMAT-0019" "frame_read".
Definition invalid_frame_type : SpoolError := SpoolError_new "DBX-RS-SPOOL-FORMAT-0021" "frame_type".
Definition invalid_version : SpoolError := SpoolError_new "DBX-RS-SPOOL-FORMAT-0016" "version_validate".
Definition missing_metadata_error : SpoolError :=
  SpoolError_new "DBX-RS-SPOOL-FORMAT-0025" "recovery_metadata".
Definition repeated_metadata_error : SpoolError :=
  SpoolError_new "DBX-RS-SPOOL-FORMAT-0026" "recovery_metadata".
Definition metadata_order_error : SpoolError :=
  SpoolError_new "DBX-RS-SPOOL-FORMAT-0027" "frame_order".

(** ** Plaintext prefix, header and footer payloads *)
Definition encode_prefix (kid : array KEY_ID_BYTES) (salt : array SALT_BYTES)
    (id : SegmentId) (format_version : N) : list byte :=
  MAGIC ++ u16_be format_version ++ vec_to_list kid ++ vec_to_list salt ++ vec_to_list id.

Definition decode_prefix (prefix : list byte)
    : result SpoolError (N * array KEY_ID_BYTES * array SALT_BYTES * SegmentId) :=
  reject (SpoolError_new "DBX-RS-SPOOL-FORMAT-0015" "prefix_validate")
    when (slice 0 8 prefix ≠ MAGIC);;
  let version := from_be (slice 8 10 prefix) in
  reject invalid_version when (version ≠ LEGACY_FORMAT_VERSION ∧ version ≠ FORMAT_VERSION);;
  let '(kid, rest) := take_array KEY_ID_BYTES (drop 10 prefix) in
  let '(salt, rest) := take_array SALT_BYTES rest in
  let '(id, _) := take_array 16 rest in
  mret (version, kid, salt, id).

Definition encode_header (h : SegmentHeader) : list byte :=
  vec_to_list (input_key h) ++ vec_to_list (header_fingerprint h) ++ u64_be (header_generation h)
    ++ vec_to_list (batch_id h) ++ u64_be (batch_sequence h) ++ u64_be (segment_sequence h)
    ++ u64_be (created_epoch_millis h).

Definition decode_header (payload : list byte) : result SpoolError SegmentHeader :=
  reject (SpoolError_new "DBX-RS-SPOOL-FORMAT-0017" "header_decode")
    when (length payload ≠ HEADER_PAYLOAD_BYTES);;
  let '(key, rest) := take_array 32 payload in
  let '(fp, rest) := take_array 32 rest in
  let '(gen, rest) := take_array 8 rest in
  let '(bid, rest) := take_array 16 rest in
  let '(bseq, rest) := take_array 8 rest in
  let '(sseq, rest) := take_array 8 rest in
  let '(created, _) := take_array 8 rest in
  mret (mkHeader key fp (from_be (vec_to_list gen)) bid (from_be (vec_to_list bseq))
          (from_be (vec_to_list sseq)) (from_be (vec_to_list created))).

Definition encode_footer (s : SegmentSummary) : list byte :=
  u64_be (event_count s) ++ u64_be (plaintext_bytes s) ++ vec_to_list (stream_digest s).

Definition decode_footer (payload : list byte) : result SpoolError SegmentSummary :=
  reject (SpoolError_new "DBX-RS-SPOOL-FORMAT-0018" "footer_decode")
    when (length payload ≠ FOOTER_PAYLOAD_BYTES);;
  let '(count, rest) := take_array 8 payload in
  let '(bytes, rest) := take_array 8 rest in
  let '(digest, _) := take_array 32 rest in
  mret (mkSummary (from_be (vec_to_list count)) (from_be (vec_to_list bytes)) digest).

#[global] Arguments encode_prefix : simpl never.
#[global] Arguments encode_header : simpl never.
#[global] Arguments encode_footer : simpl never.

(** ** Frame sizes *)
Definition frame_size_overflow : SpoolError := SpoolError_new "DBX-RS-SPOOL-LIMIT-0014" "frame_size".

Definition encoded_frame_bytes (plaintext_length : N) : result SpoolError N :=
  cipher_length ← ok_or frame_size_overflow (checked_add plaintext_length (N.of_nat tag_len));
  ok_or frame_size_overflow (checked_add FRAME_PREFIX_BYTES cipher_length).

(** [unwrap_or(u64::MAX)]. *)
Definition or_max (r : result SpoolError N) : N := match r with Ok n => n | Err _ => u64_max end.

Definition footer_frame_bytes : N := or_max (encoded_frame_bytes (N.of_nat FOOTER_PAYLOAD_BYTES + 1)).
Definition maximum_recovery_metadata_frame_bytes : N :=
  or_max (encoded_frame_bytes (N.of_nat MAX_RECOVERY_METADATA_BYTES + 1)).

Definition terminal_frame_bytes (format_version : N) : N :=
  if decide (format_version = LEGACY_FORMAT_VERSION) then footer_frame_bytes
  else if decide (format_version = FORMAT_VERSION)
  then saturating_add maximum_recovery_metadata_frame_bytes footer_frame_bytes
  else u64_max.

Definition maximum_ciphertext_frame_bytes (limit format_version : N) : N :=
  let header_frame_bytes := or_max (encoded_frame_bytes (N.of_nat HEADER_PAYLOAD_BYTES + 1)) in
  let fixed_format_bytes :=
    bytes ← checked_add (N.of_nat PREFIX_BYTES) header_frame_bytes;
    bytes ← checked_add bytes (terminal_frame_bytes format_version);
    checked_add bytes FRAME_PREFIX_BYTES in
  let maximum_event_ciphertext :=
    match fixed_format_bytes with None => 0 | Some bytes => saturating_sub limit bytes end in
  if decide (format_version = LEGACY_FORMAT_VERSION) then maximum_event_ciphertext
  else if decide (format_version = FORMAT_VERSION) then
    N.max (N.max (N.max maximum_event_ciphertext (N.of_nat (HEADER_PAYLOAD_BYTES + 1 + tag_len)))
             (N.of_nat (MAX_RECOVERY_METADATA_BYTES + 1 + tag_len)))
      (N.of_nat (FOOTER_PAYLOAD_BYTES + 1 + tag_len))
  else 0.

(** ** Keys, nonces and associated data *)
Definition frame_aad (prefix : list byte) (cipher_length sequence : N) : list byte :=
  prefix ++ u32_be cipher_length ++ u64_be sequence.

Definition nonce (sequence : N) : array 12 :=
  array_of_list 12 (replicate 4 x00 ++ u64_be sequence).

Section Format.
Context `{Sha256, Crypto}.

Definition derive_segment_key (master_key : array KEY_BYTES) (salt : array SALT_BYTES)
    (id : SegmentId) : result SpoolError aead_key :=
  derived ← ok_or (SpoolError_new "DBX-RS-SPOOL-CRYPTO-0004" "key_derive")
    (hkdf_sha256 (vec_to_list salt) (vec_to_list master_key)
       (String.list_byte_of_string "dbx-rs-spool-segment-v1" ++ vec_to_list id));
  ok_or (SpoolError_new "DBX-RS-SPOOL-CRYPTO-0005" "key_initialize") (unbound_key derived).

(** ** The encoder *)
Record SegmentEncoder := mkEncoder {
  enc_file : sink;
  enc_key : aead_key;
  enc_prefix : list byte;
  enc_next_sequence : N;
  enc_position : N;
  enc_limit : N;
  enc_event_count : N;
  enc_plaintext_bytes : N;
  enc_digest : list byte;
  enc_version : N;
}.

Abbreviation enc A := (st SegmentEncoder SpoolError A).

(** The bytes fed to the digest context are kept; [finish] hashes them. *)
Definition set_file (f : sink) (e : SegmentEncoder) : SegmentEncoder :=
  mkEncoder f (enc_key e) (enc_prefix e) (enc_next_sequence e) (enc_position e) (enc_limit e)
    (enc_event_count e) (enc_plaintext_bytes e) (enc_digest e) (enc_version e).
Definition set_position (p : N) (e : SegmentEncoder) : SegmentEncoder :=
  mkEncoder (enc_file e) (enc_key e) (enc_prefix e) (enc_next_sequence e) p (enc_limit e)
    (enc_event_count e) (enc_plaintext_bytes e) (enc_digest e) (enc_version e).
Definition set_next_sequence (n : N) (e : SegmentEncoder) : SegmentEncoder :=
  mkEncoder (enc_file e) (enc_key e) (enc_prefix e) n (enc_position e) (enc_limit e)
    (enc_event_count e) (enc_plaintext_bytes e) (enc_digest e) (enc_version e).
Definition set_accounting (count bytes : N) (d : list byte) (e : SegmentEncoder) : SegmentEncoder :=
  mkEncoder (enc_file e) (enc_key e) (enc_prefix e) (enc_next_sequence e) (enc_position e)
    (enc_limit e) count bytes d (enc_version e).

Definition with_file {A} (m : st sink io_kind A) : st SegmentEncoder io_kind A := λ e,
  let '(f, r) := m (enc_file e) in (set_file f e, r).

Definition modify (f : SegmentEncoder → SegmentEncoder) : enc () := λ e, (f e, Ok tt).

Definition write_typed_frame (frame_type : byte) (payload : list byte) (payload_is_event : bool)
    : enc () :=
  self ← st_get;
  let plaintext := frame_type :: payload in
  cipher_length ← st_lift (ok_or (SpoolError_new "DBX-RS-SPOOL-LIMIT-0007" "frame_encode")
    (length ← checked_add (lengthN plaintext) (N.of_nat tag_len); u32_try_from length));
  let sequence := enc_next_sequence self in
  let aad := frame_aad (enc_prefix self) cipher_length sequence in
  ciphertext ← st_lift (ok_or (SpoolError_new "DBX-RS-SPOOL-CRYPTO-0001" "frame_encrypt")
    (seal (enc_key self) (nonce sequence) aad plaintext));
  _ ← st_map_err
        (SpoolError_io "DBX-RS-SPOOL-FORMAT-0005"
           (if payload_is_event then "event_write" else "metadata_write"))
        (_ ← with_file (write_all (u32_be cipher_length));
         _ ← with_file (write_all (u64_be sequence));
         with_file (write_all ciphertext));
  let overflow := SpoolError_new "DBX-RS-SPOOL-LIMIT-0008" "frame_encode" in
  frame_bytes ← st_lift (ok_or overflow (checked_add FRAME_PREFIX_BYTES cipher_length));
  position ← st_lift (ok_or overflow (checked_add (enc_position self) frame_bytes));
  _ ← modify (set_position position);
  next ← st_lift (ok_or (SpoolError_new "DBX-RS-SPOOL-LIMIT-0009" "frame_encode")
    (checked_add sequence 1));
  modify (set_next_sequence next).

(** After the prefix: the header frame, the space check and the first sync. *)
Definition start_frames (header : SegmentHeader) (limit format_version : N) : enc () :=
  _ ← write_typed_frame FRAME_HEADER (encode_header header) false;
  encoder ← st_get;
  _ ← (if is_none_or (λ required, bool_decide (limit < required))
            (checked_add (enc_position encoder) (terminal_frame_bytes format_version))
       then mthrow (SpoolError_new "DBX-RS-SPOOL-LIMIT-0002" "segment_begin")
       else mret tt);
  st_map_err (SpoolError_io "DBX-RS-SPOOL-FORMAT-0002" "segment_sync") (with_file sync_all).

(** The file is returned on the error paths as well. *)
Definition start_with_version (spool_key : SpoolKey) (salt : array SALT_BYTES) (id : SegmentId)
    (header : SegmentHeader) (limit format_version : N) (file : sink)
    : sink * result SpoolError SegmentEncoder :=
  let prefix := encode_prefix (key_id spool_key) salt id format_version in
  match derive_segment_key (key_bytes spool_key) salt id with
  | Err e => (file, Err e)
  | Ok key =>
      match write_all prefix file with
      | (file, Err k) => (file, Err (SpoolError_io "DBX-RS-SPOOL-FORMAT-0001" "segment_write" k))
      | (file, Ok _) =>
          match start_frames header limit format_version
                  (mkEncoder file key prefix 0 (N.of_nat PREFIX_BYTES) limit 0 0 [] format_version) with
          | (encoder, Err e) => (enc_file encoder, Err e)
          | (encoder, Ok _) => (enc_file encoder, Ok encoder)
          end
      end
  end.

Definition start (spool_key : SpoolKey) (salt : array SALT_BYTES) (id : SegmentId)
    (header : SegmentHeader) (limit : N) (file : sink) : sink * result SpoolError SegmentEncoder :=
  start_with_version spool_key salt id header limit FORMAT_VERSION file.

Definition append_event (event : list byte) : enc () :=
  self ← st_get;
  if decide (event = []) then mthrow (SpoolError_new "DBX-RS-SPOOL-FORMAT-0003" "event_append") else
  let too_long := SpoolError_new "DBX-RS-SPOOL-LIMIT-0003" "event_append" in
  payload_length ← st_lift (ok_or too_long (checked_add (lengthN event) 1));
  frame_bytes ← st_lift (encoded_frame_bytes payload_length);
  required ← st_lift (ok_or too_long
    (position ← checked_add (enc_position self) frame_bytes;
     checked_add position (terminal_frame_bytes (enc_version self))));
  if decide (enc_limit self < required)
  then mthrow (SpoolError_new "DBX-RS-SPOOL-LIMIT-0004" "event_append") else
  next_event_count ← st_lift (ok_or (SpoolError_new "DBX-RS-SPOOL-LIMIT-0005" "event_append")
    (checked_add (enc_event_count self) 1));
  next_plaintext_bytes ← st_lift (ok_or (SpoolError_new "DBX-RS-SPOOL-LIMIT-0006" "event_append")
    (checked_add (enc_plaintext_bytes self) (lengthN event)));
  _ ← write_typed_frame FRAME_EVENT event true;
  modify (set_accounting next_event_count next_plaintext_bytes
    (enc_digest self ++ u64_be (lengthN event) ++ event)).

Definition encoder_summary (self : SegmentEncoder) : SegmentSummary :=
  mkSummary (enc_event_count self) (enc_plaintext_bytes self) (sha256 (enc_digest self)).

Definition finish_inner (recovery_metadata : option RecoveryMetadata) : enc (SegmentSummary * N) :=
  self ← st_get;
  let summary := encoder_summary self in
  _ ← match recovery_metadata with
      | Some m =>
          if decide (enc_version self = FORMAT_VERSION)
          then write_typed_frame FRAME_RECOVERY_METADATA (as_bytes m) false
          else mthrow invalid_version
      | None =>
          if decide (enc_version self = LEGACY_FORMAT_VERSION) then mret tt
          else mthrow invalid_version
      end;
  _ ← write_typed_frame FRAME_FOOTER (encode_footer summary) false;
  _ ← st_map_err (SpoolError_io "DBX-RS-SPOOL-FORMAT-0004" "segment_sync") (with_file sync_all);
  self ← st_get;
  mret (summary, enc_position self).

Definition finish (m : RecoveryMetadata) : enc (SegmentSummary * N) := finish_inner (Some m).

(** ** The decoder *)
Record SegmentDecoder := mkDecoder {
  dec_reader : source;
  dec_key : aead_key;
  dec_prefix : list byte;
  dec_segment_id : SegmentId;
  dec_next_sequence : N;
  dec_event_count : N;
  dec_plaintext_bytes : N;
  dec_digest : list byte;
  dec_summary : option SegmentSummary;
  dec_done : bool;
  dec_limit : N;
  dec_remaining_bytes : N;
  dec_header : SegmentHeader;
  dec_version : N;
  dec_recovery_metadata : option RecoveryMetadata;
}.

Abbreviation dec A := (st SegmentDecoder SpoolError A).

Definition set_reader (r : source) (d : SegmentDecoder) : SegmentDecoder :=
  mkDecoder r (dec_key d) (dec_prefix d) (dec_segment_id d) (dec_next_sequence d)
    (dec_event_count d) (dec_plaintext_bytes d) (dec_digest d) (dec_summary d) (dec_done d)
    (dec_limit d) (dec_remaining_bytes d) (dec_header d) (dec_version d) (dec_recovery_metadata d).
Definition set_remaining (n : N) (d : SegmentDecoder) : SegmentDecoder :=
  mkDecoder (dec_reader d) (dec_key d) (dec_prefix d) (dec_segment_id d) (dec_next_sequence d)
    (dec_event_count d) (dec_plaintext_bytes d) (dec_digest d) (dec_summary d) (dec_done d)
    (dec_limit d) n (dec_header d) (dec_version d) (dec_recovery_metadata d).
Definition set_dec_sequence (n : N) (d : SegmentDecoder) : SegmentDecoder :=
  mkDecoder (dec_reader d) (dec_key d) (dec_prefix d) (dec_segment_id d) n
    (dec_event_count d) (dec_plaintext_bytes d) (dec_digest d) (dec_summary d) (dec_done d)
    (dec_limit d) (dec_remaining_bytes d) (dec_header d) (dec_version d) (dec_recovery_metadata d).
Definition set_dec_accounting (count bytes : N) (g : list byte) (d : SegmentDecoder) : SegmentDecoder :=
  mkDecoder (dec_reader d) (dec_key d) (dec_prefix d) (dec_segment_id d) (dec_next_sequence d)
    count bytes g (dec_summary d) (dec_done d)
    (dec_limit d) (dec_remaining_bytes d) (dec_header d) (dec_version d) (dec_recovery_metadata d).
Definition set_header (h : SegmentHeader) (d : SegmentDecoder) : SegmentDecoder :=
  mkDecoder (dec_reader d) (dec_key d) (dec_prefix d) (dec_segment_id d) (dec_next_sequence d)
    (dec_event_count d) (dec_plaintext_bytes d) (dec_digest d) (dec_summary d) (dec_done d)
    (dec_limit d) (dec_remaining_bytes d) h (dec_version d) (dec_recovery_metadata d).
Definition set_metadata (m : RecoveryMetadata) (d : SegmentDecoder) : SegmentDecoder :=
  mkDecoder (dec_reader d) (dec_key d) (dec_prefix d) (dec_segment_id d) (dec_next_sequence d)
    (dec_event_count d) (dec_plaintext_bytes d) (dec_digest d) (dec_summary d) (dec_done d)
    (dec_limit d) (dec_remaining_bytes d) (dec_header d) (dec_version d) (Some m).
Definition set_finished (s : SegmentSummary) (d : SegmentDecoder) : SegmentDecoder :=
  mkDecoder (dec_reader d) (dec_key d) (dec_prefix d) (dec_segment_id d) (dec_next_sequence d)
    (dec_event_count d) (dec_plaintext_bytes d) (dec_digest d) (Some s) true
    (dec_limit d) (dec_remaining_bytes d) (dec_header d) (dec_version d) (dec_recovery_metadata d).

Definition with_reader {A} (m : st source io_kind A) : st SegmentDecoder io_kind A := λ d,
  let '(r, x) := m (dec_reader d) in (set_reader r d, x).
Definition dec_modify (f : SegmentDecoder → SegmentDecoder) : dec () := λ d, (f d, Ok tt).

(** [format::read_exact]: the end of the file is a truncated segment. *)
Definition read_exact_error (stage : string) (k : io_kind) : SpoolError :=
  if decide (k = UnexpectedEof) then SpoolError_new "DBX-RS-SPOOL-FORMAT-0019" stage
  else SpoolError_io "DBX-RS-SPOOL-FORMAT-0020" stage k.

Definition read_exact (n : nat) (stage : string) : dec (list byte) :=
  st_map_err (read_exact_error stage) (with_reader (read_exact_io n)).

Definition invalid_frame_length : SpoolError := SpoolError_new "DBX-RS-SPOOL-FORMAT-0013" "frame_read".

Definition read_frame : dec (list byte) :=
  self ← st_get;
  if decide (dec_remaining_bytes self < FRAME_PREFIX_BYTES) then mthrow truncated_segment else
  length_bytes ← read_exact 4 "frame_read";
  let cipher_length := from_be length_bytes in
  let minimum_cipher := 1 + N.of_nat tag_len in
  if decide (cipher_length < minimum_cipher ∨ dec_limit self < cipher_length)
  then mthrow invalid_frame_length else
  sequence_bytes ← read_exact 8 "frame_read";
  let sequence := from_be sequence_bytes in
  if decide (sequence ≠ dec_next_sequence self)
  then mthrow (SpoolError_new "DBX-RS-SPOOL-FORMAT-0014" "frame_sequence") else
  let remaining_ciphertext := dec_remaining_bytes self - FRAME_PREFIX_BYTES in
  if decide (remaining_ciphertext < cipher_length) then mthrow truncated_segment else
  if decide (maximum_ciphertext_frame_bytes (dec_limit self) (dec_version self) < cipher_length)
  then mthrow invalid_frame_length else
  ciphertext ← read_exact (N.to_nat cipher_length) "frame_read";
  _ ← dec_modify (set_remaining (remaining_ciphertext - cipher_length));
  let aad := frame_aad (dec_prefix self) cipher_length sequence in
  plaintext ← st_lift (ok_or (SpoolError_new "DBX-RS-SPOOL-CRYPTO-0003" "frame_authenticate")
    (open (dec_key self) (nonce sequence) aad ciphertext));
  next ← st_lift (ok_or (SpoolError_new "DBX-RS-SPOOL-LIMIT-0013" "frame_sequence")
    (checked_add (dec_next_sequence self) 1));
  _ ← dec_modify (set_dec_sequence next);
  mret plaintext.

Definition accept_event (payload : list byte) : dec (list byte) :=
  self ← st_get;
  if decide (dec_version self = FORMAT_VERSION ∧ dec_recovery_metadata self ≠ None)
  then mthrow metadata_order_error else
  if decide (payload = []) then mthrow (SpoolError_new "DBX-RS-SPOOL-FORMAT-0008" "event_read") else
  let event_bytes := lengthN payload in
  count ← st_lift (ok_or (SpoolError_new "DBX-RS-SPOOL-LIMIT-0011" "event_read")
    (checked_add (dec_event_count self) 1));
  _ ← dec_modify (set_dec_accounting count (dec_plaintext_bytes self) (dec_digest self));
  bytes ← st_lift (ok_or (SpoolError_new "DBX-RS-SPOOL-LIMIT-0010" "event_read")
    (checked_add (dec_plaintext_bytes self) event_bytes));
  _ ← dec_modify (set_dec_accounting count bytes (dec_digest self ++ u64_be event_bytes ++ payload));
  mret payload.

Definition accept_footer (payload : list byte) : dec () :=
  self ← st_get;
  if decide (dec_version self = FORMAT_VERSION ∧ dec_recovery_metadata self = None)
  then mthrow missing_metadata_error else
  summary ← st_lift (decode_footer payload);
  if decide (event_count summary ≠ dec_event_count self
             ∨ plaintext_bytes summary ≠ dec_plaintext_bytes self
             ∨ stream_digest summary ≠ sha256 (dec_digest self))
  then mthrow (SpoolError_new "DBX-RS-SPOOL-FORMAT-0009" "footer_validate") else
  trailing_bytes ← st_map_err (SpoolError_io "DBX-RS-SPOOL-FORMAT-0010" "trailing_validate")
    (with_reader read_one);
  if decide (trailing_bytes ≠ 0%nat)
  then mthrow (SpoolError_new "DBX-RS-SPOOL-FORMAT-0011" "trailing_validate") else
  _ ← (if decide (dec_version self = LEGACY_FORMAT_VERSION)
       then dec_modify (set_metadata RecoveryMetadata_empty) else mret tt);
  dec_modify (set_finished summary).

(** One turn of the [loop] of [next_event]: [None] continues. *)
Definition next_event_turn : dec (option (option (list byte))) :=
  frame ← read_frame;
  match frame with
  | [] => mthrow invalid_frame_type
  | frame_type :: payload =>
      if decide (frame_type = FRAME_EVENT) then event ← accept_event payload; mret (Some (Some event))
      else if decide (frame_type = FRAME_RECOVERY_METADATA) then
        self ← st_get;
        if decide (dec_version self ≠ FORMAT_VERSION) then mthrow invalid_frame_type else
        if decide (dec_recovery_metadata self ≠ None) then mthrow repeated_metadata_error else
        m ← st_lift (RecoveryMetadata_new payload);
        _ ← dec_modify (set_metadata m);
        mret None
      else if decide (frame_type = FRAME_FOOTER) then
        _ ← accept_footer payload; mret (Some None)
      else if decide (frame_type = FRAME_HEADER)
      then mthrow (SpoolError_new "DBX-RS-SPOOL-FORMAT-0012" "frame_order")
      else mthrow invalid_frame_type
  end.

(** The loop itself.  A turn continues only after accepting the metadata frame,
    and a second one is an error, so two turns suffice; the outer [None] is a run
    that did not end within the turns allowed. *)
Fixpoint next_event_loop (turns : nat) : dec (option (option (list byte))) :=
  match turns with
  | O => mret None
  | S turns =>
      r ← next_event_turn;
      match r with Some x => mret (Some x) | None => next_event_loop turns end
  end.

Definition next_event : dec (option (option (list byte))) :=
  self ← st_get;
  if dec_done self then mret (Some None) else next_event_loop 2.

(** Reading to the end, as [while decoder.next_event()?.is_some() {}] and the
    segment iterator do; the outer [None] is a run that needed more calls. *)
Fixpoint drain (calls : nat) : dec (option (list (list byte))) :=
  match calls with
  | O => mret None
  | S calls =>
      r ← next_event;
      match r with
      | Some (Some event) => rest ← drain calls; mret (cons event <$> rest)
      | Some None => mret (Some [])
      | None => mret None
      end
  end.

Definition zero_header : SegmentHeader :=
  mkHeader (vreplicate 32 x00) (vreplicate 32 x00) 0 (vreplicate 16 x00) 0 0 0.

(** [open]: the file's type and length come from its metadata. *)
Definition decoder_open (metadata : result io_kind (bool * N)) (spool_key : SpoolKey) (limit : N)
    (file : source) : result SpoolError SegmentDecoder :=
  '(is_file, len) ← map_err (SpoolError_io "DBX-RS-SPOOL-FORMAT-0006" "segment_read") metadata;
  reject (SpoolError_new "DBX-RS-SPOOL-FORMAT-0007" "segment_read")
    when (is_file = false ∨ limit < len);;
  remaining ← ok_or truncated_segment (checked_sub len (N.of_nat PREFIX_BYTES));
  match read_exact_io PREFIX_BYTES file with
  | (_, Err k) => mthrow (read_exact_error "prefix_read" k)
  | (reader, Ok prefix) =>
      '(version, kid, salt, id) ← decode_prefix prefix;
      reject (SpoolError_new "DBX-RS-SPOOL-CRYPTO-0002" "key_match") when (kid ≠ key_id spool_key);;
      key ← derive_segment_key (key_bytes spool_key) salt id;
      match read_frame (mkDecoder reader key prefix id 0 0 0 [] None false limit remaining
                          zero_header version None) with
      | (_, Err e) => mthrow e
      | (decoder, Ok header_frame) =>
          match header_frame with
          | frame_type :: payload =>
              reject invalid_frame_type when (frame_type ≠ FRAME_HEADER);;
              header ← decode_header payload;
              mret (set_header header decoder)
          | [] => mthrow invalid_frame_type
          end
      end
  end.

End Format.
