(* ===== verification/SegmentFormatProps.v ===== *)
(** * Theorems on the segment format

    [segment_bytes] specifies the file of a segment as a function of its contents.
    The encoder writes it, the decoder accepts it and nothing else. *)

From S2P Require Export SegmentFormat.

Local Open Scope N_scope.
#[local] Set Default Proof Using "Type*".

Section Spec.
Context `{Sha256, Crypto}.

(** ** Specification *)

(** One frame: length, sequence, ciphertext with tag. *)
Definition frame (k : aead_key) (prefix : list byte) (seq : N) (plaintext : list byte)
    : option (list byte) :=
  let len := lengthN plaintext + N.of_nat tag_len in
  if decide (in_u32 len ∧ in_u64 seq) then
    c ← seal k (nonce seq) (frame_aad prefix len seq) plaintext;
    Some (u32_be len ++ u64_be seq ++ c)
  else None.

Fixpoint frames (k : aead_key) (prefix : list byte) (seq : N) (l : list (list byte))
    : option (list byte) :=
  match l with
  | [] => Some []
  | p :: l => f ← frame k prefix seq p; r ← frames k prefix (seq + 1) l; Some (f ++ r)
  end.

(** The bytes covered by the stream digest. *)
Definition digest_input (events : list (list byte)) : list byte :=
  event ← events; u64_be (lengthN event) ++ event.
Definition events_bytes (events : list (list byte)) : N := sumN (lengthN <$> events).
Definition events_summary (events : list (list byte)) : SegmentSummary :=
  mkSummary (lengthN events) (events_bytes events) (sha256 (digest_input events)).

(** The frames of a segment; a version 1 segment has no metadata frame. *)
Definition metadata_frames (v : N) (m : RecoveryMetadata) : list (list byte) :=
  if decide (v = FORMAT_VERSION) then [FRAME_RECOVERY_METADATA :: as_bytes m] else [].
Definition segment_frames (v : N) (h : SegmentHeader) (events : list (list byte))
    (m : RecoveryMetadata) : list (list byte) :=
  (FRAME_HEADER :: encode_header h) :: (cons FRAME_EVENT <$> events)
    ++ metadata_frames v m ++ [FRAME_FOOTER :: encode_footer (events_summary events)].

Definition segment_bytes (v : N) (sk : SpoolKey) (salt : array SALT_BYTES) (id : SegmentId)
    (h : SegmentHeader) (events : list (list byte)) (m : RecoveryMetadata) : option (list byte) :=
  let prefix := encode_prefix (key_id sk) salt id v in
  k ← result_ok (derive_segment_key (key_bytes sk) salt id);
  fs ← frames k prefix 0 (segment_frames v h events m);
  Some (prefix ++ fs).

(** What the encoder reserves while appending: prefix, header frame, event frames
    and the largest terminal frames. *)
Definition fits (limit : N) (events : list (list byte)) : Prop :=
  449 + (events_bytes events + 29 * lengthN events) ≤ limit.

(** ** Frames *)
Context `{!CryptoLaws}.

Lemma length_frame_bytes k prefix seq p f :
  frame k prefix seq p = Some f → lengthN f = 28 + lengthN p.
Proof.
  unfold frame. case_decide; [|done]. destruct (seal _ _ _ _) as [c|] eqn:E; [|done].
  intros [= <-]. apply seal_length in E. unfold lengthN. autorewrite with lens. lia.
Qed.

Lemma frames_app k prefix seq l1 l2 :
  frames k prefix seq (l1 ++ l2) =
  a ← frames k prefix seq l1; b ← frames k prefix (seq + lengthN l1) l2; Some (a ++ b).
Proof.
  revert seq. induction l1 as [|p l1 IH]; intros seq; cbn.
  - rewrite N.add_0_r. by destruct (frames _ _ _ l2).
  - destruct (frame _ _ _ _) as [f|]; [|done]. cbn. rewrite IH.
    replace (seq + lengthN (p :: l1)) with (seq + 1 + lengthN l1) by (rewrite lengthN_cons; lia).
    destruct (frames _ _ _ l1) as [a|]; [|done]. cbn.
    destruct (frames _ _ _ l2) as [b|]; [|done]. cbn. by rewrite app_assoc.
Qed.

Lemma frames_snoc k prefix seq l p :
  frames k prefix seq (l ++ [p]) =
  a ← frames k prefix seq l; b ← frame k prefix (seq + lengthN l) p; Some (a ++ b).
Proof.
  rewrite frames_app. cbn. destruct (frames _ _ _ l) as [a|]; [|done]. cbn.
  destruct (frame _ _ _ _) as [b|]; [|done]. cbn. by rewrite app_nil_r.
Qed.

Lemma frames_app_some k prefix seq l1 l2 a b :
  frames k prefix seq l1 = Some a → frames k prefix (seq + lengthN l1) l2 = Some b →
  frames k prefix seq (l1 ++ l2) = Some (a ++ b).
Proof. intros E1 E2. by rewrite frames_app, E1, E2. Qed.

Lemma frames_cons_some k prefix seq p l a b :
  frame k prefix seq p = Some a → frames k prefix (seq + 1) l = Some b →
  frames k prefix seq (p :: l) = Some (a ++ b).
Proof. intros E1 E2. cbn [frames]. by rewrite E1, E2. Qed.

Lemma length_frames k prefix seq l fs :
  frames k prefix seq l = Some fs → lengthN fs = sumN (lengthN <$> l) + 28 * lengthN l.
Proof.
  revert seq fs. induction l as [|p l IH]; intros seq fs; cbn [frames].
  - by intros [= <-].
  - destruct (frame _ _ _ _) as [f|] eqn:Ef; [|done]. cbn [mbind option_bind].
    destruct (frames _ _ _ _) as [r|] eqn:Er; [|done]. cbn [mbind option_bind]. intros [= <-].
    apply length_frame_bytes in Ef. apply IH in Er.
    rewrite fmap_cons, sumN_cons, lengthN_app, lengthN_cons. lia.
Qed.

Lemma sumN_cons_lengths (b : byte) (l : list (list byte)) :
  sumN (lengthN <$> (cons b <$> l)) = sumN (lengthN <$> l) + lengthN l.
Proof. induction l as [|e l IH]; [done|]. autorewrite with dbx in *. lia. Qed.

(** ** The codecs of the payloads *)
Lemma length_encode_prefix kid salt id v : length (encode_prefix kid salt id v) = PREFIX_BYTES.
Proof. unfold encode_prefix. by autorewrite with lens. Qed.

Lemma length_encode_header h : length (encode_header h) = HEADER_PAYLOAD_BYTES.
Proof. unfold encode_header. by autorewrite with lens. Qed.

Lemma length_encode_footer s : length (encode_footer s) = FOOTER_PAYLOAD_BYTES.
Proof. unfold encode_footer. by autorewrite with lens. Qed.

Lemma take_array_list n l rest :
  length l = n → take_array n (l ++ rest) = (array_of_list n l, rest).
Proof.
  intros <-. unfold take_array. by rewrite take_app_length, drop_app_length.
Qed.

Lemma u64_array v : vec_to_list (array_of_list 8 (u64_be v)) = u64_be v.
Proof. apply array_of_list_id. by autorewrite with lens. Qed.

Ltac take_field :=
  first [rewrite take_array_app | rewrite take_array_list by (by autorewrite with lens)];
  cbv beta iota zeta.

Lemma decode_encode_header h : header_wf h → decode_header (encode_header h) = Ok h.
Proof.
  intros (? & ? & ? & ?). unfold decode_header. rewrite decide_False by (rewrite length_encode_header; tauto).
  unfold encode_header. rewrite <- (app_nil_r (u64_be (created_epoch_millis h))).
  do 7 take_field. rewrite !u64_array, !u64_from_be by done. by destruct h.
Qed.

Lemma decode_encode_footer s :
  in_u64 (event_count s) → in_u64 (plaintext_bytes s) → decode_footer (encode_footer s) = Ok s.
Proof.
  intros ? ?. unfold decode_footer. rewrite decide_False by (rewrite length_encode_footer; tauto).
  unfold encode_footer. rewrite <- (app_nil_r (vec_to_list (stream_digest s))).
  do 3 take_field. rewrite !u64_array, !u64_from_be by done. by destruct s.
Qed.

Lemma decode_encode_prefix kid salt id v :
  v = LEGACY_FORMAT_VERSION ∨ v = FORMAT_VERSION →
  decode_prefix (encode_prefix kid salt id v) = Ok (v, kid, salt, id).
Proof.
  intros Hv. unfold decode_prefix, encode_prefix.
  rewrite slice_here by done. rewrite decide_False by tauto.
  rewrite (slice_skip 8) by (done || lia). rewrite slice_here by (by autorewrite with lens).
  rewrite u16_from_be by (destruct Hv as [-> | ->]; unfold LEGACY_FORMAT_VERSION, FORMAT_VERSION; ulia).
  rewrite decide_False by tauto.
  rewrite (drop_skip 8) by (done || lia). rewrite drop_app_length' by (by autorewrite with lens).
  rewrite <- (app_nil_r (vec_to_list id)). by do 3 take_field.
Qed.

(** Every payload of the right length is an encoding, so the decoders of the
    fixed-size parts accept nothing else. *)
Lemma array_field n (l : list byte) : length l = n → ∃ a : array n, l = vec_to_list a.
Proof. intros. exists (array_of_list n l). by rewrite array_of_list_id. Qed.

Lemma u64_field (l : list byte) : length l = 8%nat → ∃ v, in_u64 v ∧ l = u64_be v.
Proof. intros. exists (from_be l). by rewrite u64_be_from by done; split; [apply from_be_in_u64|]. Qed.

Lemma header_fields payload :
  length payload = HEADER_PAYLOAD_BYTES → ∃ h, header_wf h ∧ payload = encode_header h.
Proof.
  unfold HEADER_PAYLOAD_BYTES. intros Hlen.
  destruct (list_cut 32 payload) as (l1 & r1 & -> & H1' & R1); [lia|].
  destruct (list_cut 32 r1) as (l2 & r2 & -> & H2' & R2); [lia|].
  destruct (list_cut 8 r2) as (l3 & r3 & -> & H3' & R3); [lia|].
  destruct (list_cut 16 r3) as (l4 & r4 & -> & H4' & R4); [lia|].
  destruct (list_cut 8 r4) as (l5 & r5 & -> & H5' & R5); [lia|].
  destruct (list_cut 8 r5) as (l6 & l7 & -> & H6' & R6); [lia|].
  apply array_field in H1' as [key ->], H2' as [fp ->], H4' as [bid ->].
  apply u64_field in H3' as (gen & ? & ->), H5' as (bs & ? & ->), H6' as (ss & ? & ->).
  assert (length l7 = 8%nat) as (cr & ? & ->)%u64_field by (rewrite ?length_app in *; lia).
  exists (mkHeader key fp gen bid bs ss cr). by split_and!.
Qed.

Lemma decode_header_ok payload h :
  decode_header payload = Ok h → payload = encode_header h ∧ header_wf h.
Proof.
  intros Hd. assert (length payload = HEADER_PAYLOAD_BYTES) as (h' & Hwf & ->)%header_fields
    by (revert Hd; unfold decode_header; unfold_monad; by case_decide).
  rewrite decode_encode_header in Hd by done. by injection Hd as <-.
Qed.

Lemma decode_footer_ok payload s :
  decode_footer payload = Ok s →
  payload = encode_footer s ∧ in_u64 (event_count s) ∧ in_u64 (plaintext_bytes s).
Proof.
  intros Hd. assert (length payload = FOOTER_PAYLOAD_BYTES) as Hlen
    by (revert Hd; unfold decode_footer; unfold_monad; by case_decide).
  unfold FOOTER_PAYLOAD_BYTES in Hlen.
  destruct (list_cut 8 payload) as (l1 & r1 & -> & H1' & R1); [lia|].
  destruct (list_cut 8 r1) as (l2 & l3 & -> & H2' & R2); [lia|].
  apply u64_field in H1' as (c & ? & ->), H2' as (b & ? & ->).
  assert (length l3 = 32%nat) as [g ->]%array_field by lia.
  change (u64_be c ++ u64_be b ++ vec_to_list g) with (encode_footer (mkSummary c b g)) in *.
  rewrite decode_encode_footer in Hd by done. by injection Hd as <-.
Qed.

Lemma decode_prefix_ok prefix v kid salt id :
  length prefix = PREFIX_BYTES → decode_prefix prefix = Ok (v, kid, salt, id) →
  prefix = encode_prefix kid salt id v ∧ (v = LEGACY_FORMAT_VERSION ∨ v = FORMAT_VERSION).
Proof.
  unfold PREFIX_BYTES. intros Hlen Hd.
  destruct (list_cut 8 prefix) as (m & r0 & -> & Hm & R0); [lia|].
  destruct (list_cut 2 r0) as (ver & r1 & -> & Hv & R1); [lia|].
  destruct (list_cut 16 r1) as (l1 & r2 & -> & H1' & R2); [lia|].
  destruct (list_cut 32 r2) as (l2 & l3 & -> & H2' & R3); [lia|].
  apply array_field in H1' as [kid' ->], H2' as [salt' ->].
  assert (length l3 = 16%nat) as [id' ->]%array_field by lia.
  pose proof Hd as Hd'. unfold decode_prefix in Hd'.
  rewrite slice_here in Hd' by done. rewrite (slice_skip 8), slice_here in Hd' by (done || lia).
  revert Hd'. unfold mthrow, result_throw. case_decide as Hmg; [done|]. case_decide as Hver; [done|].
  intros _. rewrite <- (u16_be_from ver) in Hd by done. rewrite <- (u16_be_from ver) by done.
  change (m ++ u16_be (from_be ver) ++ vec_to_list kid' ++ vec_to_list salt' ++ vec_to_list id')
    with (m ++ drop 8 (encode_prefix kid' salt' id' (from_be ver))) in *.
  assert (from_be ver = LEGACY_FORMAT_VERSION ∨ from_be ver = FORMAT_VERSION) as Hv2
    by (destruct (decide (from_be ver = LEGACY_FORMAT_VERSION)); [by left|right; apply dec_stable; tauto]).
  rewrite Hmg in Hd |- *.
  change (MAGIC ++ drop 8 (encode_prefix kid' salt' id' (from_be ver)))
    with (encode_prefix kid' salt' id' (from_be ver)) in *.
  rewrite decode_encode_prefix in Hd by done. by injection Hd as <- <- <- <-.
Qed.

(** ** The encoder *)

Lemma with_file_ok {A} (m : st sink io_kind A) e e' a :
  with_file m e = (e', Ok a) ↔ ∃ f, m (enc_file e) = (f, Ok a) ∧ e' = set_file f e.
Proof. unfold with_file. destruct (m (enc_file e)) as [f r]. naive_solver. Qed.

Lemma frame_of_seal k prefix seq p c :
  in_u32 (lengthN p + N.of_nat tag_len) → in_u64 seq →
  seal k (nonce seq) (frame_aad prefix (lengthN p + N.of_nat tag_len) seq) p = Some c →
  frame k prefix seq p = Some (u32_be (lengthN p + N.of_nat tag_len) ++ u64_be seq ++ c)
  ∧ lengthN (u32_be (lengthN p + N.of_nat tag_len) ++ u64_be seq ++ c)
    = FRAME_PREFIX_BYTES + (lengthN p + N.of_nat tag_len).
Proof.
  intros H32 H64 Hseal. unfold frame. rewrite decide_True by done. rewrite Hseal. split; [done|].
  apply seal_length in Hseal. unfold lengthN at 1. autorewrite with lens. rewrite Hseal.
  unfold FRAME_PREFIX_BYTES, tag_len, lengthN. lia.
Qed.

Lemma write_frame_ok ty payload b e e' :
  write_typed_frame ty payload b e = (e', Ok tt) →
  ∃ f file, frame (enc_key e) (enc_prefix e) (enc_next_sequence e) (ty :: payload) = Some f
    ∧ written file = written (enc_file e) ++ f
    ∧ e' = set_next_sequence (enc_next_sequence e + 1)
             (set_position (enc_position e + lengthN f) (set_file file e))
    ∧ in_u64 (enc_position e + lengthN f) ∧ in_u64 (enc_next_sequence e + 1).
Proof.
  unfold write_typed_frame. intros (self & s0 & [= <- <-] & Hrun)%st_bind_ok.
  apply st_bind_ok in Hrun as (len & s0 & [-> Hlen%ok_or_ok]%st_lift_ok & Hrun).
  destruct (checked_add _ _) as [len'|] eqn:El; [|done]. cbn in Hlen.
  apply checked_add_some in El as [-> _].
  apply u32_try_from_some in Hlen as [-> H32].
  apply st_bind_ok in Hrun as (c & s0 & [-> Hseal%ok_or_ok]%st_lift_ok & Hrun).
  apply st_bind_ok in Hrun as ([] & e1 & Hw%st_map_err_ok & Hrun).
  apply st_bind_ok in Hw as ([] & e2 & (f1 & W1 & ->)%with_file_ok & Hw).
  apply st_bind_ok in Hw as ([] & e3 & (f2 & W2 & ->)%with_file_ok & Hw).
  apply with_file_ok in Hw as (f3 & W3 & ->).
  apply write_all_ok in W1, W2, W3. cbn in W2, W3.
  apply st_bind_ok in Hrun as (fb & s0 & [-> (-> & _)%ok_or_ok%checked_add_some]%st_lift_ok & Hrun).
  apply st_bind_ok in Hrun as (pos & s0 & [-> (-> & Hp)%ok_or_ok%checked_add_some]%st_lift_ok & Hrun).
  apply st_bind_ok in Hrun as ([] & s0 & [= <-] & Hrun).
  apply st_bind_ok in Hrun as (nx & s0 & [-> (-> & Hn)%ok_or_ok%checked_add_some]%st_lift_ok & Hrun).
  injection Hrun as <-.
  destruct (frame_of_seal (enc_key e) (enc_prefix e) (enc_next_sequence e) (ty :: payload) c)
    as [Hf Hl]; [done|ulia|done|].
  eexists _, f3. split; [exact Hf|]. rewrite Hl.
  split_and!; [by rewrite W3, W2, W1, <- !app_assoc|done|done|done].
Qed.

Lemma sync_file_ok e e' k :
  st_map_err k (with_file sync_all) e = (e', @Ok SpoolError _ tt) →
  ∃ f, e' = set_file f e ∧ written f = written (enc_file e).
Proof.
  intros (f & Hf & ->)%st_map_err_ok%with_file_ok. exists f. split; [done|].
  by apply sync_all_written in Hf.
Qed.

(** What the encoder has written after a start and some events. *)
Record encoded (e : SegmentEncoder) (sk : SpoolKey) (salt : array SALT_BYTES) (id : SegmentId)
    (h : SegmentHeader) (limit : N) (events : list (list byte)) : Prop := mkEncoded {
  encoded_key : derive_segment_key (key_bytes sk) salt id = Ok (enc_key e);
  encoded_prefix : enc_prefix e = encode_prefix (key_id sk) salt id FORMAT_VERSION;
  encoded_frames : ∃ fs, frames (enc_key e) (enc_prefix e) 0
    ((FRAME_HEADER :: encode_header h) :: (cons FRAME_EVENT <$> events)) = Some fs
    ∧ written (enc_file e) = enc_prefix e ++ fs;
  encoded_sequence : enc_next_sequence e = 1 + lengthN events;
  encoded_position : enc_position e = lengthN (written (enc_file e));
  encoded_count : enc_event_count e = lengthN events;
  encoded_bytes : enc_plaintext_bytes e = events_bytes events;
  encoded_digest : enc_digest e = digest_input events;
  encoded_version : enc_version e = FORMAT_VERSION;
  encoded_limit : enc_limit e = limit;
  encoded_space : enc_position e + 234 ≤ limit;
  encoded_events : Forall (λ event, event ≠ []) events;
}.

Lemma terminal_v2 : terminal_frame_bytes FORMAT_VERSION = 234.
Proof. reflexivity. Qed.

Lemma start_frames_eq h limit v :
  start_frames h limit v =
  _ ← write_typed_frame FRAME_HEADER (encode_header h) false;
  encoder ← st_get;
  _ ← (if is_none_or (λ required, bool_decide (limit < required))
            (checked_add (enc_position encoder) (terminal_frame_bytes v))
       then mthrow (SpoolError_new "DBX-RS-SPOOL-LIMIT-0002" "segment_begin")
       else mret tt);
  st_map_err (SpoolError_io "DBX-RS-SPOOL-FORMAT-0002" "segment_sync") (with_file sync_all).
Proof. reflexivity. Qed.

Lemma start_encoded sk salt id h limit faults file e :
  start sk salt id h limit (mkSink [] faults) = (file, Ok e) →
  encoded e sk salt id h limit [] ∧ file = enc_file e.
Proof.
  unfold start, start_with_version.
  destruct (derive_segment_key _ _ _) as [k|] eqn:Ek; [|done].
  destruct (write_all _ _) as [f1 [[]|]] eqn:W1; [|done]. apply write_all_ok in W1. cbn in W1.
  destruct (start_frames _ _ _ _) as [e1 [[]|]] eqn:Es; [|done]. intros [= <- <-]. split; [|done].
  rewrite start_frames_eq in Es.
  apply st_bind_ok in Es as ([] & e2 & (f & f2 & Hf & W2 & -> & Hp & Hn)%write_frame_ok & Es).
  apply st_bind_ok in Es as (e3 & s0 & [= <- <-] & Es). cbn in Es.
  apply st_bind_ok in Es as ([] & e3 & Hspace & (f3 & -> & W3)%sync_file_ok). cbn in *.
  rewrite W1 in W2. pose proof (length_frame_bytes _ _ _ _ _ Hf) as Hlf.
  rewrite lengthN_cons in Hlf. unfold lengthN at 2 in Hlf. rewrite length_encode_header in Hlf.
  rewrite terminal_v2 in Hspace.
  destruct (checked_add _ 234) as [rq|] eqn:Erq; [|done].
  apply checked_add_some in Erq as [-> _]. cbn in Hspace.
  case_bool_decide as Hsp; [done|]. injection Hspace as <-.
  cbn in W3.
  assert (lengthN (written f3) = 74 + lengthN f) as Hl3.
  { rewrite W3, W2, lengthN_app. unfold lengthN at 1. by rewrite length_encode_prefix. }
  split; cbn; try done.
  - exists f. rewrite Hf, W3, W2. cbn. by rewrite app_nil_r.
  - apply N.nlt_ge. exact Hsp.
Qed.

Lemma digest_input_snoc events event :
  digest_input (events ++ [event]) = digest_input events ++ u64_be (lengthN event) ++ event.
Proof. unfold digest_input. rewrite bind_app. cbn. by rewrite app_nil_r. Qed.

Lemma events_bytes_snoc events event :
  events_bytes (events ++ [event]) = events_bytes events + lengthN event.
Proof. unfold events_bytes. rewrite fmap_app, sumN_app. cbn. lia. Qed.

Lemma append_event_ok event e e' :
  append_event event e = (e', Ok tt) →
  ∃ e1, write_typed_frame FRAME_EVENT event true e = (e1, Ok tt) ∧ event ≠ []
    ∧ enc_position e + (29 + lengthN event) + terminal_frame_bytes (enc_version e) ≤ enc_limit e
    ∧ e' = set_accounting (enc_event_count e + 1) (enc_plaintext_bytes e + lengthN event)
             (enc_digest e ++ u64_be (lengthN event) ++ event) e1.
Proof.
  unfold append_event. intros (self & s0 & [= <- <-] & Hrun)%st_bind_ok.
  case_decide as Hne; [done|].
  apply st_bind_ok in Hrun as (pl & s0 & [-> (-> & _)%ok_or_ok%checked_add_some]%st_lift_ok & Hrun).
  apply st_bind_ok in Hrun as (fb & s0 & [-> Hfb]%st_lift_ok & Hrun).
  unfold encoded_frame_bytes in Hfb. apply result_bind_ok in Hfb as (cl & (-> & _)%ok_or_ok%checked_add_some & Hfb).
  apply ok_or_ok, checked_add_some in Hfb as [-> _].
  apply st_bind_ok in Hrun as (rq & s0 & [-> Hrq%ok_or_ok]%st_lift_ok & Hrun).
  destruct (checked_add (enc_position e) _) as [pos|] eqn:Ep; [|done]. cbn in Hrq.
  apply checked_add_some in Ep as [-> _]. apply checked_add_some in Hrq as [-> _].
  case_decide as Hlim; [done|].
  apply st_bind_ok in Hrun as (nc & s0 & [-> (-> & _)%ok_or_ok%checked_add_some]%st_lift_ok & Hrun).
  apply st_bind_ok in Hrun as (nb & s0 & [-> (-> & _)%ok_or_ok%checked_add_some]%st_lift_ok & Hrun).
  apply st_bind_ok in Hrun as ([] & e1 & Hw & [= <-]).
  exists e1. split; [exact Hw|]. split; [exact Hne|]. split; [|reflexivity].
  apply N.nlt_ge in Hlim. etrans; [|exact Hlim].
  generalize (terminal_frame_bytes (enc_version e)). intros n.
  change FRAME_PREFIX_BYTES with 12. change (N.of_nat tag_len) with 16. lia.
Qed.

Lemma append_encoded e sk salt id h limit events event e' :
  encoded e sk salt id h limit events → append_event event e = (e', Ok tt) →
  encoded e' sk salt id h limit (events ++ [event]).
Proof.
  intros [Hk Hp (fs & Hfs & Hw) Hseq Hpos Hc Hb Hd Hv Hl Hs He]
    (e1 & (f & f2 & Hf & W2 & -> & _ & _)%write_frame_ok & Hne & Hlim & ->)%append_event_ok.
  pose proof (length_frame_bytes _ _ _ _ _ Hf) as Hlf. rewrite lengthN_cons in Hlf.
  rewrite Hv, terminal_v2 in Hlim.
  split; cbn [enc_key enc_prefix enc_file enc_next_sequence enc_position enc_event_count
    enc_plaintext_bytes enc_digest enc_version enc_limit set_accounting set_next_sequence
    set_position set_file]; try done.
  - exists (fs ++ f). split; [|by rewrite W2, Hw, app_assoc].
    rewrite fmap_app, app_comm_cons, <- (app_nil_r f). apply frames_app_some; [done|].
    apply frames_cons_some; [|done]. rewrite <- Hf. f_equal. rewrite Hseq, lengthN_cons, lengthN_fmap. lia.
  - rewrite Hseq, lengthN_app. change (lengthN [event]) with 1. lia.
  - by rewrite W2, lengthN_app, Hpos.
  - rewrite Hc, lengthN_app. by change (lengthN [event]) with 1.
  - by rewrite Hb, events_bytes_snoc.
  - by rewrite Hd, digest_input_snoc.
  - rewrite Hlf. lia.
  - apply Forall_app. auto.
Qed.

Lemma finish_encoded e sk salt id h limit events m e' summary len :
  encoded e sk salt id h limit events → metadata_wf m →
  finish m e = (e', Ok (summary, len)) →
  summary = events_summary events
  ∧ segment_bytes FORMAT_VERSION sk salt id h events m = Some (written (enc_file e'))
  ∧ len = lengthN (written (enc_file e')) ∧ len ≤ limit.
Proof.
  intros [Hk Hp (fs & Hfs & Hw) Hseq Hpos Hc Hb Hd Hv Hl Hs He] Hm. unfold finish, finish_inner.
  intros (self & s0 & [= <- <-] & Hrun)%st_bind_ok. rewrite decide_True in Hrun by done.
  apply st_bind_ok in Hrun as ([] & e1 & (f & f2 & Hf & W2 & -> & _ & _)%write_frame_ok & Hrun).
  apply st_bind_ok in Hrun as ([] & e1 & (g & g2 & Hg & W3 & -> & _ & _)%write_frame_ok & Hrun).
  apply st_bind_ok in Hrun as ([] & e1 & (f3 & -> & W4)%sync_file_ok & Hrun).
  apply st_bind_ok in Hrun as (e3 & s0 & [= <- <-] & [= <- <- <-]).
  cbn [enc_key enc_prefix enc_file enc_next_sequence enc_position set_next_sequence
    set_position set_file] in *.
  assert (encoder_summary e = events_summary events) as Hsum
    by (unfold encoder_summary, events_summary; by rewrite Hc, Hb, Hd).
  pose proof (length_frame_bytes _ _ _ _ _ Hf) as Hlf. rewrite lengthN_cons in Hlf.
  pose proof (length_frame_bytes _ _ _ _ _ Hg) as Hlg. rewrite lengthN_cons in Hlg.
  unfold lengthN at 2 in Hlg. rewrite length_encode_footer in Hlg.
  unfold metadata_wf, MAX_RECOVERY_METADATA_BYTES in Hm. unfold FOOTER_PAYLOAD_BYTES in Hlg.
  unfold lengthN at 2 in Hlf.
  assert (lengthN (written f3) = enc_position e + lengthN f + lengthN g) as Hlen
    by (rewrite W4, W3, W2, !lengthN_app, Hpos; lia).
  split_and!; [done| |by rewrite Hlen|lia].
  unfold segment_bytes. rewrite Hk. unfold result_ok. rewrite some_bind.
  assert (frames (enc_key e) (enc_prefix e) 0 (segment_frames FORMAT_VERSION h events m) = Some (fs ++ f ++ g ++ [])) as Hall.
  { unfold segment_frames, metadata_frames. rewrite decide_True by done. rewrite app_comm_cons. apply frames_app_some; [done|].
    replace (0 + lengthN ((FRAME_HEADER :: encode_header h) :: (cons FRAME_EVENT <$> events)))
      with (enc_next_sequence e)
      by (rewrite Hseq, lengthN_cons, lengthN_fmap; lia).
    apply frames_cons_some; [done|]. apply frames_cons_some; [by rewrite <- Hsum|done]. }
  rewrite <- Hp, Hall, some_bind.
  by rewrite W4, W3, W2, Hw, app_nil_r, <- !app_assoc.
Qed.

(** ** The decoder: what it accepts *)

Lemma read_exact_ok n stage d d' bs :
  read_exact n stage d = (d', Ok bs) →
  ∃ r, d' = set_reader r d ∧ unread (dec_reader d) = bs ++ unread r ∧ length bs = n.
Proof.
  unfold read_exact. intros Hr%st_map_err_ok. unfold with_reader in Hr.
  destruct (read_exact_io n (dec_reader d)) as [r x] eqn:E. injection Hr as <- ->.
  apply read_exact_io_ok in E as [? ?]. by exists r.
Qed.

Lemma open_frame k prefix seq lb sb ct p :
  length lb = 4%nat → length sb = 8%nat → length ct = N.to_nat (from_be lb) → from_be sb = seq →
  open k (nonce seq) (frame_aad prefix (from_be lb) seq) ct = Some p →
  frame k prefix seq p = Some (lb ++ sb ++ ct).
Proof.
  intros Hlb Hsb Hct <- Hopen%seal_open. pose proof (seal_length _ _ _ _ _ Hopen) as Hl.
  assert (from_be lb = lengthN p + N.of_nat tag_len) as Hlen by (unfold lengthN, tag_len; lia).
  rewrite <- (u32_be_from lb) by done. rewrite <- (u64_be_from sb) at 2 by done.
  rewrite Hlen in *. apply frame_of_seal; [|by apply from_be_in_u64|done].
  rewrite <- Hlen. by apply from_be_in_u32.
Qed.

Lemma read_frame_ok d d' p :
  read_frame d = (d', Ok p) →
  ∃ f r, frame (dec_key d) (dec_prefix d) (dec_next_sequence d) p = Some f
    ∧ unread (dec_reader d) = f ++ unread r
    ∧ d' = set_dec_sequence (dec_next_sequence d + 1)
             (set_remaining (dec_remaining_bytes d - lengthN f) (set_reader r d)).
Proof.
  unfold read_frame. intros (self & s0 & [= <- <-] & Hrun)%st_bind_ok.
  case_decide as Hrem; [done|].
  apply st_bind_ok in Hrun as (lb & d1 & (r1 & -> & U1 & L1)%read_exact_ok & Hrun).
  case_decide as Hmin; [done|].
  apply st_bind_ok in Hrun as (sb & d1 & (r2 & -> & U2 & L2)%read_exact_ok & Hrun).
  case_decide as Hseq; [done|]. case_decide as Hrc; [done|]. case_decide as Hmax; [done|].
  apply st_bind_ok in Hrun as (ct & d1 & (r3 & -> & U3 & L3)%read_exact_ok & Hrun).
  apply st_bind_ok in Hrun as ([] & d1 & [= <-] & Hrun).
  apply st_bind_ok in Hrun as (pt & d1 & [-> Hopen%ok_or_ok]%st_lift_ok & Hrun).
  apply st_bind_ok in Hrun as (nx & d1 & [-> (-> & _)%ok_or_ok%checked_add_some]%st_lift_ok & Hrun).
  apply st_bind_ok in Hrun as ([] & d1 & [= <-] & [= <- <-]).
  cbn [dec_reader set_reader] in U2, U3.
  exists (lb ++ sb ++ ct), r3. split_and!.
  - apply open_frame; [done|done|done|done|]. by rewrite <- Hseq.
  - by rewrite U1, U2, U3, <- !app_assoc.
  - assert (lengthN (lb ++ sb ++ ct) = FRAME_PREFIX_BYTES + from_be lb) as ->
      by (unfold lengthN, FRAME_PREFIX_BYTES; rewrite !length_app; lia).
    replace (dec_remaining_bytes d - (FRAME_PREFIX_BYTES + from_be lb))
      with (dec_remaining_bytes d - FRAME_PREFIX_BYTES - from_be lb) by lia. reflexivity.
Qed.

(** The decoder has consumed the header, the given events and perhaps the metadata. *)
Record decoded (d : SegmentDecoder) (bytes : list byte) (v : N) (sk : SpoolKey)
    (salt : array SALT_BYTES) (id : SegmentId) (h : SegmentHeader) (events : list (list byte))
    (om : option RecoveryMetadata) : Prop := mkDecoded {
  decoded_key : derive_segment_key (key_bytes sk) salt id = Ok (dec_key d);
  decoded_prefix : dec_prefix d = encode_prefix (key_id sk) salt id v;
  decoded_id : dec_segment_id d = id;
  decoded_version : dec_version d = v ∧ (v = LEGACY_FORMAT_VERSION ∨ v = FORMAT_VERSION);
  decoded_header : dec_header d = h ∧ header_wf h;
  decoded_frames : ∃ fs, frames (dec_key d) (dec_prefix d) 0
    ((FRAME_HEADER :: encode_header h) :: (cons FRAME_EVENT <$> events)
      ++ match om with Some m => metadata_frames v m | None => [] end) = Some fs
    ∧ bytes = dec_prefix d ++ fs ++ unread (dec_reader d);
  decoded_sequence : dec_next_sequence d =
    1 + lengthN events + match om with Some m => lengthN (metadata_frames v m) | None => 0 end;
  decoded_count : dec_event_count d = lengthN events;
  decoded_bytes : dec_plaintext_bytes d = events_bytes events;
  decoded_digest : dec_digest d = digest_input events;
  decoded_metadata : dec_recovery_metadata d = om ∧ (∀ m, om = Some m → metadata_wf m ∧ v = FORMAT_VERSION);
  decoded_open : dec_done d = false ∧ dec_summary d = None;
  decoded_events : Forall (λ event, event ≠ []) events;
}.

(** The footer was read: the file is exactly one segment. *)
Record finished (d : SegmentDecoder) (bytes : list byte) (v : N) (sk : SpoolKey)
    (salt : array SALT_BYTES) (id : SegmentId) (h : SegmentHeader) (events : list (list byte))
    (m : RecoveryMetadata) : Prop := mkFinished {
  finished_version : dec_version d = v ∧ (v = LEGACY_FORMAT_VERSION ∨ v = FORMAT_VERSION);
  finished_header : dec_header d = h ∧ header_wf h;
  finished_id : dec_segment_id d = id;
  finished_bytes : segment_bytes v sk salt id h events m = Some bytes;
  finished_summary : dec_summary d = Some (events_summary events);
  finished_metadata : dec_recovery_metadata d = Some m ∧ metadata_wf m
    ∧ (v = LEGACY_FORMAT_VERSION → m = RecoveryMetadata_empty);
  finished_done : dec_done d = true;
  finished_events : Forall (λ event, event ≠ []) events;
}.

Lemma decoder_open_decoded metadata sk limit bytes faults d :
  decoder_open metadata sk limit (mkSource bytes faults) = Ok d →
  ∃ v salt id h, decoded d bytes v sk salt id h [] None.
Proof.
  unfold decoder_open. intros ([is_file len] & _ & Hd)%result_bind_ok.
  unfold mthrow, result_throw in Hd. case_decide; [done|].
  apply result_bind_ok in Hd as (rem & (_ & ->)%ok_or_ok%checked_sub_some & Hd).
  destruct (read_exact_io PREFIX_BYTES _) as [rd [prefix|]] eqn:Ep; [|done].
  apply read_exact_io_ok in Ep as [Hb Hlp]. cbn in Hb.
  apply result_bind_ok in Hd as ([[[v kid] salt] id] & Hpre & Hd).
  apply decode_prefix_ok in Hpre as [-> Hv]; [|done]. case_decide as Hkid; [done|]. subst kid.
  apply result_bind_ok in Hd as (k & Hk & Hd).
  destruct (read_frame _) as [d1 [fr|]] eqn:Ef; [|done].
  destruct fr as [|ty payload]; [done|]. case_decide as Hty; [done|]. subst ty.
  apply result_bind_ok in Hd as (h & (-> & Hwf)%decode_header_ok & [= <-]).
  apply read_frame_ok in Ef as (f & r & Hf & Hu & ->).
  cbn [dec_reader dec_key dec_prefix dec_next_sequence] in Hf, Hu.
  exists v, salt, id, h. split;
    cbn [dec_reader dec_key dec_prefix dec_next_sequence dec_segment_id dec_version dec_header
      dec_event_count dec_plaintext_bytes dec_digest dec_recovery_metadata dec_done dec_summary
      set_header set_dec_sequence set_remaining set_reader]; try done.
  exists (f ++ []). split; [by apply frames_cons_some|]. by rewrite app_nil_r, Hb, Hu.
Qed.

Lemma next_event_turn_eq :
  next_event_turn =
  frame ← read_frame;
  match frame with
  | [] => mthrow invalid_frame_type
  | frame_type :: payload =>
      if decide (frame_type = FRAME_EVENT) then event ← accept_event payload; mret (Some (Some event))
      else if decide (frame_type = FRAME_RECOVERY_METADATA) then
        self ← st_get;
        if decide (dec_version self ≠ FORMAT_VERSION) then mthrow invalid_frame_type else
        if decide (dec_recovery_metadata self ≠ None) then mthrow repeated_metadata_error else
        m ← st_lift (RecoveryMetadata_new payload);
        _ ← dec_modify (set_metadata m);
        mret None
      else if decide (frame_type = FRAME_FOOTER) then
        _ ← accept_footer payload; mret (Some None)
      else if decide (frame_type = FRAME_HEADER)
      then mthrow (SpoolError_new "DBX-RS-SPOOL-FORMAT-0012" "frame_order")
      else mthrow invalid_frame_type
  end.
Proof. reflexivity. Qed.

Lemma accept_event_ok payload d d' ev :
  accept_event payload d = (d', Ok ev) →
  ev = payload ∧ payload ≠ [] ∧ (dec_version d = FORMAT_VERSION → dec_recovery_metadata d = None)
  ∧ d' = set_dec_accounting (dec_event_count d + 1) (dec_plaintext_bytes d + lengthN payload)
           (dec_digest d ++ u64_be (lengthN payload) ++ payload) d.
Proof.
  unfold accept_event. intros (self & s0 & [= <- <-] & Hrun)%st_bind_ok.
  case_decide as Hm; [done|]. case_decide as Hne; [done|].
  apply st_bind_ok in Hrun as (c & d1 & [-> (-> & _)%ok_or_ok%checked_add_some]%st_lift_ok & Hrun).
  apply st_bind_ok in Hrun as ([] & d1 & [= <-] & Hrun).
  apply st_bind_ok in Hrun as (b & d1 & [-> (-> & _)%ok_or_ok%checked_add_some]%st_lift_ok & Hrun).
  apply st_bind_ok in Hrun as ([] & d1 & [= <-] & [= <- <-]).
  split_and!; [done|done| |done]. intros Hv. apply dec_stable. tauto.
Qed.

Lemma accept_footer_ok payload d d' :
  accept_footer payload d = (d', Ok tt) →
  ∃ s r, decode_footer payload = Ok s
    ∧ event_count s = dec_event_count d ∧ plaintext_bytes s = dec_plaintext_bytes d
    ∧ stream_digest s = sha256 (dec_digest d) ∧ unread (dec_reader d) = []
    ∧ (dec_version d = FORMAT_VERSION → dec_recovery_metadata d ≠ None)
    ∧ d' = set_finished s (if decide (dec_version d = LEGACY_FORMAT_VERSION)
             then set_metadata RecoveryMetadata_empty (set_reader r d) else set_reader r d).
Proof.
  unfold accept_footer. intros (self & s0 & [= <- <-] & Hrun)%st_bind_ok.
  case_decide as Hm; [done|].
  apply st_bind_ok in Hrun as (s & d1 & [-> Hs]%st_lift_ok & Hrun).
  case_decide as Hsum; [done|].
  apply st_bind_ok in Hrun as (n & d1 & Hr%st_map_err_ok & Hrun).
  unfold with_reader in Hr. destruct (read_one (dec_reader d)) as [r x] eqn:Er.
  injection Hr as <- ->. case_decide as Hn; [done|]. subst n. apply read_one_zero in Er.
  exists s, r. split; [done|]. do 3 (split; [apply dec_stable; tauto|]). split; [done|]. split; [tauto|].
  apply st_bind_ok in Hrun as ([] & d1 & Hd & [= <-]).
  change (dec_version (set_reader r d)) with (dec_version d) in *.
  by case_decide; injection Hd as <-.
Qed.

(** The three outcomes of a turn. *)
Lemma turn_event d bytes v sk salt id h events om d' ev :
  decoded d bytes v sk salt id h events om → next_event_turn d = (d', Ok (Some (Some ev))) →
  om = None ∧ decoded d' bytes v sk salt id h (events ++ [ev]) None.
Proof.
  intros [Hk Hp Hid [Hv Hv2] Hh (fs & Hfs & Hb) Hseq Hc Hby Hd [Hm Hmv] Ho He].
  rewrite next_event_turn_eq. intros (fr & d1 & (f & r & Hf & Hu & ->)%read_frame_ok & Hrun)%st_bind_ok.
  destruct fr as [|ty payload]; [done|].
  case_decide as Hty; [subst ty|].
  2: { exfalso. case_decide; [|case_decide; [|by case_decide]].
    - apply st_bind_ok in Hrun as (s & d1 & [= <- <-] & Hrun). case_decide; [done|]. case_decide; [done|].
      apply st_bind_ok in Hrun as (m & d1 & _ & Hrun). by apply st_bind_ok in Hrun as ([] & d2 & _ & Hrun).
    - by apply st_bind_ok in Hrun as ([] & d1 & _ & Hrun). }
  apply st_bind_ok in Hrun as (e & d1 & (-> & Hne & Hmn & ->)%accept_event_ok & [= <- <-]).
  cbn [dec_version dec_recovery_metadata set_dec_sequence set_remaining set_reader] in Hmn.
  assert (om = None) as ->.
  { destruct om as [m|]; [|done]. destruct (Hmv m eq_refl) as [_ ->]. rewrite <- Hm. auto. }
  split; [done|]. split;
    cbn [dec_reader dec_key dec_prefix dec_next_sequence dec_segment_id dec_version dec_header
      dec_event_count dec_plaintext_bytes dec_digest dec_recovery_metadata dec_done dec_summary
      set_dec_accounting set_dec_sequence set_remaining set_reader]; try done.
  - rewrite app_nil_r in Hfs |- *. exists (fs ++ f ++ []). split; [|by rewrite app_nil_r, Hb, Hu, <- !app_assoc].
    rewrite fmap_app, app_comm_cons. apply frames_app_some; [done|].
    apply frames_cons_some; [|done]. rewrite <- Hf. f_equal. rewrite Hseq, lengthN_cons, lengthN_fmap. lia.
  - rewrite Hseq, lengthN_app. change (lengthN [payload]) with 1. lia.
  - rewrite Hc, lengthN_app. by change (lengthN [payload]) with 1.
  - by rewrite Hby, events_bytes_snoc.
  - by rewrite Hd, digest_input_snoc.
  - apply Forall_app. auto.
Qed.

Lemma turn_metadata d bytes v sk salt id h events om d' :
  decoded d bytes v sk salt id h events om → next_event_turn d = (d', Ok None) →
  om = None ∧ ∃ m, decoded d' bytes v sk salt id h events (Some m).
Proof.
  intros [Hk Hp Hid [Hv Hv2] Hh (fs & Hfs & Hb) Hseq Hc Hby Hd [Hm Hmv] Ho He].
  rewrite next_event_turn_eq. intros (fr & d1 & (f & r & Hf & Hu & ->)%read_frame_ok & Hrun)%st_bind_ok.
  destruct fr as [|ty payload]; [done|]. case_decide as H1'.
  { by apply st_bind_ok in Hrun as (e & d1 & _ & Hrun). }
  case_decide as Hty.
  2: { exfalso. case_decide; [|by case_decide]. by apply st_bind_ok in Hrun as ([] & d1 & _ & Hrun). }
  subst ty. apply st_bind_ok in Hrun as (s & d1 & [= <- <-] & Hrun).
  case_decide as Hver; [done|]. case_decide as Hmn; [done|].
  apply st_bind_ok in Hrun as (m & d1 & [-> (Em & Hmw)%RecoveryMetadata_new_ok]%st_lift_ok & Hrun).
  apply st_bind_ok in Hrun as ([] & d1 & [= <-] & [= <-]).
  cbn [dec_version dec_recovery_metadata set_dec_sequence set_remaining set_reader] in Hmn, Hver.
  assert (om = None) as -> by congruence. assert (v = FORMAT_VERSION) as -> by congruence.
  split; [done|]. exists m.
  assert (metadata_frames FORMAT_VERSION m = [FRAME_RECOVERY_METADATA :: payload]) as Emf
    by (rewrite Em; reflexivity).
  split;
    cbn [dec_reader dec_key dec_prefix dec_next_sequence dec_segment_id dec_version dec_header
      dec_event_count dec_plaintext_bytes dec_digest dec_recovery_metadata dec_done dec_summary
      set_metadata set_dec_sequence set_remaining set_reader]; try done.
  - rewrite app_nil_r in Hfs. exists (fs ++ f ++ []). split; [|by rewrite app_nil_r, Hb, Hu, <- !app_assoc].
    rewrite app_comm_cons. apply frames_app_some; [done|]. rewrite Emf.
    apply frames_cons_some; [|done]. rewrite <- Hf. f_equal. rewrite Hseq, lengthN_cons, lengthN_fmap. lia.
  - rewrite Hseq, Emf. change (lengthN [_]) with 1. lia.
  - split; [done|]. intros m' [= <-]. done.
Qed.

Lemma turn_footer d bytes v sk salt id h events om d' :
  decoded d bytes v sk salt id h events om → next_event_turn d = (d', Ok (Some None)) →
  ∃ m, (v = FORMAT_VERSION → om = Some m) ∧ finished d' bytes v sk salt id h events m.
Proof.
  intros [Hk Hp Hid [Hv Hv2] Hh (fs & Hfs & Hb) Hseq Hc Hby Hd [Hm Hmv] Ho He].
  rewrite next_event_turn_eq. intros (fr & d1 & (f & r & Hf & Hu & ->)%read_frame_ok & Hrun)%st_bind_ok.
  destruct fr as [|ty payload]; [done|]. case_decide as H1'.
  { by apply st_bind_ok in Hrun as (e & d1 & _ & Hrun). }
  case_decide as H2'.
  { exfalso. apply st_bind_ok in Hrun as (s & d1 & [= <- <-] & Hrun). case_decide; [done|]. case_decide; [done|].
    apply st_bind_ok in Hrun as (m & d1 & _ & Hrun). by apply st_bind_ok in Hrun as ([] & d2 & _ & Hrun). }
  case_decide as Hty; [|by case_decide]. subst ty.
  apply st_bind_ok in Hrun as ([] & d1 & Hft & [= <-]).
  apply accept_footer_ok in Hft as (s & r2 & (-> & _)%decode_footer_ok & Hsc & Hsb & Hsd & Hur & Hmf & ->).
  cbn [dec_reader dec_version dec_event_count dec_plaintext_bytes dec_digest dec_recovery_metadata
    set_dec_sequence set_remaining set_reader] in *.
  assert (s = events_summary events) as ->
    by (destruct s; cbn in *; unfold events_summary; congruence).
  rewrite Hv in *. set (m := default RecoveryMetadata_empty om).
  assert (metadata_wf m ∧ (v = LEGACY_FORMAT_VERSION → m = RecoveryMetadata_empty)) as [Hwf Hleg].
  { unfold m. destruct om as [m'|]; cbn; [|split; [apply Nat.le_0_l|done]].
    destruct (Hmv m' eq_refl) as [? ->]. done. }
  assert (v = FORMAT_VERSION → om = Some m) as Hom
    by (intros ->; unfold m; destruct om; [done|]; destruct (Hmf eq_refl); congruence).
  exists m. split; [done|]. split.
  - by case_decide.
  - by case_decide.
  - by case_decide.
  - unfold segment_bytes.
    rewrite Hk. unfold result_ok. rewrite some_bind, <- Hp.
    assert (frames (dec_key d) (dec_prefix d) 0 (segment_frames v h events m) = Some (fs ++ f ++ [])) as ->.
    { unfold segment_frames. rewrite (app_assoc (cons FRAME_EVENT <$> events)), app_comm_cons.
      replace (metadata_frames v m) with (match om with Some m => metadata_frames v m | None => [] end).
      2: { destruct Hv2 as [-> | ->]; [by destruct om|by rewrite Hom]. }
      apply frames_app_some; [done|]. apply frames_cons_some; [|done]. rewrite <- Hf. f_equal.
      rewrite Hseq, lengthN_cons, lengthN_app, lengthN_fmap.
      destruct om; [lia|]. change (lengthN []) with 0. lia. }
    rewrite some_bind, app_nil_r, Hb, Hu, Hur. by rewrite app_nil_r.
  - done.
  - destruct Hv2 as [-> | ->].
    + split; [|done]. rewrite decide_True by done. by rewrite Hleg.
    + split; [|done]. rewrite decide_False by done.
      change (dec_recovery_metadata d = Some m). by rewrite Hm, Hom.
  - done.
  - done.
Qed.

Lemma next_event_ok d bytes v sk salt id h events d' r :
  decoded d bytes v sk salt id h events None → next_event d = (d', Ok r) →
  (∃ ev, r = Some (Some ev) ∧ decoded d' bytes v sk salt id h (events ++ [ev]) None)
  ∨ (r = Some None ∧ ∃ m, finished d' bytes v sk salt id h events m).
Proof.
  intros D. unfold next_event. intros (self & s0 & [= <- <-] & Hrun)%st_bind_ok.
  destruct (decoded_open _ _ _ _ _ _ _ _ _ D) as [Hdone _]. rewrite Hdone in Hrun.
  cbn [next_event_loop] in Hrun.
  apply st_bind_ok in Hrun as ([x|] & d1 & Ht & Hrun).
  { injection Hrun as <- <-. destruct x as [ev|].
    - left. exists ev. split; [done|]. by eapply turn_event in Ht as [_ ?].
    - right. split; [done|]. eapply turn_footer in Ht as (m & _ & ?); [|done]. by exists m. }
  eapply turn_metadata in Ht as (_ & m & D1); [|done].
  apply st_bind_ok in Hrun as ([x|] & d2 & Ht & Hrun).
  { injection Hrun as <- <-. destruct x as [ev|].
    - by destruct (turn_event _ _ _ _ _ _ _ _ _ _ _ D1 Ht) as [? _].
    - right. split; [done|]. eapply turn_footer in Ht as (m' & _ & ?); [|done]. by exists m'. }
  by destruct (turn_metadata _ _ _ _ _ _ _ _ _ _ D1 Ht) as [? _].
Qed.

Lemma drain_ok calls d bytes v sk salt id h events d' l :
  decoded d bytes v sk salt id h events None → drain calls d = (d', Ok (Some l)) →
  ∃ m, finished d' bytes v sk salt id h (events ++ l) m.
Proof.
  revert d events l. induction calls as [|calls IH]; intros d events l D; [done|]. cbn [drain].
  intros (r & d1 & Hn & Hrun)%st_bind_ok.
  eapply next_event_ok in Hn as [(ev & -> & D1)|(-> & m & F)]; [| |done].
  - apply st_bind_ok in Hrun as (rest & d2 & Hr & [= <- Hl]).
    destruct rest as [rest|]; [|done]. injection Hl as <-.
    apply (IH _ _ _ D1) in Hr as (m & F). exists m. by rewrite <- app_assoc in F.
  - injection Hrun as <- <-. exists m. by rewrite app_nil_r.
Qed.

(** Every event consumes a frame, so one call per byte is enough. *)
Lemma turn_consumes d d' x :
  next_event_turn d = (d', Ok x) → x ≠ Some None →
  (length (unread (dec_reader d')) < length (unread (dec_reader d)))%nat.
Proof.
  rewrite next_event_turn_eq. intros (fr & d1 & (f & r & Hf & Hu & ->)%read_frame_ok & Hrun)%st_bind_ok Hx.
  apply length_frame_bytes in Hf.
  assert (length (unread r) < length (unread (dec_reader d)))%nat as Hlt
    by (rewrite Hu, length_app; unfold lengthN in Hf; lia).
  destruct fr as [|ty payload]; [done|]. case_decide.
  { apply st_bind_ok in Hrun as (e & d1 & (_ & _ & _ & ->)%accept_event_ok & [= <- <-]). exact Hlt. }
  case_decide.
  { apply st_bind_ok in Hrun as (s & d1 & [= <- <-] & Hrun). case_decide; [done|]. case_decide; [done|].
    apply st_bind_ok in Hrun as (m & d1 & [-> _]%st_lift_ok & Hrun).
    apply st_bind_ok in Hrun as ([] & d1 & [= <-] & [= <- <-]). exact Hlt. }
  case_decide; [|by case_decide].
  by apply st_bind_ok in Hrun as ([] & d1 & _ & [= <- <-]).
Qed.

Lemma next_event_consumes d d' ev :
  next_event d = (d', Ok (Some (Some ev))) →
  (length (unread (dec_reader d')) < length (unread (dec_reader d)))%nat.
Proof.
  unfold next_event. intros (self & s0 & [= <- <-] & Hrun)%st_bind_ok.
  destruct (dec_done d); [done|]. cbn [next_event_loop] in Hrun.
  apply st_bind_ok in Hrun as ([x|] & d1 & Ht & Hrun).
  { injection Hrun as <- ->. by apply turn_consumes in Ht. }
  apply st_bind_ok in Hrun as ([x|] & d2 & Ht2 & Hrun); [|done]. injection Hrun as <- ->.
  apply turn_consumes in Ht; [|done]. apply turn_consumes in Ht2; [|done]. lia.
Qed.

Lemma drain_total calls d bytes v sk salt id h events d' x :
  decoded d bytes v sk salt id h events None → (length (unread (dec_reader d)) < calls)%nat →
  drain calls d = (d', Ok x) → x ≠ None.
Proof.
  revert d events x. induction calls as [|calls IH]; intros d events x D Hc; [lia|]. cbn [drain].
  intros (r & d1 & Hn & Hrun)%st_bind_ok.
  pose proof Hn as Hn'. eapply next_event_ok in Hn' as [(ev & -> & D1)|(-> & _)]; [| |done].
  - apply st_bind_ok in Hrun as (rest & d2 & Hr & [= <- <-]).
    apply next_event_consumes in Hn. apply (IH _ _ _ D1) in Hr; [by destruct rest|lia].
  - by injection Hrun as <- <-.
Qed.

End Spec.
