(* ===== verification/SegmentRoundTrip.v ===== *)
(** * Round trip and canonicity of the segment format

    The decoder accepts what the encoder writes, and nothing but canonical segment
    files; every spool with valid limits can start and finish a segment. *)

From S2P Require Export SegmentFormatProps.

Local Open Scope N_scope.
#[local] Set Default Proof Using "Type*".

Section RoundTrip.
Context `{Sha256, Crypto, !CryptoLaws}.

(** ** The decoder: it accepts every segment the encoder writes *)

Lemma modify_run {B} (f : () → st SegmentDecoder SpoolError B) g d :
  mbind f (dec_modify g) d = f tt (g d).
Proof. done. Qed.

Lemma read_exact_run n stage d bs rest :
  calm (dec_reader d) → unread (dec_reader d) = bs ++ rest → length bs = n →
  ∃ r, read_exact n stage d = (set_reader r d, Ok bs) ∧ unread r = rest ∧ calm r.
Proof.
  intros Hc Hu Hl.
  destruct (read_exact_io_calm n bs (dec_reader d)) as (r & Hr & Hur & Hcr);
    [done|by rewrite Hu, <- Hl, take_app_length|done|].
  exists r. split; [|split; [|done]].
  - unfold read_exact. apply st_map_err_ok. unfold with_reader. by rewrite Hr.
  - by rewrite Hur, Hu, <- Hl, drop_app_length.
Qed.

Lemma frame_shape k prefix seq p f :
  frame k prefix seq p = Some f →
  ∃ c, f = u32_be (lengthN p + 16) ++ u64_be seq ++ c ∧ length c = (length p + 16)%nat
    ∧ open k (nonce seq) (frame_aad prefix (lengthN p + 16) seq) c = Some p
    ∧ in_u32 (lengthN p + 16) ∧ in_u64 seq.
Proof.
  unfold frame, tag_len. change (N.of_nat 16) with 16. case_decide as Hr; [|done].
  destruct (seal _ _ _ _) as [c|] eqn:E; [|done]. rewrite some_bind. intros [= <-]. exists c.
  split; [done|]. split; [by eapply seal_length|]. split; [by apply open_seal|done].
Qed.

Lemma read_frame_run d p f rest :
  frame (dec_key d) (dec_prefix d) (dec_next_sequence d) p = Some f → p ≠ [] →
  calm (dec_reader d) → unread (dec_reader d) = f ++ rest →
  dec_remaining_bytes d = lengthN (unread (dec_reader d)) →
  dec_remaining_bytes d ≤ dec_limit d →
  lengthN p + 16 ≤ maximum_ciphertext_frame_bytes (dec_limit d) (dec_version d) →
  in_u64 (dec_next_sequence d + 1) →
  ∃ r, read_frame d = (set_dec_sequence (dec_next_sequence d + 1)
         (set_remaining (dec_remaining_bytes d - lengthN f) (set_reader r d)), Ok p)
    ∧ unread r = rest ∧ calm r.
Proof.
  intros Hf Hp Hc Hu Hrem Hlim Hmax Hseq.
  pose proof (length_frame_bytes _ _ _ _ _ Hf) as Hlf.
  destruct (frame_shape _ _ _ _ _ Hf) as (c & -> & Hlc & Hopen & H32 & H64).
  assert (lengthN (unread (dec_reader d)) = 28 + lengthN p + lengthN rest) as Hlu
    by (rewrite Hu, lengthN_app, Hlf; done).
  assert (1 ≤ lengthN p) by (destruct p; [done|rewrite lengthN_cons; lia]).
  rewrite <- !app_assoc in Hu.
  destruct (read_exact_run 4 "frame_read" d _ _ Hc Hu) as (r1 & E1 & U1 & C1); [by autorewrite with lens|].
  destruct (read_exact_run 8 "frame_read" (set_reader r1 d) _ _ C1 U1) as (r2 & E2 & U2 & C2);
    [by autorewrite with lens|].
  destruct (read_exact_run (N.to_nat (lengthN p + 16)) "frame_read" (set_reader r2 d) _ _ C2 U2)
    as (r3 & E3 & U3 & C3); [unfold lengthN; lia|].
  exists r3. split; [|done].
  unfold read_frame. rewrite st_get_run.
  rewrite decide_False by (unfold FRAME_PREFIX_BYTES; lia).
  rewrite (st_bind_run _ _ _ _ _ E1), u32_from_be by done.
  rewrite decide_False by (unfold tag_len; lia).
  rewrite (st_bind_run _ _ _ _ _ E2), u64_from_be by done.
  rewrite decide_False by tauto. rewrite decide_False by (unfold FRAME_PREFIX_BYTES; lia).
  rewrite decide_False by lia.
  rewrite (st_bind_run _ _ _ _ _ E3), modify_run.
  rewrite (st_lift_run _ _ _ p) by (by rewrite Hopen).
  rewrite (st_lift_run _ _ _ (dec_next_sequence d + 1)) by (by apply ok_or_ok, checked_add_some).
  rewrite modify_run. unfold mret, st_ret. f_equal. unfold set_dec_sequence, set_remaining, set_reader.
  cbn [dec_reader dec_key dec_prefix dec_next_sequence dec_segment_id dec_version dec_header
      dec_event_count dec_plaintext_bytes dec_digest dec_recovery_metadata dec_done dec_summary
      dec_limit dec_remaining_bytes]. f_equal. unfold FRAME_PREFIX_BYTES. lia.
Qed.

(** The decoder is about to read exactly the frames [l], with room in its counters. *)
Record reading (d : SegmentDecoder) (l : list (list byte)) : Prop := mkReading {
  reading_frames : frames (dec_key d) (dec_prefix d) (dec_next_sequence d) l
    = Some (unread (dec_reader d));
  reading_calm : calm (dec_reader d);
  reading_remaining : dec_remaining_bytes d = lengthN (unread (dec_reader d));
  reading_limit : in_u64 (dec_limit d);
  reading_room : dec_next_sequence d + dec_remaining_bytes d ≤ dec_limit d
    ∧ dec_event_count d + dec_remaining_bytes d ≤ dec_limit d
    ∧ dec_plaintext_bytes d + dec_remaining_bytes d ≤ dec_limit d;
}.

Lemma reading_frame d p l :
  reading d (p :: l) → p ≠ [] →
  lengthN p + 16 ≤ maximum_ciphertext_frame_bytes (dec_limit d) (dec_version d) →
  ∃ r, let d1 := set_dec_sequence (dec_next_sequence d + 1)
                   (set_remaining (lengthN (unread r)) (set_reader r d)) in
    read_frame d = (d1, Ok p) ∧ reading d1 l
    ∧ dec_remaining_bytes d = 28 + lengthN p + lengthN (unread r).
Proof.
  intros [Hfs Hc Hrem Hlim (Hs & Hn & Hb)] Hp Hmax. cbn [frames] in Hfs.
  apply bind_Some in Hfs as (f & Hf & (rest & Hrest & Hu)%bind_Some). injection Hu as Hu.
  pose proof (length_frame_bytes _ _ _ _ _ Hf) as Hlf.
  assert (dec_remaining_bytes d = 28 + lengthN p + lengthN rest) as Hr
    by (rewrite Hrem, <- Hu, lengthN_app; lia).
  destruct (read_frame_run d p f rest) as (r & E & U & C); try done; [lia|ulia|].
  exists r. cbn zeta. rewrite U. split_and!; [|split|done].
  - rewrite E. repeat f_equal. lia.
  - change (frames (dec_key d) (dec_prefix d) (dec_next_sequence d + 1) l = Some (unread r)).
    by rewrite U.
  - done.
  - change (lengthN rest = lengthN (unread r)). by rewrite U.
  - done.
  - cbn [dec_next_sequence dec_event_count dec_plaintext_bytes dec_remaining_bytes dec_limit
      set_dec_sequence set_remaining set_reader]. lia.
Qed.

Lemma maximum_v2 limit :
  maximum_ciphertext_frame_bytes limit FORMAT_VERSION = N.max (N.max (N.max (limit - 461) 129) 145) 65.
Proof. reflexivity. Qed.

Lemma next_event_reading d ev l :
  reading d ((FRAME_EVENT :: ev) :: l) → dec_done d = false → dec_version d = FORMAT_VERSION →
  dec_recovery_metadata d = None → ev ≠ [] → lengthN ev + 17 ≤ dec_limit d - 461 →
  ∃ d', next_event d = (d', Ok (Some (Some ev))) ∧ reading d' l
    ∧ dec_done d' = false ∧ dec_version d' = FORMAT_VERSION ∧ dec_recovery_metadata d' = None
    ∧ dec_limit d' = dec_limit d
    ∧ dec_event_count d' = dec_event_count d + 1
    ∧ dec_plaintext_bytes d' = dec_plaintext_bytes d + lengthN ev
    ∧ dec_digest d' = dec_digest d ++ u64_be (lengthN ev) ++ ev.
Proof.
  intros R Hdone Hv Hm Hne Hmax. pose proof R as [_ _ _ Hlim64 (_ & Hn & Hb)].
  destruct (reading_frame _ _ _ R) as (r & E & R1 & Hrem); [done|rewrite Hv, maximum_v2, lengthN_cons; lia|].
  rewrite lengthN_cons in Hrem. set (d1 := set_dec_sequence _ _) in *.
  set (d2 := set_dec_accounting (dec_event_count d + 1) (dec_plaintext_bytes d + lengthN ev)
               (dec_digest d ++ u64_be (lengthN ev) ++ ev) d1).
  assert (accept_event ev d1 = (d2, Ok ev)) as Eacc.
  { unfold accept_event. rewrite st_get_run. rewrite decide_False by (unfold d1; cbn; rewrite Hm; tauto).
    rewrite decide_False by done.
    change (dec_event_count d1) with (dec_event_count d).
    change (dec_plaintext_bytes d1) with (dec_plaintext_bytes d).
    change (dec_digest d1) with (dec_digest d).
    rewrite (st_lift_run _ _ _ (dec_event_count d + 1)) by (apply ok_or_ok, checked_add_some; split; [done|ulia]).
    rewrite modify_run.
    rewrite (st_lift_run _ _ _ (dec_plaintext_bytes d + lengthN ev))
      by (apply ok_or_ok, checked_add_some; split; [done|ulia]).
    by rewrite modify_run. }
  assert (next_event_turn d = (d2, Ok (Some (Some ev)))) as Eturn.
  { rewrite next_event_turn_eq, (st_bind_run _ _ _ _ _ E). rewrite decide_True by done.
    by rewrite (st_bind_run _ _ _ _ _ Eacc). }
  exists d2. split.
  { unfold next_event. rewrite st_get_run, Hdone. cbn [next_event_loop].
    by rewrite (st_bind_run _ _ _ _ _ Eturn). }
  split; [|by unfold d2, d1].
  destruct R1 as [F1 C1 M1 L1 (S1 & N1 & B1)]. split; try done.
  unfold d2, d1 in *. cbn [dec_next_sequence dec_event_count dec_plaintext_bytes dec_remaining_bytes dec_limit
      set_dec_sequence set_remaining set_reader set_dec_accounting] in *. lia.
Qed.

Lemma turn_metadata_run d m l :
  reading d ((FRAME_RECOVERY_METADATA :: as_bytes m) :: l) → dec_version d = FORMAT_VERSION →
  dec_recovery_metadata d = None → metadata_wf m →
  ∃ d', next_event_turn d = (d', Ok None) ∧ reading d' l
    ∧ dec_version d' = FORMAT_VERSION ∧ dec_recovery_metadata d' = Some m
    ∧ dec_event_count d' = dec_event_count d ∧ dec_plaintext_bytes d' = dec_plaintext_bytes d
    ∧ dec_digest d' = dec_digest d ∧ dec_limit d' = dec_limit d.
Proof.
  intros R Hv Hm Hwf.
  destruct (reading_frame _ _ _ R) as (r & E & R1 & Hrem); [done| |].
  { rewrite Hv, maximum_v2, lengthN_cons. unfold metadata_wf, MAX_RECOVERY_METADATA_BYTES in Hwf.
    unfold lengthN. lia. }
  set (d1 := set_dec_sequence _ _) in *. exists (set_metadata m d1). split.
  { rewrite next_event_turn_eq, (st_bind_run _ _ _ _ _ E).
    rewrite decide_False by done. rewrite decide_True by done. rewrite st_get_run.
    change (dec_version d1) with (dec_version d). rewrite decide_False by tauto.
    change (dec_recovery_metadata d1) with (dec_recovery_metadata d). rewrite decide_False by tauto.
    rewrite (st_lift_run _ _ _ m) by (apply RecoveryMetadata_new_ok; by destruct m). done. }
  split; [|done]. destruct R1 as [F1 C1 M1 L1 B1]. by split.
Qed.

Lemma turn_footer_run d s :
  reading d [FRAME_FOOTER :: encode_footer s] → dec_version d = FORMAT_VERSION →
  dec_recovery_metadata d ≠ None →
  s = mkSummary (dec_event_count d) (dec_plaintext_bytes d) (sha256 (dec_digest d)) →
  ∃ d', next_event_turn d = (d', Ok (Some None))
    ∧ dec_recovery_metadata d' = dec_recovery_metadata d ∧ dec_summary d' = Some s.
Proof.
  intros R Hv Hm Hs. pose proof R as [_ _ _ Hlim64 (_ & Hn & Hb)].
  destruct (reading_frame _ _ _ R) as (r & E & R1 & Hrem); [done| |].
  { rewrite Hv, maximum_v2, lengthN_cons. unfold lengthN. rewrite length_encode_footer. change (N.of_nat FOOTER_PAYLOAD_BYTES) with 48. lia. }
  set (d1 := set_dec_sequence _ _) in *.
  assert (unread (dec_reader d1) = []) as Hu.
  { destruct R1 as [F1 _ _ _ _]. cbn [frames] in F1. by injection F1 as ->. }
  destruct (read_one_calm (dec_reader d1)) as [r2 Er2]; [by destruct R1|done|].
  assert (accept_footer (encode_footer s) d1 = (set_finished s (set_reader r2 d1), Ok tt)) as E2.
  { unfold accept_footer. rewrite st_get_run.
    change (dec_version d1) with (dec_version d).
    change (dec_recovery_metadata d1) with (dec_recovery_metadata d).
    rewrite decide_False by tauto.
    rewrite (st_lift_run _ _ _ s) by (rewrite Hs; apply decode_encode_footer; cbn [event_count plaintext_bytes]; unfold in_u64 in *; lia).
    change (dec_event_count d1) with (dec_event_count d).
    change (dec_plaintext_bytes d1) with (dec_plaintext_bytes d).
    change (dec_digest d1) with (dec_digest d).
    rewrite decide_False by (rewrite Hs; cbn; tauto).
    assert (∀ k, st_map_err k (with_reader read_one) d1 = (set_reader r2 d1, @Ok SpoolError _ 0%nat)) as Er
      by (intros k; apply st_map_err_ok; unfold with_reader; by rewrite Er2).
    rewrite (st_bind_run _ _ _ _ _ (Er _)). rewrite decide_False by tauto.
    rewrite Hv. rewrite decide_False by done. reflexivity. }
  exists (set_finished s (set_reader r2 d1)). split; [|done].
  rewrite next_event_turn_eq, (st_bind_run _ _ _ _ _ E).
  do 2 rewrite decide_False by done. rewrite decide_True by done.
  by rewrite (st_bind_run _ _ _ _ _ E2).
Qed.

Lemma next_event_end d m s :
  reading d [FRAME_RECOVERY_METADATA :: as_bytes m; FRAME_FOOTER :: encode_footer s] →
  dec_done d = false → dec_version d = FORMAT_VERSION → dec_recovery_metadata d = None →
  metadata_wf m →
  s = mkSummary (dec_event_count d) (dec_plaintext_bytes d) (sha256 (dec_digest d)) →
  ∃ d', next_event d = (d', Ok (Some None))
    ∧ dec_recovery_metadata d' = Some m ∧ dec_summary d' = Some s.
Proof.
  intros R Hdone Hv Hm Hwf Hs.
  destruct (turn_metadata_run _ _ _ R) as (d1 & E1 & R1 & V1 & M1 & C1 & B1 & G1 & _); [done..|].
  destruct (turn_footer_run _ _ R1) as (d2 & E2 & M2 & S2); [done|by rewrite M1|by rewrite C1, B1, G1|].
  exists d2. split; [|by rewrite M2, M1]. unfold next_event. rewrite st_get_run, Hdone. cbn [next_event_loop].
  by rewrite (st_bind_run _ _ _ _ _ E1), (st_bind_run _ _ _ _ _ E2).
Qed.

Lemma drain_run events m s done_events calls d :
  reading d ((cons FRAME_EVENT <$> events)
    ++ [FRAME_RECOVERY_METADATA :: as_bytes m; FRAME_FOOTER :: encode_footer s]) →
  dec_done d = false → dec_version d = FORMAT_VERSION → dec_recovery_metadata d = None →
  metadata_wf m → Forall (λ event, event ≠ [] ∧ lengthN event + 17 ≤ dec_limit d - 461) events →
  dec_event_count d = lengthN done_events → dec_plaintext_bytes d = events_bytes done_events →
  dec_digest d = digest_input done_events → s = events_summary (done_events ++ events) →
  (length events < calls)%nat →
  ∃ d', drain calls d = (d', Ok (Some events))
    ∧ dec_recovery_metadata d' = Some m ∧ dec_summary d' = Some s.
Proof.
  intros R Hdone Hv Hm Hwf Hev. revert d done_events calls R Hdone Hv Hm Hev.
  induction events as [|ev events IH]; intros d don calls R Hdone Hv Hm Hev Hc Hb Hg Hs Hcalls;
    (destruct calls as [|calls]; [inversion Hcalls|]); cbn [drain].
  - rewrite app_nil_r in Hs.
    destruct (next_event_end d m s) as (d' & E & ?); [done..|by rewrite Hs, Hc, Hb, Hg|].
    exists d'. by rewrite (st_bind_run _ _ _ _ _ E).
  - rewrite fmap_cons, <- app_comm_cons in R. apply Forall_cons in Hev as [[Hne Hmax] Hev].
    destruct (next_event_reading _ _ _ R) as (d1 & E & R1 & D1 & V1 & M1 & L1 & C1 & B1 & G1); [done..|].
    destruct (IH d1 (don ++ [ev]) calls) as (d' & E' & ?); try done.
    + by rewrite L1.
    + rewrite C1, Hc, lengthN_app. done.
    + by rewrite B1, Hb, events_bytes_snoc.
    + by rewrite G1, Hg, digest_input_snoc.
    + by rewrite <- app_assoc.
    + cbn in Hcalls. lia.
    + exists d'. rewrite (st_bind_run _ _ _ _ _ E). by rewrite (st_bind_run _ _ _ _ _ E').
Qed.

Lemma events_frames_length (events : list (list byte)) :
  sumN (lengthN <$> (cons FRAME_EVENT <$> events)) + 28 * lengthN (cons FRAME_EVENT <$> events)
  = events_bytes events + 29 * lengthN events.
Proof. rewrite sumN_cons_lengths, lengthN_fmap. unfold events_bytes. lia. Qed.

(** The size of a segment file; the encoder's reservation covers it. *)
Lemma segment_length v sk salt id h events m bytes :
  segment_bytes v sk salt id h events m = Some bytes →
  lengthN bytes = 292 + (events_bytes events + 29 * lengthN events)
    + (if decide (v = FORMAT_VERSION) then 29 + lengthN (as_bytes m) else 0).
Proof.
  unfold segment_bytes. intros (k & _ & (fs & Hfs & Hb)%bind_Some)%bind_Some.
  apply (inj Some) in Hb. subst bytes. apply length_frames in Hfs. rewrite lengthN_app, Hfs.
  assert (lengthN (encode_prefix (key_id sk) salt id v) = 74) as ->
    by (unfold lengthN; by rewrite length_encode_prefix).
  assert (lengthN (encode_header h) = 112) as Hh by (unfold lengthN; by rewrite length_encode_header).
  assert (lengthN (encode_footer (events_summary events)) = 48) as Hf
    by (unfold lengthN; by rewrite length_encode_footer).
  unfold segment_frames, metadata_frames. pose proof (events_frames_length events) as He.
  rewrite !fmap_cons, !fmap_app, !fmap_cons, fmap_nil, sumN_cons, !sumN_app, sumN_cons, !lengthN_cons,
    !lengthN_app, !lengthN_cons, Hh, Hf.
  case_decide; rewrite ?fmap_cons, ?fmap_nil, ?sumN_cons, ?lengthN_cons;
    change (sumN []) with 0; change (lengthN []) with 0; lia.
Qed.

Lemma decoder_open_run sk salt id h events m bytes limit faults :
  segment_bytes FORMAT_VERSION sk salt id h events m = Some bytes →
  header_wf h → metadata_wf m → in_u64 limit → fits limit events →
  Forall (λ f, f = None) faults →
  ∃ d, decoder_open (Ok (true, lengthN bytes)) sk limit (mkSource bytes faults) = Ok d
    ∧ reading d ((cons FRAME_EVENT <$> events) ++ [FRAME_RECOVERY_METADATA :: as_bytes m;
        FRAME_FOOTER :: encode_footer (events_summary events)])
    ∧ dec_done d = false ∧ dec_version d = FORMAT_VERSION ∧ dec_recovery_metadata d = None
    ∧ dec_limit d = limit ∧ dec_event_count d = 0 ∧ dec_plaintext_bytes d = 0 ∧ dec_digest d = []
    ∧ dec_segment_id d = id ∧ dec_header d = h.
Proof.
  intros Hs Hh Hm Hl Hfit Hcalm. pose proof (segment_length _ _ _ _ _ _ _ _ Hs) as Hlen.
  rewrite decide_True in Hlen by done.
  assert (lengthN (as_bytes m) ≤ 128) as Hm'
    by (unfold metadata_wf, MAX_RECOVERY_METADATA_BYTES in Hm; unfold lengthN; lia).
  unfold fits in Hfit.
  unfold segment_bytes in Hs. apply bind_Some in Hs as (k & Hk & (fs & Hfs & Hb)%bind_Some).
  apply (inj Some) in Hb. subst bytes. unfold result_ok in Hk.
  destruct (derive_segment_key _ _ _) as [k'|] eqn:Ek; [|done]. injection Hk as ->.
  set (prefix := encode_prefix (key_id sk) salt id FORMAT_VERSION) in *.
  assert (lengthN (prefix ++ fs) = 74 + lengthN fs) as Hlfs
    by (rewrite lengthN_app; unfold lengthN at 1; unfold prefix; by rewrite length_encode_prefix).
  destruct (read_exact_io_calm PREFIX_BYTES prefix (mkSource (prefix ++ fs) faults))
    as (r & Er & Ur & Cr); [done|apply take_app_length'; symmetry; apply length_encode_prefix|apply length_encode_prefix|].
  cbn [unread] in Ur. rewrite drop_app_length' in Ur by (symmetry; apply length_encode_prefix).
  set (d0 := mkDecoder r k prefix id 0 0 0 [] None false limit (lengthN fs) zero_header FORMAT_VERSION None).
  assert (reading d0 (segment_frames FORMAT_VERSION h events m)) as R.
  { unfold d0. split; cbn [dec_reader dec_key dec_prefix dec_next_sequence dec_event_count
      dec_plaintext_bytes dec_limit dec_remaining_bytes]; [by rewrite Ur|done|by rewrite Ur|done|lia]. }
  unfold segment_frames, metadata_frames in R. rewrite decide_True in R by done.
  destruct (reading_frame _ _ _ R) as (r1 & E1 & R1 & _); [done| |].
  { unfold d0. cbn [dec_version dec_limit]. rewrite maximum_v2, lengthN_cons. unfold lengthN.
    rewrite length_encode_header. change (N.of_nat HEADER_PAYLOAD_BYTES) with 112. lia. }
  set (d1 := set_dec_sequence _ _) in *. exists (set_header h d1).
  split; [|split; [destruct R1 as [F1 C1 M1 L1 B1]; by split|done]].
  unfold decoder_open. unfold map_err. rewrite ok_bind. unfold mthrow, result_throw.
  rewrite decide_False by (intros [|]; [done|lia]).
  assert (checked_sub (lengthN (prefix ++ fs)) (N.of_nat PREFIX_BYTES) = Some (lengthN fs)) as ->.
  { apply checked_sub_some. change (N.of_nat PREFIX_BYTES) with 74. lia. }
  unfold ok_or at 1. rewrite ok_bind, Er.
  assert (decode_prefix prefix = Ok (FORMAT_VERSION, key_id sk, salt, id)) as ->
    by (apply decode_encode_prefix; by right). rewrite ok_bind.
  rewrite decide_False by tauto. rewrite Ek, ok_bind. fold d0. rewrite E1.
  rewrite decide_False by tauto. by rewrite decode_encode_header.
Qed.

(** Every event of a segment that fits is short enough for the decoder. *)
Lemma fits_events limit events :
  fits limit events → Forall (λ event, event ≠ []) events →
  Forall (λ event, event ≠ [] ∧ lengthN event + 17 ≤ limit - 461) events.
Proof.
  intros Hfit He. apply Forall_forall. intros ev Hin. split; [by eapply Forall_forall in He|].
  apply list_elem_of_split in Hin as (l1 & l2 & ->). unfold fits, events_bytes in Hfit.
  rewrite fmap_app, sumN_app, lengthN_app, fmap_cons, sumN_cons, lengthN_cons in Hfit. lia.
Qed.

(** ** The encoder in use: a start, some events, a finish *)
Fixpoint append_all (events : list (list byte)) : st SegmentEncoder SpoolError () :=
  match events with
  | [] => mret tt
  | event :: events => _ ← append_event event; append_all events
  end.

Lemma append_all_encoded events e sk salt id h limit done_events e' :
  encoded e sk salt id h limit done_events → append_all events e = (e', Ok tt) →
  encoded e' sk salt id h limit (done_events ++ events).
Proof.
  revert e done_events. induction events as [|ev events IH]; intros e don E; cbn [append_all].
  - intros [= <-]. by rewrite app_nil_r.
  - intros ([] & e1 & Ha & Hrun)%st_bind_ok. rewrite cons_middle, app_assoc.
    eapply IH; [|done]. by eapply append_encoded.
Qed.

Lemma encoded_fits e sk salt id h limit events : encoded e sk salt id h limit events → fits limit events.
Proof.
  intros [Hk Hp (fs & Hfs & Hw) Hseq Hpos Hc Hb Hd Hv Hl Hs He]. unfold fits.
  apply length_frames in Hfs. rewrite fmap_cons, sumN_cons, !lengthN_cons in Hfs.
  pose proof (events_frames_length events) as Hev.
  assert (lengthN (encode_header h) = 112) as Hh
    by (unfold lengthN; by rewrite length_encode_header).
  assert (enc_position e = 74 + lengthN fs) as Hpo.
  { rewrite Hpos, Hw, lengthN_app, Hp. unfold lengthN at 1. by rewrite length_encode_prefix. }
  lia.
Qed.

Lemma finished_decodes e1 sk salt id h limit events m e2 summary len rfaults :
  encoded e1 sk salt id h limit events → finish m e1 = (e2, Ok (summary, len)) →
  header_wf h → metadata_wf m → in_u64 limit → Forall (λ f, f = None) rfaults →
  let bytes := written (enc_file e2) in
  len = lengthN bytes ∧ len ≤ limit
  ∧ ∃ d d', decoder_open (Ok (true, len)) sk limit (mkSource bytes rfaults) = Ok d
      ∧ drain (S (length bytes)) d = (d', Ok (Some events))
      ∧ dec_segment_id d' = id ∧ dec_header d' = h
      ∧ dec_recovery_metadata d' = Some m ∧ dec_summary d' = Some summary
      ∧ dec_version d' = FORMAT_VERSION.
Proof.
  intros E1 Hfin Hh Hm Hl Hr. cbn zeta.
  destruct (finish_encoded _ _ _ _ _ _ _ _ _ _ _ E1 Hm Hfin) as (-> & Hs & -> & Hlim).
  split; [done|]. split; [done|].
  destruct (decoder_open_run sk salt id h events m _ limit rfaults Hs) as
    (d & Ed & R & D & V & M & L & C & B & G & I & Hd); [done|done|done|by eapply encoded_fits|done|].
  destruct (drain_run events m (events_summary events) [] (S (length (written (enc_file e2)))) d R)
    as (d' & Ed' & M' & S'); try done.
  - rewrite L. apply fits_events; [by eapply encoded_fits|by destruct E1].
  - pose proof (segment_length _ _ _ _ _ _ _ _ Hs) as Hlen.
    assert (lengthN events ≤ lengthN (written (enc_file e2))) as Hle by lia. unfold lengthN in Hle. lia.
  - exists d, d'. split; [done|]. split; [done|].
    destruct (decoder_open_decoded _ _ _ _ _ _ Ed) as (v' & salt' & id' & h' & Dd).
    pose proof (decoded_id _ _ _ _ _ _ _ _ _ Dd) as Hid.
    pose proof (decoded_header _ _ _ _ _ _ _ _ _ Dd) as [Hhd _].
    pose proof (decoded_version _ _ _ _ _ _ _ _ _ Dd) as [Hvd _].
    destruct (drain_ok _ _ _ _ _ _ _ _ _ _ _ Dd Ed') as (m' & F).
    rewrite (finished_id _ _ _ _ _ _ _ _ _ F).
    destruct (finished_header _ _ _ _ _ _ _ _ _ F) as [-> _].
    destruct (finished_version _ _ _ _ _ _ _ _ _ F) as [-> _].
    split_and!; [congruence|congruence|done|done|congruence].
Qed.

(** C32: round trip: whatever I/O schedule the writer met, if start, the appends and
    finish succeed then the reported length is that of the file and within the
    limit, and reading the file gives back the identity, the header, exactly the
    events, the recovery metadata and the summary. *)
Theorem segment_round_trip sk salt id h limit faults f0 e0 events e1 m e2 summary len rfaults :
  start sk salt id h limit (mkSink [] faults) = (f0, Ok e0) →
  append_all events e0 = (e1, Ok tt) → finish m e1 = (e2, Ok (summary, len)) →
  header_wf h → metadata_wf m → in_u64 limit → Forall (λ f, f = None) rfaults →
  let bytes := written (enc_file e2) in
  len = lengthN bytes ∧ len ≤ limit
  ∧ ∃ d d', decoder_open (Ok (true, len)) sk limit (mkSource bytes rfaults) = Ok d
      ∧ drain (S (length bytes)) d = (d', Ok (Some events))
      ∧ dec_segment_id d' = id ∧ dec_header d' = h
      ∧ dec_recovery_metadata d' = Some m ∧ dec_summary d' = Some summary.
Proof.
  intros [E0 _]%start_encoded Happ Hfin Hh Hm Hl Hr. cbn zeta.
  pose proof (append_all_encoded _ _ _ _ _ _ _ _ _ E0 Happ) as E1.
  destruct (finished_decodes _ _ _ _ _ _ _ _ _ _ _ _ E1 Hfin Hh Hm Hl Hr) as (? & ? & d & d' & ? & ? & ? & ? & ? & ? & _).
  split; [done|]. split; [done|]. by exists d, d'.
Qed.

(** canonicity: under any read schedule, a file that opens and reads to the end
    is byte for byte the segment file of what was read, in one of the two format
    versions; a version 1 file has empty recovery metadata. *)
Theorem segment_canonical metadata sk limit bytes faults d calls d' events :
  decoder_open metadata sk limit (mkSource bytes faults) = Ok d →
  drain calls d = (d', Ok (Some events)) →
  ∃ salt m, segment_bytes (dec_version d') sk salt (dec_segment_id d') (dec_header d') events m
      = Some bytes
    ∧ (dec_version d' = LEGACY_FORMAT_VERSION ∨ dec_version d' = FORMAT_VERSION)
    ∧ header_wf (dec_header d') ∧ Forall (λ event, event ≠ []) events
    ∧ dec_recovery_metadata d' = Some m ∧ metadata_wf m
    ∧ (dec_version d' = LEGACY_FORMAT_VERSION → m = RecoveryMetadata_empty)
    ∧ dec_summary d' = Some (events_summary events).
Proof.
  intros (v & salt & id & h & D)%decoder_open_decoded Hd.
  destruct (drain_ok _ _ _ _ _ _ _ _ _ _ _ D Hd) as (m & [[<- Hv] [<- Hh] <- Hb Hs (Hm & Hw & Hl) Hdn He]).
  exists salt, m. by split_and!.
Qed.

Lemma drain_ends metadata sk limit bytes faults d d' x :
  decoder_open metadata sk limit (mkSource bytes faults) = Ok d →
  drain (S (length bytes)) d = (d', Ok x) → x ≠ None.
Proof.
  intros (v & salt & id & h & D)%decoder_open_decoded. eapply drain_total; [done|].
  destruct (decoded_frames _ _ _ _ _ _ _ _ _ D) as (fs & _ & ->). rewrite !length_app. lia.
Qed.

(** C33: reading always ends: after opening, one call of [next_event] per byte of
    the file (and one more) suffices under every read schedule. *)
Theorem segment_reading_terminates metadata sk limit bytes faults d d' x :
  decoder_open metadata sk limit (mkSource bytes faults) = Ok d →
  drain (S (length bytes)) d = (d', Ok x) → x ≠ None.
Proof. apply drain_ends. Qed.

(** ** Space and refusals *)

Context `{!CryptoTotal}.

Lemma derive_total mk salt id : ∃ k, derive_segment_key mk salt id = Ok k.
Proof.
  unfold derive_segment_key.
  destruct (hkdf_total (vec_to_list salt) (vec_to_list mk)
    (String.list_byte_of_string "dbx-rs-spool-segment-v1" ++ vec_to_list id)) as [d ->].
  cbn [ok_or]. rewrite ok_bind. destruct (unbound_total d) as [k ->]. by exists k.
Qed.

Lemma with_file_run {A} (m : st sink io_kind A) e f a :
  m (enc_file e) = (f, Ok a) → with_file m e = (set_file f e, Ok a).
Proof. intros E. apply with_file_ok. by exists f. Qed.

Lemma enc_modify_run {B} (f : () → st SegmentEncoder SpoolError B) g e :
  mbind f (modify g) e = f tt (g e).
Proof. done. Qed.

Lemma write_frame_run ty payload b e :
  reliable (enc_file e) → in_u32 (lengthN (ty :: payload) + 16) →
  in_u64 (enc_position e + (29 + lengthN payload)) → in_u64 (enc_next_sequence e + 1) →
  ∃ f file, write_typed_frame ty payload b e =
      (set_next_sequence (enc_next_sequence e + 1)
         (set_position (enc_position e + (29 + lengthN payload)) (set_file file e)), Ok tt)
    ∧ reliable file ∧ frame (enc_key e) (enc_prefix e) (enc_next_sequence e) (ty :: payload) = Some f.
Proof.
  intros Hr H32 Hpos Hseq.
  destruct (seal_total (enc_key e) (nonce (enc_next_sequence e))
    (frame_aad (enc_prefix e) (lengthN (ty :: payload) + 16) (enc_next_sequence e)) (ty :: payload) H32)
    as [c Hc].
  destruct (write_all_reliable (u32_be (lengthN (ty :: payload) + 16)) (enc_file e) Hr) as (f1 & E1 & R1).
  destruct (write_all_reliable (u64_be (enc_next_sequence e)) f1 R1) as (f2 & E2 & R2).
  destruct (write_all_reliable c f2 R2) as (f3 & E3 & R3).
  exists (u32_be (lengthN (ty :: payload) + 16) ++ u64_be (enc_next_sequence e) ++ c), f3.
  split; [|split; [done|]].
  2: { apply frame_of_seal; [done|unfold in_u64 in *; lia|done]. }
  unfold write_typed_frame. rewrite (st_bind_run _ _ e e e) by done.
  rewrite (st_lift_run _ _ _ (lengthN (ty :: payload) + 16)).
  2: { apply ok_or_ok. apply bind_Some. eexists. split; [apply checked_add_some|by apply u32_try_from_some].
       split; [done|]. change (N.of_nat tag_len) with 16. unfold in_u32, in_u64, u32_max, u64_max in *. lia. }
  rewrite (st_lift_run _ _ _ c) by (by apply ok_or_ok).
  erewrite st_bind_run.
  2: { apply st_map_err_ok. rewrite (st_bind_run _ _ _ _ _ (with_file_run _ _ _ _ E1)).
       rewrite (st_bind_run _ _ _ _ _ (with_file_run _ (set_file f1 e) _ _ E2)).
       apply (with_file_run _ (set_file f2 (set_file f1 e)) _ _ E3). }
  rewrite (st_lift_run _ _ _ (28 + (lengthN payload + 1))).
  2: { apply ok_or_ok, checked_add_some. rewrite lengthN_cons. unfold FRAME_PREFIX_BYTES.
       split; [lia|]. rewrite lengthN_cons in H32. unfold in_u32, in_u64, u32_max, u64_max in *. lia. }
  rewrite (st_lift_run _ _ _ (enc_position e + (29 + lengthN payload))).
  2: { apply ok_or_ok, checked_add_some. split; [lia|]. unfold in_u64 in *. lia. }
  rewrite enc_modify_run.
  by rewrite (st_lift_run _ _ _ (enc_next_sequence e + 1)) by (by apply ok_or_ok, checked_add_some).
Qed.

Lemma write_frame_reliable ty payload b e e' :
  write_typed_frame ty payload b e = (e', Ok tt) → reliable (enc_file e) → reliable (enc_file e').
Proof.
  intros Hw Hr. pose proof Hw as (f & f2 & Hf & _ & _ & Hp & Hs)%write_frame_ok.
  pose proof (length_frame_bytes _ _ _ _ _ Hf) as Hl.
  apply frame_shape in Hf as (c & _ & _ & _ & H32 & _).
  destruct (write_frame_run ty payload b e Hr H32) as (f' & file & E & R & _); [|done|].
  { rewrite Hl, lengthN_cons in Hp. unfold in_u64 in *. lia. }
  rewrite Hw in E. injection E as ->. done.
Qed.

Lemma sync_run k e : reliable (enc_file e) →
  ∃ f, st_map_err k (with_file sync_all) e = (set_file f e, @Ok SpoolError _ tt) ∧ reliable f.
Proof.
  intros (f & E & R)%sync_all_reliable. exists f. split; [|done].
  apply st_map_err_ok. by apply with_file_run.
Qed.

Lemma start_run sk salt id h limit faults :
  MIN_SEGMENT_BYTES ≤ limit → in_u64 limit → Forall (λ f, f = WriteOk) faults →
  ∃ f e, start sk salt id h limit (mkSink [] faults) = (f, Ok e) ∧ reliable (enc_file e).
Proof.
  intros Hmin Hl Hf. unfold MIN_SEGMENT_BYTES in Hmin. unfold start, start_with_version.
  destruct (derive_total (key_bytes sk) salt id) as [k ->].
  destruct (write_all_reliable (encode_prefix (key_id sk) salt id FORMAT_VERSION) (mkSink [] faults) Hf)
    as (f1 & -> & R1).
  set (e0 := mkEncoder f1 k _ 0 _ limit 0 0 [] FORMAT_VERSION).
  assert (lengthN (encode_header h) = 112) as Hh by (unfold lengthN; by rewrite length_encode_header).
  destruct (write_frame_run FRAME_HEADER (encode_header h) false e0) as (fr & f2 & E & R & _).
  { done. } { rewrite lengthN_cons, Hh. by vm_compute. } { by rewrite Hh; vm_compute. } { by vm_compute. }
  set (e1 := set_next_sequence _ _) in E.
  destruct (sync_run (SpoolError_io "DBX-RS-SPOOL-FORMAT-0002" "segment_sync") e1 R) as (f3 & E3 & R3).
  assert (start_frames h limit FORMAT_VERSION e0 = (set_file f3 e1, Ok tt)) as ->; [|by eexists _, _].
  rewrite start_frames_eq, (st_bind_run _ _ _ _ _ E), st_get_run, terminal_v2.
  assert (enc_position e1 = 215) as -> by (change (enc_position e1) with (74 + (29 + lengthN (encode_header h))); by rewrite Hh).
  change (checked_add 215 234) with (Some 449). cbn [is_none_or].
  by rewrite bool_decide_false by lia.
Qed.

Lemma start_reliable sk salt id h limit faults f e :
  start sk salt id h limit (mkSink [] faults) = (f, Ok e) → MIN_SEGMENT_BYTES ≤ limit →
  in_u64 limit → Forall (λ f, f = WriteOk) faults → reliable (enc_file e).
Proof.
  intros E Hm Hl Hf. destruct (start_run sk salt id h limit faults Hm Hl Hf) as (f' & e' & E' & R).
  rewrite E in E'. by injection E' as _ ->.
Qed.

Lemma encoded_sequence_le e sk salt id h limit events :
  encoded e sk salt id h limit events → enc_next_sequence e ≤ enc_position e.
Proof.
  intros E. pose proof (encoded_sequence _ _ _ _ _ _ _ E). pose proof (encoded_position _ _ _ _ _ _ _ E) as Hp.
  destruct (encoded_frames _ _ _ _ _ _ _ E) as (fs & Hfs%length_frames & Hw).
  rewrite Hw, lengthN_app in Hp. rewrite lengthN_cons, lengthN_fmap in Hfs. lia.
Qed.

Lemma append_event_reliable e event e' :
  append_event event e = (e', Ok tt) → reliable (enc_file e) → reliable (enc_file e').
Proof.
  intros (e1 & Hw & _ & _ & ->)%append_event_ok Hr. by apply write_frame_reliable in Hw.
Qed.

Lemma append_all_reliable events e e' :
  append_all events e = (e', Ok tt) → reliable (enc_file e) → reliable (enc_file e').
Proof.
  revert e. induction events as [|ev events IH]; intros e; cbn [append_all]; [by intros [= <-]|].
  intros ([] & e1 & Ha & Hrun)%st_bind_ok Hr. eapply IH; [done|]. by eapply append_event_reliable.
Qed.

Lemma append_run e sk salt id h limit events event :
  encoded e sk salt id h limit events → reliable (enc_file e) → in_u64 limit →
  in_u32 (lengthN event + 17) → event ≠ [] →
  enc_position e + (29 + lengthN event) + 234 ≤ limit →
  ∃ e', append_event event e = (e', Ok tt).
Proof.
  intros E Hr Hl H32 Hne Hfit. pose proof (encoded_sequence_le _ _ _ _ _ _ _ E) as Hseq.
  pose proof (encoded_position _ _ _ _ _ _ _ E) as Hpos.
  assert (enc_event_count e ≤ enc_position e) as Hc.
  { rewrite (encoded_count _ _ _ _ _ _ _ E). rewrite (encoded_sequence _ _ _ _ _ _ _ E) in Hseq. lia. }
  assert (enc_plaintext_bytes e ≤ enc_position e) as Hb.
  { rewrite (encoded_bytes _ _ _ _ _ _ _ E), Hpos.
    destruct (encoded_frames _ _ _ _ _ _ _ E) as (fs & Hfs%length_frames & Hw).
    rewrite Hw, lengthN_app, Hfs, fmap_cons, sumN_cons.
    pose proof (events_frames_length events) as He. rewrite !lengthN_cons. lia. }
  destruct (write_frame_run FRAME_EVENT event true e) as (f & file & Hw & _ & _).
  { done. } { rewrite lengthN_cons. unfold in_u32 in *. lia. }
  { unfold in_u64 in *. lia. } { unfold in_u64 in *. lia. }
  eexists. unfold append_event. rewrite st_get_run. rewrite decide_False by done.
  unfold in_u64 in Hl.
  rewrite (st_lift_run _ _ _ (lengthN event + 1)) by (apply ok_or_ok, checked_add_some; unfold in_u64; split; lia).
  rewrite (st_lift_run _ _ _ (29 + lengthN event)).
  2: { unfold encoded_frame_bytes. apply result_bind_ok. exists (lengthN event + 17). change (N.of_nat tag_len) with 16.
       unfold FRAME_PREFIX_BYTES. split; apply ok_or_ok, checked_add_some; unfold in_u64; lia. }
  rewrite (encoded_version _ _ _ _ _ _ _ E), terminal_v2.
  rewrite (st_lift_run _ _ _ (enc_position e + (29 + lengthN event) + 234)).
  2: { apply ok_or_ok, bind_Some. eexists. unfold in_u64. split; apply checked_add_some; unfold in_u64;
       split; [done|lia|done|lia]. }
  rewrite (encoded_limit _ _ _ _ _ _ _ E). rewrite decide_False by lia.
  rewrite (st_lift_run _ _ _ (enc_event_count e + 1)) by (apply ok_or_ok, checked_add_some; unfold in_u64; split; [done|lia]).
  rewrite (st_lift_run _ _ _ (enc_plaintext_bytes e + lengthN event))
    by (apply ok_or_ok, checked_add_some; unfold in_u64; split; [done|lia]).
  by rewrite (st_bind_run _ _ _ _ _ Hw).
Qed.

Lemma append_refused e sk salt id h limit events event :
  encoded e sk salt id h limit events → in_u64 limit →
  event = [] ∨ limit < enc_position e + (29 + lengthN event) + 234 →
  ∃ err, append_event event e = (e, Err err).
Proof.
  intros E Hl Hbad. destruct (append_event event e) as [e' [[]|err]] eqn:Ha.
  - apply append_event_ok in Ha as (e1 & _ & Hne & Hfit & _).
    rewrite (encoded_version _ _ _ _ _ _ _ E), terminal_v2, (encoded_limit _ _ _ _ _ _ _ E) in Hfit.
    destruct Hbad; [done|lia].
  - exists err. enough (e' = e) as -> by done. revert Ha. unfold append_event. rewrite st_get_run.
    case_decide as Hne; [by intros [= <- _]|]. destruct Hbad as [|Hbad]; [done|].
    unfold st_lift, mbind, st_bind. destruct (ok_or _ _) as [pl|] eqn:E1; [|by intros [= <- _]].
    apply ok_or_ok, checked_add_some in E1 as [-> _].
    destruct (encoded_frame_bytes _) as [fb|] eqn:E2; [|by intros [= <- _]].
    destruct (ok_or _ (option_bind _ _ _ _)) as [rq|] eqn:E3; [|by intros [= <- _]].
    rewrite decide_True; [by intros [= <- _]|].
    unfold encoded_frame_bytes in E2. apply result_bind_ok in E2 as (cl & (-> & _)%ok_or_ok%checked_add_some & E2).
    apply ok_or_ok, checked_add_some in E2 as [-> _]. apply ok_or_ok, bind_Some in E3 as (p & [-> _]%checked_add_some & [-> _]%checked_add_some).
    rewrite (encoded_version _ _ _ _ _ _ _ E), terminal_v2, (encoded_limit _ _ _ _ _ _ _ E).
    unfold FRAME_PREFIX_BYTES. change (N.of_nat tag_len) with 16. lia.
Qed.

(** while the sink does not fail, appending an event succeeds exactly when it is
    not empty and leaves room for the largest metadata and footer frames; otherwise
    it is refused without touching the encoder or its file. *)
Theorem append_event_exact e sk salt id h limit events event :
  encoded e sk salt id h limit events → reliable (enc_file e) → in_u64 limit →
  in_u32 (lengthN event + 17) →
  (event ≠ [] ∧ enc_position e + (29 + lengthN event) + 234 ≤ limit
     ∧ ∃ e', append_event event e = (e', Ok tt) ∧ encoded e' sk salt id h limit (events ++ [event]))
  ∨ ((event = [] ∨ limit < enc_position e + (29 + lengthN event) + 234)
     ∧ ∃ err, append_event event e = (e, Err err)).
Proof.
  intros E Hr Hl H32.
  destruct (decide (event = [])) as [->|Hne]; [right; split; [by left|eapply append_refused; eauto]|].
  destruct (decide (limit < enc_position e + (29 + lengthN event) + 234)) as [Hlt|Hle].
  { right. split; [by right|]. eapply append_refused; eauto. }
  left. split; [done|]. split; [lia|].
  destruct (append_run e sk salt id h limit events event) as [e' Ha]; try done; [lia|].
  exists e'. split; [done|]. by eapply append_encoded.
Qed.

Lemma finish_run e sk salt id h limit events m :
  encoded e sk salt id h limit events → reliable (enc_file e) → in_u64 limit → metadata_wf m →
  ∃ e' s len, finish m e = (e', Ok (s, len)).
Proof.
  intros E Hr Hl Hm. pose proof (encoded_sequence_le _ _ _ _ _ _ _ E) as Hseq.
  pose proof (encoded_space _ _ _ _ _ _ _ E) as Hsp.
  assert (lengthN (as_bytes m) ≤ 128) as Hm'
    by (unfold metadata_wf, MAX_RECOVERY_METADATA_BYTES in Hm; unfold lengthN; lia).
  assert (lengthN (encode_footer (encoder_summary e)) = 48) as Hf
    by (unfold lengthN; by rewrite length_encode_footer).
  unfold in_u64 in Hl.
  destruct (write_frame_run FRAME_RECOVERY_METADATA (as_bytes m) false e) as (f & f1 & E1 & R1 & _).
  { done. } { rewrite lengthN_cons. unfold in_u32, u32_max. lia. }
  { unfold in_u64. lia. } { unfold in_u64. lia. }
  set (e1 := set_next_sequence _ _) in E1.
  assert (enc_position e1 = enc_position e + (29 + lengthN (as_bytes m))) as Hp1 by done.
  assert (enc_next_sequence e1 = enc_next_sequence e + 1) as Hs1 by done.
  destruct (write_frame_run FRAME_FOOTER (encode_footer (encoder_summary e)) false e1) as (g & f2 & E2 & R2 & _).
  { done. } { rewrite lengthN_cons, Hf. by vm_compute. }
  { rewrite Hp1, Hf. unfold in_u64. lia. } { rewrite Hs1. unfold in_u64. lia. }
  set (e2 := set_next_sequence _ _) in E2.
  destruct (sync_run (SpoolError_io "DBX-RS-SPOOL-FORMAT-0004" "segment_sync") e2 R2) as (f3 & E3 & _).
  eexists _, _, _. unfold finish, finish_inner. rewrite st_get_run.
  rewrite decide_True by apply (encoded_version _ _ _ _ _ _ _ E).
  rewrite (st_bind_run _ _ _ _ _ E1), (st_bind_run _ _ _ _ _ E2), (st_bind_run _ _ _ _ _ E3), st_get_run.
  done.
Qed.

(** with valid limits and a sink that does not fail, a segment can always be
    started, and whatever events were accepted it can always be finished, with any
    recovery metadata, inside the limit. *)
Theorem segment_progress sk salt id h limit faults :
  MIN_SEGMENT_BYTES ≤ limit → in_u64 limit → Forall (λ f, f = WriteOk) faults →
  (∃ f e, start sk salt id h limit (mkSink [] faults) = (f, Ok e))
  ∧ (∀ f e events e1 m, start sk salt id h limit (mkSink [] faults) = (f, Ok e) →
       append_all events e = (e1, Ok tt) → metadata_wf m →
       ∃ e2 s len, finish m e1 = (e2, Ok (s, len)) ∧ len ≤ limit).
Proof.
  intros Hmin Hl Hf. split.
  - destruct (start_run sk salt id h limit faults) as (f & e & E & _); try done. by exists f, e.
  - intros f e events e1 m Es Ha Hm. pose proof (start_reliable _ _ _ _ _ _ _ _ Es Hmin Hl Hf) as R.
    apply start_encoded in Es as [E0 _].
    pose proof (append_all_encoded _ _ _ _ _ _ _ _ _ E0 Ha) as E1.
    pose proof (append_all_reliable _ _ _ Ha R) as R1.
    destruct (finish_run _ _ _ _ _ _ _ m E1 R1 Hl Hm) as (e2 & s & len & Hfin).
    exists e2, s, len. split; [done|]. by eapply finish_encoded in Hfin as (_ & _ & _ & ?).
Qed.

End RoundTrip.

(** ** Witnesses: a small segment under a stand-in cipher

    The stand-ins satisfy the laws: the tag is cut from associated data and nonce. *)
Definition demo_sha256 : Sha256 := λ l, array_of_list 32 (rev l).
Definition demo_tag (n : array 12) (aad : list byte) : list byte := take 16 (rev aad ++ vec_to_list n ++ replicate 4 x00).
Definition demo_crypto : Crypto := {|
  aead_key := array 32;
  hkdf_sha256 _ ikm _ := Some (array_of_list 32 ikm);
  unbound_key k := Some k;
  seal _ n aad p := Some (p ++ demo_tag n aad);
  open _ n aad c :=
    if decide (drop (length c - 16) c = demo_tag n aad) then Some (take (length c - 16) c) else None;
|}.
#[local] Existing Instance demo_sha256.
#[local] Existing Instance demo_crypto.

#[local] Arguments demo_tag : simpl never.

Lemma length_demo_tag n aad : length (demo_tag n aad) = 16%nat.
Proof. unfold demo_tag. rewrite length_take, !length_app, length_vec_to_list. cbn [length replicate]. lia. Qed.

#[local] Instance demo_laws : CryptoLaws.
Proof.
  split; cbn.
  - intros k n aad p c [= <-]. by rewrite length_app, length_demo_tag.
  - intros k n aad p c [= <-]. rewrite length_app, length_demo_tag, Nat.add_sub.
    rewrite drop_app_length, take_app_length. by rewrite decide_True.
  - intros k n aad p c. case_decide as Ht; [|done]. intros [= <-]. by rewrite <- Ht, take_drop.
Qed.

#[local] Instance demo_total : CryptoTotal.
Proof. split; cbn; eauto. Qed.

Definition demo_key : SpoolKey := mkSpoolKey (vreplicate 32 x05) (vreplicate 16 x06).
Definition demo_header : SegmentHeader :=
  mkHeader (vreplicate 32 x01) (vreplicate 32 x02) 1 (vreplicate 16 x03) 1 1 1000.
Definition demo_salt : array SALT_BYTES := vreplicate 32 x09.
Definition demo_id : SegmentId := vreplicate 16 x0a.
Definition demo_events : list (list byte) := [[x61]; [x62; x63]].
Definition demo_metadata : RecoveryMetadata := mkMetadata [x7b; x7d].
Definition demo_begin : sink * result SpoolError SegmentEncoder :=
  start demo_key demo_salt demo_id demo_header 600 (mkSink [] []).
Definition unwrap_encoder (r : result SpoolError SegmentEncoder) : SegmentEncoder :=
  match r with
  | Ok e => e
  | Err _ => mkEncoder (mkSink [] []) (vreplicate 32 x00 : @aead_key demo_crypto) [] 0 0 0 0 0 [] 0
  end.
Definition demo_e0 : SegmentEncoder := Eval vm_compute in unwrap_encoder demo_begin.2.
Definition demo_e1 : SegmentEncoder := Eval vm_compute in (append_all demo_events demo_e0).1.
Definition demo_e2 : SegmentEncoder := Eval vm_compute in (finish demo_metadata demo_e1).1.
Definition demo_bytes : list byte := Eval vm_compute in written (enc_file demo_e2).

Lemma demo_header_wf : header_wf demo_header.
Proof. by repeat split; vm_compute. Qed.

Lemma segment_round_trip_witness :
  let bytes := written (enc_file demo_e2) in
  (384 = lengthN bytes ∧ 384 ≤ 600
  ∧ ∃ d d', decoder_open (Ok (true, 384)) demo_key 600 (mkSource bytes []) = Ok d
      ∧ drain (S (length bytes)) d = (d', Ok (Some demo_events))
      ∧ dec_segment_id d' = demo_id ∧ dec_header d' = demo_header
      ∧ dec_recovery_metadata d' = Some demo_metadata
      ∧ dec_summary d' = Some (events_summary demo_events)).
Proof.
  apply (segment_round_trip demo_key demo_salt demo_id demo_header 600 [] (enc_file demo_e0) demo_e0
    demo_events demo_e1 demo_metadata demo_e2 (events_summary demo_events) 384 []).
  - vm_compute. reflexivity.
  - vm_compute. reflexivity.
  - vm_compute. reflexivity.
  - exact demo_header_wf.
  - vm_compute. lia.
  - vm_compute. discriminate.
  - constructor.
Defined.

Definition demo_open : result SpoolError SegmentDecoder :=
  decoder_open (Ok (true, 384)) demo_key 600 (mkSource demo_bytes []).
Definition unwrap_decoder (r : result SpoolError SegmentDecoder) : SegmentDecoder :=
  match r with
  | Ok d => d
  | Err _ => mkDecoder (mkSource [] []) (vreplicate 32 x00 : @aead_key demo_crypto) [] demo_id 0 0 0 []
      None false 0 0 zero_header 0 None
  end.
Definition demo_d : SegmentDecoder := Eval vm_compute in unwrap_decoder demo_open.
Definition demo_d' : SegmentDecoder := Eval vm_compute in (drain 385 demo_d).1.

Lemma segment_canonical_witness :
  ∃ salt m, segment_bytes (dec_version demo_d') demo_key salt (dec_segment_id demo_d')
      (dec_header demo_d') demo_events m = Some demo_bytes
    ∧ (dec_version demo_d' = LEGACY_FORMAT_VERSION ∨ dec_version demo_d' = FORMAT_VERSION)
    ∧ header_wf (dec_header demo_d') ∧ Forall (λ event, event ≠ []) demo_events
    ∧ dec_recovery_metadata demo_d' = Some m ∧ metadata_wf m
    ∧ (dec_version demo_d' = LEGACY_FORMAT_VERSION → m = RecoveryMetadata_empty)
    ∧ dec_summary demo_d' = Some (events_summary demo_events).
Proof.
  apply (segment_canonical (Ok (true, 384)) demo_key 600 demo_bytes [] demo_d 385 demo_d' demo_events);
    vm_compute; reflexivity.
Defined.

Lemma segment_reading_terminates_witness : Some demo_events ≠ None.
Proof.
  apply (segment_reading_terminates (Ok (true, 384)) demo_key 600 demo_bytes [] demo_d demo_d');
    vm_compute; reflexivity.
Defined.

Lemma demo_e0_encoded : encoded demo_e0 demo_key demo_salt demo_id demo_header 600 [].
Proof. apply (start_encoded _ _ _ _ _ [] (enc_file demo_e0)). vm_compute. reflexivity. Qed.

Lemma append_event_exact_witness :
  ([x61] ≠ [] ∧ enc_position demo_e0 + (29 + lengthN [x61]) + 234 ≤ 600
     ∧ ∃ e', append_event [x61] demo_e0 = (e', Ok tt)
         ∧ encoded e' demo_key demo_salt demo_id demo_header 600 ([] ++ [[x61]]))
  ∨ (([x61] = [] ∨ 600 < enc_position demo_e0 + (29 + lengthN [x61]) + 234)
     ∧ ∃ err, append_event [x61] demo_e0 = (demo_e0, Err err)).
Proof.
  apply (append_event_exact demo_e0 demo_key demo_salt demo_id demo_header 600 [] [x61]).
  - exact demo_e0_encoded.
  - constructor.
  - vm_compute. discriminate.
  - vm_compute. discriminate.
Defined.

Lemma segment_progress_witness :
  (∃ f e, start demo_key demo_salt demo_id demo_header 600 (mkSink [] []) = (f, Ok e))
  ∧ (∀ f e events e1 m, start demo_key demo_salt demo_id demo_header 600 (mkSink [] []) = (f, Ok e) →
       append_all events e = (e1, Ok tt) → metadata_wf m →
       ∃ e2 s len, finish m e1 = (e2, Ok (s, len)) ∧ len ≤ 600).
Proof.
  apply segment_progress; [vm_compute; discriminate|vm_compute; discriminate|constructor].
Defined.

(** ** A failed append does not close the encoder

    The file of an encoder whose append failed part way through a frame can still
    be finished with success, and the finished file cannot be read. *)
Definition broken_start : SegmentEncoder :=
  unwrap_encoder (start demo_key demo_salt demo_id demo_header 600
    (mkSink [] (replicate 5 WriteOk ++ [WriteFails 2 StorageFull]))).2.
Definition broken_append := append_event [x61] broken_start.
Definition broken_finish := finish demo_metadata broken_append.1.

(** after an append that failed with an I/O error, [finish] on the same encoder
    reports success for a file that the decoder rejects. *)
Theorem failed_append_can_be_finished :
  broken_append.2 = Err (SpoolError_io "DBX-RS-SPOOL-FORMAT-0005" "event_write" (Fault StorageFull))
  ∧ (∃ summary len, broken_finish.2 = Ok (summary, len))
  ∧ ∃ e, (match decoder_open (Ok (true, lengthN (written (enc_file broken_finish.1)))) demo_key 600
             (mkSource (written (enc_file broken_finish.1)) []) with
          | Ok d => (drain 400 d).2
          | Err e => Err e
          end) = Err e.
Proof.
  split; [vm_compute; reflexivity|]. split; [eexists _, _; vm_compute; reflexivity|].
  eexists. vm_compute. reflexivity.
Qed.
