(* ===== verification/SpoolQuota.v ===== *)
(** * Spool byte accounting (crates/dbx-rs-spool/src/spool.rs, Accounting)

    The counters behind the spool quotas: a writer reserves one full segment,
    publishes the actual size or releases the reservation, and compaction removes
    stored bytes.  The methods run under the accounting mutex, one at a time. *)

From S2P Require Export SpoolModel.

Local Open Scope N_scope.
Local Open Scope dbx_scope.

(** ** Data and operations *)

Record Accounting := mkAccounting {
  stored : N;
  reserved : N;
  stored_by_input : gmap InputKey N;
  reserved_by_input : gmap InputKey N;
}.

Definition Accounting_default : Accounting := mkAccounting 0 0 ∅ ∅.

Record SpoolUsage := mkUsage {
  usage_stored : N;
  usage_reserved : N;
  usage_stored_by_input : gmap InputKey N;
  usage_reserved_by_input : gmap InputKey N;
}.

Definition quota_overflow : SpoolError := SpoolError_new "DBX-RS-SPOOL-QUOTA-0003" "quota_accounting".

(** [get(&key).copied().unwrap_or(0)]. *)
Definition entry (values : gmap InputKey N) (key : InputKey) : N := default 0 (values !! key).

Definition decrement_entry (values : gmap InputKey N) (key : InputKey) (bytes : N) : gmap InputKey N :=
  match values !! key with
  | Some value =>
      let value := saturating_sub value bytes in
      if decide (value = 0) then delete key values else <[key := value]> values
  | None => values
  end.

Abbreviation acct A := (st Accounting SpoolError A).

Definition set_reserved (r : N) (a : Accounting) : Accounting :=
  mkAccounting (stored a) r (stored_by_input a) (reserved_by_input a).
Definition set_reserved_by_input (m : gmap InputKey N) (a : Accounting) : Accounting :=
  mkAccounting (stored a) (reserved a) (stored_by_input a) m.

Definition reserve (limits : SpoolLimits) (key : InputKey) : acct () :=
  let bytes := limit_segment limits in
  accounting ← st_get;
  let input_stored := entry (stored_by_input accounting) key in
  let input_reserved := entry (reserved_by_input accounting) key in
  next_input ← st_lift (ok_or quota_overflow
    (usage ← checked_add input_stored input_reserved; checked_add usage bytes));
  if decide (limit_input limits < next_input)
  then mthrow (SpoolError_new "DBX-RS-SPOOL-QUOTA-0001" "quota_reserve") else
  next_global ← st_lift (ok_or quota_overflow
    (usage ← checked_add (stored accounting) (reserved accounting); checked_add usage bytes));
  if decide (limit_global limits < next_global)
  then mthrow (SpoolError_new "DBX-RS-SPOOL-QUOTA-0002" "quota_reserve") else
  reserved' ← st_lift (ok_or quota_overflow (checked_add (reserved accounting) bytes));
  _ ← st_put (set_reserved reserved' accounting);
  (* [entry(key).or_default()] inserts the entry before the addition *)
  _ ← st_put (set_reserved_by_input (<[key := input_reserved]> (reserved_by_input accounting))
                (set_reserved reserved' accounting));
  input_reserved' ← st_lift (ok_or quota_overflow (checked_add input_reserved bytes));
  st_put (set_reserved_by_input (<[key := input_reserved']> (reserved_by_input accounting))
            (set_reserved reserved' accounting)).

Definition release_reservation (limits : SpoolLimits) (key : InputKey) : acct () := λ accounting,
  let bytes := limit_segment limits in
  (set_reserved_by_input (decrement_entry (reserved_by_input accounting) key bytes)
     (set_reserved (saturating_sub (reserved accounting) bytes) accounting), Ok tt).

Definition publish_reservation (limits : SpoolLimits) (key : InputKey) (actual_bytes : N) : acct () :=
  let reserved_bytes := limit_segment limits in
  if decide (reserved_bytes < actual_bytes)
  then mthrow (SpoolError_new "DBX-RS-SPOOL-QUOTA-0004" "quota_publish") else
  accounting ← st_get;
  if decide (reserved accounting < reserved_bytes
             ∨ entry (reserved_by_input accounting) key < reserved_bytes)
  then mthrow (SpoolError_new "DBX-RS-SPOOL-QUOTA-0005" "quota_publish") else
  next_stored ← st_lift (ok_or quota_overflow (checked_add (stored accounting) actual_bytes));
  next_input_stored ← st_lift (ok_or quota_overflow
    (checked_add (entry (stored_by_input accounting) key) actual_bytes));
  st_put (mkAccounting next_stored (reserved accounting - reserved_bytes)
            (<[key := next_input_stored]> (stored_by_input accounting))
            (decrement_entry (reserved_by_input accounting) key reserved_bytes)).

Definition remove_stored (key : InputKey) (bytes : N) : acct () :=
  accounting ← st_get;
  if decide (stored accounting < bytes ∨ entry (stored_by_input accounting) key < bytes)
  then mthrow (SpoolError_new "DBX-RS-SPOOL-QUOTA-0005" "quota_compact") else
  st_put (mkAccounting (stored accounting - bytes) (reserved accounting)
            (decrement_entry (stored_by_input accounting) key bytes)
            (reserved_by_input accounting)).

(** Used by the startup scan on a fresh accounting. *)
Definition add_stored (key : InputKey) (bytes : N) : acct () :=
  accounting ← st_get;
  stored' ← st_lift (ok_or quota_overflow (checked_add (stored accounting) bytes));
  let input_bytes := entry (stored_by_input accounting) key in
  _ ← st_put (mkAccounting stored' (reserved accounting)
                (<[key := input_bytes]> (stored_by_input accounting)) (reserved_by_input accounting));
  input_bytes' ← st_lift (ok_or quota_overflow (checked_add input_bytes bytes));
  st_put (mkAccounting stored' (reserved accounting)
            (<[key := input_bytes']> (stored_by_input accounting)) (reserved_by_input accounting)).

(** The startup scan charges every file it accepted. *)
Fixpoint scan_stored (files : list (InputKey * N)) : st Accounting SpoolError () :=
  match files with
  | [] => mret tt
  | (key, bytes) :: files => _ ← add_stored key bytes; scan_stored files
  end.

Definition usage (a : Accounting) : SpoolUsage :=
  mkUsage (stored a) (reserved a) (stored_by_input a) (reserved_by_input a).
Definition input_stored_bytes (u : SpoolUsage) (key : InputKey) : N :=
  entry (usage_stored_by_input u) key.
Definition input_reserved_bytes (u : SpoolUsage) (key : InputKey) : N :=
  entry (usage_reserved_by_input u) key.

(** ** Specification: the ledger

    The segments stored in the spool and the writers holding a reservation. *)
Record ledger := mkLedger {
  segments_stored : list (InputKey * N);
  writers : list InputKey;
}.

Definition stored_sum (l : list (InputKey * N)) : N := sumN (snd <$> l).
Definition of_input (key : InputKey) (l : list (InputKey * N)) : list (InputKey * N) :=
  filter (λ p, p.1 = key) l.
Definition writers_of (key : InputKey) (l : list InputKey) : list InputKey := filter (λ k, k = key) l.

(** Bytes in use: stored plus a full segment per writer. *)
Definition used (limits : SpoolLimits) (l : ledger) : N :=
  stored_sum (segments_stored l) + limit_segment limits * lengthN (writers l).
Definition input_used (limits : SpoolLimits) (l : ledger) (key : InputKey) : N :=
  stored_sum (of_input key (segments_stored l)) + limit_segment limits * lengthN (writers_of key (writers l)).

Record represents (limits : SpoolLimits) (a : Accounting) (l : ledger) : Prop := mkRepresents {
  rep_stored : stored a = stored_sum (segments_stored l);
  rep_reserved : reserved a = limit_segment limits * lengthN (writers l);
  rep_stored_input key : entry (stored_by_input a) key = stored_sum (of_input key (segments_stored l));
  rep_reserved_input key :
    entry (reserved_by_input a) key = limit_segment limits * lengthN (writers_of key (writers l));
}.

Inductive quota_op :=
  | OpReserve (key : InputKey)
  | OpRelease (key : InputKey)
  | OpPublish (key : InputKey) (bytes : N)
  | OpRemove (key : InputKey) (bytes : N).

Definition run_op (limits : SpoolLimits) (op : quota_op) : acct () :=
  match op with
  | OpReserve key => reserve limits key
  | OpRelease key => release_reservation limits key
  | OpPublish key bytes => publish_reservation limits key bytes
  | OpRemove key bytes => remove_stored key bytes
  end.

(** How the spool uses the operations: only a writer releases or publishes, with at
    most the reserved size, and only a stored segment is removed. *)
Inductive ledger_step (limits : SpoolLimits) : quota_op → ledger → ledger → Prop :=
  | step_reserve key s w :
      ledger_step limits (OpReserve key) (mkLedger s w) (mkLedger s (key :: w))
  | step_release key s w w' :
      w ≡ₚ key :: w' → ledger_step limits (OpRelease key) (mkLedger s w) (mkLedger s w')
  | step_publish key bytes s w w' :
      w ≡ₚ key :: w' → bytes ≤ limit_segment limits →
      ledger_step limits (OpPublish key bytes) (mkLedger s w) (mkLedger ((key, bytes) :: s) w')
  | step_remove key bytes s s' w :
      s ≡ₚ (key, bytes) :: s' →
      ledger_step limits (OpRemove key bytes) (mkLedger s w) (mkLedger s' w).

(** The quota check of a reservation. *)
Definition within_quota (limits : SpoolLimits) (l : ledger) (key : InputKey) : Prop :=
  input_used limits l key + limit_segment limits ≤ limit_input limits
  ∧ used limits l + limit_segment limits ≤ limit_global limits.
