(* ===== verification/SpoolQuotaProps.v ===== *)
(** * Theorems on the spool accounting

    The counters refine the ledger of stored segments and writers, operations used
    as the spool uses them never fail except for the quota, and the quotas bound
    every run. *)

From S2P Require Export SpoolQuota.

Local Open Scope N_scope.

(** ** Lemmas: maps and sums *)

Lemma entry_insert m key v key' : entry (<[key := v]> m) key' = if decide (key = key') then v else entry m key'.
Proof. unfold entry. case_decide; [subst; by rewrite lookup_insert_eq|by rewrite lookup_insert_ne]. Qed.

Lemma entry_decrement m key bytes key' :
  entry (decrement_entry m key bytes) key' =
  if decide (key = key') then entry m key - bytes else entry m key'.
Proof.
  unfold decrement_entry, saturating_sub. destruct (m !! key) as [v|] eqn:E.
  - cbv zeta. destruct (decide (v - bytes = 0)) as [Hz|Hz].
    + unfold entry. case_decide; [subst; rewrite lookup_delete_eq, E; cbn; lia|by rewrite lookup_delete_ne].
    + rewrite entry_insert. case_decide; [|done]. unfold entry. by rewrite E.
  - case_decide; [subst|done]. unfold entry. by rewrite E.
Qed.

Lemma sumN_perm l k : l ≡ₚ k → sumN l = sumN k.
Proof. induction 1; unfold sumN in *; cbn in *; lia. Qed.

Lemma stored_sum_perm l k : l ≡ₚ k → stored_sum l = stored_sum k.
Proof. intros Hp. unfold stored_sum. apply sumN_perm. by rewrite Hp. Qed.

Lemma stored_sum_cons p l : stored_sum (p :: l) = p.2 + stored_sum l.
Proof. done. Qed.

Lemma of_input_perm key l k : l ≡ₚ k → stored_sum (of_input key l) = stored_sum (of_input key k).
Proof. intros Hp. apply stored_sum_perm. unfold of_input. by rewrite Hp. Qed.

Lemma of_input_cons key p l :
  stored_sum (of_input key (p :: l)) = (if decide (p.1 = key) then p.2 else 0) + stored_sum (of_input key l).
Proof. unfold of_input. rewrite filter_cons. case_decide; [by rewrite stored_sum_cons|lia]. Qed.

Lemma writers_perm key l k : l ≡ₚ k → lengthN (writers_of key l) = lengthN (writers_of key k).
Proof. intros Hp. unfold writers_of, lengthN. by rewrite Hp. Qed.

Lemma writers_cons key k l :
  lengthN (writers_of key (k :: l)) = (if decide (k = key) then 1 else 0) + lengthN (writers_of key l).
Proof. unfold writers_of. rewrite filter_cons. case_decide; [rewrite lengthN_cons; lia|lia]. Qed.

Lemma of_input_le key l : stored_sum (of_input key l) ≤ stored_sum l.
Proof. induction l as [|p l IH]; [done|]. rewrite of_input_cons, stored_sum_cons. case_decide; lia. Qed.

Lemma writers_of_le key l : lengthN (writers_of key l) ≤ lengthN l.
Proof. induction l as [|k l IH]; [done|]. rewrite writers_cons, lengthN_cons. case_decide; lia. Qed.

Lemma input_used_le limits l key : input_used limits l key ≤ used limits l.
Proof.
  unfold input_used, used. pose proof (of_input_le key (segments_stored l)).
  pose proof (writers_of_le key (writers l)). nia.
Qed.

Lemma lengthN_perm {A} (l k : list A) : l ≡ₚ k → lengthN l = lengthN k.
Proof. intros Hp. unfold lengthN. by rewrite Hp. Qed.

(** ** The operations *)

Section Quota.
Context (limits : SpoolLimits) (Hwf : limits_wf limits) (Hglobal : in_u64 (limit_global limits)).

Lemma reserve_ok a l key :
  represents limits a l → within_quota limits l key →
  ∃ a', reserve limits key a = (a', Ok tt) ∧ represents limits a' (mkLedger (segments_stored l) (key :: writers l)).
Proof using Hglobal.
  intros [Hs Hr Hsi Hri] [Hin Hgl]. unfold input_used, used in *. unfold in_u64 in Hglobal.
  pose proof (of_input_le key (segments_stored l)). pose proof (writers_of_le key (writers l)).
  assert (limit_segment limits * lengthN (writers_of key (writers l)) ≤ limit_segment limits * lengthN (writers l))
    by nia.
  eexists. split.
  - unfold reserve. rewrite st_get_run, Hsi, Hri, Hs, Hr.
    set (i := stored_sum (of_input key _)) in *. set (j := limit_segment limits * lengthN (writers_of _ _)) in *.
    set (s := stored_sum _) in *. set (w := limit_segment limits * lengthN (writers l)) in *.
    rewrite (st_lift_run _ _ _ (i + j + limit_segment limits))
      by (apply ok_or_ok, bind_Some; exists (i + j); rewrite !checked_add_some; unfold in_u64; lia).
    rewrite decide_False by lia.
    rewrite (st_lift_run _ _ _ (s + w + limit_segment limits))
      by (apply ok_or_ok, bind_Some; exists (s + w); rewrite !checked_add_some; unfold in_u64; lia).
    rewrite decide_False by lia.
    rewrite (st_lift_run _ _ _ (w + limit_segment limits))
      by (apply ok_or_ok; rewrite checked_add_some; unfold in_u64; lia).
    rewrite !st_put_run.
    by rewrite (st_lift_run _ _ _ (j + limit_segment limits))
      by (apply ok_or_ok; rewrite checked_add_some; unfold in_u64; lia).
  - split; cbn [stored reserved stored_by_input reserved_by_input segments_stored writers
      set_reserved set_reserved_by_input]; [done| |done|].
    + rewrite lengthN_cons. lia.
    + intros key'. rewrite entry_insert, writers_cons, Hri. case_decide; [subst|]; lia.
Qed.

Lemma reserve_refused a l key :
  represents limits a l → ¬ within_quota limits l key →
  ∃ err, reserve limits key a = (a, Err err).
Proof using Hglobal.
  intros [Hs Hr Hsi Hri] Hno. unfold within_quota, input_used, used in Hno. unfold in_u64 in Hglobal.
  unfold reserve. rewrite st_get_run, Hsi, Hri, Hs, Hr.
  set (i := stored_sum (of_input key _)) in *. set (j := limit_segment limits * lengthN (writers_of _ _)) in *.
  set (s := stored_sum _) in *. set (w := limit_segment limits * lengthN (writers l)) in *.
  destruct (ok_or quota_overflow (usage ← checked_add i j; _)) as [n|e] eqn:E1.
  2: { exists e. by rewrite (st_lift_err _ _ _ e). }
  rewrite (st_lift_run _ _ _ n) by done.
  apply ok_or_ok, bind_Some in E1 as (u & [-> _]%checked_add_some & [-> _]%checked_add_some).
  case_decide as H1; [by eexists|].
  destruct (ok_or quota_overflow (usage ← checked_add s w; _)) as [n|e] eqn:E2.
  2: { exists e. by rewrite (st_lift_err _ _ _ e). }
  rewrite (st_lift_run _ _ _ n) by done.
  apply ok_or_ok, bind_Some in E2 as (u & [-> _]%checked_add_some & [-> _]%checked_add_some).
  case_decide as H2; [by eexists|]. exfalso. apply Hno. lia.
Qed.

Lemma release_ok a l key w' :
  represents limits a l → writers l ≡ₚ key :: w' →
  ∃ a', release_reservation limits key a = (a', Ok tt) ∧ represents limits a' (mkLedger (segments_stored l) w').
Proof using Type.
  intros [Hs Hr Hsi Hri] Hp. eexists. split; [reflexivity|].
  pose proof (lengthN_perm _ _ Hp) as Hl. rewrite lengthN_cons in Hl.
  split; cbn [stored reserved stored_by_input reserved_by_input segments_stored writers
    set_reserved set_reserved_by_input]; [done| |done|].
  - unfold saturating_sub. rewrite Hr, Hl. lia.
  - intros key'. rewrite entry_decrement, !Hri, !(writers_perm _ _ _ Hp), !writers_cons.
    case_decide; [subst; rewrite decide_True by done|]; lia.
Qed.

Lemma publish_ok a l key bytes w' :
  represents limits a l → in_u64 (used limits l) → writers l ≡ₚ key :: w' → bytes ≤ limit_segment limits →
  ∃ a', publish_reservation limits key bytes a = (a', Ok tt)
    ∧ represents limits a' (mkLedger ((key, bytes) :: segments_stored l) w').
Proof using Type.
  intros [Hs Hr Hsi Hri] Hu Hp Hb. unfold in_u64, used in Hu.
  pose proof (lengthN_perm _ _ Hp) as Hl. rewrite lengthN_cons in Hl.
  pose proof (writers_perm key _ _ Hp) as Hk. rewrite writers_cons, decide_True in Hk by done.
  pose proof (of_input_le key (segments_stored l)).
  eexists. split.
  - unfold publish_reservation. rewrite decide_False by lia. rewrite st_get_run, Hr, Hri, Hs, Hsi.
    rewrite decide_False by nia.
    rewrite (st_lift_run _ _ _ (stored_sum (segments_stored l) + bytes))
      by (apply ok_or_ok; rewrite checked_add_some; unfold in_u64; nia).
    by rewrite (st_lift_run _ _ _ (stored_sum (of_input key (segments_stored l)) + bytes))
      by (apply ok_or_ok; rewrite checked_add_some; unfold in_u64; nia).
  - split; cbn [stored reserved stored_by_input reserved_by_input segments_stored writers].
    + rewrite stored_sum_cons. cbn. lia.
    + rewrite Hl. lia.
    + intros key'. rewrite entry_insert, of_input_cons, Hsi. cbn. case_decide; [subst|]; lia.
    + intros key'. rewrite entry_decrement, !Hri, !(writers_perm _ _ _ Hp), !writers_cons.
      case_decide; [subst; rewrite decide_True by done|]; lia.
Qed.

Lemma remove_ok a l key bytes s' :
  represents limits a l → segments_stored l ≡ₚ (key, bytes) :: s' →
  ∃ a', remove_stored key bytes a = (a', Ok tt) ∧ represents limits a' (mkLedger s' (writers l)).
Proof using Type.
  intros [Hs Hr Hsi Hri] Hp.
  pose proof (stored_sum_perm _ _ Hp) as Hl. rewrite stored_sum_cons in Hl. cbn in Hl.
  pose proof (of_input_perm key _ _ Hp) as Hk. rewrite of_input_cons in Hk. cbn in Hk.
  rewrite decide_True in Hk by done.
  eexists. split.
  - unfold remove_stored. rewrite st_get_run, Hs, Hsi. by rewrite decide_False by lia.
  - split; cbn [stored reserved stored_by_input reserved_by_input segments_stored writers].
    + lia.
    + done.
    + intros key'. rewrite entry_decrement, !Hsi, !(of_input_perm _ _ _ Hp), !of_input_cons. cbn.
      case_decide; [subst; rewrite decide_True by done|]; lia.
    + done.
Qed.

Lemma ledger_step_used op l l' :
  ledger_step limits op l l' →
  match op with
  | OpReserve key => used limits l' = used limits l + limit_segment limits
      ∧ ∀ key', input_used limits l' key'
          = input_used limits l key' + (if decide (key = key') then limit_segment limits else 0)
  | _ => used limits l' ≤ used limits l ∧ ∀ key', input_used limits l' key' ≤ input_used limits l key'
  end.
Proof using Type.
  destruct 1 as [key s w|key s w w' Hp|key bytes s w w' Hp Hb|key bytes s s' w Hp];
    unfold used, input_used; cbn [segments_stored writers].
  - split; [rewrite lengthN_cons; lia|]. intros key'. rewrite writers_cons. case_decide; lia.
  - rewrite (lengthN_perm _ _ Hp), lengthN_cons. split; [lia|]. intros key'.
    rewrite (writers_perm _ _ _ Hp), writers_cons. case_decide; lia.
  - rewrite (lengthN_perm _ _ Hp), lengthN_cons, stored_sum_cons. cbn [fst snd]. split; [lia|]. intros key'.
    rewrite (writers_perm _ _ _ Hp), writers_cons, of_input_cons. cbn [fst snd]. case_decide; lia.
  - rewrite (stored_sum_perm _ _ Hp), stored_sum_cons. split; [lia|]. intros key'.
    rewrite (of_input_perm _ _ _ Hp), of_input_cons. lia.
Qed.

#[export] Instance within_quota_dec l key : Decision (within_quota limits l key).
Proof using Type. unfold within_quota. apply _. Defined.

(** What decides whether an operation of the spool succeeds. *)
Definition allowed (op : quota_op) (l : ledger) : Prop :=
  match op with OpReserve key => within_quota limits l key | _ => True end.

Lemma quota_step a l op l' :
  represents limits a l → in_u64 (used limits l) → ledger_step limits op l l' →
  (allowed op l ∧ ∃ a', run_op limits op a = (a', Ok tt) ∧ represents limits a' l' ∧ in_u64 (used limits l'))
  ∨ (¬ allowed op l ∧ ∃ err, run_op limits op a = (a, Err err)).
Proof using Hglobal.
  intros Hrep Hu Hstep. pose proof (ledger_step_used _ _ _ Hstep) as Hused. unfold in_u64 in *.
  destruct Hstep as [key s w|key s w w' Hp|key bytes s w w' Hp Hb|key bytes s s' w Hp]; cbn [allowed run_op].
  - destruct (decide (within_quota limits (mkLedger s w) key)) as [Hq|Hq]; [left|right].
    + split; [done|]. destruct (reserve_ok a _ key Hrep Hq) as (a' & E & R). exists a'. split_and!; [done|done|].
      destruct Hq as [_ Hq]. destruct Hused as [-> _]. lia.
    + split; [done|]. by apply (reserve_refused a _ key Hrep).
  - left. split; [done|]. destruct (release_ok a _ key w' Hrep Hp) as (a' & E & R). exists a'.
    split_and!; [done|done|lia].
  - left. split; [done|]. destruct (publish_ok a _ key bytes w' Hrep Hu Hp Hb) as (a' & E & R). exists a'.
    split_and!; [done|done|lia].
  - left. split; [done|]. destruct (remove_ok a _ key bytes s' Hrep Hp) as (a' & E & R). exists a'.
    split_and!; [done|done|lia].
Qed.

(** C40: the counters refine the ledger: used as the spool uses them, publishing,
    releasing and removing always succeed and never underflow or overflow, a
    reservation succeeds exactly when both the input quota and the global quota
    have room for a full segment, and a refused reservation changes no counter. *)
Theorem quota_refines_ledger a l op l' :
  represents limits a l → in_u64 (used limits l) → ledger_step limits op l l' →
  (allowed op l ∧ ∃ a', run_op limits op a = (a', Ok tt) ∧ represents limits a' l' ∧ in_u64 (used limits l'))
  ∨ (¬ allowed op l ∧ ∃ err, run_op limits op a = (a, Err err)).
Proof using Hglobal. apply quota_step. Qed.

(** One step of the accounting with its ledger; a refused operation changes neither. *)
Definition quota_run_step (p p' : Accounting * ledger) : Prop :=
  ∃ op l1 r, ledger_step limits op p.2 l1 ∧ run_op limits op p.1 = (p'.1, r)
    ∧ p'.2 = match r with Ok _ => l1 | Err _ => p.2 end.

Lemma quota_run_inv p p' :
  rtc quota_run_step p p' → represents limits p.1 p.2 → in_u64 (used limits p.2) →
  represents limits p'.1 p'.2 ∧ in_u64 (used limits p'.2)
  ∧ used limits p'.2 ≤ N.max (used limits p.2) (limit_global limits)
  ∧ ∀ key, input_used limits p'.2 key ≤ N.max (input_used limits p.2 key) (limit_input limits).
Proof using Hglobal.
  intros Hrun. induction Hrun as [p|p [a1 lg1] p' (op & l1 & r & Hstep & Hop & Hl) _ IH]; intros Hrep Hu.
  { split_and!; [done|done|lia|]. intros key. lia. }
  cbn [fst snd] in *.
  pose proof (ledger_step_used _ _ _ Hstep) as Hused.
  destruct (quota_step _ _ _ _ Hrep Hu Hstep) as [(Hal & a' & E & R & U)|(_ & err & E)];
    rewrite Hop in E; injection E as -> ->; subst lg1.
  - destruct (IH R U) as (R' & U' & B & Bi). split_and!; [done|done| |].
    + destruct op; cbn [allowed] in Hal; [destruct Hal as [_ Hal]|..]; lia.
    + intros key'. specialize (Bi key'). destruct op as [key|key|key b|key b]; cbn [allowed] in Hal.
      * destruct Hal as [Hal _], Hused as [_ Hused]. rewrite Hused in Bi. case_decide; [subst|]; lia.
      * destruct Hused as [_ Hused]. specialize (Hused key'). lia.
      * destruct Hused as [_ Hused]. specialize (Hused key'). lia.
      * destruct Hused as [_ Hused]. specialize (Hused key'). lia.
  - by apply IH.
Qed.

(** in every run of reservations, releases, publications and compactions the
    bytes in use stay within the global quota and those of each input within the
    input quota, up to what was already in use at the start; the counters always
    equal the ledger's sums. *)
Theorem quota_bounds_every_run a0 l0 a l :
  rtc quota_run_step (a0, l0) (a, l) → represents limits a0 l0 → in_u64 (used limits l0) →
  stored a + reserved a ≤ N.max (used limits l0) (limit_global limits)
  ∧ (∀ key, input_stored_bytes (usage a) key + input_reserved_bytes (usage a) key
        ≤ N.max (input_used limits l0 key) (limit_input limits))
  ∧ represents limits a l.
Proof using Hglobal.
  intros Hrun Hrep Hu. destruct (quota_run_inv _ _ Hrun Hrep Hu) as (R & _ & B & Bi). cbn [fst snd] in *.
  pose proof R as [Hs Hr Hsi Hri]. split; [|split; [|done]].
  - rewrite Hs, Hr. exact B.
  - intros key. unfold input_stored_bytes, input_reserved_bytes. cbn. rewrite Hsi, Hri. apply Bi.
Qed.

Lemma scan_stored_ok files a l a' :
  represents limits a (mkLedger l []) → scan_stored files a = (a', Ok tt) →
  represents limits a' (mkLedger (rev files ++ l) []).
Proof using Type.
  revert a l. induction files as [|[key bytes] files IH]; intros a l Hrep; cbn [scan_stored].
  - by intros [= <-].
  - intros ([] & a1 & Hadd & Hrun)%st_bind_ok. cbn [rev]. rewrite <- app_assoc. cbn [app].
    eapply IH; [|done]. clear IH Hrun. destruct Hrep as [Hs Hr Hsi Hri]. cbn [segments_stored writers] in *.
    unfold add_stored in Hadd. apply st_bind_ok in Hadd as (s & s0 & [= <- <-] & Hadd).
    apply st_bind_ok in Hadd as (n & s0 & [-> (-> & _)%ok_or_ok%checked_add_some]%st_lift_ok & Hadd).
    apply st_bind_ok in Hadd as ([] & s1 & [= <-] & Hadd).
    apply st_bind_ok in Hadd as (m & s2 & [-> (-> & _)%ok_or_ok%checked_add_some]%st_lift_ok & Hadd).
    injection Hadd as <-. split; cbn [stored reserved stored_by_input reserved_by_input segments_stored writers];
      [|done| |done].
    + rewrite stored_sum_cons. cbn. lia.
    + intros key'. rewrite entry_insert, of_input_cons, !Hsi. cbn [fst snd]. case_decide; [subst|]; lia.
Qed.

Lemma empty_represents : represents limits Accounting_default (mkLedger [] []).
Proof using Type.
  split; [done|unfold lengthN; cbn; lia|done|]. intros key. cbn [writers writers_of].
  unfold writers_of, lengthN. cbn. unfold entry. rewrite lookup_empty. cbn. lia.
Qed.

(** The accounting rebuilt at startup represents exactly the files found, with no
    writer. *)
Theorem scan_rebuilds_accounting files a :
  scan_stored files Accounting_default = (a, Ok tt) →
  represents limits a (mkLedger (rev files) []).
Proof using Type.
  intros Hrun. rewrite <- (app_nil_r (rev files)). eapply scan_stored_ok; [apply empty_represents|done].
Qed.

End Quota.

(** ** Witnesses *)
Definition quota_limits : SpoolLimits := mkLimits 512 1024 2048.
Definition quota_input : InputKey := vreplicate 32 x01.
Definition quota_a1 : Accounting := (reserve quota_limits quota_input Accounting_default).1.
Definition quota_a2 : Accounting := (publish_reservation quota_limits quota_input 300 quota_a1).1.
Definition quota_l1 : ledger := mkLedger [] [quota_input].
Definition quota_l2 : ledger := mkLedger [(quota_input, 300)] [].

Lemma quota_global : in_u64 (limit_global quota_limits).
Proof. by vm_compute. Qed.

Lemma quota_refines_ledger_witness :
  (allowed quota_limits (OpReserve quota_input) (mkLedger [] [])
     ∧ ∃ a', run_op quota_limits (OpReserve quota_input) Accounting_default = (a', Ok tt)
         ∧ represents quota_limits a' quota_l1 ∧ in_u64 (used quota_limits quota_l1))
  ∨ (¬ allowed quota_limits (OpReserve quota_input) (mkLedger [] [])
     ∧ ∃ err, run_op quota_limits (OpReserve quota_input) Accounting_default = (Accounting_default, Err err)).
Proof.
  apply (quota_refines_ledger quota_limits quota_global).
  - apply empty_represents.
  - vm_compute. discriminate.
  - constructor.
Defined.

Lemma quota_publishes :
  run_op quota_limits (OpPublish quota_input 300) quota_a1 = (quota_a2, Ok tt).
Proof.
  rewrite (surjective_pairing (run_op _ _ _)). apply (f_equal2 pair); [reflexivity|]. by vm_compute.
Qed.

Lemma quota_bounds_every_run_witness :
  stored quota_a2 + reserved quota_a2 ≤ N.max (used quota_limits (mkLedger [] [])) 2048
  ∧ (∀ key, input_stored_bytes (usage quota_a2) key + input_reserved_bytes (usage quota_a2) key
        ≤ N.max (input_used quota_limits (mkLedger [] []) key) 1024)
  ∧ represents quota_limits quota_a2 quota_l2.
Proof.
  apply (quota_bounds_every_run quota_limits quota_global Accounting_default (mkLedger [] [])).
  - apply (rtc_l _ _ (quota_a1, quota_l1)).
    { exists (OpReserve quota_input), quota_l1, (Ok tt). split; [constructor|]. split; reflexivity. }
    apply rtc_once. exists (OpPublish quota_input 300), quota_l2, (Ok tt).
    split; [apply step_publish; [reflexivity|vm_compute; discriminate]|]. split; [exact quota_publishes|reflexivity].
  - apply empty_represents.
  - vm_compute. discriminate.
Defined.

Lemma scan_rebuilds_accounting_witness :
  represents quota_limits (scan_stored [(quota_input, 300); (quota_input, 20)] Accounting_default).1
    (mkLedger (rev [(quota_input, 300); (quota_input, 20)]) []).
Proof. apply scan_rebuilds_accounting. vm_compute. reflexivity. Defined.
