(* ===== verification/FileSystem.v ===== *)
(** * The file system seen by the storage crates

    The part of [std::fs] on Unix used by crates/dbx-rs-secure-store and
    crates/dbx-rs-state: a tree of nodes, path resolution through symbolic links,
    the calls with their error kinds, and what a crash can leave on disk.

    - A path is absolute and normalised: the list of its names, [[]] being the root.
    - Every call takes its outcome from a schedule of faults.  A crash is a schedule
      whose remaining calls all fail.
    - Directory changes reach the disk in order, those of one directory at the latest
      when that directory is synchronised; the content of a file is only certain
      after [sync_all]. *)

From stdpp Require Export pretty.
From S2P Require Export Io.

Local Open Scope N_scope.
Local Open Scope dbx_scope.

(** ** Paths *)
Abbreviation name := (list byte).
Abbreviation path := (list name).

Definition join (p : path) (n : name) : path := p ++ [n].
Definition parent (p : path) : option path :=
  match p with [] => None | _ => Some (take (length p - 1) p) end.
Definition file_name (p : path) : option name := last p.
(** [Path::ancestors]: the path itself first, the root last. *)
Definition ancestors (p : path) : list path :=
  (λ n, take n p) <$> reverse (seq 0 (S (length p))).

(** [OsStr::to_str]: well-formed UTF-8. *)
Definition continuation (lo hi : N) (b : byte) : bool := bool_decide (lo ≤ Byte.to_N b ≤ hi).
Fixpoint utf8 (l : list byte) : bool :=
  match l with
  | [] => true
  | a :: l1 =>
      let n := Byte.to_N a in
      if decide (n < 128) then utf8 l1 else
      match l1 with
      | [] => false
      | b :: l2 =>
          if decide (194 ≤ n ≤ 223) then continuation 128 191 b && utf8 l2 else
          match l2 with
          | [] => false
          | c :: l3 =>
              if decide (224 ≤ n ≤ 239)
              then continuation (if decide (n = 224) then 160 else 128)
                     (if decide (n = 237) then 159 else 191) b
                   && continuation 128 191 c && utf8 l3 else
              match l3 with
              | [] => false
              | d :: l4 =>
                  bool_decide (240 ≤ n ≤ 244)
                  && continuation (if decide (n = 240) then 144 else 128)
                       (if decide (n = 244) then 143 else 191) b
                  && continuation 128 191 c && continuation 128 191 d && utf8 l4
              end
          end
      end
  end.
Definition to_str (n : name) : option name := if utf8 n then Some n else None.

Definition DOT : byte := x2e.
(** [OsStr] split at its last dot: what is before and after it. *)
Fixpoint last_dot (n : name) : option (name * name) :=
  match n with
  | [] => None
  | b :: r =>
      match last_dot r with
      | Some (before, after) => Some (b :: before, after)
      | None => if decide (b = DOT) then Some ([], r) else None
      end
  end.
(** [Path::file_stem] and [Path::extension] of a name; no name is [..]. *)
Definition file_stem (n : name) : name :=
  match last_dot n with Some (b :: before, _) => b :: before | _ => n end.
Definition extension (n : name) : option name :=
  match last_dot n with Some (_ :: _, after) => Some after | _ => None end.

(** Decimal digits of a number, as [format!] prints it. *)
Definition decimal (n : N) : name := String.list_byte_of_string (pretty n).

(** ** Nodes and versions *)

(** [synced] tells whether the content has reached the disk. *)
Inductive node :=
  | Dir (mode : N)
  | Regular (mode : N) (content : list byte) (synced : bool)
  | Link (target : path).

#[global] Instance node_eq_dec : EqDecision node.
Proof. solve_decision. Defined.

(** [fs::Metadata]. *)
Definition is_symlink (n : node) : bool := match n with Link _ => true | _ => false end.
Definition is_dir (n : node) : bool := match n with Dir _ => true | _ => false end.
Definition is_file (n : node) : bool := match n with Regular _ _ _ => true | _ => false end.
Definition node_len (n : node) : N := match n with Regular _ c _ => lengthN c | _ => 0 end.
Definition node_mode (n : node) : N :=
  match n with Dir m => m | Regular m _ _ => m | Link _ => 511 end.
Definition with_mode (m : N) (n : node) : node :=
  match n with Dir _ => Dir m | Regular _ c y => Regular m c y | Link t => Link t end.

Abbreviation tree_t := (gmap path node).

(** [past] holds the older versions of the tree that a crash may still reveal. *)
Record fs := mkFs {
  tree : tree_t;
  past : list tree_t;
  faults : list write_fault;
  umask : N;
  process_id : N;
  next_temp_file : N;
}.

Definition set_faults (l : list write_fault) (s : fs) : fs :=
  mkFs (tree s) (past s) l (umask s) (process_id s) (next_temp_file s).
Definition set_tree (t : tree_t) (s : fs) : fs :=
  mkFs t (tree s :: past s) (faults s) (umask s) (process_id s) (next_temp_file s).
Definition set_past (l : list tree_t) (s : fs) : fs :=
  mkFs (tree s) l (faults s) (umask s) (process_id s) (next_temp_file s).

Definition versions (s : fs) : list tree_t := tree s :: past s.

(** ** Path resolution *)
Inductive walked :=
  | Reached (q : path)
  | Jump (q : path)
  | Failed (k : io_kind).

Fixpoint walk (t : tree_t) (follow : bool) (base : path) (todo : list name) : walked :=
  match todo with
  | [] => Reached base
  | n :: rest =>
      match t !! base with
      | Some (Dir _) =>
          let here := join base n in
          match t !! here with
          | Some (Link target) =>
              if negb follow && bool_decide (rest = []) then Reached here else Jump (target ++ rest)
          | Some _ => walk t follow here rest
          | None => if bool_decide (rest = []) then Reached here else Failed NotFound
          end
      | Some _ => Failed NotADirectory
      | None => Failed NotFound
      end
  end.

Fixpoint resolve (links : nat) (t : tree_t) (follow : bool) (p : path) : result io_kind path :=
  match walk t follow [] p with
  | Reached q => Ok q
  | Failed k => Err k
  | Jump q => match links with O => Err TooManyLinks | S links => resolve links t follow q end
  end.

(** Linux follows at most 40 links. *)
Definition MAX_LINKS : nat := 40.

(** ** Calls *)
Abbreviation io A := (st fs io_kind A).

Definition syscall {A} (act : io A) : io A := λ s,
  match next_fault (faults s) with
  | (WriteOk, l) => act (set_faults l s)
  | (WriteFails _ k, l) => (set_faults l s, Err (Fault k))
  end.

(** The outcome of a call as a value, for [match] on a [Result]. *)
Definition try_call {S E F A} (m : st S E A) : st S F (result E A) := λ s,
  let '(s', r) := m s in (s', Ok r).

Definition locate (follow : bool) (p : path) : io path :=
  s ← st_get; st_lift (resolve MAX_LINKS (tree s) follow p).
Definition node_at (q : path) : io node :=
  s ← st_get; st_lift (ok_or NotFound (tree s !! q)).
Definition put_node (q : path) (n : node) : io () := λ s,
  (set_tree (<[q := n]> (tree s)) s, Ok tt).

Definition symlink_metadata (p : path) : io node := syscall (q ← locate false p; node_at q).
(** [fs::metadata(p)], followed by [is_dir]; any error counts as [false]. *)
Definition path_is_dir (p : path) : io bool :=
  r ← try_call (syscall (q ← locate true p; node_at q));
  mret match r with Ok n => is_dir n | Err _ => false end.

(** [Path::exists]: any error counts as absent. *)
Definition path_exists {E} (p : path) : st fs E bool :=
  r ← try_call (syscall (q ← locate true p; node_at q));
  mret (is_ok r).

Definition mkdir (p : path) : io () := syscall (
  q ← locate false p;
  s ← st_get;
  match tree s !! q with
  | Some _ => mthrow AlreadyExists
  | None => put_node q (Dir (N.ldiff 511 (umask s)))
  end).

(** [mkdir], accepting a directory that is already there. *)
Definition mkdir_or_dir (p : path) : io () :=
  r ← try_call (mkdir p);
  match r with
  | Ok _ => mret tt
  | Err error =>
      if decide (error = AlreadyExists)
      then d ← path_is_dir p; (if d : bool then mret tt else mthrow AlreadyExists)
      else mthrow error
  end.

(** [fs::create_dir_all]: [n] is the number of names of the path. *)
Fixpoint create_dirs (n : nat) (p : path) : io () :=
  match n with
  | O => mret tt
  | S n =>
      r ← try_call (mkdir_or_dir p);
      match r with
      | Ok _ => mret tt
      | Err error =>
          if decide (error = NotFound) then _ ← create_dirs n (take n p); mkdir_or_dir p
          else mthrow error
      end
  end.
Definition create_dir_all (p : path) : io () := create_dirs (length p) p.

Definition set_permissions (p : path) (mode : N) : io () := syscall (
  q ← locate true p;
  n ← node_at q;
  put_node q (with_mode mode n)).

(** Open files are named by the path they were found at: no file is renamed while open. *)
Definition open_existing (p : path) : io path := syscall (q ← locate true p; _ ← node_at q; mret q).

(** [OpenOptions::write(true).create_new(true).mode(mode)]. *)
Definition open_new (p : path) (mode : N) : io path := syscall (
  q ← locate false p;
  s ← st_get;
  match tree s !! q with
  | Some _ => mthrow AlreadyExists
  | None => _ ← put_node q (Regular (N.ldiff mode (umask s)) [] false); mret q
  end).

Definition file_metadata (q : path) : io node := syscall (node_at q).

Definition append (q : path) (bytes : list byte) : io () :=
  n ← node_at q;
  match n with
  | Regular m c _ => put_node q (Regular m (c ++ bytes) false)
  | Dir _ => mthrow IsADirectory
  | Link _ => mthrow TooManyLinks
  end.
(** [Write::write_all]: a failure may leave some of the bytes written. *)
Definition write_bytes (q : path) (bytes : list byte) : io () := λ s,
  match next_fault (faults s) with
  | (WriteOk, l) => append q bytes (set_faults l s)
  | (WriteFails n k, l) =>
      match append q (take n bytes) (set_faults l s) with
      | (s', Ok _) => (s', Err (Fault k))
      | (s', Err e) => (s', Err e)
      end
  end.

(** [file.take(limit).read_to_end]. *)
Definition read_at_most (q : path) (limit : N) : io (list byte) := syscall (
  n ← node_at q;
  match n with
  | Regular _ c _ => mret (take (N.to_nat (N.min limit (lengthN c))) c)
  | Dir _ => mthrow IsADirectory
  | Link _ => mthrow TooManyLinks
  end).

(** The entries of one directory are now on disk, in every version. *)
Definition in_dir (d q : path) : bool := bool_decide (parent q = Some d).
Definition overlay (d : path) (new old : tree_t) : tree_t :=
  map_fold (λ q n t, if in_dir d q then <[q := n]> t else t) (filter (λ e, in_dir d e.1 = false) old) new.

Definition sync (q : path) : io () := syscall (
  n ← node_at q;
  match n with
  | Regular m c _ => put_node q (Regular m c true)
  | Dir _ => s ← st_get; st_put (set_past (overlay q (tree s) <$> past s) s)
  | Link _ => mret tt
  end).

(** [fs::rename] of a file; the code never renames a directory. *)
Definition rename_file (p p' : path) : io () := syscall (
  q ← locate false p;
  q' ← locate false p';
  n ← node_at q;
  s ← st_get;
  match n, tree s !! q' with
  | Dir _, _ => mthrow NotADirectory
  | _, Some (Dir _) => mthrow IsADirectory
  | _, _ => st_put (set_tree (<[q' := n]> (delete q (tree s))) s)
  end).

Definition remove_file (p : path) : io () := syscall (
  q ← locate false p;
  n ← node_at q;
  s ← st_get;
  match n with
  | Dir _ => mthrow IsADirectory
  | _ => st_put (set_tree (delete q (tree s)) s)
  end).

(** [fs::read_dir]: the names in a directory, in the order of the tree. *)
Definition read_dir (p : path) : io (list name) := syscall (
  q ← locate true p;
  n ← node_at q;
  s ← st_get;
  match n with
  | Dir _ => mret (omap file_name (filter (λ q', parent q' = Some q) (map_to_list (tree s)).*1))
  | _ => mthrow NotADirectory
  end).

(** ** Crashes *)

(** What is found at a path after a crash. *)
Inductive survives : option node → option node → Prop :=
  | survives_absent : survives None None
  | survives_dir m : survives (Some (Dir m)) (Some (Dir m))
  | survives_link t : survives (Some (Link t)) (Some (Link t))
  | survives_synced m c : survives (Some (Regular m c true)) (Some (Regular m c true))
  | survives_torn m c c' : survives (Some (Regular m c false)) (Some (Regular m c' true)).

Definition after_crash (s : fs) (q : path) (n : option node) : Prop :=
  ∃ v, v ∈ versions s ∧ survives (v !! q) n.
