(* ===== verification/FileSystemProps.v ===== *)
(** * Reasoning about the file system

    Well-formed trees, path resolution without links, and a small Hoare logic whose
    assertions speak of the tree and of the versions a crash may reveal.  A triple
    holds for every fault schedule; its error postcondition is the section's
    invariant, so that a theorem about the invariant covers failures and crashes at
    every point. *)

From S2P Require Export FileSystem.

Local Open Scope N_scope.

(** ** Well-formed trees *)

Record wf_tree (t : tree_t) : Prop := mkWf {
  wf_root : ∃ m, t !! [] = Some (Dir m);
  wf_parent q x n : t !! (q ++ [x]) = Some n → ∃ m, t !! q = Some (Dir m);
}.

Definition is_dir_at (t : tree_t) (q : path) : Prop := ∃ m, t !! q = Some (Dir m).
Definition no_link_at (t : tree_t) (q : path) : Prop := ∀ tgt, t !! q ≠ Some (Link tgt).
(** No link on the way to [p], [p] included. *)
Definition plain (p : path) (t : tree_t) : Prop := ∀ q, q `prefix_of` p → no_link_at t q.

Lemma is_dir_no_link t q : is_dir_at t q → no_link_at t q.
Proof. intros [m E] tgt. by rewrite E. Qed.

Lemma wf_prefix_dir t q l n : wf_tree t → t !! (q ++ l) = Some n → l ≠ [] → is_dir_at t q.
Proof.
  intros Hwf. revert n. induction l as [|x l IH] using rev_ind; intros n E Hl; [done|].
  rewrite app_assoc in E. destruct (wf_parent _ Hwf _ _ _ E) as [m Em].
  destruct l as [|y l]; [rewrite app_nil_r in Em; by exists m|]. eapply IH; [exact Em|done].
Qed.

Lemma wf_dirs_above t q l : wf_tree t → is_dir_at t (q ++ l) → is_dir_at t q.
Proof.
  intros Hwf [m E]. destruct l as [|x l]; [rewrite app_nil_r in E; by exists m|].
  by eapply (wf_prefix_dir t q (x :: l)).
Qed.

Lemma wf_no_children t q x : wf_tree t → ¬ is_dir_at t q → t !! (q ++ [x]) = None.
Proof.
  intros Hwf Hno. destruct (t !! (q ++ [x])) as [n|] eqn:E; [|done].
  destruct Hno. destruct (wf_parent _ Hwf _ _ _ E) as [m Em]. by exists m.
Qed.

Lemma wf_insert t q n :
  wf_tree t →
  (match q with [] => is_dir n = true | _ => ∃ d x, q = d ++ [x] ∧ is_dir_at t d end) →
  (is_dir n = true ∨ ¬ is_dir_at t q) →
  wf_tree (<[q := n]> t).
Proof.
  intros Hwf Hq Hn. split.
  - destruct q as [|y q]; [|rewrite lookup_insert_ne by done; apply Hwf].
    destruct n; [|done..]. rewrite lookup_insert_eq. by eexists.
  - intros d x n' E. rewrite lookup_insert_Some in E. destruct (decide (q = d)) as [->|Hne].
    + rewrite lookup_insert_eq. destruct Hn as [Hn|Hn]; [destruct n; [by eexists|done..]|].
      destruct E as [[E _]|[_ E]]; [by apply (f_equal length) in E; rewrite length_app in E; cbn in E; lia|].
      destruct Hn. eapply wf_parent; done.
    + rewrite lookup_insert_ne by done. destruct E as [[-> _]|[_ E]]; [|by eapply wf_parent].
      destruct (d ++ [x]) as [|y l] eqn:El; [by destruct d|].
      destruct Hq as (d' & x' & E & Hd). rewrite <- El in E. apply app_inj_2 in E as [-> _]; done.
Qed.

Lemma wf_delete t q : wf_tree t → ¬ is_dir_at t q → wf_tree (delete q t).
Proof.
  intros Hwf Hq. split.
  - destruct (wf_root _ Hwf) as [m E]. exists m. rewrite lookup_delete_ne; [done|].
    intros ->. apply Hq. by exists m.
  - intros d x n [Hne E]%lookup_delete_Some. destruct (wf_parent _ Hwf _ _ _ E) as [m Em].
    exists m. rewrite lookup_delete_ne; [done|]. intros ->. apply Hq. by exists m.
Qed.

(** ** Resolution *)

Lemma walk_dirs t follow base todo :
  (∀ pre x post, todo = pre ++ x :: post → is_dir_at t (base ++ pre)) →
  (follow = false ∨ no_link_at t (base ++ todo)) →
  walk t follow base todo = Reached (base ++ todo).
Proof.
  revert base. induction todo as [|n rest IH]; intros base Hdirs Hlast; cbn [walk].
  { by rewrite app_nil_r. }
  destruct (Hdirs [] n rest) as [m E]; [done|]. rewrite app_nil_r in E. rewrite E. cbv zeta. unfold join.
  replace (base ++ n :: rest) with ((base ++ [n]) ++ rest) in * by by rewrite <- app_assoc.
  destruct (decide (rest = [])) as [->|Hrest].
  - rewrite app_nil_r in *. rewrite bool_decide_true by done.
    destruct (t !! (base ++ [n])) as [[m'|m' c y|tgt]|] eqn:Eh; [reflexivity|reflexivity| |reflexivity].
    destruct Hlast as [->|Hl]; [done|]. by destruct (Hl tgt).
  - assert (is_dir_at t (base ++ [n])) as [m' Eh].
    { destruct rest as [|x rest]; [done|]. by apply (Hdirs [n] x rest). }
    rewrite Eh. apply IH; [|done].
    intros pre x post ->. rewrite <- app_assoc. by apply (Hdirs (n :: pre) x post).
Qed.

Lemma resolve_reached links t follow p q : walk t follow [] p = Reached q → resolve links t follow p = Ok q.
Proof. destruct links; cbn; by intros ->. Qed.

Lemma resolve_child links t follow d x :
  wf_tree t → is_dir_at t d → (follow = false ∨ no_link_at t (d ++ [x])) →
  resolve links t follow (d ++ [x]) = Ok (d ++ [x]).
Proof.
  intros Hwf Hd Hl. apply resolve_reached, (walk_dirs t follow []); [|done].
  intros pre y post E. cbn. destruct post as [|z post _] using rev_ind.
  - apply app_inj_2 in E as [-> _]; done.
  - rewrite app_comm_cons, app_assoc in E. apply app_inj_2 in E as [-> _]; [|done].
    by eapply wf_dirs_above.
Qed.

Lemma resolve_dir links t follow d : wf_tree t → is_dir_at t d → resolve links t follow d = Ok d.
Proof.
  intros Hwf Hd. destruct d as [|x d _] using rev_ind; [by destruct links|].
  apply resolve_child; [done|by eapply wf_dirs_above|right; by apply is_dir_no_link].
Qed.

(** With no link on the way, the walk stays on the path. *)
Lemma walk_plain t follow base todo :
  (∀ pre post, todo = pre ++ post → no_link_at t (base ++ pre)) →
  walk t follow base todo = Reached (base ++ todo)
  ∨ walk t follow base todo = Failed NotFound ∨ walk t follow base todo = Failed NotADirectory.
Proof.
  revert base. induction todo as [|n rest IH]; intros base Hpl; cbn [walk].
  { rewrite app_nil_r. by left. }
  destruct (t !! base) as [[m|m c y|tgt]|] eqn:E; [|by right; right| |by right; left].
  2: by right; right.
  cbv zeta. unfold join.
  replace (base ++ n :: rest) with ((base ++ [n]) ++ rest) in * by by rewrite <- app_assoc.
  assert (no_link_at t (base ++ [n])) as Hn by by apply (Hpl [n] rest).
  destruct (t !! (base ++ [n])) as [[m'|m' c y|tgt]|] eqn:Eh.
  - apply IH. intros pre post ->. rewrite <- app_assoc. by apply (Hpl (n :: pre) post).
  - apply IH. intros pre post ->. rewrite <- app_assoc. by apply (Hpl (n :: pre) post).
  - by destruct (Hn tgt).
  - case_bool_decide as Hr; [subst; rewrite app_nil_r; by left|by right; left].
Qed.

Lemma resolve_plain links t follow p q : plain p t → resolve links t follow p = Ok q → q = p.
Proof.
  intros Hpl. destruct (walk_plain t follow [] p) as [E|[E|E]].
  - intros pre post ->. apply Hpl. by apply prefix_app_r.
  - destruct links; cbn [resolve]; rewrite E; intros Eq; by injection Eq.
  - destruct links; cbn [resolve]; by rewrite E.
  - destruct links; cbn [resolve]; by rewrite E.
Qed.

Lemma walk_parent t follow base todo q :
  walk t follow base todo = Reached q →
  todo = [] ∨ ∃ d x, q = d ++ [x] ∧ is_dir_at t d.
Proof.
  revert base. induction todo as [|n rest IH]; intros base; cbn [walk]; [by left|].
  destruct (t !! base) as [[m| |]|] eqn:E; [|done..]. cbv zeta. intros Hw. right.
  assert (is_dir_at t base) as Hb by by exists m. unfold join in Hw.
  destruct (t !! (base ++ [n])) as [[m'|m' c y|tgt]|] eqn:Eh.
  - destruct (IH _ Hw) as [->|Hd]; [|done]. injection Hw as <-. eauto.
  - destruct (IH _ Hw) as [->|Hd]; [|done]. injection Hw as <-. eauto.
  - destruct (negb _ && _); [|done]. injection Hw as <-. eauto.
  - case_bool_decide; [|done]. injection Hw as <-. eauto.
Qed.

(** What resolution finds is the root or lies in a directory. *)
Lemma resolve_parent links t follow p q :
  resolve links t follow p = Ok q → q = [] ∨ ∃ d x, q = d ++ [x] ∧ is_dir_at t d.
Proof.
  revert p. induction links as [|links IH]; intros p; cbn [resolve];
    destruct (walk t follow [] p) as [r|r|k] eqn:E; try done.
  - intros [= <-]. destruct (walk_parent _ _ _ _ _ E) as [->|Hd]; [left; by injection E|by right].
  - intros [= <-]. destruct (walk_parent _ _ _ _ _ E) as [->|Hd]; [left; by injection E|by right].
  - apply IH.
Qed.

Lemma prefix_snoc_cases (q d : path) x : q `prefix_of` d ++ [x] → q = d ++ [x] ∨ q `prefix_of` d.
Proof.
  intros [k Hk]. destruct k as [|b k] using rev_ind; [left; by rewrite app_nil_r in Hk|].
  right. rewrite app_assoc in Hk. apply app_inj_2 in Hk as [-> _]; [|done]. by exists k.
Qed.

(** ** Evolution of the tree and of its versions

    [evolves A t0 ps0 t ps]: starting from tree [t0] with older versions [ps0], every
    path holds what it held, or a node that [A] allows; and in every version each
    directory is that of one older version, apart from such nodes. *)
Record evolves (A : path → option node → Prop) (t0 : tree_t) (ps0 : list tree_t)
    (t : tree_t) (ps : list tree_t) : Prop := mkEvolves {
  ev_tree q : t !! q = t0 !! q ∨ A q (t !! q);
  ev_version v d : v ∈ t :: ps →
    ∃ v0, v0 ∈ t0 :: ps0 ∧ ∀ q, parent q = d → v0 !! q = v !! q ∨ A q (v !! q);
}.

Lemma ev_versions A t0 ps0 t ps v q :
  evolves A t0 ps0 t ps → v ∈ t :: ps → (∃ v0, v0 ∈ t0 :: ps0 ∧ v0 !! q = v !! q) ∨ A q (v !! q).
Proof.
  intros Hev Hv. destruct (ev_version _ _ _ _ _ Hev v (parent q) Hv) as (v0 & Hv0 & Hq).
  destruct (Hq q eq_refl); [left; by exists v0|by right].
Qed.

(** Path by path. *)
Lemma evolves_paths A t0 ps0 t ps :
  evolves A t0 ps0 t ps →
  (∀ q, t !! q = t0 !! q ∨ A q (t !! q))
  ∧ ∀ v q, v ∈ t :: ps → (∃ v0, v0 ∈ t0 :: ps0 ∧ v0 !! q = v !! q) ∨ A q (v !! q).
Proof. intros Hev. split; [apply Hev|]. intros v q. by apply ev_versions. Qed.

Lemma evolves_refl A t ps : evolves A t ps t ps.
Proof. split; [by left|]. intros v d Hv. exists v. split; [done|by left]. Qed.

Lemma evolves_trans A t0 ps0 t1 ps1 t ps :
  evolves A t0 ps0 t1 ps1 → evolves A t1 ps1 t ps → evolves A t0 ps0 t ps.
Proof.
  intros [T1 V1] [T2 V2]. split.
  - intros q. destruct (T2 q) as [->|]; [apply T1|by right].
  - intros v d Hv. destruct (V2 v d Hv) as (v1 & Hv1 & E1). destruct (V1 v1 d Hv1) as (v0 & Hv0 & E0).
    exists v0. split; [done|]. intros q Hq. destruct (E1 q Hq) as [<-|]; [by apply E0|by right].
Qed.

Lemma evolves_mono (A B : path → option node → Prop) t0 ps0 t ps :
  (∀ q n, A q n → B q n) → evolves A t0 ps0 t ps → evolves B t0 ps0 t ps.
Proof.
  intros HAB [T V]. split.
  - intros q. destruct (T q); auto.
  - intros v d Hv. destruct (V v d Hv) as (v0 & Hv0 & E). exists v0. split; [done|].
    intros q Hq. destruct (E q Hq); auto.
Qed.

(** A new tree, the old one becoming a version. *)
Lemma evolves_change (A : path → option node → Prop) t ps t' :
  (∀ q, t' !! q = t !! q ∨ A q (t' !! q)) → evolves A t ps t' (t :: ps).
Proof.
  intros Ht. split; [done|]. intros v d [->|Hv]%elem_of_cons.
  - exists t. split; [left|]. intros q _. destruct (Ht q) as [E|]; [by left|by right].
  - exists v. split; [done|by left].
Qed.

Lemma evolves_insert (A : path → option node → Prop) t ps q n :
  A q (Some n) → evolves A t ps (<[q := n]> t) (t :: ps).
Proof.
  intros Ha. apply evolves_change. intros q'. destruct (decide (q = q')) as [->|Hne].
  - right. by rewrite lookup_insert_eq.
  - left. by rewrite lookup_insert_ne.
Qed.

Lemma lookup_overlay d new old q :
  overlay d new old !! q = if in_dir d q then new !! q else old !! q.
Proof.
  unfold overlay. apply (map_fold_weak_ind (λ r m, r !! q = if in_dir d q then m !! q else old !! q)).
  - rewrite lookup_empty. destruct (in_dir d q) eqn:Hd.
    + apply map_lookup_filter_None. right. intros n _. cbn. by rewrite Hd.
    + destruct (old !! q) as [n|] eqn:Ho; [by apply map_lookup_filter_Some|].
      apply map_lookup_filter_None. by left.
  - intros q' n m r _ IH. destruct (decide (q' = q)) as [->|Hne].
    + destruct (in_dir d q); [by rewrite !lookup_insert_eq|done].
    + rewrite (lookup_insert_ne m) by done. destruct (in_dir d q'); [|done]. by rewrite lookup_insert_ne.
Qed.

Lemma evolves_overlay A d t ps : evolves A t ps t (overlay d t <$> ps).
Proof.
  split; [by left|]. intros v d' [->|(v0 & -> & Hv0)%list_elem_of_fmap]%elem_of_cons.
  - exists t. split; [left|by left].
  - destruct (decide (d' = Some d)) as [->|Hne].
    + exists t. split; [left|]. intros q Hq. left. rewrite lookup_overlay.
      unfold in_dir. by rewrite bool_decide_true.
    + exists v0. split; [by right|]. intros q Hq. left. rewrite lookup_overlay.
      unfold in_dir. by rewrite bool_decide_false by congruence.
Qed.

(** ** Triples *)

Definition assertion : Type := tree_t → list tree_t → Prop.

Section Triples.
Context (Inv : assertion).

Definition triple {E A} (P : assertion) (m : st fs E A) (Q : A → assertion) : Prop :=
  ∀ s, P (tree s) (past s) →
  match m s with
  | (s', Ok a) => Q a (tree s') (past s')
  | (s', Err _) => Inv (tree s') (past s')
  end.

Context {E : Type}.
Implicit Types P : assertion.

Lemma triple_ret {A} P (a : A) (Q : A → assertion) :
  (∀ t ps, P t ps → Q a t ps) → triple P (mret a : st fs E A) Q.
Proof. intros HQ s Hs. by apply HQ. Qed.

Lemma triple_throw {A} P (e : E) (Q : A → assertion) :
  (∀ t ps, P t ps → Inv t ps) → triple P (mthrow e : st fs E A) Q.
Proof. intros HQ s Hs. by apply HQ. Qed.

Lemma triple_bind {A B} P (m : st fs E A) (f : A → st fs E B) (R : A → assertion) (Q : B → assertion) :
  triple P m R → (∀ a, triple (R a) (f a) Q) → triple P (m ≫= f) Q.
Proof.
  intros Hm Hf s Hs. specialize (Hm s Hs). unfold mbind, st_bind.
  destruct (m s) as [s' [a|e]]; [by apply Hf|done].
Qed.

Lemma triple_conseq {A} P P' (m : st fs E A) (Q Q' : A → assertion) :
  triple P' m Q' → (∀ t ps, P t ps → P' t ps) → (∀ a t ps, Q' a t ps → Q a t ps) → triple P m Q.
Proof. intros Hm HP HQ s Hs. specialize (Hm s (HP _ _ Hs)). destruct (m s) as [s' [a|e]]; auto. Qed.

Lemma triple_lift {A} P (r : result E A) (Q : A → assertion) :
  (∀ t ps, P t ps → Inv t ps) → (∀ a t ps, r = Ok a → P t ps → Q a t ps) → triple P (st_lift r) Q.
Proof. intros Hi HQ s Hs. unfold st_lift. destruct r; auto. Qed.

Lemma triple_map_err {F A} P (g : E → F) (m : st fs E A) (Q : A → assertion) :
  triple P m Q → triple P (st_map_err g m) Q.
Proof. intros Hm s Hs. specialize (Hm s Hs). unfold st_map_err. by destruct (m s) as [s' [a|e]]. Qed.

Lemma triple_try {F A} P (m : st fs E A) (Q : A → assertion) :
  triple P m Q →
  triple P (try_call m : st fs F (result E A))
    (λ r, match r with Ok a => Q a | Err _ => Inv end).
Proof. intros Hm s Hs. specialize (Hm s Hs). unfold try_call. by destruct (m s) as [s' [a|e]]. Qed.

Lemma triple_get {A} P (f : fs → st fs E A) (Q : A → assertion) :
  (∀ s, triple (λ t ps, P t ps ∧ t = tree s ∧ ps = past s) (f s) Q) → triple P (s ← st_get; f s) Q.
Proof. intros Hf s Hs. rewrite st_get_run. by apply Hf. Qed.

Lemma triple_syscall {A} P (act : io A) (Q : A → assertion) :
  (∀ t ps, P t ps → Inv t ps) → triple P act Q → triple P (syscall act) Q.
Proof.
  intros Hi Hact s Hs. unfold syscall. destruct (next_fault (faults s)) as [[|n k] l].
  - by apply (Hact (set_faults l s)).
  - by apply Hi.
Qed.

Lemma triple_pure {A} (φ : Prop) P (m : st fs E A) (Q : A → assertion) :
  (φ → triple P m Q) → triple (λ t ps, φ ∧ P t ps) m Q.
Proof. intros Hm s [Hφ Hs]. by apply Hm. Qed.

Lemma triple_exists {A X} (P : X → assertion) (m : st fs E A) (Q : A → assertion) :
  (∀ x, triple (P x) m Q) → triple (λ t ps, ∃ x, P x t ps) m Q.
Proof. intros Hm s [x Hs]. by apply (Hm x). Qed.
End Triples.
