(* ===== verification/SecureFs.v ===== *)
(** * Protected files (crates/dbx-rs-secure-store/src/fs.rs and error.rs)

    Private directories, bounded reads, files created once and files replaced
    atomically, with the Unix [cfg] branches. *)

From S2P Require Export FileSystem.

Local Open Scope N_scope.
Local Open Scope dbx_scope.

(** ** Errors (error.rs) *)
Record SecureStoreError := mkSecureError {
  secure_code : string;
  secure_class : string;
  secure_stage : string;
  secure_message : string;
  secure_retryable : bool;
  secure_configuration_error : bool;
  secure_io_kind : option io_kind;
}.

#[global] Instance SecureStoreError_eq_dec : EqDecision SecureStoreError.
Proof. solve_decision. Defined.

Definition SecureStoreError_new (code class stage message : string)
    (retryable configuration_error : bool) : SecureStoreError :=
  mkSecureError code class stage message retryable configuration_error None.
Definition SecureStoreError_io (code stage message : string) (error : io_kind) : SecureStoreError :=
  mkSecureError code "io" stage message false false (Some error).

(** All errors made with [new] in fs.rs are configuration errors. *)
Definition config_error (code stage message : string) : SecureStoreError :=
  SecureStoreError_new code "configuration" stage message false true.

Abbreviation secure A := (st fs SecureStoreError A).

(** ** Permissions (Unix) *)

Definition MODE_PRIVATE_DIR : N := 448.   (* 0o700 *)
Definition MODE_PRIVATE_FILE : N := 384.  (* 0o600 *)
Definition OTHERS : N := 63.              (* 0o077 *)

Definition set_mode (p : path) (mode : N) : secure () :=
  st_map_err (SecureStoreError_io "DBX-RS-FS-0015" "permissions" "failed to protect file permissions")
    (set_permissions p mode).

Definition validate_private_mode (metadata : node) : secure () :=
  reject (config_error "DBX-RS-FS-0020" "permissions" "private directory permissions are too broad")
    when (N.land (node_mode metadata) OTHERS ≠ 0);;
  mret tt.

Definition validate_private_file_mode (metadata : node) : secure () :=
  reject (config_error "DBX-RS-FS-0021" "permissions" "private file permissions are too broad")
    when (N.land (node_mode metadata) OTHERS ≠ 0);;
  mret tt.

(** [File::open(parent).and_then(|file| file.sync_all())]. *)
Definition sync_parent (parent : path) : secure () :=
  st_map_err (SecureStoreError_io "DBX-RS-FS-0016" "directory_sync"
                "failed to synchronize a protected directory")
    (file ← open_existing parent; sync file).

(** ** Paths *)

Definition symlink_error : SecureStoreError :=
  config_error "DBX-RS-FS-0014" "path_validate" "protected paths must not contain symbolic links".
Definition inspect_error : io_kind → SecureStoreError :=
  SecureStoreError_io "DBX-RS-FS-0013" "path_validate" "failed to inspect a protected path".

(** The loop of [reject_existing_ancestor_symlinks] over the remaining ancestors. *)
Fixpoint reject_symlinks (l : list path) : secure () :=
  match l with
  | [] => mret tt
  | ancestor :: l =>
      r ← try_call (symlink_metadata ancestor);
      match r with
      | Ok metadata => if is_symlink metadata then mthrow symlink_error else reject_symlinks l
      | Err NotFound => reject_symlinks l
      | Err error => mthrow (inspect_error error)
      end
  end.
Definition reject_existing_ancestor_symlinks (p : path) : secure () := reject_symlinks (ancestors p).

(** ** Private directories *)

Definition ensure_private_dir (p : path) : secure () :=
  _ ← reject_existing_ancestor_symlinks p;
  _ ← st_map_err (SecureStoreError_io "DBX-RS-FS-0001" "directory_create"
                    "failed to create a private directory") (create_dir_all p);
  _ ← reject_existing_ancestor_symlinks p;
  set_mode p MODE_PRIVATE_DIR.

Definition validate_private_dir (p : path) : secure () :=
  _ ← reject_existing_ancestor_symlinks p;
  metadata ← st_map_err (SecureStoreError_io "DBX-RS-FS-0018" "directory_validate"
                           "failed to inspect a private directory") (symlink_metadata p);
  reject (config_error "DBX-RS-FS-0019" "directory_validate" "private directory has an invalid type")
    when (is_symlink metadata = true ∨ is_dir metadata = false);;
  validate_private_mode metadata.

(** ** Bounded reads *)

Definition invalid_file : SecureStoreError :=
  config_error "DBX-RS-FS-0004" "file_validate" "protected file has an invalid type or size".

(** [usize] holds every [u64], so FS-0017 cannot arise; [bytes.fill(0)] only clears
    memory. *)
Definition read_limited_inner (p : path) (max_bytes : N) (require_private : bool) : secure (list byte) :=
  _ ← reject_existing_ancestor_symlinks p;
  file ← st_map_err (SecureStoreError_io "DBX-RS-FS-0002" "file_open" "failed to open a protected file")
    (open_existing p);
  metadata ← st_map_err (SecureStoreError_io "DBX-RS-FS-0003" "file_metadata"
    "failed to inspect a protected file") (file_metadata file);
  reject invalid_file when (is_file metadata = false ∨ max_bytes < node_len metadata);;
  _ ← (if require_private then validate_private_file_mode metadata else mret tt);
  bytes ← st_map_err (SecureStoreError_io "DBX-RS-FS-0005" "file_read" "failed to read a protected file")
    (read_at_most file (max_bytes + 1));
  reject invalid_file when (max_bytes < lengthN bytes);;
  mret bytes.

Definition read_limited (p : path) (max_bytes : N) : secure (list byte) :=
  read_limited_inner p max_bytes false.
Definition read_private_limited (p : path) (max_bytes : N) : secure (list byte) :=
  read_limited_inner p max_bytes true.

(** ** Writes *)

Definition write_and_sync (file : path) (bytes : list byte) : secure () :=
  _ ← st_map_err (SecureStoreError_io "DBX-RS-FS-0011" "file_write" "failed to write a protected file")
    (write_bytes file bytes);
  st_map_err (SecureStoreError_io "DBX-RS-FS-0012" "file_sync" "failed to synchronize a protected file")
    (sync file).

Definition no_parent (stage : string) : SecureStoreError :=
  config_error "DBX-RS-FS-0006" stage "protected file has no parent directory".

Definition write_new (p : path) (bytes : list byte) (mode : N) : secure () :=
  let_some parent_dir := parent p else (no_parent "file_create");;
  _ ← ensure_private_dir parent_dir;
  file ← st_map_err (SecureStoreError_io "DBX-RS-FS-0007" "file_create"
                       "failed to create a protected file") (open_new p mode);
  _ ← write_and_sync file bytes;
  _ ← set_mode p mode;
  sync_parent parent_dir.

(** [NEXT_TEMP_FILE.fetch_add(1)], which wraps around. *)
Definition fetch_add_next_temp_file : secure N := λ s,
  (mkFs (tree s) (past s) (faults s) (umask s) (process_id s) ((next_temp_file s + 1) mod (u64_max + 1)),
   Ok (next_temp_file s)).

Definition ch (b : byte) : name := [b].

(** [format!(".{file_name}.{}.{sequence}.tmp", std::process::id())]; [2e] is the dot. *)
Definition temp_name (file_name : name) (pid sequence : N) : name :=
  ch x2e ++ file_name ++ ch x2e ++ decimal pid ++ ch x2e ++ decimal sequence
    ++ ch x2e ++ String.list_byte_of_string "tmp".

Definition stage_and_publish (p temp parent_dir : path) (bytes : list byte) (mode : N) : secure () :=
  file ← st_map_err (SecureStoreError_io "DBX-RS-FS-0009" "file_write"
                       "failed to create an atomic staging file") (open_new temp mode);
  _ ← write_and_sync file bytes;
  _ ← set_mode temp mode;
  _ ← st_map_err (SecureStoreError_io "DBX-RS-FS-0010" "file_publish"
                    "failed to publish an atomic file") (rename_file temp p);
  sync_parent parent_dir.

Definition atomic_write (p : path) (bytes : list byte) (mode : N) : secure () :=
  let_some parent_dir := parent p else (no_parent "file_write");;
  _ ← ensure_private_dir parent_dir;
  sequence ← fetch_add_next_temp_file;
  let_some file_name := (file_name p ≫= to_str)
    else (config_error "DBX-RS-FS-0008" "file_write" "protected file name is invalid");;
  s ← st_get;
  let temp := join parent_dir (temp_name file_name (process_id s) sequence) in
  write_result ← try_call (stage_and_publish p temp parent_dir bytes mode);
  match write_result with
  | Ok _ => mret tt
  | Err error =>
      _ ← try_call (F := SecureStoreError) (remove_file temp);
      mthrow error
  end.
