(* ===== verification/SecureFsProps.v ===== *)
(** * Theorems on protected files

    What [ensure_private_dir], [atomic_write] and [read_limited] do to the tree and to
    what a crash can reveal, for every pattern of failures. *)

From S2P Require Export SecureFs FileSystemProps.

Local Open Scope N_scope.

(** ** Reading calls change nothing *)

Lemma resolve_node links t p n : wf_tree t → t !! p = Some n → resolve links t false p = Ok p.
Proof.
  intros Hwf E. destruct p as [|x d _] using rev_ind; [by destruct links|].
  destruct (wf_parent _ Hwf _ _ _ E) as [m Em]. apply resolve_child; [done|by exists m|by left].
Qed.

Lemma locate_eq follow p s : locate follow p s = (s, resolve MAX_LINKS (tree s) follow p).
Proof. done. Qed.

Lemma node_at_eq q s : node_at q s = (s, ok_or NotFound (tree s !! q)).
Proof. done. Qed.

(** A call that only looks at the tree. *)
Definition looks {A} (m : io A) (f : tree_t → result io_kind A) : Prop :=
  ∀ s, ∃ l, (m s).1 = set_faults l s ∧ ((m s).2 = f (tree s) ∨ ∃ k, (m s).2 = Err (Fault k)).

Lemma looks_syscall {A} (act : io A) f : (∀ s, act s = (s, f (tree s))) → looks (syscall act) f.
Proof.
  intros Hact s. unfold syscall. destruct (next_fault (faults s)) as [[|n k] l]; exists l.
  - rewrite Hact. split; [done|by left].
  - split; [done|right; by exists k].
Qed.

Definition look_at (follow : bool) (p : path) (t : tree_t) : result io_kind node :=
  q ← resolve MAX_LINKS t follow p; ok_or NotFound (t !! q).

Lemma symlink_metadata_looks p : looks (symlink_metadata p) (look_at false p).
Proof.
  apply looks_syscall. intros s. unfold mbind, st_bind. rewrite locate_eq. unfold look_at.
  by destruct (resolve MAX_LINKS (tree s) false p).
Qed.

Lemma look_at_node t p n : wf_tree t → t !! p = Some n → look_at false p t = Ok n.
Proof. intros Hwf E. unfold look_at. rewrite (resolve_node _ _ _ _ Hwf E), ok_bind, E. done. Qed.

Lemma set_faults_tree l s : tree (set_faults l s) = tree s.
Proof. done. Qed.

Lemma reject_symlinks_run l s :
  wf_tree (tree s) →
  ∃ fl, (reject_symlinks l s).1 = set_faults fl s
    ∧ ((reject_symlinks l s).2 = Ok tt → ∀ q, q ∈ l → no_link_at (tree s) q).
Proof.
  revert s. induction l as [|a l IH]; intros s Hwf; cbn [reject_symlinks].
  { exists (faults s). split; [by destruct s|]. intros _ q Hq. by apply elem_of_nil in Hq. }
  destruct (symlink_metadata_looks a s) as (fl & E1 & E2).
  unfold mbind, st_bind, try_call. destruct (symlink_metadata a s) as [s1 r1]. cbn [fst snd] in E1, E2. subst s1.
  destruct (IH (set_faults fl s) Hwf) as (fl' & F1 & F2). rewrite set_faults_tree in F2.
  assert (∀ tgt, tree s !! a = Some (Link tgt) → r1 = Ok (Link tgt) ∨ ∃ k, r1 = Err (Fault k)) as Hlink.
  { intros tgt Et. rewrite (look_at_node _ _ _ Hwf Et) in E2. exact E2. }
  assert ((∀ tgt, tree s !! a ≠ Some (Link tgt)) → (reject_symlinks l (set_faults fl s)).2 = Ok tt →
    ∀ q, q ∈ a :: l → no_link_at (tree s) q) as Hgo.
  { intros Ha Hok q [->|Hq]%elem_of_cons; [exact Ha|by apply F2]. }
  destruct r1 as [n|[]]; try (exists fl; by split).
  - destruct (is_symlink n) eqn:En; [exists fl; by split|]. exists fl'. rewrite F1. split; [done|].
    apply Hgo. intros tgt Et. destruct (Hlink tgt Et) as [[= ->]|[k ?]]; done.
  - exists fl'. rewrite F1. split; [done|]. apply Hgo. intros tgt Et. destruct (Hlink tgt Et) as [?|[k ?]]; done.
Qed.

Lemma elem_ancestors p q : q ∈ ancestors p ↔ q `prefix_of` p.
Proof.
  unfold ancestors. rewrite list_elem_of_fmap. setoid_rewrite elem_of_reverse. split.
  - intros (n & -> & _). exists (drop n p). by rewrite take_drop.
  - intros [l ->]. exists (length q). rewrite take_app_length. split; [done|].
    apply elem_of_seq. rewrite length_app. lia.
Qed.

Lemma reject_run p s :
  wf_tree (tree s) →
  ∃ fl, (reject_existing_ancestor_symlinks p s).1 = set_faults fl s
    ∧ ((reject_existing_ancestor_symlinks p s).2 = Ok tt → plain p (tree s)).
Proof.
  intros Hwf. destruct (reject_symlinks_run (ancestors p) s Hwf) as (fl & E & Hok).
  exists fl. split; [done|]. intros Hr q Hq. apply Hok; [done|]. by apply elem_ancestors.
Qed.

(** ** Creating private directories *)

Section EnsureDir.
Context (A : path → option node → Prop) (t0 : tree_t) (ps0 : list tree_t).

(** The invariant of every call below. *)
Definition base : assertion := λ t ps, wf_tree t ∧ evolves A t0 ps0 t ps.

Lemma base_insert t ps q n :
  base t ps → A q (Some n) →
  (match q with [] => is_dir n = true | _ => ∃ d x, q = d ++ [x] ∧ is_dir_at t d end) →
  (is_dir n = true ∨ ¬ is_dir_at t q) →
  base (<[q := n]> t) (t :: ps).
Proof using Type.
  intros [Hwf Hev] Ha Hq Hn. split; [by apply wf_insert|].
  eapply evolves_trans; [done|by apply evolves_insert].
Qed.

Lemma triple_reject p (P : assertion) :
  (∀ t ps, P t ps → base t ps) →
  triple base P (reject_existing_ancestor_symlinks p) (λ _ t ps, P t ps ∧ plain p t).
Proof using Type.
  intros HP s Hs. destruct (reject_run p s) as (fl & E & Hok); [by apply (HP _ (past s))|].
  destruct (reject_existing_ancestor_symlinks p s) as [s' [[]|e]]; cbn in E; subst s'; cbn; auto.
Qed.

Context (d : path).
(** A directory missing before may appear, and [d] becomes private. *)
Context (HAnew : ∀ q m, q `prefix_of` d → t0 !! q = None → A q (Some (Dir m)))
  (HAmode : A d (Some (Dir MODE_PRIVATE_DIR))) (HAnone : ∀ q, q `prefix_of` d → ¬ A q None).

Lemma plain_insert_dir (q : path) (m : N) t p : plain p t → plain p (<[q := Dir m]> t).
Proof using Type.
  intros Hpl r Hr tgt. rewrite lookup_insert_Some. intros [[-> ?]|[_ E]]; [done|]. by apply (Hpl r Hr tgt).
Qed.

Definition based : assertion := λ t ps, base t ps ∧ plain d t.

Lemma triple_mkdir p x :
  p ++ [x] `prefix_of` d →
  triple based based (mkdir (p ++ [x])) (λ _ t ps, based t ps ∧ is_dir_at t (p ++ [x])).
Proof using All.
  intros Hp. apply triple_syscall; [done|]. intros s [Hb Hpl].
  unfold mbind, st_bind. rewrite locate_eq.
  destruct (resolve MAX_LINKS (tree s) false (p ++ [x])) as [q|e] eqn:Er; [|by split].
  assert (q = p ++ [x]) as ->.
  { eapply resolve_plain; [|exact Er]. intros r Hr. apply Hpl. by etrans. }
  destruct (resolve_parent _ _ _ _ _ Er) as [Enil|Hdir]; [by destruct p|].
  cbn. destruct (tree s !! (p ++ [x])) as [n|] eqn:En; [by split|]. cbn.
  split; [split|].
  - apply base_insert; [done| |by destruct (p ++ [x])|by left].
    apply HAnew; [done|]. destruct Hb as [_ [Ht _]].
    destruct (Ht (p ++ [x])) as [E|E]; rewrite En in E; [done|]. by destruct (HAnone (p ++ [x])).
  - by apply plain_insert_dir.
  - eexists. by rewrite lookup_insert_eq.
Qed.

(** [fs::metadata(p).is_dir()] on a path without links. *)
Lemma triple_is_dir p :
  p `prefix_of` d → triple based based (path_is_dir p) (λ b t ps, based t ps ∧ (b = true → is_dir_at t p)).
Proof using Type.
  intros Hp s Hs. pose proof Hs as [Hb Hpl]. unfold path_is_dir, mbind, st_bind, try_call, syscall.
  destruct (next_fault (faults s)) as [[|n k] l]; [|by split]. rewrite locate_eq. cbn [set_faults tree].
  destruct (resolve MAX_LINKS (tree s) true p) as [q|e] eqn:Er; [|by split].
  assert (q = p) as -> by (eapply resolve_plain; [intros r Hr; apply Hpl; by etrans|exact Er]).
  rewrite node_at_eq. cbn. destruct (tree s !! p) as [[m| |]|] eqn:E; cbn; split; (done || by eexists).
Qed.

Lemma triple_mkdir_or_dir p x :
  p ++ [x] `prefix_of` d →
  triple based based (mkdir_or_dir (p ++ [x])) (λ _ t ps, based t ps ∧ is_dir_at t (p ++ [x])).
Proof using All.
  intros Hp. eapply triple_bind; [by apply triple_try, triple_mkdir|].
  intros [[]|e]; cbn beta iota; [by apply triple_ret|]. case_decide; [|by apply triple_throw].
  eapply triple_bind; [by apply triple_is_dir|]. intros [].
  - apply triple_ret. intros t ps [? Hd]. auto.
  - apply triple_throw. by intros t ps [? _].
Qed.

Lemma triple_create_dirs p :
  p `prefix_of` d → triple based based (create_dir_all p) (λ _ t ps, based t ps ∧ is_dir_at t p).
Proof using All.
  unfold create_dir_all. induction p as [|x p IH] using rev_ind; intros Hp.
  { apply triple_ret. intros t ps Hb. split; [done|]. destruct Hb as [[Hwf _] _]. apply (wf_root _ Hwf). }
  assert (p `prefix_of` d) as Hp' by (etrans; [by apply prefix_app_r|done]).
  rewrite length_app, Nat.add_comm. cbn [length Nat.add create_dirs].
  eapply triple_bind; [by apply triple_try, triple_mkdir_or_dir|].
  intros [[]|e]; cbn beta iota; [by apply triple_ret|]. case_decide; [|by apply triple_throw].
  eapply triple_bind; [rewrite take_app_length; by apply IH|]. intros [].
  eapply triple_conseq; [by apply triple_mkdir_or_dir|by intros t ps [? _]|by intros a t ps Hq].
Qed.

Lemma triple_set_dir_mode :
  triple base (λ t ps, base t ps ∧ plain d t ∧ is_dir_at t d) (set_permissions d MODE_PRIVATE_DIR)
    (λ _ t ps, base t ps ∧ plain d t ∧ t !! d = Some (Dir MODE_PRIVATE_DIR)).
Proof using All.
  apply triple_syscall; [by intros t ps [? _]|]. intros s (Hb & Hpl & Hd).
  unfold mbind, st_bind. rewrite locate_eq, resolve_dir by (done || apply Hb).
  rewrite node_at_eq. destruct Hd as [m E]. rewrite E. cbn. split; [|split].
  - apply base_insert; [done|done| |by left]. destruct d as [|y l] eqn:Ed; [done|]. rewrite <- Ed in *.
    assert (∃ l' z, d = l' ++ [z]) as (l' & z & El) by
      (destruct d as [|z l' _] using rev_ind; [done|by eexists _, _]).
    exists l', z. split; [done|]. rewrite El in E. destruct Hb as [Hwf _].
    destruct (wf_parent _ Hwf _ _ _ E) as [m' Em]. by exists m'.
  - by apply plain_insert_dir.
  - by rewrite lookup_insert_eq.
Qed.

Lemma triple_inv (I I' : assertion) {E B} P (m : st fs E B) (Q : B → assertion) :
  (∀ t ps, I t ps → I' t ps) → triple I P m Q → triple I' P m Q.
Proof using Type. intros Hi Hm s Hs. specialize (Hm s Hs). destruct (m s) as [s' [a|e]]; auto. Qed.

Lemma triple_ensure_private_dir :
  triple base base (ensure_private_dir d)
    (λ _ t ps, base t ps ∧ plain d t ∧ t !! d = Some (Dir MODE_PRIVATE_DIR)).
Proof using All.
  unfold ensure_private_dir. eapply triple_bind; [by apply triple_reject|]. intros [].
  eapply triple_bind; [|intros []].
  { apply triple_map_err, (triple_inv based); [by intros t ps [? _]|]. by apply triple_create_dirs. }
  eapply triple_bind; [apply triple_reject; by intros t ps [[? _] _]|]. intros [].
  eapply triple_conseq; [apply triple_map_err, triple_set_dir_mode| |by intros a t ps Hq].
  intros t ps [[[Hb _] Hd] Hpl]. by split_and!.
Qed.
End EnsureDir.

(** ** Staging and publication *)

Section Stage.
Context (A : path → option node → Prop) (t0 : tree_t) (ps0 : list tree_t).
Context (d : path) (tn fn : name) (bytes : list byte) (mode : N).
Context (HAtemp : ∀ n, A (d ++ [tn]) n) (HAnew : A (d ++ [fn]) (Some (Regular mode bytes true))).

Abbreviation inv := (base A t0 ps0).

Definition in_private_dir : assertion := λ t ps, inv t ps ∧ t !! d = Some (Dir MODE_PRIVATE_DIR).
Definition staged (n : node) : assertion := λ t ps, in_private_dir t ps ∧ t !! (d ++ [tn]) = Some n.

Lemma private_inv t ps : in_private_dir t ps → inv t ps.
Proof using Type. by intros [? _]. Qed.

Lemma neq_child (q : path) x : q ++ [x] ≠ q.
Proof using Type. intros E. apply (f_equal length) in E. rewrite length_app in E. cbn in E. lia. Qed.

Lemma put_temp s m c y :
  in_private_dir (tree s) (past s) → ¬ is_dir_at (tree s) (d ++ [tn]) →
  staged (Regular m c y) (<[d ++ [tn] := Regular m c y]> (tree s)) (tree s :: past s).
Proof using All.
  intros [Hb Hd] Hno. split; [split|by rewrite lookup_insert_eq].
  - apply base_insert; [done|apply HAtemp| |by right]. destruct (d ++ [tn]) as [|z l] eqn:El; [by destruct d|].
    rewrite <- El. exists d, tn. split; [done|by eexists].
  - rewrite lookup_insert_ne; [done|apply neq_child].
Qed.

Lemma private_dir_at t ps : in_private_dir t ps → wf_tree t ∧ is_dir_at t d.
Proof using Type. intros [[Hwf _] E]. split; [done|by eexists]. Qed.

Lemma regular_not_dir t q m c y : t !! q = Some (Regular m c y) → ¬ is_dir_at t q ∧ no_link_at t q.
Proof using Type. intros E. split; [intros [m' ?]|intros tgt ?]; congruence. Qed.

Lemma triple_open_temp :
  triple inv in_private_dir (open_new (d ++ [tn]) mode)
    (λ q t ps, q = d ++ [tn] ∧ ∃ m, staged (Regular m [] false) t ps).
Proof using All.
  apply triple_syscall; [apply private_inv|]. intros s Hs.
  destruct (private_dir_at _ _ Hs) as [Hwf Hd].
  unfold mbind, st_bind. rewrite locate_eq, resolve_child by (done || by left). cbn.
  destruct (tree s !! (d ++ [tn])) as [n|] eqn:En; [by apply private_inv|]. cbn.
  split; [done|]. eexists. apply put_temp; [done|]. intros [m' ?]. congruence.
Qed.

Lemma append_temp s m c y more :
  staged (Regular m c y) (tree s) (past s) →
  ∃ s', append (d ++ [tn]) more s = (s', Ok tt) ∧ staged (Regular m (c ++ more) false) (tree s') (past s').
Proof using All.
  intros [Hs E]. unfold append, mbind, st_bind. rewrite node_at_eq, E. cbn. eexists. split; [reflexivity|].
  apply put_temp; [done|by eapply regular_not_dir].
Qed.

Lemma triple_write_temp m y :
  triple inv (staged (Regular m [] y)) (write_bytes (d ++ [tn]) bytes) (λ _, staged (Regular m bytes false)).
Proof using All.
  intros s Hs. unfold write_bytes. destruct (next_fault (faults s)) as [[|n k] l].
  - by destruct (append_temp (set_faults l s) m [] y bytes Hs) as (s' & -> & ?).
  - destruct (append_temp (set_faults l s) m [] y (take n bytes) Hs) as (s' & -> & [Hp _]).
    by apply private_inv.
Qed.

Lemma triple_sync_temp m c y :
  triple inv (staged (Regular m c y)) (sync (d ++ [tn])) (λ _, staged (Regular m c true)).
Proof using All.
  apply triple_syscall; [intros t ps [? _]; by apply private_inv|]. intros s [Hs E].
  unfold mbind, st_bind. rewrite node_at_eq, E. cbn. apply put_temp; [done|by eapply regular_not_dir].
Qed.

Lemma triple_mode_temp m c y :
  triple inv (staged (Regular m c y)) (set_permissions (d ++ [tn]) mode) (λ _, staged (Regular mode c y)).
Proof using All.
  apply triple_syscall; [intros t ps [? _]; by apply private_inv|]. intros s [Hs E].
  destruct (private_dir_at _ _ Hs) as [Hwf Hd]. destruct (regular_not_dir _ _ _ _ _ E).
  unfold mbind, st_bind. rewrite locate_eq, resolve_child by (done || by right).
  rewrite node_at_eq, E. cbn. by apply put_temp.
Qed.

(** The new file is in place in the tree. *)
Definition published_file : assertion := λ t ps,
  in_private_dir t ps ∧ t !! (d ++ [fn]) = Some (Regular mode bytes true).

Lemma triple_rename :
  triple inv (staged (Regular mode bytes true)) (rename_file (d ++ [tn]) (d ++ [fn])) (λ _, published_file).
Proof using All.
  apply triple_syscall; [intros t ps [? _]; by apply private_inv|]. intros s [Hs E].
  destruct (private_dir_at _ _ Hs) as [Hwf Hd]. destruct (regular_not_dir _ _ _ _ _ E) as [Hno _].
  unfold mbind, st_bind. rewrite locate_eq, resolve_child by (done || by left). rewrite locate_eq.
  rewrite resolve_child by (done || by left). rewrite node_at_eq, E. cbn.
  assert (¬ is_dir_at (tree s) (d ++ [fn]) →
    published_file (<[d ++ [fn] := Regular mode bytes true]> (delete (d ++ [tn]) (tree s))) (tree s :: past s)) as Hgo.
  { intros Hnd. destruct Hs as [[_ Hev] Hdir]. split; [split; [split|]|by rewrite lookup_insert_eq].
    - apply wf_insert; [by apply wf_delete| |right].
      + destruct (d ++ [fn]) as [|z l] eqn:El; [by destruct d|]. rewrite <- El. exists d, fn. split; [done|].
        exists MODE_PRIVATE_DIR. rewrite lookup_delete_ne; [done|apply neq_child].
      + intros [m Em]. apply Hnd. exists m. by apply lookup_delete_Some in Em as [_ ?].
    - eapply evolves_trans; [done|]. apply evolves_change. intros q. rewrite lookup_insert, lookup_delete.
      case_decide; [subst; by right|]. case_decide; [subst; by right|by left].
    - rewrite lookup_insert_ne, lookup_delete_ne; [done|apply neq_child..]. }
  destruct (tree s !! (d ++ [fn])) as [[m'|m' c' y'|tgt]|] eqn:Ep; cbn.
  - by apply private_inv.
  - apply Hgo. by eapply regular_not_dir.
  - apply Hgo. intros [m ?]. congruence.
  - apply Hgo. intros [m ?]. congruence.
Qed.

Lemma triple_sync_parent :
  triple inv published_file (sync_parent d)
    (λ _ t ps, published_file t ps ∧ ∀ v, v ∈ t :: ps → v !! (d ++ [fn]) = Some (Regular mode bytes true)).
Proof using All.
  unfold sync_parent. apply triple_map_err.
  eapply (triple_bind _ _ _ _ (λ q t ps, q = d ∧ published_file t ps)).
  - apply triple_syscall; [intros t ps [? _]; by apply private_inv|]. intros s Hs.
    destruct (private_dir_at _ _ (proj1 Hs)) as [Hwf Hd].
    unfold mbind, st_bind. rewrite locate_eq, resolve_dir by done. rewrite node_at_eq.
    destruct Hs as [[Hb Hdir] Hp]. rewrite Hdir. by split_and!.
  - intros q. apply triple_pure. intros ->.
    apply triple_syscall; [intros t ps [? _]; by apply private_inv|]. intros s [[[Hwf Hev] Hdir] Hp].
    unfold mbind, st_bind. rewrite node_at_eq, Hdir. cbn. split; [split; [split|done]; [split; [done|]|done]|].
    + eapply evolves_trans; [done|apply evolves_overlay].
    + intros v [->|(v0 & -> & _)%list_elem_of_fmap]%elem_of_cons; [done|].
      rewrite lookup_overlay. unfold in_dir, parent. rewrite bool_decide_true; [done|].
      destruct (d ++ [fn]) as [|z l] eqn:El; [by destruct d|]. rewrite <- El.
      rewrite length_app. cbn [length]. by rewrite Nat.add_sub, take_app_length.
Qed.

Lemma triple_stage_and_publish :
  triple inv in_private_dir (stage_and_publish (d ++ [fn]) (d ++ [tn]) d bytes mode)
    (λ _ t ps, published_file t ps ∧ ∀ v, v ∈ t :: ps → v !! (d ++ [fn]) = Some (Regular mode bytes true)).
Proof using All.
  unfold stage_and_publish, write_and_sync.
  eapply triple_bind; [apply triple_map_err, triple_open_temp|]. intros q. apply triple_pure. intros ->.
  apply triple_exists. intros m. eapply (triple_bind _ _ _ _ (λ _, staged (Regular m bytes true))).
  { eapply triple_bind; [apply triple_map_err, triple_write_temp|]. intros [].
    apply triple_map_err, triple_sync_temp. }
  intros []. eapply triple_bind; [apply triple_map_err, triple_mode_temp|]. intros [].
  eapply triple_bind; [apply triple_map_err, triple_rename|]. intros []. apply triple_sync_parent.
Qed.

Lemma triple_remove_temp :
  triple inv in_private_dir (remove_file (d ++ [tn])) (λ _, inv).
Proof using All.
  apply triple_syscall; [apply private_inv|]. intros s Hs.
  destruct (private_dir_at _ _ Hs) as [Hwf Hd].
  unfold mbind, st_bind. rewrite locate_eq, resolve_child by (done || by left). rewrite node_at_eq.
  assert (¬ is_dir_at (tree s) (d ++ [tn]) → inv (delete (d ++ [tn]) (tree s)) (tree s :: past s)) as Hgo.
  { intros Hno. destruct Hs as [[_ Hev] _]. split; [by apply wf_delete|]. eapply evolves_trans; [done|].
    apply evolves_change. intros q. rewrite lookup_delete. case_decide; [subst; by right|by left]. }
  destruct (tree s !! (d ++ [tn])) as [[m'|m' c' y'|tgt]|] eqn:Ep; cbn.
  - by apply private_inv.
  - apply Hgo. by eapply regular_not_dir.
  - apply Hgo. intros [m ?]. congruence.
  - by apply private_inv.
Qed.
End Stage.

(** ** The atomic write *)

Definition staging (p q : path) : Prop :=
  ∃ d f pid sequence, parent p = Some d ∧ file_name p = Some f ∧ q = d ++ [temp_name f pid sequence].

(** What an atomic write of [p] may write, the tree being [t0] before it. *)
Definition atomic_writes (p : path) (bytes : list byte) (mode : N) (t0 : tree_t)
    (q : path) (n : option node) : Prop :=
  (∃ d, parent p = Some d ∧ q `prefix_of` d
    ∧ ((t0 !! q = None ∧ ∃ m, n = Some (Dir m)) ∨ (q = d ∧ n = Some (Dir MODE_PRIVATE_DIR))))
  ∨ staging p q
  ∨ (q = p ∧ n = Some (Regular mode bytes true)).

Lemma temp_name_ne f pid sequence : temp_name f pid sequence ≠ f.
Proof.
  intros E. apply (f_equal length) in E. unfold temp_name, ch in E. rewrite !length_app in E. cbn in E. lia.
Qed.

Lemma parent_app d x : parent (d ++ [x]) = Some d.
Proof.
  unfold parent. destruct (d ++ [x]) as [|z l] eqn:E; [by destruct d|]. rewrite <- E.
  rewrite length_app. cbn [length]. by rewrite Nat.add_sub, take_app_length.
Qed.

Lemma file_name_app d x : file_name (d ++ [x]) = Some x.
Proof. apply last_snoc. Qed.

Lemma parent_some p d : parent p = Some d → ∃ x, p = d ++ [x].
Proof.
  destruct p as [|x p _] using rev_ind; [done|]. rewrite parent_app. intros [= ->]. by exists x.
Qed.

Section AtomicWrite.
Context (bytes : list byte) (mode : N).

Lemma ensure_private_dir_run d s s' r :
  wf_tree (tree s) → ensure_private_dir d s = (s', r) →
  let A q n := q `prefix_of` d
    ∧ ((tree s !! q = None ∧ ∃ m, n = Some (Dir m)) ∨ (q = d ∧ n = Some (Dir MODE_PRIVATE_DIR))) in
  base A (tree s) (past s) (tree s') (past s')
  ∧ (r = Ok tt → plain d (tree s') ∧ tree s' !! d = Some (Dir MODE_PRIVATE_DIR)).
Proof using Type.
  intros Hwf Hrun A.
  assert (triple (base A (tree s) (past s)) (base A (tree s) (past s)) (ensure_private_dir d)
    (λ _ t ps, base A (tree s) (past s) t ps ∧ plain d t ∧ t !! d = Some (Dir MODE_PRIVATE_DIR))) as Htr.
  { apply triple_ensure_private_dir.
    - intros q m Hq E. split; [done|]. left. split; [done|by eexists].
    - split; [done|by right].
    - intros q Hq (_ & [[_ [m ?]]|[_ ?]]); done. }
  specialize (Htr s (conj Hwf (evolves_refl _ _ _))). rewrite Hrun in Htr.
  destruct r as [[]|e]; [destruct Htr as (? & ? & ?)|]; by split_and!.
Qed.

Lemma base_trans (A B C : path → option node → Prop) t0 ps0 t1 ps1 t ps :
  base A t0 ps0 t1 ps1 → base B t1 ps1 t ps →
  (∀ q n, A q n → C q n) → (∀ q n, B q n → C q n) → base C t0 ps0 t ps.
Proof using Type.
  intros [_ H1] [Hwf H2] HA HB. split; [done|].
  eapply evolves_trans; [exact (evolves_mono _ _ _ _ _ _ HA H1)|exact (evolves_mono _ _ _ _ _ _ HB H2)].
Qed.

(** From the point where the directory is private. *)
Lemma stage_run d tn fn s s' r :
  wf_tree (tree s) → tree s !! d = Some (Dir MODE_PRIVATE_DIR) →
  (write_result ← try_call (stage_and_publish (d ++ [fn]) (d ++ [tn]) d bytes mode);
   match write_result with
   | Ok _ => mret tt
   | Err error => _ ← try_call (F := SecureStoreError) (remove_file (d ++ [tn])); mthrow error
   end) s = (s', r) →
  let A q n := q = d ++ [tn] ∨ (q = d ++ [fn] ∧ n = Some (Regular mode bytes true)) in
  base A (tree s) (past s) (tree s') (past s')
  ∧ (r = Ok tt → tree s' !! (d ++ [fn]) = Some (Regular mode bytes true)
      ∧ ∀ v, v ∈ versions s' → v !! (d ++ [fn]) = Some (Regular mode bytes true)).
Proof using Type.
  intros Hwf Hd Hrun A. set (I := base A (tree s) (past s)).
  assert (∀ n, A (d ++ [tn]) n) as HAt by by left.
  assert (A (d ++ [fn]) (Some (Regular mode bytes true))) as HAp by by right.
  assert (∀ t ps, I t ps → in_private_dir A (tree s) (past s) d t ps) as Hpriv.
  { intros t ps Hb. split; [done|]. destruct Hb as [_ [Ht _]]. destruct (Ht d) as [->|[E|[E _]]]; [done|..];
      by apply (f_equal length) in E; rewrite length_app in E; cbn in E; lia. }
  assert (I (tree s) (past s)) as H1 by (split; [done|apply evolves_refl]).
  pose proof (triple_stage_and_publish A _ (past s) d tn fn bytes mode HAt HAp s (Hpriv _ _ H1)) as Hst.
  unfold mbind, st_bind, try_call in Hrun.
  destruct (stage_and_publish _ _ _ _ _ s) as [s1 [[]|e]].
  - injection Hrun as <- <-. destruct Hst as [[[Hb _] Hp] Hv]. by split_and!.
  - pose proof (triple_remove_temp A _ (past s) d tn fn bytes mode HAt HAp s1 (Hpriv _ _ Hst)) as Hrm.
    destruct (remove_file (d ++ [tn]) s1) as [s2 [[]|e2]]; injection Hrun as <- <-; by split.
Qed.

Lemma atomic_write_run p s s' r :
  wf_tree (tree s) → atomic_write p bytes mode s = (s', r) →
  base (atomic_writes p bytes mode (tree s)) (tree s) (past s) (tree s') (past s')
  ∧ (r = Ok tt → tree s' !! p = Some (Regular mode bytes true)
      ∧ (∀ d, parent p = Some d → tree s' !! d = Some (Dir MODE_PRIVATE_DIR))
      ∧ ∀ v, v ∈ versions s' → v !! p = Some (Regular mode bytes true)).
Proof using Type.
  intros Hwf Hrun. unfold atomic_write in Hrun.
  destruct (parent p) as [d|] eqn:Ep; [|injection Hrun as <- <-; split; [split; [done|apply evolves_refl]|done]].
  pose proof (parent_some _ _ Ep) as [fn ->]. rewrite file_name_app, some_bind in Hrun.
  unfold mbind at 1, st_bind at 1 in Hrun.
  destruct (ensure_private_dir d s) as [s1 r1] eqn:E1.
  destruct (ensure_private_dir_run _ _ _ _ Hwf E1) as [Hb1 Hd1].
  assert (∀ q n, (q `prefix_of` d ∧ ((tree s !! q = None ∧ ∃ m, n = Some (Dir m)) ∨
    (q = d ∧ n = Some (Dir MODE_PRIVATE_DIR)))) → atomic_writes (d ++ [fn]) bytes mode (tree s) q n) as HA1.
  { intros q n [Hq Hn]. left. by exists d. }
  assert (base (atomic_writes (d ++ [fn]) bytes mode (tree s)) (tree s) (past s) (tree s1) (past s1)) as Hb1'.
  { destruct Hb1 as [? Hev]. split; [done|]. exact (evolves_mono _ _ _ _ _ _ HA1 Hev). }
  destruct r1 as [[]|e1]; [|injection Hrun as <- <-; by split].
  destruct (Hd1 eq_refl) as [_ Hd]. clear E1 Hd1.
  unfold mbind at 1, st_bind at 1, fetch_add_next_temp_file in Hrun. cbv beta iota in Hrun.
  destruct (to_str fn) as [fn'|] eqn:Es; [|injection Hrun as <- <-; by split].
  assert (fn' = fn) as -> by (unfold to_str in Es; destruct (utf8 fn); congruence).
  rewrite st_get_run in Hrun. cbv zeta in Hrun. apply stage_run in Hrun as [Hb2 Hok]; [|apply Hb1|exact Hd].
  split.
  - eapply base_trans; [exact Hb1'|exact Hb2|done|]. cbn beta. intros q n [->|[-> ->]].
    + right; left. eexists d, fn, _, _. rewrite parent_app, file_name_app. split_and!; [done|done|reflexivity].
    + by right; right.
  - intros Hr. destruct (Hok Hr) as [Hp Hv]. split; [exact Hp|]. split; [|exact Hv].
    intros d' E. injection E as <-.
    destruct Hb2 as [_ [Ht _]]. destruct (Ht d) as [->|[E|[E _]]]; [done|..];
      by apply (f_equal length) in E; unfold join in E; rewrite length_app in E; cbn in E; lia.
Qed.
End AtomicWrite.

(** ** What a crash leaves *)

Lemma parent_not_above p d : parent p = Some d → ¬ p `prefix_of` d.
Proof.
  intros [x ->]%parent_some Hp%prefix_length. rewrite length_app in Hp. cbn in Hp. lia.
Qed.

Lemma parent_above p d q : parent p = Some d → q `prefix_of` d → q `prefix_of` p.
Proof. intros [x ->]%parent_some Hq. by apply prefix_app_r. Qed.

Lemma not_staging_self p : ¬ staging p p.
Proof.
  intros (d & f & pid & sequence & Hd & Hf & E). apply parent_some in Hd as [x ->].
  rewrite file_name_app in Hf. injection Hf as ->. apply (inj (app d)) in E. injection E as E.
  by apply (temp_name_ne f pid sequence).
Qed.

Lemma atomic_writes_self p bytes mode t n :
  atomic_writes p bytes mode t p n → n = Some (Regular mode bytes true).
Proof.
  intros [(d & Hd & Hp & _)|[Hs|[_ ->]]]; [|by apply not_staging_self in Hs|done].
  by apply parent_not_above in Hp.
Qed.

Lemma atomic_writes_other p bytes mode t q n :
  q ≠ p → ¬ staging p q → ¬ q `prefix_of` p → ¬ atomic_writes p bytes mode t q n.
Proof.
  intros Hne Hs Hq [(d & Hd & Hp & _)|[?|[? _]]]; [|done|done]. apply Hq. by eapply parent_above.
Qed.

(** What an atomic write does to its own path. *)
Lemma atomic_write_self p bytes mode s s' r :
  wf_tree (tree s) → atomic_write p bytes mode s = (s', r) →
  (tree s' !! p = tree s !! p ∨ tree s' !! p = Some (Regular mode bytes true))
  ∧ (∀ v, v ∈ versions s' → (∃ v0, v0 ∈ versions s ∧ v0 !! p = v !! p) ∨ v !! p = Some (Regular mode bytes true))
  ∧ (r = Ok tt → (∀ v, v ∈ versions s' → v !! p = Some (Regular mode bytes true))
       ∧ ∀ d, parent p = Some d → tree s' !! d = Some (Dir MODE_PRIVATE_DIR)).
Proof.
  intros Hwf Hrun. destruct (atomic_write_run _ _ _ _ _ _ Hwf Hrun) as [[_ [Ht Hv]%evolves_paths] Hok].
  split; [|split].
  - destruct (Ht p) as [|E%atomic_writes_self]; [by left|by right].
  - intros v Hin. destruct (Hv v p Hin) as [|E%atomic_writes_self]; [by left|by right].
  - intros (_ & Hd & Hall)%Hok. by split.
Qed.

(** The directories above the parent stay as they are. *)
Lemma atomic_write_ancestors d x bytes mode s s' r q m :
  wf_tree (tree s) → atomic_write (d ++ [x]) bytes mode s = (s', r) →
  q `prefix_of` d → q ≠ d → tree s !! q = Some (Dir m) → tree s' !! q = Some (Dir m).
Proof.
  intros Hwf Hrun Hq Hne Em. destruct (atomic_write_run _ _ _ _ _ _ Hwf Hrun) as [[_ [Ht _]] _].
  destruct (Ht q) as [->|E]; [done|]. exfalso.
  destruct E as [(d' & Hd & _ & [[Ha _]|[-> _]])|[(d' & f & pid & sequence & Hd & _ & ->)|[-> _]]].
  - congruence.
  - rewrite parent_app in Hd. by injection Hd as ->.
  - rewrite parent_app in Hd. injection Hd as ->. by apply prefix_snoc_not in Hq.
  - by apply prefix_snoc_not in Hq.
Qed.

Lemma survives_regular m c n : survives (Some (Regular m c true)) n → n = Some (Regular m c true).
Proof. by inversion 1. Qed.


(** ** Bounded reads *)

Lemma syscall_ok {A} (act : io A) s s' a :
  syscall act s = (s', Ok a) → ∃ l, act (set_faults l s) = (s', Ok a).
Proof. unfold syscall. destruct (next_fault (faults s)) as [[|n k] l]; [eauto|done]. Qed.

Lemma locate_ok follow p s s' q :
  locate follow p s = (s', Ok q) ↔ s' = s ∧ resolve MAX_LINKS (tree s) follow p = Ok q.
Proof. unfold locate. rewrite st_get_run. apply st_lift_ok. Qed.

Lemma node_at_ok q s s' n : node_at q s = (s', Ok n) ↔ s' = s ∧ tree s !! q = Some n.
Proof. unfold node_at. rewrite st_get_run, st_lift_ok, ok_or_ok. done. Qed.

Lemma reject_ok p s s' :
  wf_tree (tree s) → reject_existing_ancestor_symlinks p s = (s', Ok tt) →
  ∃ l, s' = set_faults l s ∧ plain p (tree s).
Proof.
  intros Hwf Hrun. destruct (reject_run p s Hwf) as (l & E & Hok). rewrite Hrun in E, Hok. eauto.
Qed.

Lemma open_existing_ok p s s' q :
  plain p (tree s) → open_existing p s = (s', Ok q) → ∃ l, s' = set_faults l s ∧ q = p.
Proof.
  intros Hpl (l & Hrun)%syscall_ok. exists l.
  apply st_bind_ok in Hrun as (q' & s1 & [-> Er]%locate_ok & Hrun).
  apply (resolve_plain _ _ _ _ _ Hpl) in Er as ->.
  apply st_bind_ok in Hrun as (n & s2 & [-> _]%node_at_ok & Hrun). by injection Hrun as <- <-.
Qed.

Lemma file_metadata_ok q s s' n :
  file_metadata q s = (s', Ok n) → ∃ l, s' = set_faults l s ∧ tree s !! q = Some n.
Proof. intros (l & [-> E]%node_at_ok)%syscall_ok. by exists l. Qed.

Lemma read_at_most_ok q limit s s' bytes :
  read_at_most q limit s = (s', Ok bytes) →
  ∃ l m c y, s' = set_faults l s ∧ tree s !! q = Some (Regular m c y) ∧ bytes = take (N.to_nat (N.min limit (lengthN c))) c.
Proof.
  intros (l & Hrun)%syscall_ok. exists l. apply st_bind_ok in Hrun as (n & s1 & [-> E]%node_at_ok & Hrun).
  destruct n as [m|m c y|t]; [done| |done]. injection Hrun as <- <-. by exists m, c, y.
Qed.

Lemma validate_private_file_mode_ok n s s' :
  validate_private_file_mode n s = (s', Ok tt) → s' = s ∧ N.land (node_mode n) OTHERS = 0.
Proof.
  unfold validate_private_file_mode. case_decide as Hm; [done|]. intros [= <-].
  by split.
Qed.

Lemma read_limited_ok p max priv s s' bytes :
  wf_tree (tree s) → read_limited_inner p max priv s = (s', Ok bytes) →
  plain p (tree s) ∧ (∃ m y, tree s !! p = Some (Regular m bytes y) ∧ (priv = true → N.land m OTHERS = 0))
  ∧ lengthN bytes ≤ max ∧ ∃ l, s' = set_faults l s.
Proof.
  intros Hwf Hrun. unfold read_limited_inner in Hrun.
  apply st_bind_ok in Hrun as ([] & s1 & (l1 & -> & Hpl)%reject_ok & Hrun); [|done].
  apply st_bind_ok in Hrun as (q & s1 & E%st_map_err_ok & Hrun).
  apply open_existing_ok in E as (l2 & -> & ->); [|done].
  apply st_bind_ok in Hrun as (n & s1 & (l3 & -> & En)%st_map_err_ok%file_metadata_ok & Hrun).
  cbn [set_faults tree] in En. case_decide as Hcheck; [done|].
  apply st_bind_ok in Hrun as ([] & s1 & Epriv & Hrun).
  assert (s1 = set_faults l3 s ∧ (priv = true → N.land (node_mode n) OTHERS = 0)) as [-> Hp].
  { destruct priv; [|injection Epriv as <-; by split]. apply validate_private_file_mode_ok in Epriv as [-> ?]. by split. }
  apply st_bind_ok in Hrun as (c & s2 & (l4 & m & c' & y & -> & En' & ->)%st_map_err_ok%read_at_most_ok & Hrun).
  cbn [set_faults tree] in En'. rewrite En in En'. injection En' as ->. cbn [is_file node_len node_mode] in *.
  case_decide as Hlen; [done|]. injection Hrun as <- <-.
  assert (lengthN c' ≤ max) as Hmax by (apply N.nlt_ge; intros ?; apply Hcheck; by right).
  rewrite take_ge in * by (unfold lengthN in *; lia).
  split; [done|]. split; [by exists m, y|]. split; [done|]. by exists l4.
Qed.

(** ** Footprints

    The paths a computation may write, and with what, under every fault schedule. *)
Definition footprint (A : path → option node → Prop) {E B} (m : st fs E B) : Prop :=
  ∀ s, wf_tree (tree s) → base A (tree s) (past s) (tree (m s).1) (past (m s).1).

Section Footprints.
Context (A : path → option node → Prop).

Lemma base_refl s : wf_tree (tree s) → base A (tree s) (past s) (tree s) (past s).
Proof using Type. intros Hwf. split; [done|apply evolves_refl]. Qed.

Lemma base_mono (B : path → option node → Prop) t0 ps0 t ps :
  (∀ q n, B q n → A q n) → base B t0 ps0 t ps → base A t0 ps0 t ps.
Proof using Type. intros HBA [? Hev]. split; [done|]. exact (evolves_mono _ _ _ _ _ _ HBA Hev). Qed.

Lemma footprint_mono (B : path → option node → Prop) {E X} (m : st fs E X) :
  (∀ q n, B q n → A q n) → footprint B m → footprint A m.
Proof using Type. intros HBA Hm s Hwf. eapply base_mono; [exact HBA|by apply Hm]. Qed.

Lemma footprint_ret {E X} (x : X) : footprint A (mret x : st fs E X).
Proof using Type. intros s. apply base_refl. Qed.
Lemma footprint_throw {E X} (e : E) : footprint A (mthrow e : st fs E X).
Proof using Type. intros s. apply base_refl. Qed.
Lemma footprint_bind {E X Y} (m : st fs E X) (f : X → st fs E Y) :
  footprint A m → (∀ x, footprint A (f x)) → footprint A (m ≫= f).
Proof using Type.
  intros Hm Hf s Hwf. specialize (Hm s Hwf). unfold mbind, st_bind.
  destruct (m s) as [s1 [x|e]]; [|done]. cbn [fst] in Hm.
  eapply base_trans; [exact Hm|apply Hf, Hm|done|done].
Qed.
Lemma footprint_map_err {E F X} (g : E → F) (m : st fs E X) : footprint A m → footprint A (st_map_err g m).
Proof using Type. intros Hm s Hwf. specialize (Hm s Hwf). unfold st_map_err. by destruct (m s). Qed.
Lemma footprint_try {E F X} (m : st fs E X) : footprint A m → footprint A (try_call m : st fs F _).
Proof using Type. intros Hm s Hwf. specialize (Hm s Hwf). unfold try_call. by destruct (m s). Qed.
End Footprints.

Lemma footprint_ensure_private_dir d :
  footprint (λ q _, q `prefix_of` d) (ensure_private_dir d).
Proof.
  intros s Hwf. destruct (ensure_private_dir d s) as [s' r] eqn:E.
  destruct (ensure_private_dir_run _ _ _ _ Hwf E) as [Hb _]. eapply base_mono; [|exact Hb]. by intros q n [? _].
Qed.

Lemma footprint_atomic_write d x bytes mode :
  footprint (λ q n, q `prefix_of` d ∨ staging (d ++ [x]) q ∨ q = d ++ [x] ∧ n = Some (Regular mode bytes true))
    (atomic_write (d ++ [x]) bytes mode).
Proof.
  intros s Hwf. destruct (atomic_write (d ++ [x]) bytes mode s) as [s' r] eqn:E.
  destruct (atomic_write_run _ _ _ _ _ _ Hwf E) as [Hb _]. eapply base_mono; [|exact Hb].
  intros q n [(d' & Hd & Hq & _)|?]; [left|by right]. rewrite parent_app in Hd. by injection Hd as ->.
Qed.

(** Staging files are hidden files of the same directory. *)
Lemma staging_child d x q : staging (d ++ [x]) q → ∃ l, q = d ++ [x2e :: l].
Proof.
  intros (d' & f & pid & sequence & Hd & _ & ->). rewrite parent_app in Hd. injection Hd as ->.
  by eexists.
Qed.

Lemma footprint_write_new d x bytes mode :
  footprint (λ q _, q `prefix_of` d ∨ q = d ++ [x]) (write_new (d ++ [x]) bytes mode).
Proof.
  intros s Hwf. destruct (write_new (d ++ [x]) bytes mode s) as [s' r] eqn:Hrun. cbn [fst].
  unfold write_new in Hrun. rewrite parent_app in Hrun. unfold mbind at 1, st_bind at 1 in Hrun.
  destruct (ensure_private_dir d s) as [s1 r1] eqn:E1.
  destruct (ensure_private_dir_run _ _ _ _ Hwf E1) as [Hb1 Hok].
  apply (base_mono (λ q _, q `prefix_of` d ∨ q = d ++ [x])) in Hb1; [|by intros q n [? _]; left].
  destruct r1 as [[]|e1]; [|by injection Hrun as <- _]. destruct (Hok eq_refl) as [_ Hd].
  eapply base_trans; [exact Hb1| |intros q n Hq; exact Hq|intros q n Hq; right; exact Hq].
  set (A := λ (q : path) (_ : option node), q = d ++ [x]). destruct Hb1 as [Hwf1 _].
  assert (triple (base A (tree s1) (past s1)) (in_private_dir A (tree s1) (past s1) d)
    (file ← st_map_err (SecureStoreError_io "DBX-RS-FS-0007" "file_create" "failed to create a protected file")
              (open_new (d ++ [x]) mode);
     _ ← write_and_sync file bytes; _ ← set_mode (d ++ [x]) mode; sync_parent d)
    (λ _, base A (tree s1) (past s1))) as Htr.
  { eapply triple_bind; [apply triple_map_err, (triple_open_temp _ _ _ _ x x bytes mode); by intros|].
    intros q. apply triple_pure. intros ->. apply triple_exists. intros m.
    eapply (triple_bind _ _ _ _ (λ _, staged A (tree s1) (past s1) d x (Regular m bytes true))).
    { eapply triple_bind; [apply triple_map_err, (triple_write_temp _ _ _ _ x x bytes mode); by intros|]. intros [].
      apply triple_map_err, (triple_sync_temp _ _ _ _ x x bytes mode); by intros. }
    intros []. eapply triple_bind; [apply triple_map_err, (triple_mode_temp _ _ _ _ x x bytes mode); by intros|].
    intros []. eapply triple_conseq; [apply (triple_sync_parent _ _ _ _ x x bytes mode); by intros| |].
    - by intros t ps [? ?].
    - by intros [] t ps [[[? _] _] _]. }
  assert (in_private_dir A (tree s1) (past s1) d (tree s1) (past s1)) as Hp by (split; [by apply base_refl|done]).
  specialize (Htr s1 Hp). rewrite Hrun in Htr. by destruct r as [[]|e].
Qed.

(** ** Calls when nothing fails *)

Definition quiet (s : fs) : Prop := faults s = [].

Lemma quiet_syscall {A} (act : io A) s : quiet s → syscall act s = act s.
Proof. unfold quiet, syscall. destruct s; cbn. by intros ->. Qed.

Lemma quiet_symlink_metadata p s : quiet s → symlink_metadata p s = (s, look_at false p (tree s)).
Proof.
  intros Hq. unfold symlink_metadata. rewrite quiet_syscall by done. unfold mbind, st_bind.
  rewrite locate_eq. unfold look_at. by destruct (resolve MAX_LINKS (tree s) false p).
Qed.

Lemma quiet_found p n s : quiet s → wf_tree (tree s) → tree s !! p = Some n → symlink_metadata p s = (s, Ok n).
Proof. intros Hq Hwf E. rewrite quiet_symlink_metadata by done. by rewrite (look_at_node _ _ _ Hwf E). Qed.

Lemma quiet_reject p n s :
  quiet s → wf_tree (tree s) → plain p (tree s) → tree s !! p = Some n →
  reject_existing_ancestor_symlinks p s = (s, Ok tt).
Proof.
  intros Hq Hwf Hpl En. unfold reject_existing_ancestor_symlinks.
  assert (∀ q, q ∈ ancestors p → ∃ n, tree s !! q = Some n ∧ is_symlink n = false) as Hall.
  { intros q Hin%elem_ancestors. assert (∃ n, tree s !! q = Some n) as [n' E].
    { destruct Hin as [l ->]. destruct l as [|y l]; [rewrite app_nil_r in En; by eexists|].
      destruct (wf_prefix_dir _ q (y :: l) _ Hwf En) as [m E]; [done|]. by eexists. }
    exists n'. split; [done|]. destruct n'; [done|done|]. by destruct (Hpl q Hin target). }
  induction (ancestors p) as [|a l IH]; [done|]. cbn [reject_symlinks].
  destruct (Hall a) as (na & Ea & Hs); [left|]. unfold mbind, st_bind, try_call.
  rewrite (quiet_found a na) by done. rewrite Hs. apply IH. intros q Hin. apply Hall. by right.
Qed.

(** A file that is found has no link above it. *)
Lemma plain_regular t p m c y : wf_tree t → t !! p = Some (Regular m c y) → plain p t.
Proof.
  intros Hwf E q [l Eq]. destruct l as [|z l]; [rewrite app_nil_r in Eq; subst q; intros tgt; congruence|].
  rewrite Eq in E. apply is_dir_no_link. by eapply (wf_prefix_dir _ q (z :: l)).
Qed.

Lemma quiet_read_limited_inner p max priv m c y s :
  quiet s → wf_tree (tree s) → plain p (tree s) → tree s !! p = Some (Regular m c y) → lengthN c ≤ max →
  (priv = true → N.land m OTHERS = 0) →
  read_limited_inner p max priv s = (s, Ok c).
Proof.
  intros Hq Hwf Hpl E Hlen Hpriv. unfold read_limited_inner.
  assert (resolve MAX_LINKS (tree s) true p = Ok p) as Hres.
  { destruct p as [|x d _] using rev_ind; [by apply resolve_dir; [|apply wf_root]|].
    destruct (wf_parent _ Hwf _ _ _ E) as [m' Em]. apply resolve_child; [done|by exists m'|right].
    by apply Hpl. }
  rewrite (st_bind_run _ _ _ s tt) by (by eapply quiet_reject).
  rewrite (st_bind_run _ _ _ s p).
  2: { apply st_map_err_ok. unfold open_existing. rewrite quiet_syscall by done.
       rewrite (st_bind_run _ _ _ s p) by (by apply locate_ok).
       by rewrite (st_bind_run _ _ _ s (Regular m c y)) by (by apply node_at_ok). }
  rewrite (st_bind_run _ _ _ s (Regular m c y)).
  2: { apply st_map_err_ok. unfold file_metadata. rewrite quiet_syscall by done. by apply node_at_ok. }
  rewrite decide_False by (cbn; intros [?|?]; [done|lia]).
  rewrite (st_bind_run _ _ _ s tt).
  2: { destruct priv; [|done]. unfold validate_private_file_mode. cbn [node_mode].
       rewrite Hpriv by done. by rewrite decide_False by (by intros []). }
  rewrite (st_bind_run _ _ _ s c).
  2: { apply st_map_err_ok. unfold read_at_most. rewrite quiet_syscall by done.
       rewrite (st_bind_run _ _ _ s (Regular m c y)) by (by apply node_at_ok).
       rewrite take_ge; [done|]. unfold lengthN in *. lia. }
  by rewrite decide_False by lia.
Qed.
Lemma quiet_read_limited p max m c y s :
  quiet s → wf_tree (tree s) → plain p (tree s) → tree s !! p = Some (Regular m c y) → lengthN c ≤ max →
  read_limited p max s = (s, Ok c).
Proof. intros. by eapply quiet_read_limited_inner. Qed.
