(* ===== verification/FileReads.v ===== *)
(** * Computations that only read the disk

    [read_only] is closed under the operations of the file system monad; the [ro]
    hints and the [read_only] tactic prove it for every reader of the storage crates. *)

From S2P Require Export SecureFsProps.

Definition read_only {E A} (m : st fs E A) : Prop := ∀ s, ∃ l, (m s).1 = set_faults l s.

Lemma set_faults_same s : set_faults (faults s) s = s.
Proof. by destruct s. Qed.

Lemma ro_ret {E A} (a : A) : read_only (mret a : st fs E A).
Proof. intros s. exists (faults s). by rewrite set_faults_same. Qed.
Lemma ro_throw {E A} (e : E) : read_only (mthrow e : st fs E A).
Proof. intros s. exists (faults s). by rewrite set_faults_same. Qed.
Lemma ro_lift {E A} (r : result E A) : read_only (st_lift r : st fs E A).
Proof. intros s. exists (faults s). by rewrite set_faults_same. Qed.
Lemma ro_get {E} : read_only (st_get : st fs E fs).
Proof. intros s. exists (faults s). by rewrite set_faults_same. Qed.
Lemma ro_bind {E A B} (m : st fs E A) (f : A → st fs E B) :
  read_only m → (∀ a, read_only (f a)) → read_only (m ≫= f).
Proof.
  intros Hm Hf s. destruct (Hm s) as [l E1]. unfold mbind, st_bind.
  destruct (m s) as [s1 [a|e]]; cbn in E1; subst s1; [|by exists l].
  destruct (Hf a (set_faults l s)) as [l' E2]. exists l'. by rewrite E2.
Qed.
Lemma ro_map_err {E F A} (g : E → F) (m : st fs E A) : read_only m → read_only (st_map_err g m).
Proof. intros Hm s. destruct (Hm s) as [l E1]. exists l. unfold st_map_err. by destruct (m s). Qed.
Lemma ro_try {E F A} (m : st fs E A) : read_only m → read_only (try_call m : st fs F _).
Proof. intros Hm s. destruct (Hm s) as [l E1]. exists l. unfold try_call. by destruct (m s). Qed.
Lemma ro_syscall {A} (m : io A) : read_only m → read_only (syscall m).
Proof.
  intros Hm s. unfold syscall. destruct (next_fault (faults s)) as [[|n k] l]; [|by exists l].
  destruct (Hm (set_faults l s)) as [l' E]. exists l'. by rewrite E.
Qed.

Create HintDb ro.
#[export] Hint Resolve ro_ret ro_throw ro_lift ro_get ro_bind ro_map_err ro_try ro_syscall : ro.

Ltac read_only :=
  repeat first
    [ done
    | solve [eauto with ro]
    | apply ro_bind; [|intros ?]
    | apply ro_map_err | apply ro_try | apply ro_syscall
    | case_decide | case_match ].

Lemma ro_locate follow p : read_only (locate follow p).
Proof. unfold locate. read_only. Qed.
Lemma ro_node_at q : read_only (node_at q).
Proof. unfold node_at. read_only. Qed.
#[export] Hint Resolve ro_locate ro_node_at : ro.
Lemma ro_symlink_metadata p : read_only (symlink_metadata p).
Proof. unfold symlink_metadata. read_only. Qed.
Lemma ro_open_existing p : read_only (open_existing p).
Proof. unfold open_existing. read_only. Qed.
Lemma ro_file_metadata p : read_only (file_metadata p).
Proof. unfold file_metadata. read_only. Qed.
Lemma ro_read_at_most p n : read_only (read_at_most p n).
Proof. unfold read_at_most. read_only. Qed.
Lemma ro_read_dir p : read_only (read_dir p).
Proof. unfold read_dir. read_only. Qed.
#[export] Hint Resolve ro_symlink_metadata ro_open_existing ro_file_metadata ro_read_at_most ro_read_dir : ro.
Lemma ro_reject_symlinks l : read_only (reject_symlinks l).
Proof. induction l; cbn [reject_symlinks]; read_only. Qed.
#[export] Hint Resolve ro_reject_symlinks : ro.

(** [Path::exists], and names that are text. *)
Lemma ro_path_exists {E} p : read_only (path_exists (E := E) p).
Proof. unfold path_exists. read_only. Qed.
#[export] Hint Resolve ro_path_exists : ro.
Lemma utf8_ascii l : Forall (λ b, (Byte.to_N b < 128)%N) l → utf8 l = true.
Proof. induction 1 as [|b l Hb _ IH]; [done|]. cbn [utf8]. by rewrite decide_True. Qed.
Lemma ro_read_limited p n b : read_only (read_limited_inner p n b).
Proof. unfold read_limited_inner, reject_existing_ancestor_symlinks, validate_private_file_mode. read_only. Qed.
#[export] Hint Resolve ro_read_limited : ro.

Lemma footprint_read_only A {E B} (m : st fs E B) : read_only m → footprint A m.
Proof.
  intros Hm s Hwf. destruct (Hm s) as [l ->]. by apply (base_refl A s).
Qed.

(** ** What a successful read establishes *)

Lemma symlink_metadata_ok p s s' n :
  symlink_metadata p s = (s', Ok n) → ∃ l, s' = set_faults l s ∧ look_at false p (tree s) = Ok n.
Proof.
  intros Hrun. destruct (symlink_metadata_looks p s) as (l & E1 & E2). rewrite Hrun in E1, E2. cbn [fst snd] in *.
  exists l. split; [done|]. by destruct E2 as [<-|[k ?]].
Qed.

Lemma symlink_metadata_missing p s s' :
  wf_tree (tree s) → symlink_metadata p s = (s', Err NotFound) →
  ∃ l, s' = set_faults l s ∧ tree s !! p = None.
Proof.
  intros Hwf Hrun. destruct (symlink_metadata_looks p s) as (l & E1 & E2). rewrite Hrun in E1, E2. cbn [fst snd] in *.
  exists l. split; [done|]. destruct E2 as [E2|[k ?]]; [|done].
  destruct (tree s !! p) as [n|] eqn:En; [|done]. by rewrite (look_at_node _ _ _ Hwf En) in E2.
Qed.

(** ** Renaming, removing and synchronising

    The outcomes of one rename or removal in a directory and of the synchronisation of
    that directory, in the present tree and in every version a crash may reveal. *)
Local Open Scope N_scope.

(** The disk is as before, apart from the schedule. *)
Definition same_disk (s s' : fs) : Prop := ∃ l, s' = set_faults l s.

Lemma same_disk_refl s : same_disk s s.
Proof. exists (faults s). by rewrite set_faults_same. Qed.
Lemma same_disk_trans s s1 s' : same_disk s s1 → same_disk s1 s' → same_disk s s'.
Proof. intros [l ->] [l' ->]. by exists l'. Qed.
Lemma same_disk_tree s s' : same_disk s s' → tree s' = tree s.
Proof. by intros [l ->]. Qed.
Lemma same_disk_versions s s' : same_disk s s' → versions s' = versions s.
Proof. by intros [l ->]. Qed.
Lemma read_only_same {E A} (m : st fs E A) s s' r : read_only m → m s = (s', r) → same_disk s s'.
Proof. intros Hm Hrun. destruct (Hm s) as [l Hl]. rewrite Hrun in Hl. by exists l. Qed.

(** A syscall either is refused or performs its action. *)
Lemma syscall_cases {A} (act : io A) s s' r :
  syscall act s = (s', r) → (same_disk s s' ∧ ∃ k, r = Err (Fault k)) ∨ ∃ l, act (set_faults l s) = (s', r).
Proof.
  unfold syscall. destruct (next_fault (faults s)) as [[|n k] l]; [by right; exists l|].
  intros [= <- <-]. left. split; [by exists l|]. by exists k.
Qed.

Lemma locate_entry t d x q n :
  wf_tree t → t !! (d ++ [x]) = Some n → resolve MAX_LINKS t false (d ++ [x]) = Ok q → q = d ++ [x].
Proof. intros Hwf Hn. rewrite (resolve_node _ _ _ _ Hwf Hn). by intros [= <-]. Qed.

(** [p] was renamed to [q]. *)
Definition renamed (p q : path) (n : node) (t t' : tree_t) : Prop := t' = <[q := n]> (delete p t).

Lemma rename_run d x x' m c y s s' r :
  wf_tree (tree s) → tree s !! (d ++ [x]) = Some (Regular m c y) → x ≠ x' →
  rename_file (d ++ [x]) (d ++ [x']) s = (s', r) →
  (same_disk s s' ∧ ∃ k, r = Err k)
  ∨ (r = Ok tt ∧ renamed (d ++ [x]) (d ++ [x']) (Regular m c y) (tree s) (tree s')
     ∧ past s' = tree s :: past s ∧ wf_tree (tree s')).
Proof.
  intros Hwf Hn Hx Hrun. destruct (wf_parent _ Hwf _ _ _ Hn) as [dm Hd].
  assert (is_dir_at (tree s) d) as Hdir by (by exists dm).
  destruct (regular_not_dir _ _ _ _ _ Hn) as [Hno _].
  apply syscall_cases in Hrun as [[? [k ->]]|[l Hrun]]; [left; split; [done|by eexists]|].
  unfold mbind, st_bind in Hrun. rewrite locate_eq in Hrun. rewrite set_faults_tree in Hrun.
  rewrite (resolve_child _ _ _ _ _ Hwf Hdir (or_introl eq_refl)) in Hrun.
  rewrite locate_eq, set_faults_tree, (resolve_child _ _ _ _ _ Hwf Hdir (or_introl eq_refl)) in Hrun.
  rewrite node_at_eq, set_faults_tree, Hn in Hrun. cbn in Hrun.
  assert (d ++ [x'] ≠ d ++ [x]) as Hne by (intros E; by apply app_inj_2 in E as [_ [= ->]]).
  assert (¬ is_dir_at (tree s) (d ++ [x']) → wf_tree (<[d ++ [x'] := Regular m c y]> (delete (d ++ [x]) (tree s)))) as Hgo.
  { intros Hnd. apply wf_insert; [by apply wf_delete| |right].
    - destruct (d ++ [x']) as [|z l'] eqn:El; [by destruct d|]. rewrite <- El. exists d, x'. split; [done|].
      exists dm. rewrite lookup_delete_ne; [done|]. intros E. by apply neq_child in E.
    - intros [m' Em]. apply Hnd. exists m'. by apply lookup_delete_Some in Em as [_ ?]. }
  destruct (tree s !! (d ++ [x'])) as [[m'|m' c' y'|tgt]|] eqn:Ep; cbn in Hrun;
    unfold st_put, mthrow, st_throw in Hrun; injection Hrun as <- <-.
  - left. split; [by exists l|]. by eexists.
  - right. split; [done|]. split; [done|]. split; [done|]. apply Hgo. by eapply regular_not_dir.
  - right. split; [done|]. split; [done|]. split; [done|]. apply Hgo. intros [? ?]; congruence.
  - right. split; [done|]. split; [done|]. split; [done|]. apply Hgo. intros [? ?]; congruence.
Qed.

Lemma remove_run p m c y s s' r :
  wf_tree (tree s) → tree s !! p = Some (Regular m c y) → remove_file p s = (s', r) →
  (same_disk s s' ∧ ∃ k, r = Err k)
  ∨ (r = Ok tt ∧ tree s' = delete p (tree s) ∧ past s' = tree s :: past s ∧ wf_tree (tree s')).
Proof.
  intros Hwf Hn Hrun. destruct (regular_not_dir _ _ _ _ _ Hn) as [Hno _].
  apply syscall_cases in Hrun as [[? [k ->]]|[l Hrun]]; [left; split; [done|by eexists]|].
  unfold mbind, st_bind in Hrun. rewrite locate_eq, set_faults_tree, (resolve_node _ _ _ _ Hwf Hn) in Hrun.
  rewrite node_at_eq, set_faults_tree, Hn in Hrun. cbn in Hrun. injection Hrun as <- <-.
  right. split; [done|]. split; [done|]. split; [done|]. cbn. by apply wf_delete.
Qed.

(** A successful synchronisation of the directory [d]. *)
Definition dir_synced (d : path) (s s' : fs) : Prop :=
  tree s' = tree s ∧ past s' = (overlay d (tree s) <$> past s).

Lemma sync_dir_run d s s' r :
  plain d (tree s) → is_dir_at (tree s) d →
  (directory ← open_existing d; sync directory) s = (s', r) →
  (same_disk s s' ∧ ∃ k, r = Err k) ∨ (r = Ok tt ∧ dir_synced d s s').
Proof.
  intros Hp [m Hd] Hrun. unfold mbind at 1, st_bind at 1 in Hrun.
  destruct (open_existing d s) as [s1 [q|k]] eqn:Eopen.
  - apply open_existing_ok in Eopen as (l & -> & ->); [|done].
    apply syscall_cases in Hrun as [[[l' ->] [k ->]]|[l' Hrun]].
    + left. split; [by exists l'|by eexists].
    + unfold mbind, st_bind in Hrun. rewrite node_at_eq, !set_faults_tree, Hd in Hrun. cbn in Hrun.
      injection Hrun as <- <-. right. by split.
  - injection Hrun as <- <-. left. split; [|by eexists]. by eapply read_only_same, Eopen; eauto with ro.
Qed.

(** ** One entry of a directory changes *)

(** The disk changed at the paths [l] only; in every version each directory is otherwise
    that of an older version.  The paths [l] of a version are all as in an older version,
    or all as now. *)
Record entries_changed (l : list path) (s s' : fs) : Prop := mkEntriesChanged {
  ec_other q : q ∉ l → tree s' !! q = tree s !! q;
  ec_others d v : v ∈ versions s' →
    ∃ v0, v0 ∈ versions s ∧ ∀ q, parent q = d → q ∉ l → v0 !! q = v !! q;
  ec_together v : v ∈ versions s' →
    (∃ v0, v0 ∈ versions s ∧ ∀ q, q ∈ l → v0 !! q = v !! q) ∨ (∀ q, q ∈ l → v !! q = tree s' !! q);
}.
Lemma ec_other_versions l s s' q v :
  entries_changed l s s' → q ∉ l → v ∈ versions s' → ∃ v0, v0 ∈ versions s ∧ v0 !! q = v !! q.
Proof.
  intros Hch Hq Hv. destruct (ec_others _ _ _ Hch (parent q) v Hv) as (v0 & Hv0 & E). exists v0. auto.
Qed.

(** In every version the change has reached the disk. *)
Definition entries_durable (l : list path) (s' : fs) : Prop :=
  ∀ v q, v ∈ versions s' → q ∈ l → v !! q = tree s' !! q.

Lemma entries_changed_step l s t' s' :
  (∀ q, q ∉ l → t' !! q = tree s !! q) → tree s' = t' → past s' = tree s :: past s → entries_changed l s s'.
Proof.
  intros Hq Ht Hp. unfold versions. split; unfold versions; rewrite Ht, ?Hp.
  - done.
  - intros d v [->|Hv]%elem_of_cons; [|by exists v].
    exists (tree s). split; [left|]. intros q _ Hn. by rewrite Hq.
  - intros v [->|Hv]%elem_of_cons; [by right|]. left. by exists v.
Qed.

Lemma entries_changed_same l s s1 s' : entries_changed l s s1 → same_disk s1 s' → entries_changed l s s'.
Proof. by intros H [f ->]; destruct H. Qed.
Lemma entries_changed_before l s s1 s' : same_disk s s1 → entries_changed l s1 s' → entries_changed l s s'.
Proof. by intros [f ->] H; destruct H. Qed.

Lemma entries_changed_synced l d s s1 s' :
  (∀ q, q ∈ l → parent q = Some d) →
  entries_changed l s s1 → dir_synced d s1 s' → entries_changed l s s' ∧ entries_durable l s'.
Proof.
  intros Hl [Ho Hv Ht] [Etree Epast].
  assert (∀ v, v ∈ versions s' → (∀ q, in_dir d q = true → v !! q = tree s1 !! q)
    ∧ ∃ v1, v1 ∈ versions s1 ∧ ∀ q, in_dir d q = false → v1 !! q = v !! q) as Hver.
  { unfold versions. rewrite Etree, Epast. intros v [->|(v1 & -> & Hv1)%list_elem_of_fmap]%elem_of_cons.
    - split; [done|]. exists (tree s1). split; [left|done].
    - split; [intros q Hq; by rewrite lookup_overlay, Hq|]. exists v1. split; [by right|].
      intros q Hq. by rewrite lookup_overlay, Hq. }
  assert (∀ q, q ∈ l → in_dir d q = true) as Hin.
  { intros q Hq. unfold in_dir. rewrite bool_decide_eq_true. by apply Hl. }
  assert (entries_durable l s') as Hdur.
  { intros v q Hv' Hq. destruct (Hver v Hv') as [Hd _]. by rewrite Hd, Etree by auto. }
  split; [|done]. split.
  - intros q Hq. rewrite Etree. by apply Ho.
  - intros d' v Hv'. destruct (Hver v Hv') as [Hd (v1 & Hv1 & Hother)]. destruct (decide (d' = Some d)) as [->|Hne].
    + exists (tree s). split; [left|]. intros q Hp Hq. rewrite Hd, Ho; [done..|]. unfold in_dir. by rewrite bool_decide_true.
    + destruct (Hv d' v1 Hv1) as (v0 & Hv0 & E). exists v0. split; [done|]. intros q Hp Hq. rewrite E by done.
      apply Hother. unfold in_dir. rewrite bool_decide_false; congruence.
  - intros v Hv'. right. intros q Hq. by apply Hdur.
Qed.
