(* ===== verification/StateStore.v ===== *)
(** * The checkpoint store (crates/dbx-rs-state/src/store.rs)

    [FileCheckpointStore] keeps one directory per input under [root/inputs], holding
    the current envelope, the previous one and, at the root, the writer lock.  Its
    methods run under the in-process mutex; the lock file is taken through a call
    that can fail. *)

From stdpp Require Import sorting.
From S2P Require Export Envelope SecureFs.

Local Open Scope N_scope.
Local Open Scope dbx_scope.
Import StateStoreError.

(** ** Data *)

Definition CURRENT_FILE : name := String.list_byte_of_string "checkpoint.dbx".
Definition PREVIOUS_FILE : name := String.list_byte_of_string "checkpoint.dbx.prev".
Definition WRITER_LOCK_FILE : name := String.list_byte_of_string ".checkpoint-writer.lock".
Definition INPUTS : name := String.list_byte_of_string "inputs".

Record FileCheckpointStore := mkStore {
  root : path;
  writer_poisoned : bool;
}.

Inductive LoadResult :=
  | Missing
  | Current (state : StoredState).

Abbreviation store A := (st fs StateStoreError A).

(** [impl From<SecureStoreError> for StateStoreError]. *)
Definition from_secure {A} (m : secure A) : store A := st_map_err (λ _, Filesystem) m.
Definition from_io {A} (m : io A) : store A := st_map_err (λ _, Filesystem) m.

(** [self.writer.lock()]. *)
Definition lock_writer (self : FileCheckpointStore) : store () :=
  if writer_poisoned self then mthrow LockPoisoned else mret tt.

(** ** Inspection *)

Definition validate_private_directory_mode (metadata : node) : result StateStoreError () :=
  reject InvalidPermissions when (N.land (node_mode metadata) OTHERS ≠ 0);;
  mret tt.
Definition validate_state_file_mode (metadata : node) : result StateStoreError () :=
  reject InvalidPermissions when (N.land (node_mode metadata) OTHERS ≠ 0);;
  mret tt.

Definition inspect_file (p : path) : store (option node) :=
  r ← try_call (symlink_metadata p);
  match r with
  | Ok metadata =>
      if is_symlink metadata then mthrow PathSymlink
      else if negb (is_file metadata) then mthrow InvalidPathType
      else mret (Some metadata)
  | Err error => if decide (error = NotFound) then mret None else mthrow Filesystem
  end.

Definition validate_directory_if_exists (p : path) : store () :=
  r ← try_call (symlink_metadata p);
  match r with
  | Ok metadata =>
      if is_symlink metadata then mthrow PathSymlink
      else if negb (is_dir metadata) then mthrow InvalidPathType
      else st_lift (validate_private_directory_mode metadata)
  | Err error => if decide (error = NotFound) then mret tt else mthrow Filesystem
  end.

Definition ensure_directory (p : path) : store () :=
  r ← try_call (symlink_metadata p);
  match r with
  | Ok _ => validate_directory_if_exists p
  | Err error =>
      if decide (error = NotFound)
      then _ ← from_secure (ensure_private_dir p); validate_directory_if_exists p
      else mthrow Filesystem
  end.

Section Store.
Context `{Sha256, SerdeJson}.

Definition read_envelope (p : path) : store (option (list byte * StoredState)) :=
  m ← inspect_file p;
  match m with
  | None => mret None
  | Some metadata =>
      reject EnvelopeTooLarge when (MAX_ENVELOPE_BYTES < node_len metadata);;
      _ ← st_lift (validate_state_file_mode metadata);
      bytes ← from_secure (read_limited p MAX_ENVELOPE_BYTES);
      state ← st_lift (decode_envelope bytes);
      mret (Some (bytes, state))
  end.

(** ** Paths *)

Definition input_directory (self : FileCheckpointStore) (key : StateKey) : path :=
  join (join (root self) INPUTS) (directory_name key).
Definition current_path (self : FileCheckpointStore) (key : StateKey) : path :=
  join (input_directory self key) CURRENT_FILE.
Definition previous_path (self : FileCheckpointStore) (key : StateKey) : path :=
  join (input_directory self key) PREVIOUS_FILE.

Definition validate_input_directories (self : FileCheckpointStore) (key : StateKey) : store () :=
  _ ← validate_directory_if_exists (root self);
  _ ← validate_directory_if_exists (join (root self) INPUTS);
  validate_directory_if_exists (input_directory self key).

Definition ensure_input_directory (self : FileCheckpointStore) (key : StateKey) : store () :=
  _ ← ensure_directory (root self);
  _ ← ensure_directory (join (root self) INPUTS);
  ensure_directory (input_directory self key).

Definition read_current_unlocked (self : FileCheckpointStore) (key : StateKey)
    : store (option (list byte * StoredState)) :=
  _ ← validate_input_directories self key;
  value' ← read_envelope (current_path self key);
  match value' with
  | Some (_, state) => _ ← st_lift (validate_key key (value state)); mret value'
  | None => mret value'
  end.

Definition load_unlocked (self : FileCheckpointStore) (key : StateKey) : store LoadResult :=
  v ← read_current_unlocked self key;
  match v with
  | Some (_, state) => mret (Current state)
  | None => mret Missing
  end.

(** ** The writer lock *)

(** [File::lock]: waits for other processes. *)
Definition lock_file (file : path) : store () :=
  st_map_err (λ _, WriterLockUnavailable) (syscall (mret tt)).

Definition acquire_writer_lock (self : FileCheckpointStore) : store path :=
  _ ← ensure_directory (root self);
  let p := join (root self) WRITER_LOCK_FILE in
  present ← inspect_file p;
  _ ← (match present with
       | Some _ => mret tt
       | None =>
           r ← try_call (write_new p [] MODE_PRIVATE_FILE);
           match r with
           | Ok _ => mret tt
           | Err error =>
               if decide (secure_io_kind error = Some Io.AlreadyExists) then mret tt else mthrow Filesystem
           end
       end);
  m ← inspect_file p;
  let_some metadata := m else Filesystem;;
  _ ← st_lift (validate_state_file_mode metadata);
  file ← from_io (open_existing p);
  metadata ← from_io (file_metadata file);
  if negb (is_file metadata) then mthrow InvalidPathType else
  _ ← st_lift (validate_state_file_mode metadata);
  _ ← lock_file file;
  mret file.

(** ** Methods *)

(** [root] is absolute in the model; a relative argument is rejected first. *)
Definition store_open (is_absolute : bool) (root : path) : store FileCheckpointStore :=
  if negb is_absolute then mthrow InvalidRoot else
  _ ← validate_directory_if_exists root;
  _ ← validate_directory_if_exists (join root INPUTS);
  m ← inspect_file (join root WRITER_LOCK_FILE);
  _ ← (match m with Some metadata => st_lift (validate_state_file_mode metadata) | None => mret tt end);
  mret (mkStore root false).

Definition load (self : FileCheckpointStore) (key : StateKey) : store LoadResult :=
  _ ← lock_writer self;
  load_unlocked self key.

(** Identities in the order of their bytes, as [sort_unstable_by_key] uses it. *)
Definition identity_le (a b : InputId) : Prop := bytes_le (vec_to_list a) (vec_to_list b) = true.
#[global] Instance identity_le_dec : RelDecision identity_le := λ a b, decide (_ = true).

Fixpoint inventory (inputs : path) (entries : list name) : store (list InputId) :=
  match entries with
  | [] => mret []
  | entry :: entries =>
      _ ← from_io (syscall (mret tt));
      let p := join inputs entry in
      _ ← validate_directory_if_exists p;
      let_some directory := to_str entry else InvalidPathType;;
      e ← read_envelope (join p CURRENT_FILE);
      match e with
      | None => mthrow MissingCurrent
      | Some (_, stored) =>
          let key := StateKey_for_input (input_id (value stored)) in
          reject StateKeyMismatch when (directory ≠ directory_name key);;
          identities ← inventory inputs entries;
          mret (input_id (value stored) :: identities)
      end
  end.

Definition input_ids (self : FileCheckpointStore) : store (list InputId) :=
  _ ← lock_writer self;
  _ ← validate_directory_if_exists (root self);
  let inputs := join (root self) INPUTS in
  _ ← validate_directory_if_exists inputs;
  r ← try_call (read_dir inputs);
  match r with
  | Err error => if decide (error = NotFound) then mret [] else mthrow Filesystem
  | Ok entries =>
      identities ← inventory inputs entries;
      mret (merge_sort identity_le identities)
  end.

Definition create (self : FileCheckpointStore) (key : StateKey) (v : DurableInputState) : store StoredState :=
  _ ← st_lift (validate_key key v);
  _ ← st_lift (map_err map_validation_error (state_validate v));
  envelope ← st_lift (encode_envelope v 1);
  stored ← st_lift (decode_envelope envelope);
  _ ← lock_writer self;
  _ ← acquire_writer_lock self;
  _ ← ensure_input_directory self key;
  existing ← read_envelope (current_path self key);
  reject StateStoreError.AlreadyExists when (existing ≠ None);;
  backup ← inspect_file (previous_path self key);
  reject OrphanedBackup when (backup ≠ None);;
  _ ← from_secure (atomic_write (current_path self key) envelope MODE_PRIVATE_FILE);
  mret stored.

Definition replace_current_unlocked (self : FileCheckpointStore) (key : StateKey)
    (current_bytes : list byte) (current : StoredState) (v : DurableInputState) : store StoredState :=
  next_revision ← st_lift (ok_or RevisionOverflow (checked_add (revision (token current)) 1));
  next_bytes ← st_lift (encode_envelope v next_revision);
  next ← st_lift (decode_envelope next_bytes);
  _ ← from_secure (atomic_write (previous_path self key) current_bytes MODE_PRIVATE_FILE);
  _ ← from_secure (atomic_write (current_path self key) next_bytes MODE_PRIVATE_FILE);
  mret next.

Definition compare_exchange (self : FileCheckpointStore) (key : StateKey) (expected : StateToken)
    (v : DurableInputState) : store StoredState :=
  _ ← st_lift (validate_key key v);
  _ ← st_lift (map_err map_validation_error (state_validate v));
  _ ← lock_writer self;
  _ ← acquire_writer_lock self;
  c ← read_current_unlocked self key;
  match c with
  | None => mthrow MissingCurrent
  | Some (current_bytes, current) =>
      _ ← st_lift (verify_expected (token current) expected);
      _ ← st_lift (validate_transition (value current) v);
      replace_current_unlocked self key current_bytes current v
  end.

(** The state a configuration activation stores. *)
Definition activated (current : DurableInputState) (fp : Fingerprint) : result StateStoreError DurableInputState :=
  gen ← ok_or ConfigurationGenerationOverflow (checked_add (configuration_generation current) 1);
  let fence := configuration_fence_id fp gen in
  let next := mkState (format_version current) (input_id current) (source_lineage_fingerprint current)
    (cursor_identity_fingerprint current) fp gen
    (Snapshot_new fence (generation (coordinator current)) (committed (coordinator current)))
    (active_scan current) in
  _ ← map_err map_validation_error (state_validate next);
  mret next.

Definition activate_configuration (self : FileCheckpointStore) (key : StateKey) (expected : StateToken)
    (fp : Fingerprint) : store StoredState :=
  _ ← lock_writer self;
  _ ← acquire_writer_lock self;
  c ← read_current_unlocked self key;
  match c with
  | None => mthrow MissingCurrent
  | Some (current_bytes, current) =>
      _ ← st_lift (verify_expected (token current) expected);
      reject ConfigurationUnchanged when (configuration_fingerprint (value current) = fp);;
      reject ConfigurationActivationBlocked
        when (active_scan (value current) ≠ None ∨ active_attempt (coordinator (value current)) ≠ None);;
      next ← st_lift (activated (value current) fp);
      replace_current_unlocked self key current_bytes current next
  end.

Definition restore_previous (self : FileCheckpointStore) (key : StateKey) (expected : StateToken)
    : store StoredState :=
  _ ← lock_writer self;
  _ ← acquire_writer_lock self;
  c ← read_current_unlocked self key;
  match c with
  | None => mthrow MissingCurrent
  | Some (current_bytes, current) =>
      _ ← st_lift (verify_expected (token current) expected);
      p ← read_envelope (previous_path self key);
      match p with
      | None => mthrow MissingBackup
      | Some (_, previous) =>
          _ ← st_lift (validate_key key (value previous));
          next_revision ← st_lift (ok_or RevisionOverflow (checked_add (revision (token current)) 1));
          restored_bytes ← st_lift (encode_envelope (value previous) next_revision);
          restored ← st_lift (decode_envelope restored_bytes);
          _ ← from_secure (atomic_write (previous_path self key) current_bytes MODE_PRIVATE_FILE);
          _ ← from_secure (atomic_write (current_path self key) restored_bytes MODE_PRIVATE_FILE);
          mret restored
      end
  end.
End Store.
