(* ===== verification/StateStoreProps.v ===== *)
(** * Theorems on the checkpoint store *)

From S2P Require Export StateStore FileReads.

Local Open Scope N_scope.
Import StateStoreError.

(** ** Read-only methods *)

Lemma ro_inspect_file p : read_only (inspect_file p).
Proof. unfold inspect_file. read_only. Qed.
Lemma ro_validate_directory p : read_only (validate_directory_if_exists p).
Proof. unfold validate_directory_if_exists. read_only. Qed.
#[export] Hint Resolve ro_inspect_file ro_validate_directory : ro.

Section StoreReads.
Context `{Sha256, SerdeJson}.

Lemma ro_read_envelope p : read_only (read_envelope p).
Proof using Type. unfold read_envelope, from_secure, read_limited. read_only. Qed.
Lemma ro_lock_writer self : read_only (lock_writer self).
Proof using Type. unfold lock_writer. read_only. Qed.
#[local] Hint Resolve ro_read_envelope ro_lock_writer : ro.
Lemma ro_validate_inputs self key : read_only (validate_input_directories self key).
Proof using Type. unfold validate_input_directories. read_only. Qed.
#[local] Hint Resolve ro_validate_inputs : ro.
Lemma ro_read_current self key : read_only (read_current_unlocked self key).
Proof using Type. unfold read_current_unlocked. read_only. Qed.
#[local] Hint Resolve ro_read_current : ro.
Lemma ro_load self key : read_only (load self key).
Proof using Type. unfold load, load_unlocked. read_only. Qed.
Lemma ro_inventory inputs entries : read_only (inventory inputs entries).
Proof using Type.
  induction entries; cbn [inventory]; unfold from_io; read_only.
Qed.
#[local] Hint Resolve ro_inventory : ro.
Lemma ro_input_ids self : read_only (input_ids self).
Proof using Type. unfold input_ids. read_only. Qed.
Lemma ro_store_open is_absolute p : read_only (store_open is_absolute p).
Proof using Type. unfold store_open. read_only. Qed.
End StoreReads.

(** ** What a successful read establishes *)

Lemma inspect_file_some p s s' n :
  inspect_file p s = (s', Ok (Some n)) →
  ∃ l, s' = set_faults l s ∧ look_at false p (tree s) = Ok n ∧ is_file n = true.
Proof.
  unfold inspect_file. intros (r & s1 & Htry & Hrun)%st_bind_ok. unfold try_call in Htry.
  destruct (symlink_metadata p s) as [s2 r2] eqn:E. injection Htry as <- <-.
  destruct r2 as [n'|e]; [|by case_decide].
  apply symlink_metadata_ok in E as (l & -> & Hl). exists l.
  destruct (is_symlink n'); [done|]. destruct (is_file n') eqn:Ef; [|done]. by injection Hrun as <- <-.
Qed.

Lemma inspect_file_none p s s' :
  wf_tree (tree s) → inspect_file p s = (s', Ok None) → ∃ l, s' = set_faults l s ∧ tree s !! p = None.
Proof.
  intros Hwf. unfold inspect_file. intros (r & s1 & Htry & Hrun)%st_bind_ok. unfold try_call in Htry.
  destruct (symlink_metadata p s) as [s2 r2] eqn:E. injection Htry as <- <-.
  destruct r2 as [n'|e]; [by destruct (is_symlink n'), (is_file n')|].
  case_decide as Hk; [|done]. subst e. injection Hrun as <-. by apply symlink_metadata_missing.
Qed.

Lemma validate_state_file_mode_ok n s s' :
  (st_lift (validate_state_file_mode n) : store ()) s = (s', Ok tt) → s' = s ∧ N.land (node_mode n) OTHERS = 0.
Proof. unfold validate_state_file_mode. intros [-> Hm]%st_lift_ok. by case_decide. Qed.

Section Envelopes.
Context `{Sha256, SerdeJson}.

(** A private file, reached without links, whose content decodes. *)
Definition holds (t : tree_t) (p : path) (bytes : list byte) (st : StoredState) : Prop :=
  plain p t ∧ (∃ m y, t !! p = Some (Regular m bytes y) ∧ N.land m OTHERS = 0)
  ∧ decode_envelope bytes = Ok st.

Lemma read_envelope_some p s s' bytes st :
  wf_tree (tree s) → read_envelope p s = (s', Ok (Some (bytes, st))) →
  (∃ l, s' = set_faults l s) ∧ holds (tree s) p bytes st.
Proof using Type.
  intros Hwf. unfold read_envelope. intros (m & s1 & Hi & Hrun)%st_bind_ok.
  destruct m as [n|]; [|done]. apply inspect_file_some in Hi as (l1 & -> & Hn & Hf).
  case_decide as Hlen; [done|].
  apply st_bind_ok in Hrun as ([] & s1 & [-> Hmode]%validate_state_file_mode_ok & Hrun).
  apply st_bind_ok in Hrun as (b & s1 & Hread%st_map_err_ok & Hrun).
  apply read_limited_ok in Hread as (Hpl & (md & y & E & _) & _ & l2 & ->); [|done].
  cbn [set_faults tree] in Hpl, E.
  apply st_bind_ok in Hrun as (st' & s1 & [-> Hdec]%st_lift_ok & Hrun). injection Hrun as <- <- <-.
  split; [by exists l2|]. split; [done|]. split; [|done]. exists md, y. split; [done|].
  rewrite (look_at_node _ _ _ Hwf E) in Hn. by injection Hn as <-.
Qed.

Lemma read_envelope_none p s s' :
  wf_tree (tree s) → read_envelope p s = (s', Ok None) → ∃ l, s' = set_faults l s ∧ tree s !! p = None.
Proof using Type.
  intros Hwf. unfold read_envelope. intros (m & s1 & Hi & Hrun)%st_bind_ok.
  destruct m as [n|].
  - case_decide; [done|]. apply st_bind_ok in Hrun as (? & ? & _ & Hrun).
    apply st_bind_ok in Hrun as (? & ? & _ & Hrun). by apply st_bind_ok in Hrun as (? & ? & _ & Hrun).
  - apply inspect_file_none in Hi as (l & -> & E); [|done]. injection Hrun as <-. by exists l.
Qed.

Lemma validate_directory_ok p s s' n :
  wf_tree (tree s) → validate_directory_if_exists p s = (s', Ok tt) → tree s !! p = Some n →
  ∃ m, n = Dir m ∧ N.land m OTHERS = 0.
Proof using Type.
  intros Hwf Hrun En. unfold validate_directory_if_exists in Hrun.
  apply st_bind_ok in Hrun as (r & s1 & Htry & Hrun). unfold try_call in Htry.
  destruct (symlink_metadata p s) as [s2 r2] eqn:E. injection Htry as <- <-.
  destruct r2 as [n'|e].
  - apply symlink_metadata_ok in E as (l & -> & Hl). rewrite (look_at_node _ _ _ Hwf En) in Hl. injection Hl as ->.
    destruct n' as [m| |]; [|done..]. apply st_lift_ok in Hrun as [_ Hm].
    unfold validate_private_directory_mode in Hm. case_decide as Hz; [done|]. by exists m.
  - case_decide as Hk; [|done]. subst e. apply symlink_metadata_missing in E as (l & -> & Hnone); [|done]. congruence.
Qed.

(** The root and its [inputs] directory are private. *)
Definition private_dirs (self : FileCheckpointStore) (t : tree_t) : Prop :=
  ∀ d, d = root self ∨ d = root self ++ [INPUTS] → ∃ m, t !! d = Some (Dir m) ∧ N.land m OTHERS = 0.

Lemma validate_inputs_private self key s s' n :
  wf_tree (tree s) → validate_input_directories self key s = (s', Ok tt) →
  tree s !! current_path self key = Some n → private_dirs self (tree s).
Proof using Type.
  intros Hwf Hrun En. unfold validate_input_directories in Hrun.
  apply st_bind_ok in Hrun as ([] & s1 & H1 & Hrun). destruct (ro_validate_directory (root self) s) as [l1 E1].
  rewrite H1 in E1. cbn [fst] in E1. subst s1. apply st_bind_ok in Hrun as ([] & s2 & H2 & _).
  assert (∀ d l, current_path self key = d ++ l → l ≠ [] → is_dir_at (tree s) d) as Hdirs.
  { intros d l E Hl. rewrite E in En. by eapply wf_prefix_dir. }
  unfold current_path, input_directory, join in Hdirs.
  intros d [->| ->].
  - destruct (Hdirs (root self) ([INPUTS] ++ [directory_name key] ++ [CURRENT_FILE])) as [m Em];
      [by rewrite <- !app_assoc|done|].
    destruct (validate_directory_ok _ _ _ _ Hwf H1 Em) as (m' & [= ->] & Hm). by exists m'.
  - destruct (Hdirs (root self ++ [INPUTS]) ([directory_name key] ++ [CURRENT_FILE])) as [m Em];
      [by rewrite <- !app_assoc|done|].
    destruct (validate_directory_ok (root self ++ [INPUTS]) (set_faults l1 s) s2 (Dir m)) as (m' & [= ->] & Hm); [done..|].
    by exists m'.
Qed.

Lemma read_current_some self key s s' bytes st :
  wf_tree (tree s) → read_current_unlocked self key s = (s', Ok (Some (bytes, st))) →
  (∃ l, s' = set_faults l s) ∧ holds (tree s) (current_path self key) bytes st
  ∧ StateKey_for_input (input_id (value st)) = key ∧ private_dirs self (tree s).
Proof using Type.
  intros Hwf Hrun. pose proof (ro_read_current self key s) as [l Hro]. rewrite Hrun in Hro. cbn in Hro.
  split; [by exists l|]. unfold read_current_unlocked in Hrun.
  apply st_bind_ok in Hrun as ([] & s1 & Hv & Hrun).
  destruct (ro_validate_inputs self key s) as [l1 E1]. rewrite Hv in E1. cbn in E1. subst s1.
  apply st_bind_ok in Hrun as ([[b st']|] & s1 & Hread & Hrun); [|done].
  apply read_envelope_some in Hread as [[l2 ->] Hh]; [|done].
  apply st_bind_ok in Hrun as ([] & s1 & [-> Hkey]%st_lift_ok & Hrun). injection Hrun as _ <- <-.
  split; [done|]. split; [unfold validate_key in Hkey; by case_decide|].
  destruct Hh as (_ & (m & y & E & _) & _). by eapply validate_inputs_private.
Qed.
End Envelopes.

(** ** The writer lock writes only the root and the lock file *)

Definition lock_area (self : FileCheckpointStore) (q : path) (_ : option node) : Prop :=
  q `prefix_of` root self ∨ q = root self ++ [WRITER_LOCK_FILE].

Lemma footprint_ensure_directory d : footprint (λ q _, q `prefix_of` d) (ensure_directory d).
Proof.
  unfold ensure_directory. apply footprint_bind; [apply footprint_read_only; read_only|]. intros [n|e].
  - apply footprint_read_only. read_only.
  - case_decide; [|apply footprint_throw].
    apply footprint_bind; [apply footprint_map_err, footprint_ensure_private_dir|]. intros [].
    apply footprint_read_only. read_only.
Qed.

Lemma footprint_acquire self : footprint (lock_area self) (acquire_writer_lock self).
Proof.
  unfold acquire_writer_lock. apply footprint_bind; [|intros []].
  { eapply footprint_mono; [|apply footprint_ensure_directory]. intros q n Hq. by left. }
  cbv zeta. apply footprint_bind; [apply footprint_read_only; read_only|]. intros present.
  apply footprint_bind; [|intros []].
  { destruct present; [apply footprint_ret|]. apply footprint_bind.
    - apply footprint_try. eapply footprint_mono; [|apply footprint_write_new]. intros q n Hq. exact Hq.
    - intros [[]|e]; [apply footprint_ret|]. case_decide; [apply footprint_ret|apply footprint_throw]. }
  apply footprint_read_only. unfold from_io, lock_file. read_only.
Qed.

(** A file as the store writes it. *)
Abbreviation private_file bytes := (Some (Regular MODE_PRIVATE_FILE bytes true)).

(** ** The common start of every update *)

Lemma path_outside self key x : lock_area self (input_directory self key ++ [x]) None → False.
Proof.
  unfold lock_area, input_directory, join. intros [Hp%prefix_length|E%(f_equal length)];
    rewrite !length_app in *; cbn in *; lia.
Qed.

Lemma lock_area_outside self key x n : ¬ lock_area self (input_directory self key ++ [x]) n.
Proof. intros Hl. by apply (path_outside self key x). Qed.

Section Updates.
Context `{Sha256, SerdeJson}.

Lemma begin_run {B} self key expected (k : list byte → StoredState → store B) s s' r :
  wf_tree (tree s) →
  (_ ← lock_writer self; _ ← acquire_writer_lock self; c ← read_current_unlocked self key;
   match c with
   | None => mthrow MissingCurrent
   | Some (bytes, cur) => _ ← st_lift (verify_expected (token cur) expected); k bytes cur
   end) s = (s', r) →
  (∃ e, r = Err e ∧ base (lock_area self) (tree s) (past s) (tree s') (past s'))
  ∨ ∃ s1 bytes cur, base (lock_area self) (tree s) (past s) (tree s1) (past s1)
      ∧ holds (tree s1) (current_path self key) bytes cur
      ∧ StateKey_for_input (input_id (value cur)) = key ∧ private_dirs self (tree s1)
      ∧ token cur = expected ∧ k bytes cur s1 = (s', r).
Proof using Type.
  intros Hwf Hrun.
  assert (footprint (lock_area self) (_ ← lock_writer self; acquire_writer_lock self)) as Hfp.
  { apply footprint_bind; [apply footprint_read_only, ro_lock_writer|]. intros []. apply footprint_acquire. }
  assert (((_ ← lock_writer self; acquire_writer_lock self) ≫= λ _, c ← read_current_unlocked self key;
   match c with
   | None => mthrow MissingCurrent
   | Some (bytes, cur) => _ ← st_lift (verify_expected (token cur) expected); k bytes cur
   end) s = (s', r)) as Hrun'.
  { unfold mbind, st_bind in *. by destruct (lock_writer self s) as [? [[]|]]. }
  clear Hrun. specialize (Hfp s Hwf). unfold mbind at 1, st_bind at 1 in Hrun'.
  destruct ((_ ← lock_writer self; acquire_writer_lock self) s) as [s1 [h|e]]; cbn [fst] in Hfp.
  2: { injection Hrun' as <- <-. left. by exists e. }
  pose proof Hfp as [Hwf1 _]. unfold mbind at 1, st_bind at 1 in Hrun'.
  destruct (ro_read_current self key s1) as [l El].
  destruct (read_current_unlocked self key s1) as [s2 [[[bytes cur]|]|e]] eqn:Er; cbn in El; subst s2.
  - apply read_current_some in Er as (_ & Hh & Hkey & Hdirs); [|done].
    unfold mbind at 1, st_bind at 1, st_lift in Hrun'.
    destruct (verify_expected (token cur) expected) as [[]|e] eqn:Ev.
    + right. exists (set_faults l s1), bytes, cur. split_and!; try done.
      unfold verify_expected in Ev. do 2 (case_decide; [done|]). destruct (token cur), expected; cbn in *; congruence.
    + injection Hrun' as <- <-. left. by exists e.
  - injection Hrun' as <- <-. left. by exists MissingCurrent.
  - injection Hrun' as <- <-. left. by exists e.
Qed.

(** ** Publishing: the backup first, then the new current envelope *)

(** What an update may leave: a version shows the current file as some version did
    before, or the new one next to the backup of the old one. *)
Record updated (self : FileCheckpointStore) (key : StateKey) (old new : list byte) (s s' : fs) : Prop := mkUpdated {
  upd_tree : tree s' !! current_path self key = tree s !! current_path self key
    ∨ tree s' !! current_path self key = private_file new;
  upd_current v : v ∈ versions s' →
    (∃ v0, v0 ∈ versions s ∧ v0 !! current_path self key = v !! current_path self key)
    ∨ (v !! current_path self key = private_file new ∧ v !! previous_path self key = private_file old);
  upd_previous v : v ∈ versions s' →
    (∃ v0, v0 ∈ versions s ∧ v0 !! previous_path self key = v !! previous_path self key)
    ∨ v !! previous_path self key = private_file old;
}.

(** The paths of one update. *)
Definition update_area (self : FileCheckpointStore) (key : StateKey) (q : path) (_ : option node) : Prop :=
  q `prefix_of` input_directory self key
  ∨ (∃ l, q = input_directory self key ++ [x2e :: l])
  ∨ q = current_path self key ∨ q = previous_path self key.

Lemma write_in_area self key x bytes :
  x = CURRENT_FILE ∨ x = PREVIOUS_FILE →
  footprint (update_area self key) (atomic_write (input_directory self key ++ [x]) bytes MODE_PRIVATE_FILE).
Proof using Type.
  intros Hx. eapply footprint_mono; [|apply footprint_atomic_write].
  intros q n [?|[?%staging_child|[-> _]]]; [by left|by right; left|]. destruct Hx as [->| ->]; by right; right; auto.
Qed.

(** Writing one of the two files leaves the other alone. *)
Lemma write_sibling d x y bytes s s' r :
  wf_tree (tree s) → atomic_write (d ++ [x]) bytes MODE_PRIVATE_FILE s = (s', r) →
  x ≠ y → (∀ l, y ≠ x2e :: l) →
  tree s' !! (d ++ [y]) = tree s !! (d ++ [y])
  ∧ ∀ v, v ∈ versions s' → ∃ v0, v0 ∈ versions s ∧ v0 !! (d ++ [y]) = v !! (d ++ [y]).
Proof using Type.
  intros Hwf Hrun Hne Hy. destruct (atomic_write_run _ _ _ _ _ _ Hwf Hrun) as [[_ [Ht Hv]%evolves_paths] _].
  assert (∀ n, ¬ atomic_writes (d ++ [x]) bytes MODE_PRIVATE_FILE (tree s) (d ++ [y]) n) as Hno.
  { intros n. apply atomic_writes_other.
    - intros E%(inj (app d)). by injection E as ->.
    - intros [l E%(inj (app d))]%staging_child. injection E as ->. by apply (Hy l).
    - intros Hp. assert (length (d ++ [y]) = length (d ++ [x])) as Hlen by by rewrite !length_app.
      apply prefix_length_eq in Hp; [|lia]. apply (inj (app d)) in Hp. by injection Hp as ->. }
  split.
  - destruct (Ht (d ++ [y])) as [|E]; [done|]. by destruct (Hno _ E).
  - intros v Hin. destruct (Hv v (d ++ [y]) Hin) as [|E]; [done|]. by destruct (Hno _ E).
Qed.

Lemma current_ne_previous : CURRENT_FILE ≠ PREVIOUS_FILE.
Proof using Type. done. Qed.
Lemma current_visible l : CURRENT_FILE ≠ x2e :: l.
Proof using Type. done. Qed.
Lemma previous_visible l : PREVIOUS_FILE ≠ x2e :: l.
Proof using Type. done. Qed.

Lemma publish_run {B} self key old new (x : B) s s' r :
  wf_tree (tree s) →
  (_ ← from_secure (atomic_write (previous_path self key) old MODE_PRIVATE_FILE);
   _ ← from_secure (atomic_write (current_path self key) new MODE_PRIVATE_FILE); mret x : store B) s = (s', r) →
  base (update_area self key) (tree s) (past s) (tree s') (past s')
  ∧ updated self key old new s s'
  ∧ (∀ y, r = Ok y → y = x ∧ tree s' !! input_directory self key = Some (Dir MODE_PRIVATE_DIR)
        ∧ (private_dirs self (tree s) → private_dirs self (tree s'))
        ∧ ∀ v, v ∈ versions s' →
          v !! current_path self key = private_file new ∧ v !! previous_path self key = private_file old).
Proof using Type.
  intros Hwf Hrun. unfold from_secure, mbind, st_bind, st_map_err in Hrun.
  set (cur := current_path self key) in *. set (prev := previous_path self key) in *.
  pose proof (write_in_area self key PREVIOUS_FILE old (or_intror eq_refl) s Hwf) as Hb1.
  change (input_directory self key ++ [PREVIOUS_FILE]) with prev in Hb1.
  destruct (atomic_write prev old MODE_PRIVATE_FILE s) as [s1 r1] eqn:E1. cbn [fst] in Hb1. pose proof Hb1 as [Hwf1 _].
  destruct (write_sibling (input_directory self key) _ CURRENT_FILE _ _ _ _ Hwf E1) as [Ct1 Cv1];
    [done|apply current_visible|].
  change (input_directory self key ++ [CURRENT_FILE]) with cur in Ct1, Cv1.
  destruct (atomic_write_self _ _ _ _ _ _ Hwf E1) as (_ & Pv1 & Pok1).
  destruct r1 as [[]|e1]; cbn [map_err] in Hrun.
  2: { injection Hrun as <- <-. split; [done|]. split; [|done]. split; [by left| |done]. intros v Hin. left. by apply Cv1. }
  destruct (Pok1 eq_refl) as [Pall1 _]. clear Pok1.
  pose proof (write_in_area self key CURRENT_FILE new (or_introl eq_refl) s1 Hwf1) as Hb2.
  change (input_directory self key ++ [CURRENT_FILE]) with cur in Hb2.
  destruct (atomic_write cur new MODE_PRIVATE_FILE s1) as [s2 r2] eqn:E2. cbn [fst] in Hb2.
  destruct (write_sibling (input_directory self key) _ PREVIOUS_FILE _ _ _ _ Hwf1 E2) as [_ Pv2];
    [done|apply previous_visible|].
  change (input_directory self key ++ [PREVIOUS_FILE]) with prev in Pv2.
  assert (∀ v, v ∈ versions s2 → v !! prev = private_file old) as Pall2.
  { intros v Hin. destruct (Pv2 v Hin) as (v0 & Hin0 & <-). by apply Pall1. }
  destruct (atomic_write_self _ _ _ _ _ _ Hwf1 E2) as (Ct2 & Cv2 & Cok2).
  assert (base (update_area self key) (tree s) (past s) (tree s2) (past s2)) as Hb
    by (eapply base_trans; [exact Hb1|exact Hb2|done|done]).
  assert (updated self key old new s s2) as Hup.
  { split.
    - fold cur. destruct Ct2 as [->|?]; [by left|by right].
    - intros v Hin. fold cur prev. destruct (Cv2 v Hin) as [(v0 & Hin0 & <-)|E]; [left; by apply Cv1|].
      right. split; [done|by apply Pall2].
    - intros v Hin. right. by apply Pall2. }
  destruct r2 as [[]|e2]; cbn [map_err] in Hrun; injection Hrun as <- <-; split; [done| |done|]; (split; [done|]).
  - intros y [= ->]. destruct (Cok2 eq_refl) as [Call2 Hdir]. split; [done|].
    split; [by apply Hdir, parent_app|]. split; [|]; cycle 1.
    { intros v Hin. split; [by apply Call2|by apply Pall2]. }
    intros Hp q Hq. destruct (Hp q Hq) as (m & Em & Hm). exists m. split; [|done].
    assert (q `prefix_of` input_directory self key ∧ q ≠ input_directory self key) as [Hpre Hne].
    { unfold input_directory, join. destruct Hq as [->| ->].
      - split; [do 2 apply prefix_app_r; done|]. intros E%(f_equal length). rewrite !length_app in E. cbn in E. lia.
      - split; [by apply prefix_app_r|]. intros E%(f_equal length). rewrite !length_app in E. cbn in E. lia. }
    eapply (atomic_write_ancestors _ CURRENT_FILE); [exact Hwf1|exact E2|done|done|].
    by eapply (atomic_write_ancestors _ PREVIOUS_FILE); [exact Hwf|exact E1|..].
  - done.
Qed.

(** ** Updates as a whole *)

(** A start that leaves the files of the input alone. *)
Lemma updated_after_start self key old new s s1 s' :
  base (lock_area self) (tree s) (past s) (tree s1) (past s1) →
  updated self key old new s1 s' → updated self key old new s s'.
Proof using Type.
  intros [_ [Ht Hv]%evolves_paths] [U1 U2 U3].
  assert (∀ x, tree s1 !! (input_directory self key ++ [x]) = tree s !! (input_directory self key ++ [x])) as Ht'.
  { intros x. destruct (Ht (input_directory self key ++ [x])) as [|E]; [done|]. by apply lock_area_outside in E. }
  assert (∀ x v, v ∈ versions s1 → ∃ v0, v0 ∈ versions s
    ∧ v0 !! (input_directory self key ++ [x]) = v !! (input_directory self key ++ [x])) as Hv'.
  { intros x v Hin. destruct (Hv v (input_directory self key ++ [x]) Hin) as [|E]; [done|].
    by apply lock_area_outside in E. }
  split.
  - destruct U1 as [->|?]; [left; apply Ht'|by right].
  - intros v Hin. destruct (U2 v Hin) as [(v1 & Hin1 & <-)|?]; [left; by apply Hv'|by right].
  - intros v Hin. destruct (U3 v Hin) as [(v1 & Hin1 & <-)|?]; [left; by apply Hv'|by right].
Qed.

(** Nothing happened to the files of the input. *)
Definition untouched (self : FileCheckpointStore) (key : StateKey) (s s' : fs) : Prop :=
  ∀ x, tree s' !! (input_directory self key ++ [x]) = tree s !! (input_directory self key ++ [x])
    ∧ ∀ v, v ∈ versions s' → ∃ v0, v0 ∈ versions s
        ∧ v0 !! (input_directory self key ++ [x]) = v !! (input_directory self key ++ [x]).

Lemma start_untouched self key s s1 :
  base (lock_area self) (tree s) (past s) (tree s1) (past s1) → untouched self key s s1.
Proof using Type.
  intros [_ [Ht Hv]%evolves_paths] x. split.
  - destruct (Ht (input_directory self key ++ [x])) as [|E]; [done|]. by apply lock_area_outside in E.
  - intros v Hin. destruct (Hv v (input_directory self key ++ [x]) Hin) as [|E]; [done|].
    by apply lock_area_outside in E.
Qed.

(** The file of the tree that [load] decodes. *)
Definition current_is (self : FileCheckpointStore) (key : StateKey) (t : tree_t)
    (bytes : list byte) (cur : StoredState) : Prop :=
  (∃ m y, t !! current_path self key = Some (Regular m bytes y)) ∧ decode_envelope bytes = Ok cur.

(** The area of a whole update: the lock and the files of one input. *)
Definition whole_area (self : FileCheckpointStore) (key : StateKey) (q : path) (n : option node) : Prop :=
  lock_area self q n ∨ update_area self key q n.

(** An update that reached its writes: the old envelope had the expected token, the
    new one is the next revision of [v]. *)
Record published_as (self : FileCheckpointStore) (key : StateKey) (expected : StateToken)
    (cur : StoredState) (v : DurableInputState) (next : StoredState) (s s' : fs)
    (r : result StateStoreError StoredState) : Prop := mkPublishedAs {
  pa_cur : token cur = expected;
  pa_key : StateKey_for_input (input_id (value cur)) = key;
  pa_area : base (whole_area self key) (tree s) (past s) (tree s') (past s');
  pa_files : ∃ old new, current_is self key (tree s) old cur ∧ decode_envelope new = Ok next
    ∧ encode_envelope v (revision expected + 1) = Ok new ∧ in_u64 (revision expected + 1)
    ∧ updated self key old new s s'
    ∧ ∀ stored, r = Ok stored → stored = next
        ∧ tree s' !! input_directory self key = Some (Dir MODE_PRIVATE_DIR) ∧ private_dirs self (tree s')
        ∧ ∀ t, t ∈ versions s' → t !! current_path self key = private_file new
            ∧ t !! previous_path self key = private_file old;
}.

(** What [k] does once the current envelope is known. *)
Lemma replace_run self key bytes cur v s s' r :
  wf_tree (tree s) → replace_current_unlocked self key bytes cur v s = (s', r) →
  (∃ e, r = Err e ∧ s' = s)
  ∨ ∃ new next, decode_envelope new = Ok next ∧ encode_envelope v (revision (token cur) + 1) = Ok new
      ∧ in_u64 (revision (token cur) + 1)
      ∧ base (update_area self key) (tree s) (past s) (tree s') (past s')
      ∧ updated self key bytes new s s'
      ∧ ∀ stored, r = Ok stored → stored = next
          ∧ tree s' !! input_directory self key = Some (Dir MODE_PRIVATE_DIR)
          ∧ (private_dirs self (tree s) → private_dirs self (tree s'))
          ∧ ∀ t, t ∈ versions s' → t !! current_path self key = private_file new
              ∧ t !! previous_path self key = private_file bytes.
Proof using Type.
  intros Hwf Hrun. unfold replace_current_unlocked in Hrun.
  unfold mbind at 1, st_bind at 1, st_lift at 1 in Hrun.
  destruct (ok_or RevisionOverflow _) as [rev|e] eqn:Erev; [|injection Hrun as <- <-; left; by exists e].
  apply ok_or_ok, checked_add_some in Erev as [-> Hrev].
  unfold mbind at 1, st_bind at 1, st_lift at 1 in Hrun.
  destruct (encode_envelope v _) as [new|e] eqn:Eenc; [|injection Hrun as <- <-; left; by exists e].
  unfold mbind at 1, st_bind at 1, st_lift at 1 in Hrun.
  destruct (decode_envelope new) as [next|e] eqn:Edec; [|injection Hrun as <- <-; left; by exists e].
  apply publish_run in Hrun as (Hb & Hup & Hok); [|done]. right. exists new, next. by split_and!.
Qed.

(** From the state after the start to the state before it. *)
Lemma published_from_start self key expected old cur v new next s s1 s' r :
  base (lock_area self) (tree s) (past s) (tree s1) (past s1) →
  holds (tree s1) (current_path self key) old cur → private_dirs self (tree s1) →
  StateKey_for_input (input_id (value cur)) = key → token cur = expected →
  decode_envelope new = Ok next → encode_envelope v (revision expected + 1) = Ok new →
  in_u64 (revision expected + 1) →
  base (update_area self key) (tree s1) (past s1) (tree s') (past s') →
  updated self key old new s1 s' →
  (∀ stored, r = Ok stored → stored = next
     ∧ tree s' !! input_directory self key = Some (Dir MODE_PRIVATE_DIR)
     ∧ (private_dirs self (tree s1) → private_dirs self (tree s'))
     ∧ ∀ t, t ∈ versions s' → t !! current_path self key = private_file new
         ∧ t !! previous_path self key = private_file old) →
  published_as self key expected cur v next s s' r.
Proof using Type.
  intros Hb1 (_ & (m & y & Ef & _) & Hdec) Hdirs Hkey Htok Hnext Henc Hrev Hb2 Hup Hok. split; [done|done| |].
  - eapply base_trans; [exact Hb1|exact Hb2|intros q n Hq; by left|intros q n Hq; by right].
  - exists old, new. split_and!; try done; [|by eapply updated_after_start|].
    2: { intros stored (-> & Hd & Hp & Hall)%Hok. split_and!; [done|done|by apply Hp|done]. }
    split; [|done]. exists m, y. rewrite <- Ef. symmetry. apply (start_untouched _ key _ _ Hb1 CURRENT_FILE).
Qed.

Lemma compare_exchange_run self key expected v s s' r :
  wf_tree (tree s) → compare_exchange self key expected v s = (s', r) →
  (∃ e, r = Err e ∧ untouched self key s s' ∧ base (lock_area self) (tree s) (past s) (tree s') (past s'))
  ∨ ∃ cur next, published_as self key expected cur v next s s' r
      ∧ validate_key key v = Ok tt ∧ validate_transition (value cur) v = Ok tt.
Proof using Type.
  intros Hwf Hrun. unfold compare_exchange in Hrun.
  assert (∀ e, s' = s → r = Err e →
    ∃ e, r = Err e ∧ untouched self key s s' ∧ base (lock_area self) (tree s) (past s) (tree s') (past s')) as Hnone.
  { intros e -> ->. exists e. split; [done|]. split; [apply start_untouched|]; by apply base_refl. }
  unfold mbind at 1, st_bind at 1, st_lift at 1 in Hrun.
  destruct (validate_key key v) as [[]|e] eqn:Ekey; [|injection Hrun as <- <-; left; by eapply Hnone].
  unfold mbind at 1, st_bind at 1, st_lift at 1 in Hrun.
  destruct (map_err _ _) as [[]|e]; [|injection Hrun as <- <-; left; by eapply Hnone].
  apply (begin_run _ _ _ (λ bytes cur, _ ← st_lift (validate_transition (value cur) v);
    replace_current_unlocked self key bytes cur v)) in Hrun; [|done].
  destruct Hrun as [(e & -> & Hb)|(s1 & old & cur & Hb & Hh & Hk & Hdirs & Htok & Hrun)].
  { left. exists e. split; [done|]. split; [by apply start_untouched|done]. }
  unfold mbind, st_bind, st_lift in Hrun.
  destruct (validate_transition (value cur) v) as [[]|e] eqn:Etr.
  2: { injection Hrun as <- <-. left. exists e. split; [done|]. split; [by apply start_untouched|done]. }
  apply replace_run in Hrun as [(e & -> & ->)|(new & next & Hdec & Henc & Hrev & Hb2 & Hup & Hok)]; [| |apply Hb].
  - left. exists e. split; [done|]. split; [by apply start_untouched|done].
  - right. exists cur, next. split; [|done]. rewrite Htok in *. by eapply published_from_start.
Qed.
End Updates.
