(* ===== verification/StateStoreRuns.v ===== *)
(** * What the checkpoint store guarantees

    The theorems on the methods of [FileCheckpointStore]: exact effect of a
    successful update, what every failure and crash can leave, reversal of a restore,
    isolation of the inputs, and reading back. *)

From S2P Require Export StateStoreProps.

Local Open Scope N_scope.
Import StateStoreError.

Section Guarantees.
Context `{Sha256, SerdeJson}.

Lemma encode_decode `{!SerdeJsonLaws} v rev new next :
  in_u64 rev → encode_envelope v rev = Ok new → decode_envelope new = Ok next →
  value next = v ∧ revision (token next) = rev.
Proof using Type*.
  intros Hr (payload & Hv & Hj & Hf & ->)%encode_envelope_ok Hdec; [|done].
  rewrite (decode_frame _ _ v) in Hdec by (done || by apply json_round_trip). by injection Hdec as <-.
Qed.

(** What an acknowledged update means: the tree, and every version a crash may reveal,
    hold the next revision of [v] next to the envelope it replaced. *)
Record acknowledged (self : FileCheckpointStore) (key : StateKey) (expected : StateToken)
    (cur : StoredState) (v : DurableInputState) (stored : StoredState) (s s' : fs) : Prop := mkAcknowledged {
  ack_cur : token cur = expected;
  ack_value : value stored = v;
  ack_revision : revision (token stored) = revision expected + 1;
  ack_files : ∃ old new, current_is self key (tree s) old cur ∧ decode_envelope new = Ok stored
    ∧ tree s' !! current_path self key = private_file new
    ∧ (∀ n, after_crash s' (current_path self key) n → n = private_file new)
    ∧ (∀ n, after_crash s' (previous_path self key) n → n = private_file old);
}.

Lemma published_acknowledged `{!SerdeJsonLaws} self key expected cur v next s s' stored :
  published_as self key expected cur v next s s' (Ok stored) → acknowledged self key expected cur v stored s s'.
Proof using Type*.
  intros [Htok Hkey Harea (old & new & Hcur & Hdec & Henc & Hrev & Hup & Hok)].
  destruct (Hok stored eq_refl) as (-> & Hdir & _ & Hall).
  destruct (encode_decode _ _ _ _ Hrev Henc Hdec) as [Hv Hr]. split; [done..|].
  exists old, new. split_and!; try done; [apply Hall; left| |].
  - intros n (t & Hin & Hn). destruct (Hall t Hin) as [E _]. rewrite E in Hn. by apply survives_regular.
  - intros n (t & Hin & Hn). destruct (Hall t Hin) as [_ E]. rewrite E in Hn. by apply survives_regular.
Qed.


(** C39: whatever fails, a crash at any point included, an ordinary update leaves the
    files of the input as they were or the complete next revision: the current file is
    the old one or the new one, and wherever the new one is visible the previous file is
    the exact envelope it replaced.  A new revision appears only if the expected token
    was current and the transition allowed. *)
Theorem compare_exchange_recoverable `{!SerdeJsonLaws} self key expected v s s' r :
  wf_tree (tree s) → compare_exchange self key expected v s = (s', r) →
  untouched self key s s'
  ∨ ∃ cur old new next, current_is self key (tree s) old cur ∧ token cur = expected
      ∧ validate_transition (value cur) v = Ok tt
      ∧ decode_envelope new = Ok next ∧ value next = v ∧ revision (token next) = revision expected + 1
      ∧ updated self key old new s s'.
Proof using Type*.
  intros Hwf Hrun. apply compare_exchange_run in Hrun as [(e & _ & ? & _)|(cur & next & Hp & Hk & Ht)]; [by left| |done].
  right. destruct Hp as [Htok Hkey Harea (old & new & Hcur & Hdec & Henc & Hrev & Hup & Hok)].
  destruct (encode_decode _ _ _ _ Hrev Henc Hdec) as [Hv Hr].
  exists cur, old, new, next. by split_and!.
Qed.

Lemma current_is_unique self key t old cur old' cur' :
  current_is self key t old cur → current_is self key t old' cur' → old = old' ∧ cur = cur'.
Proof using Type.
  intros [(m & y & E) D] [(m' & y' & E') D']. rewrite E in E'. injection E' as _ <- _.
  rewrite D in D'. by injection D' as <-.
Qed.

(** An update whose expected token is not the current one fails and changes
    neither file of the input, in the tree or in any version a crash may reveal. *)
Theorem stale_token_refused self key expected v s s' r old cur :
  wf_tree (tree s) → compare_exchange self key expected v s = (s', r) →
  current_is self key (tree s) old cur → token cur ≠ expected →
  (∃ e, r = Err e) ∧ untouched self key s s'.
Proof using Type.
  intros Hwf Hrun Hcur Hne. apply compare_exchange_run in Hrun as [(e & -> & ? & _)|(cur' & next & Hp & _)]; [|..|done].
  - split; [by exists e|done].
  - destruct Hp as [Htok _ _ (old' & new & Hcur' & _)].
    destruct (current_is_unique _ _ _ _ _ _ _ Hcur Hcur') as [_ <-]. done.
Qed.

(** ** Isolation of the inputs *)

Lemma directory_name_inj (k k' : StateKey) : directory_name k = directory_name k' → k = k'.
Proof using Type.
  intros E. apply (f_equal (decode_hex 32)) in E. unfold directory_name in E.
  rewrite !decode_encode_hex in E. by injection E.
Qed.

Lemma whole_area_other self key key' x n :
  key' ≠ key → ¬ whole_area self key (input_directory self key' ++ [x]) n.
Proof using Type.
  intros Hne [Hl|Hu]; [by apply lock_area_outside in Hl|].
  assert (∀ y, input_directory self key' ++ [x] ≠ input_directory self key ++ [y]) as Hdir.
  { intros y E. apply app_inj_2 in E as [E _]; [|done]. unfold input_directory, join in E.
    apply app_inj_2 in E as [_ E]; [|done]. injection E as E%directory_name_inj. by apply Hne. }
  destruct Hu as [Hp%prefix_length|[[l E]|[E|E]]]; [|by apply Hdir in E..].
  unfold input_directory, join in Hp. rewrite !length_app in Hp. cbn in Hp. lia.
Qed.

Lemma area_untouched self key key' s s' :
  key' ≠ key → base (whole_area self key) (tree s) (past s) (tree s') (past s') → untouched self key' s s'.
Proof using Type.
  intros Hne [_ [Ht Hv]%evolves_paths] x. pose proof (λ n, whole_area_other self key key' x n Hne) as Hno. split.
  - destruct (Ht (input_directory self key' ++ [x])) as [|E]; [done|]. by destruct (Hno _ E).
  - intros v Hin. destruct (Hv v (input_directory self key' ++ [x]) Hin) as [|E]; [done|]. by destruct (Hno _ E).
Qed.

(** ** Activation and restore *)

Lemma activate_run self key expected fp s s' r :
  wf_tree (tree s) → activate_configuration self key expected fp s = (s', r) →
  (∃ e, r = Err e ∧ untouched self key s s' ∧ base (lock_area self) (tree s) (past s) (tree s') (past s'))
  ∨ ∃ cur v next, published_as self key expected cur v next s s' r
      ∧ configuration_fingerprint (value cur) ≠ fp
      ∧ active_scan (value cur) = None ∧ active_attempt (coordinator (value cur)) = None
      ∧ activated (value cur) fp = Ok v.
Proof using Type.
  intros Hwf Hrun. unfold activate_configuration in Hrun.
  apply (begin_run _ _ _ (λ bytes cur,
    if decide (configuration_fingerprint (value cur) = fp) then mthrow ConfigurationUnchanged else
    if decide (active_scan (value cur) ≠ None ∨ active_attempt (coordinator (value cur)) ≠ None)
    then mthrow ConfigurationActivationBlocked else
    next ← st_lift (activated (value cur) fp); replace_current_unlocked self key bytes cur next)) in Hrun; [|done].
  destruct Hrun as [(e & -> & Hb)|(s1 & old & cur & Hb & Hh & Hk & Hdirs & Htok & Hrun)].
  { left. exists e. split; [done|]. split; [by apply start_untouched|done]. }
  assert (∀ e, (∃ e', (Err e : result StateStoreError StoredState) = Err e' ∧ untouched self key s s1
    ∧ base (lock_area self) (tree s) (past s) (tree s1) (past s1))) as Hnone.
  { intros e. exists e. split; [done|]. split; [by apply start_untouched|done]. }
  case_decide as Hfp; [injection Hrun as <- <-; left; apply Hnone|].
  case_decide as Hact; [injection Hrun as <- <-; left; apply Hnone|].
  unfold mbind, st_bind, st_lift in Hrun.
  destruct (activated (value cur) fp) as [v|e] eqn:Ea; [|injection Hrun as <- <-; left; apply Hnone].
  apply replace_run in Hrun as [(e & -> & ->)|(new & next & Hdec & Henc & Hrev & Hb2 & Hup & Hok)];
    [left; apply Hnone| |apply Hb].
  right. exists cur, v, next. rewrite Htok in *. split; [by eapply published_from_start|].
  split; [done|]. split; [|split; [|done]]; apply dec_stable; tauto.
Qed.

Lemma activated_ok cur fp v :
  activated cur fp = Ok v →
  state_validate v = Ok tt ∧ input_id v = input_id cur
  ∧ source_lineage_fingerprint v = source_lineage_fingerprint cur
  ∧ cursor_identity_fingerprint v = cursor_identity_fingerprint cur
  ∧ configuration_fingerprint v = fp
  ∧ configuration_generation v = configuration_generation cur + 1
  ∧ generation (coordinator v) = generation (coordinator cur)
  ∧ committed (coordinator v) = committed (coordinator cur)
  ∧ configuration_id (coordinator v) = configuration_fence_id fp (configuration_generation cur + 1)
  ∧ active_attempt (coordinator v) = None ∧ active_scan v = active_scan cur.
Proof using Type.
  unfold activated. intros (gen & [-> _]%ok_or_ok%checked_add_some & Hrun)%result_bind_ok.
  apply result_bind_ok in Hrun as ([] & Hv%map_err_ok & Hrun). injection Hrun as <-. by split_and!.
Qed.

(** a successful activation needs an idle input and a new fingerprint; it stores,
    as the next revision and durably, the next configuration generation under the new
    fence, with the checkpoint cursor, its generation and the lineage identities
    preserved and no attempt or scan. *)
Theorem activate_configuration_exact `{!SerdeJsonLaws} self key expected fp s s' stored :
  wf_tree (tree s) → activate_configuration self key expected fp s = (s', Ok stored) →
  ∃ cur, acknowledged self key expected cur (value stored) stored s s'
    ∧ configuration_fingerprint (value cur) ≠ fp ∧ configuration_fingerprint (value stored) = fp
    ∧ configuration_generation (value stored) = configuration_generation (value cur) + 1
    ∧ configuration_id (coordinator (value stored))
        = configuration_fence_id fp (configuration_generation (value stored))
    ∧ committed (coordinator (value stored)) = committed (coordinator (value cur))
    ∧ generation (coordinator (value stored)) = generation (coordinator (value cur))
    ∧ source_lineage_fingerprint (value stored) = source_lineage_fingerprint (value cur)
    ∧ cursor_identity_fingerprint (value stored) = cursor_identity_fingerprint (value cur)
    ∧ active_attempt (coordinator (value cur)) = None ∧ active_attempt (coordinator (value stored)) = None
    ∧ active_scan (value cur) = None ∧ active_scan (value stored) = None.
Proof using Type*.
  intros Hwf Hrun. apply activate_run in Hrun as
    [(e & ? & _)|(cur & v & next & Hp & Hfp & Hscan & Hatt & Ha)]; [done| |done].
  apply published_acknowledged in Hp as Hack. pose proof (ack_value _ _ _ _ _ _ _ _ Hack) as Hv.
  apply activated_ok in Ha as (_ & _ & A1 & A2 & A3 & A4 & A5 & A6 & A7 & A8 & A9).
  rewrite <- Hv in *. exists cur. rewrite A4, A9. split_and!; try done. 
Qed.

Lemma restore_run self key expected s s' r :
  wf_tree (tree s) → restore_previous self key expected s = (s', r) →
  (∃ e, r = Err e ∧ untouched self key s s' ∧ base (lock_area self) (tree s) (past s) (tree s') (past s'))
  ∨ ∃ cur prev next before, published_as self key expected cur (value prev) next s s' r
      ∧ (∃ m y, tree s !! previous_path self key = Some (Regular m before y))
      ∧ decode_envelope before = Ok prev.
Proof using Type.
  intros Hwf Hrun. unfold restore_previous in Hrun.
  apply (begin_run _ _ _ (λ bytes cur,
    p ← read_envelope (previous_path self key);
    match p with
    | None => mthrow MissingBackup
    | Some (_, previous) =>
        _ ← st_lift (validate_key key (value previous));
        next_revision ← st_lift (ok_or RevisionOverflow (checked_add (revision (token cur)) 1));
        restored_bytes ← st_lift (encode_envelope (value previous) next_revision);
        restored ← st_lift (decode_envelope restored_bytes);
        _ ← from_secure (atomic_write (previous_path self key) bytes MODE_PRIVATE_FILE);
        _ ← from_secure (atomic_write (current_path self key) restored_bytes MODE_PRIVATE_FILE);
        mret restored
    end)) in Hrun; [|done].
  destruct Hrun as [(e & -> & Hb)|(s1 & old & cur & Hb & Hh & Hk & Hdirs & Htok & Hrun)].
  { left. exists e. split; [done|]. split; [by apply start_untouched|done]. }
  assert (∀ l e, (∃ e', (Err e : result StateStoreError StoredState) = Err e' ∧ untouched self key s (set_faults l s1)
    ∧ base (lock_area self) (tree s) (past s) (tree s1) (past s1))) as Hnone.
  { intros l e. exists e. split; [done|]. split; [by apply start_untouched|done]. }
  destruct (ro_read_envelope (previous_path self key) s1) as [l El].
  unfold mbind at 1, st_bind at 1 in Hrun.
  destruct (read_envelope (previous_path self key) s1) as [s2 [[[before prev]|]|e]] eqn:Er; cbn in El; subst s2;
    [|injection Hrun as <- <-; left; apply Hnone..].
  apply read_envelope_some in Er as [_ (_ & (m & y & Ef & _) & Hprev)]; [|apply Hb].
  unfold mbind at 1, st_bind at 1, st_lift at 1 in Hrun.
  destruct (validate_key key (value prev)) as [[]|e]; [|injection Hrun as <- <-; left; apply Hnone].
  change (replace_current_unlocked self key old cur (value prev) (set_faults l s1) = (s', r)) in Hrun.
  apply replace_run in Hrun as [(e & -> & ->)|(new & next & Hdec & Henc & Hrev & Hb2 & Hup & Hok)];
    [left; apply Hnone| |apply Hb].
  right. exists cur, prev, next, before. rewrite Htok in *. split.
  - by apply (published_from_start self key expected old cur (value prev) new next s (set_faults l s1) s' r).
  - split; [|done]. exists m, y. rewrite <- Ef. symmetry. apply (start_untouched _ key _ _ Hb PREVIOUS_FILE).
Qed.

(** A successful restore stores the value of the previous envelope as the next
    revision, durably, and the envelope it replaces becomes the previous one. *)
Theorem restore_previous_exact `{!SerdeJsonLaws} self key expected s s' stored :
  wf_tree (tree s) → restore_previous self key expected s = (s', Ok stored) →
  ∃ cur prev before, (∃ m y, tree s !! previous_path self key = Some (Regular m before y))
    ∧ decode_envelope before = Ok prev
    ∧ acknowledged self key expected cur (value prev) stored s s'.
Proof using Type*.
  intros Hwf Hrun. apply restore_run in Hrun as
    [(e & ? & _)|(cur & prev & next & before & Hp & Hf & Hdec)]; [done| |done].
  exists cur, prev, before. split_and!; try done. by eapply published_acknowledged.
Qed.

(** Restoring twice is the identity on the value: the second restore, with the
    token the first one returned, brings the original state back two revisions later. *)
Theorem restore_reversible `{!SerdeJsonLaws} self key expected s s1 s2 st1 st2 :
  wf_tree (tree s) → restore_previous self key expected s = (s1, Ok st1) →
  restore_previous self key (token st1) s1 = (s2, Ok st2) →
  ∃ old cur, current_is self key (tree s) old cur ∧ token cur = expected
    ∧ value st2 = value cur ∧ revision (token st2) = revision expected + 2.
Proof using Type*.
  intros Hwf Hrun1 Hrun2.
  apply restore_run in Hrun1 as [(e & ? & _)|(cur & prev & next & before & Hp & Hf & Hdec)]; [done| |done].
  pose proof (published_acknowledged _ _ _ _ _ _ _ _ _ Hp) as [A1 A2 A3 _].
  destruct Hp as [Htok _ [Hwf1 _] (old & new & Hcur & _ & _ & _ & _ & Hok)].
  destruct (Hok st1 eq_refl) as (_ & _ & _ & Hall). destruct (Hall (tree s1)) as [_ Eprev]; [left|].
  apply restore_run in Hrun2 as [(e & ? & _)|(cur2 & prev2 & next2 & before2 & Hp2 & (m & y & Ef) & Hdec2)]; [done| |done].
  rewrite Eprev in Ef. injection Ef as _ <- _. destruct Hcur as [Hfile Hcurdec]. rewrite Hcurdec in Hdec2. injection Hdec2 as <-.
  apply published_acknowledged in Hp2 as [_ B2 B3 _]. exists old, cur. split_and!; try done. rewrite B3, A3. lia.
Qed.

(** An update of one input, of any kind and with any outcome, changes no file of
    another input. *)
Theorem inputs_isolated self key key' s s' expected v fp :
  wf_tree (tree s) → key' ≠ key →
  (s' = (compare_exchange self key expected v s).1 ∨ s' = (activate_configuration self key expected fp s).1
   ∨ s' = (restore_previous self key expected s).1) →
  untouched self key' s s'.
Proof using Type.
  intros Hwf Hne Hs.
  assert (∀ s', base (lock_area self) (tree s) (past s) (tree s') (past s') → untouched self key' s s') as Hlock
    by (intros s0; apply start_untouched).
  destruct Hs as [->|[->| ->]].
  - destruct (compare_exchange self key expected v s) as [s' r] eqn:E. 
    apply compare_exchange_run in E as [(e & _ & _ & Hb)|(cur & next & [_ _ Hb _] & _)]; [by apply Hlock| |done].
    by eapply area_untouched.
  - destruct (activate_configuration self key expected fp s) as [s' r] eqn:E.
    apply activate_run in E as [(e & _ & _ & Hb)|(cur & v' & next & [_ _ Hb _] & _)]; [by apply Hlock| |done].
    by eapply area_untouched.
  - destruct (restore_previous self key expected s) as [s' r] eqn:E.
    apply restore_run in E as [(e & _ & _ & Hb)|(cur & prev & next & before & [_ _ Hb _] & _)]; [by apply Hlock| |done].
    by eapply area_untouched.
Qed.
(** ** Reading back *)

(** Loading changes neither the tree nor any version, whatever it finds; what it
    returns is the decoded content of the current file, private, of this input and
    reached without links, and [Missing] only when there is no such file. *)
Theorem load_exact self key s s' r :
  wf_tree (tree s) → load self key s = (s', r) →
  (∃ l, s' = set_faults l s)
  ∧ match r with
    | Ok (Current st) => ∃ bytes, holds (tree s) (current_path self key) bytes st
        ∧ StateKey_for_input (input_id (value st)) = key
    | Ok Missing => tree s !! current_path self key = None
    | Err _ => True
    end.
Proof using Type.
  intros Hwf Hrun. destruct (ro_load self key s) as [l Hl]. rewrite Hrun in Hl. cbn in Hl. split; [by exists l|].
  destruct r as [res|]; [|done]. unfold load in Hrun.
  apply st_bind_ok in Hrun as ([] & s1 & Hlock & Hrun).
  destruct (ro_lock_writer self s) as [l1 E1]. rewrite Hlock in E1. cbn in E1. subst s1.
  unfold load_unlocked in Hrun. apply st_bind_ok in Hrun as ([[bytes st]|] & s1 & Hread & Hrun).
  - injection Hrun as _ <-. apply read_current_some in Hread as (_ & Hh & Hk & _); [|done]. by exists bytes.
  - injection Hrun as _ <-. unfold read_current_unlocked in Hread.
    apply st_bind_ok in Hread as ([] & s2 & Hv & Hread).
    destruct (ro_validate_inputs self key (set_faults l1 s)) as [l2 E2]. rewrite Hv in E2. cbn [fst] in E2. subst s2.
    apply st_bind_ok in Hread as ([[bytes st]|] & s2 & Hread & Hrest).
    + by apply st_bind_ok in Hrest as (? & ? & _ & Hrest).
    + by apply read_envelope_none in Hread as (_ & _ & ?).
Qed.

Lemma quiet_validate_directory d m s :
  quiet s → wf_tree (tree s) → tree s !! d = Some (Dir m) → N.land m OTHERS = 0 →
  validate_directory_if_exists d s = (s, Ok tt).
Proof using Type.
  intros Hq Hwf E Hm. unfold validate_directory_if_exists, mbind, st_bind, try_call.
  rewrite (quiet_found d (Dir m)) by done. cbn. unfold validate_private_directory_mode. cbn.
  by rewrite decide_False by (by intros ?).
Qed.

Lemma decode_envelope_short bytes st : decode_envelope bytes = Ok st → lengthN bytes ≤ MAX_ENVELOPE_BYTES.
Proof using Type. unfold decode_envelope. case_decide; [done|]. intros _. lia. Qed.

Lemma quiet_read_envelope p m bytes y st s :
  quiet s → wf_tree (tree s) → plain p (tree s) → tree s !! p = Some (Regular m bytes y) →
  N.land m OTHERS = 0 → decode_envelope bytes = Ok st →
  read_envelope p s = (s, Ok (Some (bytes, st))).
Proof using Type.
  intros Hq Hwf Hpl E Hm Hdec. pose proof (decode_envelope_short _ _ Hdec) as Hlen. unfold read_envelope.
  rewrite (st_bind_run _ _ _ s (Some (Regular m bytes y))).
  2: { unfold inspect_file, mbind, st_bind, try_call. by rewrite (quiet_found p (Regular m bytes y)) by done. }
  rewrite decide_False by (cbn; lia).
  rewrite (st_lift_run _ _ _ tt).
  2: { unfold validate_state_file_mode. cbn. by rewrite decide_False by (by intros ?). }
  rewrite (st_bind_run _ _ _ s bytes) by (apply st_map_err_ok; by eapply quiet_read_limited).
  by rewrite (st_lift_run _ _ _ st).
Qed.

(** once an update was acknowledged and nothing fails, [load] returns exactly the
    acknowledged state with its token. *)
Theorem load_after_update `{!SerdeJsonLaws} self key expected v s s' stored :
  wf_tree (tree s) → compare_exchange self key expected v s = (s', Ok stored) →
  load self key (set_faults [] s') = (set_faults [] s', Ok (Current stored)).
Proof using Type*.
  intros Hwf Hrun. pose proof Hrun as Hrun0.
  apply compare_exchange_run in Hrun as [(e & ? & _)|(cur & next & Hp & Hkey & _)]; [done| |done].
  destruct Hp as [_ _ [Hwf' _] (old & new & _ & Hdec & Henc & Hrev & _ & Hok)].
  destruct (Hok stored eq_refl) as (-> & Hdir & Hdirs & Hall).
  destruct (Hall (tree s')) as [Ecur _]; [left|].
  destruct (encode_decode _ _ _ _ Hrev Henc Hdec) as [Hv _].
  assert (writer_poisoned self = false) as Hpois.
  { unfold compare_exchange in Hrun0. apply st_bind_ok in Hrun0 as (? & ? & _ & Hrun0).
    apply st_bind_ok in Hrun0 as (? & ? & _ & Hrun0). apply st_bind_ok in Hrun0 as (? & ? & Hlock & _).
    unfold lock_writer in Hlock. by destruct (writer_poisoned self). }
  set (s1 := set_faults [] s'). assert (quiet s1) as Hq by done. change (tree s') with (tree s1) in *.
  assert (plain (current_path self key) (tree s1)) as Hpl.
  { by eapply plain_regular. }
  unfold load. rewrite (st_bind_run _ _ _ s1 tt) by (unfold lock_writer; by rewrite Hpois).
  unfold load_unlocked. rewrite (st_bind_run _ _ _ s1 (Some (new, next))); [done|].
  unfold read_current_unlocked. rewrite (st_bind_run _ _ _ s1 tt).
  2: { unfold validate_input_directories.
       destruct (Hdirs (root self)) as (m1 & E1 & Hm1); [by left|].
       destruct (Hdirs (root self ++ [INPUTS])) as (m2 & E2 & Hm2); [by right|].
       rewrite (st_bind_run _ _ _ s1 tt) by (by eapply quiet_validate_directory).
       rewrite (st_bind_run _ _ _ s1 tt) by (by eapply quiet_validate_directory).
       by eapply quiet_validate_directory. }
  rewrite (st_bind_run _ _ _ s1 (Some (new, next))) by (by eapply quiet_read_envelope).
  cbv iota beta. by rewrite (st_lift_run _ _ _ tt) by (by rewrite Hv).
Qed.
(** ** Creation *)

Lemma base_untouched self key A s s' :
  (∀ x n, ¬ A (input_directory self key ++ [x]) n) →
  base A (tree s) (past s) (tree s') (past s') → untouched self key s s'.
Proof using Type.
  intros Hno [_ [Ht Hv]%evolves_paths] x. split.
  - destruct (Ht (input_directory self key ++ [x])) as [|E]; [done|]. by destruct (Hno _ _ E).
  - intros v Hin. destruct (Hv v (input_directory self key ++ [x]) Hin) as [|E]; [done|]. by destruct (Hno _ _ E).
Qed.

(** What creation writes before the envelope: the lock and missing directories. *)
Definition directories (self : FileCheckpointStore) (key : StateKey) (q : path) (n : option node) : Prop :=
  lock_area self q n ∨ q `prefix_of` input_directory self key.

Lemma directories_outside self key x n : ¬ directories self key (input_directory self key ++ [x]) n.
Proof using Type. intros [Hl|Hp]; [by apply lock_area_outside in Hl|by apply prefix_snoc_not in Hp]. Qed.

Lemma footprint_ensure_input self key : footprint (directories self key) (ensure_input_directory self key).
Proof using Type.
  assert (∀ d, d `prefix_of` input_directory self key → footprint (directories self key) (ensure_directory d)) as Hd.
  { intros d Hd. eapply footprint_mono; [|apply footprint_ensure_directory]. intros q n Hq. right. cbn beta in Hq. by etrans. }
  unfold ensure_input_directory. apply footprint_bind; [apply Hd|intros []; apply footprint_bind; [apply Hd|intros []; by apply Hd]].
  - unfold input_directory, join. by do 2 apply prefix_app_r.
  - unfold input_directory, join. by apply prefix_app_r.
Qed.

(** The checks of [create] once the lock is held: on success both files are missing. *)
Lemma create_checks_run self key s s' r :
  wf_tree (tree s) →
  (_ ← lock_writer self; _ ← acquire_writer_lock self; _ ← ensure_input_directory self key;
   existing ← read_envelope (current_path self key);
   if decide (existing ≠ None) then mthrow StateStoreError.AlreadyExists else
   backup ← inspect_file (previous_path self key);
   if decide (backup ≠ None) then mthrow OrphanedBackup else mret tt : store ()) s = (s', r) →
  base (directories self key) (tree s) (past s) (tree s') (past s')
  ∧ (r = Ok tt → tree s' !! current_path self key = None ∧ tree s' !! previous_path self key = None
      ∧ writer_poisoned self = false).
Proof using Type.
  intros Hwf Hrun.
  match type of Hrun with ?m s = _ => assert (footprint (directories self key) m) as Hfp end.
  { apply footprint_bind; [apply footprint_read_only, ro_lock_writer|intros []].
    apply footprint_bind; [eapply footprint_mono; [|apply footprint_acquire]; intros q n Hq; by left|intros ?].
    apply footprint_bind; [apply footprint_ensure_input|intros []].
    apply footprint_read_only. pose proof ro_read_envelope. read_only. }
  specialize (Hfp s Hwf). rewrite Hrun in Hfp. cbn [fst] in Hfp. split; [done|]. intros ->.
  apply st_bind_ok in Hrun as ([] & s1 & Hlock & Hrun). apply st_bind_ok in Hrun as (file & s2 & Hacq & Hrun).
  destruct (ro_lock_writer self s) as [l1 E1]. rewrite Hlock in E1. cbn [fst] in E1. subst s1.
  pose proof (footprint_acquire self (set_faults l1 s) Hwf) as Hb2. rewrite Hacq in Hb2. cbn [fst] in Hb2.
  destruct Hb2 as [Hwf2 _]. apply st_bind_ok in Hrun as ([] & s3 & Hens & Hrun).
  pose proof (footprint_ensure_input self key s2 Hwf2) as Hb3. rewrite Hens in Hb3. cbn [fst] in Hb3.
  destruct Hb3 as [Hwf3 _]. apply st_bind_ok in Hrun as (existing & s4 & Hread & Hrun).
  case_decide as He; [done|]. apply dec_stable in He || idtac. subst existing.
  apply read_envelope_none in Hread as (l4 & -> & Hcur); [|done].
  apply st_bind_ok in Hrun as (backup & s5 & Hins & Hrun). case_decide as Hbk; [done|]. subst backup.
  apply inspect_file_none in Hins as (l5 & -> & Hprev); [|done]. injection Hrun as <-.
  split_and!; [done|done|]. unfold lock_writer in Hlock. by destruct (writer_poisoned self).
Qed.

Lemma create_run `{!SerdeJsonLaws} self key v s s' r :
  wf_tree (tree s) → create self key v s = (s', r) →
  (untouched self key s s' ∧ ∃ e, r = Err e)
  ∨ ∃ new stored, tree s !! current_path self key = None ∧ tree s !! previous_path self key = None
      ∧ validate_key key v = Ok tt ∧ state_validate v = Ok tt
      ∧ decode_envelope new = Ok stored ∧ value stored = v ∧ revision (token stored) = 1
      ∧ (tree s' !! current_path self key = None ∨ tree s' !! current_path self key = private_file new)
      ∧ (∀ t, t ∈ versions s' → (∃ t0, t0 ∈ versions s ∧ t0 !! current_path self key = t !! current_path self key)
            ∨ t !! current_path self key = private_file new)
      ∧ ∀ st, r = Ok st → st = stored
          ∧ ∀ t, t ∈ versions s' → t !! current_path self key = private_file new.
Proof using Type*.
  intros Hwf Hrun. unfold create in Hrun.
  assert (∀ e, s' = s → r = Err e → untouched self key s s' ∧ ∃ e, r = Err e) as Hnone.
  { intros e -> ->. split; [|by exists e]. intros x. split; [done|]. intros t Hin. by exists t. }
  unfold mbind at 1, st_bind at 1, st_lift at 1 in Hrun.
  destruct (validate_key key v) as [[]|e] eqn:Ekey; [|injection Hrun as <- <-; left; by eapply Hnone].
  unfold mbind at 1, st_bind at 1, st_lift at 1 in Hrun.
  destruct (map_err map_validation_error (state_validate v)) as [[]|e] eqn:Eval;
    [|injection Hrun as <- <-; left; by eapply Hnone]. apply map_err_ok in Eval.
  unfold mbind at 1, st_bind at 1, st_lift at 1 in Hrun.
  destruct (encode_envelope v 1) as [new|e] eqn:Eenc; [|injection Hrun as <- <-; left; by eapply Hnone].
  unfold mbind at 1, st_bind at 1, st_lift at 1 in Hrun.
  destruct (decode_envelope new) as [stored|e] eqn:Edec; [|injection Hrun as <- <-; left; by eapply Hnone].
  set (checks := (_ ← lock_writer self; _ ← acquire_writer_lock self; _ ← ensure_input_directory self key;
   existing ← read_envelope (current_path self key);
   if decide (existing ≠ None) then mthrow StateStoreError.AlreadyExists else
   backup ← inspect_file (previous_path self key);
   if decide (backup ≠ None) then mthrow OrphanedBackup else mret tt : store ())).
  assert ((_ ← checks; _ ← from_secure (atomic_write (current_path self key) new MODE_PRIVATE_FILE); mret stored) s
    = (s', r)) as Hrun'.
  { rewrite <- Hrun. unfold checks, mbind, st_bind. destruct (lock_writer self s) as [s1 [[]|]]; [|done].
    destruct (acquire_writer_lock self s1) as [s2 [f|]]; [|done].
    destruct (ensure_input_directory self key s2) as [s3 [[]|]]; [|done].
    destruct (read_envelope (current_path self key) s3) as [s4 [ex|]]; [|done].
    destruct (decide (ex ≠ None)); [done|].
    destruct (inspect_file (previous_path self key) s4) as [s5 [bk|]]; [|done].
    by destruct (decide (bk ≠ None)). }
  clear Hrun. unfold mbind at 1, st_bind at 1 in Hrun'. destruct (checks s) as [s1 r1] eqn:Ec.
  apply create_checks_run in Ec as [Hb Hok]; [|done].
  pose proof (base_untouched self key _ _ _ (directories_outside self key) Hb) as Hun.
  destruct r1 as [[]|e]; [|injection Hrun' as <- <-; left; split; [done|by eexists]].
  destruct (Hok eq_refl) as (Hcur & Hprev & _). clear Hok.
  destruct (Hun CURRENT_FILE) as [Ecur Vcur]. destruct (Hun PREVIOUS_FILE) as [Eprev _].
  change (input_directory self key ++ [CURRENT_FILE]) with (current_path self key) in *.
  change (input_directory self key ++ [PREVIOUS_FILE]) with (previous_path self key) in *.
  unfold from_secure, mbind, st_bind, st_map_err in Hrun'.
  destruct (atomic_write (current_path self key) new MODE_PRIVATE_FILE s1) as [s2 r2] eqn:Ew.
  destruct (atomic_write_self _ _ _ _ _ _ (proj1 Hb) Ew) as (Ht & Hv & Hok).
  destruct (encode_decode v 1 new stored) as [Hval Hrev]; [by vm_compute|done|done|].
  right. exists new, stored. rewrite <- Ecur, <- Eprev. destruct r2 as [[]|e2]; cbn [map_err] in Hrun';
    injection Hrun' as <- <-; split_and!; try done.
  - rewrite <- Hcur. done.
  - intros t Hin. destruct (Hv t Hin) as [(t0 & Hin0 & <-)|?]; [left; by apply Vcur|by right].
  - intros st [= <-]. split; [done|]. by destruct (Hok eq_refl).
  - rewrite <- Hcur. done.
  - intros t Hin. destruct (Hv t Hin) as [(t0 & Hin0 & <-)|?]; [left; by apply Vcur|by right].
Qed.

(** [create] succeeds only for a valid state of that input with no current and no
    previous file; it then stores exactly that state at revision one, and every version
    a crash may reveal holds the envelope.  Whatever fails, the current file afterwards
    is missing as before or the complete envelope of revision one. *)
Theorem create_exact `{!SerdeJsonLaws} self key v s s' r :
  wf_tree (tree s) → create self key v s = (s', r) →
  (untouched self key s s' ∧ ∃ e, r = Err e)
  ∨ ∃ new stored, tree s !! current_path self key = None ∧ tree s !! previous_path self key = None
      ∧ validate_key key v = Ok tt ∧ state_validate v = Ok tt
      ∧ decode_envelope new = Ok stored ∧ value stored = v ∧ revision (token stored) = 1
      ∧ (tree s' !! current_path self key = None ∨ tree s' !! current_path self key = private_file new)
      ∧ (∀ t, t ∈ versions s' → (∃ t0, t0 ∈ versions s ∧ t0 !! current_path self key = t !! current_path self key)
            ∨ t !! current_path self key = private_file new)
      ∧ ∀ st, r = Ok st → st = stored
          ∧ ∀ t, t ∈ versions s' → t !! current_path self key = private_file new.
Proof using Type*. apply create_run. Qed.

(** ** Every method keeps the tree well-formed *)

Lemma create_wf self key v s : wf_tree (tree s) → wf_tree (tree (create self key v s).1).
Proof using Type.
  intros Hwf. assert (footprint (λ _ _, True) (create self key v)) as Hfp; [|by destruct (Hfp s Hwf)].
  assert (∀ A (B : Type) (m : store B), footprint A m → footprint (λ _ _, True) m) as Hany.
  { intros A B m. by apply footprint_mono. }
  unfold create. do 4 (apply footprint_bind; [apply footprint_read_only, ro_lift|intros ?]).
  apply footprint_bind; [apply footprint_read_only, ro_lock_writer|intros ?].
  apply footprint_bind; [eapply Hany, footprint_acquire|intros ?].
  apply footprint_bind; [eapply Hany, footprint_ensure_input|intros ?].
  apply footprint_bind; [apply footprint_read_only, ro_read_envelope|intros ?].
  case_decide; [apply footprint_throw|].
  apply footprint_bind; [apply footprint_read_only; read_only|intros ?].
  case_decide; [apply footprint_throw|].
  apply footprint_bind; [eapply Hany, footprint_map_err, footprint_atomic_write|intros ?]. apply footprint_ret.
Qed.

Lemma compare_exchange_wf self key expected v s :
  wf_tree (tree s) → wf_tree (tree (compare_exchange self key expected v s).1).
Proof using Type.
  intros Hwf. destruct (compare_exchange self key expected v s) as [s' r] eqn:E.
  apply compare_exchange_run in E as [(e & _ & _ & Hb)|(cur & next & [_ _ Hb _] & _)]; [apply Hb..|done].
Qed.

Lemma restore_wf self key expected s : wf_tree (tree s) → wf_tree (tree (restore_previous self key expected s).1).
Proof using Type.
  intros Hwf. destruct (restore_previous self key expected s) as [s' r] eqn:E.
  apply restore_run in E as [(e & _ & _ & Hb)|(cur & prev & next & before & [_ _ Hb _] & _)]; [apply Hb..|done].
Qed.
End Guarantees.
