(* ===== verification/StateStoreDemo.v ===== *)
(** * Concrete runs of the checkpoint store

    One store with one input on a small disk: witnesses of the theorems on protected
    files and on the store, and what a crash can reveal right after a creation. *)

From S2P Require Import StateRuns.
From S2P Require Export StateStoreRuns.

Local Open Scope N_scope.
#[local] Existing Instance toy_sha256.

(** A codec of three states. *)
Definition demo_activated : DurableInputState :=
  DurableInputState_new (vreplicate 16 x01) (fp x01) (fp x02) (fp x05) 2
    (Snapshot_new (configuration_fence_id (fp x05) 2) 7 (Some (mkCursor 1000 10))) None.
Definition store_json : SerdeJson := {|
  to_vec v := if decide (v = demo0) then Some [x30] else if decide (v = demo1) then Some [x31]
    else if decide (v = demo_activated) then Some [x32] else None;
  from_slice p :=
    if decide (p = [x30]) then Some demo0 else if decide (p = [x31]) then Some demo1
    else if decide (p = [x32]) then Some demo_activated else None;
|}.
#[local] Existing Instance store_json.

#[local] Instance store_json_laws : SerdeJsonLaws.
Proof.
  intros v p. cbn. case_decide; [intros [= <-]; subst; done|]. case_decide; [intros [= <-]; subst; done|].
  case_decide; [|done]. intros [= <-]. by subst.
Qed.

(** ** The disk *)
Definition demo_root : path := [[x73]].
Definition demo_store : FileCheckpointStore := mkStore demo_root false.
Definition demo_key : StateKey := StateKey_for_input (input_id demo0).
Definition demo_tree : tree_t := <[demo_root := Dir MODE_PRIVATE_DIR]> (<[[] := Dir 493]> ∅).
Definition disk0 : fs := mkFs demo_tree [] [] 18 7 0.

Lemma demo_tree_wf : wf_tree demo_tree.
Proof.
  split; [by eexists|]. intros q x n. unfold demo_tree. rewrite !lookup_insert_Some, lookup_empty.
  intros [[E _]|[_ [[E _]|[_ ?]]]]; [|by destruct q|done].
  destruct q as [|y q]; [by eexists|]. apply (f_equal length) in E. rewrite length_app in E. cbn in E. lia.
Qed.

(** ** Protected files *)
Definition demo_file : path := [[x73]; [x61]].
Definition write1 : fs * result SecureStoreError () := atomic_write demo_file [x01; x02] MODE_PRIVATE_FILE disk0.


(** ** One input: creation, a transition, a restore and its reversal *)
Definition stored_of (r : result StateStoreError StoredState) : StoredState :=
  match r with Ok st => st | Err _ => mkStored demo0 (mkToken 0 (vreplicate 32 x00)) end.

Definition run1 : fs * result StateStoreError StoredState := create demo_store demo_key demo0 disk0.
Definition run2 := compare_exchange demo_store demo_key (token (stored_of run1.2)) demo1 run1.1.
Definition run3 := restore_previous demo_store demo_key (token (stored_of run2.2)) run2.1.
Definition run4 := restore_previous demo_store demo_key (token (stored_of run3.2)) run3.1.

Definition succeeded (run : fs * result StateStoreError StoredState) : bool := is_ok run.2.

Lemma succeeded_run run : succeeded run = true → run = (run.1, Ok (stored_of run.2)).
Proof. destruct run as [s [st|e]]; done. Qed.

Lemma run1_ok : succeeded run1 = true.
Proof. vm_compute. reflexivity. Qed.
Lemma run2_ok : succeeded run2 = true.
Proof. vm_compute. reflexivity. Qed.
Lemma run3_ok : succeeded run3 = true.
Proof. vm_compute. reflexivity. Qed.
Lemma run4_ok : succeeded run4 = true.
Proof. vm_compute. reflexivity. Qed.
Lemma run1_wf : wf_tree (tree run1.1).
Proof. exact (create_wf demo_store demo_key demo0 disk0 demo_tree_wf). Qed.
Lemma run2_wf : wf_tree (tree run2.1).
Proof. exact (compare_exchange_wf demo_store demo_key _ demo1 _ run1_wf). Qed.

Lemma run1_eq : create demo_store demo_key demo0 disk0 = (run1.1, Ok (stored_of run1.2)).
Proof. exact (succeeded_run run1 run1_ok). Qed.
Lemma run2_eq : compare_exchange demo_store demo_key (token (stored_of run1.2)) demo1 run1.1
  = (run2.1, Ok (stored_of run2.2)).
Proof. exact (succeeded_run run2 run2_ok). Qed.
Lemma run3_eq : restore_previous demo_store demo_key (token (stored_of run2.2)) run2.1
  = (run3.1, Ok (stored_of run3.2)).
Proof. exact (succeeded_run run3 run3_ok). Qed.
Lemma run4_eq : restore_previous demo_store demo_key (token (stored_of run3.2)) run3.1
  = (run4.1, Ok (stored_of run4.2)).
Proof. exact (succeeded_run run4 run4_ok). Qed.
Definition run5 := activate_configuration demo_store demo_key (token (stored_of run1.2)) (fp x05) run1.1.
Lemma run5_ok : succeeded run5 = true.
Proof. vm_compute. reflexivity. Qed.
Lemma run5_eq : activate_configuration demo_store demo_key (token (stored_of run1.2)) (fp x05) run1.1
  = (run5.1, Ok (stored_of run5.2)).
Proof. exact (succeeded_run run5 run5_ok). Qed.
#[local] Opaque run1 run2 run3 run4 run5.

Lemma run1_current : ∃ bytes, current_is demo_store demo_key (tree run1.1) bytes (stored_of run1.2).
Proof.
  destruct (create_run demo_store demo_key demo0 disk0 _ _ demo_tree_wf run1_eq)
    as [[_ [e ?]]|(new & stored & _ & _ & _ & _ & Hdec & _ & _ & _ & _ & Hok)]; [done|].
  destruct (Hok _ eq_refl) as [-> Hall]. exists new. split; [|done]. eexists _, _. apply Hall. left.
Qed.

Lemma create_exact_witness :
  run1.2 = Ok (stored_of run1.2) ∧ value (stored_of run1.2) = demo0 ∧ revision (token (stored_of run1.2)) = 1.
Proof.
  split; [exact (f_equal snd run1_eq)|].
  destruct (create_exact demo_store demo_key demo0 disk0 _ _ demo_tree_wf run1_eq)
    as [[_ [e ?]]|(new & stored & _ & _ & _ & _ & _ & Hv & Hr & _ & _ & Hok)]; [done|].
  destruct (Hok _ eq_refl) as [E _]. rewrite E. split; [exact Hv|exact Hr].
Defined.


(** The disk fails when the new current envelope is synchronised. *)
Definition failing : fs := set_faults (replicate 45 WriteOk ++ [WriteFails 0 StorageFull]) run1.1.
Definition run2_failing := compare_exchange demo_store demo_key (token (stored_of run1.2)) demo1 failing.
Lemma run2_failing_eq : compare_exchange demo_store demo_key (token (stored_of run1.2)) demo1 failing
  = (run2_failing.1, run2_failing.2).
Proof. exact (surjective_pairing run2_failing). Qed.
Lemma run2_failing_error : run2_failing.2 = Err StateStoreError.Filesystem.
Proof. vm_compute. reflexivity. Qed.
Lemma failing_wf : wf_tree (tree failing).
Proof. unfold failing. rewrite set_faults_tree. exact run1_wf. Qed.
#[local] Opaque failing run2_failing.

Lemma compare_exchange_recoverable_witness :
  run2_failing.2 = Err StateStoreError.Filesystem
  ∧ (untouched demo_store demo_key failing run2_failing.1
     ∨ ∃ cur old new next, current_is demo_store demo_key (tree failing) old cur
         ∧ token cur = token (stored_of run1.2)
         ∧ validate_transition (value cur) demo1 = Ok tt
         ∧ decode_envelope new = Ok next ∧ value next = demo1
         ∧ revision (token next) = revision (token (stored_of run1.2)) + 1
         ∧ updated demo_store demo_key old new failing run2_failing.1).
Proof.
  split; [exact run2_failing_error|].
  exact (compare_exchange_recoverable _ _ _ _ _ _ _ failing_wf run2_failing_eq).
Defined.

Definition stale_token : StateToken := mkToken 9 (vreplicate 32 x00).

Definition stale := compare_exchange demo_store demo_key stale_token demo1 run1.1.
Lemma stale_eq : compare_exchange demo_store demo_key stale_token demo1 run1.1 = (stale.1, stale.2).
Proof. exact (surjective_pairing stale). Qed.
#[local] Opaque stale.

Lemma stale_token_refused_witness :
  (∃ e, stale.2 = Err e) ∧ untouched demo_store demo_key run1.1 stale.1.
Proof.
  destruct run1_current as [bytes Hcur].
  apply (stale_token_refused _ _ _ _ _ _ _ _ _ run1_wf stale_eq Hcur). vm_compute. discriminate.
Defined.

Definition loaded := load demo_store demo_key run1.1.
Lemma loaded_current : loaded.2 = Ok (Current (stored_of run1.2)).
Proof. vm_compute. reflexivity. Qed.
Lemma loaded_eq : load demo_store demo_key run1.1 = (loaded.1, Ok (Current (stored_of run1.2))).
Proof. rewrite <- loaded_current. exact (surjective_pairing loaded). Qed.
#[local] Opaque loaded.

Lemma load_exact_witness :
  ∃ bytes, holds (tree run1.1) (current_path demo_store demo_key) bytes (stored_of run1.2)
    ∧ StateKey_for_input (input_id (value (stored_of run1.2))) = demo_key.
Proof. exact (proj2 (load_exact _ _ _ _ _ run1_wf loaded_eq)). Defined.

Lemma load_after_update_witness :
  load demo_store demo_key (set_faults [] run2.1) = (set_faults [] run2.1, Ok (Current (stored_of run2.2))).
Proof. exact (load_after_update _ _ _ _ _ _ _ run1_wf run2_eq). Defined.

Lemma activate_configuration_exact_witness :
  ∃ cur, acknowledged demo_store demo_key (token (stored_of run1.2)) cur (value (stored_of run5.2))
      (stored_of run5.2) run1.1 run5.1
    ∧ configuration_fingerprint (value (stored_of run5.2)) = fp x05
    ∧ configuration_generation (value (stored_of run5.2)) = configuration_generation (value cur) + 1.
Proof.
  destruct (activate_configuration_exact _ _ _ _ _ _ _ run1_wf run5_eq) as (cur & Ha & _ & Hf & Hg & _).
  exists cur. exact (conj Ha (conj Hf Hg)).
Defined.

Lemma restore_previous_exact_witness :
  ∃ cur prev before,
    (∃ m y, tree run2.1 !! previous_path demo_store demo_key = Some (Regular m before y))
    ∧ decode_envelope before = Ok prev
    ∧ acknowledged demo_store demo_key (token (stored_of run2.2)) cur (value prev) (stored_of run3.2) run2.1 run3.1.
Proof. exact (restore_previous_exact _ _ _ _ _ _ run2_wf run3_eq). Defined.

Lemma restore_reversible_witness :
  ∃ old cur, current_is demo_store demo_key (tree run2.1) old cur ∧ token cur = token (stored_of run2.2)
    ∧ value (stored_of run4.2) = value cur
    ∧ revision (token (stored_of run4.2)) = revision (token (stored_of run2.2)) + 2.
Proof. exact (restore_reversible _ _ _ _ _ _ _ _ run2_wf run3_eq run4_eq). Defined.

Lemma pair_fst {A B} (x : A * B) a b : x = (a, b) → a = x.1.
Proof. by intros ->. Qed.
Lemma run2_state : run2.1 = (compare_exchange demo_store demo_key (token (stored_of run1.2)) demo1 run1.1).1.
Proof. exact (pair_fst _ _ _ run2_eq). Qed.
Lemma other_key : (vreplicate 32 x00 : StateKey) ≠ demo_key.
Proof. vm_compute. discriminate. Qed.

Lemma inputs_isolated_witness : untouched demo_store (vreplicate 32 x00) run1.1 run2.1.
Proof.
  exact (inputs_isolated demo_store demo_key (vreplicate 32 x00) run1.1 run2.1
    (token (stored_of run1.2)) demo1 (fp x03) run1_wf other_key (or_introl run2_state)).
Defined.

(** ** Durability of a new directory *)

Definition missing_in_some (s : fs) (q : path) : bool :=
  existsb (λ t : tree_t, match t !! q with None => true | Some _ => false end) (versions s).

Lemma missing_after_crash s q : missing_in_some s q = true → after_crash s q None.
Proof.
  unfold missing_in_some. rewrite existsb_exists. intros (t & Hin & Ht). exists t.
  split; [by apply list_elem_of_In|]. destruct (t !! q); [done|constructor].
Qed.

Lemma run1_vanishes : missing_in_some run1.1 (input_directory demo_store demo_key) = true.
Proof. vm_compute. reflexivity. Qed.
Lemma run1_present : tree run1.1 !! input_directory demo_store demo_key ≠ None.
Proof. vm_compute. discriminate. Qed.

(** right after a creation reported success, a crash can still lose the whole
    directory of the input: the envelope and its entry are synchronised, the entry of
    the new directory in [inputs] is not. *)
Theorem created_directory_may_vanish :
  ∃ self key v s s' st, wf_tree (tree s) ∧ create self key v s = (s', Ok st)
    ∧ tree s' !! input_directory self key ≠ None ∧ after_crash s' (input_directory self key) None.
Proof.
  exists demo_store, demo_key, demo0, disk0, run1.1, (stored_of run1.2).
  split; [exact demo_tree_wf|]. split; [exact run1_eq|]. split; [exact run1_present|].
  exact (missing_after_crash _ _ run1_vanishes).
Qed.
