(* ===== verification/Spool.v ===== *)
(** * The spool (crates/dbx-rs-spool/src/spool.rs)

    Segment files under [root/segments/<input>/], moving from [.open] to [.ready] to
    [.delivered], and to [root/quarantine/<input>/] when a writer did not seal them.
    This file has the state, the names and the path and file helpers; the operations
    are in SpoolLifecycle.v.  The handles are values; the disk, the accounting behind its mutex, the random
    source and the schedules of the open files are the state. *)

From S2P Require Export SegmentFormat SpoolQuota SecureFs.

Local Open Scope N_scope.
Local Open Scope dbx_scope.

(** ** State *)

(** [randoms] are the outcomes of [SystemRandom::fill]; every file opened takes its
    schedule from [reads], every file created from [writes]. *)
Record world := mkWorld {
  disk : fs;
  accounting : Accounting;
  randoms : list (option (list byte));
  reads : list (list (option fault_kind));
  writes : list (list write_fault);
}.

Abbreviation spool A := (st world SpoolError A).

Definition set_disk (d : fs) (w : world) : world :=
  mkWorld d (accounting w) (randoms w) (reads w) (writes w).

Definition on_disk {E A} (m : st fs E A) : st world E A := λ w,
  let '(d, r) := m (disk w) in (set_disk d w, r).
Definition on_accounting {A} (m : acct A) : spool A := λ w,
  let '(a, r) := m (accounting w) in (mkWorld (disk w) a (randoms w) (reads w) (writes w), r).

(** [random.fill]: nothing left counts as a failure of the generator. *)
Definition random_fill (n : nat) (e : SpoolError) : spool (array n) := λ w,
  match randoms w with
  | [] => (w, Err e)
  | None :: l => (mkWorld (disk w) (accounting w) l (reads w) (writes w), Err e)
  | Some bytes :: l => (mkWorld (disk w) (accounting w) l (reads w) (writes w), Ok (array_of_list n bytes))
  end.

Definition next_reads : spool (list (option fault_kind)) := λ w,
  match reads w with
  | [] => (w, Ok [])
  | x :: l => (mkWorld (disk w) (accounting w) (randoms w) l (writes w), Ok x)
  end.
Definition next_writes : spool (list write_fault) := λ w,
  match writes w with
  | [] => (w, Ok [])
  | x :: l => (mkWorld (disk w) (accounting w) (randoms w) (reads w) l, Ok x)
  end.

(** A disk call whose error becomes a spool error. *)
Definition disk_call {A} (code stage : string) (m : io A) : spool A :=
  st_map_err (SpoolError_io code stage) (on_disk m).

(** [impl From<SecureStoreError> for SpoolError]. *)
Definition from_secure_error (e : SecureStoreError) : SpoolError :=
  mkSpoolError "DBX-RS-SPOOL-0001" "protected_storage" (secure_io_kind e).

(** ** Names *)

Definition SEGMENTS_DIRECTORY : name := String.list_byte_of_string "segments".
Definition QUARANTINE_DIRECTORY : name := String.list_byte_of_string "quarantine".
Definition OPEN_EXTENSION : name := String.list_byte_of_string "open".
Definition READY_EXTENSION : name := String.list_byte_of_string "ready".
Definition DELIVERED_EXTENSION : name := String.list_byte_of_string "delivered".
Definition QUARANTINE_EXTENSION : name := String.list_byte_of_string "quarantine".
Definition SEGMENT_ID_ATTEMPTS : nat := 16.
Definition REFERENCE_DIGEST_DOMAIN : list byte :=
  String.list_byte_of_string "dbx-rs/spool-segment-reference/v1" ++ [x00].

(** [Path::with_extension]. *)
Definition with_extension (p : path) (ext : name) : path :=
  match file_name p with
  | None => p
  | Some n => take (length p - 1) p ++ [file_stem n ++ DOT :: ext]
  end.

Definition segment_file_name (id : SegmentId) (ext : name) : name :=
  encode_hex (vec_to_list id) ++ DOT :: ext.

Definition invalid_path : SpoolError := SpoolError_new "DBX-RS-SPOOL-PATH-0010" "path_validate".
Definition identity_mismatch : SpoolError := SpoolError_new "DBX-RS-SPOOL-FORMAT-0024" "identity_validate".
Definition writer_closed : SpoolError := SpoolError_new "DBX-RS-SPOOL-LIFECYCLE-0008" "writer_state".
Definition directory_read_error : io_kind → SpoolError :=
  SpoolError_io "DBX-RS-SPOOL-PATH-0009" "directory_read".

Definition parse_segment_name (p : path) : result SpoolError (SegmentId * name) :=
  stem ← ok_or invalid_path (n ← file_name p; to_str (file_stem n));
  ext ← ok_or invalid_path (n ← file_name p; e ← extension n; to_str e);
  id ← ok_or invalid_path (decode_hex 16 stem);
  mret (id, ext).

(** ** Paths *)

Fixpoint spool_reject_symlinks (l : list path) : st fs SpoolError () :=
  match l with
  | [] => mret tt
  | ancestor :: l =>
      r ← try_call (symlink_metadata ancestor);
      match r with
      | Ok metadata =>
          if is_symlink metadata then mthrow (SpoolError_new "DBX-RS-SPOOL-PATH-0003" "path_validate")
          else spool_reject_symlinks l
      | Err error =>
          if decide (error = NotFound) then spool_reject_symlinks l
          else mthrow (SpoolError_io "DBX-RS-SPOOL-PATH-0002" "path_validate" error)
      end
  end.
Definition spool_reject_ancestor_symlinks (p : path) : st fs SpoolError () :=
  spool_reject_symlinks (ancestors p).

Definition set_file_mode (p : path) : st fs SpoolError () :=
  st_map_err (SpoolError_io "DBX-RS-SPOOL-PATH-0011" "file_permissions") (set_permissions p MODE_PRIVATE_FILE).
Definition validate_directory_mode (metadata : node) : result SpoolError () :=
  reject (SpoolError_new "DBX-RS-SPOOL-PATH-0012" "directory_permissions")
    when (N.land (node_mode metadata) OTHERS ≠ 0);;
  mret tt.
Definition validate_file_mode (metadata : node) : result SpoolError () :=
  reject (SpoolError_new "DBX-RS-SPOOL-PATH-0013" "file_permissions")
    when (N.land (node_mode metadata) OTHERS ≠ 0);;
  mret tt.

Definition validate_private_directory (p : path) : st fs SpoolError () :=
  _ ← spool_reject_ancestor_symlinks p;
  metadata ← st_map_err (SpoolError_io "DBX-RS-SPOOL-PATH-0002" "directory_validate") (symlink_metadata p);
  reject (SpoolError_new "DBX-RS-SPOOL-PATH-0003" "directory_validate")
    when (is_symlink metadata = true ∨ is_dir metadata = false);;
  st_lift (validate_directory_mode metadata).

Definition validate_input_directory (p : path) : st fs SpoolError InputKey :=
  _ ← validate_private_directory p;
  n ← st_lift (ok_or invalid_path (n ← file_name p; to_str n));
  st_lift (ok_or invalid_path (decode_hex 32 n)).

Definition validate_private_file (p : path) : st fs SpoolError node :=
  _ ← spool_reject_ancestor_symlinks p;
  metadata ← st_map_err (SpoolError_io "DBX-RS-SPOOL-PATH-0001" "file_validate") (symlink_metadata p);
  reject (SpoolError_new "DBX-RS-SPOOL-PATH-0004" "file_validate")
    when (is_symlink metadata = true ∨ is_file metadata = false);;
  _ ← st_lift (validate_file_mode metadata);
  mret metadata.

Definition ensure_private_directory (p : path) : st fs SpoolError () :=
  _ ← spool_reject_ancestor_symlinks p;
  present ← path_exists p;
  _ ← (if present : bool then
         metadata ← st_map_err (SpoolError_io "DBX-RS-SPOOL-PATH-0002" "directory_validate") (symlink_metadata p);
         reject (SpoolError_new "DBX-RS-SPOOL-PATH-0003" "directory_validate")
           when (is_symlink metadata = true ∨ is_dir metadata = false);;
         mret tt
       else mret tt);
  _ ← st_map_err from_secure_error (ensure_private_dir p);
  validate_private_directory p.

Definition open_private_file (p : path) : st fs SpoolError path :=
  _ ← validate_private_file p;
  st_map_err (SpoolError_io "DBX-RS-SPOOL-PATH-0005" "file_open") (open_existing p).

Definition create_private_file (p : path) : st fs SpoolError path :=
  _ ← spool_reject_ancestor_symlinks p;
  file ← st_map_err (SpoolError_io "DBX-RS-SPOOL-PATH-0006" "file_create") (open_new p MODE_PRIVATE_FILE);
  _ ← set_file_mode p;
  mret file.

Definition read_directory (p : path) (stage : string) : st fs SpoolError (list name) :=
  _ ← validate_private_directory p;
  st_map_err (SpoolError_io "DBX-RS-SPOOL-PATH-0007" stage) (read_dir p).

Definition sync_directory (p : path) (stage : string) : st fs SpoolError () :=
  _ ← validate_private_directory p;
  st_map_err (SpoolError_io "DBX-RS-SPOOL-PATH-0008" stage) (directory ← open_existing p; sync directory).

Definition remove_if_present (p : path) : st fs SpoolError () :=
  _ ← spool_reject_ancestor_symlinks p;
  r ← try_call (remove_file p);
  match r with
  | Ok _ => mret tt
  | Err error =>
      if decide (error = NotFound) then mret tt
      else mthrow (SpoolError_io "DBX-RS-SPOOL-LIFECYCLE-0007" "segment_abort" error)
  end.

(** A step of a directory iterator, which can fail. *)
Definition next_entry : st fs SpoolError () := st_map_err directory_read_error (syscall (mret tt)).

(** [for entry in read_directory(..)? { let entry = entry?; .. }]; reaching the end is
    a step of the iterator as well. *)
Fixpoint for_entries {A} (f : A → name → spool A) (acc : A) (names : list name) : spool A :=
  match names with
  | [] => _ ← on_disk next_entry; mret acc
  | n :: names => _ ← on_disk next_entry; acc ← f acc n; for_entries f acc names
  end.
