(* ===== verification/SpoolLifecycle.v ===== *)
(** * The spool's lifecycle (crates/dbx-rs-spool/src/spool.rs)

    Opening a spool, writing, sealing and aborting a segment, listing, reading,
    delivering and compacting segments.  [self] is the shared part of the handle; its
    accounting is in the [world]. *)

From stdpp Require Import lexico sorting.
From S2P Require Export Spool.

Local Open Scope N_scope.
Local Open Scope dbx_scope.

(** ** Data *)

Record Spool := mkSpool {
  segments : path;
  spool_key : SpoolKey;
  limits : SpoolLimits;
  recovered_open_segments : N;
}.

Record ReadySegment := mkReady {
  ready_path : path;
  ready_header : SegmentHeader;
  ready_segment_id : SegmentId;
  ready_summary : SegmentSummary;
  ready_format_version : N;
  ready_recovery_metadata : RecoveryMetadata;
  ready_byte_len : N;
}.

Record DeliveredSegment := mkDelivered {
  delivered_path : path;
  delivered_header : SegmentHeader;
  delivered_segment_id : SegmentId;
  delivered_summary : SegmentSummary;
  delivered_format_version : N;
  delivered_recovery_metadata : RecoveryMetadata;
  delivered_byte_len : N;
}.

Definition from_ready (segment : ReadySegment) : DeliveredSegment :=
  mkDelivered (ready_path segment) (ready_header segment) (ready_segment_id segment)
    (ready_summary segment) (ready_format_version segment) (ready_recovery_metadata segment)
    (ready_byte_len segment).
Definition as_ready (self : DeliveredSegment) : ReadySegment :=
  mkReady (delivered_path self) (delivered_header self) (delivered_segment_id self)
    (delivered_summary self) (delivered_format_version self) (delivered_recovery_metadata self)
    (delivered_byte_len self).

Record InspectedSegment := mkInspected {
  inspected_header : SegmentHeader;
  inspected_segment_id : SegmentId;
  inspected_summary : SegmentSummary;
  inspected_format_version : N;
  inspected_recovery_metadata : RecoveryMetadata;
  inspected_byte_len : N;
}.

Definition InspectedSegment_as (p : path) (i : InspectedSegment) : ReadySegment :=
  mkReady p (inspected_header i) (inspected_segment_id i) (inspected_summary i)
    (inspected_format_version i) (inspected_recovery_metadata i) (inspected_byte_len i).

(** Both kinds of handle are compared with the file field by field. *)
Definition inspected_matches (i : InspectedSegment) (s : ReadySegment) : bool :=
  bool_decide (inspected_header i = ready_header s
    ∧ inspected_segment_id i = ready_segment_id s
    ∧ inspected_summary i = ready_summary s
    ∧ inspected_format_version i = ready_format_version s
    ∧ inspected_recovery_metadata i = ready_recovery_metadata s
    ∧ inspected_byte_len i = ready_byte_len s).

(** ** Order of the listings

    Arrays and tuples compare lexicographically. *)
Definition ord_bytes {n} (a : array n) : list N := Byte.to_N <$> vec_to_list a.
Definition sort_key (segment : ReadySegment) : list N * N * list N * N * list N :=
  let h := ready_header segment in
  (ord_bytes (input_key h), batch_sequence h, ord_bytes (batch_id h), segment_sequence h,
   ord_bytes (ready_segment_id segment)).
Definition sort_le (a b : ReadySegment) : Prop := ¬ lexico (sort_key b) (sort_key a).
#[global] Instance sort_le_dec a b : Decision (sort_le a b).
Proof. unfold sort_le. apply _. Defined.
Definition sort_by_key (l : list ReadySegment) : list ReadySegment := merge_sort sort_le l.

Definition input_directory (self : Spool) (key : InputKey) : path :=
  join (segments self) (encode_hex (vec_to_list key)).

(** Another file system call on an open file: its content is replaced. *)
Definition store_file {E} (file : path) (bytes : list byte) (synced : bool) : st world E () := λ w,
  let d := disk w in
  match tree d !! file with
  | Some (Regular m _ _) => (set_disk (set_tree (<[file := Regular m bytes synced]> (tree d)) d) w, Ok tt)
  | _ => (w, Ok tt)
  end.
Definition content_at (t : tree_t) (file : path) : list byte :=
  match t !! file with Some (Regular _ c _) => c | _ => [] end.

Section Lifecycle.
Context `{Sha256, Crypto}.

(** ** Reading a segment file *)

(** [SegmentDecoder::open] on an open file. *)
Definition open_decoder (file : path) (key : SpoolKey) (limit : N) : spool SegmentDecoder :=
  metadata ← try_call (on_disk (file_metadata file));
  schedule ← next_reads;
  w ← st_get;
  st_lift (decoder_open
    match metadata with Ok n => Ok (is_file n, node_len n) | Err e => Err e end
    key limit (mkSource (content_at (tree (disk w)) file) schedule)).

(** [while decoder.next_event()?.is_some() {}] and what follows.  Each event consumes
    bytes, so one call per byte of the file is enough ([inspect_rest_total]). *)
Definition inspect_rest (decoder : SegmentDecoder) (byte_len : N) : option (result SpoolError InspectedSegment) :=
  match drain (S (N.to_nat byte_len)) decoder with
  | (_, Err e) => Some (Err e)
  | (_, Ok None) => None
  | (decoder, Ok (Some _)) => Some (
      summary ← ok_or (SpoolError_new "DBX-RS-SPOOL-FORMAT-0023" "footer_validate") (dec_summary decoder);
      recovery_metadata ← ok_or (SpoolError_new "DBX-RS-SPOOL-FORMAT-0025" "recovery_metadata")
        (dec_recovery_metadata decoder);
      mret (mkInspected (dec_header decoder) (dec_segment_id decoder) summary (dec_version decoder)
              recovery_metadata byte_len))
  end.

Definition inspect_segment (p : path) (key : SpoolKey) (limit : N) : spool InspectedSegment :=
  file ← on_disk (open_private_file p);
  metadata ← disk_call "DBX-RS-SPOOL-PATH-0001" "file_inspect" (file_metadata file);
  decoder ← open_decoder file key limit;
  match inspect_rest decoder (node_len metadata) with
  | Some r => st_lift r
  | None => mthrow truncated_segment
  end.

(** ** Startup *)

Definition scan_add (key : InputKey) (bytes : N) (accounting : Accounting) : result SpoolError Accounting :=
  match add_stored key bytes accounting with
  | (a, Ok _) => Ok a
  | (_, Err e) => Err e
  end.

Definition scan_accounting (segments_root quarantine_root : path) (key : SpoolKey)
    (limits : SpoolLimits) : spool Accounting :=
  inputs ← on_disk (read_directory segments_root "inventory_scan");
  accounting ← for_entries (λ accounting input_entry,
    let input_path := join segments_root input_entry in
    input_key' ← on_disk (validate_input_directory input_path);
    files ← on_disk (read_directory input_path "inventory_scan");
    for_entries (λ accounting file_entry,
      let p := join input_path file_entry in
      '(segment_id, ext) ← st_lift (parse_segment_name p);
      reject invalid_path when (ext ≠ READY_EXTENSION ∧ ext ≠ DELIVERED_EXTENSION);;
      inspected ← inspect_segment p key (limit_segment limits);
      reject identity_mismatch when (input_key (inspected_header inspected) ≠ input_key'
                                     ∨ inspected_segment_id inspected ≠ segment_id);;
      st_lift (scan_add input_key' (inspected_byte_len inspected) accounting)) accounting files)
    Accounting_default inputs;
  inputs ← on_disk (read_directory quarantine_root "quarantine_scan");
  for_entries (λ accounting input_entry,
    let input_path := join quarantine_root input_entry in
    input_key' ← on_disk (validate_input_directory input_path);
    files ← on_disk (read_directory input_path "quarantine_scan");
    for_entries (λ accounting file_entry,
      let p := join input_path file_entry in
      '(_, ext) ← st_lift (parse_segment_name p);
      reject invalid_path when (ext ≠ QUARANTINE_EXTENSION);;
      metadata ← on_disk (validate_private_file p);
      st_lift (scan_add input_key' (node_len metadata) accounting)) accounting files)
    accounting inputs.

(** One [.open] file moved to the quarantine. *)
Definition quarantine_file (input_path quarantine_root : path) (input_key' : InputKey)
    (segment_id : SegmentId) (p : path) : st fs SpoolError () :=
  _ ← validate_private_file p;
  let destination_directory := join quarantine_root (encode_hex (vec_to_list input_key')) in
  _ ← ensure_private_directory destination_directory;
  let destination := join destination_directory (segment_file_name segment_id QUARANTINE_EXTENSION) in
  present ← path_exists destination;
  reject (SpoolError_new "DBX-RS-SPOOL-RECOVERY-0001" "startup_recovery") when (present = true);;
  _ ← st_map_err (SpoolError_io "DBX-RS-SPOOL-RECOVERY-0002" "startup_recovery") (rename_file p destination);
  _ ← sync_directory input_path "startup_recovery";
  sync_directory destination_directory "startup_recovery".

Definition recover_open_segments (segments_root quarantine_root : path) : spool N :=
  inputs ← on_disk (read_directory segments_root "startup_recovery");
  for_entries (λ recovered input_entry,
    let input_path := join segments_root input_entry in
    input_key' ← on_disk (validate_input_directory input_path);
    files ← on_disk (read_directory input_path "startup_recovery");
    for_entries (λ recovered file_entry,
      let p := join input_path file_entry in
      '(segment_id, ext) ← st_lift (parse_segment_name p);
      if decide (ext ≠ OPEN_EXTENSION) then mret recovered else
      _ ← on_disk (quarantine_file input_path quarantine_root input_key' segment_id p);
      st_lift (ok_or (SpoolError_new "DBX-RS-SPOOL-RECOVERY-0003" "startup_recovery")
        (checked_add recovered 1))) recovered files)
    0 inputs.

Definition Spool_open (root : path) (key : SpoolKey) (limits : SpoolLimits) : spool Spool :=
  _ ← on_disk (ensure_private_directory root);
  let segments := join root SEGMENTS_DIRECTORY in
  let quarantine := join root QUARANTINE_DIRECTORY in
  _ ← on_disk (ensure_private_directory segments);
  _ ← on_disk (ensure_private_directory quarantine);
  recovered ← recover_open_segments segments quarantine;
  accounting ← scan_accounting segments quarantine key limits;
  _ ← on_accounting (st_put accounting);
  mret (mkSpool segments key limits recovered).

(** ** Listings and handles *)

Definition scan_lifecycle (self : Spool) (ext : name) : spool (list ReadySegment) :=
  inputs ← on_disk (read_directory (segments self) "inventory_scan");
  for_entries (λ found input_entry,
    let input_path := join (segments self) input_entry in
    input_key' ← on_disk (validate_input_directory input_path);
    files ← on_disk (read_directory input_path "inventory_scan");
    for_entries (λ found file_entry,
      let p := join input_path file_entry in
      '(segment_id, state) ← st_lift (parse_segment_name p);
      if decide (state ≠ ext) then mret found else
      inspected ← inspect_segment p (spool_key self) (limit_segment (limits self));
      reject identity_mismatch when (input_key (inspected_header inspected) ≠ input_key'
                                     ∨ inspected_segment_id inspected ≠ segment_id);;
      mret (found ++ [InspectedSegment_as p inspected])) found files)
    [] inputs.

Definition list_ready (self : Spool) : spool (list ReadySegment) :=
  ready ← scan_lifecycle self READY_EXTENSION;
  mret (sort_by_key ready).
Definition list_delivered (self : Spool) : spool (list DeliveredSegment) :=
  delivered ← scan_lifecycle self DELIVERED_EXTENSION;
  mret (from_ready <$> sort_by_key (as_ready ∘ from_ready <$> delivered)).

Definition validate_owned_path (self : Spool) (p : path) (ext : name) : st fs SpoolError () :=
  dir ← st_lift (ok_or invalid_path (parent p));
  input_parent ← st_lift (ok_or invalid_path (parent dir));
  reject invalid_path
    when (input_parent ≠ segments self ∨ (n ← file_name p; e ← extension n; to_str e) ≠ Some ext);;
  input_key' ← validate_input_directory dir;
  '(_, parsed_extension) ← st_lift (parse_segment_name p);
  reject invalid_path when (parsed_extension ≠ ext ∨ dir ≠ input_directory self input_key');;
  mret tt.

Definition validate_handle (self : Spool) (segment : ReadySegment) (ext : name) : spool () :=
  _ ← on_disk (validate_owned_path self (ready_path segment) ext);
  inspected ← inspect_segment (ready_path segment) (spool_key self) (limit_segment (limits self));
  reject identity_mismatch when (inspected_matches inspected segment = false);;
  mret tt.
Definition validate_ready_handle (self : Spool) (segment : ReadySegment) : spool () :=
  validate_handle self segment READY_EXTENSION.
Definition validate_delivered_handle (self : Spool) (segment : DeliveredSegment) : spool () :=
  validate_handle self (as_ready segment) DELIVERED_EXTENSION.

Definition mark_delivered (self : Spool) (segment : ReadySegment) : spool DeliveredSegment :=
  _ ← validate_ready_handle self segment;
  let delivered_path := with_extension (ready_path segment) DELIVERED_EXTENSION in
  present ← on_disk (path_exists delivered_path);
  reject (SpoolError_new "DBX-RS-SPOOL-LIFECYCLE-0001" "mark_delivered") when (present = true);;
  _ ← disk_call "DBX-RS-SPOOL-LIFECYCLE-0002" "mark_delivered" (rename_file (ready_path segment) delivered_path);
  dir ← st_lift (ok_or invalid_path (parent delivered_path));
  _ ← on_disk (sync_directory dir "mark_delivered");
  mret (mkDelivered delivered_path (ready_header segment) (ready_segment_id segment)
          (ready_summary segment) (ready_format_version segment) (ready_recovery_metadata segment)
          (ready_byte_len segment)).

Definition compact_delivered (self : Spool) (segment : DeliveredSegment) : spool () :=
  _ ← validate_delivered_handle self segment;
  _ ← disk_call "DBX-RS-SPOOL-LIFECYCLE-0003" "compact_delivered" (remove_file (delivered_path segment));
  dir ← st_lift (ok_or invalid_path (parent (delivered_path segment)));
  _ ← on_disk (sync_directory dir "compact_delivered");
  on_accounting (remove_stored (input_key (delivered_header segment)) (delivered_byte_len segment)).

Definition Spool_usage (self : Spool) : spool SpoolUsage := on_accounting (λ a, (a, Ok (usage a))).

(** ** The reader of a ready segment *)
Record SegmentReader := mkReader {
  reader_decoder : SegmentDecoder;
  expected_summary : SegmentSummary;
  expected_recovery_metadata : RecoveryMetadata;
  terminal_error : bool;
}.

Definition reader (self : Spool) (segment : ReadySegment) : spool SegmentReader :=
  _ ← on_disk (validate_owned_path self (ready_path segment) READY_EXTENSION);
  file ← on_disk (open_private_file (ready_path segment));
  decoder ← open_decoder file (spool_key self) (limit_segment (limits self));
  reject identity_mismatch when (dec_segment_id decoder ≠ ready_segment_id segment
                                 ∨ dec_header decoder ≠ ready_header segment
                                 ∨ dec_version decoder ≠ ready_format_version segment);;
  mret (mkReader decoder (ready_summary segment) (ready_recovery_metadata segment) false).

Definition set_decoder (d : SegmentDecoder) (e : bool) (r : SegmentReader) : SegmentReader :=
  mkReader d (expected_summary r) (expected_recovery_metadata r) e.

(** [Iterator::next]; [next_event] always ends within its turns, so its outer [None]
    never arises. *)
Definition SegmentReader_next (self : SegmentReader)
    : SegmentReader * option (result SpoolError (list byte)) :=
  if terminal_error self then (self, None) else
  match next_event (reader_decoder self) with
  | (d, Ok (Some (Some event))) => (set_decoder d false self, Some (Ok event))
  | (d, Ok _) =>
      if decide (dec_summary d = Some (expected_summary self)
                 ∧ dec_recovery_metadata d = Some (expected_recovery_metadata self))
      then (set_decoder d false self, None)
      else (set_decoder d true self,
            Some (Err (SpoolError_new "DBX-RS-SPOOL-FORMAT-0022" "footer_validate")))
  | (d, Err error) => (set_decoder d true self, Some (Err error))
  end.

(** ** The writer *)

(** [file] is where the encoder's file is. *)
Record SegmentWriter := mkWriter {
  writer_spool : Spool;
  encoder : option SegmentEncoder;
  file : path;
  open_path : path;
  writer_header : SegmentHeader;
  writer_segment_id : SegmentId;
  reservation_active : bool;
  published : bool;
}.

(** The creation of the file and its encoder, for one segment identity. *)
Definition start_segment (self : Spool) (header : SegmentHeader) (segment_id : SegmentId)
    (salt : array SALT_BYTES) (open_path file : path) : spool SegmentWriter :=
  schedule ← next_writes;
  let '(f, started) := start (spool_key self) salt segment_id header (limit_segment (limits self))
                         (mkSink [] schedule) in
  _ ← store_file file (written f) (is_ok started);
  match started with
  | Ok encoder => mret (mkWriter self (Some encoder) file open_path header segment_id true false)
  | Err error => _ ← try_call (F := SpoolError) (on_disk (remove_file open_path)); mthrow error
  end.

(** [for _ in 0..SEGMENT_ID_ATTEMPTS]; [last_collision] only selects a message. *)
Fixpoint allocate_segment (attempts : nat) (self : Spool) (header : SegmentHeader)
    (directory : path) : spool SegmentWriter :=
  match attempts with
  | O => mthrow (SpoolError_new "DBX-RS-SPOOL-LIFECYCLE-0004" "segment_create")
  | S attempts =>
      segment_id ← random_fill 16 (SpoolError_new "DBX-RS-SPOOL-CRYPTO-0006" "segment_create");
      salt ← random_fill SALT_BYTES (SpoolError_new "DBX-RS-SPOOL-CRYPTO-0007" "segment_create");
      let open_path := join directory (segment_file_name segment_id OPEN_EXTENSION) in
      r ← try_call (on_disk (create_private_file open_path));
      match r with
      | Ok file => start_segment self header segment_id salt open_path file
      | Err error =>
          if decide (err_io_kind error = Some AlreadyExists)
          then allocate_segment attempts self header directory
          else mthrow error
      end
  end.

Definition begin_reserved_segment (self : Spool) (header : SegmentHeader) : spool SegmentWriter :=
  let directory := input_directory self (input_key header) in
  _ ← on_disk (ensure_private_directory directory);
  allocate_segment SEGMENT_ID_ATTEMPTS self header directory.

Definition begin_segment (self : Spool) (header : SegmentHeader) : spool SegmentWriter :=
  _ ← on_accounting (reserve (limits self) (input_key header));
  r ← try_call (begin_reserved_segment self header);
  match r with
  | Ok writer => mret writer
  | Err error =>
      _ ← on_accounting (release_reservation (limits self) (input_key header));
      mthrow error
  end.

(** The writer's methods update the writer as well as the world. *)
Abbreviation writing A := (st (world * SegmentWriter) SpoolError A).
Definition in_world {A} (m : spool A) : writing A := λ s,
  let '(w, r) := m s.1 in ((w, s.2), r).
Definition modify_writer (f : SegmentWriter → SegmentWriter) : writing () := λ s, ((s.1, f s.2), Ok tt).
Definition set_encoder (e : option SegmentEncoder) (w : SegmentWriter) : SegmentWriter :=
  mkWriter (writer_spool w) e (file w) (open_path w) (writer_header w) (writer_segment_id w)
    (reservation_active w) (published w).
Definition set_published (b : bool) (w : SegmentWriter) : SegmentWriter :=
  mkWriter (writer_spool w) (encoder w) (file w) (open_path w) (writer_header w) (writer_segment_id w)
    (reservation_active w) b.
Definition set_reservation_active (b : bool) (w : SegmentWriter) : SegmentWriter :=
  mkWriter (writer_spool w) (encoder w) (file w) (open_path w) (writer_header w) (writer_segment_id w)
    b (published w).

(** [Drop::drop], at the end of every method that takes the writer by value. *)
Definition drop_writer (self : SegmentWriter) : spool () :=
  _ ← (if published self then mret tt
       else _ ← try_call (F := SpoolError) (on_disk (remove_file (open_path self))); mret tt);
  if reservation_active self
  then on_accounting (release_reservation (limits (writer_spool self)) (input_key (writer_header self)))
  else mret tt.
Definition consuming {A} (m : writing A) (self : SegmentWriter) : spool A := λ w,
  let '((w, self), r) := m (w, self) in
  let '(w, _) := drop_writer self w in (w, r).

Definition SegmentWriter_append_event (event : list byte) : writing () :=
  s ← st_get;
  let self := s.2 in
  encoder ← st_lift (ok_or writer_closed (encoder self));
  let '(encoder', r) := append_event event encoder in
  (* an event refused before its frame leaves the file alone *)
  _ ← (if decide (written (enc_file encoder') = written (enc_file encoder)) then mret tt
       else in_world (store_file (file self) (written (enc_file encoder')) false));
  _ ← modify_writer (set_encoder (Some encoder'));
  st_lift r.

Definition seal_body (recovery_metadata : RecoveryMetadata) : writing ReadySegment :=
  s ← st_get;
  let self := s.2 in
  encoder ← st_lift (ok_or writer_closed (encoder self));
  _ ← modify_writer (set_encoder None);
  let '(encoder, finished) := finish recovery_metadata encoder in
  _ ← in_world (store_file (file self) (written (enc_file encoder)) (is_ok finished));
  '(summary, byte_len) ← st_lift finished;
  let ready_path := with_extension (open_path self) READY_EXTENSION in
  present ← in_world (on_disk (path_exists ready_path));
  reject (SpoolError_new "DBX-RS-SPOOL-LIFECYCLE-0005" "segment_seal") when (present = true);;
  _ ← in_world (disk_call "DBX-RS-SPOOL-LIFECYCLE-0006" "segment_seal" (rename_file (open_path self) ready_path));
  _ ← modify_writer (set_published true);
  r ← try_call (in_world (on_accounting
        (publish_reservation (limits (writer_spool self)) (input_key (writer_header self)) byte_len)));
  _ ← modify_writer (set_reservation_active false);
  _ ← st_lift r;
  dir ← st_lift (ok_or invalid_path (parent ready_path));
  _ ← in_world (on_disk (sync_directory dir "segment_seal"));
  mret (mkReady ready_path (writer_header self) (writer_segment_id self) summary FORMAT_VERSION
          recovery_metadata byte_len).

Definition seal_with_recovery_metadata (self : SegmentWriter) (m : RecoveryMetadata) : spool ReadySegment :=
  consuming (seal_body m) self.
Definition SegmentWriter_seal (self : SegmentWriter) : spool ReadySegment :=
  seal_with_recovery_metadata self RecoveryMetadata_empty.

Definition abort_body : writing () :=
  s ← st_get;
  let self := s.2 in
  _ ← modify_writer (set_encoder None);
  _ ← in_world (on_disk (remove_if_present (open_path self)));
  dir ← st_lift (ok_or invalid_path (parent (open_path self)));
  _ ← in_world (on_disk (sync_directory dir "segment_abort"));
  if reservation_active self then
    _ ← in_world (on_accounting
          (release_reservation (limits (writer_spool self)) (input_key (writer_header self))));
    modify_writer (set_reservation_active false)
  else mret tt.
Definition abort (self : SegmentWriter) : spool () := consuming abort_body self.

(** ** References from the durable state *)
Definition segment_reference_digest (format_version : N) (segment_id : SegmentId) (header : SegmentHeader)
    (summary : SegmentSummary) (recovery_metadata : RecoveryMetadata) : array 32 :=
  sha256 (REFERENCE_DIGEST_DOMAIN ++ u16_be format_version ++ vec_to_list segment_id
    ++ vec_to_list (input_key header) ++ vec_to_list (header_fingerprint header)
    ++ u64_be (header_generation header) ++ vec_to_list (batch_id header)
    ++ u64_be (batch_sequence header) ++ u64_be (segment_sequence header)
    ++ u64_be (created_epoch_millis header)
    ++ u64_be (event_count summary) ++ u64_be (plaintext_bytes summary) ++ vec_to_list (stream_digest summary)
    ++ u64_be (lengthN (as_bytes recovery_metadata)) ++ as_bytes recovery_metadata).

Definition ReadySegment_reference_digest (self : ReadySegment) : array 32 :=
  segment_reference_digest (ready_format_version self) (ready_segment_id self) (ready_header self)
    (ready_summary self) (ready_recovery_metadata self).
Definition DeliveredSegment_reference_digest (self : DeliveredSegment) : array 32 :=
  segment_reference_digest (delivered_format_version self) (delivered_segment_id self)
    (delivered_header self) (delivered_summary self) (delivered_recovery_metadata self).

End Lifecycle.
