(* ===== verification/SpoolProps.v ===== *)
(** * What the spool reads

    Segment names, the effect of the reading methods, and what a validated directory,
    file and segment are. *)

From S2P Require Export SpoolLifecycle SegmentRoundTrip FileReads.

Local Open Scope N_scope.

(** ** Segment names *)

Lemma last_dot_none n : DOT ∉ n → last_dot n = None.
Proof.
  induction n as [|b n IH]; [done|]. rewrite not_elem_of_cons. intros [Hb Hn]. cbn [last_dot].
  by rewrite (IH Hn), decide_False by congruence.
Qed.

Lemma last_dot_some n stem ext : last_dot n = Some (stem, ext) ↔ n = stem ++ DOT :: ext ∧ DOT ∉ ext.
Proof.
  split.
  - revert stem ext. induction n as [|b n IH]; intros stem ext; cbn [last_dot]; [done|].
    destruct (last_dot n) as [[before after]|] eqn:E.
    + intros [= <- <-]. destruct (IH _ _ eq_refl) as [-> ?]. done.
    + case_decide as Hb; [|done]. intros [= <- <-]. subst b. split; [done|]. intros Hin.
      apply list_elem_of_split in Hin as (l1 & l2 & ->). clear IH. induction l1 as [|x l1 IH]; cbn in E.
      * destruct (last_dot l2) as [[]|]; [done|]. by rewrite decide_True in E.
      * destruct (last_dot (l1 ++ DOT :: l2)) as [[]|]; [done|]. by apply IH.
  - intros [-> Hn]. induction stem as [|b stem IH]; cbn [last_dot app].
    + by rewrite last_dot_none, decide_True.
    + by rewrite IH.
Qed.

Lemma hex_ascii l : utf8 (encode_hex l) = true ∧ DOT ∉ encode_hex l.
Proof.
  assert (∀ b, is_lower_hex b = true → Byte.to_N b < 128 ∧ b ≠ DOT) as Hhex by (intros []; vm_compute; try done).
  assert (Forall (λ b, Byte.to_N b < 128 ∧ b ≠ DOT) (encode_hex l)) as Hl.
  { pose proof (forallb_encode_hex l) as Hall. apply Is_true_true, forallb_True in Hall.
    eapply Forall_impl; [exact Hall|]. intros b Hb. by apply Hhex, Is_true_true. }
  split.
  - apply utf8_ascii. eapply Forall_impl; [exact Hl|]. by intros ? [].
  - intros Hin. rewrite Forall_forall in Hl. by apply Hl in Hin as [].
Qed.

Lemma to_str_some n m : to_str n = Some m ↔ m = n ∧ utf8 n = true.
Proof. unfold to_str. destruct (utf8 n); naive_solver. Qed.

Lemma encode_hex_cons (id : SegmentId) : ∃ b l, encode_hex (vec_to_list id) = b :: l.
Proof.
  pose proof (length_encode_hex (vec_to_list id)) as Hl. rewrite length_vec_to_list in Hl.
  destruct (encode_hex (vec_to_list id)) as [|b l]; [done|]. eauto.
Qed.

Lemma parse_segment_name_ok p id ext :
  parse_segment_name p = Ok (id, ext) ↔
  ∃ d, p = d ++ [segment_file_name id ext] ∧ DOT ∉ ext ∧ utf8 ext = true.
Proof.
  unfold parse_segment_name. split.
  - intros (stem & Hstem & Hrest)%result_bind_ok. apply result_bind_ok in Hrest as (e & He & Hrest).
    apply result_bind_ok in Hrest as (i & Hi & [= -> ->]). apply ok_or_ok in Hstem, He, Hi.
    apply bind_Some in Hstem as (n & Hn & [-> Hs]%to_str_some).
    apply bind_Some in He as (n' & Hn' & He). rewrite Hn in Hn'. injection Hn' as <-.
    apply bind_Some in He as (x & Hx & [-> He]%to_str_some).
    apply last_Some in Hn as [d ->]. exists d. unfold extension in Hx. unfold file_stem in Hi.
    destruct (last_dot n) as [[[|b before] after]|] eqn:El; try done. injection Hx as ->.
    apply last_dot_some in El as [-> Hdot]. apply decode_hex_some in Hi.
    unfold segment_file_name. by rewrite <- Hi.
  - intros (d & -> & Hdot & He). unfold file_name. rewrite last_snoc. unfold segment_file_name, file_stem, extension.
    destruct (encode_hex_cons id) as (b & l & Hid). destruct (hex_ascii (vec_to_list id)) as [Hu _].
    assert (last_dot (encode_hex (vec_to_list id) ++ DOT :: ext) = Some (b :: l, ext)) as E
      by (rewrite <- Hid; by apply last_dot_some).
    assert (to_str (b :: l) = Some (b :: l)) as Hb by (apply to_str_some; rewrite <- Hid; done).
    assert (to_str ext = Some ext) as Hx by (by apply to_str_some).
    rewrite !some_bind, E, Hb. cbn [ok_or]. rewrite ok_bind, some_bind, Hx. cbn [ok_or].
    by rewrite ok_bind, <- Hid, decode_encode_hex.
Qed.

(** ** Operations that only look *)

(** Only schedules are consumed. *)
Definition glanced (w w' : world) : Prop :=
  ∃ l rs, w' = mkWorld (set_faults l (disk w)) (accounting w) (randoms w) rs (writes w).
Definition looking {E A} (m : st world E A) : Prop := ∀ w, glanced w (m w).1.

Lemma glanced_refl w : glanced w w.
Proof. exists (faults (disk w)), (reads w). rewrite set_faults_same. by destruct w. Qed.
Lemma glanced_trans w w1 w2 : glanced w w1 → glanced w1 w2 → glanced w w2.
Proof. intros (l & rs & ->) (l' & rs' & ->). by exists l', rs'. Qed.
Lemma glanced_tree w w' : glanced w w' → tree (disk w') = tree (disk w).
Proof. by intros (l & rs & ->). Qed.
Lemma glanced_past w w' : glanced w w' → past (disk w') = past (disk w).
Proof. by intros (l & rs & ->). Qed.
Lemma glanced_accounting w w' : glanced w w' → accounting w' = accounting w.
Proof. by intros (l & rs & ->). Qed.

Section Looking.
Context {E : Type}.
Lemma looking_ret {A} (a : A) : looking (mret a : st world E A).
Proof. intros w. apply glanced_refl. Qed.
Lemma looking_throw {A} (e : E) : looking (mthrow e : st world E A).
Proof. intros w. apply glanced_refl. Qed.
Lemma looking_lift {A} (r : result E A) : looking (st_lift r : st world E A).
Proof. intros w. apply glanced_refl. Qed.
Lemma looking_get : looking (st_get : st world E world).
Proof. intros w. apply glanced_refl. Qed.
Lemma looking_bind {A B} (m : st world E A) (f : A → st world E B) :
  looking m → (∀ a, looking (f a)) → looking (m ≫= f).
Proof.
  intros Hm Hf w. specialize (Hm w). unfold mbind, st_bind. destruct (m w) as [w1 [a|e]]; cbn in Hm; [|done].
  eapply glanced_trans; [exact Hm|apply Hf].
Qed.
Lemma looking_map_err {F A} (g : F → E) (m : st world F A) : looking m → looking (st_map_err g m).
Proof. intros Hm w. specialize (Hm w). unfold st_map_err. by destruct (m w). Qed.
Lemma looking_try {F A} (m : st world F A) : looking m → looking (try_call m : st world E _).
Proof. intros Hm w. specialize (Hm w). unfold try_call. by destruct (m w). Qed.
Lemma looking_disk {A} (m : st fs E A) : read_only m → looking (on_disk m).
Proof.
  intros Hm w. destruct (Hm (disk w)) as [l Hl]. unfold on_disk. destruct (m (disk w)) as [d r].
  cbn in Hl. subst d. by exists l, (reads w).
Qed.
End Looking.
Create HintDb looking.
#[export] Hint Resolve looking_ret looking_throw looking_lift looking_get : looking.

Ltac looking :=
  repeat first
    [ done
    | solve [eauto with looking]
    | apply looking_bind; [|intros ?]
    | apply looking_disk; solve [eauto with ro]
    | apply looking_map_err | apply looking_try
    | case_decide | case_match ].

Lemma ro_spool_reject_symlinks l : read_only (spool_reject_symlinks l).
Proof. induction l; cbn [spool_reject_symlinks]; read_only. Qed.
#[export] Hint Resolve ro_spool_reject_symlinks : ro.
Lemma ro_validate_private_directory p : read_only (validate_private_directory p).
Proof. unfold validate_private_directory, spool_reject_ancestor_symlinks. read_only. Qed.
#[export] Hint Resolve ro_validate_private_directory : ro.
Lemma ro_validate_input_directory p : read_only (validate_input_directory p).
Proof. unfold validate_input_directory. read_only. Qed.
Lemma ro_validate_private_file p : read_only (validate_private_file p).
Proof. unfold validate_private_file, spool_reject_ancestor_symlinks. read_only. Qed.
#[export] Hint Resolve ro_validate_input_directory ro_validate_private_file : ro.
Lemma ro_open_private_file p : read_only (open_private_file p).
Proof. unfold open_private_file. read_only. Qed.
Lemma ro_read_directory p stage : read_only (read_directory p stage).
Proof. unfold read_directory. read_only. Qed.
Lemma ro_next_entry : read_only next_entry.
Proof. unfold next_entry. read_only. Qed.
Lemma ro_validate_owned_path self p ext : read_only (validate_owned_path self p ext).
Proof. unfold validate_owned_path. read_only. Qed.
#[export] Hint Resolve ro_open_private_file ro_read_directory ro_next_entry ro_validate_owned_path : ro.

Lemma looking_next_reads : looking next_reads.
Proof.
  intros w. unfold next_reads. destruct (reads w) as [|x l]; [apply glanced_refl|].
  exists (faults (disk w)), l. by rewrite set_faults_same.
Qed.
#[export] Hint Resolve looking_next_reads : looking.

Lemma looking_for_entries {A} (f : A → name → spool A) acc names :
  (∀ acc n, looking (f acc n)) → looking (for_entries f acc names).
Proof. intros Hf. revert acc. induction names; intros acc; cbn [for_entries]; looking. Qed.

Section Reads.
Context `{Sha256, Crypto}.

Lemma looking_open_decoder file key limit : looking (open_decoder file key limit).
Proof using Type. unfold open_decoder. looking. Qed.
#[local] Hint Resolve looking_open_decoder : looking.
Lemma looking_inspect_segment p key limit : looking (inspect_segment p key limit).
Proof using Type. unfold inspect_segment, disk_call. looking. Qed.
#[local] Hint Resolve looking_inspect_segment : looking.
Lemma looking_scan_accounting segs quarantine key limits :
  looking (scan_accounting segs quarantine key limits).
Proof using Type.
  unfold scan_accounting. looking; apply looking_for_entries; intros ??; looking;
    apply looking_for_entries; intros ??; looking.
Qed.
Lemma looking_scan_lifecycle self ext : looking (scan_lifecycle self ext).
Proof using Type.
  unfold scan_lifecycle. looking; apply looking_for_entries; intros ??; looking;
    apply looking_for_entries; intros ??; looking.
Qed.
Lemma looking_validate_handle self segment ext : looking (validate_handle self segment ext).
Proof using Type. unfold validate_handle. looking. Qed.
Lemma looking_reader self segment : looking (reader self segment).
Proof using Type. unfold reader. looking. Qed.

End Reads.
#[export] Hint Resolve looking_inspect_segment looking_scan_accounting looking_scan_lifecycle
  looking_validate_handle looking_reader : looking.

(** ** What the validations establish *)

Lemma read_only_run {E A} (m : st fs E A) s s' r : read_only m → m s = (s', r) → ∃ l, s' = set_faults l s.
Proof. intros Hm Hrun. destruct (Hm s) as [l Hl]. rewrite Hrun in Hl. by exists l. Qed.
Lemma looking_run {E A} (m : st world E A) w w' r : looking m → m w = (w', r) → glanced w w'.
Proof. intros Hm Hrun. specialize (Hm w). by rewrite Hrun in Hm. Qed.
Lemma on_disk_ok {E A} (m : st fs E A) w w' a :
  on_disk m w = (w', Ok a) ↔ ∃ d, m (disk w) = (d, Ok a) ∧ w' = set_disk d w.
Proof. unfold on_disk. destruct (m (disk w)) as [d r]. naive_solver. Qed.

Lemma spool_reject_same l s :
  (spool_reject_symlinks l s).1 = (reject_symlinks l s).1
  ∧ is_ok (spool_reject_symlinks l s).2 = is_ok (reject_symlinks l s).2.
Proof.
  revert s. induction l as [|p l IH]; intros s; cbn [spool_reject_symlinks reject_symlinks]; [done|].
  unfold mbind, st_bind, try_call. destruct (symlink_metadata p s) as [s1 [n|k]]; cbn.
  - destruct (is_symlink n); [done|apply IH].
  - destruct k; cbn; try done; apply IH.
Qed.

Lemma spool_reject_ok p s s' :
  wf_tree (tree s) → spool_reject_ancestor_symlinks p s = (s', Ok tt) → plain p (tree s).
Proof.
  intros Hwf Hrun. destruct (spool_reject_same (ancestors p) s) as [E1 E2].
  unfold spool_reject_ancestor_symlinks in Hrun. rewrite Hrun in E2.
  assert (true = is_ok (reject_existing_ancestor_symlinks p s).2) as E3 by exact E2. clear E1 E2.
  destruct (reject_existing_ancestor_symlinks p s) as [s1 [[]|e]] eqn:E; [|done].
  by destruct (reject_ok p s s1 Hwf E) as (? & _ & ?).
Qed.

Lemma look_at_plain follow p t n : plain p t → look_at follow p t = Ok n → t !! p = Some n.
Proof.
  unfold look_at. intros Hp (q & Hq & Hn)%result_bind_ok. apply ok_or_ok in Hn.
  by apply (resolve_plain _ _ _ _ _ Hp) in Hq as ->.
Qed.

(** A private directory, and a private file, reached without links. *)
Definition private_directory (t : tree_t) (p : path) : Prop :=
  plain p t ∧ ∃ m, t !! p = Some (Dir m) ∧ N.land m OTHERS = 0.
Definition private_regular (t : tree_t) (p : path) (c : list byte) : Prop :=
  plain p t ∧ ∃ m y, t !! p = Some (Regular m c y) ∧ N.land m OTHERS = 0.

Lemma validate_private_directory_ok p s s' :
  wf_tree (tree s) → validate_private_directory p s = (s', Ok tt) → private_directory (tree s) p.
Proof.
  intros Hwf. unfold validate_private_directory. intros ([] & s1 & H1 & Hrun)%st_bind_ok.
  pose proof (spool_reject_ok _ _ _ Hwf H1) as Hp.
  apply (read_only_run _ _ _ _ (ro_spool_reject_symlinks _)) in H1 as [l ->].
  apply st_bind_ok in Hrun as (n & s2 & Hn%st_map_err_ok & Hrun).
  apply symlink_metadata_ok in Hn as (l' & -> & Hn). apply (look_at_plain _ _ _ _ Hp) in Hn.
  case_decide as Hk; [done|]. apply st_lift_ok in Hrun as [_ Hm]. unfold validate_directory_mode in Hm.
  case_decide as Hm'; [done|]. split; [done|].
  destruct n as [m|m c y|t]; cbn in Hk, Hm'; [|tauto..]. exists m. split; [done|lia].
Qed.

Lemma validate_input_directory_ok p s s' key :
  wf_tree (tree s) → validate_input_directory p s = (s', Ok key) →
  private_directory (tree s) p ∧ ∃ d, p = d ++ [encode_hex (vec_to_list key)].
Proof.
  intros Hwf. unfold validate_input_directory. intros ([] & s1 & H1 & Hrun)%st_bind_ok.
  split; [by eapply validate_private_directory_ok|].
  apply st_bind_ok in Hrun as (n & s2 & [-> Hn]%st_lift_ok & [_ Hk]%st_lift_ok).
  apply ok_or_ok in Hn, Hk. apply bind_Some in Hn as (n' & Hl & [-> _]%to_str_some).
  apply decode_hex_some in Hk as ->. by apply last_Some in Hl.
Qed.

Lemma validate_private_file_ok p s s' n :
  wf_tree (tree s) → validate_private_file p s = (s', Ok n) →
  plain p (tree s) ∧ tree s !! p = Some n ∧ ∃ m c y, n = Regular m c y ∧ N.land m OTHERS = 0.
Proof.
  intros Hwf. unfold validate_private_file. intros ([] & s1 & H1 & Hrun)%st_bind_ok.
  pose proof (spool_reject_ok _ _ _ Hwf H1) as Hp.
  apply (read_only_run _ _ _ _ (ro_spool_reject_symlinks _)) in H1 as [l ->].
  apply st_bind_ok in Hrun as (n' & s2 & Hn%st_map_err_ok & Hrun).
  apply symlink_metadata_ok in Hn as (l' & -> & Hn). apply (look_at_plain _ _ _ _ Hp) in Hn.
  case_decide as Hk; [done|]. apply st_bind_ok in Hrun as ([] & s3 & [-> Hm]%st_lift_ok & [= _ ->]).
  unfold validate_file_mode in Hm. case_decide as Hm'; [done|]. split; [done|]. split; [done|].
  destruct n as [m|m c y|t]; cbn in Hk, Hm'; [tauto| |tauto]. exists m, c, y. split; [done|lia].
Qed.

Lemma open_private_file_ok p s s' q :
  wf_tree (tree s) → open_private_file p s = (s', Ok q) → q = p ∧ ∃ c, private_regular (tree s) p c.
Proof.
  intros Hwf. unfold open_private_file. intros (n & s1 & H1 & Hrun)%st_bind_ok.
  pose proof (validate_private_file_ok _ _ _ _ Hwf H1) as (Hp & Hn & m & c & y & -> & Hm).
  apply (read_only_run _ _ _ _ (ro_validate_private_file _)) in H1 as [l ->].
  apply (st_map_err_ok (SpoolError_io "DBX-RS-SPOOL-PATH-0005" "file_open")) in Hrun.
  apply open_existing_ok in Hrun as (l' & _ & ->); [|done]. split; [done|]. exists c. split; [done|]. by exists m, y.
Qed.

Lemma regular_content t p c : private_regular t p c → content_at t p = c.
Proof. unfold content_at. by intros [_ (m & y & -> & _)]. Qed.

(** The path of a segment of this spool. *)
Definition owned (self : Spool) (p : path) (key : InputKey) (id : SegmentId) (ext : name) : Prop :=
  p = segments self ++ [encode_hex (vec_to_list key); segment_file_name id ext] ∧ DOT ∉ ext ∧ utf8 ext = true.

Lemma parent_snoc d (x : name) : parent (d ++ [x]) = Some d.
Proof. apply parent_app. Qed.

Lemma validate_owned_path_ok self p ext s s' :
  wf_tree (tree s) → validate_owned_path self p ext s = (s', Ok tt) →
  ∃ key id, owned self p key id ext ∧ private_directory (tree s) (input_directory self key).
Proof.
  intros Hwf. unfold validate_owned_path. intros (dir & s1 & [-> H1]%st_lift_ok & Hrun)%st_bind_ok.
  apply st_bind_ok in Hrun as (input_parent & s1' & [-> H2]%st_lift_ok & Hrun). apply ok_or_ok in H1, H2.
  case_decide as Hk; [done|]. apply Decidable.not_or in Hk as [->%dec_stable _].
  apply st_bind_ok in Hrun as (key & s1 & Hdir & Hrun).
  pose proof (validate_input_directory_ok _ _ _ _ Hwf Hdir) as [Hpriv (d & ->)].
  rewrite parent_snoc in H2. injection H2 as ->.
  apply st_bind_ok in Hrun as ([id e] & s2 & [-> Hname]%st_lift_ok & Hrun).
  case_decide as Hk; [done|]. apply Decidable.not_or in Hk as [->%dec_stable _].
  apply parse_segment_name_ok in Hname as (d & -> & Hdot & Hu). rewrite parent_snoc in H1. injection H1 as ->.
  exists key, id. split; [|done]. split; [by rewrite <- app_assoc|done].
Qed.

Section Inspection.
Context `{Sha256, Crypto, !CryptoLaws}.

(** The bytes [c] are a complete segment of the [events] that authenticates under [key]
    and has the identity, the summary and the metadata [i]. *)
Definition segment_content (key : SpoolKey) (limit : N) (c : list byte) (i : InspectedSegment)
    (events : list (list byte)) : Prop :=
  ∃ schedule d d',
    decoder_open (Ok (true, lengthN c)) key limit (mkSource c schedule) = Ok d
    ∧ drain (S (length c)) d = (d', Ok (Some events))
    ∧ dec_summary d' = Some (inspected_summary i)
    ∧ dec_recovery_metadata d' = Some (inspected_recovery_metadata i)
    ∧ dec_header d' = inspected_header i ∧ dec_segment_id d' = inspected_segment_id i
    ∧ dec_version d' = inspected_format_version i ∧ inspected_byte_len i = lengthN c.
Definition sealed_content (key : SpoolKey) (limit : N) (c : list byte) (i : InspectedSegment) : Prop :=
  ∃ events, segment_content key limit c i events.

Lemma open_decoder_ok p key limit w w' d c :
  private_regular (tree (disk w)) p c → open_decoder p key limit w = (w', Ok d) →
  ∃ schedule, decoder_open (Ok (true, lengthN c)) key limit (mkSource c schedule) = Ok d.
Proof using Type.
  intros Hc. unfold open_decoder. intros (metadata & w1 & Htry & Hrun)%st_bind_ok.
  apply st_bind_ok in Hrun as (schedule & w2 & Hnext & Hrun).
  apply st_bind_ok in Hrun as (w3 & w3' & [= -> ->] & [_ Hd]%st_lift_ok).
  pose proof (glanced_tree _ _ (looking_run _ _ _ _ (looking_try _ (looking_disk _ (ro_file_metadata p))) Htry)) as T1.
  pose proof (glanced_tree _ _ (looking_run _ _ _ _ looking_next_reads Hnext)) as T2.
  rewrite T1 in T2. rewrite T2, (regular_content _ _ _ Hc) in Hd.
  exists schedule. unfold try_call, on_disk in Htry. destruct (file_metadata p (disk w)) as [s r] eqn:Em.
  injection Htry as _ <-. destruct r as [n|k]; [|done]. apply file_metadata_ok in Em as (l & _ & Hn).
  destruct Hc as [_ (m & y & Ht & _)]. rewrite Ht in Hn. injection Hn as <-. done.
Qed.

Lemma inspect_segment_ok p key limit w w' i :
  wf_tree (tree (disk w)) → inspect_segment p key limit w = (w', Ok i) →
  ∃ c, private_regular (tree (disk w)) p c ∧ sealed_content key limit c i.
Proof using Type.
  intros Hwf. unfold inspect_segment. intros (q & w1 & Hopen & Hrun)%st_bind_ok.
  pose proof (glanced_tree _ _ (looking_run _ _ _ _ (looking_disk _ (ro_open_private_file p)) Hopen)) as T1.
  apply on_disk_ok in Hopen as (d1 & Hopen & ->). apply open_private_file_ok in Hopen as (-> & c & Hc); [|done].
  apply st_bind_ok in Hrun as (n & w2 & Hmeta & Hrun). unfold disk_call in Hmeta.
  pose proof (glanced_tree _ _ (looking_run _ _ _ _ (looking_map_err _ _ (looking_disk _ (ro_file_metadata p))) Hmeta)) as T2.
  apply st_map_err_ok in Hmeta. apply on_disk_ok in Hmeta as (d2 & Hmeta & ->). apply file_metadata_ok in Hmeta as (l & _ & Hn).
  apply st_bind_ok in Hrun as (d & w3 & Hdec & Hrun). exists c. split; [done|].
  rewrite T1 in T2. cbn in T1. cbn [disk set_disk] in Hn. rewrite T1 in Hn.
  pose proof Hc as [_ (m & y & Ht & _)]. rewrite Ht in Hn. injection Hn as <-. cbn [node_len] in Hrun.
  rewrite <- T2 in Hc. destruct (open_decoder_ok _ _ _ _ _ _ _ Hc Hdec) as [schedule Hd].
  unfold inspect_rest in Hrun. unfold lengthN in Hrun at 1. rewrite Nat2N.id in Hrun.
  destruct (drain _ d) as [d' [[events|]|e]] eqn:Edrain; [|done|done].
  apply st_lift_ok in Hrun as [_ Hrun].
  apply result_bind_ok in Hrun as (summary & Hs%ok_or_ok & Hrun).
  apply result_bind_ok in Hrun as (metadata & Hm%ok_or_ok & [= <-]).
  by exists events, schedule, d, d'.
Qed.

(** The turns allowed to the reading loop are enough for every file. *)
Lemma inspect_rest_total metadata key limit c schedule d :
  decoder_open metadata key limit (mkSource c schedule) = Ok d → inspect_rest d (lengthN c) ≠ None.
Proof using All.
  intros Hd. unfold inspect_rest, lengthN. rewrite Nat2N.id.
  destruct (drain _ d) as [d' [[events|]|e]] eqn:Edrain; [done| |done].
  by apply (drain_ends _ _ _ _ _ _ _ _ Hd) in Edrain.
Qed.
End Inspection.
