(* ===== verification/SpoolDelivery.v ===== *)
(** * Delivery and compaction of segments

    [mark_delivered] renames a validated ready file, [compact_delivered] removes a
    validated delivered file; both synchronise the directory. *)

From S2P Require Export SpoolProps FileReads.

Local Open Scope N_scope.

Lemma glanced_disk w w' : glanced w w' → same_disk (disk w) (disk w').
Proof. intros (l & rs & ->). by exists l. Qed.

Lemma on_disk_run {E A} (m : st fs E A) w w' r :
  on_disk m w = (w', r) → ∃ d, m (disk w) = (d, r) ∧ w' = set_disk d w.
Proof. unfold on_disk. destruct (m (disk w)) as [d x]. intros [= <- <-]. by exists d. Qed.

Lemma st_map_err_run {S E F A} (g : E → F) (m : st S E A) s s' r :
  st_map_err g m s = (s', r) → ∃ x, m s = (s', x) ∧ r = map_err g x.
Proof. unfold st_map_err. destruct (m s) as [s1 x]. intros [= <- <-]. by exists x. Qed.

Lemma st_bind_cases {S E A B} (m : st S E A) (f : A → st S E B) s s' r :
  mbind f m s = (s', r) →
  (∃ e, m s = (s', Err e) ∧ r = Err e) ∨ ∃ a s1, m s = (s1, Ok a) ∧ f a s1 = (s', r).
Proof.
  unfold mbind, st_bind. destruct (m s) as [s1 [a|e]]; [intros; right; by exists a, s1|].
  intros [= <- <-]. left. by exists e.
Qed.

Lemma looking_bind_cases {E A B} (m : st world E A) (f : A → st world E B) w w' r :
  looking m → mbind f m w = (w', r) →
  (glanced w w' ∧ ∃ e, r = Err e) ∨ ∃ a w1, glanced w w1 ∧ m w = (w1, Ok a) ∧ f a w1 = (w', r).
Proof.
  intros Hm [(e & Hrun & ->)|(a & w1 & Hrun & Hf)]%st_bind_cases; pose proof (looking_run _ _ _ _ Hm Hrun).
  - left. split; [done|by eexists].
  - right. by exists a, w1.
Qed.

Lemma sync_directory_run d stage s s' r :
  wf_tree (tree s) → sync_directory d stage s = (s', r) →
  (same_disk s s' ∧ ∃ e, r = Err e) ∨ (r = Ok tt ∧ dir_synced d s s').
Proof.
  intros Hwf. unfold sync_directory. intros [(e & Hrun & ->)|([] & s1 & Hval & Hrun)]%st_bind_cases.
  - left. split; [|by eexists]. by eapply read_only_same, Hrun; eauto with ro.
  - pose proof (validate_private_directory_ok _ _ _ Hwf Hval) as [Hp (m & Hd & _)].
    apply (read_only_same _ _ _ _ (ro_validate_private_directory _)) in Hval as [l ->].
    apply st_map_err_run in Hrun as (x & Hrun & ->).
    apply sync_dir_run in Hrun as [[[l' ->] [k ->]]|[-> ?]]; [| |done|by exists m].
    + left. split; [by exists l'|by eexists].
    + by right.
Qed.

(** The same calls from the spool: what else is in the world stays. *)
Definition disk_only (w w' : world) : Prop := w' = set_disk (disk w') w.

Lemma disk_only_accounting w w' : disk_only w w' → accounting w' = accounting w.
Proof. by intros ->. Qed.
Lemma glanced_set_disk w l : glanced w (set_disk (set_faults l (disk w)) w).
Proof. by exists l, (reads w). Qed.

Lemma disk_rename_run code stage d x x' m c y w w' r :
  wf_tree (tree (disk w)) → tree (disk w) !! (d ++ [x]) = Some (Regular m c y) → x ≠ x' →
  disk_call code stage (rename_file (d ++ [x]) (d ++ [x'])) w = (w', r) →
  (glanced w w' ∧ ∃ e, r = Err e)
  ∨ (r = Ok tt ∧ disk_only w w' ∧ wf_tree (tree (disk w'))
     ∧ renamed (d ++ [x]) (d ++ [x']) (Regular m c y) (tree (disk w)) (tree (disk w'))
     ∧ entries_changed [d ++ [x]; d ++ [x']] (disk w) (disk w')).
Proof.
  intros Hwf Hn Hx. unfold disk_call. intros (r' & Hrun & ->)%st_map_err_run.
  apply on_disk_run in Hrun as (s & Hrun & ->).
  apply (rename_run _ _ _ m c y) in Hrun as [[[l ->] [k ->]]|(-> & Ht & Hpast & Hwf')]; [| |done..].
  - left. split; [apply glanced_set_disk|by eexists].
  - right. do 4 (split; [done|]). apply (entries_changed_step _ _ (tree s)); [|done..].
    intros q Hq. rewrite Ht. rewrite !not_elem_of_cons in Hq. by rewrite lookup_insert_ne, lookup_delete_ne by naive_solver.
Qed.

Lemma disk_sync_run d stage l s0 w w' r :
  wf_tree (tree (disk w)) → (∀ q, q ∈ l → parent q = Some d) → entries_changed l s0 (disk w) →
  on_disk (sync_directory d stage) w = (w', r) →
  disk_only w w' ∧ tree (disk w') = tree (disk w) ∧ entries_changed l s0 (disk w')
  ∧ (r = Ok tt → entries_durable l (disk w')).
Proof.
  intros Hwf Hl Hch (s & Hrun & ->)%on_disk_run. split; [done|]. cbn [disk set_disk].
  apply sync_directory_run in Hrun as [[Hsame [e ->]]|[-> Hsync]]; [| |done].
  - split; [by apply same_disk_tree|]. split; [by eapply entries_changed_same|done].
  - split; [apply Hsync|]. by destruct (entries_changed_synced _ _ _ _ _ Hl Hch Hsync).
Qed.

(** ** Handles *)

Section Delivery.
Context `{Sha256, Crypto}.

Definition handle_of (i : InspectedSegment) (s : ReadySegment) : Prop := s = InspectedSegment_as (ready_path s) i.

Lemma inspected_matches_true i s : inspected_matches i s = true ↔ handle_of i s.
Proof.
  unfold inspected_matches, handle_of, InspectedSegment_as. rewrite bool_decide_eq_true.
  destruct s, i; cbn. naive_solver.
Qed.

(** What a validated handle says of the disk: its path is one of this spool's, and
    the private file there authenticates with exactly the handle's identity. *)
Definition validated (self : Spool) (segment : ReadySegment) (ext : name) (t : tree_t) (c : list byte) : Prop :=
  (∃ key id, owned self (ready_path segment) key id ext ∧ private_directory t (input_directory self key))
  ∧ private_regular t (ready_path segment) c
  ∧ ∃ i, sealed_content (spool_key self) (limit_segment (limits self)) c i ∧ handle_of i segment.

Lemma validate_handle_ok self segment ext w w' :
  wf_tree (tree (disk w)) → validate_handle self segment ext w = (w', Ok tt) →
  ∃ c, validated self segment ext (tree (disk w)) c.
Proof using Type.
  intros Hwf. unfold validate_handle. intros ([] & w1 & Hpath & Hrun)%st_bind_ok.
  pose proof (glanced_tree _ _ (looking_run _ _ _ _ (looking_disk _ (ro_validate_owned_path _ _ _)) Hpath)) as T1.
  apply on_disk_ok in Hpath as (d & Hpath & ->). apply validate_owned_path_ok in Hpath; [|done].
  apply st_bind_ok in Hrun as (i & w2 & Hi & Hrun). case_decide as Hm; [done|].
  apply not_false_iff_true, inspected_matches_true in Hm.
  apply inspect_segment_ok in Hi as (c & Hc & Hs); [|by rewrite T1]. rewrite T1 in Hc.
  exists c. split; [done|]. split; [done|]. by exists i.
Qed.

Lemma with_extension_segment d id ext ext' :
  DOT ∉ ext → with_extension (d ++ [segment_file_name id ext]) ext' = d ++ [segment_file_name id ext'].
Proof.
  intros Hext. unfold with_extension, file_name. rewrite last_snoc, length_app. cbn [length].
  rewrite Nat.add_sub, take_app_length. f_equal. f_equal. unfold segment_file_name, file_stem.
  destruct (encode_hex_cons id) as (b & l & Hid).
  assert (last_dot (encode_hex (vec_to_list id) ++ DOT :: ext) = Some (b :: l, ext)) as -> by (rewrite <- Hid; by apply last_dot_some).
  by rewrite Hid.
Qed.

Lemma segment_file_name_inj id ext ext' : segment_file_name id ext = segment_file_name id ext' → ext = ext'.
Proof. unfold segment_file_name. intros E. apply app_inv_head in E. congruence. Qed.

Lemma no_dot_lifecycle : DOT ∉ READY_EXTENSION ∧ DOT ∉ DELIVERED_EXTENSION ∧ DOT ∉ OPEN_EXTENSION
  ∧ READY_EXTENSION ≠ DELIVERED_EXTENSION ∧ OPEN_EXTENSION ≠ READY_EXTENSION.
Proof. by vm_compute; split_and!; try discriminate; intros H'; repeat (apply elem_of_cons in H' as [H'|H']; [discriminate|]); apply elem_of_nil in H'. Qed.

(** ** Delivery *)

(** The outcome of a delivery that renamed the file: it is at one of the two paths in
    every version, and the accounting is as before. *)
Definition delivery (self : Spool) (segment : ReadySegment) (c : list byte) (w w' : world)
    (r : result SpoolError DeliveredSegment) : Prop :=
  let p := ready_path segment in
  let q := with_extension p DELIVERED_EXTENSION in
  ∃ m y, let n := Regular m c y in
    tree (disk w) !! p = Some n ∧ renamed p q n (tree (disk w)) (tree (disk w'))
    ∧ entries_changed [p; q] (disk w) (disk w') ∧ wf_tree (tree (disk w'))
    ∧ ∀ d, r = Ok d → as_ready d = InspectedSegment_as q (mkInspected (ready_header segment) (ready_segment_id segment)
          (ready_summary segment) (ready_format_version segment) (ready_recovery_metadata segment)
          (ready_byte_len segment))
        ∧ entries_durable [p; q] (disk w').

Lemma renamed_lookup p q n t t' : p ≠ q → renamed p q n t t' →
  t' !! p = None ∧ t' !! q = Some n ∧ ∀ x, x ∉ [p; q] → t' !! x = t !! x.
Proof.
  intros Hne ->. rewrite lookup_insert_eq, lookup_insert_ne, lookup_delete_eq by done. split; [done|]. split; [done|].
  intros x Hx. rewrite !not_elem_of_cons in Hx. by rewrite lookup_insert_ne, lookup_delete_ne by naive_solver.
Qed.

(** The two paths of a delivery. *)
Lemma owned_split self p key id ext :
  owned self p key id ext → p = input_directory self key ++ [segment_file_name id ext]
    ∧ ∀ ext', with_extension p ext' = input_directory self key ++ [segment_file_name id ext'].
Proof.
  intros (-> & Hdot & _).
  assert (segments self ++ [encode_hex (vec_to_list key); segment_file_name id ext]
    = input_directory self key ++ [segment_file_name id ext]) as -> by (unfold input_directory, join; by rewrite <- app_assoc).
  split; [done|]. intros ext'. by apply with_extension_segment.
Qed.

Lemma mark_delivered_rename self segment c w1 w' r :
  validated self segment READY_EXTENSION (tree (disk w1)) c → wf_tree (tree (disk w1)) →
  (let delivered_path := with_extension (ready_path segment) DELIVERED_EXTENSION in
   _ ← disk_call "DBX-RS-SPOOL-LIFECYCLE-0002" "mark_delivered" (rename_file (ready_path segment) delivered_path);
   dir ← st_lift (ok_or invalid_path (parent delivered_path));
   _ ← on_disk (sync_directory dir "mark_delivered");
   mret (mkDelivered delivered_path (ready_header segment) (ready_segment_id segment)
          (ready_summary segment) (ready_format_version segment) (ready_recovery_metadata segment)
          (ready_byte_len segment))) w1 = (w', r) →
  accounting w' = accounting w1 ∧ ((glanced w1 w' ∧ ∃ e, r = Err e) ∨ delivery self segment c w1 w' r).
Proof using Type.
  intros [(key & id & Hown & _) [[_ (m & y & Hn & _)] _]] Hwf. cbn zeta. unfold delivery.
  apply owned_split in Hown as [Ep Eq]. rewrite Eq. rewrite Ep in *. clear Ep Eq.
  intros [(e & Hrun & ->)|([] & w2 & Hren & Hrun)]%st_bind_cases.
  { apply (disk_rename_run _ _ _ _ _ m c y) in Hrun as [[G _]|[? _]]; [|done..|].
    - split; [by apply glanced_accounting|]. left. split; [done|by eexists].
    - intros E%segment_file_name_inj. by apply no_dot_lifecycle in E. }
  apply (disk_rename_run _ _ _ _ _ m c y) in Hren as [[_ [? ?]]|(_ & Hd & Hwf2 & Ht & Hch)]; [done| |done..|].
  2: { intros E%segment_file_name_inj. by apply no_dot_lifecycle in E. }
  rewrite parent_snoc in Hrun. cbn [ok_or] in Hrun. rewrite (st_lift_run _ _ _ _ eq_refl) in Hrun.
  apply st_bind_cases in Hrun as [(e & Hsync & ->)|([] & w3 & Hsync & Hrun)];
    match type of Hch with entries_changed ?l _ _ =>
      apply (disk_sync_run _ _ l (disk w1)) in Hsync as (Hd' & Et & Hch' & Hdur); try done end;
    try (intros q Hq; rewrite !elem_of_cons, elem_of_nil in Hq; destruct Hq as [->|[->|[]]]; apply parent_snoc).
  - split; [by rewrite (disk_only_accounting _ _ Hd'), (disk_only_accounting _ _ Hd)|]. right. exists m, y.
    rewrite Et. done.
  - injection Hrun as <- <-. split; [by rewrite (disk_only_accounting _ _ Hd'), (disk_only_accounting _ _ Hd)|].
    right. exists m, y. rewrite Et. do 4 (split; [done|]). intros d [= <-]. split; [done|by apply Hdur].
Qed.

Lemma validated_glanced self segment ext w w' c :
  glanced w w' → validated self segment ext (tree (disk w)) c → validated self segment ext (tree (disk w')) c.
Proof using Type. intros G. by rewrite (glanced_tree _ _ G). Qed.

Lemma delivery_glanced self segment c w w1 w' r :
  glanced w w1 → delivery self segment c w1 w' r → delivery self segment c w w' r.
Proof using Type.
  intros (l & rs & ->) (m & y & Hn & Ht & Hch & Hwf & Hr). exists m, y. split; [done|]. split; [done|].
  split; [|done]. eapply entries_changed_before; [|exact Hch]. by exists l.
Qed.

Lemma mark_delivered_run self segment w w' r :
  wf_tree (tree (disk w)) → mark_delivered self segment w = (w', r) →
  accounting w' = accounting w
  ∧ ((glanced w w' ∧ ∃ e, r = Err e)
     ∨ ∃ c, validated self segment READY_EXTENSION (tree (disk w)) c ∧ delivery self segment c w w' r).
Proof using Type.
  intros Hwf. unfold mark_delivered.
  intros [[G He]|([] & w1 & G1 & Hval & Hrun)]%looking_bind_cases; [| |apply looking_validate_handle].
  { split; [by apply glanced_accounting|by left]. }
  apply validate_handle_ok in Hval as [c Hc]; [|done]. cbn zeta in Hrun.
  apply looking_bind_cases in Hrun as [[G2 He]|(present & w2 & G2 & _ & Hrun)];
    [|pose proof (glanced_trans _ _ _ G1 G2) as G|looking].
  { pose proof (glanced_trans _ _ _ G1 G2). split; [by apply glanced_accounting|by left]. }
  case_decide.
  { injection Hrun as <- <-. split; [by apply glanced_accounting|]. left. split; [done|by eexists]. }
  apply (mark_delivered_rename self segment c) in Hrun as [Ha Hcases];
    [|by eapply validated_glanced|by rewrite (glanced_tree _ _ G)].
  split; [by rewrite Ha, (glanced_accounting _ _ G)|]. destruct Hcases as [[G' He]|Hd].
  - left. split; [by eapply glanced_trans|done].
  - right. exists c. split; [done|]. by eapply delivery_glanced.
Qed.

(** ** Compaction *)

(** The outcome of a compaction that removed the file; the bytes are given back only
    once the directory is synchronised. *)
Definition compaction (segment : DeliveredSegment) (c : list byte) (w w' : world)
    (r : result SpoolError ()) : Prop :=
  let p := delivered_path segment in
  (∃ m y, tree (disk w) !! p = Some (Regular m c y))
  ∧ tree (disk w') = delete p (tree (disk w)) ∧ wf_tree (tree (disk w'))
  ∧ entries_changed [p] (disk w) (disk w')
  ∧ ((∃ e, r = Err e ∧ accounting w' = accounting w)
     ∨ (entries_durable [p] (disk w')
        ∧ remove_stored (input_key (delivered_header segment)) (delivered_byte_len segment) (accounting w)
          = (accounting w', r))).

Lemma compact_remove self segment c w1 w' r :
  validated self (as_ready segment) DELIVERED_EXTENSION (tree (disk w1)) c → wf_tree (tree (disk w1)) →
  (_ ← disk_call "DBX-RS-SPOOL-LIFECYCLE-0003" "compact_delivered" (remove_file (delivered_path segment));
   dir ← st_lift (ok_or invalid_path (parent (delivered_path segment)));
   _ ← on_disk (sync_directory dir "compact_delivered");
   on_accounting (remove_stored (input_key (delivered_header segment)) (delivered_byte_len segment))) w1 = (w', r) →
  (glanced w1 w' ∧ ∃ e, r = Err e) ∨ compaction segment c w1 w' r.
Proof using Type.
  intros [(key & id & Hown & _) [[_ (m & y & Hn & _)] _]] Hwf. unfold compaction. cbn [as_ready ready_path] in *.
  apply owned_split in Hown as [Ep _]. rewrite Ep in *. clear Ep.
  intros [(e & Hrun & ->)|([] & w2 & Hrm & Hrun)]%st_bind_cases.
  { unfold disk_call in Hrun. apply st_map_err_run in Hrun as (x & Hrun & Ex). apply on_disk_run in Hrun as (s & Hrun & ->).
    apply (remove_run _ m c y) in Hrun as [[[l ->] _]|[-> _]]; [|done..].
    left. split; [apply glanced_set_disk|by eexists]. }
  unfold disk_call in Hrm. apply st_map_err_run in Hrm as (x & Hrm & Ex). apply on_disk_run in Hrm as (s & Hrm & ->).
  apply (remove_run _ m c y) in Hrm as [[_ [k ->]]|(_ & Ht & Hpast & Hwf2)]; [done| |done..].
  assert (entries_changed [input_directory self key ++ [segment_file_name id DELIVERED_EXTENSION]] (disk w1) s) as Hch.
  { apply (entries_changed_step _ _ (tree s)); [|done..]. intros q Hq. rewrite Ht, lookup_delete_ne; [done|].
    intros <-. apply Hq. by left. }
  rewrite parent_snoc in Hrun. cbn [ok_or] in Hrun. rewrite (st_lift_run _ _ _ _ eq_refl) in Hrun.
  right. split; [by exists m, y|].
  apply st_bind_cases in Hrun as [(e & Hsync & ->)|([] & w3 & Hsync & Hrun)];
    (eapply (disk_sync_run _ _ _ (disk w1)) in Hsync as (Hd' & Et & Hch' & Hdur); [|exact Hwf2| |exact Hch]);
    try (intros q Hq; rewrite !elem_of_cons, elem_of_nil in Hq; destruct Hq as [->|[]]; apply parent_snoc).
  - rewrite Et. split; [done|]. split; [done|]. split; [done|]. left. exists e. split; [done|].
    by rewrite (disk_only_accounting _ _ Hd').
  - unfold on_accounting in Hrun. destruct (remove_stored _ _ (accounting w3)) as [a r'] eqn:Er.
    injection Hrun as <- <-. cbn [disk accounting]. rewrite Et. split; [done|]. split; [done|]. split; [done|].
    right. split; [by apply Hdur|]. by rewrite (disk_only_accounting _ _ Hd') in Er.
Qed.

Lemma compact_delivered_run self segment w w' r :
  wf_tree (tree (disk w)) → compact_delivered self segment w = (w', r) →
  (glanced w w' ∧ ∃ e, r = Err e)
  ∨ ∃ c, validated self (as_ready segment) DELIVERED_EXTENSION (tree (disk w)) c ∧ compaction segment c w w' r.
Proof using Type.
  intros Hwf. unfold compact_delivered, validate_delivered_handle.
  intros [[G He]|([] & w1 & G & Hval & Hrun)]%looking_bind_cases; [by left| |apply looking_validate_handle].
  apply validate_handle_ok in Hval as [c Hc]; [|done].
  apply (compact_remove self segment c) in Hrun as [[G' He]|Hd];
    [left; split; [by eapply glanced_trans|done]| |by eapply validated_glanced|by rewrite (glanced_tree _ _ G)].
  right. exists c. split; [done|]. destruct Hd as (Hn & Ht & Hwf' & Hch & Hr).
  unfold compaction. rewrite (glanced_tree _ _ G) in Hn, Ht. rewrite (glanced_accounting _ _ G) in Hr.
  do 3 (split; [done|]). split; [|done]. by eapply entries_changed_before; [apply glanced_disk|].
Qed.

(** ** The theorems *)

(** delivery never loses a segment: whatever fails or crashes, a segment whose ready
    file is in every version is afterwards, in every version, still at its ready path or
    complete at its delivered path; no other path changes, the accounting stays, and on
    success the move is durable, of a file that authenticates as the handle's segment. *)
Theorem mark_delivered_never_loses self segment w w' r :
  wf_tree (tree (disk w)) → mark_delivered self segment w = (w', r) →
  let p := ready_path segment in
  let q := with_extension p DELIVERED_EXTENSION in
  accounting w' = accounting w ∧ wf_tree (tree (disk w'))
  ∧ (∀ n, (∀ v, v ∈ versions (disk w) → v !! p = Some n) →
       ∀ v, v ∈ versions (disk w') → v !! p = Some n ∨ v !! q = Some n)
  ∧ (∀ x, x ∉ [p; q] → tree (disk w') !! x = tree (disk w) !! x
       ∧ ∀ v, v ∈ versions (disk w') → ∃ v0, v0 ∈ versions (disk w) ∧ v0 !! x = v !! x)
  ∧ ∀ d, r = Ok d → ∃ c m y, validated self segment READY_EXTENSION (tree (disk w)) c
       ∧ delivered_path d = q ∧ DeliveredSegment_reference_digest d = ReadySegment_reference_digest segment
       ∧ ∀ v, v ∈ versions (disk w') → v !! p = None ∧ v !! q = Some (Regular m c y).
Proof using Type.
  intros Hwf Hrun. apply mark_delivered_run in Hrun as [Ha Hcases]; [|done]. cbn zeta. split; [done|].
  destruct Hcases as [[G [e ->]]|(c & Hval & m & y & Hn & Ht & Hch & Hwf' & Hr)].
  - rewrite (glanced_tree _ _ G), (same_disk_versions _ _ (glanced_disk _ _ G)). split; [done|].
    split; [naive_solver|]. split; [|done]. intros x _. split; [done|]. intros v Hv. by exists v.
  - pose proof Hval as [(key & id & Hown & _) _]. apply owned_split in Hown as [Ep Eq]. specialize (Eq DELIVERED_EXTENSION).
    assert (ready_path segment ≠ with_extension (ready_path segment) DELIVERED_EXTENSION) as Hne.
    { rewrite Eq. rewrite Ep at 1. intros E. apply app_inj_2 in E as [_ [= E%segment_file_name_inj]]; [|done].
      by apply no_dot_lifecycle in E. }
    destruct (renamed_lookup _ _ _ _ _ Hne Ht) as (Hp & Hq & _). split; [done|]. split; [|split].
    + intros n Hall v Hv. destruct (ec_together _ _ _ Hch v Hv) as [(v0 & Hv0 & E)|E].
      * left. rewrite <- (E (ready_path segment)) by (by left). by apply Hall.
      * right. rewrite E by (right; left). rewrite Hq. rewrite <- (Hall (tree (disk w))) by left. done.
    + intros x Hx. split; [by apply (ec_other _ _ _ Hch)|]. intros v Hv. by apply (ec_other_versions _ _ _ _ _ Hch).
    + intros d Hd. destruct (Hr d Hd) as [Hhandle Hdur]. exists c, m, y. split; [done|].
      destruct d as [dp dh di ds dv dm db]. injection Hhandle as -> -> -> -> -> -> ->. split; [done|]. split; [done|].
      intros v Hv. rewrite (Hdur v _ Hv) by (by left). rewrite (Hdur v _ Hv) by (right; left). done.
Qed.

(** Compaction deletes only a delivered segment that authenticates as the handle's,
    and its bytes are given back to the quota only when the deletion has reached the
    disk; nothing else is touched. *)
Theorem compact_delivered_exact self segment w w' r :
  wf_tree (tree (disk w)) → compact_delivered self segment w = (w', r) →
  let p := delivered_path segment in
  wf_tree (tree (disk w'))
  ∧ (∀ x, x ≠ p → tree (disk w') !! x = tree (disk w) !! x
       ∧ ∀ v, v ∈ versions (disk w') → ∃ v0, v0 ∈ versions (disk w) ∧ v0 !! x = v !! x)
  ∧ (tree (disk w') !! p ≠ tree (disk w) !! p →
       tree (disk w') !! p = None ∧ ∃ c, validated self (as_ready segment) DELIVERED_EXTENSION (tree (disk w)) c
         ∧ lengthN c = delivered_byte_len segment)
  ∧ (accounting w' ≠ accounting w ∨ r = Ok tt →
       (∀ v, v ∈ versions (disk w') → v !! p = None)
       ∧ remove_stored (input_key (delivered_header segment)) (delivered_byte_len segment) (accounting w)
         = (accounting w', r)).
Proof using Type.
  intros Hwf Hrun. apply compact_delivered_run in Hrun; [|done]. cbn zeta.
  destruct Hrun as [[G [e ->]]|(c & Hval & (m & y & Hn) & Ht & Hwf' & Hch & Hr)].
  - rewrite (glanced_tree _ _ G), (same_disk_versions _ _ (glanced_disk _ _ G)), (glanced_accounting _ _ G).
    split; [done|]. split; [intros x _; split; [done|]; intros v Hv; by exists v|]. split; [done|].
    intros [?|?]; done.
  - split; [done|]. split; [|split].
    + intros x Hx. split; [apply (ec_other _ _ _ Hch)|intros v Hv; apply (ec_other_versions _ _ _ _ _ Hch); [|done]];
        by rewrite list_elem_of_singleton.
    + intros _. split; [by rewrite Ht, lookup_delete_eq|]. exists c. split; [done|].
      destruct Hval as (_ & _ & i & (evs & sch & d & d' & _ & _ & _ & _ & _ & _ & _ & Hlen) & Hh).
      rewrite <- Hlen. by apply (f_equal ready_byte_len) in Hh.
    + intros Hok. destruct Hr as [(e & -> & Ha)|[Hdur Hrem]]; [by destruct Hok|]. split; [|done].
      intros v Hv. rewrite (Hdur v _ Hv) by (by left). by rewrite Ht, lookup_delete_eq.
Qed.

End Delivery.

(** ** Which paths a spool operation may change

    A footprint bounds the paths whose nodes an operation changes, in the tree and in
    every version, whatever its outcome.  It may depend on an invariant of the tree, here
    that a directory exists, which the changes preserve. *)
Definition changes_only (A : path → option node → Prop) (w w' : world) : Prop :=
  base A (tree (disk w)) (past (disk w)) (tree (disk w')) (past (disk w')).

Section Footprints.
Context (A : path → option node → Prop) (P : tree_t → Prop).
Context (HP : ∀ t ps t' ps', P t → base A t ps t' ps' → P t').

Definition footprint_in {E B} (m : st fs E B) : Prop :=
  ∀ s, wf_tree (tree s) → P (tree s) → base A (tree s) (past s) (tree (m s).1) (past (m s).1).
Definition spool_footprint {E B} (m : st world E B) : Prop :=
  ∀ w, wf_tree (tree (disk w)) → P (tree (disk w)) → changes_only A w (m w).1.

Lemma fpi_footprint {E B} (m : st fs E B) : footprint A m → footprint_in m.
Proof using Type. intros Hm s Hwf _. by apply Hm. Qed.
Lemma fpi_read_only {E B} (m : st fs E B) : read_only m → footprint_in m.
Proof using Type. intros Hm. by apply fpi_footprint, footprint_read_only. Qed.
Lemma fpi_bind {E B C} (m : st fs E B) (f : B → st fs E C) :
  footprint_in m → (∀ b, footprint_in (f b)) → footprint_in (m ≫= f).
Proof using HP.
  intros Hm Hf s Hwf Hs. specialize (Hm s Hwf Hs). unfold mbind, st_bind. destruct (m s) as [s1 [b|e]]; [|done].
  cbn [fst] in Hm. eapply base_trans; [exact Hm| |done|done]. apply Hf; [apply Hm|by eapply HP].
Qed.
Lemma fpi_map_err {E F B} (g : E → F) (m : st fs E B) : footprint_in m → footprint_in (st_map_err g m).
Proof using Type. intros Hm s Hwf Hs. specialize (Hm s Hwf Hs). unfold st_map_err. by destruct (m s). Qed.
Lemma fpi_try {E F B} (m : st fs E B) : footprint_in m → footprint_in (try_call m : st fs F _).
Proof using Type. intros Hm s Hwf Hs. specialize (Hm s Hwf Hs). unfold try_call. by destruct (m s). Qed.

Lemma changes_only_refl w : wf_tree (tree (disk w)) → changes_only A w w.
Proof using Type. by apply base_refl. Qed.
Lemma changes_only_trans w w1 w' : changes_only A w w1 → changes_only A w1 w' → changes_only A w w'.
Proof using Type. intros H1 H2. by eapply base_trans. Qed.
Lemma changes_only_glanced w w' : wf_tree (tree (disk w)) → glanced w w' → changes_only A w w'.
Proof using Type.
  intros Hwf G. unfold changes_only. rewrite (glanced_tree _ _ G), (glanced_past _ _ G). by apply base_refl.
Qed.

Lemma fp_ret {E B} (b : B) : spool_footprint (mret b : st world E B).
Proof using Type. intros w ? _. by apply changes_only_refl. Qed.
Lemma fp_throw {E B} (e : E) : spool_footprint (mthrow e : st world E B).
Proof using Type. intros w ? _. by apply changes_only_refl. Qed.
Lemma fp_lift {E B} (r : result E B) : spool_footprint (st_lift r : st world E B).
Proof using Type. intros w ? _. by apply changes_only_refl. Qed.
Lemma fp_accounting {B} (m : acct B) : spool_footprint (on_accounting m).
Proof using Type. intros w Hwf _. unfold on_accounting. destruct (m (accounting w)). exact (changes_only_refl w Hwf). Qed.
Lemma fp_random n e : spool_footprint (random_fill n e).
Proof using Type. intros w Hwf _. unfold random_fill. destruct (randoms w) as [|[b|] l]; exact (changes_only_refl w Hwf). Qed.
Lemma fp_next_writes : spool_footprint next_writes.
Proof using Type. intros w Hwf _. unfold next_writes. destruct (writes w); exact (changes_only_refl w Hwf). Qed.
Lemma fp_looking {E B} (m : st world E B) : looking m → spool_footprint m.
Proof using Type. intros Hm w Hwf _. by apply changes_only_glanced. Qed.
Lemma fp_bind {E B C} (m : st world E B) (f : B → st world E C) :
  spool_footprint m → (∀ b, spool_footprint (f b)) → spool_footprint (m ≫= f).
Proof using HP.
  intros Hm Hf w Hwf Hw. specialize (Hm w Hwf Hw). unfold mbind, st_bind. destruct (m w) as [w1 [b|e]]; [|done].
  cbn [fst] in Hm. eapply changes_only_trans; [done|]. apply Hf; [apply Hm|by eapply HP].
Qed.
Lemma fp_try {E F B} (m : st world E B) : spool_footprint m → spool_footprint (try_call m : st world F _).
Proof using Type. intros Hm w Hwf Hw. specialize (Hm w Hwf Hw). unfold try_call. by destruct (m w). Qed.
Lemma fp_map_err {E F B} (g : E → F) (m : st world E B) : spool_footprint m → spool_footprint (st_map_err g m).
Proof using Type. intros Hm w Hwf Hw. specialize (Hm w Hwf Hw). unfold st_map_err. by destruct (m w). Qed.
Lemma fp_disk {E B} (m : st fs E B) : footprint_in m → spool_footprint (on_disk m).
Proof using Type. intros Hm w Hwf Hw. specialize (Hm (disk w) Hwf Hw). unfold on_disk. by destruct (m (disk w)). Qed.
Lemma fp_store_file {E} file bytes synced :
  (∀ n, A file n) → spool_footprint (store_file (E := E) file bytes synced).
Proof using Type.
  intros HA w Hwf _. unfold store_file. destruct (tree (disk w) !! file) as [[m|m c y|t]|] eqn:En;
    try by apply changes_only_refl.
  unfold changes_only. cbn. split; [|by apply evolves_insert].
  apply wf_insert; [done| |right; intros [? ?]; congruence].
  destruct file as [|z l]; [destruct (wf_root _ Hwf) as [m' E']; congruence|].
  destruct (exists_last (l := z :: l)) as (d & x & Ex); [done|]. rewrite Ex in *.
  exists d, x. split; [done|]. by eapply wf_parent.
Qed.

(** A computation changing nothing but its own result: [footprint_in] for one call. *)
Lemma fpi_syscall {B} (act : io B) :
  (∀ s, wf_tree (tree s) → P (tree s) → base A (tree s) (past s) (tree (act s).1) (past (act s).1)) →
  footprint_in (syscall act).
Proof using Type.
  intros Hact s Hwf Hs. unfold syscall. destruct (next_fault (faults s)) as [[|n k] l]; [|by apply (base_refl A s)].
  exact (Hact (set_faults l s) Hwf Hs).
Qed.
End Footprints.
Create HintDb fp.
#[export] Hint Resolve fp_ret fp_throw fp_lift fp_accounting fp_random fp_next_writes : fp.

(** ** Entries of an existing directory *)

Section Entries.
Context (A : path → option node → Prop) (d : path).
Abbreviation in_d := (λ t, is_dir_at t d).

Lemma dir_stays : (∀ n, ¬ A d n) → ∀ t ps t' ps', is_dir_at t d → base A t ps t' ps' → is_dir_at t' d.
Proof.
  intros HA t ps t' ps' [m Hm] [_ Hev]. destruct (ev_tree _ _ _ _ _ Hev d) as [E|E]; [|by apply HA in E].
  exists m. by rewrite E.
Qed.

Lemma fpi_remove_entry x : A (d ++ [x]) None → footprint_in A in_d (remove_file (d ++ [x])).
Proof.
  intros HA. apply fpi_syscall. intros s Hwf Hd. unfold mbind, st_bind.
  rewrite locate_eq, (resolve_child _ _ _ _ _ Hwf Hd (or_introl eq_refl)), node_at_eq.
  destruct (tree s !! (d ++ [x])) as [n|] eqn:En; cbn; [|by apply (base_refl A s)].
  assert (¬ is_dir_at (tree s) (d ++ [x]) → base A (tree s) (past s) (delete (d ++ [x]) (tree s)) (tree s :: past s)) as Hgo.
  { intros Hno. split; [by apply wf_delete|]. apply evolves_change. intros q. rewrite lookup_delete.
    case_decide; [subst; by right|by left]. }
  destruct n; [by apply (base_refl A s)|apply Hgo; intros [? ?]; congruence..].
Qed.

Lemma fpi_rename_entry x x' :
  A (d ++ [x]) None → (∀ n, A (d ++ [x']) n) → x ≠ x' → footprint_in A in_d (rename_file (d ++ [x]) (d ++ [x'])).
Proof.
  intros HA HA' Hx. apply fpi_syscall. intros s Hwf Hd. unfold mbind, st_bind.
  rewrite locate_eq, (resolve_child _ _ _ _ _ Hwf Hd (or_introl eq_refl)).
  rewrite locate_eq, (resolve_child _ _ _ _ _ Hwf Hd (or_introl eq_refl)), node_at_eq.
  destruct (tree s !! (d ++ [x])) as [n|] eqn:En; cbn; [|by apply (base_refl A s)].
  destruct Hd as [dm Hd].
  assert (is_dir n = false → ¬ is_dir_at (tree s) (d ++ [x']) →
    base A (tree s) (past s) (<[d ++ [x'] := n]> (delete (d ++ [x]) (tree s))) (tree s :: past s)) as Hgo.
  { intros Hn Hno. split.
    - apply wf_insert; [apply wf_delete; [done|]| |right].
      + intros [m' E']. rewrite En in E'. by injection E' as ->.
      + destruct (d ++ [x']) as [|z l] eqn:El; [by destruct d|]. rewrite <- El. exists d, x'. split; [done|].
        exists dm. rewrite lookup_delete_ne; [done|]. intros E. by apply neq_child in E.
      + intros [m' Em]. apply Hno. exists m'. by apply lookup_delete_Some in Em as [_ ?].
    - apply evolves_change. intros q. rewrite lookup_insert, lookup_delete.
      case_decide; [subst; by right|]. case_decide; [subst; by right|by left]. }
  destruct n; [by apply (base_refl A s)|..];
    (destruct (tree s !! (d ++ [x'])) as [[| |]|] eqn:Ep; cbn;
       [by apply (base_refl A s)|apply Hgo; [done|intros [? ?]; congruence]..]).
Qed.

End Entries.
