(* ===== verification/SpoolWriting.v ===== *)
(** * Writing a segment

    From the reservation to the published ready file: what the disk, the accounting and
    the encoder are after every step of a writer. *)

From S2P Require Export SpoolDelivery SpoolQuotaProps.

Local Open Scope N_scope.

(** ** Directories and new files *)

(** Only directories appear above a directory made private. *)
Definition above (d : path) (q : path) (n : option node) : Prop := q `prefix_of` d ∧ ∃ m, n = Some (Dir m).
Definition exactly (p : path) (q : path) (_ : option node) : Prop := q = p.

Lemma ensure_private_directory_run d s s' r :
  wf_tree (tree s) → ensure_private_directory d s = (s', r) →
  base (above d) (tree s) (past s) (tree s') (past s')
  ∧ (r = Ok tt → plain d (tree s') ∧ tree s' !! d = Some (Dir MODE_PRIVATE_DIR)).
Proof.
  intros Hwf. unfold ensure_private_directory.
  assert (∀ s1, same_disk s s1 → base (above d) (tree s) (past s) (tree s1) (past s1)) as Hsame
    by (intros s1 [l ->]; by apply (base_refl (above d) s)).
  intros [(e & Hrun & ->)|([] & s1 & H1 & Hrun)]%st_bind_cases.
  { split; [|done]. by eapply Hsame, read_only_same, Hrun; eauto with ro. }
  pose proof (read_only_same _ _ _ _ (ro_spool_reject_symlinks _) H1) as S1.
  apply st_bind_cases in Hrun as [(e & Hrun & ->)|(present & s2 & H2 & Hrun)].
  { split; [|done]. eapply Hsame, same_disk_trans; [done|]. by eapply read_only_same, Hrun; eauto with ro. }
  pose proof (same_disk_trans _ _ _ S1 (read_only_same _ _ _ _ (ro_path_exists _) H2)) as S2.
  apply st_bind_cases in Hrun as [(e & Hrun & ->)|([] & s3 & H3 & Hrun)].
  { split; [|done]. eapply Hsame, same_disk_trans; [done|]. eapply read_only_same, Hrun. read_only. }
  assert (same_disk s s3) as S3 by (eapply same_disk_trans; [done|]; eapply read_only_same, H3; read_only).
  clear H1 H2 H3 S1 S2. apply st_bind_cases in Hrun as [(e & Hrun & ->)|([] & s4 & H4 & Hrun)].
  - apply st_map_err_run in Hrun as (x & Hrun & Ex). split; [|done].
    apply ensure_private_dir_run in Hrun as [Hb _]; [|by rewrite (same_disk_tree _ _ S3)].
    destruct S3 as [l ->]. eapply base_mono; [|exact Hb].
    intros q n [? [[_ ?]|[_ ->]]]; split; [done|done|done|by eexists].
  - apply st_map_err_run in H4 as (x & H4 & Ex). destruct x as [[]|]; [|done].
    apply ensure_private_dir_run in H4 as [Hb Hok]; [|by rewrite (same_disk_tree _ _ S3)].
    destruct (read_only_same _ _ _ _ (ro_validate_private_directory _) Hrun) as [l' ->].
    destruct S3 as [l ->]. split; [|intros _; by apply Hok]. eapply base_mono; [|exact Hb].
    intros q n [? [[_ ?]|[_ ->]]]; split; [done|done|done|by eexists].
Qed.

Lemma plain_insert_regular p q m c y t : plain p t → plain p (<[q := Regular m c y]> t).
Proof.
  intros Hp x Hx tgt. rewrite lookup_insert. case_decide; [done|]. by apply Hp.
Qed.

Lemma base_put (p : path) m c y s :
  wf_tree (tree s) → (∃ d x, p = d ++ [x] ∧ is_dir_at (tree s) d) → ¬ is_dir_at (tree s) p →
  base (exactly p) (tree s) (past s) (<[p := Regular m c y]> (tree s)) (tree s :: past s).
Proof.
  intros Hwf (d & x & -> & Hd) Hno. split; [|by apply evolves_insert].
  apply wf_insert; [done| |by right]. destruct (d ++ [x]) as [|z l] eqn:El; [by destruct d|].
  rewrite <- El. by exists d, x.
Qed.

Lemma open_new_run d x mode s s' r :
  wf_tree (tree s) → is_dir_at (tree s) d → open_new (d ++ [x]) mode s = (s', r) →
  (same_disk s s' ∧ ∃ k, r = Err k)
  ∨ (r = Ok (d ++ [x]) ∧ tree s !! (d ++ [x]) = None
     ∧ ∃ m, tree s' = <[d ++ [x] := Regular m [] false]> (tree s) ∧ past s' = tree s :: past s).
Proof.
  intros Hwf Hd [[? [k ->]]|[l Hrun]]%syscall_cases; [left; split; [done|by eexists]|].
  unfold mbind, st_bind in Hrun.
  rewrite locate_eq, set_faults_tree, (resolve_child _ _ _ _ _ Hwf Hd (or_introl eq_refl)) in Hrun.
  cbn in Hrun. destruct (tree s !! (d ++ [x])) as [n|] eqn:En; cbn in Hrun; injection Hrun as <- <-.
  - left. split; [by exists l|by eexists].
  - right. split; [done|]. split; [done|]. by eexists.
Qed.

Lemma set_permissions_run d x mode m c y s s' r :
  wf_tree (tree s) → tree s !! (d ++ [x]) = Some (Regular m c y) →
  set_permissions (d ++ [x]) mode s = (s', r) →
  (same_disk s s' ∧ ∃ k, r = Err k)
  ∨ (r = Ok tt ∧ tree s' = <[d ++ [x] := Regular mode c y]> (tree s) ∧ past s' = tree s :: past s).
Proof.
  intros Hwf Hn [[? [k ->]]|[l Hrun]]%syscall_cases; [left; split; [done|by eexists]|].
  assert (is_dir_at (tree s) d) as Hd by (by eapply wf_parent).
  destruct (regular_not_dir _ _ _ _ _ Hn) as [_ Hl]. unfold mbind, st_bind in Hrun.
  rewrite locate_eq, set_faults_tree, (resolve_child _ _ _ _ _ Hwf Hd (or_intror Hl)), node_at_eq, set_faults_tree, Hn in Hrun.
  cbn in Hrun. injection Hrun as <- <-. by right.
Qed.

Lemma create_private_file_run d x s s' r :
  wf_tree (tree s) → is_dir_at (tree s) d → create_private_file (d ++ [x]) s = (s', r) →
  base (exactly (d ++ [x])) (tree s) (past s) (tree s') (past s')
  ∧ ∀ q, r = Ok q → q = d ++ [x] ∧ plain q (tree s') ∧ tree s' !! q = Some (Regular MODE_PRIVATE_FILE [] false).
Proof.
  intros Hwf Hd. unfold create_private_file.
  assert (∀ s1, same_disk s s1 → base (exactly (d ++ [x])) (tree s) (past s) (tree s1) (past s1)) as Hsame
    by (intros s1 [l ->]; by apply (base_refl (exactly (d ++ [x])) s)).
  intros [(e & Hrun & ->)|([] & s1 & H1 & Hrun)]%st_bind_cases.
  { split; [|done]. by eapply Hsame, read_only_same, Hrun; eauto with ro. }
  pose proof (spool_reject_ok _ _ _ Hwf H1) as Hp.
  apply (read_only_same _ _ _ _ (ro_spool_reject_symlinks _)) in H1 as [l ->].
  apply st_bind_cases in Hrun as [(e & Hrun & ->)|(q & s2 & H2 & Hrun)].
  { apply st_map_err_run in Hrun as (k & Hrun & Ek). split; [|done].
    apply open_new_run in Hrun as [[S _]|(-> & _)]; [by apply Hsame; eapply same_disk_trans; [by exists l|]|done..]. }
  apply st_map_err_run in H2 as (k & H2 & Ek).
  apply open_new_run in H2 as [[_ [? ->]]|(-> & Hnone & m & Ht & Hpast)]; [done| |done..].
  change (tree (set_faults l s)) with (tree s) in *. change (past (set_faults l s)) with (past s) in *.
  injection Ek as ->.
  assert (¬ is_dir_at (tree s) (d ++ [x])) as Hno by (intros [? ?]; cbn in Hnone; congruence).
  assert (base (exactly (d ++ [x])) (tree s) (past s) (tree s2) (past s2)) as Hb.
  { rewrite Ht, Hpast. apply base_put; [done|by exists d, x|done]. }
  assert (tree s2 !! (d ++ [x]) = Some (Regular m [] false)) as Hn2 by (rewrite Ht; by rewrite lookup_insert_eq).
  apply st_bind_cases in Hrun as [(e & Hrun & ->)|([] & s3 & H3 & Hrun)].
  - apply st_map_err_run in Hrun as (k & Hrun & Ek). split; [|done].
    apply (set_permissions_run _ _ _ m [] false) in Hrun as [[[l' ->] _]|(-> & _)]; [done|done|apply Hb|done].
  - injection Hrun as <- <-. apply st_map_err_run in H3 as (k & H3 & Ek).
    apply (set_permissions_run _ _ _ m [] false) in H3 as [[_ [? ->]]|(-> & Ht3 & Hpast3)]; [done| |apply Hb|done].
    split.
    + eapply base_trans; [exact Hb| |done|done]. rewrite Ht3, Hpast3. apply base_put; [apply Hb| |].
      * exists d, x. split; [done|]. eapply dir_stays; [|exact Hd|exact Hb]. intros n E. unfold exactly in E. symmetry in E. by apply neq_child in E.
      * intros [? ?]. congruence.
    + intros q [= <-]. split; [done|]. rewrite Ht3, lookup_insert_eq. split; [|done]. rewrite Ht.
      by apply plain_insert_regular, plain_insert_regular.
Qed.

Lemma wf_overwrite t p m c y m' c' y' :
  wf_tree t → t !! p = Some (Regular m c y) → wf_tree (<[p := Regular m' c' y']> t).
Proof.
  intros Hwf Hn. apply wf_insert; [done| |right; intros [? ?]; congruence].
  destruct p as [|z l]; [destruct (wf_root _ Hwf); congruence|].
  destruct (exists_last (l := z :: l)) as (d & x & Ex); [done|]. rewrite Ex in *.
  exists d, x. split; [done|]. by eapply wf_parent.
Qed.

(** ** The state of a writer *)

Section Writing.
Context `{Sha256, Crypto, !CryptoLaws}.

(** The writer's [.open] file holds exactly what its encoder has written: the segment of
    the [events] so far. *)
Record writing_to (t : tree_t) (wr : SegmentWriter) (salt : array SALT_BYTES)
    (events : list (list byte)) (e : SegmentEncoder) : Prop := mkWriting {
  wt_encoder : encoder wr = Some e;
  wt_encoded : encoded e (spool_key (writer_spool wr)) salt (writer_segment_id wr) (writer_header wr)
    (limit_segment (limits (writer_spool wr))) events;
  wt_path : open_path wr = input_directory (writer_spool wr) (input_key (writer_header wr))
    ++ [segment_file_name (writer_segment_id wr) OPEN_EXTENSION];
  wt_file : file wr = open_path wr;
  wt_plain : plain (open_path wr) t;
  wt_content : ∃ y, t !! open_path wr = Some (Regular MODE_PRIVATE_FILE (written (enc_file e)) y);
  wt_dir : t !! input_directory (writer_spool wr) (input_key (writer_header wr)) = Some (Dir MODE_PRIVATE_DIR);
  wt_flags : reservation_active wr = true ∧ published wr = false;
}.

(** The part of a writer that its methods never change. *)
Definition same_segment (wr wr' : SegmentWriter) : Prop :=
  writer_spool wr' = writer_spool wr ∧ writer_header wr' = writer_header wr
  ∧ writer_segment_id wr' = writer_segment_id wr ∧ open_path wr' = open_path wr.

Lemma store_file_run {E} p c y m bytes synced w :
  tree (disk w) !! p = Some (Regular m c y) →
  store_file (E := E) p bytes synced w
  = (set_disk (set_tree (<[p := Regular m bytes synced]> (tree (disk w))) (disk w)) w, Ok tt).
Proof using Type. unfold store_file. by intros ->. Qed.

Lemma start_segment_ok self header id salt w w' wr :
  let p := input_directory self (input_key header) ++ [segment_file_name id OPEN_EXTENSION] in
  plain p (tree (disk w)) → tree (disk w) !! p = Some (Regular MODE_PRIVATE_FILE [] false) →
  tree (disk w) !! input_directory self (input_key header) = Some (Dir MODE_PRIVATE_DIR) →
  wf_tree (tree (disk w)) → start_segment self header id salt p p w = (w', Ok wr) →
  wf_tree (tree (disk w')) ∧
  writer_spool wr = self ∧ writer_header wr = header ∧ writer_segment_id wr = id
  ∧ accounting w' = accounting w ∧ ∃ e, writing_to (tree (disk w')) wr salt [] e.
Proof using All.
  intros p Hp Hn Hdir Hwf. unfold start_segment. intros (schedule & w1 & Hnext & Hrun)%st_bind_ok.
  assert (disk w1 = disk w ∧ accounting w1 = accounting w) as [Ed Ea]
    by (unfold next_writes in Hnext; destruct (writes w); by injection Hnext as <- _).
  destruct (start _ _ _ _ _ _) as [f [e|err]] eqn:Es.
  - rewrite <- Ed in Hn. rewrite (st_bind_run _ _ _ _ _ (store_file_run _ _ _ _ _ _ _ Hn)) in Hrun.
    injection Hrun as <- <-. destruct (start_encoded _ _ _ _ _ _ _ _ Es) as [He ->].
    split; [rewrite Ed in *; by eapply wf_overwrite|].
    do 3 (split; [done|]). split; [by rewrite <- Ea|]. exists e. split; try done; cbn [open_path set_disk disk tree set_tree].
    + rewrite Ed. by apply plain_insert_regular.
    + exists true. by rewrite lookup_insert_eq.
    + rewrite Ed, lookup_insert_ne; [done|]. intros E. by apply neq_child in E.
  - apply st_bind_ok in Hrun as (? & ? & _ & Hrun). by apply st_bind_ok in Hrun as (? & ? & _ & ?).
Qed.

Lemma random_fill_disk n err w w' x : random_fill n err w = (w', x) → disk w' = disk w ∧ accounting w' = accounting w.
Proof using Type. unfold random_fill. destruct (randoms w) as [|[b|] l]; by intros [= <- _]. Qed.

(** The new [.open] files of one input. *)
Definition open_files (d : path) (q : path) (_ : option node) : Prop :=
  ∃ id, q = d ++ [segment_file_name id OPEN_EXTENSION].

Lemma open_files_not_dir d n : ¬ open_files d d n.
Proof using Type. intros [id E]. symmetry in E. by apply neq_child in E. Qed.

Lemma allocate_segment_ok attempts self header w w' wr :
  let d := input_directory self (input_key header) in
  wf_tree (tree (disk w)) → tree (disk w) !! d = Some (Dir MODE_PRIVATE_DIR) →
  allocate_segment attempts self header d w = (w', Ok wr) →
  wf_tree (tree (disk w')) ∧ writer_spool wr = self ∧ writer_header wr = header
  ∧ accounting w' = accounting w ∧ ∃ salt e, writing_to (tree (disk w')) wr salt [] e.
Proof using All.
  cbn zeta. revert w. induction attempts as [|n IH]; intros w Hwf Hd; cbn [allocate_segment]; [done|].
  intros (id & w1 & [E1 A1]%random_fill_disk & Hrun)%st_bind_ok.
  apply st_bind_ok in Hrun as (salt & w2 & [E2 A2]%random_fill_disk & Hrun).
  apply st_bind_ok in Hrun as (x & w3 & H3 & Hrun).
  unfold try_call in H3. destruct (on_disk _ w2) as [w3' x'] eqn:H3'. injection H3 as -> ->.
  apply on_disk_run in H3' as (d3 & Hcreate & ->). apply create_private_file_run in Hcreate as [Hb Hok];
    [|by rewrite E2, E1|rewrite E2, E1; by eexists].
  rewrite E2, E1 in Hb.
  assert (tree d3 !! input_directory self (input_key header) = Some (Dir MODE_PRIVATE_DIR)) as Hd3.
  { destruct (ev_tree _ _ _ _ _ (proj2 Hb) (input_directory self (input_key header))) as [E|E]; [by rewrite E|].
    unfold exactly in E. symmetry in E. by apply neq_child in E. }
  destruct x as [q|err].
  - destruct (Hok q eq_refl) as (-> & Hp & Hn). apply start_segment_ok in Hrun as (? & ? & ? & ? & Ha & e & He);
      [|done|done|done|apply Hb].
    do 3 (split; [done|]). split; [|by exists salt, e]. rewrite Ha. cbn. by rewrite A2, A1.
  - case_decide; [|done]. destruct (IH (set_disk d3 w2)) as (? & ? & ? & Ha & ?); [apply Hb|done|done|].
    do 3 (split; [done|]). split; [|done]. rewrite Ha. cbn. by rewrite A2, A1.
Qed.

Lemma begin_segment_ok self header w w' wr :
  wf_tree (tree (disk w)) → begin_segment self header w = (w', Ok wr) →
  wf_tree (tree (disk w')) ∧ writer_spool wr = self ∧ writer_header wr = header
  ∧ reserve (limits self) (input_key header) (accounting w) = (accounting w', Ok tt)
  ∧ ∃ salt e, writing_to (tree (disk w')) wr salt [] e.
Proof using All.
  intros Hwf. unfold begin_segment. intros ([] & w1 & Hres & Hrun)%st_bind_ok.
  unfold on_accounting in Hres. destruct (reserve _ _ _) as [a x] eqn:Er. injection Hres as <- ->.
  apply st_bind_ok in Hrun as (r & w2 & Htry & Hrun). unfold try_call in Htry.
  destruct (begin_reserved_segment _ _ _) as [w2' r'] eqn:Eb. injection Htry as -> ->.
  destruct r as [wr'|e]; [|by apply st_bind_ok in Hrun as (? & ? & _ & ?)]. injection Hrun as <- <-.
  unfold begin_reserved_segment in Eb. apply st_bind_ok in Eb as ([] & w3 & Hens & Hall).
  apply on_disk_run in Hens as (d & Hens & ->).
  apply ensure_private_directory_run in Hens as [[Hwf' _] Hok]; [|done]. destruct (Hok eq_refl) as [_ Hd].
  apply allocate_segment_ok in Hall as (? & ? & ? & Ha & ?); [|done|done].
  do 3 (split; [done|]). by split; [rewrite Ha|].
Qed.

Lemma writing_wf t wr salt events e c y :
  wf_tree t → writing_to t wr salt events e → wf_tree (<[open_path wr := Regular MODE_PRIVATE_FILE c y]> t).
Proof using Type. intros Hwf Hw. destruct (wt_content _ _ _ _ _ Hw) as [y' Hc]. by eapply wf_overwrite. Qed.

(** ** Appending *)

Lemma append_event_ok' ev w wr salt events e w' wr' :
  writing_to (tree (disk w)) wr salt events e →
  SegmentWriter_append_event ev (w, wr) = ((w', wr'), Ok tt) →
  same_segment wr wr' ∧ accounting w' = accounting w
  ∧ (∃ c y, tree (disk w') = <[open_path wr := Regular MODE_PRIVATE_FILE c y]> (tree (disk w)))
  ∧ ∃ e', append_event ev e = (e', Ok tt) ∧ writing_to (tree (disk w')) wr' salt (events ++ [ev]) e'.
Proof using All.
  intros [He Hen Hpath Hfile Hplain (y & Hc) Hdir Hfl] Hrun.
  unfold SegmentWriter_append_event in Hrun. rewrite st_get_run in Hrun. cbn [snd] in Hrun.
  rewrite He in Hrun. cbn [ok_or] in Hrun. rewrite (st_lift_run _ _ _ _ eq_refl) in Hrun.
  destruct (append_event ev e) as [e' r] eqn:Ea.
  apply st_bind_ok in Hrun as ([] & [w1 wr1] & Hstore & Hrun).
  apply st_bind_ok in Hrun as ([] & s2 & Hmod & [Es ->]%st_lift_ok).
  injection Hmod as <-. injection Es as -> ->.
  pose proof (append_encoded _ _ _ _ _ _ _ _ _ Hen Ea) as Hen'.
  assert (∃ y' w2, w1 = w2 ∧ wr1 = wr ∧ accounting w2 = accounting w
    ∧ tree (disk w2) = <[open_path wr := Regular MODE_PRIVATE_FILE (written (enc_file e')) y']> (tree (disk w))) as
    (y' & w2 & -> & -> & Hacc & Htree).
  { case_decide as Hsame.
    - injection Hstore as -> ->. exists y, w1. do 3 (split; [done|]). rewrite Hsame. by rewrite insert_id.
    - unfold in_world in Hstore. cbn [fst snd] in Hstore. rewrite Hfile, (store_file_run _ _ _ _ _ _ _ Hc) in Hstore.
      injection Hstore as <- <-. by exists false, (set_disk (set_tree (<[open_path wr := Regular MODE_PRIVATE_FILE
        (written (enc_file e')) false]> (tree (disk w))) (disk w)) w). }
  split; [done|]. split; [done|]. split; [by eexists _, _|]. exists e'. split; [done|]. split; try done.
  - rewrite Htree. by apply plain_insert_regular.
  - exists y'. cbn [open_path set_encoder]. by rewrite Htree, lookup_insert_eq.
  - rewrite Htree, lookup_insert_ne; [done|]. rewrite Hpath. intros E. by apply neq_child in E.
Qed.

(** ** Sealing *)

Lemma in_world_ok {A} (m : spool A) w wr s' a :
  in_world m (w, wr) = (s', Ok a) ↔ ∃ w', m w = (w', Ok a) ∧ s' = (w', wr).
Proof using Type. unfold in_world. cbn. destruct (m w) as [w1 r]. naive_solver. Qed.

Definition ready_of (wr : SegmentWriter) : path := with_extension (open_path wr) READY_EXTENSION.

Lemma writing_paths t wr salt events e :
  writing_to t wr salt events e →
  let d := input_directory (writer_spool wr) (input_key (writer_header wr)) in
  ready_of wr = d ++ [segment_file_name (writer_segment_id wr) READY_EXTENSION]
  ∧ open_path wr ≠ ready_of wr ∧ parent (ready_of wr) = Some d ∧ parent (open_path wr) = Some d.
Proof using Type.
  intros Hw d. assert (ready_of wr = d ++ [segment_file_name (writer_segment_id wr) READY_EXTENSION]) as E
    by (unfold ready_of; rewrite (wt_path _ _ _ _ _ Hw); apply with_extension_segment, no_dot_lifecycle).
  split; [done|]. rewrite E. rewrite (wt_path _ _ _ _ _ Hw). split; [|split; apply parent_snoc].
  intros Ex. apply app_inj_2 in Ex as [_ [= Ex%segment_file_name_inj]]; [|done]. by apply no_dot_lifecycle in Ex.
Qed.

(** The rename, the accounting and the synchronisation of a seal. *)
Lemma seal_publish w wr0 wr w' ready d id bytes y (header : SegmentHeader) m summary byte_len :
  wf_tree (tree (disk w)) →
  let p := d ++ [segment_file_name id OPEN_EXTENSION] in
  let q := d ++ [segment_file_name id READY_EXTENSION] in
  tree (disk w) !! p = Some (Regular MODE_PRIVATE_FILE bytes y) →
  (_ ← in_world (disk_call "DBX-RS-SPOOL-LIFECYCLE-0006" "segment_seal" (rename_file p q));
   _ ← modify_writer (set_published true);
   r ← try_call (in_world (on_accounting
         (publish_reservation (limits (writer_spool wr)) (input_key (writer_header wr)) byte_len)));
   _ ← modify_writer (set_reservation_active false);
   _ ← st_lift r;
   dir ← st_lift (ok_or invalid_path (parent q));
   _ ← in_world (on_disk (sync_directory dir "segment_seal"));
   mret (mkReady q (writer_header wr) (writer_segment_id wr) summary FORMAT_VERSION m byte_len)) (w, wr0) = (w', Ok ready) →
  w'.2 = set_reservation_active false (set_published true wr0)
  ∧ publish_reservation (limits (writer_spool wr)) (input_key (writer_header wr)) byte_len (accounting w)
    = (accounting w'.1, Ok tt)
  ∧ renamed p q (Regular MODE_PRIVATE_FILE bytes y) (tree (disk w)) (tree (disk w'.1))
  ∧ entries_durable [p; q] (disk w'.1) ∧ wf_tree (tree (disk w'.1))
  ∧ ready = mkReady q (writer_header wr) (writer_segment_id wr) summary FORMAT_VERSION m byte_len.
Proof using Type.
  intros Hwf p q Hp (? & s1 & (w1 & Hren & ->)%in_world_ok & Hrun)%st_bind_ok.
  assert (segment_file_name id OPEN_EXTENSION ≠ segment_file_name id READY_EXTENSION) as Hx
    by (intros Ex%segment_file_name_inj; by apply no_dot_lifecycle in Ex).
  apply (disk_rename_run _ _ _ _ _ _ _ _ _ _ _ Hwf Hp Hx) in Hren as [[_ [? ?]]|(_ & Hd & Hwf1 & Ht & Hch)]; [done|].
  apply st_bind_ok in Hrun as (? & s2 & Hm & Hrun). injection Hm as <-. cbn [fst snd] in Hrun.
  apply st_bind_ok in Hrun as (r & s3 & Hpub & Hrun). unfold try_call, in_world in Hpub. cbn [fst snd] in Hpub.
  unfold on_accounting in Hpub. destruct (publish_reservation _ _ _ (accounting w1)) as [a pr] eqn:Epub.
  injection Hpub as <- <-. apply st_bind_ok in Hrun as (? & s4 & Hm & Hrun). injection Hm as <-. cbn [fst snd] in Hrun.
  apply st_bind_ok in Hrun as ([] & s5 & [-> ->]%st_lift_ok & Hrun).
  unfold q in Hrun. rewrite parent_snoc in Hrun. cbn [ok_or] in Hrun. rewrite (st_lift_run _ _ _ _ eq_refl) in Hrun.
  apply st_bind_ok in Hrun as ([] & s6 & (w2 & Hsync & ->)%in_world_ok & Hrun). injection Hrun as <- <-.
  eapply (disk_sync_run _ _ [p; q] (disk w)) in Hsync as (Hd' & Et & Hch' & Hdur); [|exact Hwf1| |exact Hch].
  - cbn [fst snd]. rewrite (disk_only_accounting _ _ Hd'), Et. cbn [accounting disk].
    rewrite <- (disk_only_accounting _ _ Hd). repeat (split; [done|]). split; [by apply Hdur|done].
  - intros z Hz. rewrite !elem_of_cons, elem_of_nil in Hz. destruct Hz as [->|[->|[]]]; apply parent_snoc.
Qed.

Lemma drop_published w wr : published wr = true → reservation_active wr = false → drop_writer wr w = (w, Ok tt).
Proof using Type. unfold drop_writer. by intros -> ->. Qed.

(** What a successful seal leaves: the ready file, in every version, with exactly the
    encoded segment, and the reservation turned into its length. *)
Record sealed (w w' : world) (wr : SegmentWriter) (m : RecoveryMetadata) (e : SegmentEncoder)
    (ready : ReadySegment) (e' : SegmentEncoder) (summary : SegmentSummary) (len : N) : Prop := mkSealed {
  sl_finish : finish m e = (e', Ok (summary, len));
  sl_ready : ready = mkReady (ready_of wr) (writer_header wr) (writer_segment_id wr) summary FORMAT_VERSION m len;
  sl_accounting : publish_reservation (limits (writer_spool wr)) (input_key (writer_header wr)) len (accounting w)
    = (accounting w', Ok tt);
  sl_changed : ∃ s1, tree s1 = <[open_path wr := Regular MODE_PRIVATE_FILE (written (enc_file e')) true]> (tree (disk w))
    ∧ renamed (open_path wr) (ready_of wr) (Regular MODE_PRIVATE_FILE (written (enc_file e')) true)
        (tree s1) (tree (disk w'));
  sl_durable : entries_durable [open_path wr; ready_of wr] (disk w');
  sl_wf : wf_tree (tree (disk w'));
}.

Lemma seal_ok w wr salt events e m w' ready :
  wf_tree (tree (disk w)) → writing_to (tree (disk w)) wr salt events e →
  seal_with_recovery_metadata wr m w = (w', Ok ready) →
  ∃ e' summary len, sealed w w' wr m e ready e' summary len.
Proof using All.
  intros Hwf Hw. pose proof (writing_paths _ _ _ _ _ Hw) as (Eq & Hne & _).
  unfold seal_with_recovery_metadata, consuming.
  destruct (seal_body m (w, wr)) as [[w1 wr1] [x|x]] eqn:Hrun; [|by destruct (drop_writer wr1 w1)].
  pose proof Hw as [He Hen Hpath Hfile Hplain (y & Hc) Hdir [Hres Hpub]].
  unfold seal_body in Hrun. rewrite st_get_run in Hrun. cbn [snd] in Hrun.
  rewrite He in Hrun. cbn [ok_or] in Hrun. rewrite (st_lift_run _ _ _ _ eq_refl) in Hrun.
  apply st_bind_ok in Hrun as (? & s1 & Hm & Hrun). injection Hm as <-. cbn [fst snd] in Hrun.
  destruct (finish m e) as [e' finished] eqn:Ef.
  apply st_bind_ok in Hrun as (? & s2 & (w2 & Hst & ->)%in_world_ok & Hrun).
  rewrite Hfile, (store_file_run _ _ _ _ _ _ _ Hc) in Hst. injection Hst as Ew2.
  apply st_bind_ok in Hrun as ([summary len] & s3 & [-> ->]%st_lift_ok & Hrun).
  apply st_bind_ok in Hrun as (present & s4 & (w4 & Hex & ->)%in_world_ok & Hrun). cbn zeta in Hrun.
  pose proof (looking_run _ _ _ _ (looking_disk _ (ro_path_exists _)) Hex) as G.
  case_decide as Hpresent; [done|]. fold (ready_of wr) in Hrun.
  assert (tree (disk w4) = <[open_path wr := Regular MODE_PRIVATE_FILE (written (enc_file e')) true]> (tree (disk w))) as Et
    by (rewrite (glanced_tree _ _ G), <- Ew2; done).
  assert (wf_tree (tree (disk w4))) as Hwf4.
  { rewrite Et. by eapply writing_wf. }
  rewrite Eq, Hpath in Hrun.
  apply (seal_publish _ _ wr _ _ _ _ (written (enc_file e')) true (writer_header wr)) in Hrun as
    (Hwr1 & Hpubl & Ht & Hdur & Hwf1 & ->); [|done|rewrite Et, <- Hpath; by rewrite lookup_insert_eq].
  cbn [fst snd] in *. rewrite drop_published by (by rewrite Hwr1). intros [= <- <-].
  assert (accounting w4 = accounting w) as Ha by (rewrite (glanced_accounting _ _ G), <- Ew2; done).
  rewrite Ha in Hpubl.
  exists e', summary, len. split; rewrite ?Eq, ?Hpath; try done. exists (disk w4).
  split; [by rewrite Et, Hpath|done].
Qed.
End Writing.
