(* ===== verification/SpoolSegmentLife.v ===== *)
(** * The life of a segment

    A segment begun, filled and sealed is published durably with exactly its events, is
    charged exactly, validates, and can be delivered. *)

From S2P Require Export SpoolWriting.

Local Open Scope N_scope.

(** ** Runs without failures *)

(** Neither the calls nor the reads of files fail. *)
Definition calm_world (w : world) : Prop := quiet (disk w) ∧ reads w = [].

Section Life.
Context `{Sha256, Crypto, !CryptoLaws}.

Lemma quiet_spool_reject p n s :
  quiet s → wf_tree (tree s) → plain p (tree s) → tree s !! p = Some n →
  spool_reject_ancestor_symlinks p s = (s, Ok tt).
Proof using Type.
  intros Hq Hwf Hp Hn. pose proof (quiet_reject p n s Hq Hwf Hp Hn) as Hr.
  destruct (spool_reject_same (ancestors p) s) as [E1 E2].
  change (reject_symlinks (ancestors p) s) with (reject_existing_ancestor_symlinks p s) in E1, E2.
  rewrite Hr in E1, E2. unfold spool_reject_ancestor_symlinks.
  destruct (spool_reject_symlinks (ancestors p) s) as [s1 [[]|e]]; cbn in E1, E2; [by subst|done].
Qed.

Lemma plain_above d x t : plain (d ++ [x]) t → plain d t.
Proof using Type. intros Hp q Hq. apply Hp. by apply prefix_app_r. Qed.

Lemma quiet_private_directory p s :
  quiet s → wf_tree (tree s) → private_directory (tree s) p → validate_private_directory p s = (s, Ok tt).
Proof using Type.
  intros Hq Hwf [Hp (m & Hd & Hm)]. unfold validate_private_directory.
  rewrite (st_bind_run _ _ _ _ _ (quiet_spool_reject _ _ _ Hq Hwf Hp Hd)).
  unfold mbind, st_bind, st_map_err. rewrite (quiet_found _ _ _ Hq Hwf Hd). cbn [map_err is_symlink is_dir].
  rewrite decide_False by (intros [?|?]; done). unfold st_lift, validate_directory_mode.
  by rewrite decide_False by (cbn; lia).
Qed.

Lemma quiet_input_directory d key s :
  quiet s → wf_tree (tree s) → private_directory (tree s) (d ++ [encode_hex (vec_to_list key)]) →
  validate_input_directory (d ++ [encode_hex (vec_to_list key)]) s = (s, Ok key).
Proof using Type.
  intros Hq Hwf Hd. unfold validate_input_directory.
  rewrite (st_bind_run _ _ _ _ _ (quiet_private_directory _ _ Hq Hwf Hd)). rewrite file_name_app, some_bind.
  assert (to_str (encode_hex (vec_to_list key)) = Some (encode_hex (vec_to_list key))) as ->
    by (apply to_str_some; split; [done|apply hex_ascii]).
  cbn [ok_or]. rewrite (st_lift_run _ _ _ _ eq_refl). by rewrite decode_encode_hex.
Qed.

Lemma quiet_open_private p c s :
  quiet s → wf_tree (tree s) → private_regular (tree s) p c → open_private_file p s = (s, Ok p).
Proof using Type.
  intros Hq Hwf [Hp (m & y & Hn & Hm)]. unfold open_private_file, validate_private_file.
  assert (validate_private_file p s = (s, Ok (Regular m c y))) as Hval.
  { unfold validate_private_file. rewrite (st_bind_run _ _ _ _ _ (quiet_spool_reject _ _ _ Hq Hwf Hp Hn)).
    unfold mbind at 1, st_bind at 1, st_map_err. rewrite (quiet_found _ _ _ Hq Hwf Hn). cbn [map_err is_symlink is_file].
    rewrite decide_False by (intros [?|?]; done). unfold validate_file_mode.
    by rewrite decide_False by (cbn; lia). }
  fold (validate_private_file p). rewrite (st_bind_run _ _ _ _ _ Hval).
  unfold st_map_err, open_existing. rewrite quiet_syscall by done. unfold mbind, st_bind.
  destruct (regular_not_dir _ _ _ _ _ Hn) as [_ Hl].
  assert (resolve MAX_LINKS (tree s) true p = Ok p) as Hr.
  { destruct p as [|z l]; [destruct (wf_root _ Hwf); congruence|].
    destruct (exists_last (l := z :: l)) as (d & x & Ex); [done|]. rewrite Ex in *.
    apply resolve_child; [done| |by right]. by eapply wf_parent. }
  rewrite locate_eq, Hr, node_at_eq, Hn. done.
Qed.

Lemma quiet_owned_path self p key id ext s :
  quiet s → wf_tree (tree s) → owned self p key id ext → private_directory (tree s) (input_directory self key) →
  validate_owned_path self p ext s = (s, Ok tt).
Proof using Type.
  intros Hq Hwf Hown Hd. pose proof Hown as (_ & Hdot & Hu). destruct (owned_split _ _ _ _ _ Hown) as [-> _].
  unfold validate_owned_path. rewrite parent_snoc. cbn [ok_or]. rewrite (st_lift_run _ _ _ _ eq_refl).
  assert (parent (input_directory self key) = Some (segments self)) as Hpar by apply parent_snoc.
  cbn beta. rewrite Hpar. cbn [ok_or]. rewrite (st_lift_run _ _ _ _ eq_refl). cbn beta.
  rewrite file_name_app, some_bind.
  assert (extension (segment_file_name id ext) = Some ext) as Ee.
  { unfold extension, segment_file_name. destruct (encode_hex_cons id) as (b & l & Hid).
    assert (last_dot (encode_hex (vec_to_list id) ++ DOT :: ext) = Some (b :: l, ext)) as ->
      by (rewrite <- Hid; by apply last_dot_some). done. }
  assert (to_str ext = Some ext) as Es by (by apply to_str_some).
  rewrite Ee, some_bind, Es. rewrite decide_False by (intros [?|?]; done).
  rewrite (st_bind_run _ _ _ _ _ (quiet_input_directory _ _ _ Hq Hwf Hd)).
  assert (parse_segment_name (input_directory self key ++ [segment_file_name id ext]) = Ok (id, ext)) as ->
    by (apply parse_segment_name_ok; by eexists).
  rewrite (st_lift_run _ _ _ _ eq_refl). rewrite decide_False by (intros [?|?]; done). done.
Qed.

Lemma calm_disk {A} (m : st fs SpoolError A) w a :
  calm_world w → (quiet (disk w) → m (disk w) = (disk w, Ok a)) → on_disk m w = (w, Ok a).
Proof using Type. intros [Hq _] Hm. unfold on_disk. rewrite (Hm Hq). by destruct w. Qed.

Lemma quiet_file_metadata p n s : quiet s → tree s !! p = Some n → file_metadata p s = (s, Ok n).
Proof using Type. intros Hq Hn. unfold file_metadata. rewrite quiet_syscall, node_at_eq, Hn by done. done. Qed.

Lemma calm_open_decoder p key limit c d w :
  calm_world w → private_regular (tree (disk w)) p c →
  decoder_open (Ok (true, lengthN c)) key limit (mkSource c []) = Ok d → open_decoder p key limit w = (w, Ok d).
Proof using Type.
  intros Hcalm Hreg Hd. pose proof Hreg as [_ (m & y & Hn & _)].
  unfold open_decoder. unfold mbind at 1, st_bind at 1, try_call, on_disk.
  rewrite (quiet_file_metadata _ _ _ (proj1 Hcalm) Hn).
  assert (set_disk (disk w) w = w) as -> by (by destruct w).
  assert (next_reads w = (w, Ok [])) as Hr by (unfold next_reads; by rewrite (proj2 Hcalm)).
  rewrite (st_bind_run _ _ _ _ _ Hr), st_get_run. unfold st_lift. rewrite (regular_content _ _ _ Hreg).
  cbn [is_file node_len]. by rewrite Hd.
Qed.

(** A complete segment in a private file is inspected without error, and as itself. *)
Lemma calm_inspect p key limit c i d d' events w :
  calm_world w → wf_tree (tree (disk w)) → private_regular (tree (disk w)) p c →
  decoder_open (Ok (true, lengthN c)) key limit (mkSource c []) = Ok d →
  drain (S (length c)) d = (d', Ok (Some events)) →
  dec_summary d' = Some (inspected_summary i) → dec_recovery_metadata d' = Some (inspected_recovery_metadata i) →
  dec_header d' = inspected_header i → dec_segment_id d' = inspected_segment_id i →
  dec_version d' = inspected_format_version i → inspected_byte_len i = lengthN c →
  inspect_segment p key limit w = (w, Ok i).
Proof using Type.
  intros Hcalm Hwf Hreg Hd Hdrain Hs Hm Hh Hid Hv Hlen. pose proof Hreg as [_ (m & y & Hn & _)].
  unfold inspect_segment.
  rewrite (st_bind_run _ _ _ _ _ (calm_disk _ _ _ Hcalm (λ Hq, quiet_open_private _ _ _ Hq Hwf Hreg))).
  assert (disk_call "DBX-RS-SPOOL-PATH-0001" "file_inspect" (file_metadata p) w = (w, Ok (Regular m c y))) as Hmeta.
  { unfold disk_call, st_map_err, on_disk. rewrite (quiet_file_metadata _ _ _ (proj1 Hcalm) Hn). by destruct w. }
  rewrite (st_bind_run _ _ _ _ _ Hmeta).
  pose proof (calm_open_decoder _ _ _ _ _ _ Hcalm Hreg Hd) as Hopen.
  rewrite (st_bind_run _ _ _ _ _ Hopen). unfold inspect_rest. cbn [node_len]. unfold lengthN. rewrite Nat2N.id, Hdrain.
  rewrite Hs, Hm. cbn [ok_or]. rewrite !ok_bind. unfold st_lift. destruct i as [ih ii isum iv im il].
  cbn in *. rewrite Hh, Hid, Hv, Hlen. done.
Qed.

(** ** From the first reservation to the delivery *)

Fixpoint append_events (events : list (list byte)) : st (world * SegmentWriter) SpoolError () :=
  match events with
  | [] => mret tt
  | event :: events => _ ← SegmentWriter_append_event event; append_events events
  end.

Lemma append_events_ok events w wr salt done_events e w' wr' :
  wf_tree (tree (disk w)) → writing_to (tree (disk w)) wr salt done_events e →
  append_events events (w, wr) = ((w', wr'), Ok tt) →
  wf_tree (tree (disk w')) ∧ same_segment wr wr' ∧ accounting w' = accounting w
  ∧ ∃ e', writing_to (tree (disk w')) wr' salt (done_events ++ events) e'.
Proof using All.
  revert w wr done_events e. induction events as [|ev events IH]; intros w wr done_events e Hwf Hw; cbn [append_events].
  - intros [= <- <-]. split; [done|]. split; [done|]. split; [done|]. exists e. by rewrite app_nil_r.
  - intros ([] & [w1 wr1] & Hev & Hrun)%st_bind_ok.
    destruct (append_event_ok' _ _ _ _ _ _ _ _ Hw Hev) as ((E1 & E2 & E3 & E4) & Ha & (c & y & Ht) & e1 & _ & Hw1).
    destruct (IH _ _ _ _ (eq_ind_r _ (writing_wf _ _ _ _ _ _ _ Hwf Hw) Ht) Hw1 Hrun)
      as (Hwf' & (F1 & F2 & F3 & F4) & Ha' & e' & Hw').
    split; [done|]. split; [by split_and!; etrans|]. split; [by etrans|]. exists e'. by rewrite <- app_assoc in Hw'.
Qed.

(** The inspection of a handle's own segment. *)
Definition inspected_of (s : ReadySegment) : InspectedSegment :=
  mkInspected (ready_header s) (ready_segment_id s) (ready_summary s) (ready_format_version s)
    (ready_recovery_metadata s) (ready_byte_len s).

(** The ready file of a sealed segment: in every version, private, and decodable under
    every read schedule without failures to exactly the events. *)
Record published_segment (self : Spool) (w : world) (ready : ReadySegment) (events : list (list byte)) : Prop :=
  mkPublished {
    pb_owned : owned self (ready_path ready) (input_key (ready_header ready)) (ready_segment_id ready) READY_EXTENSION;
    pb_dir : private_directory (tree (disk w)) (input_directory self (input_key (ready_header ready)));
    pb_plain : plain (ready_path ready) (tree (disk w));
    pb_content : ∃ c, (∀ v, v ∈ versions (disk w) → v !! ready_path ready = Some (Regular MODE_PRIVATE_FILE c true))
      ∧ ∃ d d', decoder_open (Ok (true, lengthN c)) (spool_key self) (limit_segment (limits self)) (mkSource c []) = Ok d
          ∧ drain (S (length c)) d = (d', Ok (Some events))
          ∧ dec_summary d' = Some (ready_summary ready)
          ∧ dec_recovery_metadata d' = Some (ready_recovery_metadata ready)
          ∧ dec_header d' = ready_header ready ∧ dec_segment_id d' = ready_segment_id ready
          ∧ dec_version d' = ready_format_version ready ∧ ready_byte_len ready = lengthN c;
  }.

Lemma sealed_published w w' wr salt events e m ready e' summary len :
  wf_tree (tree (disk w)) → writing_to (tree (disk w)) wr salt events e →
  header_wf (writer_header wr) → metadata_wf m → in_u64 (limit_segment (limits (writer_spool wr))) →
  sealed w w' wr m e ready e' summary len → published_segment (writer_spool wr) w' ready events.
Proof using All.
  intros Hwf Hw Hh Hm Hlim [Hfin -> _ (s1 & Ht1 & Ht) Hdur _].
  destruct (writing_paths _ _ _ _ _ Hw) as (Eq & Hne & _). pose proof Hw as [_ Hen Hpath _ Hplain _ Hdir _].
  destruct (finished_decodes _ _ _ _ _ _ _ _ _ _ _ [] Hen Hfin Hh Hm Hlim (Forall_nil_2 _)) as
    (-> & _ & d & d' & Hd & Hdrain & Hid & Hhd & Hmd & Hsd & Hvd).
  destruct (renamed_lookup _ _ _ _ _ Hne Ht) as (_ & Hq & Hother).
  set (dir := input_directory (writer_spool wr) (input_key (writer_header wr))) in *.
  assert (tree (disk w') !! dir = Some (Dir MODE_PRIVATE_DIR)) as Hdir'.
  { rewrite Hother, Ht1, lookup_insert_ne; [done|rewrite Hpath; intros E; by apply neq_child in E|].
    rewrite Eq, Hpath, !elem_of_cons, elem_of_nil. intros [E|[E|[]]]; symmetry in E; by apply neq_child in E. }
  assert (plain dir (tree (disk w'))) as Hpd.
  { intros x Hx. pose proof (prefix_length _ _ Hx) as Hlx.
    rewrite Hpath in Hplain. specialize (Hplain x (prefix_app_r _ _ _ Hx)). intros tgt.
    assert (∀ b, x ≠ dir ++ [b]) as Hnx by (intros b ->; rewrite length_app in Hlx; cbn in Hlx; lia).
    rewrite Hother, Ht1, lookup_insert_ne; [apply Hplain|rewrite Hpath; intros E; symmetry in E; by apply Hnx in E|].
    rewrite Eq, Hpath, !elem_of_cons, elem_of_nil. intros [E|[E|[]]]; by apply Hnx in E. }
  split; cbn [ready_path ready_header ready_segment_id].
  - rewrite Eq. split; [|split; [apply no_dot_lifecycle|by vm_compute]].
    unfold dir, input_directory, FileSystem.join. by rewrite <- app_assoc.
  - split; [done|]. exists MODE_PRIVATE_DIR. split; [done|by vm_compute].
  - rewrite Eq in Hq. rewrite Eq. intros x Hx tgt. apply prefix_snoc_cases in Hx as [->|Hx]; [congruence|by apply Hpd].
  - exists (written (enc_file e')). split; [|by exists d, d'].
    intros v Hv. rewrite (Hdur v _ Hv) by (right; left). done.
Qed.

Lemma life_published self h w0 w1 wr events w2 wr2 m w3 ready :
  wf_tree (tree (disk w0)) → begin_segment self h w0 = (w1, Ok wr) →
  append_events events (w1, wr) = ((w2, wr2), Ok tt) →
  seal_with_recovery_metadata wr2 m w2 = (w3, Ok ready) →
  header_wf h → metadata_wf m → limits_wf (limits self) → in_u64 (limit_global (limits self)) →
  published_segment self w3 ready events.
Proof using All.
  intros Hwf Hbegin Happ Hseal Hh Hm Hlw Hglob.
  destruct (begin_segment_ok _ _ _ _ _ Hwf Hbegin) as (Hwf1 & Es & Eh & Hres & salt & e & Hw).
  destruct (append_events_ok _ _ _ _ _ _ _ _ Hwf1 Hw Happ) as (Hwf2 & (F1 & F2 & F3 & F4) & Ha & e' & Hw2).
  destruct (seal_ok _ _ _ _ _ _ _ _ Hwf2 Hw2 Hseal) as (e2 & summary & len & Hs).
  rewrite <- Eh, <- F2 in Hh. rewrite <- Es, <- F1.
  apply (sealed_published _ _ _ _ _ _ _ _ _ _ _ Hwf2 Hw2 Hh Hm) with (2 := Hs).
  rewrite F1, Es. destruct Hlw. unfold in_u64 in *. lia.
Qed.

Lemma life_identity self h w0 w1 wr events w2 wr2 m w3 ready :
  wf_tree (tree (disk w0)) → begin_segment self h w0 = (w1, Ok wr) →
  append_events events (w1, wr) = ((w2, wr2), Ok tt) →
  seal_with_recovery_metadata wr2 m w2 = (w3, Ok ready) →
  ready_header ready = h ∧ ready_recovery_metadata ready = m.
Proof using All.
  intros Hwf Hbegin Happ Hseal.
  destruct (begin_segment_ok _ _ _ _ _ Hwf Hbegin) as (Hwf1 & Es & Eh & Hres & salt & e & Hw).
  destruct (append_events_ok _ _ _ _ _ _ _ _ Hwf1 Hw Happ) as (Hwf2 & (F1 & F2 & F3 & F4) & Ha & e' & Hw2).
  destruct (seal_ok _ _ _ _ _ _ _ _ Hwf2 Hw2 Hseal) as (e2 & summary & len & [_ -> _ _ _ _]).
  cbn [ready_header ready_recovery_metadata]. by rewrite F2, Eh.
Qed.


(** ** Reading and delivering what was published *)

(** Collecting a reader's events, as a client's [for] loop does. *)
Fixpoint read_events (calls : nat) (r : SegmentReader) : option (result SpoolError (list (list byte))) :=
  match calls with
  | O => None
  | S calls =>
      match SegmentReader_next r with
      | (_, None) => Some (Ok [])
      | (r, Some (Ok event)) => result_fmap _ _ _ (cons event) <$> read_events calls r
      | (_, Some (Err e)) => Some (Err e)
      end
  end.

Lemma drain_read_events calls d d' events summary m :
  drain calls d = (d', Ok (Some events)) → dec_summary d' = Some summary → dec_recovery_metadata d' = Some m →
  read_events calls (mkReader d summary m false) = Some (Ok events).
Proof using Type.
  revert d events. induction calls as [|n IH]; intros d events; cbn [drain read_events]; [done|].
  unfold mbind, st_bind, SegmentReader_next. cbn [terminal_error reader_decoder].
  destruct (next_event d) as [d1 [[[ev|]|]|e]]; cbn; try done.
  - destruct (drain n d1) as [d2 [[l|]|]] eqn:E; try done. intros [= <- <-] Hs Hm.
    unfold set_decoder. cbn. by rewrite (IH _ _ E Hs Hm).
  - intros [= <- <-] Hs Hm. by rewrite decide_True.
Qed.

Lemma published_private self w ready events :
  published_segment self w ready events →
  ∃ c d d', private_regular (tree (disk w)) (ready_path ready) c
    ∧ decoder_open (Ok (true, lengthN c)) (spool_key self) (limit_segment (limits self)) (mkSource c []) = Ok d
    ∧ drain (S (length c)) d = (d', Ok (Some events))
    ∧ dec_summary d' = Some (ready_summary ready)
    ∧ dec_recovery_metadata d' = Some (ready_recovery_metadata ready)
    ∧ dec_header d' = ready_header ready ∧ dec_segment_id d' = ready_segment_id ready
    ∧ dec_version d' = ready_format_version ready ∧ ready_byte_len ready = lengthN c.
Proof using Type.
  intros [_ _ Hp (c & Hall & d & d' & H')]. exists c, d, d'. split; [|done]. split; [done|].
  exists MODE_PRIVATE_FILE, true. split; [apply Hall; left|by vm_compute].
Qed.

Lemma published_validates self w ready events :
  calm_world w → wf_tree (tree (disk w)) → published_segment self w ready events →
  validate_ready_handle self ready w = (w, Ok tt).
Proof using Type.
  intros Hcalm Hwf Hpub. pose proof (published_private _ _ _ _ Hpub) as
    (c & d & d' & Hreg & Hd & Hdrain & Hs & Hm & Hh & Hid & Hv & Hlen).
  pose proof Hpub as [Hown Hdir _ _]. unfold validate_ready_handle, validate_handle.
  rewrite (st_bind_run _ _ _ _ _ (calm_disk _ _ _ Hcalm (λ Hq, quiet_owned_path _ _ _ _ _ _ Hq Hwf Hown Hdir))).
  rewrite (st_bind_run _ _ _ _ _ (calm_inspect _ _ _ _ (inspected_of ready) _ _ _ _ Hcalm Hwf Hreg Hd Hdrain Hs Hm Hh Hid Hv Hlen)).
  assert (inspected_matches (inspected_of ready) ready = true) as ->
    by (apply inspected_matches_true; unfold handle_of; by destruct ready).
  by rewrite decide_False.
Qed.

(** The header is known once the decoder is open. *)
Lemma drain_keeps_identity calls d d' metadata sk limit bytes faults events :
  decoder_open metadata sk limit (mkSource bytes faults) = Ok d → drain calls d = (d', Ok (Some events)) →
  dec_header d' = dec_header d ∧ dec_segment_id d' = dec_segment_id d ∧ dec_version d' = dec_version d.
Proof using All.
  intros Hd Hdrain. destruct (decoder_open_decoded _ _ _ _ _ _ Hd) as (v & salt & id & h & D).
  destruct (drain_ok _ _ _ _ _ _ _ _ _ _ _ D Hdrain) as (m & F).
  rewrite (finished_id _ _ _ _ _ _ _ _ _ F), (decoded_id _ _ _ _ _ _ _ _ _ D).
  destruct (finished_header _ _ _ _ _ _ _ _ _ F) as [-> _], (decoded_header _ _ _ _ _ _ _ _ _ D) as [-> _].
  destruct (finished_version _ _ _ _ _ _ _ _ _ F) as [-> _], (decoded_version _ _ _ _ _ _ _ _ _ D) as [-> _]. done.
Qed.

(** Without failures the reader of a published segment yields exactly the events
    that were appended, within one call per byte, and then ends. *)
Theorem published_reads_back self w ready events :
  calm_world w → wf_tree (tree (disk w)) → published_segment self w ready events →
  ∃ r, reader self ready w = (w, Ok r)
    ∧ read_events (S (N.to_nat (ready_byte_len ready))) r = Some (Ok events).
Proof using All.
  intros Hcalm Hwf Hpub. pose proof (published_private _ _ _ _ Hpub) as
    (c & d & d' & Hreg & Hd & Hdrain & Hs & Hm & Hh & Hid & Hv & Hlen).
  pose proof Hpub as [Hown Hdir _ _]. destruct (drain_keeps_identity _ _ _ _ _ _ _ _ _ Hd Hdrain) as (E1 & E2 & E3).
  exists (mkReader d (ready_summary ready) (ready_recovery_metadata ready) false). split.
  - unfold reader.
    rewrite (st_bind_run _ _ _ _ _ (calm_disk _ _ _ Hcalm (λ Hq, quiet_owned_path _ _ _ _ _ _ Hq Hwf Hown Hdir))).
    rewrite (st_bind_run _ _ _ _ _ (calm_disk _ _ _ Hcalm (λ Hq, quiet_open_private _ _ _ Hq Hwf Hreg))).
    rewrite (st_bind_run _ _ _ _ _ (calm_open_decoder _ _ _ _ _ _ Hcalm Hreg Hd)).
    rewrite decide_False by (rewrite <- E1, <- E2, <- E3, Hh, Hid, Hv; intros [?|[?|?]]; done). done.
  - rewrite Hlen. unfold lengthN. rewrite Nat2N.id. by apply (drain_read_events _ _ d').
Qed.

Lemma quiet_rename d x x' m c y s :
  quiet s → wf_tree (tree s) → tree s !! (d ++ [x]) = Some (Regular m c y) → tree s !! (d ++ [x']) = None →
  rename_file (d ++ [x]) (d ++ [x']) s
  = (set_tree (<[d ++ [x'] := Regular m c y]> (delete (d ++ [x]) (tree s))) s, Ok tt).
Proof using Type.
  intros Hq Hwf Hn Hnone. assert (is_dir_at (tree s) d) as Hd by (by eapply wf_parent).
  unfold rename_file. rewrite quiet_syscall by done. unfold mbind, st_bind.
  rewrite locate_eq, (resolve_child _ _ _ _ _ Hwf Hd (or_introl eq_refl)).
  rewrite locate_eq, (resolve_child _ _ _ _ _ Hwf Hd (or_introl eq_refl)), node_at_eq, Hn. cbn. by rewrite Hnone.
Qed.

Lemma quiet_sync_directory d stage s :
  quiet s → wf_tree (tree s) → private_directory (tree s) d →
  sync_directory d stage s = (set_past (overlay d (tree s) <$> past s) s, Ok tt).
Proof using Type.
  intros Hq Hwf Hd. unfold sync_directory.
  rewrite (st_bind_run _ _ _ _ _ (quiet_private_directory _ _ Hq Hwf Hd)). pose proof Hd as [Hp (m & Hm & _)].
  unfold st_map_err, open_existing. unfold mbind at 1, st_bind at 1. rewrite quiet_syscall by done.
  unfold mbind, st_bind. rewrite locate_eq, (resolve_dir _ _ _ _ Hwf) by (by exists m). rewrite node_at_eq, Hm. cbn [ok_or mret st_ret].
  unfold sync. rewrite quiet_syscall by done. unfold mbind, st_bind. by rewrite node_at_eq, Hm.
Qed.

Lemma quiet_absent d x s :
  quiet s → wf_tree (tree s) → is_dir_at (tree s) d → tree s !! (d ++ [x]) = None →
  path_exists (E := SpoolError) (d ++ [x]) s = (s, Ok false).
Proof using Type.
  intros Hq Hwf Hd Hn. unfold path_exists, try_call. unfold mbind at 1, st_bind at 1. rewrite quiet_syscall by done.
  unfold mbind, st_bind. rewrite locate_eq, (resolve_child _ _ _ _ _ Hwf Hd) by (right; intros tgt; congruence).
  rewrite node_at_eq, Hn. done.
Qed.

Lemma renamed_private d x x' m c y dm s :
  quiet s → wf_tree (tree s) → tree s !! (d ++ [x]) = Some (Regular m c y) → tree s !! (d ++ [x']) = None →
  plain d (tree s) → tree s !! d = Some (Dir dm) → N.land dm OTHERS = 0 →
  let t' := <[d ++ [x'] := Regular m c y]> (delete (d ++ [x]) (tree s)) in
  wf_tree t' ∧ private_directory t' d.
Proof using Type.
  intros Hq Hwf Hn Hnone Hpd Hdm Hpm. cbn zeta. split.
  - assert (x ≠ x') as Hx by (intros ->; congruence).
    by destruct (rename_run _ _ _ _ _ _ _ _ _ Hwf Hn Hx (quiet_rename _ _ _ _ _ _ _ Hq Hwf Hn Hnone))
      as [[_ [? ?]]|(_ & _ & _ & Hwf')].
  - split.
    + intros q Hqd tgt. rewrite lookup_insert. case_decide; [done|]. rewrite lookup_delete.
      case_decide; [done|]. by apply Hpd.
    + exists dm. split; [|done]. rewrite lookup_insert_ne, lookup_delete_ne; [done|..];
        intros E; by apply neq_child in E.
Qed.

(** Without failures a published segment whose delivered name is free is delivered. *)
Theorem published_delivers self w ready events :
  calm_world w → wf_tree (tree (disk w)) → published_segment self w ready events →
  tree (disk w) !! with_extension (ready_path ready) DELIVERED_EXTENSION = None →
  ∃ w' d, mark_delivered self ready w = (w', Ok d) ∧ calm_world w'
    ∧ tree (disk w') !! delivered_path d = tree (disk w) !! ready_path ready.
Proof using All.
  intros Hcalm Hwf Hpub Hnone.
  pose proof (published_private _ _ _ _ Hpub) as (c & _ & _ & [_ (m & y & Hn & _)] & _).
  pose proof Hpub as [Hown [Hpd (dm & Hdm & Hpm)] _ _]. apply owned_split in Hown as [Ep Eq].
  specialize (Eq DELIVERED_EXTENSION). rewrite Eq in Hnone. rewrite Ep in Hn. pose proof (proj1 Hcalm) as Hq.
  set (dir := input_directory self (input_key (ready_header ready))) in *.
  set (id := ready_segment_id ready) in *.
  unfold mark_delivered. rewrite (st_bind_run _ _ _ _ _ (published_validates _ _ _ _ Hcalm Hwf Hpub)). cbn zeta.
  rewrite Eq. rewrite (st_bind_run _ _ _ _ _ (calm_disk _ _ _ Hcalm (λ Hq, quiet_absent _ _ _ Hq Hwf (ex_intro _ _ Hdm) Hnone))).
  rewrite decide_False by done. rewrite Ep.
  set (t' := <[dir ++ [segment_file_name id DELIVERED_EXTENSION] := Regular m c y]>
    (delete (dir ++ [segment_file_name id READY_EXTENSION]) (tree (disk w)))).
  assert (disk_call "DBX-RS-SPOOL-LIFECYCLE-0002" "mark_delivered" (rename_file (dir ++ [segment_file_name id READY_EXTENSION])
    (dir ++ [segment_file_name id DELIVERED_EXTENSION])) w = (set_disk (set_tree t' (disk w)) w, Ok tt)) as Hren.
  { unfold disk_call, st_map_err, on_disk. by rewrite (quiet_rename _ _ _ _ _ _ _ Hq Hwf Hn Hnone). }
  rewrite (st_bind_run _ _ _ _ _ Hren). cbn beta. rewrite parent_snoc. cbn [ok_or]. rewrite (st_lift_run _ _ _ _ eq_refl). cbn beta.
  destruct (renamed_private dir _ _ m c y dm (disk w) Hq Hwf Hn Hnone Hpd Hdm Hpm) as [Hwf' Hd'].
  assert (on_disk (sync_directory dir "mark_delivered") (set_disk (set_tree t' (disk w)) w)
    = (set_disk (set_past (overlay dir t' <$> tree (disk w) :: past (disk w)) (set_tree t' (disk w))) w, Ok tt)) as Hsync.
  { unfold on_disk. cbn [disk set_disk]. by rewrite (quiet_sync_directory dir "mark_delivered" (set_tree t' (disk w)) Hq Hwf' Hd'). }
  rewrite (st_bind_run _ _ _ _ _ Hsync). eexists _, _. split; [reflexivity|]. split; [exact Hcalm|].
  change (t' !! (dir ++ [segment_file_name id DELIVERED_EXTENSION])
    = tree (disk w) !! (dir ++ [segment_file_name id READY_EXTENSION])).
  unfold t'. by rewrite lookup_insert_eq, Hn.
Qed.
End Life.
