(* ===== verification/SpoolRuns.v ===== *)
(** * Runs of spool operations

    The operations of one spool as a step relation on the world and its live writers, and
    what a sealed segment can rely on along every run. *)

From S2P Require Export SpoolWriting.

Local Open Scope N_scope.

(** ** Footprints of the writer's methods *)

Section WriterFootprints.
Context `{Sha256, Crypto}.
Context (A : path → option node → Prop) (P : tree_t → Prop).
Context (HP : ∀ t ps t' ps', P t → base A t ps t' ps' → P t').

Definition writer_footprint {E B} (m : st (world * SegmentWriter) E B) : Prop :=
  ∀ s, wf_tree (tree (disk s.1)) → P (tree (disk s.1)) → changes_only A s.1 (m s).1.1.

Lemma wfp_bind {E B C} (m : st (world * SegmentWriter) E B) (f : B → st (world * SegmentWriter) E C) :
  writer_footprint m → (∀ b, writer_footprint (f b)) → writer_footprint (m ≫= f).
Proof using HP.
  intros Hm Hf s Hwf Hs. specialize (Hm s Hwf Hs). unfold mbind, st_bind. destruct (m s) as [s1 [b|e]]; [|done].
  cbn [fst] in Hm. eapply changes_only_trans; [done|]. apply Hf; [apply Hm|by eapply HP].
Qed.
Lemma wfp_in_world {B} (m : spool B) : spool_footprint A P m → writer_footprint (in_world m).
Proof using Type. intros Hm s Hwf Hs. specialize (Hm s.1 Hwf Hs). unfold in_world. by destruct (m s.1). Qed.
Lemma wfp_modify f : writer_footprint (modify_writer f).
Proof using Type. intros s Hwf _. by apply changes_only_refl. Qed.
Lemma wfp_ret {E B} (b : B) : writer_footprint (mret b : st _ E B).
Proof using Type. intros s Hwf _. by apply changes_only_refl. Qed.
Lemma wfp_throw {E B} (e : E) : writer_footprint (mthrow e : st _ E B).
Proof using Type. intros s Hwf _. by apply changes_only_refl. Qed.
Lemma wfp_lift {E B} (r : result E B) : writer_footprint (st_lift r : st _ E B).
Proof using Type. intros s Hwf _. by apply changes_only_refl. Qed.
Lemma wfp_try {E F B} (m : st _ E B) : writer_footprint m → writer_footprint (try_call m : st _ F _).
Proof using Type. intros Hm s Hwf Hs. specialize (Hm s Hwf Hs). unfold try_call. by destruct (m s). Qed.

(** The methods never change what a writer writes to. *)
Definition same_target (wr wr' : SegmentWriter) : Prop :=
  writer_spool wr' = writer_spool wr ∧ writer_header wr' = writer_header wr
  ∧ writer_segment_id wr' = writer_segment_id wr ∧ open_path wr' = open_path wr ∧ file wr' = file wr.
Definition keeps_target {E B} (m : st (world * SegmentWriter) E B) : Prop :=
  ∀ s, same_target s.2 (m s).1.2.

Lemma same_target_trans a b c : same_target a b → same_target b c → same_target a c.
Proof using Type. unfold same_target. naive_solver congruence. Qed.
Lemma kt_bind {E B C} (m : st _ E B) (f : B → st _ E C) :
  keeps_target m → (∀ b, keeps_target (f b)) → keeps_target (m ≫= f).
Proof using Type.
  intros Hm Hf s. specialize (Hm s). unfold mbind, st_bind. destruct (m s) as [s1 [b|e]]; [|done].
  eapply same_target_trans; [done|apply Hf].
Qed.
Lemma kt_in_world {B} (m : spool B) : keeps_target (in_world m).
Proof using Type. intros s. unfold in_world. by destruct (m s.1). Qed.
Lemma kt_modify f : (∀ wr, same_target wr (f wr)) → keeps_target (modify_writer f).
Proof using Type. intros Hf s. apply Hf. Qed.
Lemma kt_ret {E B} (b : B) : keeps_target (mret b : st _ E B).
Proof using Type. done. Qed.
Lemma kt_throw {E B} (e : E) : keeps_target (mthrow e : st _ E B).
Proof using Type. done. Qed.
Lemma kt_lift {E B} (r : result E B) : keeps_target (st_lift r : st _ E B).
Proof using Type. done. Qed.
Lemma kt_get {E} : keeps_target (st_get : st _ E _).
Proof using Type. done. Qed.
Lemma kt_try {E F B} (m : st _ E B) : keeps_target m → keeps_target (try_call m : st _ F _).
Proof using Type. intros Hm s. specialize (Hm s). unfold try_call. by destruct (m s). Qed.
End WriterFootprints.

Ltac keeps_target :=
  repeat first
    [ progress cbn zeta
    | apply kt_bind; [|intros ?]
    | apply kt_in_world | apply kt_get | apply kt_ret | apply kt_throw | apply kt_lift | apply kt_try
    | apply kt_modify; intros ?; done
    | case_decide
    | case_match ].
#[export] Hint Resolve wfp_modify wfp_ret wfp_throw wfp_lift : fp.

Section Runs.
Context `{Sha256, Crypto, !CryptoLaws}.

(** The paths of one writer: its open file and the ready file it may become. *)
Definition writer_area (wr : SegmentWriter) (q : path) (_ : option node) : Prop :=
  q = open_path wr ∨ q = ready_of wr.

(** A writer as [begin_segment] made it, in a directory that exists. *)
Record placed (self : Spool) (t : tree_t) (wr : SegmentWriter) : Prop := mkPlaced {
  pl_spool : writer_spool wr = self;
  pl_open : open_path wr = input_directory self (input_key (writer_header wr))
    ++ [segment_file_name (writer_segment_id wr) OPEN_EXTENSION];
  pl_file : file wr = open_path wr;
  pl_dir : is_dir_at t (input_directory self (input_key (writer_header wr)));
}.

Context (self : Spool).

Definition writer_dir (wr : SegmentWriter) : path := input_directory self (input_key (writer_header wr)).

Lemma placed_paths t wr :
  placed self t wr →
  ready_of wr = writer_dir wr ++ [segment_file_name (writer_segment_id wr) READY_EXTENSION]
  ∧ segment_file_name (writer_segment_id wr) OPEN_EXTENSION ≠ segment_file_name (writer_segment_id wr) READY_EXTENSION.
Proof using Type.
  intros [_ Hopen _ _]. split.
  - unfold ready_of. rewrite Hopen. apply with_extension_segment, no_dot_lifecycle.
  - intros E%segment_file_name_inj. by apply no_dot_lifecycle in E.
Qed.

Lemma writer_dir_stays t wr :
  placed self t wr → ∀ t1 ps t' ps', is_dir_at t1 (writer_dir wr) → base (writer_area wr) t1 ps t' ps' →
  is_dir_at t' (writer_dir wr).
Proof using Type.
  intros Hpl. apply dir_stays. destruct (placed_paths _ _ Hpl) as [Er _]. unfold writer_area.
  rewrite Er, (pl_open _ _ _ Hpl). intros n [E|E]; symmetry in E; by apply neq_child in E.
Qed.

Abbreviation in_writer_dir wr := (λ t, is_dir_at t (writer_dir wr)).

Lemma fp_remove_open t wr :
  placed self t wr → footprint_in (writer_area wr) (in_writer_dir wr) (remove_file (open_path wr)).
Proof using Type.
  intros Hpl. rewrite (pl_open _ _ _ Hpl). apply fpi_remove_entry. left. by rewrite (pl_open _ _ _ Hpl).
Qed.

Lemma fp_sync_directory (A : path → option node → Prop) P d stage :
  spool_footprint A P (on_disk (sync_directory d stage)).
Proof using Type.
  intros w Hwf _. unfold on_disk. destruct (sync_directory d stage (disk w)) as [s r] eqn:E.
  unfold changes_only. cbn [fst disk set_disk]. apply sync_directory_run in E as [[[l ->] _]|[_ [Et Ep]]]; [|..|done].
  - by apply (base_refl A (disk w)).
  - rewrite Et, Ep. split; [done|apply evolves_overlay].
Qed.

Lemma drop_footprint t wr :
  placed self t wr → spool_footprint (writer_area wr) (in_writer_dir wr) (drop_writer wr).
Proof using Type.
  intros Hpl. pose proof (writer_dir_stays _ _ Hpl) as HP. unfold drop_writer. apply fp_bind; [done| |].
  - destruct (published wr); [apply fp_ret|]. apply fp_bind; [done| |intros; apply fp_ret].
    apply fp_try, fp_disk. by eapply fp_remove_open.
  - intros _. destruct (reservation_active wr); [apply fp_accounting|apply fp_ret].
Qed.

Ltac writer_steps HP :=
  repeat first
    [ progress cbn zeta
    | apply wfp_bind; [exact HP| |intros ?]
    | apply wfp_in_world | apply wfp_try
    | apply fp_accounting | apply fp_sync_directory
    | apply wfp_modify | apply wfp_ret | apply wfp_throw | apply wfp_lift
    | apply fp_looking, looking_disk, ro_path_exists
    | case_decide
    | case_match ].

Lemma seal_footprint t m w wr :
  wf_tree (tree (disk w)) → placed self t wr → is_dir_at (tree (disk w)) (writer_dir wr) →
  changes_only (writer_area wr) w (seal_body m (w, wr)).1.1.
Proof using Type.
  intros Hwf Hpl Hd. pose proof (writer_dir_stays _ _ Hpl) as HP. destruct (placed_paths _ _ Hpl) as [Er Hx].
  assert (spool_footprint (writer_area wr) (in_writer_dir wr)
    (disk_call "DBX-RS-SPOOL-LIFECYCLE-0006" "segment_seal" (rename_file (open_path wr) (ready_of wr)))) as Hren.
  { apply fp_map_err, fp_disk. rewrite Er, (pl_open _ _ _ Hpl).
    apply fpi_rename_entry; [left; by rewrite (pl_open _ _ _ Hpl)|intros ?; right; by rewrite Er|done]. }
  assert (∀ bytes b, spool_footprint (writer_area wr) (in_writer_dir wr) (store_file (E := SpoolError) (file wr) bytes b)) as Hst.
  { intros bytes b. apply fp_store_file. intros n. left. apply (pl_file _ _ _ Hpl). }
  assert (∀ rest : st (world * SegmentWriter) SpoolError ReadySegment, writer_footprint (writer_area wr) (in_writer_dir wr) rest →
    changes_only (writer_area wr) w (rest (w, wr)).1.1) as Hgo.
  { intros rest Hr. by apply (Hr (w, wr)). }
  unfold seal_body. rewrite st_get_run. cbn [snd]. apply Hgo. fold (ready_of wr).
  destruct (encoder wr) as [e|]; writer_steps HP; try apply Hren; try apply Hst.
Qed.

Lemma seal_keeps_target m : keeps_target (seal_body m).
Proof using Type. unfold seal_body. keeps_target. Qed.
Lemma abort_keeps_target : keeps_target abort_body.
Proof using Type. unfold abort_body. keeps_target. Qed.
Lemma append_keeps_target ev : keeps_target (SegmentWriter_append_event ev).
Proof using Type. unfold SegmentWriter_append_event. keeps_target. Qed.

Lemma placed_target t t' wr wr' :
  placed self t wr → same_target wr wr' → is_dir_at t' (writer_dir wr) → placed self t' wr'.
Proof using Type.
  intros [Hs Ho Hf Hd] (E1 & E2 & E3 & E4 & E5) Hd'. split; rewrite ?E1, ?E2, ?E3, ?E4, ?E5; done.
Qed.
Lemma same_target_area wr wr' : same_target wr wr' → ∀ q n, writer_area wr' q n → writer_area wr q n.
Proof using Type. intros (_ & _ & _ & E4 & _) q n. unfold writer_area, ready_of. by rewrite E4. Qed.

(** A method that takes the writer by value, with the drop at its end. *)
Lemma consuming_footprint {A} (m : st (world * SegmentWriter) SpoolError A) t w wr :
  wf_tree (tree (disk w)) → placed self t wr → is_dir_at (tree (disk w)) (writer_dir wr) →
  keeps_target m → changes_only (writer_area wr) w (m (w, wr)).1.1 →
  changes_only (writer_area wr) w (consuming m wr w).1.
Proof using Type.
  intros Hwf Hpl Hd Hk Hm. unfold consuming. specialize (Hk (w, wr)). cbn [snd] in Hk.
  destruct (m (w, wr)) as [[w1 wr1] r]. cbn [fst snd] in Hk, Hm.
  pose proof (writer_dir_stays _ _ Hpl _ _ _ _ Hd Hm) as Hd1.
  pose proof (placed_target _ _ _ _ Hpl Hk Hd1) as Hpl1. pose proof Hk as (_ & Eh & _).
  pose proof (drop_footprint _ _ Hpl1 w1 (proj1 Hm)) as Hdrop. unfold writer_dir in Hdrop. rewrite Eh in Hdrop.
  specialize (Hdrop Hd1). destruct (drop_writer wr1 w1) as [w2 r2]. cbn [fst] in *.
  eapply changes_only_trans; [exact Hm|]. eapply base_mono; [|exact Hdrop]. by apply same_target_area.
Qed.

Lemma abort_footprint t w wr :
  wf_tree (tree (disk w)) → placed self t wr → is_dir_at (tree (disk w)) (writer_dir wr) →
  changes_only (writer_area wr) w (abort_body (w, wr)).1.1.
Proof using Type.
  intros Hwf Hpl Hd. pose proof (writer_dir_stays _ _ Hpl) as HP.
  assert (spool_footprint (writer_area wr) (in_writer_dir wr) (on_disk (remove_if_present (open_path wr)))) as Hrm.
  { apply fp_disk. unfold remove_if_present. apply fpi_bind; [done|apply fpi_read_only, ro_spool_reject_symlinks|].
    intros _. apply fpi_bind; [done|apply fpi_try; by eapply fp_remove_open|]. intros r.
    apply fpi_read_only. read_only. }
  assert (∀ rest : st (world * SegmentWriter) SpoolError (), writer_footprint (writer_area wr) (in_writer_dir wr) rest →
    changes_only (writer_area wr) w (rest (w, wr)).1.1) as Hgo.
  { intros rest Hr. by apply (Hr (w, wr)). }
  unfold abort_body. rewrite st_get_run. cbn [snd]. apply Hgo. writer_steps HP; try apply Hrm.
Qed.

Lemma append_footprint t ev w wr :
  wf_tree (tree (disk w)) → placed self t wr → is_dir_at (tree (disk w)) (writer_dir wr) →
  changes_only (writer_area wr) w (SegmentWriter_append_event ev (w, wr)).1.1.
Proof using Type.
  intros Hwf Hpl Hd. pose proof (writer_dir_stays _ _ Hpl) as HP.
  assert (∀ bytes b, spool_footprint (writer_area wr) (in_writer_dir wr) (store_file (E := SpoolError) (file wr) bytes b)) as Hst.
  { intros bytes b. apply fp_store_file. intros n. left. apply (pl_file _ _ _ Hpl). }
  assert (∀ rest : st (world * SegmentWriter) SpoolError (), writer_footprint (writer_area wr) (in_writer_dir wr) rest →
    changes_only (writer_area wr) w (rest (w, wr)).1.1) as Hgo.
  { intros rest Hr. by apply (Hr (w, wr)). }
  unfold SegmentWriter_append_event. rewrite st_get_run. cbn [snd]. apply Hgo.
  destruct (encoder wr) as [e|]; writer_steps HP; try apply Hst.
Qed.

(** ** Footprint of the creation *)

Definition begin_area (d : path) (q : path) (n : option node) : Prop := above d q n ∨ open_files d q n.

Lemma open_dir_stays d : ∀ t ps t' ps', is_dir_at t d → base (open_files d) t ps t' ps' → is_dir_at t' d.
Proof using Type. apply dir_stays. intros n. apply open_files_not_dir. Qed.

Lemma start_segment_footprint header id salt d new_id :
  let p := d ++ [segment_file_name new_id OPEN_EXTENSION] in
  spool_footprint (open_files d) (λ t, is_dir_at t d) (start_segment self header id salt p p).
Proof using Type.
  intros p. pose proof (open_dir_stays d) as HP. unfold start_segment.
  apply fp_bind; [done|apply fp_next_writes|]. intros schedule.
  destruct (start _ _ _ _ _ _) as [f r]. apply fp_bind; [done| |].
  - apply fp_store_file. intros n. by exists new_id.
  - intros _. destruct r as [e|err]; [apply fp_ret|]. apply fp_bind; [done| |intros; apply fp_throw].
    apply fp_try, fp_disk, fpi_remove_entry. by exists new_id.
Qed.

Lemma allocate_footprint attempts header d w :
  wf_tree (tree (disk w)) → is_dir_at (tree (disk w)) d →
  changes_only (open_files d) w (allocate_segment attempts self header d w).1.
Proof using Type.
  revert w. induction attempts as [|n IH]; intros w Hwf Hd; cbn [allocate_segment]; [by apply changes_only_refl|].
  unfold mbind at 1, st_bind at 1. destruct (random_fill 16 _ w) as [w1 [id|e]] eqn:E1; cbn [fst].
  2: { apply random_fill_disk in E1 as [E1 _]. unfold changes_only. rewrite E1. by apply base_refl. }
  apply random_fill_disk in E1 as [E1 _].
  unfold mbind at 1, st_bind at 1. destruct (random_fill SALT_BYTES _ w1) as [w2 [salt|e]] eqn:E2; cbn [fst].
  2: { apply random_fill_disk in E2 as [E2 _]. unfold changes_only. rewrite E2, E1. by apply base_refl. }
  apply random_fill_disk in E2 as [E2 _].
  unfold mbind at 1, st_bind at 1, try_call at 1.
  destruct (on_disk _ w2) as [w3 r] eqn:Eo. apply on_disk_run in Eo as (s & Hc & ->). rewrite E2, E1 in Hc.
  apply create_private_file_run in Hc as [Hb Hok]; [|done|done].
  assert (changes_only (open_files d) w (set_disk s w2)) as Hch.
  { unfold changes_only. cbn [disk set_disk]. eapply base_mono; [|exact Hb]. intros q m ->. by exists id. }
  pose proof (open_dir_stays _ _ _ _ _ Hd Hch) as Hd'.
  destruct r as [q|err].
  - destruct (Hok q eq_refl) as [-> _]. eapply changes_only_trans; [exact Hch|].
    apply start_segment_footprint; [apply Hch|done].
  - case_decide; [|done]. eapply changes_only_trans; [exact Hch|]. apply IH; [apply Hch|done].
Qed.

Lemma begin_footprint header w :
  wf_tree (tree (disk w)) →
  changes_only (begin_area (input_directory self (input_key header))) w (begin_segment self header w).1.
Proof using Type.
  set (d := input_directory self (input_key header)). intros Hwf. unfold begin_segment.
  unfold mbind at 1, st_bind at 1, on_accounting. destruct (reserve _ _ _) as [a [[]|e]]; [|exact (changes_only_refl _ w Hwf)].
  set (w1 := mkWorld (disk w) a (randoms w) (reads w) (writes w)).
  assert (changes_only (begin_area d) w1 (begin_reserved_segment self header w1).1) as Hres.
  { unfold begin_reserved_segment. fold d. unfold mbind at 1, st_bind at 1.
    destruct (on_disk (ensure_private_directory d) w1) as [w2 r] eqn:Eo. apply on_disk_run in Eo as (s & Hens & ->).
    apply ensure_private_directory_run in Hens as [Hb Hok]; [|done].
    assert (changes_only (begin_area d) w1 (set_disk s w1)) as Hch.
    { unfold changes_only. cbn [disk set_disk]. eapply base_mono; [|exact Hb]. intros q m ?. by left. }
    destruct r as [[]|e]; [|done]. destruct (Hok eq_refl) as [_ Hd].
    eapply changes_only_trans; [exact Hch|]. eapply base_mono;
      [|apply (allocate_footprint SEGMENT_ID_ATTEMPTS header d (set_disk s w1)); [apply Hch|by eexists]].
    intros q m ?. by right. }
  unfold mbind at 1, st_bind at 1, try_call. destruct (begin_reserved_segment self header w1) as [w2 [wr|e]] eqn:Eb;
    cbn [fst] in Hres; [done|].
  unfold mbind, st_bind. destruct (release_reservation _ _ (accounting w2)) as [a' [[]|]]; exact Hres.
Qed.

(** ** The step relation

    [key] and [id] name one sealed segment.  The writers begun later have another
    identity: 16 random bytes do not repeat the one of a stored segment. *)
Context (key : InputKey) (id : SegmentId).

Definition other_writer (wr : SegmentWriter) : Prop :=
  input_key (writer_header wr) ≠ key ∨ writer_segment_id wr ≠ id.

Definition segment_dir : path := input_directory self key.
Definition segment_ready : path := segment_dir ++ [segment_file_name id READY_EXTENSION].
Definition segment_delivered : path := segment_dir ++ [segment_file_name id DELIVERED_EXTENSION].

(** Every operation, with any outcome, except the compaction of this segment. *)
Inductive spool_step : world * list SegmentWriter → world * list SegmentWriter → Prop :=
  | step_begin header w w' r ws :
      begin_segment self header w = (w', r) → (∀ wr, r = Ok wr → other_writer wr) →
      spool_step (w, ws) (w', match r with Ok wr => wr :: ws | Err _ => ws end)
  | step_append event w wr w' wr' r ws ws' :
      SegmentWriter_append_event event (w, wr) = ((w', wr'), r) →
      spool_step (w, ws ++ wr :: ws') (w', ws ++ wr' :: ws')
  | step_seal m w wr w' r ws ws' :
      seal_with_recovery_metadata wr m w = (w', r) → spool_step (w, ws ++ wr :: ws') (w', ws ++ ws')
  | step_abort w wr w' r ws ws' :
      abort wr w = (w', r) → spool_step (w, ws ++ wr :: ws') (w', ws ++ ws')
  | step_drop w wr w' r ws ws' :
      drop_writer wr w = (w', r) → spool_step (w, ws ++ wr :: ws') (w', ws ++ ws')
  | step_deliver segment w w' r ws :
      mark_delivered self segment w = (w', r) → spool_step (w, ws) (w', ws)
  | step_compact segment w w' r ws :
      compact_delivered self segment w = (w', r) → delivered_path segment ≠ segment_delivered →
      spool_step (w, ws) (w', ws)
  | step_list_ready w w' r ws : list_ready self w = (w', r) → spool_step (w, ws) (w', ws)
  | step_list_delivered w w' r ws : list_delivered self w = (w', r) → spool_step (w, ws) (w', ws)
  | step_reader segment w w' r ws : reader self segment w = (w', r) → spool_step (w, ws) (w', ws).

(** The segment is at exactly one of its two paths, with node [n]. *)
Definition located (n : node) (t : tree_t) : Prop :=
  (t !! segment_ready = Some n ∧ t !! segment_delivered = None)
  ∨ (t !! segment_ready = None ∧ t !! segment_delivered = Some n).

Record run_invariant (n : node) (s : world * list SegmentWriter) : Prop := mkRunInvariant {
  ri_wf : wf_tree (tree (disk s.1));
  ri_writers : Forall (λ wr, placed self (tree (disk s.1)) wr ∧ other_writer wr) s.2;
  ri_located v : v ∈ versions (disk s.1) → located n v;
}.

Lemma located_ext n t t' :
  t' !! segment_ready = t !! segment_ready → t' !! segment_delivered = t !! segment_delivered →
  located n t → located n t'.
Proof using Type. unfold located. by intros -> ->. Qed.

(** Changes elsewhere keep the segment where it is in every version. *)
Lemma located_kept A n w w' :
  changes_only A w w' → (∀ m, ¬ A segment_ready m) → (∀ m, ¬ A segment_delivered m) →
  (∀ v, v ∈ versions (disk w) → located n v) → ∀ v, v ∈ versions (disk w') → located n v.
Proof using Type.
  intros [_ Hev] H1' H2' Hloc v Hv. destruct (ev_version _ _ _ _ _ Hev v (Some segment_dir) Hv) as (v0 & Hv0 & E).
  eapply located_ext; [..|by apply Hloc]; symmetry.
  - destruct (E segment_ready) as [?|Ha]; [apply parent_snoc|done|by apply H1' in Ha].
  - destruct (E segment_delivered) as [?|Ha]; [apply parent_snoc|done|by apply H2' in Ha].
Qed.

Lemma dirs_kept A w w' d :
  changes_only A w w' → (∀ m, A d m → ∃ k, m = Some (Dir k)) →
  is_dir_at (tree (disk w)) d → is_dir_at (tree (disk w')) d.
Proof using Type.
  intros [_ Hev] HA [m Hd]. destruct (ev_tree _ _ _ _ _ Hev d) as [E|E]; [exists m; by rewrite E|].
  by apply HA in E.
Qed.

Lemma input_directory_inj k k' : input_directory self k = input_directory self k' → k = k'.
Proof using Type.
  intros E. apply app_inj_2 in E as [_ E]; [|done]. injection E as E.
  apply (f_equal (decode_hex 32)) in E. rewrite !decode_encode_hex in E. by injection E.
Qed.

Lemma segment_file_name_inj2 i ext i' ext' :
  segment_file_name i ext = segment_file_name i' ext' → i = i' ∧ ext = ext'.
Proof using Type.
  unfold segment_file_name. intros E. apply app_inj_1 in E as [E1 [= E2]];
    [|by rewrite !length_encode_hex, !length_vec_to_list].
  apply (f_equal (decode_hex 16)) in E1. rewrite !decode_encode_hex in E1. by injection E1.
Qed.

Lemma entry_inj k i ext k' i' ext' :
  input_directory self k ++ [segment_file_name i ext] = input_directory self k' ++ [segment_file_name i' ext'] →
  k = k' ∧ i = i' ∧ ext = ext'.
Proof using Type.
  intros E. apply app_inj_2 in E as [E1%input_directory_inj [= E2]]; [|done].
  by apply segment_file_name_inj2 in E2 as [-> ->].
Qed.

(** An entry of an input directory is no input directory, and above none. *)
Lemma entry_not_above k k' x : ¬ input_directory self k ++ [x] `prefix_of` input_directory self k'.
Proof using Type.
  intros E%prefix_length. unfold input_directory, FileSystem.join in E. rewrite !length_app in E. cbn in E. lia.
Qed.

(** Areas of operations on other segments. *)
Record elsewhere (A : path → option node → Prop) : Prop := mkElsewhere {
  el_ready m : ¬ A segment_ready m;
  el_delivered m : ¬ A segment_delivered m;
  el_dirs k m : A (input_directory self k) m → ∃ m', m = Some (Dir m');
}.

Lemma entries_elsewhere (A : path → option node → Prop) :
  (∀ q m, A q m → ∃ k i ext, q = input_directory self k ++ [segment_file_name i ext]
     ∧ (k = key → i = id → ext ≠ READY_EXTENSION ∧ ext ≠ DELIVERED_EXTENSION)) → elsewhere A.
Proof using Type.
  intros HA. split.
  - intros m (k & i & ext & E & Hne)%HA. apply entry_inj in E as (<- & <- & <-). by destruct (Hne eq_refl eq_refl).
  - intros m (k & i & ext & E & Hne)%HA. apply entry_inj in E as (<- & <- & <-). by destruct (Hne eq_refl eq_refl).
  - intros k m (k' & i & ext & E & _)%HA. exfalso. apply (entry_not_above k' k (segment_file_name i ext)). by rewrite E.
Qed.

Lemma open_neq : OPEN_EXTENSION ≠ READY_EXTENSION ∧ OPEN_EXTENSION ≠ DELIVERED_EXTENSION.
Proof using Type. by vm_compute. Qed.

Lemma writer_elsewhere t wr : placed self t wr → other_writer wr → elsewhere (writer_area wr).
Proof using Type.
  intros Hpl Ho. destruct (placed_paths _ _ Hpl) as [Er _]. apply entries_elsewhere. intros q m [->| ->].
  - eexists _, _, _. split; [apply (pl_open _ _ _ Hpl)|]. intros _ _. apply open_neq.
  - eexists _, _, _. split; [exact Er|]. intros E1 E2. by destruct Ho.
Qed.

Lemma begin_elsewhere k : elsewhere (begin_area (input_directory self k)).
Proof using Type.
  assert (elsewhere (open_files (input_directory self k))) as [E1 E2 E3].
  { apply entries_elsewhere. intros q m [i ->]. eexists _, _, _. split; [done|]. intros _ _. apply open_neq. }
  split.
  - intros m [[Hp _]|Ha]; [by apply entry_not_above in Hp|by apply E1 in Ha].
  - intros m [[Hp _]|Ha]; [by apply entry_not_above in Hp|by apply E2 in Ha].
  - intros k' m [[_ Hm]|Ha]; [done|by apply E3 in Ha].
Qed.

(** An operation elsewhere keeps the invariant. *)
Lemma invariant_elsewhere A n w ws w' ws' :
  run_invariant n (w, ws) → changes_only A w w' → elsewhere A →
  (∀ wr, wr ∈ ws' → other_writer wr ∧ placed self (tree (disk w')) wr
     ∨ ∃ wr0, wr0 ∈ ws ∧ same_target wr0 wr) →
  run_invariant n (w', ws').
Proof using Type.
  intros [Hwf Hws Hloc] Hch [E1 E2 E3] Hnew. cbn [fst snd] in *. split; cbn [fst snd].
  - apply Hch.
  - rewrite Forall_forall in Hws |- *. intros wr Hin. destruct (Hnew wr Hin) as [[? ?]|(wr0 & Hin0 & Ht)]; [done|].
    destruct (Hws wr0 Hin0) as [Hpl Ho]. split.
    + eapply placed_target; [exact Hpl|done|]. eapply dirs_kept; [exact Hch|apply E3|apply (pl_dir _ _ _ Hpl)].
    + destruct Ht as (_ & F2 & F3 & _). unfold other_writer. by rewrite F2, F3.
  - by eapply located_kept.
Qed.

Lemma invariant_glanced n w ws w' : run_invariant n (w, ws) → glanced w w' → run_invariant n (w', ws).
Proof using Type.
  intros Hinv G. eapply (invariant_elsewhere (λ _ _, False)); [exact Hinv| |split; [intros ? []|intros ? []|intros ? ? []]|].
  - apply changes_only_glanced; [apply Hinv|done].
  - intros wr Hin. right. by exists wr.
Qed.

(** Entries of input directories change together. *)
Lemma invariant_entries l n w ws w' :
  run_invariant n (w, ws) → wf_tree (tree (disk w')) → entries_changed l (disk w) (disk w') →
  (∀ q, q ∈ l → ∃ k x, q = input_directory self k ++ [x]) →
  ((segment_ready ∉ l ∧ segment_delivered ∉ l) ∨ l = [segment_ready; segment_delivered] ∧ located n (tree (disk w'))) →
  run_invariant n (w', ws).
Proof using Type.
  intros [Hwf Hws Hloc] Hwf' Hch Hl Hcases. cbn [fst snd] in *. split; cbn [fst snd]; [done| |].
  - eapply Forall_impl; [exact Hws|]. intros wr [Hpl Ho]. split; [|done].
    eapply placed_target; [exact Hpl|done|]. destruct (pl_dir _ _ _ Hpl) as [m Hm]. exists m.
    rewrite (ec_other _ _ _ Hch); [done|]. intros (k & x & E)%Hl.
    apply (entry_not_above k (input_key (writer_header wr)) x). rewrite <- E. done.
  - intros v Hv. destruct Hcases as [[Hr Hd]|[-> Hnow]].
    + destruct (ec_others _ _ _ Hch (Some segment_dir) v Hv) as (v0 & Hv0 & E).
      eapply located_ext; [..|by apply Hloc]; symmetry; apply E; try done; apply parent_snoc.
    + destruct (ec_together _ _ _ Hch v Hv) as [(v0 & Hv0 & E)|E].
      * eapply located_ext; [..|by apply (Hloc v0)]; symmetry; apply E; [by left|right; by left].
      * eapply located_ext; [..|exact Hnow]; apply E; [by left|right; by left].
Qed.

Lemma invariant_deliver segment n w ws w' r :
  run_invariant n (w, ws) → mark_delivered self segment w = (w', r) → run_invariant n (w', ws).
Proof using Type.
  intros Hinv Hrun. pose proof (ri_wf _ _ Hinv) as Hwf. cbn [fst] in Hwf.
  apply mark_delivered_run in Hrun as [_ Hcases]; [|done].
  destruct Hcases as [[G _]|(c & [(k & i & Hown & _) _] & m & y & Hn & Ht & Hch & Hwf' & _)]; [by eapply invariant_glanced|].
  apply owned_split in Hown as [Ep Eq]. specialize (Eq DELIVERED_EXTENSION). rewrite Eq, Ep in *.
  pose proof (no_dot_lifecycle) as (_ & _ & _ & Hrd & _).
  assert (input_directory self k ++ [segment_file_name i READY_EXTENSION]
    ≠ input_directory self k ++ [segment_file_name i DELIVERED_EXTENSION]) as Hne
    by (intros E; apply entry_inj in E as (_ & _ & E); done).
  destruct (renamed_lookup _ _ _ _ _ Hne Ht) as (Hp & Hq & _).
  eapply invariant_entries; [exact Hinv|done|exact Hch| |].
  - intros q [->|[->|[]%elem_of_nil]%elem_of_cons]%elem_of_cons; by eexists _, _.
  - destruct (decide (k = key ∧ i = id)) as [[-> ->]|Hother].
    + right. split; [done|]. right. split; [done|]. unfold segment_delivered, segment_dir. rewrite Hq.
      assert (located n (tree (disk w))) as [[E _]|[E _]] by (apply (ri_located _ _ Hinv); left);
        unfold segment_ready, segment_dir in E; rewrite E in Hn; [by injection Hn as <-|done].
    + left. unfold segment_ready, segment_delivered, segment_dir.
      split; rewrite !not_elem_of_cons; (split; [|split; [|apply not_elem_of_nil]]); intros E; apply entry_inj in E as (? & ? & ?);
        try (apply Hother; by split); try done; congruence.
Qed.

Lemma invariant_compact segment n w ws w' r :
  run_invariant n (w, ws) → compact_delivered self segment w = (w', r) → delivered_path segment ≠ segment_delivered →
  run_invariant n (w', ws).
Proof using Type.
  intros Hinv Hrun Hpath. pose proof (ri_wf _ _ Hinv) as Hwf. cbn [fst] in Hwf.
  apply compact_delivered_run in Hrun; [|done].
  destruct Hrun as [[G _]|(c & [(k & i & Hown & _) _] & _ & Ht & Hwf' & Hch & _)]; [by eapply invariant_glanced|].
  apply owned_split in Hown as [Ep _]. cbn [as_ready ready_path] in Ep.
  eapply invariant_entries; [exact Hinv|done|exact Hch| |].
  - intros q ->%list_elem_of_singleton. rewrite Ep. by eexists _, _.
  - left. rewrite !list_elem_of_singleton. split; [|congruence]. rewrite Ep.
    intros E. apply entry_inj in E as (_ & _ & E). by apply no_dot_lifecycle in E.
Qed.

Lemma placed_begun header w w' wr :
  wf_tree (tree (disk w)) → begin_segment self header w = (w', Ok wr) → placed self (tree (disk w')) wr.
Proof using All.
  intros Hwf Hb. apply begin_segment_ok in Hb as (_ & E1 & E2 & _ & salt & e & Hw); [|done].
  destruct Hw as [_ _ Hp Hf _ _ Hd _]. rewrite E1 in *. split; [done|done|done|by eexists].
Qed.

Lemma live_writer n w ws wr ws' :
  run_invariant n (w, ws ++ wr :: ws') →
  wf_tree (tree (disk w)) ∧ placed self (tree (disk w)) wr ∧ is_dir_at (tree (disk w)) (writer_dir wr)
  ∧ elsewhere (writer_area wr).
Proof using Type.
  intros [Hwf Hws _]. cbn [fst snd] in *. rewrite Forall_forall in Hws.
  destruct (Hws wr) as [Hpl Ho]; [apply elem_of_app; right; by left|].
  split; [done|]. split; [done|]. split; [apply (pl_dir _ _ _ Hpl)|by eapply writer_elsewhere].
Qed.

Lemma invariant_consumed {A} (m : st (world * SegmentWriter) SpoolError A) n w ws wr ws' w' r :
  run_invariant n (w, ws ++ wr :: ws') → keeps_target m →
  (∀ t, placed self t wr → is_dir_at (tree (disk w)) (writer_dir wr) →
     changes_only (writer_area wr) w (m (w, wr)).1.1) →
  consuming m wr w = (w', r) → run_invariant n (w', ws ++ ws').
Proof using Type.
  intros Hinv Hk Hm Hrun. destruct (live_writer _ _ _ _ _ Hinv) as (Hwf & Hpl & Hd & Hel).
  eapply invariant_elsewhere; [exact Hinv| |exact Hel|].
  - pose proof (consuming_footprint m _ _ _ Hwf Hpl Hd Hk (Hm _ Hpl Hd)) as Hc. by rewrite Hrun in Hc.
  - intros wr' Hin. right. exists wr'. split; [|done]. rewrite !elem_of_app, elem_of_cons in *. tauto.
Qed.

Lemma looking_list_ready : looking (list_ready self).
Proof using Type. unfold list_ready. looking. Qed.
Lemma looking_list_delivered : looking (list_delivered self).
Proof using Type. unfold list_delivered. looking. Qed.

Lemma spool_step_invariant n s s' : run_invariant n s → spool_step s s' → run_invariant n s'.
Proof using All.
  intros Hinv Hstep. pose proof (ri_wf _ _ Hinv) as Hwf. destruct Hstep as
    [header w w' r ws Hrun Hother|ev w wr w' wr' r ws ws' Hrun|m w wr w' r ws ws' Hrun|w wr w' r ws ws' Hrun
    |w wr w' r ws ws' Hrun|segment w w' r ws Hrun|segment w w' r ws Hrun Hpath|w w' r ws Hrun|w w' r ws Hrun
    |segment w w' r ws Hrun]; cbn [fst] in Hwf.
  - eapply invariant_elsewhere; [exact Hinv| |apply (begin_elsewhere (input_key header))|].
    + pose proof (begin_footprint header w Hwf) as Hf. by rewrite Hrun in Hf.
    + destruct r as [wr|e]; intros wr'; [intros [->|Hin]%elem_of_cons|intros Hin]; [|right; by exists wr'..].
      left. split; [by apply Hother|]. by eapply placed_begun.
  - destruct (live_writer _ _ _ _ _ Hinv) as (_ & Hpl & Hd & Hel).
    eapply invariant_elsewhere; [exact Hinv| |exact Hel|].
    + pose proof (append_footprint _ ev _ _ Hwf Hpl Hd) as Hf. by rewrite Hrun in Hf.
    + intros wr0 Hin. right. pose proof (append_keeps_target ev (w, wr)) as Ht. rewrite Hrun in Ht. cbn [fst snd] in Ht.
      rewrite elem_of_app, elem_of_cons in Hin. destruct Hin as [?|[->|?]]; [exists wr0|exists wr|exists wr0];
        rewrite elem_of_app, elem_of_cons; (split; [tauto|done]).
  - eapply invariant_consumed; [exact Hinv|apply seal_keeps_target| |exact Hrun]. intros t. by apply seal_footprint.
  - eapply invariant_consumed; [exact Hinv|apply abort_keeps_target| |exact Hrun]. intros t. by apply abort_footprint.
  - eapply (invariant_consumed (mret tt)); [exact Hinv|apply kt_ret| |].
    + intros t _ _. by apply changes_only_refl.
    + unfold consuming. cbn. rewrite Hrun. reflexivity.
  - by eapply invariant_deliver.
  - by eapply invariant_compact.
  - eapply invariant_glanced; [exact Hinv|]. exact (looking_run _ _ _ _ looking_list_ready Hrun).
  - eapply invariant_glanced; [exact Hinv|]. exact (looking_run _ _ _ _ looking_list_delivered Hrun).
  - eapply invariant_glanced; [exact Hinv|]. exact (looking_run _ _ _ _ (looking_reader _ _) Hrun).
Qed.

(** C29: a sealed segment survives: along every run of the spool's operations, with any
    outcomes, failures and moments of a crash, it is found in every version at exactly
    one of its ready and delivered paths with the node it had; only the compaction of
    this very segment can delete it. *)
Theorem sealed_segments_survive n s s' :
  rtc spool_step s s' → run_invariant n s →
  ∀ v, v ∈ versions (disk s'.1) →
    (v !! segment_ready = Some n ∧ v !! segment_delivered = None)
    ∨ (v !! segment_ready = None ∧ v !! segment_delivered = Some n).
Proof using All.
  intros Hsteps Hinv. apply ri_located. eapply (rtc_invariant spool_step); [|done|done].
  intros a b Ha. by apply spool_step_invariant.
Qed.
End Runs.
