(* ===== verification/SpoolScan.v ===== *)
(** * Walking the spool's directories

    The nested loops over the input directories of a root and their files: what they
    visit, and with that what the listings and the startup accounting return. *)

From stdpp Require Import lexico sorting.
From S2P Require Export SpoolDelivery SpoolQuotaProps.

Local Open Scope N_scope.

(** ** Directory entries *)

Lemma read_dir_ok p s s' names :
  wf_tree (tree s) → plain p (tree s) → read_dir p s = (s', Ok names) →
  NoDup names ∧ ∀ n, n ∈ names ↔ is_Some (tree s !! (p ++ [n])).
Proof.
  intros Hwf Hp [[_ [? ?]]|[l Hrun]]%syscall_cases; [done|].
  unfold mbind, st_bind in Hrun. rewrite locate_eq, set_faults_tree in Hrun.
  destruct (resolve MAX_LINKS (tree s) true p) as [q|k] eqn:Er; [|done]. apply (resolve_plain _ _ _ _ _ Hp) in Er as ->.
  rewrite node_at_eq, set_faults_tree in Hrun. destruct (tree s !! p) as [[m|m c y|t]|] eqn:En; cbn in Hrun; try done.
  injection Hrun as _ <-. set (keys := (map_to_list (tree s)).*1).
  assert (NoDup keys) as Hnd by apply NoDup_fst_map_to_list.
  assert (∀ q n, q ∈ filter (λ q, parent q = Some p) keys → file_name q = Some n → q = p ++ [n]) as Hchild.
  { intros q n [Hpar _]%list_elem_of_filter Hn. apply parent_some in Hpar as [x ->]. rewrite file_name_app in Hn.
    by injection Hn as ->. }
  split.
  - assert (NoDup (filter (λ q, parent q = Some p) keys)) as Hnd' by by apply NoDup_filter.
    clear En Hnd. revert Hchild Hnd'. fold keys.
    induction (filter _ keys) as [|q l' IH]; intros Hchild Hnd; cbn [omap list_omap]; [constructor|].
    apply NoDup_cons in Hnd as [Hni Hnd].
    destruct (file_name q) as [n|] eqn:Efn.
    + constructor; [|apply IH; [intros; apply Hchild; [by right|done]|done]].
      intros (q' & Hq' & En')%list_elem_of_omap.
      assert (q' = q) as -> by (rewrite (Hchild q n), (Hchild q' n); [done|by right|done|by left|done]). done.
    + apply IH; [intros; apply Hchild; [by right|done]|done].
  - intros n. rewrite list_elem_of_omap. split.
    + intros (q & Hq & Hn). pose proof (Hchild q n Hq Hn) as ->. apply list_elem_of_filter in Hq as [_ Hk].
      apply list_elem_of_fmap in Hk as ([k v] & E & Hk%elem_of_map_to_list). cbn in E. subst k. by exists v.
    + intros [v Hv]. exists (p ++ [n]). split; [|apply file_name_app]. apply list_elem_of_filter.
      split; [apply parent_snoc|]. apply list_elem_of_fmap. exists (p ++ [n], v). split; [done|].
      by apply elem_of_map_to_list.
Qed.

Lemma read_directory_ok p stage s s' names :
  wf_tree (tree s) → read_directory p stage s = (s', Ok names) →
  private_directory (tree s) p ∧ NoDup names ∧ ∀ n, n ∈ names ↔ is_Some (tree s !! (p ++ [n])).
Proof.
  intros Hwf. unfold read_directory. intros ([] & s1 & Hval & Hrun)%st_bind_ok.
  pose proof (validate_private_directory_ok _ _ _ Hwf Hval) as Hd. split; [done|].
  destruct (read_only_same _ _ _ _ (ro_validate_private_directory _) Hval) as [l ->].
  apply st_map_err_ok in Hrun. destruct Hd as [Hp _]. by apply (read_dir_ok p _ _ _) in Hrun.
Qed.

(** ** Loops *)

Lemma for_entries_from {A} (I : list name → A → Prop) (t : tree_t) f acc visited names w w' acc' :
  (∀ acc n, looking (f acc n)) → tree (disk w) = t → NoDup (visited ++ names) → I visited acc →
  (∀ visited n acc acc' w1 w2, I visited acc → n ∈ names → n ∉ visited → tree (disk w1) = t → f acc n w1 = (w2, Ok acc') →
     I (visited ++ [n]) acc') →
  for_entries f acc names w = (w', Ok acc') → I (visited ++ names) acc'.
Proof.
  intros Hf. revert visited acc w. induction names as [|n names IH]; intros visited acc w Ht Hnd H0 Hstep; cbn [for_entries].
  - intros ([] & w1 & _ & [= _ ->])%st_bind_ok. by rewrite app_nil_r.
  - intros ([] & w1 & Hn & Hrun)%st_bind_ok. apply st_bind_ok in Hrun as (acc1 & w2 & H1 & Hrun).
    pose proof (glanced_tree _ _ (looking_run _ _ _ _ (looking_disk _ ro_next_entry) Hn)) as T1. rewrite Ht in T1.
    pose proof (glanced_tree _ _ (looking_run _ _ _ _ (Hf _ _) H1)) as T2. rewrite T1 in T2.
    assert (n ∉ visited) as Hnew.
    { intros Hv. apply NoDup_app in Hnd as (_ & Hdis & _). apply (Hdis n Hv). by left. }
    replace (visited ++ n :: names) with ((visited ++ [n]) ++ names) in * by (by rewrite <- app_assoc).
    apply (IH (visited ++ [n]) acc1 w2 T2 Hnd); [exact (Hstep _ _ _ _ _ _ H0 (list_elem_of_here _ _) Hnew T1 H1)| |exact Hrun].
    intros. eapply Hstep; eauto. by right.
Qed.

(** The nested loop over the input directories of [root] and their files. *)
Definition walk_inputs {A} (root : path) (stage : string) (g : A → InputKey → path → spool A) (acc : A) : spool A :=
  inputs ← on_disk (read_directory root stage);
  for_entries (λ acc input_entry,
    let input_path := FileSystem.join root input_entry in
    input_key' ← on_disk (validate_input_directory input_path);
    files ← on_disk (read_directory input_path stage);
    for_entries (λ acc file_entry, g acc input_key' (FileSystem.join input_path file_entry)) acc files) acc inputs.

(** The files a walk visits: everything two levels below the root. *)
Definition file_below (root : path) (t : tree_t) (p : path) : Prop :=
  ∃ d n, p = root ++ [d; n] ∧ is_Some (t !! p).
Definition file_of_input (root : path) (key : InputKey) (p : path) : Prop :=
  ∃ n, p = root ++ [encode_hex (vec_to_list key); n].

Lemma walk_one_input {A} (I : list path → A → Prop) root stage (g : A → InputKey → path → spool A) t
    (Hwf : wf_tree t) (Hg : ∀ acc k p, looking (g acc k p))
    (Hstep : ∀ visited k p acc acc' w1 w2, I visited acc → file_of_input root k p → tree (disk w1) = t →
     g acc k p w1 = (w2, Ok acc') → I (visited ++ [p]) acc')
    visited d a a' w2 w3 ps :
  I ps a → NoDup ps → (∀ p, p ∈ ps ↔ ∃ d n, p = root ++ [d; n] ∧ is_Some (t !! p) ∧ d ∈ visited) →
  d ∉ visited → tree (disk w2) = t →
  (input_key' ← on_disk (validate_input_directory (FileSystem.join root d));
   files ← on_disk (read_directory (FileSystem.join root d) stage);
   for_entries (λ acc file_entry, g acc input_key' (FileSystem.join (FileSystem.join root d) file_entry)) a files) w2 = (w3, Ok a') →
  ∃ ps, I ps a' ∧ NoDup ps
    ∧ ∀ p, p ∈ ps ↔ ∃ d' n, p = root ++ [d'; n] ∧ is_Some (t !! p) ∧ d' ∈ visited ++ [d].
Proof.
  intros Hps Hndp Hmem Hnew Hw2 (key & w4 & Hkey & Hrun)%st_bind_ok.
  pose proof (glanced_tree _ _ (looking_run _ _ _ _ (looking_disk _ (ro_validate_input_directory _)) Hkey)) as T4.
  rewrite Hw2 in T4. apply on_disk_ok in Hkey as (s & Hkey & ->). rewrite <- Hw2 in Hwf.
  apply validate_input_directory_ok in Hkey as [_ (d0 & Ed)]; [|done].
  apply app_inj_2 in Ed as [_ [= Ed]]; [|done].
  apply st_bind_ok in Hrun as (files & w5 & Hfiles & Hrun).
  pose proof (glanced_tree _ _ (looking_run _ _ _ _ (looking_disk _ (ro_read_directory _ _)) Hfiles)) as T5. rewrite T4 in T5.
  apply on_disk_ok in Hfiles as (s5 & Hfiles & ->). apply read_directory_ok in Hfiles as (_ & Hndf & Hallf);
    [|by rewrite T4, <- Hw2].
  rewrite T4 in Hallf.
  assert (∀ n, FileSystem.join (FileSystem.join root d) n = root ++ [d; n]) as Ejoin
    by (intros n; unfold FileSystem.join; by rewrite <- app_assoc).
  exists (ps ++ ((λ n, root ++ [d; n]) <$> files)). split; [|split].
  - refine (for_entries_from (λ vf acc, I (ps ++ ((λ n, root ++ [d; n]) <$> vf)) acc) t _ a [] files _ w3 a' _ T5 Hndf _ _ Hrun).
    + intros; apply Hg.
    + cbn [fmap list_fmap]. by rewrite app_nil_r.
    + intros vf n acc acc' w6 w7 HI _ _ Hw6 Hbody. rewrite fmap_app, app_assoc. cbn [fmap list_fmap].
      rewrite Ejoin in Hbody. eapply Hstep; [exact HI| |exact Hw6|exact Hbody]. exists n. by rewrite Ed.
  - apply NoDup_app. split; [done|]. split.
    + intros p (d' & n & -> & _ & Hv)%Hmem (n' & E & _)%list_elem_of_fmap. apply app_inv_head in E as [= -> _]. done.
    + apply NoDup_fmap_2; [|done]. intros n n' E. apply app_inv_head in E. congruence.
  - intros p. rewrite elem_of_app, Hmem, list_elem_of_fmap. split.
    + intros [(d' & n & -> & ? & ?)|(n & -> & Hn)].
      * exists d', n. split; [done|]. split; [done|]. apply elem_of_app. by left.
      * exists d, n. split; [done|]. split; [|apply elem_of_app; right; by left]. apply Hallf in Hn.
        unfold FileSystem.join in Hn. by rewrite <- app_assoc in Hn.
    + intros (d' & n & -> & Hp & [Hv|Hv%list_elem_of_singleton]%elem_of_app); [left; by exists d', n|].
      right. subst d'. exists n. split; [done|]. apply Hallf. unfold FileSystem.join. by rewrite <- app_assoc.
Qed.

Lemma walk_inputs_ok {A} (I : list path → A → Prop) root stage g acc w w' acc' :
  wf_tree (tree (disk w)) → (∀ acc k p, looking (g acc k p)) → I [] acc →
  (∀ visited k p acc acc' w1 w2, I visited acc → file_of_input root k p → tree (disk w1) = tree (disk w) →
     g acc k p w1 = (w2, Ok acc') → I (visited ++ [p]) acc') →
  walk_inputs root stage g acc w = (w', Ok acc') →
  ∃ ps, I ps acc' ∧ NoDup ps ∧ ∀ p, p ∈ ps ↔ file_below root (tree (disk w)) p.
Proof.
  intros Hwf Hg H0 Hstep. unfold walk_inputs. intros (inputs & w1 & Hin & Hrun)%st_bind_ok.
  pose proof (glanced_tree _ _ (looking_run _ _ _ _ (looking_disk _ (ro_read_directory _ _)) Hin)) as T1.
  apply on_disk_ok in Hin as (d1 & Hin & ->). apply read_directory_ok in Hin as (_ & Hnd & Hall); [|done].
  set (t := tree (disk w)) in *.
  assert (∀ acc n, looking (E := SpoolError) (
    let input_path := FileSystem.join root n in
    input_key' ← on_disk (validate_input_directory input_path);
    files ← on_disk (read_directory input_path stage);
    for_entries (λ acc file_entry, g acc input_key' (FileSystem.join input_path file_entry)) acc files)) as Hlook.
  { intros acc0 n. cbn zeta. looking. apply looking_for_entries. intros; apply Hg. }
  assert (∃ ps, I ps acc' ∧ NoDup ps ∧ ∀ p, p ∈ ps ↔ ∃ d n, p = root ++ [d; n] ∧ is_Some (t !! p) ∧ d ∈ inputs) as (ps & Hps & Hndps & Hmem).
  { refine (for_entries_from (λ visited a, ∃ ps, I ps a ∧ NoDup ps ∧ ∀ p, p ∈ ps ↔ ∃ d n, p = root ++ [d; n] ∧ is_Some (t !! p) ∧ d ∈ visited)
      t _ acc [] inputs _ w' acc' Hlook T1 Hnd _ _ Hrun).
    - exists []. split; [done|]. split; [constructor|]. intros p. split; [by intros ?%elem_of_nil|].
      by intros (? & ? & _ & _ & ?%elem_of_nil).
    - intros visited d a a' w2 w3 (ps & Hps & Hndp & Hmem) _ Hnew Hw2. cbn zeta.
      intros Hbody. by apply (walk_one_input I root stage g t Hwf Hg Hstep visited d a a' w2 w3 ps). }
  exists ps. split; [done|]. split; [done|]. intros p. rewrite Hmem. split.
  - intros (d & n & -> & Hp & _). by exists d, n.
  - intros (d & n & -> & Hp). exists d, n. split; [done|]. split; [done|]. apply Hall.
    destruct Hp as [v Hv]. change [d; n] with ([d] ++ [n]) in Hv. rewrite app_assoc in Hv.
    destruct (wf_parent _ Hwf _ _ _ Hv) as [m ?]. by eexists.
Qed.

(** ** The listings *)

Definition has_extension (ext : name) (p : path) : Prop := (n ← file_name p; extension n) = Some ext.
#[global] Instance has_extension_dec ext p : Decision (has_extension ext p).
Proof. unfold has_extension. apply _. Defined.

Lemma extension_segment id ext : DOT ∉ ext → extension (segment_file_name id ext) = Some ext.
Proof.
  intros Hext. unfold extension, segment_file_name. destruct (encode_hex_cons id) as (b & l & Hid).
  assert (last_dot (encode_hex (vec_to_list id) ++ DOT :: ext) = Some (b :: l, ext)) as ->; [|done].
  rewrite <- Hid. by apply last_dot_some.
Qed.

#[global] Instance sort_le_trans : Transitive sort_le.
Proof.
  intros a b c Hab Hbc Hca. unfold sort_le in *.
  destruct (trichotomyT lexico (sort_key a) (sort_key b)) as [[Hlt|He]|Hgt]; [| |contradiction].
  - apply Hbc. by transitivity (sort_key a).
  - rewrite He in Hca. contradiction.
Qed.
#[global] Instance sort_le_total : Total sort_le.
Proof.
  intros a b. unfold sort_le. destruct (trichotomyT lexico (sort_key a) (sort_key b)) as [[Hlt|He]|Hgt].
  - left. intros Hba. apply (irreflexivity lexico (sort_key a)). by transitivity (sort_key b).
  - left. rewrite He. apply irreflexivity, _.
  - right. intros Hab. apply (irreflexivity lexico (sort_key a)). by transitivity (sort_key b).
Qed.

Lemma ord_bytes_inj {n} (a b : array n) : ord_bytes a = ord_bytes b → a = b.
Proof.
  unfold ord_bytes. intros E. apply vec_to_list_inj2. revert E. generalize (vec_to_list a), (vec_to_list b).
  intros l. induction l as [|x l IH]; intros [|y k]; try done. cbn. intros [= Hx Hl]. f_equal; [|by apply IH].
  apply (f_equal Byte.of_N) in Hx. rewrite !Byte.of_to_N in Hx. by injection Hx.
Qed.

Section Listing.
Context `{Sha256, Crypto}.
Context (self : Spool).

(** A listed segment: its file is private, in the directory of its own input under its
    own name, and authenticates as exactly this segment. *)
Definition listed (t : tree_t) (ext : name) (s : ReadySegment) : Prop :=
  owned self (ready_path s) (input_key (ready_header s)) (ready_segment_id s) ext
  ∧ ∃ c, private_regular t (ready_path s) c
      ∧ ∃ i, sealed_content (spool_key self) (limit_segment (limits self)) c i ∧ handle_of i s.

Lemma listed_path_key t ext s s' :
  listed t ext s → listed t ext s' → sort_key s = sort_key s' → ready_path s = ready_path s'.
Proof using Type.
  intros [[-> _] _] [[-> _] _]. unfold sort_key. intros E. injection E as E1 _ _ _ E2.
  by apply ord_bytes_inj in E1 as ->; apply ord_bytes_inj in E2 as ->.
Qed.

Lemma scan_lifecycle_walk ext :
  scan_lifecycle self ext = walk_inputs (segments self) "inventory_scan" (λ found input_key' p,
    '(segment_id, state) ← st_lift (parse_segment_name p);
    if decide (state ≠ ext) then mret found else
    inspected ← inspect_segment p (spool_key self) (limit_segment (limits self));
    (if decide (input_key (inspected_header inspected) ≠ input_key' ∨ inspected_segment_id inspected ≠ segment_id)
     then mthrow identity_mismatch else mret (found ++ [InspectedSegment_as p inspected]))) [].
Proof using Type. reflexivity. Qed.

Lemma scan_lifecycle_ok ext w w' found :
  wf_tree (tree (disk w)) → scan_lifecycle self ext w = (w', Ok found) →
  NoDup (ready_path <$> found)
  ∧ (∀ p, p ∈ ready_path <$> found ↔ file_below (segments self) (tree (disk w)) p ∧ has_extension ext p)
  ∧ Forall (listed (tree (disk w)) ext) found.
Proof using Type.
  intros Hwf. rewrite scan_lifecycle_walk. intros Hrun.
  apply (walk_inputs_ok (λ ps found, ready_path <$> found = filter (has_extension ext) ps
    ∧ Forall (listed (tree (disk w)) ext) found)) in Hrun; [|done| |by split|].
  - destruct Hrun as (ps & [E Hall] & Hnd & Hmem). split; [rewrite E; by apply NoDup_filter|]. split; [|done].
    intros p. rewrite E, list_elem_of_filter, Hmem. tauto.
  - intros acc k p. looking.
  - clear w' found Hrun. intros ps k p found found' w1 w2 [E Hall] (n & Hp) Ht Hrun.
    apply st_bind_ok in Hrun as ([id state] & w3 & [-> Hname]%st_lift_ok & Hrun).
    apply parse_segment_name_ok in Hname as (d & Ep & Hdot & Hu).
    assert (has_extension ext p ↔ state = ext) as Hext.
    { unfold has_extension. rewrite Ep, file_name_app, some_bind, extension_segment by done. naive_solver. }
    rewrite filter_app. cbn [filter list_filter]. case_decide as Hst.
    + injection Hrun as <- <-. split; [|done]. rewrite decide_False by naive_solver. by rewrite app_nil_r.
    + apply st_bind_ok in Hrun as (i & w4 & Hi & Hrun). case_decide as Hid; [done|]. injection Hrun as <- <-.
      assert (state = ext) as -> by (by destruct (decide (state = ext))). rewrite decide_True by naive_solver.
      rewrite fmap_app. cbn [fmap list_fmap InspectedSegment_as ready_path]. split; [by rewrite E|].
      apply Forall_app. split; [done|]. apply Forall_singleton.
      apply Decidable.not_or in Hid as [Hk%dec_stable Hs%dec_stable].
      apply inspect_segment_ok in Hi as (c & Hreg & Hc); [|by rewrite Ht]. rewrite Ht in Hreg.
      split; [|exists c; split; [done|]; exists i; by split].
      assert (n = segment_file_name id ext) as ->.
      { apply (f_equal file_name) in Hp. rewrite Ep, file_name_app in Hp. unfold file_name in Hp.
        rewrite last_app in Hp. by injection Hp. }
      unfold owned. cbn. by rewrite Hk, Hs.
Qed.

Lemma sorted_strict l ext t :
  StronglySorted sort_le l → NoDup (ready_path <$> l) → Forall (listed t ext) l →
  StronglySorted (λ a b, lexico (sort_key a) (sort_key b)) l.
Proof using Type.
  intros Hs. induction Hs as [|a l Hs IH Ha]; intros Hnd Hl; [constructor|].
  cbn [fmap list_fmap] in Hnd. apply NoDup_cons in Hnd as [Hni Hnd]. apply Forall_cons in Hl as [Hla Hl].
  constructor; [by apply IH|]. rewrite Forall_forall in *. intros b Hb. specialize (Ha b Hb). unfold sort_le in Ha.
  destruct (trichotomyT lexico (sort_key a) (sort_key b)) as [[Hlt|He]|Hgt]; [done| |contradiction].
  destruct Hni. rewrite (listed_path_key _ _ _ _ Hla (Hl b Hb) He). apply list_elem_of_fmap. by exists b.
Qed.

(** listing the ready segments changes nothing and returns exactly the ready files
    below the spool's root, each of which is private, is stored under its own identity
    and authenticates; in the strict order of input, batch sequence, batch, segment
    sequence and identity, whatever order the directories were read in. *)
Theorem list_ready_exact w w' l :
  wf_tree (tree (disk w)) → list_ready self w = (w', Ok l) →
  glanced w w'
  ∧ (∀ p, p ∈ ready_path <$> l ↔ file_below (segments self) (tree (disk w)) p ∧ has_extension READY_EXTENSION p)
  ∧ Forall (listed (tree (disk w)) READY_EXTENSION) l
  ∧ StronglySorted (λ a b, lexico (sort_key a) (sort_key b)) l.
Proof using Type.
  intros Hwf Hrun. split. { eapply looking_run; [|exact Hrun]. unfold list_ready. looking. }
  unfold list_ready in Hrun. apply st_bind_ok in Hrun as (found & w1 & Hscan & [= _ <-]).
  apply scan_lifecycle_ok in Hscan as (Hnd & Hmem & Hall); [|done].
  pose proof (merge_sort_Permutation sort_le found) as Hperm. unfold sort_by_key.
  assert (Forall (listed (tree (disk w)) READY_EXTENSION) (merge_sort sort_le found)) as Hall' by (by rewrite Hperm).
  split; [|split; [done|]].
  - intros p. rewrite <- Hmem. by rewrite Hperm.
  - eapply sorted_strict; [apply (StronglySorted_merge_sort sort_le)| |exact Hall']. by rewrite Hperm.
Qed.
End Listing.
