(* ===== verification/SpoolStartup.v ===== *)
(** * Opening a spool

    The startup recovery and the accounting rebuilt from the files on disk. *)

From S2P Require Export SpoolScan SpoolWriting.

Local Open Scope N_scope.

(** ** Every call keeps the tree well formed *)

Definition anywhere (_ : path) (_ : option node) : Prop := True.

Lemma base_anywhere t ps t' ps' : wf_tree t' → base anywhere t ps t' ps'.
Proof. intros Hwf. split; [done|]. split; [by right|]. intros v d _. exists t. split; [left|by right]. Qed.

Abbreviation keeps_wf m := (footprint_in anywhere (λ _, True) m).
Abbreviation spool_keeps_wf m := (spool_footprint anywhere (λ _, True) m).

Lemma rename_keeps_wf p p' : keeps_wf (rename_file p p').
Proof.
  apply fpi_syscall. intros s Hwf _. apply base_anywhere. unfold mbind, st_bind.
  rewrite locate_eq. destruct (resolve MAX_LINKS (tree s) false p) as [q|k] eqn:Eq; [|exact Hwf].
  rewrite locate_eq. destruct (resolve MAX_LINKS (tree s) false p') as [q'|k] eqn:Eq'; [|exact Hwf].
  rewrite node_at_eq. destruct (tree s !! q) as [n|] eqn:En; [|exact Hwf].
  apply resolve_parent in Eq' as Hpar.
  assert (is_dir n = false → ¬ is_dir_at (tree s) q' → wf_tree (<[q' := n]> (delete q (tree s)))) as Hgo.
  { intros Hn Hno. assert (¬ is_dir_at (tree s) q) as Hnq by (intros [m E]; rewrite En in E; by injection E as ->).
    apply wf_insert; [by apply wf_delete| |right].
    - destruct Hpar as [->|(d & x & -> & m & Hd)]; [by destruct Hno; apply wf_root|].
      destruct (d ++ [x]) as [|z l] eqn:El; [by destruct d|]. rewrite <- El. exists d, x. split; [done|].
      exists m. rewrite lookup_delete_ne; [done|]. intros ->. apply Hnq. by exists m.
    - intros [m Em]. apply Hno. exists m. by apply lookup_delete_Some in Em as [_ ?]. }
  destruct n as [m|m c y|t]; cbn; [exact Hwf|..];
    (destruct (tree s !! q') as [[| |]|] eqn:Ep; cbn; [exact Hwf|apply Hgo; [done|intros [? ?]; congruence]..]).
Qed.

Lemma sync_keeps_wf q : keeps_wf (sync q).
Proof.
  apply fpi_syscall. intros s Hwf _. apply base_anywhere. unfold mbind, st_bind. rewrite node_at_eq.
  destruct (tree s !! q) as [[m|m c y|t]|] eqn:En; cbn; [exact Hwf|by eapply wf_overwrite|exact Hwf..].
Qed.

Lemma always_true : ∀ t ps t' ps', (λ _ : tree_t, True) t → base anywhere t ps t' ps' → (λ _ : tree_t, True) t'.
Proof. done. Qed.

Lemma keeps_wf_run {B} (m : spool B) w w' r :
  spool_keeps_wf m → wf_tree (tree (disk w)) → m w = (w', r) → wf_tree (tree (disk w')).
Proof. intros Hm Hw E. pose proof (Hm w Hw I) as Hb. rewrite E in Hb. apply Hb. Qed.

Lemma ensure_keeps_wf d : keeps_wf (ensure_private_directory d).
Proof.
  intros s Hwf _. destruct (ensure_private_directory d s) as [s' r] eqn:E.
  apply ensure_private_directory_run in E as [[Hwf' _] _]; [|done]. by apply base_anywhere.
Qed.

Lemma sync_directory_keeps_wf d stage : keeps_wf (sync_directory d stage).
Proof.
  unfold sync_directory. apply fpi_bind; [exact always_true|apply fpi_read_only; auto with ro|]. intros [].
  apply fpi_map_err, fpi_bind; [exact always_true|apply fpi_read_only; auto with ro|]. intros q. apply sync_keeps_wf.
Qed.

Ltac keeps_wf :=
  repeat first
    [ progress cbn zeta
    | apply ensure_keeps_wf | apply sync_directory_keeps_wf
    | apply fpi_bind; [exact always_true| |intros ?]
    | apply fpi_map_err, rename_keeps_wf
    | apply fpi_read_only; solve [read_only]
    | case_decide ].

Lemma quarantine_file_keeps_wf input_path root k id p : keeps_wf (quarantine_file input_path root k id p).
Proof. unfold quarantine_file. keeps_wf. Qed.

Lemma for_entries_keeps_wf {A} (f : A → name → spool A) acc names :
  (∀ acc n, spool_keeps_wf (f acc n)) → spool_keeps_wf (for_entries f acc names).
Proof.
  intros Hf. revert acc. induction names as [|n names IH]; intros acc; cbn [for_entries];
    (apply fp_bind; [exact always_true|apply fp_looking, looking_disk, ro_next_entry|]); intros [].
  - apply fp_ret.
  - apply fp_bind; [exact always_true|apply Hf|]. intros acc'. apply IH.
Qed.

Lemma recover_keeps_wf segments_root quarantine_root :
  spool_keeps_wf (recover_open_segments segments_root quarantine_root).
Proof.
  unfold recover_open_segments. apply fp_bind; [exact always_true|apply fp_looking; looking|]. intros inputs.
  apply for_entries_keeps_wf. intros n d. cbn zeta.
  apply fp_bind; [exact always_true|apply fp_looking; looking|]. intros key.
  apply fp_bind; [exact always_true|apply fp_looking; looking|]. intros files.
  apply for_entries_keeps_wf. intros n' x. cbn zeta.
  apply fp_bind; [exact always_true|apply fp_lift|]. intros [id ext]. case_decide; [apply fp_ret|].
  apply fp_bind; [exact always_true|apply fp_disk, quarantine_file_keeps_wf|]. intros []. apply fp_lift.
Qed.

(** ** The accounting rebuilt at startup *)

Section Startup.
Context `{Sha256, Crypto}.

(** A file with what the accounting charges for it. *)
Abbreviation charge := (path * (InputKey * N))%type.

Definition charged (root : path) (t : tree_t) (f : charge) : Prop :=
  file_of_input root f.2.1 f.1 ∧ ∃ c, private_regular t f.1 c ∧ f.2.2 = lengthN c.

(** After visiting [ps] the accounting is that of one charge per file. *)
Definition charged_walk (limits : SpoolLimits) (root : path) (t : tree_t) (l : list (InputKey * N))
    (Q : path → Prop) (ps : list path) (a : Accounting) : Prop :=
  ∃ files : list charge, files.*1 = ps ∧ Forall (charged root t) files ∧ Forall Q ps
    ∧ represents limits a (mkLedger (rev (files.*2) ++ l) []).

Lemma scan_add_ok limits key bytes a a' l :
  represents limits a (mkLedger l []) → scan_add key bytes a = Ok a' →
  represents limits a' (mkLedger ((key, bytes) :: l) []).
Proof using Type.
  intros Hrep. unfold scan_add. destruct (add_stored key bytes a) as [x [[]|e]] eqn:E; [|done]. intros [= <-].
  apply (scan_stored_ok limits [(key, bytes)] a l x Hrep). cbn [scan_stored]. unfold mbind, st_bind. by rewrite E.
Qed.

Lemma charged_walk_step limits root t l (Q : path → Prop) ps a a' key p c :
  charged_walk limits root t l Q ps a → file_of_input root key p → private_regular t p c → Q p →
  scan_add key (lengthN c) a = Ok a' → charged_walk limits root t l Q (ps ++ [p]) a'.
Proof using Type.
  intros (files & Ef & Hall & HQ & Hrep) Hp Hc Hq Hadd. exists (files ++ [(p, (key, lengthN c))]).
  rewrite !fmap_app, Ef. split; [done|]. split; [|split].
  - apply Forall_app. split; [done|]. apply Forall_singleton. split; [done|]. by exists c.
  - apply Forall_app. split; [done|]. by apply Forall_singleton.
  - rewrite rev_app_distr. by eapply scan_add_ok.
Qed.

(** Only sealed segments below the segments root, only quarantined files below the other. *)
Definition lifecycle_name (p : path) : Prop := has_extension READY_EXTENSION p ∨ has_extension DELIVERED_EXTENSION p.

(** The bodies of the two scans. *)
Definition scan_sealed (key : SpoolKey) (limits : SpoolLimits) (accounting : Accounting) (input_key' : InputKey)
    (p : path) : spool Accounting :=
  '(segment_id, ext) ← st_lift (parse_segment_name p);
  if decide (ext ≠ READY_EXTENSION ∧ ext ≠ DELIVERED_EXTENSION) then mthrow invalid_path else
  inspected ← inspect_segment p key (limit_segment limits);
  if decide (input_key (inspected_header inspected) ≠ input_key' ∨ inspected_segment_id inspected ≠ segment_id)
  then mthrow identity_mismatch
  else st_lift (scan_add input_key' (inspected_byte_len inspected) accounting).
Definition scan_quarantined (accounting : Accounting) (input_key' : InputKey) (p : path) : spool Accounting :=
  '(_, ext) ← st_lift (parse_segment_name p);
  if decide (ext ≠ QUARANTINE_EXTENSION) then mthrow invalid_path else
  metadata ← on_disk (validate_private_file p);
  st_lift (scan_add input_key' (node_len metadata) accounting).

Lemma looking_walk_inputs {A} root stage (g : A → InputKey → path → spool A) acc :
  (∀ acc k p, looking (g acc k p)) → looking (walk_inputs root stage g acc).
Proof using Type.
  intros Hg. unfold walk_inputs. looking. apply looking_for_entries. intros ??. looking.
  apply looking_for_entries. intros; apply Hg.
Qed.
Lemma looking_scan_sealed key limits acc k p : looking (scan_sealed key limits acc k p).
Proof using Type. unfold scan_sealed. looking. Qed.
Lemma looking_scan_quarantined acc k p : looking (scan_quarantined acc k p).
Proof using Type. unfold scan_quarantined. looking. Qed.

Lemma parsed_extension p id ext : parse_segment_name p = Ok (id, ext) → has_extension ext p.
Proof using Type.
  intros (d & -> & Hdot & _)%parse_segment_name_ok. unfold has_extension.
  by rewrite file_name_app, some_bind, extension_segment.
Qed.

Lemma scan_sealed_ok key limits root stage w w' a :
  wf_tree (tree (disk w)) →
  walk_inputs root stage (scan_sealed key limits) Accounting_default w = (w', Ok a) →
  ∃ ps, charged_walk limits root (tree (disk w)) [] lifecycle_name ps a
    ∧ NoDup ps ∧ ∀ p, p ∈ ps ↔ file_below root (tree (disk w)) p.
Proof using Type.
  intros Hwf. apply walk_inputs_ok; [done|apply looking_scan_sealed| |].
  - exists []. repeat (split; [done|]). apply empty_represents.
  - intros ps k p acc acc' w1 w2 Hacc Hp Ht Hrun. unfold scan_sealed in Hrun.
    apply st_bind_ok in Hrun as ([id ext] & w3 & [-> Hname]%st_lift_ok & Hrun). apply parsed_extension in Hname.
    case_decide as Hext; [done|]. apply st_bind_ok in Hrun as (i & w4 & Hi & Hrun). case_decide; [done|].
    apply st_lift_ok in Hrun as [_ Hadd]. apply inspect_segment_ok in Hi as (c & Hreg & evs & sch & d & d' & _ & _ & _ & _ & _ & _ & _ & Hlen);
      [|by rewrite Ht].
    rewrite Ht in Hreg. rewrite Hlen in Hadd. eapply charged_walk_step; [done|done|done| |done].
    unfold lifecycle_name. destruct (decide (ext = READY_EXTENSION)) as [->|?]; [by left|].
    destruct (decide (ext = DELIVERED_EXTENSION)) as [->|?]; [by right|]. by destruct Hext.
Qed.

Lemma scan_quarantined_ok limits root stage w w' a0 l a :
  wf_tree (tree (disk w)) → represents limits a0 (mkLedger l []) →
  walk_inputs root stage scan_quarantined a0 w = (w', Ok a) →
  ∃ ps, charged_walk limits root (tree (disk w)) l (has_extension QUARANTINE_EXTENSION) ps a
    ∧ NoDup ps ∧ ∀ p, p ∈ ps ↔ file_below root (tree (disk w)) p.
Proof using Type.
  intros Hwf Hrep. apply walk_inputs_ok; [done|apply looking_scan_quarantined| |].
  - exists []. by repeat (split; [done|]).
  - intros ps k p acc acc' w1 w2 Hacc Hp Ht Hrun. unfold scan_quarantined in Hrun.
    apply st_bind_ok in Hrun as ([id ext] & w3 & [-> Hname]%st_lift_ok & Hrun). apply parsed_extension in Hname.
    case_decide as Hext; [done|]. apply st_bind_ok in Hrun as (n & w4 & Hn & Hrun).
    apply st_lift_ok in Hrun as [_ Hadd]. apply on_disk_ok in Hn as (s & Hn & ->).
    apply validate_private_file_ok in Hn as (Hplain & Hnode & m & c & y & -> & Hm); [|by rewrite Ht].
    rewrite Ht in Hplain, Hnode. assert (ext = QUARANTINE_EXTENSION) as -> by (by destruct (decide (ext = QUARANTINE_EXTENSION))).
    eapply charged_walk_step; [done|done| |done|exact Hadd]. split; [done|]. by exists m, y.
Qed.

Lemma scan_accounting_ok segs quarantine key limits w w' a :
  wf_tree (tree (disk w)) → scan_accounting segs quarantine key limits w = (w', Ok a) →
  ∃ files files' : list charge,
    (NoDup files.*1 ∧ (∀ p, p ∈ files.*1 ↔ file_below segs (tree (disk w)) p)
       ∧ Forall (charged segs (tree (disk w))) files ∧ Forall lifecycle_name files.*1)
    ∧ (NoDup files'.*1 ∧ (∀ p, p ∈ files'.*1 ↔ file_below quarantine (tree (disk w)) p)
       ∧ Forall (charged quarantine (tree (disk w))) files' ∧ Forall (has_extension QUARANTINE_EXTENSION) files'.*1)
    ∧ represents limits a (mkLedger (rev files'.*2 ++ rev files.*2) []).
Proof using Type.
  intros Hwf. unfold scan_accounting. intros (inputs & w0 & Hin & Hrun)%st_bind_ok.
  apply st_bind_ok in Hrun as (a1 & w1 & Hloop & Hwalk2).
  assert (walk_inputs segs "inventory_scan" (scan_sealed key limits) Accounting_default w = (w1, Ok a1)) as Hwalk1
    by (apply st_bind_ok; by exists inputs, w0).
  pose proof (glanced_tree _ _ (looking_run _ _ _ _ (looking_walk_inputs _ _ _ _ (looking_scan_sealed key limits)) Hwalk1)) as T1.
  apply (scan_sealed_ok _ _ _ _ _ _ _ Hwf) in Hwalk1 as (ps & (files & <- & Hall & HQ & Hrep) & Hnd & Hmem).
  assert (walk_inputs quarantine "quarantine_scan" scan_quarantined a1 w1 = (w', Ok a)) as Hwalk2' by exact Hwalk2.
  apply (scan_quarantined_ok limits _ _ _ _ _ (rev files.*2)) in Hwalk2' as (ps' & (files' & <- & Hall' & HQ' & Hrep') & Hnd' & Hmem');
    [|by rewrite T1|by rewrite app_nil_r in Hrep].
  rewrite T1 in Hall', Hmem'. exists files, files'. by split_and!.
Qed.

(** The files below the two roots and what the accounting charges for each of them. *)
Definition all_charged (root : path) (t : tree_t) (Q : path → Prop) (files : list charge) : Prop :=
  NoDup files.*1 ∧ (∀ p, p ∈ files.*1 ↔ file_below root t p) ∧ Forall (charged root t) files ∧ Forall Q files.*1.

Lemma Spool_open_keeps_wf root key limits : spool_keeps_wf (Spool_open root key limits).
Proof using Type.
  unfold Spool_open. apply fp_bind; [exact always_true|apply fp_disk, ensure_keeps_wf|]. intros []. cbn zeta.
  do 2 (apply fp_bind; [exact always_true|apply fp_disk, ensure_keeps_wf|]; intros []).
  apply fp_bind; [exact always_true|apply recover_keeps_wf|]. intros n.
  apply fp_bind; [exact always_true|apply fp_looking, looking_scan_accounting|]. intros a.
  apply fp_bind; [exact always_true|apply fp_accounting|]. intros []. apply fp_ret.
Qed.

(** C31: opening a spool leaves a well-formed tree without files of interrupted writers: every
    file below the segments root is a ready or delivered segment, every file below the quarantine
    root a quarantined one, and the accounting is that of exactly one charge per such file, of its
    actual length and to the input it belongs to, without any reservation. *)
Theorem open_rebuilds_accounting root key limits w w' s :
  wf_tree (tree (disk w)) → Spool_open root key limits w = (w', Ok s) →
  let t := tree (disk w') in
  wf_tree t ∧ segments s = root ++ [SEGMENTS_DIRECTORY]
  ∧ ∃ files files', all_charged (segments s) t lifecycle_name files
      ∧ all_charged (root ++ [QUARANTINE_DIRECTORY]) t (has_extension QUARANTINE_EXTENSION) files'
      ∧ represents limits (accounting w') (mkLedger (rev files'.*2 ++ rev files.*2) []).
Proof using Type.
  intros Hwf. unfold Spool_open. intros ([] & w1 & H1 & Hrun)%st_bind_ok. cbn zeta in Hrun.
  apply st_bind_ok in Hrun as ([] & w2 & H2 & Hrun). apply st_bind_ok in Hrun as ([] & w3 & H3 & Hrun).
  apply st_bind_ok in Hrun as (n & w4 & H4 & Hrun). apply st_bind_ok in Hrun as (a & w5 & H5 & Hrun).
  apply (keeps_wf_run _ _ _ _ (fp_disk _ _ _ (ensure_keeps_wf _)) Hwf) in H1.
  apply (keeps_wf_run _ _ _ _ (fp_disk _ _ _ (ensure_keeps_wf _)) H1) in H2.
  apply (keeps_wf_run _ _ _ _ (fp_disk _ _ _ (ensure_keeps_wf _)) H2) in H3.
  apply (keeps_wf_run _ _ _ _ (recover_keeps_wf _ _) H3) in H4.
  pose proof (glanced_tree _ _ (looking_run _ _ _ _ (looking_scan_accounting _ _ _ _) H5)) as T5.
  apply scan_accounting_ok in H5 as (files & files' & Hf & Hf' & Hrep); [|done].
  injection Hrun as <- <-. cbn [disk accounting set_accounting segments] in *. rewrite T5.
  split; [done|]. split; [done|]. by exists files, files'.
Qed.
End Startup.
