(* ===== verification/SpoolDemo.v ===== *)
(** * Concrete runs of the spool

    One spool on a small disk, under the stand-in cipher of SegmentRoundTrip.v: it is
    opened over a file an interrupted writer left, takes one segment, lists, reads,
    delivers and compacts it.  Witnesses of the theorems on the spool. *)

From S2P Require Import StateStoreDemo.
From S2P Require Export SpoolRuns SpoolSegmentLife SpoolStartup.

Local Open Scope N_scope.
#[local] Existing Instance demo_sha256.
#[local] Existing Instance demo_crypto.
#[local] Existing Instance demo_laws.

(** ** The disk *)
Definition spool_root : path := [[x73]].
Definition spool_limits : SpoolLimits := mkLimits 600 1200 2000.
Definition spool_world : world :=
  mkWorld disk0 Accounting_default [Some (vec_to_list demo_id); Some (vec_to_list demo_salt)] [] [].

(** The value of a run that is known to succeed. *)
Definition got {A} (d : A) (r : result SpoolError A) : A := match r with Ok a => a | Err _ => d end.
Lemma got_run {S A} (d : A) (run : S * result SpoolError A) : is_ok run.2 = true → run = (run.1, Ok (got d run.2)).
Proof. destruct run as [s [a|e]]; done. Qed.

Lemma ok_run {S A} (a : A) (run : S * result SpoolError A) : run.2 = Ok a → run = (run.1, Ok a).
Proof. destruct run as [s r]. cbn. by intros ->. Qed.
Lemma ok_run_pair {S T A} (a : A) (run : (S * T) * result SpoolError A) :
  run.2 = Ok a → run = ((run.1.1, run.1.2), Ok a).
Proof. destruct run as [[s t] r]. cbn. by intros ->. Qed.

Definition no_spool : Spool := mkSpool [] demo_key spool_limits 0.
Definition no_writer : SegmentWriter :=
  mkWriter no_spool None [] [] demo_header demo_id false false.
Definition no_ready : ReadySegment :=
  mkReady [] demo_header demo_id (mkSummary 0 0 (vreplicate 32 x00)) 0 RecoveryMetadata_empty 0.

(** ** One segment from its beginning to its compaction *)
Definition opening := Spool_open spool_root demo_key spool_limits spool_world.
Abbreviation w0 := opening.1.
Definition demo_spool : Spool := got no_spool opening.2.
Definition beginning := begin_segment demo_spool demo_header w0.
Abbreviation w1 := beginning.1.
Abbreviation wr1 := (got no_writer beginning.2).
Definition appending := append_events demo_events (w1, wr1).
Abbreviation w2 := appending.1.1.
Abbreviation wr2 := appending.1.2.
Definition sealing := seal_with_recovery_metadata wr2 demo_metadata w2.
Abbreviation w3 := sealing.1.
Definition demo_ready : ReadySegment := got no_ready sealing.2.
Definition listing := list_ready demo_spool w3.
Definition delivering := mark_delivered demo_spool demo_ready w3.
Abbreviation w4 := delivering.1.
Definition demo_delivered : DeliveredSegment := got (from_ready no_ready) delivering.2.
Definition compacting := compact_delivered demo_spool demo_delivered w4.
(** Opened again while a writer still holds its open file. *)
Definition reopening := Spool_open spool_root demo_key spool_limits w2.

Lemma demo_metadata_wf : metadata_wf demo_metadata.
Proof. vm_compute. repeat constructor. Qed.
Lemma demo_spool_limits : limits demo_spool = spool_limits.
Proof. vm_compute. reflexivity. Qed.
Lemma demo_limits_wf : limits_wf (limits demo_spool) ∧ in_u64 (limit_global (limits demo_spool)).
Proof. rewrite demo_spool_limits. split; [by split; vm_compute|by vm_compute]. Qed.
Lemma w0_accounting : accounting w0 = Accounting_default.
Proof. vm_compute. reflexivity. Qed.
(** The names of the segment. *)
Abbreviation demo_ready_path := (segment_ready demo_spool (input_key demo_header) demo_id).
Abbreviation demo_delivered_path := (segment_delivered demo_spool (input_key demo_header) demo_id).
Lemma demo_ready_identity : ready_header demo_ready = demo_header ∧ ready_segment_id demo_ready = demo_id
  ∧ ready_path demo_ready = demo_ready_path ∧ with_extension (ready_path demo_ready) DELIVERED_EXTENSION = demo_delivered_path.
Proof. vm_compute. repeat split. Qed.
Lemma demo_delivered_free :
  forallb (λ v, bool_decide (v !! demo_delivered_path = None)) (versions (disk w3)) = true.
Proof. vm_compute. reflexivity. Qed.
Lemma w3_calm : reads w3 = [] ∧ faults (disk w3) = [].
Proof. vm_compute. repeat split. Qed.

Lemma opening_ok : is_ok opening.2 = true.
Proof. vm_compute. reflexivity. Qed.
Lemma beginning_ok : is_ok beginning.2 = true.
Proof. vm_compute. reflexivity. Qed.
Lemma appending_ok : appending.2 = Ok tt.
Proof. vm_compute. reflexivity. Qed.
Lemma sealing_ok : is_ok sealing.2 = true.
Proof. vm_compute. reflexivity. Qed.
Lemma listing_ok : listing.2 = Ok [demo_ready].
Proof. vm_compute. reflexivity. Qed.
Lemma delivering_ok : is_ok delivering.2 = true.
Proof. vm_compute. reflexivity. Qed.
Lemma compacting_ok : compacting.2 = Ok tt.
Proof. vm_compute. reflexivity. Qed.
Lemma reopening_ok : is_ok reopening.2 = true.
Proof. vm_compute. reflexivity. Qed.
Lemma reopening_recovers : recovered_open_segments (got no_spool reopening.2) = 1.
Proof. vm_compute. reflexivity. Qed.

#[local] Strategy expand [opening beginning appending sealing listing delivering compacting reopening].
Lemma opening_eq : Spool_open spool_root demo_key spool_limits spool_world = (w0, Ok demo_spool).
Proof. exact (got_run no_spool opening opening_ok). Qed.
Lemma beginning_eq : begin_segment demo_spool demo_header w0 = (w1, Ok wr1).
Proof. exact (got_run no_writer beginning beginning_ok). Qed.
Lemma appending_eq : append_events demo_events (w1, wr1) = ((w2, wr2), Ok tt).
Proof. exact (ok_run_pair tt appending appending_ok). Qed.
Lemma sealing_eq : seal_with_recovery_metadata wr2 demo_metadata w2 = (w3, Ok demo_ready).
Proof. exact (got_run no_ready sealing sealing_ok). Qed.
Lemma listing_eq : list_ready demo_spool w3 = (listing.1, Ok [demo_ready]).
Proof. exact (ok_run [demo_ready] listing listing_ok). Qed.
Lemma delivering_eq : mark_delivered demo_spool demo_ready w3 = (w4, Ok demo_delivered).
Proof. exact (got_run (from_ready no_ready) delivering delivering_ok). Qed.
Lemma compacting_eq : compact_delivered demo_spool demo_delivered w4 = (compacting.1, Ok tt).
Proof. exact (ok_run tt compacting compacting_ok). Qed.
Lemma reopening_eq : Spool_open spool_root demo_key spool_limits w2 = (reopening.1, Ok (got no_spool reopening.2)).
Proof. exact (got_run no_spool reopening reopening_ok). Qed.
#[local] Opaque opening beginning appending sealing listing delivering compacting reopening.

(** ** The trees along the run *)
Lemma wf_w0 : wf_tree (tree (disk w0)).
Proof.
  exact (keeps_wf_run _ spool_world _ _ (Spool_open_keeps_wf spool_root demo_key spool_limits) demo_tree_wf opening_eq).
Qed.
Lemma w1_writing : wf_tree (tree (disk w1)) ∧ ∃ salt e, writing_to (tree (disk w1)) wr1 salt [] e.
Proof. destruct (begin_segment_ok _ _ _ _ _ wf_w0 beginning_eq) as (H1 & _ & _ & _ & H2). exact (conj H1 H2). Qed.
Lemma w2_writing : wf_tree (tree (disk w2)) ∧ ∃ salt e, writing_to (tree (disk w2)) wr2 salt ([] ++ demo_events) e.
Proof.
  destruct w1_writing as (H1 & salt & e & H2).
  destruct (append_events_ok _ _ _ _ _ _ _ _ H1 H2 appending_eq) as (H3 & _ & _ & e' & H4).
  exact (conj H3 (ex_intro _ salt (ex_intro _ e' H4))).
Qed.
Lemma wf_w3 : wf_tree (tree (disk w3)).
Proof.
  destruct w2_writing as (H1 & salt & e & H2).
  destruct (seal_ok _ _ _ _ _ _ _ _ H1 H2 sealing_eq) as (e' & summary & len & Hs). exact (sl_wf _ _ _ _ _ _ _ _ _ Hs).
Qed.
Lemma wf_w4 : wf_tree (tree (disk w4)).
Proof.
  destruct (mark_delivered_run _ _ _ _ _ wf_w3 delivering_eq) as [_ [[_ [e ?]]|(c & _ & m & y & _ & _ & _ & Hwf & _)]];
    [discriminate|exact Hwf].
Qed.
Lemma w3_published : published_segment demo_spool w3 demo_ready demo_events.
Proof.
  exact (life_published _ _ _ _ _ _ _ _ _ _ _ wf_w0 beginning_eq appending_eq sealing_eq demo_header_wf
    demo_metadata_wf (proj1 demo_limits_wf) (proj2 demo_limits_wf)).
Qed.
Lemma w3_located : ∃ c, ∀ v, v ∈ versions (disk w3) →
  v !! demo_ready_path = Some (Regular MODE_PRIVATE_FILE c true) ∧ v !! demo_delivered_path = None.
Proof.
  destruct (pb_content _ _ _ _ w3_published) as (c & Hc & _). rewrite (proj1 (proj2 (proj2 demo_ready_identity))) in Hc.
  exists c. intros v Hv. split; [exact (Hc v Hv)|]. pose proof demo_delivered_free as Hall.
  rewrite forallb_forall in Hall. apply (bool_decide_eq_true_1 _ (Hall v (proj1 (list_elem_of_In _ _) Hv))).
Qed.

(** ** Witnesses *)


Lemma published_reads_back_witness :
  ∃ r, reader demo_spool demo_ready w3 = (w3, Ok r)
    ∧ read_events (S (N.to_nat (ready_byte_len demo_ready))) r = Some (Ok demo_events).
Proof.
  exact (published_reads_back _ _ _ _ (conj (proj2 w3_calm) (proj1 w3_calm)) wf_w3 w3_published).
Defined.

Lemma published_delivers_witness :
  ∃ w' d, mark_delivered demo_spool demo_ready w3 = (w', Ok d) ∧ calm_world w'
    ∧ tree (disk w') !! delivered_path d = tree (disk w3) !! ready_path demo_ready.
Proof.
  apply (published_delivers _ _ _ _ (conj (proj2 w3_calm) (proj1 w3_calm)) wf_w3 w3_published).
  rewrite (proj2 (proj2 (proj2 demo_ready_identity))). destruct w3_located as [c Hc].
  exact (proj2 (Hc _ (list_elem_of_here _ _))).
Defined.

Lemma mark_delivered_never_loses_witness :
  ∃ c, ∀ v, v ∈ versions (disk w4) →
    v !! demo_ready_path = Some (Regular MODE_PRIVATE_FILE c true)
    ∨ v !! demo_delivered_path = Some (Regular MODE_PRIVATE_FILE c true).
Proof.
  destruct w3_located as [c Hc]. exists c.
  destruct (mark_delivered_never_loses _ _ _ _ _ wf_w3 delivering_eq) as (_ & _ & Hkeep & _).
  rewrite (proj2 (proj2 (proj2 demo_ready_identity))), (proj1 (proj2 (proj2 demo_ready_identity))) in Hkeep.
  apply Hkeep. intros v Hv. exact (proj1 (Hc v Hv)).
Defined.

Lemma compact_delivered_exact_witness :
  (∀ v, v ∈ versions (disk compacting.1) → v !! delivered_path demo_delivered = None)
  ∧ remove_stored (input_key (delivered_header demo_delivered)) (delivered_byte_len demo_delivered) (accounting w4)
    = (accounting compacting.1, Ok tt).
Proof.
  destruct (compact_delivered_exact _ _ _ _ _ wf_w4 compacting_eq) as (_ & _ & _ & H). exact (H (or_intror eq_refl)).
Defined.

Lemma list_ready_exact_witness :
  glanced w3 listing.1 ∧ listed demo_spool (tree (disk w3)) READY_EXTENSION demo_ready
  ∧ ∀ p, p = ready_path demo_ready ↔ file_below (segments demo_spool) (tree (disk w3)) p ∧ has_extension READY_EXTENSION p.
Proof.
  destruct (list_ready_exact _ _ _ _ wf_w3 listing_eq) as (Hg & Hmem & Hall & _).
  split; [exact Hg|]. split; [exact (proj1 (proj1 (Forall_cons _ _ _) Hall))|].
  intros p. rewrite <- Hmem. symmetry. exact (list_elem_of_singleton p (ready_path demo_ready)).
Defined.

(** The open file of the writer is quarantined and charged. *)
Lemma open_rebuilds_accounting_witness :
  recovered_open_segments (got no_spool reopening.2) = 1
  ∧ ∃ files files', all_charged (segments (got no_spool reopening.2)) (tree (disk reopening.1)) lifecycle_name files
      ∧ all_charged (spool_root ++ [QUARANTINE_DIRECTORY]) (tree (disk reopening.1)) (has_extension QUARANTINE_EXTENSION) files'
      ∧ represents spool_limits (accounting reopening.1) (mkLedger (rev files'.*2 ++ rev files.*2) []).
Proof.
  split; [exact reopening_recovers|].
  exact (proj2 (proj2 (open_rebuilds_accounting _ _ _ _ _ _ (proj1 w2_writing) reopening_eq))).
Defined.

(** The run in which the segment is delivered. *)
Lemma sealed_segments_survive_witness :
  ∃ c, ∀ v, v ∈ versions (disk w4) →
    let n := Regular MODE_PRIVATE_FILE c true in
    (v !! demo_ready_path = Some n ∧ v !! demo_delivered_path = None)
    ∨ (v !! demo_ready_path = None ∧ v !! demo_delivered_path = Some n).
Proof.
  destruct w3_located as [c Hc]. exists c.
  apply (sealed_segments_survive demo_spool (input_key demo_header) demo_id _ (w3, []) (w4, [])).
  - apply rtc_once. exact (step_deliver _ _ _ _ _ _ _ [] delivering_eq).
  - split; [exact wf_w3|constructor|]. intros v Hv. left. exact (Hc v Hv).
Defined.
