(* ===== verification/RisingMetadata.v ===== *)
(** * Rising recovery metadata (crates/dbx-rs-daemon/src/rising_metadata.rs)

    What a sealed rising page carries so that a restarted daemon can adopt it: the rows,
    the cursors, whether the scan goes on, and the fingerprint of the request the page
    answers.  A fixed layout of 80 bytes inside the spool's recovery metadata. *)

From S2P Require Export Cursor SpoolModel.

Local Open Scope N_scope.
Local Open Scope dbx_scope.

(** ** Layout *)
Definition RISING_FORMAT_VERSION : N := 2.
Definition FLAG_TRUNCATED : N := 1.
Definition FLAG_CHECKPOINT_CANDIDATE : N := 2.
Definition FLAG_SCAN_RESUME : N := 4.
Definition SUPPORTED_FLAGS : N := N.lor FLAG_TRUNCATED (N.lor FLAG_CHECKPOINT_CANDIDATE FLAG_SCAN_RESUME).

Definition FLAGS_OFFSET : nat := 2.
Definition RESERVED_OFFSET : nat := 3.
Definition ROWS_OFFSET : nat := 4.
Definition REQUEST_FINGERPRINT_OFFSET : nat := 12.
Definition CHECKPOINT_CANDIDATE_OFFSET : nat := 44.
Definition SCAN_RESUME_OFFSET : nat := 62.
Definition ENCODED_BYTES : nat := 80.
Definition REQUEST_FINGERPRINT_DOMAIN : list byte :=
  String.list_byte_of_string "dbx-rs/rising-request-fingerprint/v1" ++ [x00].

(** ** Data *)
Record RisingRecoveryMetadata := mkRising {
  rm_rows : N;
  rm_truncated : bool;
  rm_request_fingerprint : array 32;
  rm_checkpoint_candidate : option TimestampIdCursor;
  rm_scan_resume : option TimestampIdCursor;
}.

Inductive RisingMetadataError :=
  | RmInvalidLength
  | RmUnsupportedVersion
  | RmUnsupportedFlags
  | RmNonCanonicalReservedByte
  | RmNonCanonicalAbsentCursor
  | RmInvalidCursor
  | RmInvalidSemantics
  | RmSpoolMetadataLimit
  | RmInvalidRequestFingerprint.

Definition rising_metadata_code (e : RisingMetadataError) : string :=
  match e with
  | RmInvalidLength => "DBX-RS-DAEMON-RISING-METADATA-0001"
  | RmUnsupportedVersion => "DBX-RS-DAEMON-RISING-METADATA-0002"
  | RmUnsupportedFlags => "DBX-RS-DAEMON-RISING-METADATA-0003"
  | RmNonCanonicalReservedByte => "DBX-RS-DAEMON-RISING-METADATA-0004"
  | RmNonCanonicalAbsentCursor => "DBX-RS-DAEMON-RISING-METADATA-0005"
  | RmInvalidCursor => "DBX-RS-DAEMON-RISING-METADATA-0006"
  | RmInvalidSemantics => "DBX-RS-DAEMON-RISING-METADATA-0007"
  | RmSpoolMetadataLimit => "DBX-RS-DAEMON-RISING-METADATA-0008"
  | RmInvalidRequestFingerprint => "DBX-RS-DAEMON-RISING-METADATA-0009"
  end.

(** ** Operations *)
Definition rising_validate (self : RisingRecoveryMetadata) : result RisingMetadataError () :=
  reject RmInvalidRequestFingerprint
    when (forallb (λ b, bool_decide (b = x00)) (vec_to_list (rm_request_fingerprint self)) = true);;
  if decide (rm_rows self = 0) then
    reject RmInvalidSemantics
      when (rm_truncated self = true ∨ rm_checkpoint_candidate self ≠ None ∨ rm_scan_resume self ≠ None);;
    mret tt
  else
    match rm_checkpoint_candidate self, rm_scan_resume self with
    | Some candidate, Some resume =>
        reject RmInvalidSemantics when (position_cmp candidate resume = Lt);;
        mret tt
    | _, _ => mthrow RmInvalidSemantics
    end.

Definition RisingRecoveryMetadata_new (rows : N) (truncated : bool) (request_fingerprint : array 32)
    (checkpoint_candidate scan_resume : option TimestampIdCursor) : result RisingMetadataError RisingRecoveryMetadata :=
  let metadata := mkRising rows truncated request_fingerprint checkpoint_candidate scan_resume in
  _ ← rising_validate metadata;
  mret metadata.

(** A cursor slot of the zeroed buffer. *)
Definition encode_cursor_slot (c : option TimestampIdCursor) : list byte :=
  match c with
  | Some c => to_canonical_bytes c
  | None => replicate TIMESTAMP_ID_CURSOR_CANONICAL_BYTES x00
  end.

Definition rising_flags (self : RisingRecoveryMetadata) : N :=
  let flags := if rm_truncated self then FLAG_TRUNCATED else 0 in
  let flags := if rm_checkpoint_candidate self then N.lor flags FLAG_CHECKPOINT_CANDIDATE else flags in
  if rm_scan_resume self then N.lor flags FLAG_SCAN_RESUME else flags.

Definition rising_bytes (self : RisingRecoveryMetadata) : list byte :=
  u16_be RISING_FORMAT_VERSION ++ [byte_of_N (rising_flags self); x00] ++ u64_be (rm_rows self)
    ++ vec_to_list (rm_request_fingerprint self) ++ encode_cursor_slot (rm_checkpoint_candidate self)
    ++ encode_cursor_slot (rm_scan_resume self).

Definition rising_encode (self : RisingRecoveryMetadata) : result RisingMetadataError RecoveryMetadata :=
  map_err (λ _, RmSpoolMetadataLimit) (RecoveryMetadata_new (rising_bytes self)).

Definition decode_cursor_slot (bytes : list byte) (present : bool)
    : result RisingMetadataError (option TimestampIdCursor) :=
  if negb present then
    reject RmNonCanonicalAbsentCursor when (existsb (λ b, bool_decide (b ≠ x00)) bytes = true);;
    mret None
  else
    c ← map_err (λ _, RmInvalidCursor) (from_canonical_bytes bytes);
    mret (Some c).

Definition rising_decode (metadata : RecoveryMetadata) : result RisingMetadataError RisingRecoveryMetadata :=
  let bytes := as_bytes metadata in
  reject RmInvalidLength when (length bytes ≠ ENCODED_BYTES);;
  let version := from_be (slice 0 FLAGS_OFFSET bytes) in
  reject RmUnsupportedVersion when (version ≠ RISING_FORMAT_VERSION);;
  let flags := Byte.to_N (nth FLAGS_OFFSET bytes x00) in
  (* [flags & !SUPPORTED_FLAGS] *)
  reject RmUnsupportedFlags when (N.land flags (N.lxor 255 SUPPORTED_FLAGS) ≠ 0);;
  reject RmNonCanonicalReservedByte when (nth RESERVED_OFFSET bytes x00 ≠ x00);;
  let rows := from_be (slice ROWS_OFFSET REQUEST_FINGERPRINT_OFFSET bytes) in
  let request_fingerprint := array_of_list 32 (slice REQUEST_FINGERPRINT_OFFSET CHECKPOINT_CANDIDATE_OFFSET bytes) in
  checkpoint_candidate ← decode_cursor_slot (slice CHECKPOINT_CANDIDATE_OFFSET SCAN_RESUME_OFFSET bytes)
    (bool_decide (N.land flags FLAG_CHECKPOINT_CANDIDATE ≠ 0));
  scan_resume ← decode_cursor_slot (slice SCAN_RESUME_OFFSET ENCODED_BYTES bytes)
    (bool_decide (N.land flags FLAG_SCAN_RESUME ≠ 0));
  RisingRecoveryMetadata_new rows (bool_decide (N.land flags FLAG_TRUNCATED ≠ 0)) request_fingerprint
    checkpoint_candidate scan_resume.

(** ** The request fingerprint *)
Definition optional_cursor_bytes (cursor : option TimestampIdCursor) : list byte :=
  match cursor with
  | Some cursor => x01 :: to_canonical_bytes cursor
  | None => [x00]
  end.

Definition request_preimage (cursor_identity_fingerprint : array 32) (request : TimestampIdCursorRequest) : list byte :=
  REQUEST_FINGERPRINT_DOMAIN ++ vec_to_list cursor_identity_fingerprint
    ++ optional_cursor_bytes (req_committed request) ++ optional_cursor_bytes (req_resume_after request).

Definition rising_request_fingerprint `{Sha256} (cursor_identity_fingerprint : array 32)
    (request : TimestampIdCursorRequest) : array 32 :=
  sha256 (request_preimage cursor_identity_fingerprint request).

(** ** The codec is a bijection on the valid metadata *)

Definition rising_wf (m : RisingRecoveryMetadata) : Prop :=
  in_u64 (rm_rows m)
  ∧ (∀ c, rm_checkpoint_candidate m = Some c → wf_cursor c) ∧ (∀ c, rm_scan_resume m = Some c → wf_cursor c).

Lemma length_canonical c : length (to_canonical_bytes c) = 18%nat.
Proof. unfold to_canonical_bytes. by autorewrite with lens. Qed.
Lemma length_slot c : length (encode_cursor_slot c) = 18%nat.
Proof. destruct c; [apply length_canonical|apply length_replicate]. Qed.
#[local] Hint Rewrite length_canonical length_slot : lens.

Lemma length_rising_bytes m : length (rising_bytes m) = 80%nat.
Proof. unfold rising_bytes. by autorewrite with lens. Qed.

(** Encoding never reaches the spool's limit. *)
Lemma rising_encode_ok m : rising_encode m = Ok (mkMetadata (rising_bytes m)).
Proof.
  unfold rising_encode. apply map_err_ok, RecoveryMetadata_new_ok. split; [done|].
  unfold metadata_wf. cbn. rewrite length_rising_bytes. unfold MAX_RECOVERY_METADATA_BYTES. lia.
Qed.

Lemma all_zero_replicate l : existsb (λ b, bool_decide (b ≠ x00)) l = true ↔ l ≠ replicate (length l) x00.
Proof.
  induction l as [|b l IH]; cbn; [done|]. rewrite orb_true_iff, bool_decide_eq_true, IH.
  split; [intros [?|?] [= ? ?]; congruence|]. intros Hne.
  destruct (decide (b = x00)) as [->|?]; [right; congruence|by left].
Qed.

(** What a slot decodes to, given its presence flag. *)
Lemma decode_slot_ok bytes present c :
  length bytes = 18%nat →
  decode_cursor_slot bytes present = Ok c ↔
  present = bool_decide (is_Some c) ∧ (∀ x, c = Some x → wf_cursor x) ∧ bytes = encode_cursor_slot c.
Proof.
  intros Hlen. unfold decode_cursor_slot. destruct present; cbn [negb].
  - rewrite result_bind_ok. setoid_rewrite map_err_ok. setoid_rewrite canonical_bytes_iff. split.
    + intros (x & [Hwf ->] & [= <-]). split; [by rewrite bool_decide_true by by eexists|]. naive_solver.
    + intros (Hp & Hwf & ->). destruct c as [x|]; [|done]. exists x. split; [split; [by apply Hwf|done]|done].
  - case_decide as Hz; rewrite all_zero_replicate, Hlen in Hz.
    + split; [done|]. intros (Hp & _ & ->). destruct c; [done|]. done.
    + apply dec_stable in Hz. split.
      * intros [= <-]. by rewrite bool_decide_false by (intros [? ?]; done).
      * intros (Hp & _ & _). destruct c; [by rewrite bool_decide_true in Hp by by eexists|done].
Qed.

(** The flags byte is determined by the three facts it carries. *)
Definition flags_of (t c r : bool) : N :=
  let flags := if t then FLAG_TRUNCATED else 0 in
  let flags := if c then N.lor flags FLAG_CHECKPOINT_CANDIDATE else flags in
  if r then N.lor flags FLAG_SCAN_RESUME else flags.

Lemma flags_byte b t c r :
  (N.land (Byte.to_N b) (N.lxor 255 SUPPORTED_FLAGS) = 0
   ∧ bool_decide (N.land (Byte.to_N b) FLAG_TRUNCATED ≠ 0) = t
   ∧ bool_decide (N.land (Byte.to_N b) FLAG_CHECKPOINT_CANDIDATE ≠ 0) = c
   ∧ bool_decide (N.land (Byte.to_N b) FLAG_SCAN_RESUME ≠ 0) = r)
  ↔ b = byte_of_N (flags_of t c r).
Proof.
  split.
  - intros (H1 & <- & <- & <-).
    assert (N.land (Byte.to_N b) (N.lxor 255 SUPPORTED_FLAGS) ≠ 0
      ∨ b = byte_of_N (flags_of (bool_decide (N.land (Byte.to_N b) FLAG_TRUNCATED ≠ 0))
          (bool_decide (N.land (Byte.to_N b) FLAG_CHECKPOINT_CANDIDATE ≠ 0))
          (bool_decide (N.land (Byte.to_N b) FLAG_SCAN_RESUME ≠ 0)))) as [?|?]; [|done..].
    clear H1. destruct b; first [right; reflexivity | left; discriminate].
  - intros ->. destruct t, c, r; vm_compute; done.
Qed.

Lemma rising_flags_of m :
  rising_flags m = flags_of (rm_truncated m) (bool_decide (is_Some (rm_checkpoint_candidate m)))
    (bool_decide (is_Some (rm_scan_resume m))).
Proof. unfold rising_flags, flags_of. by destruct (rm_checkpoint_candidate m), (rm_scan_resume m). Qed.

(** The fields of an encoded page. *)
Lemma rising_fields v f z r p c s :
  length v = 2%nat → length r = 8%nat → length p = 32%nat → length c = 18%nat → length s = 18%nat →
  let bytes := v ++ [f; z] ++ r ++ p ++ c ++ s in
  slice 0 FLAGS_OFFSET bytes = v ∧ nth FLAGS_OFFSET bytes x00 = f ∧ nth RESERVED_OFFSET bytes x00 = z
  ∧ slice ROWS_OFFSET REQUEST_FINGERPRINT_OFFSET bytes = r
  ∧ slice REQUEST_FINGERPRINT_OFFSET CHECKPOINT_CANDIDATE_OFFSET bytes = p
  ∧ slice CHECKPOINT_CANDIDATE_OFFSET SCAN_RESUME_OFFSET bytes = c
  ∧ slice SCAN_RESUME_OFFSET ENCODED_BYTES bytes = s.
Proof.
  intros Hv Hr Hp Hc Hs bytes. subst bytes.
  unfold FLAGS_OFFSET, RESERVED_OFFSET, ROWS_OFFSET, REQUEST_FINGERPRINT_OFFSET, CHECKPOINT_CANDIDATE_OFFSET,
    SCAN_RESUME_OFFSET, ENCODED_BYTES.
  split; [by apply slice_here|]. split; [by rewrite app_nth2, Hv by lia|]. split; [by rewrite app_nth2, Hv by lia|].
  rewrite !(slice_skip 2 _ _ v) by (done || lia). rewrite !(slice_skip 2 _ _ [f; z]) by (done || lia). cbn [Nat.sub].
  split; [by apply slice_here|]. rewrite !(slice_skip 8 _ _ r) by (done || lia). cbn [Nat.sub].
  split; [by apply slice_here|]. rewrite !(slice_skip 32 _ _ p) by (done || lia). cbn [Nat.sub].
  split; [by apply slice_here|]. rewrite !(slice_skip 18 _ _ c) by (done || lia). cbn [Nat.sub].
  pose proof (slice_here 18 s [] Hs) as E. by rewrite app_nil_r in E.
Qed.

Lemma rising_cut (bytes : list byte) :
  length bytes = ENCODED_BYTES → ∃ v f z r p c s, bytes = v ++ [f; z] ++ r ++ p ++ c ++ s
    ∧ length v = 2%nat ∧ length r = 8%nat ∧ length p = 32%nat ∧ length c = 18%nat ∧ length s = 18%nat.
Proof.
  unfold ENCODED_BYTES. intros Hl.
  destruct (list_cut 2 bytes) as (v & l & -> & Hv & Hl1); [lia|]. rewrite Hl in Hl1.
  destruct l as [|f [|z l]]; [done..|]. cbn in Hl1. injection Hl1 as Hl1.
  destruct (list_cut 8 l) as (r & l1 & -> & Hr & Hl2); [lia|].
  destruct (list_cut 32 l1) as (p & l2 & -> & Hp & Hl3); [lia|].
  destruct (list_cut 18 l2) as (c & s & -> & Hc & Hl4); [lia|].
  exists v, f, z, r, p, c, s. split; [done|]. split_and!; lia.
Qed.

Lemma RisingRecoveryMetadata_new_ok rows t p c s m :
  RisingRecoveryMetadata_new rows t p c s = Ok m ↔ m = mkRising rows t p c s ∧ rising_validate m = Ok tt.
Proof.
  unfold RisingRecoveryMetadata_new. rewrite result_bind_ok. split.
  - intros ([] & Hv & [= <-]). done.
  - intros [-> Hv]. by exists tt.
Qed.

Lemma rising_decode_iff bytes m :
  rising_decode (mkMetadata bytes) = Ok m ↔ rising_wf m ∧ rising_validate m = Ok tt ∧ bytes = rising_bytes m.
Proof.
  unfold rising_decode. cbn [as_bytes]. destruct (decide (length bytes ≠ ENCODED_BYTES)) as [Hl|Hl%dec_stable].
  { split; [done|]. intros (_ & _ & ->). by rewrite length_rising_bytes in Hl. }
  destruct (rising_cut _ Hl) as (v & f & z & r & p & c & s & -> & Hv & Hr & Hp & Hc & Hs). clear Hl.
  destruct (rising_fields v f z r p c s) as (-> & -> & -> & -> & -> & -> & ->); [done..|]. split.
  - intros Hrun. case_decide as Hver; [done|]. case_decide as Hflags; [done|]. case_decide as Hz; [done|].
    apply result_bind_ok in Hrun as (cand & (Hc1 & Hc2 & ->)%decode_slot_ok & Hrun); [|done].
    apply result_bind_ok in Hrun as (res & (Hr1 & Hr2 & ->)%decode_slot_ok & Hrun); [|done].
    apply RisingRecoveryMetadata_new_ok in Hrun as [-> Hval].
    split; [|split; [exact Hval|]].
    + split; [by apply from_be_in_u64|]. split; [exact Hc2|exact Hr2].
    + unfold rising_bytes.
      cbn [rm_rows rm_request_fingerprint rm_checkpoint_candidate rm_scan_resume].
      rewrite rising_flags_of. cbn [rm_truncated rm_checkpoint_candidate rm_scan_resume].
      rewrite <- Hc1, <- Hr1, <- Hver, u16_be_from, u64_be_from, array_of_list_id by done.
      rewrite Hz. do 3 f_equal. apply flags_byte. done.
  - intros ((Hrows & Hwc & Hwr) & Hval & E). unfold rising_bytes in E.
    apply app_inj_1 in E as [-> E]; [|by autorewrite with lens]. injection E as -> -> E.
    apply app_inj_1 in E as [-> E]; [|by autorewrite with lens].
    apply app_inj_1 in E as [-> E]; [|by autorewrite with lens].
    apply app_inj_1 in E as [-> ->]; [|by autorewrite with lens].
    rewrite u16_from_be by done. rewrite decide_False by (by intros []).
    destruct (flags_byte (byte_of_N (rising_flags m)) (rm_truncated m) (bool_decide (is_Some (rm_checkpoint_candidate m)))
      (bool_decide (is_Some (rm_scan_resume m)))) as [_ Hb].
    destruct Hb as (Hb1 & Hb2 & Hb3 & Hb4); [by rewrite rising_flags_of|].
    rewrite decide_False by (by rewrite Hb1; intros []). rewrite decide_False by (by intros []).
    rewrite Hb2, Hb3, Hb4. apply result_bind_ok. exists (rm_checkpoint_candidate m).
    split; [by apply decode_slot_ok|]. apply result_bind_ok. exists (rm_scan_resume m).
    split; [by apply decode_slot_ok|]. apply RisingRecoveryMetadata_new_ok.
    rewrite u64_from_be, array_of_to_list by done. by destruct m.
Qed.

(** the codec is a bijection between the valid metadata with 64-bit fields and the
    encodings: encoding always succeeds, and the decoder accepts exactly the 80-byte
    representation of such metadata and returns that metadata. *)
Theorem rising_metadata_canonical m bytes :
  rising_encode m = Ok (mkMetadata (rising_bytes m)) ∧ length (rising_bytes m) = ENCODED_BYTES
  ∧ (rising_decode (mkMetadata bytes) = Ok m
     ↔ rising_wf m ∧ rising_validate m = Ok tt ∧ rising_encode m = Ok (mkMetadata bytes)).
Proof.
  split; [apply rising_encode_ok|]. split; [apply length_rising_bytes|].
  rewrite rising_decode_iff, rising_encode_ok. naive_solver.
Qed.

(** ** The request fingerprint *)

Lemma optional_cursor_inj c c' l l' :
  (∀ x, c = Some x → wf_cursor x) → (∀ x, c' = Some x → wf_cursor x) →
  optional_cursor_bytes c ++ l = optional_cursor_bytes c' ++ l' → c = c' ∧ l = l'.
Proof.
  intros Hc Hc' E. pose proof (f_equal head E) as Ehead. apply (f_equal (drop 1)) in E.
  destruct c as [x|], c' as [x'|]; [|discriminate Ehead..|by split]. clear Ehead.
  change (to_canonical_bytes x ++ l = to_canonical_bytes x' ++ l') in E.
  apply app_inj_1 in E as [E ->]; [|by rewrite !length_canonical]. split; [|done]. f_equal.
  pose proof (proj2 (canonical_bytes_iff (to_canonical_bytes x) x) (conj (Hc _ eq_refl) eq_refl)) as H1.
  pose proof (proj2 (canonical_bytes_iff (to_canonical_bytes x') x') (conj (Hc' _ eq_refl) eq_refl)) as H2.
  rewrite E in H1. congruence.
Qed.

(** Equal fingerprints belong to equal requests, or are a collision of SHA-256. *)
Theorem request_fingerprint_binding `{Sha256} id id' r r' :
  (∀ x, req_committed r = Some x ∨ req_resume_after r = Some x
     ∨ req_committed r' = Some x ∨ req_resume_after r' = Some x → wf_cursor x) →
  rising_request_fingerprint id r = rising_request_fingerprint id' r' →
  (id = id' ∧ req_committed r = req_committed r' ∧ req_resume_after r = req_resume_after r')
  ∨ request_preimage id r ≠ request_preimage id' r' ∧ sha256 (request_preimage id r) = sha256 (request_preimage id' r').
Proof.
  intros Hwf E. destruct (decide (request_preimage id r = request_preimage id' r')) as [Ep|Hne]; [left|by right].
  unfold request_preimage in Ep. apply app_inv_head in Ep.
  apply app_inj_1 in Ep as [->%vec_to_list_inj2 Ep]; [|by autorewrite with lens]. split; [done|].
  apply optional_cursor_inj in Ep as [-> Ep]; [|naive_solver..]. split; [done|].
  rewrite <- (app_nil_r (optional_cursor_bytes _)) in Ep.
  rewrite <- (app_nil_r (optional_cursor_bytes (req_resume_after r'))) in Ep.
  apply optional_cursor_inj in Ep as [-> _]; [done|naive_solver..].
Qed.
