(* ===== verification/Daemon.v ===== *)
(** * The daemon's state and its HTTP event sink (crates/dbx-rs-daemon/src)

    error.rs, the identities of identity.rs, the prepared inputs as far as the durable
    pipeline reads them, and the HEC client of hec.rs.  The network, the clocks and the
    cancellation of a task are schedules: every call takes its outcome from one. *)

From stdpp Require Export pretty.
From S2P Require Export SpoolLifecycle StateStore RisingMetadata.

Local Open Scope N_scope.
Local Open Scope dbx_scope.

(** ** Errors (error.rs): without the message *)
Record DaemonError := mkDaemonError {
  de_code : string;
  de_class : string;
  de_stage : string;
  de_retryable : bool;
  de_configuration_error : bool;
  de_io_kind : option io_kind;
}.
Definition DaemonError_new (code class stage : string) (retryable configuration_error : bool) : DaemonError :=
  mkDaemonError code class stage retryable configuration_error None.
#[global] Instance DaemonError_eq_dec : EqDecision DaemonError.
Proof. solve_decision. Defined.

(** [From<SpoolError>]. *)
Definition from_spool_error (e : SpoolError) : DaemonError :=
  mkDaemonError (err_code e) "storage" (err_stage e) false false (err_io_kind e).

(** ** State

    [responses] are the outcomes of the HTTP exchanges: a body, or no response;
    [deadline_reached] answers [Instant::now() < deadline] in the acknowledgement loop,
    [wall_clock] is [SystemTime] since the epoch, [is_cancelled] the token's answers.
    [acknowledged] is a ghost: the bodies the sink has confirmed, oldest first. *)
Record daemon := mkDaemon {
  spool_world : world;
  responses : list (option (list byte));
  deadline_reached : list bool;
  wall_clock : list (option N);
  is_cancelled : list bool;
  acknowledged : list (list byte);
}.

Abbreviation task A := (st daemon DaemonError A).

Definition set_spool_world (w : world) (s : daemon) : daemon :=
  mkDaemon w (responses s) (deadline_reached s) (wall_clock s) (is_cancelled s) (acknowledged s).
Definition on_spool {E A} (m : st world E A) : st daemon E A := λ s,
  let '(w, r) := m (spool_world s) in (set_spool_world w s, r).
(** [spool.operation(..)?] *)
Definition from_spool {A} (m : spool A) : task A := st_map_err from_spool_error (on_spool m).

(** The next entry of a schedule; an exhausted one answers the default. *)
Definition next_of {A} (d : A) (l : list A) : A * list A := match l with [] => (d, []) | x :: l => (x, l) end.
Definition next_response : task (option (list byte)) := λ s,
  let '(x, l) := next_of None (responses s) in
  (mkDaemon (spool_world s) l (deadline_reached s) (wall_clock s) (is_cancelled s) (acknowledged s), Ok x).
Definition before_deadline : task bool := λ s,
  let '(x, l) := next_of true (deadline_reached s) in
  (mkDaemon (spool_world s) (responses s) l (wall_clock s) (is_cancelled s) (acknowledged s), Ok (negb x)).
Definition read_clock : task (option N) := λ s,
  let '(x, l) := next_of (Some 0) (wall_clock s) in
  (mkDaemon (spool_world s) (responses s) (deadline_reached s) l (is_cancelled s) (acknowledged s), Ok x).
Definition poll_cancelled : task bool := λ s,
  let '(x, l) := next_of false (is_cancelled s) in
  (mkDaemon (spool_world s) (responses s) (deadline_reached s) (wall_clock s) l (acknowledged s), Ok x).
Definition record_acknowledged (body : list byte) : task () := λ s,
  (mkDaemon (spool_world s) (responses s) (deadline_reached s) (wall_clock s) (is_cancelled s)
     (acknowledged s ++ [body]), Ok tt).

(** ** Identities (identity.rs) *)
Definition random_error : DaemonError := DaemonError_new "DBX-RS-ID-0001" "internal" "random_generation" false false.

Definition generate_uuid_bytes : task (array 16) :=
  random ← st_map_err (λ _, random_error) (on_spool (random_fill 16 (SpoolError_new "" "")));
  let l := vec_to_list random in
  mret (array_of_list 16 (take 6 l ++ [byte_of_N (N.lor (N.land (Byte.to_N (nth 6 l x00)) 15) 64)]
    ++ slice 7 8 l ++ [byte_of_N (N.lor (N.land (Byte.to_N (nth 8 l x00)) 63) 128)] ++ drop 9 l)).

(** ** Prepared inputs (prepared.rs), the fields the durable pipeline reads *)
Record PreparedRising := mkPreparedRising {
  state_input_id : array 16;
  cursor_spec : TimestampIdCursorSpec;
  pr_cursor_identity_fingerprint : array 32;
}.

Record EventMetadata := mkEventMetadata {
  em_index : rust_string;
  em_sourcetype : rust_string;
  em_source : rust_string;
}.

(** The interval in nanoseconds. *)
Record PreparedSchedule := mkPreparedSchedule { ps_disabled : bool; ps_interval : N }.

Record PreparedInput := mkPreparedInput {
  pi_input_id : array 32;
  pi_rising : option PreparedRising;
  pi_schedule : PreparedSchedule;
  pi_output : EventMetadata;
  pi_lineage_fingerprint : array 32;
  pi_revision_fingerprint : array 32;
}.

(** What a connector reports of a collection (connector-sdk/src/model.rs), and its rows. *)
Record CollectionResult := mkCollectionResult {
  cr_request_id : rust_string;
  rows_read : N;
  bytes_read : N;
  truncated : bool;
  checkpoint_candidate : option TimestampIdCursor;
  scan_resume : option TimestampIdCursor;
}.
Record JsonRow := mkJsonRow { row_line : list byte; row_cursor : option TimestampIdCursor }.

(** ** The HEC client (hec.rs) *)
Record HecClient := mkHec {
  use_ack : bool;
  max_event_bytes : N;
  max_batch_bytes : N;
}.
Record HecResponse := mkHecResponse { hec_code : N; ack_id : option N }.

(** serde_json: which texts are JSON, the event envelope (the time is a float made from
    the clock), and the responses it parses. *)
Class HecJson := {
  raw_value : list byte → bool;
  event_envelope : N → EventMetadata → list byte → list byte → option (list byte);
  hec_response : list byte → option HecResponse;
  ack_request : N → option (list byte);
  ack_response : list byte → option (gmap string bool);
}.

Definition hec_error (code class stage : string) (retryable configuration_error : bool) : DaemonError :=
  DaemonError_new code class stage retryable configuration_error.
Definition hec_transport_error (stage : string) : DaemonError :=
  hec_error "DBX-RS-HEC-0017" "transport" stage true false.

Section Hec.
Context `{HecJson}.

Definition encode_event (self : HecClient) (line : list byte) (metadata : EventMetadata) (event_id : list byte)
    : task (list byte) :=
  reject (hec_error "DBX-RS-HEC-0005" "conversion" "hec_encode" false false) when (utf8 line = false);;
  reject (hec_error "DBX-RS-HEC-0006" "conversion" "hec_encode" false false) when (raw_value line = false);;
  clock ← read_clock;
  time ← st_lift (ok_or (hec_error "DBX-RS-HEC-0016" "internal" "clock" false false) clock);
  encoded ← st_lift (ok_or (hec_error "DBX-RS-HEC-0007" "internal" "hec_encode" false false)
    (event_envelope time metadata event_id line));
  reject (hec_error "DBX-RS-HEC-0008" "configuration" "hec_encode" false true)
    when (max_event_bytes self < lengthN encoded);;
  mret encoded.

(** One round of [while Instant::now() < deadline] per entry of the clock schedule. *)
Fixpoint wait_for_ack_loop (rounds : nat) (ack_key : string) : task () :=
  let timed_out := hec_error "DBX-RS-HEC-0015" "timeout" "hec_ack" true false in
  match rounds with
  | O => mthrow timed_out
  | S rounds =>
      before ← before_deadline;
      if negb before then mthrow timed_out else
      response ← next_response;
      body ← st_lift (ok_or (hec_transport_error "hec_ack") response);
      acks ← st_lift (ok_or (hec_error "DBX-RS-HEC-0014" "protocol" "hec_ack" true false) (ack_response body));
      if default false (acks !! ack_key) then mret tt else wait_for_ack_loop rounds ack_key
  end.

Definition wait_for_ack (ack : N) : task () :=
  _ ← st_lift (ok_or (hec_error "DBX-RS-HEC-0013" "internal" "hec_ack" false false) (ack_request ack));
  s ← st_get;
  wait_for_ack_loop (S (length (deadline_reached s))) (pretty ack).

Definition send_once (self : HecClient) (body : list byte) : task () :=
  response ← next_response;
  answer ← st_lift (ok_or (hec_transport_error "hec_send") response);
  response ← st_lift (ok_or (hec_error "DBX-RS-HEC-0010" "protocol" "hec_response" true false) (hec_response answer));
  reject (hec_error "DBX-RS-HEC-0011" "protocol" "hec_response" true false) when (hec_code response ≠ 0);;
  _ ← (if use_ack self then
         ack ← st_lift (ok_or (hec_error "DBX-RS-HEC-0012" "protocol" "hec_ack" true false) (ack_id response));
         wait_for_ack ack
       else mret tt);
  record_acknowledged body.

Definition send_batch (self : HecClient) (body : list byte) : task () :=
  reject (hec_error "DBX-RS-HEC-0009" "configuration" "hec_send" false true)
    when (body = [] ∨ max_batch_bytes self < lengthN body);;
  send_once self body.
End Hec.
