(* ===== verification/Delivery.v ===== *)
(** * Delivery to the event sink (crates/dbx-rs-daemon/src/worker.rs)

    A ready segment is read back, sent in batches and only then marked delivered; the
    backlog of batch inputs is delivered and compacted segment by segment. *)

From S2P Require Export Daemon.

Local Open Scope N_scope.
Local Open Scope dbx_scope.

Record DeliveryLimits := mkDeliveryLimits { max_events : N; max_bytes : N }.

Abbreviation ReplayFences := (gmap InputKey SpoolModel.Fingerprint).

(** ** Errors *)
Definition delivery_cancelled : DaemonError :=
  DaemonError_new "DBX-RS-WORKER-0013" "cancelled" "hec_delivery" true false.
Definition accounting_error : DaemonError :=
  DaemonError_new "DBX-RS-WORKER-0003" "internal" "spool_accounting" true false.
Definition replay_input_missing : DaemonError :=
  DaemonError_new "DBX-RS-WORKER-0008" "configuration" "spool_replay_fence" false true.
Definition replay_fingerprint_mismatch : DaemonError :=
  DaemonError_new "DBX-RS-WORKER-0009" "configuration" "spool_replay_fence" false true.
Definition delivery_unavailable : DaemonError :=
  DaemonError_new "DBX-RS-WORKER-0010" "configuration" "spool_replay" false true.
Definition event_too_large : DaemonError :=
  DaemonError_new "DBX-RS-WORKER-0005" "configuration" "hec_delivery" false true.

Definition ensure_delivery_active : task () :=
  cancelled ← poll_cancelled;
  reject delivery_cancelled when (cancelled = true);;
  mret tt.

Definition NEWLINE : byte := x0a.

Section Delivery.
Context `{Sha256, Crypto, HecJson}.

(** Sending the open batch; the rows delivered so far. *)
Definition send_open_batch (hec : HecClient) (batch : list byte) (batch_events delivered_rows : N) : task N :=
  _ ← ensure_delivery_active;
  _ ← send_batch hec batch;
  _ ← ensure_delivery_active;
  st_lift (ok_or accounting_error (checked_add delivered_rows batch_events)).

(** [for event in spool.reader(ready)?], one call of the iterator per entry; the batch,
    its number of events and the delivered rows at the end. *)
Fixpoint deliver_events (calls : nat) (hec : HecClient) (limits : DeliveryLimits) (reader : SegmentReader)
    (batch : list byte) (batch_events delivered_rows : N) : task (option (list byte * N * N)) :=
  match calls with
  | O => mret None
  | S calls =>
      match SegmentReader_next reader with
      | (_, None) => mret (Some (batch, batch_events, delivered_rows))
      | (reader, Some item) =>
          _ ← ensure_delivery_active;
          event ← st_lift (map_err from_spool_error item);
          reject event_too_large when (max_bytes limits < lengthN event);;
          let separator_bytes := if decide (batch = []) then 0 else 1 in
          let next_bytes := saturating_add (saturating_add (lengthN batch) separator_bytes) (lengthN event) in
          '(batch, batch_events, delivered_rows) ←
            (if decide (batch_events = max_events limits ∨ max_bytes limits < next_bytes)
             then rows ← send_open_batch hec batch batch_events delivered_rows; mret ([], 0, rows)
             else mret (batch, batch_events, delivered_rows));
          let batch := if decide (batch = []) then batch else batch ++ [NEWLINE] in
          deliver_events calls hec limits reader (batch ++ event) (batch_events + 1) delivered_rows
      end
  end.

(** The iterator consumes bytes with every event, so one call per unread byte is enough
    ([deliver_events_run]). *)
Definition reader_calls (reader : SegmentReader) : nat := S (length (unread (dec_reader (reader_decoder reader)))).

Definition deliver_ready_segment_sync (spool : Spool) (ready : ReadySegment) (hec : HecClient)
    (limits : DeliveryLimits) : task DeliveredSegment :=
  segment_reader ← from_spool (reader spool ready);
  rest ← deliver_events (reader_calls segment_reader) hec limits segment_reader [] 0 0;
  match rest with
  | None => mthrow accounting_error
  | Some (batch, batch_events, delivered_rows) =>
      delivered_rows ← (if decide (batch = []) then mret delivered_rows
                        else send_open_batch hec batch batch_events delivered_rows);
      reject accounting_error when (delivered_rows ≠ event_count (ready_summary ready));;
      _ ← ensure_delivery_active;
      from_spool (mark_delivered spool ready)
  end.

(** ** The backlog of batch inputs *)

Definition validate_replay_header (header : SegmentHeader) (replay_fences : ReplayFences)
    (rising_inputs : gset InputKey) : result DaemonError () :=
  match replay_fences !! input_key header with
  | Some active_fingerprint =>
      reject replay_fingerprint_mismatch when (active_fingerprint ≠ header_fingerprint header);;
      mret tt
  | None =>
      if decide (input_key header ∈ rising_inputs) then mret tt else mthrow replay_input_missing
  end.

Fixpoint validate_replay_fences (ready : list ReadySegment) (replay_fences : ReplayFences)
    (rising_inputs : gset InputKey) : result DaemonError () :=
  match ready with
  | [] => mret tt
  | segment :: ready =>
      _ ← validate_replay_header (ready_header segment) replay_fences rising_inputs;
      validate_replay_fences ready replay_fences rising_inputs
  end.

(** Acknowledged segments of batch inputs are compacted first. *)
Fixpoint compact_acknowledged (spool : Spool) (delivered : list DeliveredSegment) (rising_inputs : gset InputKey)
    : task () :=
  match delivered with
  | [] => mret tt
  | segment :: delivered =>
      if decide (input_key (delivered_header segment) ∈ rising_inputs)
      then compact_acknowledged spool delivered rising_inputs
      else
        reject replay_input_missing when (as_bytes (delivered_recovery_metadata segment) ≠ []);;
        _ ← from_spool (compact_delivered spool segment);
        compact_acknowledged spool delivered rising_inputs
  end.

Fixpoint drain_segments (spool : Spool) (hec : HecClient) (limits : DeliveryLimits) (ready : list ReadySegment)
    (delivered_rows : N) : task N :=
  match ready with
  | [] => mret delivered_rows
  | segment :: ready =>
      _ ← ensure_delivery_active;
      let rows := event_count (ready_summary segment) in
      delivered ← deliver_ready_segment_sync spool segment hec limits;
      _ ← from_spool (compact_delivered spool delivered);
      delivered_rows ← st_lift (ok_or accounting_error (checked_add delivered_rows rows));
      drain_segments spool hec limits ready delivered_rows
  end.

Definition drain_ready_segments_sync (spool : Spool) (hec : option HecClient) (limits : DeliveryLimits)
    (replay_fences : ReplayFences) (rising_inputs : gset InputKey) : task N :=
  delivered ← from_spool (list_delivered spool);
  ready ← from_spool (list_ready spool);
  _ ← st_lift (validate_replay_fences ready replay_fences rising_inputs);
  _ ← compact_acknowledged spool delivered rising_inputs;
  let ready := filter (λ segment, is_Some (replay_fences !! input_key (ready_header segment))) ready in
  match ready with
  | [] => mret 0
  | _ =>
      hec ← st_lift (ok_or delivery_unavailable hec);
      drain_segments spool hec limits ready 0
  end.
End Delivery.
