(* ===== verification/Collection.v ===== *)
(** * Collecting an input into a segment (crates/dbx-rs-daemon/src/worker.rs)

    One run of an input: the rows a connector produces become events of a spool segment,
    which is sealed with its recovery metadata, or aborted when nothing was read or
    anything went wrong.  The connector is outside: its rows and its report are given.
    The two tasks meet only through the channel, so the rows are the ones the receiver
    takes out of it. *)

From S2P Require Export Delivery.

Local Open Scope N_scope.
Local Open Scope dbx_scope.

Definition EVENT_ID_DOMAIN : list byte := String.list_byte_of_string "dbx-rs/hec-event-id/v1" ++ [x00].
Definition RISING_EVENT_ID_DOMAIN : list byte :=
  String.list_byte_of_string "dbx-rs/hec-rising-event-id/v1" ++ [x00].

Inductive CollectionRun :=
  | RunBatch (configuration_generation : N)
  | RunRising (configuration_generation checkpoint_generation : N) (attempt : AttemptId) (page : N)
      (cursor : TimestampIdCursorRequest).

Inductive WorkerCompletion :=
  | CompletedBatch (collection : CollectionResult)
  | RisingSealed (collection : CollectionResult)
  | RisingEmpty (collection : CollectionResult).

(** [ConnectorError] is a type of the connectors; the pipeline only passes it on. *)
Inductive WorkerError (E : Type) :=
  | WorkerDaemon (e : DaemonError)
  | WorkerConnector (e : E).
Arguments WorkerDaemon {E} e.
Arguments WorkerConnector {E} e.

Definition cursor_accounting_error : DaemonError :=
  DaemonError_new "DBX-RS-WORKER-0011" "internal" "cursor_accounting" false false.
Definition collection_run_error : DaemonError :=
  DaemonError_new "DBX-RS-WORKER-0012" "internal" "collection_fence" false false.
Definition worker_metadata_error (e : RisingMetadataError) : DaemonError :=
  DaemonError_new (rising_metadata_code e) "storage" "rising_recovery_metadata" false false.

#[global] Instance cursor_null_policy_eq_dec : EqDecision CursorNullPolicy.
Proof. solve_decision. Defined.
#[global] Instance duration_eq_dec : EqDecision Duration.
Proof. solve_decision. Defined.
#[global] Instance cursor_spec_eq_dec : EqDecision TimestampIdCursorSpec.
Proof. solve_decision. Defined.
#[global] Instance cursor_request_eq_dec : EqDecision TimestampIdCursorRequest.
Proof. solve_decision. Defined.

Definition validate_collection_run (prepared_cursor : option TimestampIdCursorSpec) (run : CollectionRun)
    : result DaemonError () :=
  match prepared_cursor, run with
  | None, RunBatch configuration_generation =>
      if decide (0 < configuration_generation) then mret tt else mthrow collection_run_error
  | Some prepared, RunRising configuration_generation _ attempt page cursor =>
      if decide (0 < configuration_generation ∧ 0 < page
                 ∧ existsb (λ b, bool_decide (b ≠ x00)) (vec_to_list attempt) = true
                 ∧ req_spec cursor = prepared ∧ is_ok (effective_bound cursor) = true)
      then mret tt else mthrow collection_run_error
  | _, _ => mthrow collection_run_error
  end.

(** [epoch_millis] of the clock in nanoseconds. *)
Definition epoch_millis : task N :=
  clock ← read_clock;
  duration ← st_lift (ok_or (DaemonError_new "DBX-RS-WORKER-0006" "internal" "clock" false false) clock);
  let millis := duration / 1000000 in
  reject (DaemonError_new "DBX-RS-WORKER-0007" "internal" "clock" false false) when (u64_max < millis);;
  mret millis.

(** ** Event identities *)
Inductive EventIdentity :=
  | BatchIdentity (key : InputKey) (batch : BatchId)
  | RisingIdentity (key : InputKey) (lineage cursor_identity : array 32).

Section Collection.
Context `{Sha256, Crypto, HecJson}.
Context {ConnectorError : Type}.
Abbreviation worker A := (st daemon (WorkerError ConnectorError) A).
Definition in_daemon {A} (m : task A) : worker A := st_map_err WorkerDaemon m.

Definition deterministic_rising_event_id (key : InputKey) (lineage cursor_identity : array 32)
    (cursor : TimestampIdCursor) : list byte :=
  encode_hex (vec_to_list (sha256 (RISING_EVENT_ID_DOMAIN ++ vec_to_list key ++ vec_to_list lineage
    ++ vec_to_list cursor_identity ++ to_canonical_bytes cursor))).
Definition deterministic_event_id (key : InputKey) (batch : BatchId) (ordinal : N) : list byte :=
  encode_hex (vec_to_list (sha256 (EVENT_ID_DOMAIN ++ vec_to_list key ++ vec_to_list batch ++ u64_be ordinal))).

Definition event_id_of (identity : EventIdentity) (cursor : option TimestampIdCursor) (ordinal : N)
    : result DaemonError (list byte) :=
  match identity, cursor with
  | BatchIdentity key batch, None => mret (deterministic_event_id key batch ordinal)
  | RisingIdentity key lineage cursor_identity, Some cursor =>
      mret (deterministic_rising_event_id key lineage cursor_identity cursor)
  | _, _ => mthrow cursor_accounting_error
  end.

(** ** Writing the rows

    The writer is part of the state until [spool_rows] gives it back; on an error it is
    dropped. *)
Abbreviation spooling A := (st (daemon * SegmentWriter) DaemonError A).
Definition in_task {A} (m : task A) : spooling A := λ s, let '(d, r) := m s.1 in ((d, s.2), r).
Definition in_writer {A} (m : st (world * SegmentWriter) SpoolError A) : spooling A := λ s,
  let '((w, wr), r) := m (spool_world s.1, s.2) in
  ((set_spool_world w s.1, wr), map_err from_spool_error r).

Fixpoint spool_rows_loop (line_rx : list JsonRow) (hec : HecClient) (metadata : EventMetadata)
    (identity : EventIdentity) (rows : N) : spooling N :=
  match line_rx with
  | [] => mret rows
  | row :: line_rx =>
      ordinal ← st_lift (ok_or accounting_error (checked_add rows 1));
      event_id ← st_lift (event_id_of identity (row_cursor row) ordinal);
      event ← in_task (encode_event hec (row_line row) metadata event_id);
      _ ← in_writer (SegmentWriter_append_event event);
      spool_rows_loop line_rx hec metadata identity ordinal
  end.

(** Dropping a writer: what goes wrong with its file is ignored. *)
Definition drop_in_daemon (writer : SegmentWriter) : task () :=
  _ ← try_call (F := DaemonError) (on_spool (drop_writer writer)); mret tt.

Definition spool_rows (line_rx : list JsonRow) (writer : SegmentWriter) (hec : HecClient)
    (metadata : EventMetadata) (identity : EventIdentity) : task (SegmentWriter * N) := λ s,
  match spool_rows_loop line_rx hec metadata identity 0 (s, writer) with
  | ((s, writer), Ok rows) => (s, Ok (writer, rows))
  | ((s, writer), Err e) => ((drop_in_daemon writer s).1, Err e)
  end.

(** ** Finishing

    [let _ignored = writer.abort()]. *)
Definition abort_ignored (writer : SegmentWriter) : worker () :=
  _ ← try_call (F := WorkerError ConnectorError) (on_spool (abort writer)); mret tt.

(** A value returned with [?] while the writer is still owned drops the writer. *)
Definition or_drop {A} (writer : SegmentWriter) (r : result DaemonError A) : worker A :=
  match r with
  | Ok a => mret a
  | Err e => _ ← in_daemon (drop_in_daemon writer); mthrow (WorkerDaemon e)
  end.

Definition recovery_metadata_of (collection : CollectionResult) (request_fingerprint : array 32)
    : result RisingMetadataError RisingRecoveryMetadata :=
  RisingRecoveryMetadata_new (rows_read collection) (truncated collection) request_fingerprint
    (checkpoint_candidate collection) (scan_resume collection).

Definition finalize_spooled_collection (collection : result ConnectorError CollectionResult)
    (spooled : result DaemonError (SegmentWriter * N)) (recovery_request : option (array 32))
    : worker WorkerCompletion :=
  '(writer, spooled_rows) ← st_lift (map_err WorkerDaemon spooled);
  match collection with
  | Err error => _ ← abort_ignored writer; mthrow (WorkerConnector error)
  | Ok collection =>
      if decide (rows_read collection ≠ spooled_rows)
      then _ ← abort_ignored writer; mthrow (WorkerDaemon accounting_error) else
      match recovery_request with
      | Some request_fingerprint =>
          metadata ← or_drop writer (map_err worker_metadata_error (recovery_metadata_of collection request_fingerprint));
          if decide (rows_read collection = 0) then
            _ ← in_daemon (from_spool (abort writer));
            mret (RisingEmpty collection)
          else
            encoded ← or_drop writer (map_err worker_metadata_error (rising_encode metadata));
            ready ← in_daemon (from_spool (seal_with_recovery_metadata writer encoded));
            if decide (event_count (ready_summary ready) ≠ rows_read collection)
            then mthrow (WorkerDaemon accounting_error) else mret (RisingSealed collection)
      | None =>
          ready ← in_daemon (from_spool (SegmentWriter_seal writer));
          if decide (event_count (ready_summary ready) ≠ rows_read collection)
          then mthrow (WorkerDaemon accounting_error) else mret (CompletedBatch collection)
      end
  end.

(** ** One run *)
Definition run_header (input : PreparedInput) (run : CollectionRun) (created_epoch_millis : N)
    : task (SegmentHeader * option TimestampIdCursorRequest) :=
  let header gen batch batch_seq segment_seq :=
    mkHeader (pi_input_id input) (pi_revision_fingerprint input) gen batch batch_seq segment_seq
      created_epoch_millis in
  match run with
  | RunBatch gen => batch ← generate_uuid_bytes; mret (header gen batch created_epoch_millis 1, None)
  | RunRising gen checkpoint_gen attempt page cursor =>
      mret (header gen attempt checkpoint_gen page, Some cursor)
  end.

Definition recovery_request_of (input : PreparedInput) (cursor : option TimestampIdCursorRequest)
    : result DaemonError (option (array 32)) :=
  match cursor, pi_rising input with
  | Some cursor, Some rising =>
      mret (Some (rising_request_fingerprint (pr_cursor_identity_fingerprint rising) cursor))
  | None, None => mret None
  | _, _ => mthrow collection_run_error
  end.

Definition identity_of (input : PreparedInput) (header : SegmentHeader)
    (cursor : option TimestampIdCursorRequest) : result DaemonError EventIdentity :=
  match cursor with
  | Some _ =>
      rising ← ok_or collection_run_error (pi_rising input);
      mret (RisingIdentity (input_key header) (pi_lineage_fingerprint input) (pr_cursor_identity_fingerprint rising))
  | None => mret (BatchIdentity (input_key header) (batch_id header))
  end.

(** [secret] is the outcome of [secrets.resolve], [rows] and [collection] what the
    connector sent and reported. *)
Definition run_input_inner (input : PreparedInput) (run : CollectionRun) (spool : Spool) (hec : HecClient)
    (secret : result DaemonError ()) (rows : list JsonRow) (collection : result ConnectorError CollectionResult)
    : worker WorkerCompletion :=
  _ ← st_lift (map_err WorkerDaemon (validate_collection_run (cursor_spec <$> pi_rising input) run));
  created_epoch_millis ← in_daemon epoch_millis;
  '(header, cursor) ← in_daemon (run_header input run created_epoch_millis);
  writer ← in_daemon (from_spool (begin_segment spool header));
  _ ← or_drop writer secret;
  identity ← or_drop writer (identity_of input header cursor);
  spooled ← try_call (spool_rows rows writer hec (pi_output input) identity);
  match recovery_request_of input cursor with
  | Err e =>
      _ ← (match spooled with Ok (writer, _) => in_daemon (drop_in_daemon writer) | Err _ => mret tt end);
      mthrow (WorkerDaemon e)
  | Ok recovery_request => finalize_spooled_collection collection spooled recovery_request
  end.
End Collection.
