(* ===== verification/Rising.v ===== *)
(** * The rising coordinator (crates/dbx-rs-daemon/src/rising.rs)

    Durable orchestration of a rising input: a page is sealed in the spool before the
    checkpoint store refers to it, its delivery receipt is stored before its segment is
    compacted, and the cursor is committed when every page is delivered.  The delivery
    callback of [reconcile] is an argument, as in the code. *)

From S2P Require Export Collection StateTransitionProps.

Local Open Scope N_scope.
Local Open Scope dbx_scope.

Definition INITIAL_CONFIGURATION_GENERATION : N := 1.
Definition INITIAL_CHECKPOINT_GENERATION : N := 0.
Definition ATTEMPT_ID_GENERATION_LIMIT : nat := 16.

(** ** Errors *)
Definition state_store_error : DaemonError :=
  DaemonError_new "DBX-RS-RISING-0003" "storage" "checkpoint_state" false false.
Definition checkpoint_invariant_error : DaemonError :=
  DaemonError_new "DBX-RS-RISING-0004" "storage" "checkpoint_transition" false false.
Definition missing_state_error : DaemonError :=
  DaemonError_new "DBX-RS-RISING-0005" "storage" "checkpoint_state" false false.
Definition identity_migration_error : DaemonError :=
  DaemonError_new "DBX-RS-RISING-0006" "configuration" "rising_identity" false true.
Definition configuration_activation_error : DaemonError :=
  DaemonError_new "DBX-RS-RISING-0007" "configuration" "configuration_activation" false true.
Definition inventory_error : DaemonError :=
  DaemonError_new "DBX-RS-RISING-0008" "storage" "spool_recovery" false false.
Definition page_context_error : DaemonError :=
  DaemonError_new "DBX-RS-RISING-0009" "storage" "page_fence" false false.
Definition cursor_request_error : DaemonError :=
  DaemonError_new "DBX-RS-RISING-0010" "configuration" "cursor_bound" false true.
Definition empty_completion_error : DaemonError :=
  DaemonError_new "DBX-RS-RISING-0011" "internal" "collection_accounting" false false.
Definition detached_identity_error : DaemonError :=
  DaemonError_new "DBX-RS-RISING-0012" "configuration" "rising_identity" false true.
Definition rising_configuration_error : DaemonError :=
  DaemonError_new "DBX-RS-RISING-0001" "configuration" "rising_configuration" false true.
Definition attempt_identity_error : DaemonError :=
  DaemonError_new "DBX-RS-RISING-0002" "internal" "attempt_identity" false false.
Definition rising_metadata_error (e : RisingMetadataError) : DaemonError :=
  DaemonError_new (rising_metadata_code e) "storage" "rising_recovery" false false.

(** ** Data *)

(** [RisingCoordinator] holds only the store. *)
Record RisingCoordinator := mkCoordinator { coordinator_store : FileCheckpointStore }.

Record RisingPageContext := mkPageContext {
  ctx_configuration_generation : N;
  ctx_checkpoint_generation : N;
  ctx_attempt_id : AttemptId;
  ctx_page : N;
  ctx_cursor_request : TimestampIdCursorRequest;
  ctx_input_key : InputKey;
  ctx_configuration_fingerprint : array 32;
}.

(** The run of a page, as the runtime launches it (runtime.rs, [spawn_due_workers]). *)
Definition collection_run (context : RisingPageContext) : CollectionRun :=
  RunRising (ctx_configuration_generation context) (ctx_checkpoint_generation context) (ctx_attempt_id context)
    (ctx_page context) (ctx_cursor_request context).

Inductive StartPageOutcome :=
  | Ready (context : RisingPageContext)
  | AwaitingReconcile.

Inductive RisingReconcileOutcome :=
  | Idle (checkpoint_generation : N)
  | NeedsCollection (checkpoint_generation next_page : N)
  | ScanCommitted (checkpoint_generation : N) (cursor_advanced : bool).

Record RisingStateStatus := mkStatus {
  status_configuration_generation : N;
  status_checkpoint_generation : N;
  status_committed : option TimestampIdCursor;
  status_active : bool;
  status_next_page : option N;
  status_delivered_through_sequence : N;
}.

Definition status (state : DurableInputState) : RisingStateStatus :=
  mkStatus (configuration_generation state) (generation (coordinator state)) (committed (coordinator state))
    (bool_decide (is_Some (active_attempt (coordinator state)))) (next_page <$> active_scan state)
    (from_option delivered_through_sequence 0 (active_scan state)).

(** A segment of the inventory, in one of its two states. *)
Inductive LocatedSegment :=
  | LocatedReady (segment : ReadySegment)
  | LocatedDelivered (segment : DeliveredSegment).

Record InputInventory := mkInventory {
  inv_ready : list ReadySegment;
  inv_delivered : list DeliveredSegment;
}.

Record InventoryPlan := mkPlan {
  orphan : option ReadySegment;
  pending : gmap N LocatedSegment;
  receipted_delivered : list DeliveredSegment;
}.

Definition is_clean_for_collection (plan : InventoryPlan) : bool :=
  bool_decide (orphan plan = None ∧ pending plan = ∅ ∧ receipted_delivered plan = []).

(** [SegmentView]: both kinds of segment through one interface. *)
Definition view (s : LocatedSegment) : ReadySegment :=
  match s with LocatedReady s => s | LocatedDelivered s => as_ready s end.
Definition view_metadata (s : ReadySegment) : result DaemonError RisingRecoveryMetadata :=
  map_err rising_metadata_error (rising_decode (ready_recovery_metadata s)).

Section Rising.
Context `{Sha256, Crypto, HecJson, SerdeJson}.

(** ** Small helpers *)
Definition require_rising (input : PreparedInput) : result DaemonError PreparedRising :=
  ok_or rising_configuration_error (pi_rising input).
Definition state_key (rising : PreparedRising) : StateKey := StateKey_for_input (state_input_id rising).
Definition active_fence (state : DurableInputState) : result DaemonError AttemptFence :=
  ok_or checkpoint_invariant_error (fence <$> active_attempt (coordinator state)).
Definition sealed_rows (scan : ActiveScan) : result DaemonError N :=
  ok_or checkpoint_invariant_error (try_sum_rows (compacted_rows scan) (DurableState.segments scan)).
Definition scan_segment_count (scan : ActiveScan) : result DaemonError N :=
  ok_or checkpoint_invariant_error
    (checked_add (compacted_through_sequence scan) (lengthN (DurableState.segments scan))).
Definition scan_of (state : DurableInputState) : result DaemonError ActiveScan :=
  ok_or checkpoint_invariant_error (active_scan state).

(** [next.coordinator.method(..)] on a clone of the state. *)
Definition with_coordinator {A} (m : snap A) (state : DurableInputState) : result DaemonError (DurableInputState * A) :=
  match m (coordinator state) with
  | (c, Ok a) => Ok (mkState (format_version state) (input_id state) (source_lineage_fingerprint state)
      (cursor_identity_fingerprint state) (configuration_fingerprint state) (configuration_generation state)
      c (active_scan state), a)
  | (_, Err _) => Err checkpoint_invariant_error
  end.
Definition set_active_scan (scan : option ActiveScan) (state : DurableInputState) : DurableInputState :=
  mkState (format_version state) (input_id state) (source_lineage_fingerprint state)
    (cursor_identity_fingerprint state) (configuration_fingerprint state) (configuration_generation state)
    (coordinator state) scan.

Definition initial_state (input : PreparedInput) (rising : PreparedRising) : DurableInputState :=
  let fp := pi_revision_fingerprint input in
  DurableInputState_new (state_input_id rising) (pi_lineage_fingerprint input)
    (pr_cursor_identity_fingerprint rising) fp INITIAL_CONFIGURATION_GENERATION
    (Snapshot_new (configuration_fence_id fp INITIAL_CONFIGURATION_GENERATION) INITIAL_CHECKPOINT_GENERATION None)
    None.

Definition validate_prepared_identity (state : DurableInputState) (input : PreparedInput) (rising : PreparedRising)
    : result DaemonError () :=
  reject identity_migration_error
    when (input_id state ≠ state_input_id rising
          ∨ source_lineage_fingerprint state ≠ pi_lineage_fingerprint input
          ∨ cursor_identity_fingerprint state ≠ pr_cursor_identity_fingerprint rising);;
  mret tt.

(** The request that the next page of the scan answers. *)
Definition next_request (state : DurableInputState) (rising : PreparedRising) (scan : ActiveScan)
    : TimestampIdCursorRequest :=
  mkRequest (cursor_spec rising) (committed (coordinator state)) (resume_after scan).

Definition validate_page_context (state : DurableInputState) (input : PreparedInput) (rising : PreparedRising)
    (context : RisingPageContext) : result DaemonError () :=
  active ← ok_or page_context_error (active_attempt (coordinator state));
  scan ← ok_or page_context_error (active_scan state);
  reject page_context_error
    when (ctx_input_key context ≠ pi_input_id input
          ∨ ctx_configuration_fingerprint context ≠ pi_revision_fingerprint input
          ∨ ctx_configuration_generation context ≠ configuration_generation state
          ∨ ctx_checkpoint_generation context ≠ generation (coordinator state)
          ∨ ctx_attempt_id context ≠ attempt_id (fence active)
          ∨ ctx_page context ≠ next_page scan
          ∨ ctx_cursor_request context ≠ next_request state rising scan);;
  mret tt.

Definition expected_request_fingerprint (state : DurableInputState) (input : PreparedInput)
    : result DaemonError (array 32) :=
  rising ← require_rising input;
  scan ← scan_of state;
  mret (rising_request_fingerprint (pr_cursor_identity_fingerprint rising) (next_request state rising scan)).

(** ** Segments against the durable state *)

Definition validate_common_segment (state : DurableInputState) (input : PreparedInput) (segment : ReadySegment)
    : result DaemonError RisingRecoveryMetadata :=
  active ← ok_or inventory_error (active_attempt (coordinator state));
  let header := ready_header segment in
  reject inventory_error
    when (input_key header ≠ pi_input_id input
          ∨ header_fingerprint header ≠ pi_revision_fingerprint input
          ∨ header_generation header ≠ configuration_generation state
          ∨ batch_id header ≠ attempt_id (fence active)
          ∨ batch_sequence header ≠ generation (coordinator state)
          ∨ segment_sequence header = 0);;
  metadata ← view_metadata segment;
  reject inventory_error
    when (rm_rows metadata ≠ event_count (ready_summary segment) ∨ rm_rows metadata = 0);;
  mret metadata.

Definition validate_reference (state : DurableInputState) (input : PreparedInput) (scan : ActiveScan)
    (reference : SegmentRef) (segment : ReadySegment) : result DaemonError () :=
  metadata ← validate_common_segment state input segment;
  reject inventory_error
    when (sequence reference ≠ page reference
          ∨ segment_sequence (ready_header segment) ≠ page reference
          ∨ ready_segment_id segment ≠ segment_id reference
          ∨ event_count (ready_summary segment) ≠ rows reference
          ∨ ReadySegment_reference_digest segment ≠ digest reference);;
  last_sequence ← scan_segment_count scan;
  reject inventory_error
    when ((sequence reference < last_sequence ∨ complete scan = false) ∧ rm_truncated metadata = false);;
  mret tt.

Definition validate_delivered_for_reference (state : DurableInputState) (input : PreparedInput) (seq : N)
    (delivered : DeliveredSegment) : result DaemonError () :=
  scan ← scan_of state;
  reference ← ok_or checkpoint_invariant_error
    (snd <$> list_find (λ reference, sequence reference = seq) (DurableState.segments scan));
  validate_reference state input scan reference (as_ready delivered).

(** ** The inventory *)

Abbreviation by_id := (gmap (array 16) LocatedSegment).

Fixpoint index_segments (state : DurableInputState) (input : PreparedInput) (segments : list LocatedSegment)
    (index : by_id) : result DaemonError by_id :=
  match segments with
  | [] => mret index
  | segment :: segments =>
      _ ← validate_common_segment state input (view segment);
      reject inventory_error when (is_Some (index !! ready_segment_id (view segment)));;
      index_segments state input segments (<[ready_segment_id (view segment) := segment]> index)
  end.

Definition index_inventory (state : DurableInputState) (input : PreparedInput) (inventory : InputInventory)
    : result DaemonError by_id :=
  index_segments state input
    ((LocatedReady <$> inv_ready inventory) ++ (LocatedDelivered <$> inv_delivered inventory)) ∅.

Definition adoptable_orphan (scan : ActiveScan) (index : by_id) : result DaemonError (option ReadySegment) :=
  match map_to_list index with
  | [] => mret None
  | [(_, LocatedReady ready)] =>
      if decide (complete scan = false ∧ segment_sequence (ready_header ready) = next_page scan
                 ∧ 0 < event_count (ready_summary ready))
      then mret (Some ready) else mthrow inventory_error
  | _ => mthrow inventory_error
  end.

(** The loop over the references of the scan. *)
Fixpoint match_references (state : DurableInputState) (input : PreparedInput) (scan : ActiveScan)
    (references : list SegmentRef) (index : by_id) (pending : gmap N LocatedSegment)
    (receipted : list DeliveredSegment)
    : result DaemonError (by_id * gmap N LocatedSegment * list DeliveredSegment) :=
  match references with
  | [] => mret (index, pending, receipted)
  | reference :: references =>
      let located := index !! segment_id reference in
      let index := delete (segment_id reference) index in
      if decide (sequence reference ≤ delivered_through_sequence scan) then
        match located with
        | None => match_references state input scan references index pending receipted
        | Some (LocatedDelivered delivered) =>
            _ ← validate_reference state input scan reference (as_ready delivered);
            match_references state input scan references index pending (receipted ++ [delivered])
        | Some (LocatedReady _) => mthrow inventory_error
        end
      else
        match located with
        | None => mthrow inventory_error
        | Some located =>
            _ ← validate_reference state input scan reference (view located);
            reject inventory_error when (is_Some (pending !! sequence reference));;
            match_references state input scan references index (<[sequence reference := located]> pending) receipted
        end
  end.

Definition validate_inventory (state : DurableInputState) (input : PreparedInput) (inventory : InputInventory)
    : result DaemonError InventoryPlan :=
  index ← index_inventory state input inventory;
  match active_scan state with
  | None => if decide (index = ∅) then mret (mkPlan None ∅ []) else mthrow inventory_error
  | Some scan =>
      '(index, pending, receipted) ← match_references state input scan (DurableState.segments scan) index ∅ [];
      orphan ← adoptable_orphan scan index;
      mret (mkPlan orphan pending receipted)
  end.

Definition InputInventory_load (input : PreparedInput) (spool : Spool) : task InputInventory :=
  ready ← from_spool (list_ready spool);
  delivered ← from_spool (list_delivered spool);
  mret (mkInventory (filter (λ segment, input_key (ready_header segment) = pi_input_id input) ready)
    (filter (λ segment, input_key (delivered_header segment) = pi_input_id input) delivered)).

Definition input_spool_is_nonempty (input : PreparedInput) (spool : Spool) : task bool :=
  usage ← from_spool (Spool_usage spool);
  if decide (input_stored_bytes usage (pi_input_id input) ≠ 0 ∨ input_reserved_bytes usage (pi_input_id input) ≠ 0)
  then mret true else
  inventory ← InputInventory_load input spool;
  mret (bool_decide (inv_ready inventory ≠ [] ∨ inv_delivered inventory ≠ [])).

(** ** State changes *)

(** The state after adopting the next sealed page. *)
Definition adopt_orphan (state : DurableInputState) (input : PreparedInput) (orphan : ReadySegment)
    : result DaemonError DurableInputState :=
  metadata ← validate_common_segment state input orphan;
  expected ← expected_request_fingerprint state input;
  reject inventory_error when (rm_request_fingerprint metadata ≠ expected);;
  fence ← active_fence state;
  scan ← scan_of state;
  reject inventory_error
    when (complete scan = true ∨ segment_sequence (ready_header orphan) ≠ next_page scan
          ∨ rm_rows metadata = 0 ∨ rm_rows metadata ≠ event_count (ready_summary orphan));;
  count ← scan_segment_count scan;
  seq ← ok_or checkpoint_invariant_error (checked_add count 1);
  reject inventory_error
    when (seq ≠ next_page scan ∨ MAX_SEGMENTS_PER_SCAN ≤ lengthN (DurableState.segments scan));;
  let reference := mkSegmentRef (ready_segment_id orphan) seq (next_page scan) (rm_rows metadata)
    (ReadySegment_reference_digest orphan) in
  next_page' ← ok_or checkpoint_invariant_error (checked_add (next_page scan) 1);
  let scan := mkScan (scan_attempt_id scan) (base_committed scan) (rm_scan_resume metadata)
    (rm_checkpoint_candidate metadata) (compacted_through_sequence scan) (compacted_rows scan) next_page'
    (negb (rm_truncated metadata)) (DurableState.segments scan ++ [reference]) (delivered_through_sequence scan) in
  rows ← sealed_rows scan;
  let next := set_active_scan (Some scan) state in
  if complete scan then
    '(next, _) ← with_coordinator (collection_completed fence rows (maximum_candidate scan)) next;
    mret next
  else mret next.

Definition fresh_attempt_id_from (previous : option AttemptId) : nat → task AttemptId :=
  fix loop (attempts : nat) := match attempts with
  | O => mthrow attempt_identity_error
  | S attempts =>
      candidate ← generate_uuid_bytes;
      if decide (Some candidate ≠ previous) then mret candidate else loop attempts
  end.
Definition fresh_attempt_id (state : DurableInputState) : task AttemptId :=
  fresh_attempt_id_from
    ((λ a, attempt_id (committed_fence a)) <$> last_committed_attempt (coordinator state)) ATTEMPT_ID_GENERATION_LIMIT.

(** The removable prefix of receipted references, and the state without it. *)
Fixpoint receipted_prefix (receipt : N) (references : list SegmentRef) : nat :=
  match references with
  | reference :: references => if decide (sequence reference ≤ receipt) then S (receipted_prefix receipt references) else O
  | [] => O
  end.
Definition pruned (state : DurableInputState) : result DaemonError (option DurableInputState) :=
  scan ← scan_of state;
  let removable := receipted_prefix (delivered_through_sequence scan) (DurableState.segments scan) in
  if decide (removable = O) then mret None else
  removed_rows ← ok_or checkpoint_invariant_error (try_sum_rows 0 (take removable (DurableState.segments scan)));
  last_removed ← ok_or checkpoint_invariant_error (DurableState.segments scan !! (removable - 1)%nat);
  rows ← ok_or checkpoint_invariant_error (checked_add (compacted_rows scan) removed_rows);
  mret (Some (set_active_scan (Some (set_compacted (sequence last_removed) rows
    (drop removable (DurableState.segments scan)) scan)) state)).

(** ** Methods *)
Context (self : RisingCoordinator).

(** [self.store.method(..).map_err(state_store_error)?]. *)
Definition from_store {A} (m : store A) : task A := st_map_err (λ _, state_store_error) (on_spool (on_disk m)).
Definition load_state (key : StateKey) : task LoadResult := from_store (load (coordinator_store self) key).
Definition exchange (key : StateKey) (stored : StoredState) (next : DurableInputState) : task StoredState :=
  from_store (compare_exchange (coordinator_store self) key (token stored) next).

Definition load_current (input : PreparedInput) (rising : PreparedRising) : task StoredState :=
  loaded ← load_state (state_key rising);
  match loaded with
  | Missing => mthrow missing_state_error
  | Current state =>
      _ ← st_lift (validate_prepared_identity (value state) input rising);
      reject configuration_activation_error
        when (configuration_fingerprint (value state) ≠ pi_revision_fingerprint input);;
      mret state
  end.

Definition ensure_input (input : PreparedInput) (spool : Spool) : task RisingStateStatus :=
  rising ← st_lift (require_rising input);
  let key := state_key rising in
  loaded ← load_state key;
  state ← (match loaded with
    | Missing =>
        nonempty ← input_spool_is_nonempty input spool;
        reject inventory_error when (nonempty = true);;
        from_store (create (coordinator_store self) key (initial_state input rising))
    | Current state =>
        _ ← st_lift (validate_prepared_identity (value state) input rising);
        if decide (configuration_fingerprint (value state) = pi_revision_fingerprint input) then mret state else
        blocked ← (if decide (active_scan (value state) ≠ None ∨ active_attempt (coordinator (value state)) ≠ None)
                   then mret true else input_spool_is_nonempty input spool);
        reject configuration_activation_error when (blocked = true);;
        from_store (activate_configuration (coordinator_store self) key (token state) (pi_revision_fingerprint input))
    end);
  mret (status (value state)).

(** The state with a started attempt. *)
Definition started (state : DurableInputState) (attempt : AttemptId) : result DaemonError DurableInputState :=
  let fence := mkFence attempt (configuration_id (coordinator state)) (generation (coordinator state)) in
  '(next, _) ← with_coordinator (start_attempt fence) state;
  mret (set_active_scan (Some (initial_scan attempt (committed (coordinator next)))) next).

Definition start_or_resume_page (input : PreparedInput) (spool : Spool) : task StartPageOutcome :=
  _ ← ensure_input input spool;
  rising ← st_lift (require_rising input);
  let key := state_key rising in
  stored ← load_current input rising;
  inventory ← InputInventory_load input spool;
  plan ← st_lift (validate_inventory (value stored) input inventory);
  if negb (is_clean_for_collection plan) then mret AwaitingReconcile else
  stored ← (match active_attempt (coordinator (value stored)) with
    | Some _ => mret stored
    | None =>
        attempt ← fresh_attempt_id (value stored);
        next ← st_lift (started (value stored) attempt);
        exchange key stored next
    end);
  active ← st_lift (ok_or checkpoint_invariant_error (active_attempt (coordinator (value stored))));
  scan ← st_lift (scan_of (value stored));
  (* [||] evaluates the count only when the other tests are false *)
  if decide (complete scan = true ∨ collection active ≠ CollInProgress ∨ delivery active ≠ DelInProgress)
  then mret AwaitingReconcile else
  count ← st_lift (scan_segment_count scan);
  if decide (delivered_through_sequence scan ≠ count) then mret AwaitingReconcile else
  let cursor_request := next_request (value stored) rising scan in
  _ ← st_lift (map_err (λ _, cursor_request_error) (effective_bound cursor_request));
  mret (Ready (mkPageContext (configuration_generation (value stored)) (generation (coordinator (value stored)))
    (attempt_id (fence active)) (next_page scan) cursor_request (pi_input_id input) (pi_revision_fingerprint input))).

(** The state whose scan ends with an empty page. *)
Definition completed_empty (state : DurableInputState) (page : N) : result DaemonError DurableInputState :=
  fence ← active_fence state;
  scan ← scan_of state;
  reject page_context_error when (complete scan = true ∨ next_page scan ≠ page);;
  let scan := set_complete true scan in
  rows ← sealed_rows scan;
  '(next, _) ← with_coordinator (collection_completed fence rows (maximum_candidate scan))
    (set_active_scan (Some scan) state);
  mret next.

Definition record_empty_completion (input : PreparedInput) (context : RisingPageContext)
    (collection : CollectionResult) (spool : Spool) : task () :=
  reject empty_completion_error
    when (rows_read collection ≠ 0 ∨ truncated collection = true
          ∨ checkpoint_candidate collection ≠ None ∨ scan_resume collection ≠ None);;
  _ ← ensure_input input spool;
  rising ← st_lift (require_rising input);
  stored ← load_current input rising;
  _ ← st_lift (validate_page_context (value stored) input rising context);
  inventory ← InputInventory_load input spool;
  plan ← st_lift (validate_inventory (value stored) input inventory);
  reject inventory_error when (is_clean_for_collection plan = false);;
  next ← st_lift (completed_empty (value stored) (ctx_page context));
  _ ← exchange (state_key rising) stored next;
  mret tt.

Definition prune_compacted_prefix (key : StateKey) (stored : StoredState) : task StoredState :=
  next ← st_lift (pruned (value stored));
  match next with
  | None => mret stored
  | Some next => exchange key stored next
  end.

Fixpoint compact_receipted (spool : Spool) (receipted : list DeliveredSegment) : task () :=
  match receipted with
  | [] => mret tt
  | delivered :: receipted => _ ← from_spool (compact_delivered spool delivered); compact_receipted spool receipted
  end.

Definition with_receipt (state : DurableInputState) (seq : N) : result DaemonError DurableInputState :=
  scan ← scan_of state;
  mret (set_active_scan (Some (set_delivered seq scan)) state).

(** The body of the loop of [reconcile_delivery_prefix] for the page of [seq]: delivered,
    receipted in the durable state, and only then compacted. *)
Definition reconcile_page (deliver : ReadySegment → task DeliveredSegment) (key : StateKey)
    (stored : StoredState) (input : PreparedInput) (spool : Spool) (seq : N) (located : LocatedSegment)
    : task StoredState :=
  delivered ← (match located with
    | LocatedReady ready =>
        delivered ← deliver ready;
        _ ← st_lift (validate_delivered_for_reference (value stored) input seq delivered);
        mret delivered
    | LocatedDelivered delivered => mret delivered
    end);
  next ← st_lift (with_receipt (value stored) seq);
  stored ← exchange key stored next;
  _ ← from_spool (compact_delivered spool delivered);
  prune_compacted_prefix key stored.

(** The loop.  Every round takes an entry out of [pending], so one round per entry (and
    one) is enough ([reconcile_loop_rounds]). *)
Fixpoint reconcile_loop (rounds : nat) (deliver : ReadySegment → task DeliveredSegment) (key : StateKey)
    (stored : StoredState) (input : PreparedInput) (spool : Spool) (pending : gmap N LocatedSegment) : task StoredState :=
  match rounds with
  | O => mthrow inventory_error
  | S rounds =>
      scan ← st_lift (scan_of (value stored));
      next_sequence ← st_lift (ok_or checkpoint_invariant_error (checked_add (delivered_through_sequence scan) 1));
      count ← st_lift (scan_segment_count scan);
      if decide (count < next_sequence) then mret stored else
      located ← st_lift (ok_or inventory_error (pending !! next_sequence));
      stored ← reconcile_page deliver key stored input spool next_sequence located;
      reconcile_loop rounds deliver key stored input spool (delete next_sequence pending)
  end.

Definition adopt_pending (key : StateKey) (stored : StoredState) (input : PreparedInput) (plan : InventoryPlan)
    : task (StoredState * gmap N LocatedSegment) :=
  match orphan plan with
  | None => mret (stored, pending plan)
  | Some orphan =>
      next ← st_lift (adopt_orphan (value stored) input orphan);
      stored ← exchange key stored next;
      scan ← st_lift (scan_of (value stored));
      seq ← st_lift (scan_segment_count scan);
      mret (stored, <[seq := LocatedReady orphan]> (pending plan))
  end.

Definition reconcile_delivery_prefix (deliver : ReadySegment → task DeliveredSegment) (key : StateKey)
    (stored : StoredState) (input : PreparedInput) (spool : Spool) (plan : InventoryPlan) : task StoredState :=
  _ ← compact_receipted spool (receipted_delivered plan);
  stored ← prune_compacted_prefix key stored;
  '(stored, pending) ← adopt_pending key stored input plan;
  reconcile_loop (S (size pending)) deliver key stored input spool pending.

(** The confirmed delivery of the whole scan. *)
Definition confirm_delivery (key : StateKey) (stored : StoredState) (fence : AttemptFence) (rows : N)
    : task StoredState :=
  active ← st_lift (ok_or checkpoint_invariant_error (active_attempt (coordinator (value stored))));
  match delivery active with
  | DelInProgress =>
      '(next, _) ← st_lift (with_coordinator (delivery_confirmed fence rows) (value stored));
      exchange key stored next
  | DelConfirmed delivered_rows =>
      if decide (delivered_rows = rows) then mret stored else mthrow checkpoint_invariant_error
  | DelFailed | DelUncertain => mthrow checkpoint_invariant_error
  end.

Definition finish_reconciled_scan (key : StateKey) (stored : StoredState) : task RisingReconcileOutcome :=
  scan ← st_lift (scan_of (value stored));
  if negb (complete scan)
  then mret (NeedsCollection (generation (coordinator (value stored))) (next_page scan)) else
  count ← st_lift (scan_segment_count scan);
  reject inventory_error when (delivered_through_sequence scan ≠ count);;
  fence ← st_lift (active_fence (value stored));
  rows ← st_lift (sealed_rows scan);
  stored ← confirm_delivery key stored fence rows;
  '(next, commit_outcome) ← st_lift (with_coordinator (commit fence) (value stored));
  committed_state ← exchange key stored (set_active_scan None next);
  match commit_outcome with
  | AlreadyCommitted _ => mthrow checkpoint_invariant_error
  | Committed gen cursor_advanced =>
      reject checkpoint_invariant_error when (generation (coordinator (value committed_state)) ≠ gen);;
      mret (ScanCommitted gen cursor_advanced)
  end.

Definition reconcile (input : PreparedInput) (spool : Spool) (deliver : ReadySegment → task DeliveredSegment)
    : task RisingReconcileOutcome :=
  rising ← st_lift (require_rising input);
  let key := state_key rising in
  loaded ← load_state key;
  match loaded with
  | Missing =>
      nonempty ← input_spool_is_nonempty input spool;
      reject inventory_error when (nonempty = true);;
      mret (Idle INITIAL_CHECKPOINT_GENERATION)
  | Current _ =>
      _ ← ensure_input input spool;
      stored ← load_current input rising;
      inventory ← InputInventory_load input spool;
      plan ← st_lift (validate_inventory (value stored) input inventory);
      if decide (active_scan (value stored) = None)
      then mret (Idle (generation (coordinator (value stored)))) else
      stored ← reconcile_delivery_prefix deliver key stored input spool plan;
      finish_reconciled_scan key stored
  end.

(** ** Startup and reload *)

Definition validate_candidate_identity (input : PreparedInput) : task () :=
  rising ← st_lift (require_rising input);
  loaded ← load_state (state_key rising);
  match loaded with
  | Missing => mret tt
  | Current state => st_lift (validate_prepared_identity (value state) input rising)
  end.

(** [inputs] are the values of the map of inputs in the order of its keys. *)
Definition validate_configured_identities (inputs : list PreparedInput) : task () :=
  let configured : gset (array 16) := list_to_set (omap (λ input, state_input_id <$> pi_rising input) inputs) in
  persisted ← from_store (input_ids (coordinator_store self));
  reject detached_identity_error
    when (existsb (λ identity : InputId, bool_decide ((identity : array 16) ∉ configured)) persisted = true);;
  mret tt.

Fixpoint preflight_inputs (inputs : list PreparedInput) (spool : Spool) : task () :=
  match inputs with
  | [] => mret tt
  | input :: inputs =>
      _ ← (match pi_rising input with
        | None => mret tt
        | Some rising =>
            loaded ← load_state (state_key rising);
            match loaded with
            | Missing =>
                nonempty ← input_spool_is_nonempty input spool;
                reject inventory_error when (nonempty = true);;
                mret tt
            | Current _ => _ ← ensure_input input spool; mret tt
            end
        end);
      preflight_inputs inputs spool
  end.

Definition preflight_startup (inputs : list PreparedInput) (spool : Spool) : task () :=
  _ ← validate_configured_identities inputs;
  preflight_inputs inputs spool.

End Rising.

(** [RisingCoordinator::open]. *)
Definition RisingCoordinator_open (is_absolute : bool) (p : path) : task RisingCoordinator :=
  store ← st_map_err (λ _, state_store_error) (on_spool (on_disk (store_open is_absolute p)));
  mret (mkCoordinator store).
