(* ===== verification/DeliveryProps.v ===== *)
(** * Delivery comes after the acknowledgement

    What the HEC client and the delivery loop do to the spool (nothing) and to the log of
    acknowledged bodies, and that a segment changes its state only after the sink has
    acknowledged exactly its events. *)

From S2P Require Export Delivery SpoolSegmentLife SpoolRuns.

Local Open Scope N_scope.
Local Open Scope dbx_scope.

(** ** Operations beside the spool *)

(** Only the schedules of the daemon are consumed. *)
Definition beside (s s' : daemon) : Prop := spool_world s' = spool_world s ∧ acknowledged s' = acknowledged s.
Definition asking {E A} (m : st daemon E A) : Prop := ∀ s, beside s (m s).1.

Lemma beside_refl s : beside s s.
Proof. done. Qed.
Lemma beside_trans s s1 s2 : beside s s1 → beside s1 s2 → beside s s2.
Proof. intros [? ?] [? ?]. split; congruence. Qed.

Section Asking.
Context {E : Type}.
Lemma asking_ret {A} (a : A) : asking (mret a : st daemon E A).
Proof. done. Qed.
Lemma asking_throw {A} (e : E) : asking (mthrow e : st daemon E A).
Proof. done. Qed.
Lemma asking_lift {A} (r : result E A) : asking (st_lift r : st daemon E A).
Proof. done. Qed.
Lemma asking_get : asking (st_get : st daemon E daemon).
Proof. done. Qed.
Lemma asking_bind {A B} (m : st daemon E A) (f : A → st daemon E B) :
  asking m → (∀ a, asking (f a)) → asking (m ≫= f).
Proof.
  intros Hm Hf s. specialize (Hm s). unfold mbind, st_bind. destruct (m s) as [s1 [a|e]]; cbn in Hm; [|done].
  eapply beside_trans; [exact Hm|apply Hf].
Qed.
End Asking.

Lemma asking_response : asking next_response.
Proof. intros s. unfold next_response. by destruct (responses s). Qed.
Lemma asking_deadline : asking before_deadline.
Proof. intros s. unfold before_deadline. by destruct (deadline_reached s). Qed.
Lemma asking_clock : asking read_clock.
Proof. intros s. unfold read_clock. by destruct (wall_clock s). Qed.
Lemma asking_cancelled : asking poll_cancelled.
Proof. intros s. unfold poll_cancelled. by destruct (is_cancelled s). Qed.

Create HintDb asking.
#[export] Hint Resolve asking_ret asking_throw asking_lift asking_get asking_response asking_deadline asking_clock
  asking_cancelled : asking.
Ltac asking :=
  repeat first [ done | solve [eauto with asking] | apply asking_bind; [|intros ?] | case_decide | case_match ].

Lemma asking_run {E A} (m : st daemon E A) s s' r : asking m → m s = (s', r) → beside s s'.
Proof. intros Hm Hrun. specialize (Hm s). by rewrite Hrun in Hm. Qed.

Lemma asking_bind_cases {E A B} (m : st daemon E A) (f : A → st daemon E B) s s' r :
  asking m → mbind f m s = (s', r) →
  (beside s s' ∧ ∃ e, r = Err e) ∨ ∃ a s1, beside s s1 ∧ m s = (s1, Ok a) ∧ f a s1 = (s', r).
Proof.
  intros Hm [(e & Hrun & ->)|(a & s1 & Hrun & Hf)]%st_bind_cases; pose proof (asking_run _ _ _ _ Hm Hrun).
  - left. split; [done|by eexists].
  - right. by exists a, s1.
Qed.

Lemma asking_ensure_active : asking ensure_delivery_active.
Proof. unfold ensure_delivery_active. asking. Qed.
#[export] Hint Resolve asking_ensure_active : asking.

Section Sink.
Context `{HecJson}.

Lemma asking_ack_loop rounds key : asking (wait_for_ack_loop rounds key).
Proof. induction rounds as [|n IH]; cbn [wait_for_ack_loop]; asking. Qed.
#[local] Hint Resolve asking_ack_loop : asking.
Lemma asking_wait_for_ack ack : asking (wait_for_ack ack).
Proof. unfold wait_for_ack. asking. Qed.
#[local] Hint Resolve asking_wait_for_ack : asking.

(** A batch is logged exactly when the client reports success. *)
Lemma send_batch_run hec body s s' r :
  send_batch hec body s = (s', r) →
  spool_world s' = spool_world s
  ∧ ((∃ e, r = Err e ∧ acknowledged s' = acknowledged s)
     ∨ r = Ok tt ∧ acknowledged s' = acknowledged s ++ [body] ∧ body ≠ [] ∧ lengthN body ≤ max_batch_bytes hec).
Proof.
  unfold send_batch. case_decide as Hb; [intros [= <- <-]; split; [done|left; by eexists]|].
  apply Decidable.not_or in Hb as [Hne Hlen%N.nlt_ge]. unfold send_once.
  intros [[[Hw Ha] [e ->]]|(response & s1 & B1 & _ & Hrun)]%asking_bind_cases; [| |asking].
  { split; [done|left; by exists e]. }
  apply asking_bind_cases in Hrun as [[B [e ->]]|(answer & s2 & B2 & _ & Hrun)]; [| |asking].
  { destruct (beside_trans _ _ _ B1 B). split; [done|left; by exists e]. }
  pose proof (beside_trans _ _ _ B1 B2) as B3. clear B1 B2 s1.
  apply asking_bind_cases in Hrun as [[B [e ->]]|(resp & s3 & B4 & _ & Hrun)]; [| |asking].
  { destruct (beside_trans _ _ _ B3 B). split; [done|left; by exists e]. }
  pose proof (beside_trans _ _ _ B3 B4) as B5. clear B3 B4 s2. case_decide.
  { injection Hrun as <- <-. destruct B5. split; [done|left; by eexists]. }
  apply asking_bind_cases in Hrun as [[B [e ->]]|([] & s4 & B6 & _ & [= <- <-])]; [| |asking].
  { destruct (beside_trans _ _ _ B5 B). split; [done|left; by exists e]. }
  destruct (beside_trans _ _ _ B5 B6) as [Hw Ha]. cbn. rewrite Hw, Ha. split; [done|]. by right.
Qed.

Lemma asking_encode_event hec line metadata event_id : asking (encode_event hec line metadata event_id).
Proof. unfold encode_event. asking. Qed.
End Sink.
#[export] Hint Resolve asking_encode_event : asking.

(** ** Batches *)

(** The body of a batch: its events, a newline between them. *)
Fixpoint join_lines (events : list (list byte)) : list byte :=
  match events with
  | [] => []
  | [event] => event
  | event :: events => event ++ NEWLINE :: join_lines events
  end.

Lemma join_lines_snoc events event :
  events ≠ [] → join_lines (events ++ [event]) = join_lines events ++ NEWLINE :: event.
Proof.
  induction events as [|e events IH]; [done|]. intros _. destruct events as [|e' events]; [done|].
  cbn [app join_lines] in *. rewrite IH by done. by rewrite <- app_assoc.
Qed.

Lemma join_lines_nil events : Forall (λ event, event ≠ []) events → join_lines events = [] ↔ events = [].
Proof.
  intros Hne. split; [|by intros ->]. destruct Hne as [|e [|e' events] He]; [done|done|].
  cbn. intros [? ?]%app_eq_nil. done.
Qed.

(** A batch within the limits of the configuration and of the client. *)
Record batch_ok (hec : HecClient) (limits : DeliveryLimits) (group : list (list byte)) : Prop := mkBatchOk {
  bo_events : group ≠ [] ∧ lengthN group ≤ max_events limits;
  bo_bytes : lengthN (join_lines group) ≤ max_batch_bytes hec;
  bo_limit : max_bytes limits < u64_max → lengthN (join_lines group) ≤ max_bytes limits;
}.

(** The open batch of the loop: not yet sent, within the configuration. *)
Definition open_batch (limits : DeliveryLimits) (pend : list (list byte)) : Prop :=
  Forall (λ event, event ≠ []) pend ∧ lengthN pend ≤ max_events limits
  ∧ (max_bytes limits < u64_max → lengthN (join_lines pend) ≤ max_bytes limits).

Section Loop.
Context `{Sha256, Crypto, !CryptoLaws, HecJson}.

Lemma send_open_batch_run hec limits pend n rows s s' r :
  open_batch limits pend → send_open_batch hec (join_lines pend) n rows s = (s', r) →
  spool_world s' = spool_world s
  ∧ ∀ rows', r = Ok rows' → rows' = rows + n ∧ batch_ok hec limits pend
      ∧ acknowledged s' = acknowledged s ++ [join_lines pend].
Proof using Type.
  intros (Hne & Hn & Hb). unfold send_open_batch.
  intros [[[Hw _] [e ->]]|([] & s1 & [Hw1 Ha1] & _ & Hrun)]%asking_bind_cases; [by split| |asking].
  apply st_bind_cases in Hrun as [(e & Hrun & ->)|([] & s2 & Hsend & Hrun)].
  { apply send_batch_run in Hrun as [Hw2 _]. split; [congruence|done]. }
  apply send_batch_run in Hsend as [Hw2 [(e & [=] & _)|(_ & Ha2 & Hbody & Hlen)]].
  apply asking_bind_cases in Hrun as [[[Hw3 _] [e ->]]|([] & s3 & [Hw3 Ha3] & _ & [= <- <-])]; [| |asking].
  { split; [congruence|done]. }
  split; [congruence|]. intros rows' [-> _]%ok_or_ok%checked_add_some. split; [done|]. split; [|congruence].
  split; [|done|done]. split; [|done]. by intros ->.
Qed.

Lemma open_batch_nil limits : open_batch limits [].
Proof using Type. split; [done|]. split; [|intros _]; unfold lengthN; cbn; lia. Qed.

(** The open batch takes an event: alone, or after what it holds when there is room. *)
Lemma open_batch_one limits event :
  event ≠ [] → 1 ≤ max_events limits → lengthN event ≤ max_bytes limits → open_batch limits [event].
Proof using Type. intros He Hn Hb. split; [by constructor|]. done. Qed.

Lemma open_batch_snoc limits pend event :
  open_batch limits pend → event ≠ [] → lengthN pend ≠ max_events limits →
  saturating_add (saturating_add (lengthN (join_lines pend)) (if decide (join_lines pend = []) then 0 else 1))
    (lengthN event) ≤ max_bytes limits →
  open_batch limits (pend ++ [event])
  ∧ (if decide (join_lines pend = []) then join_lines pend else join_lines pend ++ [NEWLINE]) ++ event
    = join_lines (pend ++ [event]).
Proof using Type.
  intros (Hne & Hn & Hb) He Hfull Hroom.
  assert ((if decide (join_lines pend = []) then join_lines pend else join_lines pend ++ [NEWLINE]) ++ event
    = join_lines (pend ++ [event])) as Ej.
  { case_decide as Hj; rewrite join_lines_nil in Hj by done; [by subst pend|].
    rewrite join_lines_snoc by done. by rewrite <- app_assoc. }
  split; [|done]. split; [by apply Forall_app; split; [|constructor]|]. split.
  - rewrite lengthN_app, lengthN_cons, lengthN_nil. lia.
  - intros Hlim. rewrite <- Ej. revert Hroom. case_decide as Hj; rewrite !lengthN_app.
    + rewrite Hj. unfold lengthN in *. cbn [length]. ulia.
    + change (lengthN [NEWLINE]) with 1. ulia.
Qed.

(** The loop leaves the spool alone; when it ends, it has read the segment to its end and
    every event is in an acknowledged batch or in the batch still open, in order. *)
Lemma deliver_events_run calls hec limits d summary m bytes v sk salt id h seen pend rows s s' r :
  decoded d bytes v sk salt id h seen None → open_batch limits pend →
  deliver_events calls hec limits (mkReader d summary m false) (join_lines pend) (lengthN pend) rows s = (s', r) →
  spool_world s' = spool_world s
  ∧ ((length (unread (dec_reader d)) < calls)%nat → r ≠ Ok None)
  ∧ ∀ batch n rows', r = Ok (Some (batch, n, rows')) →
      ∃ d' events groups pend',
        drain calls d = (d', Ok (Some events)) ∧ dec_summary d' = Some summary ∧ dec_recovery_metadata d' = Some m
        ∧ pend ++ events = concat groups ++ pend' ∧ Forall (batch_ok hec limits) groups
        ∧ open_batch limits pend' ∧ batch = join_lines pend' ∧ n = lengthN pend'
        ∧ rows' = rows + lengthN (concat groups)
        ∧ acknowledged s' = acknowledged s ++ (join_lines <$> groups).
Proof using All.
  revert d seen pend rows s. induction calls as [|calls IH]; intros d seen pend rows s D Hpend; cbn [deliver_events].
  { intros [= <- <-]. split; [done|]. split; [lia|done]. }
  unfold SegmentReader_next. cbn [terminal_error reader_decoder expected_summary expected_recovery_metadata].
  destruct (next_event d) as [d1 [x|e]] eqn:Hnext.
  2: { cbn [set_decoder]. intros [[[Hw _] [e' ->]]|([] & s1 & [Hw _] & _ & Hrun)]%asking_bind_cases; [| |asking].
       - split; [done|]. by split.
       - injection Hrun as <- <-. split; [done|]. by split. }
  pose proof Hnext as Hok. eapply next_event_ok in Hok as [(ev & -> & D1)|(-> & m' & F)]; [| |exact D].
  2: { case_decide as Hend.
       - intros [= <- <-]. split; [done|]. split; [done|]. intros batch n rows' [= <- <- <-].
         exists d1, [], [], pend. cbn [drain]. rewrite (st_bind_run _ _ _ _ _ Hnext). cbn. destruct Hend.
         rewrite !app_nil_r, lengthN_nil, N.add_0_r. by split_and!.
       - intros [[[Hw _] [e' ->]]|([] & s1 & [Hw _] & _ & Hrun)]%asking_bind_cases; [| |asking].
         + split; [done|]. by split.
         + injection Hrun as <- <-. split; [done|]. by split. }
  pose proof (next_event_consumes _ _ _ Hnext) as Hlt.
  assert (ev ≠ []) as Hev by (pose proof (decoded_events _ _ _ _ _ _ _ _ _ D1) as Hall;
    apply Forall_app in Hall as [_ Hall]; by inversion Hall).
  intros [[[Hw _] [e' ->]]|([] & s1 & [Hw1 Ha1] & _ & Hrun)]%asking_bind_cases; [by split_and!| |asking].
  rewrite (st_lift_run _ (map_err from_spool_error (Ok ev)) _ ev eq_refl) in Hrun. cbn beta in Hrun. case_decide as Hbig; [by injection Hrun as <- <-; split_and!|].
  apply N.nlt_ge in Hbig. cbn zeta in Hrun.
  set (full := decide (lengthN pend = max_events limits ∨ _)) in Hrun. destruct full as [_|Hroom].
  - apply st_bind_cases in Hrun as [(e & Hrun & ->)|([[batch1 n1] rows1] & s2 & Hsend & Hrun)].
    + apply st_bind_cases in Hrun as [(e' & Hrun & [= <-])|(rows1 & s2 & _ & [=])].
      destruct (send_open_batch_run _ _ _ _ _ _ _ _ Hpend Hrun) as [Hw2 _]. split; [congruence|done].
    + apply st_bind_ok in Hsend as (rows2 & s3 & Hsend & [= <- <- <- <-]).
      destruct (send_open_batch_run _ _ _ _ _ _ _ _ Hpend Hsend) as [Hw2 Hsent].
      destruct (Hsent _ eq_refl) as (-> & Hok & Ha2). rewrite decide_True in Hrun by done.
      assert (open_batch limits [ev]) as Hone.
      { apply open_batch_one; [done| |done]. destruct Hok as [[Hg Hg'] _ _]. destruct pend; [done|].
        rewrite lengthN_cons in Hg'. lia. }
      destruct (IH d1 _ [ev] _ _ D1 Hone Hrun) as (Hw3 & Htot & Hrun'). clear Hrun. rename Hrun' into Hrun. split; [congruence|].
      split; [intros; apply Htot; lia|]. intros batch n rows' Er.
      destruct (Hrun _ _ _ Er) as (d' & events & groups & pend' & Hd & Hs & Hm & Ee & Hg & Hp & -> & -> & -> & Ha3).
      exists d', (ev :: events), (pend :: groups), pend'. cbn [drain]. rewrite (st_bind_run _ _ _ _ _ Hnext).
      rewrite (st_bind_run _ _ _ _ _ Hd). split; [done|]. do 2 (split; [done|]). cbn [concat fmap list_fmap].
      change ([ev] ++ events) with (ev :: events) in Ee. rewrite <- app_assoc, <- Ee. split; [done|].
      split; [by constructor|]. do 3 (split; [done|]).
      rewrite lengthN_app. split; [lia|]. rewrite Ha3, Ha2, Ha1, <- app_assoc. done.
  - apply Decidable.not_or in Hroom as [Hfull Hroom%N.nlt_ge]. unfold mret at 1, st_ret at 1 in Hrun.
    rewrite (st_bind_run _ _ s1 s1 (join_lines pend, lengthN pend, rows) eq_refl) in Hrun.
    destruct (open_batch_snoc _ _ _ Hpend Hev Hfull Hroom) as [Hpend1 Ej]. rewrite Ej in Hrun.
    replace (lengthN pend + 1) with (lengthN (pend ++ [ev])) in Hrun
      by (by rewrite lengthN_app, lengthN_cons, lengthN_nil).
    destruct (IH d1 _ (pend ++ [ev]) _ _ D1 Hpend1 Hrun) as (Hw3 & Htot & Hrun'). clear Hrun. rename Hrun' into Hrun. split; [congruence|].
    split; [intros; apply Htot; lia|]. intros batch n rows' Er.
    destruct (Hrun _ _ _ Er) as (d' & events & groups & pend' & Hd & Hs & Hm & Ee & Hg & Hp & -> & -> & -> & Ha3).
    exists d', (ev :: events), groups, pend'. cbn [drain]. rewrite (st_bind_run _ _ _ _ _ Hnext).
    rewrite (st_bind_run _ _ _ _ _ Hd). split; [done|]. do 2 (split; [done|]). rewrite <- app_assoc in Ee.
    split; [done|]. do 5 (split; [done|]). congruence.
Qed.

(** ** One segment *)

Lemma reader_ok self segment w w' r :
  wf_tree (tree (disk w)) → reader self segment w = (w', Ok r) →
  glanced w w' ∧ ∃ c d schedule, private_regular (tree (disk w)) (ready_path segment) c
    ∧ decoder_open (Ok (true, lengthN c)) (spool_key self) (limit_segment (limits self)) (mkSource c schedule) = Ok d
    ∧ r = mkReader d (ready_summary segment) (ready_recovery_metadata segment) false
    ∧ dec_segment_id d = ready_segment_id segment ∧ dec_header d = ready_header segment
    ∧ dec_version d = ready_format_version segment.
Proof using Type.
  intros Hwf Hrun. split; [by eapply looking_run; [apply looking_reader|]|]. revert Hrun. unfold reader.
  intros ([] & w1 & Hown & Hrun)%st_bind_ok.
  pose proof (looking_run _ _ _ _ (looking_disk _ (ro_validate_owned_path _ _ _)) Hown) as G1.
  apply st_bind_ok in Hrun as (q & w2 & Hopen & Hrun).
  pose proof (looking_run _ _ _ _ (looking_disk _ (ro_open_private_file _)) Hopen) as G2.
  apply on_disk_ok in Hopen as (d1 & Hopen & _). apply open_private_file_ok in Hopen as (-> & c & Hc);
    [|by rewrite (glanced_tree _ _ G1)].
  rewrite (glanced_tree _ _ G1) in Hc. apply st_bind_ok in Hrun as (d & w3 & Hdec & Hrun).
  destruct (open_decoder_ok (ready_path segment) (spool_key self) (limit_segment (limits self)) w2 w3 d c)
    as [schedule Hd]; [by rewrite (glanced_tree _ _ G2), (glanced_tree _ _ G1)|done|].
  case_decide as Hk; [done|]. injection Hrun as _ <-.
  apply Decidable.not_or in Hk as [Hk1%dec_stable Hk]. apply Decidable.not_or in Hk as [Hk2%dec_stable Hk3%dec_stable].
  by exists c, d, schedule.
Qed.

(** The bodies in which the sink took the events. *)
Definition taken (hec : HecClient) (limits : DeliveryLimits) (events bodies : list (list byte)) : Prop :=
  ∃ groups, concat groups = events ∧ Forall (batch_ok hec limits) groups ∧ bodies = join_lines <$> groups.

(** The events of a handle's ready file: it authenticates as the handle's segment. *)
Definition segment_events (self : Spool) (w : world) (segment : ReadySegment) (events : list (list byte)) : Prop :=
  ∃ c, private_regular (tree (disk w)) (ready_path segment) c
    ∧ segment_content (spool_key self) (limit_segment (limits self)) c (inspected_of segment) events
    ∧ lengthN events = event_count (ready_summary segment).

Lemma segment_events_content self w segment c d schedule d' events :
  private_regular (tree (disk w)) (ready_path segment) c →
  validated self segment READY_EXTENSION (tree (disk w)) c →
  decoder_open (Ok (true, lengthN c)) (spool_key self) (limit_segment (limits self)) (mkSource c schedule) = Ok d →
  dec_segment_id d = ready_segment_id segment → dec_header d = ready_header segment →
  dec_version d = ready_format_version segment →
  drain (S (length c)) d = (d', Ok (Some events)) → dec_summary d' = Some (ready_summary segment) →
  dec_recovery_metadata d' = Some (ready_recovery_metadata segment) →
  segment_events self w segment events.
Proof using All.
  intros Hc (_ & _ & i & (evs & sch & d0 & d0' & _ & _ & _ & _ & _ & _ & _ & Hlen) & Hh) Hd Hid Hhd Hv Hdrain Hs Hm.
  destruct (drain_keeps_identity _ _ _ _ _ _ _ _ _ Hd Hdrain) as (E1 & E2 & E3).
  destruct (decoder_open_decoded _ _ _ _ _ _ Hd) as (v & salt & id & h & D).
  destruct (drain_ok _ _ _ _ _ _ _ _ _ _ _ D Hdrain) as (m & F).
  pose proof (finished_summary _ _ _ _ _ _ _ _ _ F) as Hsum.
  exists c. split; [done|]. split.
  - exists schedule, d, d'. do 2 (split; [done|]). apply (f_equal ready_byte_len) in Hh. cbn in Hh.
    split_and!; cbn; congruence.
  - rewrite Hs in Hsum. injection Hsum as ->. done.
Qed.

Lemma drain_more calls calls' d d' events :
  drain calls d = (d', Ok (Some events)) → (calls ≤ calls')%nat → drain calls' d = (d', Ok (Some events)).
Proof using Type.
  revert calls' d events. induction calls as [|calls IH]; intros calls' d events; [done|].
  destruct calls' as [|calls']; [lia|]. cbn [drain]. intros (r & d1 & Hn & Hrun)%st_bind_ok Hle.
  rewrite (st_bind_run _ _ _ _ _ Hn). destruct r as [[ev|]|]; [|done..].
  apply st_bind_ok in Hrun as ([rest|] & d2 & Hr & [= <- Hl]).
  rewrite (st_bind_run _ _ _ _ _ (IH calls' _ _ Hr ltac:(lia))). by subst events.
Qed.

Lemma from_spool_run {A} (m : spool A) s s' r :
  from_spool m s = (s', r) → ∃ w x, m (spool_world s) = (w, x) ∧ s' = set_spool_world w s ∧ r = map_err from_spool_error x.
Proof using Type.
  unfold from_spool. intros (x & Hrun & ->)%st_map_err_run. unfold on_spool in Hrun.
  destruct (m (spool_world s)) as [w y]. injection Hrun as <- <-. by exists w, y.
Qed.

Lemma decoded_unread d bytes v sk salt id h events :
  decoded d bytes v sk salt id h events None → (length (unread (dec_reader d)) ≤ length bytes)%nat.
Proof using Type. intros D. destruct (decoded_frames _ _ _ _ _ _ _ _ _ D) as (fs & _ & ->). rewrite !length_app. lia. Qed.

Lemma validated_glanced_back self segment ext w w' c :
  glanced w w' → validated self segment ext (tree (disk w')) c → validated self segment ext (tree (disk w)) c.
Proof using Type. intros G. by rewrite (glanced_tree _ _ G). Qed.

(** Either nothing moved and the answer is an error, or the sink has taken every event of
    the handle's segment and the move has begun. *)
Lemma deliver_segment_run self ready hec limits s s' r :
  wf_tree (tree (disk (spool_world s))) → deliver_ready_segment_sync self ready hec limits s = (s', r) →
  (glanced (spool_world s) (spool_world s') ∧ ∃ e, r = Err e)
  ∨ ∃ c events bodies x,
      segment_events self (spool_world s) ready events ∧ taken hec limits events bodies
      ∧ acknowledged s' = acknowledged s ++ bodies ∧ r = map_err from_spool_error x
      ∧ accounting (spool_world s') = accounting (spool_world s)
      ∧ validated self ready READY_EXTENSION (tree (disk (spool_world s))) c
      ∧ delivery self ready c (spool_world s) (spool_world s') x.
Proof using All.
  intros Hwf. unfold deliver_ready_segment_sync.
  intros [(e & Hrun & ->)|(rd & s1 & Hrd & Hrun)]%st_bind_cases.
  { apply from_spool_run in Hrun as (w & x & Hrun & -> & _). left. split; [|by eexists].
    by eapply looking_run; [apply looking_reader|]. }
  apply from_spool_run in Hrd as (w & x & Hrd & -> & Hx). symmetry in Hx. apply map_err_ok in Hx as ->.
  destruct (reader_ok _ _ _ _ _ Hwf Hrd) as (G & c & d & schedule & Hc & Hd & -> & Hid & Hh & Hv).
  destruct (decoder_open_decoded _ _ _ _ _ _ Hd) as (v & salt & id & h & D).
  assert (open_batch limits []) as Hnil by apply open_batch_nil.
  apply st_bind_cases in Hrun as [(e & Hrun & ->)|(rest & s2 & Hloop & Hrun)].
  { change ([] : list byte) with (join_lines []) in Hrun.
    destruct (deliver_events_run _ _ _ _ _ _ _ _ _ _ _ _ _ [] _ _ _ _ D Hnil Hrun) as [Hw _].
    left. rewrite Hw. split; [done|by eexists]. }
  destruct (deliver_events_run _ _ _ _ _ _ _ _ _ _ _ _ _ [] _ _ _ _ D Hnil Hloop) as (Hw & Htot & Hdone).
  cbn [reader_calls reader_decoder] in Htot. destruct rest as [[[batch n] rows]|]; [|exfalso; apply Htot; [|done]; unfold reader_calls; cbn; lia].
  destruct (Hdone _ _ _ eq_refl) as (d' & events & groups & pend & Hdrain & Hs & Hm & Ee & Hg & Hp & -> & -> & -> & Ha).
  cbn in Ee, Hw, Ha. rewrite N.add_0_l in Hrun. clear Hdone Htot Hloop.
  apply st_bind_cases in Hrun as [(e & Hrun & ->)|(total & s3 & Hlast & Hrun)].
  { left. split; [|by eexists]. case_decide; [done|].
    destruct (send_open_batch_run _ _ _ _ _ _ _ _ Hp Hrun) as [Hw2 _]. by rewrite Hw2, Hw. }
  assert (spool_world s3 = w ∧ ∃ bodies, taken hec limits events bodies ∧ acknowledged s3 = acknowledged s ++ bodies
    ∧ total = lengthN events) as (Hw3 & bodies & Htaken & Ha3 & ->).
  { clear Hrun. case_decide as Hb.
    - injection Hlast as <- <-. split; [done|]. apply join_lines_nil in Hb; [|apply Hp]. subst pend.
      rewrite app_nil_r in Ee. subst events. by exists (join_lines <$> groups); split; [exists groups|].
    - destruct (send_open_batch_run _ _ _ _ _ _ _ _ Hp Hlast) as [Hw2 Hsent].
      destruct (Hsent _ eq_refl) as (-> & Hok & Ha2). split; [congruence|].
      exists (join_lines <$> (groups ++ [pend])). split; [|split].
      + exists (groups ++ [pend]). split; [|split; [|done]].
        * by rewrite concat_app, Ee; cbn; rewrite app_nil_r.
        * apply Forall_app. split; [done|by constructor].
      + by rewrite Ha2, Ha, fmap_app, <- app_assoc.
      + by rewrite Ee, lengthN_app. }
  clear Hlast. case_decide as Hcount.
  { injection Hrun as <- <-. left. rewrite Hw3. split; [done|by eexists]. }
  apply asking_bind_cases in Hrun as [[[Hw4 _] He]|([] & s4 & [Hw4 Ha4] & _ & Hrun)]; [| |asking].
  { left. by rewrite Hw4, Hw3. }
  apply from_spool_run in Hrun as (w5 & x & Hmark & -> & ->). rewrite Hw4, Hw3 in Hmark.
  assert (wf_tree (tree (disk w))) as Hwf1 by (by rewrite (glanced_tree _ _ G)).
  apply mark_delivered_run in Hmark as [Hacc [[G5 [e ->]]|(c' & Hval & Hdel)]]; [| |done].
  { left. cbn. split; [by eapply glanced_trans|by eexists]. }
  right. apply (validated_glanced_back _ _ _ _ _ _ G) in Hval. apply (delivery_glanced _ _ _ _ _ _ _ G) in Hdel.
  assert (c' = c) as ->.
  { destruct Hval as (_ & [_ (m1 & y1 & E1 & _)] & _), Hc as [_ (m2 & y2 & E2 & _)]. congruence. }
  exists c, events, bodies, x. split.
  { apply (segment_events_content _ _ _ c d schedule d'); try done. eapply drain_more; [exact Hdrain|].
    pose proof (decoded_unread _ _ _ _ _ _ _ _ D). unfold reader_calls. cbn [reader_decoder]. lia. }
  split; [done|]. split; [by rewrite <- Ha3, <- Ha4|]. split; [done|]. split; [|done].
  cbn. by rewrite Hacc, (glanced_accounting _ _ G).
Qed.

(** C6: a segment changes its state only after the sink has acknowledged it: when anything
    in the tree moved, or the answer is a success, then exactly the events of the file the
    handle names (which authenticates as the handle's segment) were acknowledged, in
    order, in bodies within both limits; on success the move is durable; the quota and
    every other path stay as they were. *)
Theorem delivered_only_after_acknowledgement self ready hec limits s s' r :
  wf_tree (tree (disk (spool_world s))) → deliver_ready_segment_sync self ready hec limits s = (s', r) →
  let w := spool_world s in
  let w' := spool_world s' in
  let p := ready_path ready in
  let q := with_extension p DELIVERED_EXTENSION in
  (tree (disk w') ≠ tree (disk w) ∨ is_ok r = true →
     ∃ events bodies, segment_events self w ready events ∧ taken hec limits events bodies
       ∧ acknowledged s' = acknowledged s ++ bodies)
  ∧ accounting w' = accounting w ∧ wf_tree (tree (disk w'))
  ∧ (∀ x, x ∉ [p; q] → tree (disk w') !! x = tree (disk w) !! x)
  ∧ ∀ d, r = Ok d → delivered_path d = q ∧ DeliveredSegment_reference_digest d = ReadySegment_reference_digest ready
       ∧ ∀ v, v ∈ versions (disk w') → v !! p = None ∧ v !! q = tree (disk w) !! p.
Proof using All.
  intros Hwf Hrun. cbn zeta. apply deliver_segment_run in Hrun; [|done].
  destruct Hrun as [[G [e ->]]|(c & events & bodies & x & Hev & Ht & Ha & -> & Hacc & Hval & m & y & Hn & Hren & Hch & Hwf' & Hr)].
  { rewrite (glanced_tree _ _ G), (glanced_accounting _ _ G). split; [by intros [?|?]|]. done. }
  split; [intros _; by exists events, bodies|]. split; [done|]. split; [done|]. split.
  { intros x' Hx. by apply (ec_other _ _ _ Hch). }
  intros d Hd. apply map_err_ok in Hd. destruct (Hr d Hd) as [Hhandle Hdur].
  pose proof Hval as [(key & id & Hown & _) _]. apply owned_split in Hown as [Ep Eq]. specialize (Eq DELIVERED_EXTENSION).
  assert (ready_path ready ≠ with_extension (ready_path ready) DELIVERED_EXTENSION) as Hne.
  { rewrite Eq. rewrite Ep at 1. intros E. apply app_inj_2 in E as [_ [= E%segment_file_name_inj]]; [|done].
    by apply no_dot_lifecycle in E. }
  destruct (renamed_lookup _ _ _ _ _ Hne Hren) as (Hp & Hq & _).
  destruct d as [dp dh di ds dv dm db]. injection Hhandle as -> -> -> -> -> -> ->. split; [done|]. split; [done|].
  intros v Hv. rewrite (Hdur v _ Hv) by (by left). rewrite (Hdur v _ Hv) by (right; left). by rewrite Hn.
Qed.
End Loop.
