(* ===== verification/Backlog.v ===== *)
(** * Draining the backlog of batch inputs (crates/dbx-rs-daemon/src/worker.rs)

    What [drain_ready_segments_sync] guarantees: no effect before every ready segment is
    fenced, rising segments untouched, and on success every fenced segment acknowledged. *)

From S2P Require Export DeliveryProps.

Local Open Scope N_scope.
Local Open Scope dbx_scope.

(** What the fences allow: the active revision of a batch input, or a rising input. *)
Definition fenced (fences : ReplayFences) (rising : gset InputKey) (segment : ReadySegment) : Prop :=
  match fences !! input_key (ready_header segment) with
  | Some active => active = header_fingerprint (ready_header segment)
  | None => input_key (ready_header segment) ∈ rising
  end.

Lemma validate_replay_fences_ok ready fences rising :
  validate_replay_fences ready fences rising = Ok tt ↔ Forall (fenced fences rising) ready.
Proof.
  induction ready as [|segment ready IH]; cbn [validate_replay_fences]; [done|].
  rewrite result_bind_ok, Forall_cons, <- IH. unfold fenced, validate_replay_header.
  destruct (fences !! _) as [active|].
  - case_decide as Hk; [naive_solver|]. split; [by intros ([] & _ & ?)|by intros [_ ?]; exists tt].
  - case_decide; split; [by intros ([] & _ & ?)|by intros [_ ?]; exists tt|naive_solver|naive_solver].
Qed.

Section Backlog.
Context `{Sha256, Crypto, !CryptoLaws, HecJson}.

(** Only the paths [ps] may have changed, and the tree is still well formed. *)
Definition confined (ps : list path) (w w' : world) : Prop :=
  wf_tree (tree (disk w')) ∧ ∀ x, x ∉ ps → tree (disk w') !! x = tree (disk w) !! x.

Lemma confined_glanced w w' : wf_tree (tree (disk w)) → glanced w w' → confined [] w w'.
Proof using Type. intros Hwf G. unfold confined. by rewrite (glanced_tree _ _ G). Qed.
Lemma confined_trans ps qs w w1 w2 : confined ps w w1 → confined qs w1 w2 → confined (ps ++ qs) w w2.
Proof using Type.
  intros [_ E1] [Hwf E2]. split; [done|]. intros x Hx. rewrite not_elem_of_app in Hx. rewrite E2, E1 by naive_solver. done.
Qed.
Lemma confined_more ps qs w w' : ps ⊆ qs → confined ps w w' → confined qs w w'.
Proof using Type. intros Hs [Hwf Hx]. split; [done|]. intros x Hx'. apply Hx. intros Hin. by apply Hx', Hs. Qed.

Lemma compact_task_run self segment s s' r :
  wf_tree (tree (disk (spool_world s))) → from_spool (compact_delivered self segment) s = (s', r) →
  confined [delivered_path segment] (spool_world s) (spool_world s') ∧ acknowledged s' = acknowledged s.
Proof using All.
  intros Hwf (w & x & Hrun & -> & ->)%from_spool_run. split; [|done]. cbn.
  apply compact_delivered_run in Hrun as [[G _]|(c & _ & _ & Ht & Hwf' & _)]; [| |done].
  - apply (confined_more []); [set_solver|by apply confined_glanced].
  - split; [done|]. intros y Hy. rewrite Ht, lookup_delete_ne; [done|]. intros <-. apply Hy. by left.
Qed.

Lemma compact_acknowledged_run self delivered rising s s' r :
  wf_tree (tree (disk (spool_world s))) → compact_acknowledged self delivered rising s = (s', r) →
  confined (delivered_path <$> filter (λ d, input_key (delivered_header d) ∉ rising) delivered)
    (spool_world s) (spool_world s')
  ∧ acknowledged s' = acknowledged s.
Proof using All.
  revert s. induction delivered as [|d delivered IH]; intros s Hwf; cbn [compact_acknowledged].
  { intros [= <- _]. split; [|done]. apply confined_glanced; [done|apply glanced_refl]. }
  destruct (decide (input_key (delivered_header d) ∈ rising)) as [Hin|Hin].
  { intros Hrun. rewrite filter_cons_False by (intros Hn; done). by apply IH. }
  rewrite filter_cons_True, fmap_cons by done. case_decide.
  { intros [= <- _]. split; [|done]. apply (confined_more []); [set_solver|].
    apply confined_glanced; [done|apply glanced_refl]. }
  intros [(e & Hrun & ->)|([] & s1 & Hc & Hrun)]%st_bind_cases.
  - apply compact_task_run in Hrun as [Hcf Ha]; [|done]. split; [|done]. eapply confined_more; [|exact Hcf]. set_solver.
  - apply compact_task_run in Hc as [Hcf Ha]; [|done]. pose proof Hcf as [Hwf1 _].
    destruct (IH _ Hwf1 Hrun) as [Hcf' Ha']. split; [|congruence].
    by apply (confined_trans [_] _ _ _ _ Hcf Hcf').
Qed.

(** The paths a delivery of [segment] may change. *)
Definition delivery_paths (segment : ReadySegment) : list path :=
  [ready_path segment; with_extension (ready_path segment) DELIVERED_EXTENSION].

Lemma deliver_confined self segment hec limits s s' r :
  wf_tree (tree (disk (spool_world s))) → deliver_ready_segment_sync self segment hec limits s = (s', r) →
  confined (delivery_paths segment) (spool_world s) (spool_world s')
  ∧ ∀ d, r = Ok d → delivered_path d = with_extension (ready_path segment) DELIVERED_EXTENSION
      ∧ ∃ events bodies, segment_events self (spool_world s) segment events ∧ taken hec limits events bodies
          ∧ acknowledged s' = acknowledged s ++ bodies.
Proof using All.
  intros Hwf Hrun. apply deliver_segment_run in Hrun; [|done].
  destruct Hrun as [[G [e ->]]|(c & events & bodies & x & Hev & Ht & Ha & -> & _ & _ & m & y & _ & _ & Hch & Hwf' & Hr)].
  { split; [|done]. apply (confined_more []); [set_solver|by apply confined_glanced]. }
  split; [split; [done|]; intros z Hz; by apply (ec_other _ _ _ Hch)|].
  intros d Hd. apply map_err_ok in Hd. destruct (Hr d Hd) as [Hhandle _]. split; [|by exists events, bodies].
  by apply (f_equal ready_path) in Hhandle.
Qed.

(** The events of each segment, read from its file when it was sent. *)
Definition sent_events (self : Spool) (segment : ReadySegment) (events : list (list byte)) : Prop :=
  ∃ w, segment_events self w segment events.

Lemma drain_segments_run self hec limits ready rows s s' r :
  wf_tree (tree (disk (spool_world s))) → drain_segments self hec limits ready rows s = (s', r) →
  confined (concat (delivery_paths <$> ready)) (spool_world s) (spool_world s')
  ∧ ∀ n, r = Ok n → ∃ sent bodies,
      Forall2 (sent_events self) ready sent ∧ Forall2 (taken hec limits) sent bodies
      ∧ acknowledged s' = acknowledged s ++ concat bodies ∧ n = rows + sumN (lengthN <$> sent).
Proof using All.
  revert rows s. induction ready as [|segment ready IH]; intros rows s Hwf; cbn [drain_segments].
  { intros [= <- <-]. split; [apply confined_glanced; [done|apply glanced_refl]|]. intros n [= <-].
    exists [], []. rewrite app_nil_r, N.add_0_r. by split_and!. }
  assert (∀ w w', confined [] w w' → confined (concat (delivery_paths <$> segment :: ready)) w w') as Hnone.
  { intros w w'. apply confined_more. set_solver. }
  intros [[[Hw _] [e ->]]|([] & s1 & [Hw Ha1] & _ & Hrun)]%asking_bind_cases; [| |asking].
  { split; [|done]. rewrite Hw. apply Hnone, confined_glanced; [done|apply glanced_refl]. }
  rewrite <- Hw in Hwf |- *. clear Hw. cbn zeta in Hrun. cbn [fmap list_fmap concat].
  apply st_bind_cases in Hrun as [(e & Hrun & ->)|(d & s2 & Hdel & Hrun)].
  { apply deliver_confined in Hrun as [Hcf _]; [|done]. split; [|done]. eapply confined_more; [|exact Hcf]. set_solver. }
  apply deliver_confined in Hdel as [Hcf Hd]; [|done].
  destruct (Hd _ eq_refl) as (Ep & events & bodies & Hev & Ht & Ha2). pose proof Hcf as [Hwf2 _].
  apply st_bind_cases in Hrun as [(e & Hrun & ->)|([] & s3 & Hc & Hrun)].
  { apply compact_task_run in Hrun as [Hcf' _]; [|done]. split; [|done].
    eapply confined_more; [|exact (confined_trans _ _ _ _ _ Hcf Hcf')]. rewrite Ep. unfold delivery_paths. set_solver. }
  apply compact_task_run in Hc as [Hcf' Ha3]; [|done]. pose proof Hcf' as [Hwf3 _].
  assert (confined (delivery_paths segment) (spool_world s1) (spool_world s3)) as Hcf13.
  { eapply confined_more; [|exact (confined_trans _ _ _ _ _ Hcf Hcf')]. rewrite Ep. unfold delivery_paths. set_solver. }
  destruct (checked_add rows (event_count (ready_summary segment))) as [rows1|] eqn:Eadd.
  2: { rewrite (st_lift_err _ (ok_or accounting_error None) _ accounting_error eq_refl) in Hrun. injection Hrun as <- <-. split; [|done].
       eapply confined_more; [|exact Hcf13]. set_solver. }
  rewrite (st_lift_run _ (ok_or accounting_error (Some rows1)) _ rows1 eq_refl) in Hrun. apply checked_add_some in Eadd as [-> _].
  destruct (IH _ _ Hwf3 Hrun) as [Hcf4 Hok]. split; [by apply (confined_trans _ _ _ _ _ Hcf13)|].
  intros n Hn. destruct (Hok n Hn) as (sent & bs & Hs & Hb & Ha4 & ->). exists (events :: sent), (bodies :: bs).
  split; [constructor; [by exists (spool_world s1)|done]|]. split; [by constructor|]. split.
  - cbn. by rewrite Ha4, Ha3, Ha2, Ha1, <- app_assoc.
  - rewrite fmap_cons, sumN_cons. destruct Hev as (_ & _ & _ & ->). lia.
Qed.

Lemma list_run {A} (m : spool A) s s' r :
  looking m → from_spool m s = (s', r) →
  glanced (spool_world s) (spool_world s') ∧ acknowledged s' = acknowledged s
  ∧ ∀ a, r = Ok a → m (spool_world s) = (spool_world s', Ok a).
Proof using Type.
  intros Hm (w & x & Hrun & -> & ->)%from_spool_run. split; [by eapply looking_run|]. split; [done|].
  intros a Ha%map_err_ok. cbn. by rewrite Hrun, Ha.
Qed.
Lemma looking_lists self : looking (list_delivered self) ∧ looking (list_ready self).
Proof using Type. split; apply looking_bind; intros; looking; apply looking_scan_lifecycle. Qed.

(** the backlog is fenced: whatever it changed or sent, every ready segment listed was
    first found to belong to the active revision of its batch input, or to a rising input;
    the paths that may have changed are those of acknowledged segments of other than rising
    inputs and of the ready segments that have a fence; on success every one of these was
    acknowledged in full, in the order of the list, and the answer is the number of their
    events. *)
Theorem backlog_is_fenced self hec limits fences rising s s' r :
  wf_tree (tree (disk (spool_world s))) →
  drain_ready_segments_sync self hec limits fences rising s = (s', r) →
  (glanced (spool_world s) (spool_world s') ∧ acknowledged s' = acknowledged s ∧ ∃ e, r = Err e)
  ∨ ∃ delivered ready w2 w3,
      list_delivered self (spool_world s) = (w2, Ok delivered) ∧ list_ready self w2 = (w3, Ok ready)
      ∧ Forall (fenced fences rising) ready
      ∧ let batch := filter (λ d, input_key (delivered_header d) ∉ rising) delivered in
        let due := filter (λ segment, is_Some (fences !! input_key (ready_header segment))) ready in
        confined ((delivered_path <$> batch) ++ concat (delivery_paths <$> due)) (spool_world s) (spool_world s')
        ∧ ∀ n, r = Ok n → ∃ sent bodies, Forall2 (sent_events self) due sent
            ∧ (∀ client, hec = Some client → Forall2 (taken client limits) sent bodies)
            ∧ acknowledged s' = acknowledged s ++ concat bodies ∧ n = sumN (lengthN <$> sent).
Proof using All.
  intros Hwf. unfold drain_ready_segments_sync. destruct (looking_lists self) as [Ld Lr].
  intros [(e & Hrun & ->)|(delivered & s1 & L1 & Hrun)]%st_bind_cases.
  { apply list_run in Hrun as (G & Ha & _); [|done]. left. split; [done|]. split; [done|by eexists]. }
  apply list_run in L1 as (G1 & Ha1 & Hl1); [|done]. specialize (Hl1 _ eq_refl).
  apply st_bind_cases in Hrun as [(e & Hrun & ->)|(ready & s2 & L2 & Hrun)].
  { apply list_run in Hrun as (G & Ha & _); [|done]. left. split; [by eapply glanced_trans|].
    split; [congruence|by eexists]. }
  apply list_run in L2 as (G2 & Ha2 & Hl2); [|done]. specialize (Hl2 _ eq_refl).
  pose proof (glanced_trans _ _ _ G1 G2) as G.
  destruct (validate_replay_fences ready fences rising) as [[]|e] eqn:Hf.
  2: { rewrite (st_lift_err _ _ _ e eq_refl) in Hrun. injection Hrun as <- <-. left. split; [done|].
       split; [congruence|by eexists]. }
  rewrite (st_lift_run _ _ _ tt eq_refl) in Hrun. apply validate_replay_fences_ok in Hf.
  right. exists delivered, ready, (spool_world s1), (spool_world s2).
  split; [done|]. split; [done|]. split; [done|]. cbn zeta.
  assert (confined [] (spool_world s) (spool_world s2)) as Hc2 by (by apply confined_glanced).
  pose proof Hc2 as [Hwf2 _]. clear G1 G2 G Hl1 Hl2 Hf.
  set (batch := filter _ delivered). set (due := filter _ ready).
  apply st_bind_cases in Hrun as [(e & Hrun & ->)|([] & s3 & L3 & Hrun)].
  { apply compact_acknowledged_run in Hrun as [Hc _]; [|done]. split; [|done].
    eapply confined_more; [|exact (confined_trans _ _ _ _ _ Hc2 Hc)]. set_solver. }
  apply compact_acknowledged_run in L3 as [Hc3 Ha3]; [|done]. pose proof Hc3 as [Hwf3 _].
  pose proof (confined_trans _ _ _ _ _ Hc2 Hc3) as Hc. cbn [app] in Hc. fold batch in Hc. fold due in Hrun.
  assert (acknowledged s3 = acknowledged s) as Ha by congruence.
  destruct due as [|segment due'] eqn:Edue.
  { injection Hrun as <- <-. split; [by rewrite app_nil_r|]. intros n [= <-]. exists [], [].
    rewrite app_nil_r. by split_and!. }
  rewrite <- Edue in Hrun |- *. clear Edue.
  destruct hec as [client|].
  2: { rewrite (st_lift_err _ (ok_or delivery_unavailable None) _ delivery_unavailable eq_refl) in Hrun. injection Hrun as <- <-.
       split; [|done]. eapply confined_more; [|exact Hc]. set_solver. }
  rewrite (st_lift_run _ (ok_or delivery_unavailable (Some client)) _ client eq_refl) in Hrun. apply drain_segments_run in Hrun as [Hc4 Hok]; [|done].
  split; [by apply (confined_trans _ _ _ _ _ Hc)|]. intros n Hn.
  destruct (Hok n Hn) as (sent & bodies & Hs & Hb & Ha4 & ->). exists sent, bodies. split; [done|].
  split; [by intros ? [= <-]|]. split; [by rewrite Ha4, Ha|by rewrite N.add_0_l].
Qed.
End Backlog.
