(* ===== verification/CollectionProps.v ===== *)
(** * What a collection seals

    The rows of the connector become the events of the segment, in order; a sealed rising
    page carries the metadata that lets the coordinator adopt it. *)

From S2P Require Export Collection DeliveryProps.

Local Open Scope N_scope.
Local Open Scope dbx_scope.

Section CollectionProps.
Context `{Sha256, Crypto, !CryptoLaws, HecJson}.
Context {ConnectorError : Type}.
Abbreviation worker A := (st daemon (WorkerError ConnectorError) A).

(** ** The rows of a segment *)

(** The [ordinal]th row (from one) as the event the client encodes for it. *)
Definition row_event (hec : HecClient) (metadata : EventMetadata) (identity : EventIdentity) (ordinal : N)
    (row : JsonRow) (event : list byte) : Prop :=
  ∃ event_id time, event_id_of identity (row_cursor row) ordinal = Ok event_id
    ∧ event_envelope time metadata event_id (row_line row) = Some event
    ∧ utf8 (row_line row) = true ∧ raw_value (row_line row) = true ∧ lengthN event ≤ max_event_bytes hec.

Fixpoint row_events (hec : HecClient) (metadata : EventMetadata) (identity : EventIdentity) (n : N)
    (rows : list JsonRow) (events : list (list byte)) : Prop :=
  match rows, events with
  | [], [] => True
  | row :: rows, event :: events =>
      row_event hec metadata identity (n + 1) row event ∧ row_events hec metadata identity (n + 1) rows events
  | _, _ => False
  end.

Lemma row_events_length hec metadata identity n rows events :
  row_events hec metadata identity n rows events → lengthN events = lengthN rows.
Proof using Type.
  revert n events. induction rows as [|row rows IH]; intros n [|event events]; cbn [row_events]; try done.
  intros [_ Hr]. rewrite !lengthN_cons. by rewrite (IH _ _ Hr).
Qed.

Lemma encode_event_ok hec line metadata event_id s s' event :
  encode_event hec line metadata event_id s = (s', Ok event) →
  beside s s' ∧ utf8 line = true ∧ raw_value line = true ∧ lengthN event ≤ max_event_bytes hec
  ∧ ∃ time, event_envelope time metadata event_id line = Some event.
Proof using Type.
  intros Hrun. split; [by eapply asking_run; [apply asking_encode_event|]|]. revert Hrun. unfold encode_event.
  case_decide as Hu; [done|]. case_decide as Hv; [done|].
  intros (clock & s1 & _ & Hrun)%st_bind_ok. apply st_bind_ok in Hrun as (time & s2 & _ & Hrun).
  apply st_bind_ok in Hrun as (e & s3 & [_ He%ok_or_ok]%st_lift_ok & Hrun). case_decide as Hl; [done|].
  injection Hrun as _ <-. destruct (utf8 line), (raw_value line); try done. split_and!; try done; [lia|by exists time].
Qed.

Lemma in_task_ok {A} (m : task A) s wr s' wr' a :
  in_task m (s, wr) = ((s', wr'), Ok a) → wr' = wr ∧ m s = (s', Ok a).
Proof using Type. unfold in_task. cbn. destruct (m s) as [d r]. by intros [= -> <- ->]. Qed.

Lemma in_writer_ok {A} (m : st (world * SegmentWriter) SpoolError A) s wr s' wr' a :
  in_writer m (s, wr) = ((s', wr'), Ok a) →
  m (spool_world s, wr) = ((spool_world s', wr'), Ok a) ∧ s' = set_spool_world (spool_world s') s.
Proof using Type.
  unfold in_writer. cbn. destruct (m (spool_world s, wr)) as [[w wr1] r]. intros [= <- <- ->%map_err_ok]. done.
Qed.

Lemma spool_rows_loop_ok rows hec metadata identity n s wr s' wr' total :
  spool_rows_loop rows hec metadata identity n (s, wr) = ((s', wr'), Ok total) →
  ∃ events, append_events events (spool_world s, wr) = ((spool_world s', wr'), Ok tt)
    ∧ row_events hec metadata identity n rows events ∧ total = n + lengthN rows ∧ (in_u64 n → in_u64 total)
    ∧ acknowledged s' = acknowledged s.
Proof using Type.
  revert n s wr. induction rows as [|row rows IH]; intros n s wr; cbn [spool_rows_loop].
  { intros [= <- <- <-]. exists []. rewrite lengthN_nil, N.add_0_r. done. }
  intros (ordinal & s1 & [-> [-> Hu]%ok_or_ok%checked_add_some]%st_lift_ok & Hrun)%st_bind_ok.
  apply st_bind_ok in Hrun as (event_id & s1 & [-> Hid]%st_lift_ok & Hrun).
  apply st_bind_ok in Hrun as (event & [s1 wr1] & Henc & Hrun). apply in_task_ok in Henc as [-> Henc].
  apply encode_event_ok in Henc as ([Hw1 Ha1] & Hutf & Hraw & Hlen & time & Henv).
  apply st_bind_ok in Hrun as ([] & [s2 wr2] & Happ & Hrun). apply in_writer_ok in Happ as [Happ E2].
  destruct (IH _ _ _ Hrun) as (events & Hevents & Hrows & -> & Htot & Ha). exists (event :: events). split.
  - cbn [append_events]. rewrite Hw1 in Happ. by rewrite (st_bind_run _ _ _ _ _ Happ).
  - split; [split; [by exists event_id, time|done]|]. split; [rewrite lengthN_cons; lia|]. split; [by intros _; apply Htot|].
    rewrite Ha, E2. done.
Qed.

Lemma spool_rows_ok rows wr hec metadata identity s s' wr' total :
  spool_rows rows wr hec metadata identity s = (s', Ok (wr', total)) →
  ∃ events, append_events events (spool_world s, wr) = ((spool_world s', wr'), Ok tt)
    ∧ row_events hec metadata identity 0 rows events ∧ total = lengthN rows ∧ in_u64 total
    ∧ acknowledged s' = acknowledged s.
Proof using Type.
  unfold spool_rows. destruct (spool_rows_loop _ _ _ _ _ (s, wr)) as [[s1 wr1] [n|e]] eqn:Hloop; [|done].
  intros [= <- <- <-]. apply spool_rows_loop_ok in Hloop as (events & Ha & Hr & -> & Hu & Hk).
  exists events. do 2 (split; [done|]). split; [lia|]. split; [|done]. apply Hu. ulia.
Qed.

(** ** Finishing *)

Lemma from_spool_ok {A} (m : spool A) s s' a :
  from_spool m s = (s', Ok a) →
  m (spool_world s) = (spool_world s', Ok a) ∧ acknowledged s' = acknowledged s.
Proof using Type. intros (w & x & Hm & -> & Hx)%from_spool_run. symmetry in Hx. by apply map_err_ok in Hx as ->. Qed.

Lemma in_daemon_ok {A} (m : task A) s s' a : (in_daemon m : worker A) s = (s', Ok a) → m s = (s', Ok a).
Proof using Type. by intros ?%st_map_err_ok. Qed.

Lemma or_drop_ok {A} wr (r : result DaemonError A) s s' a :
  (or_drop wr r : worker A) s = (s', Ok a) → s' = s ∧ r = Ok a.
Proof using Type.
  unfold or_drop. destruct r as [x|e]; [by intros [= <- <-]|].
  intros (? & ? & _ & Hrun)%st_bind_ok. done.
Qed.

Definition metadata_of (c : CollectionResult) (request_fingerprint : array 32) : RisingRecoveryMetadata :=
  mkRising (rows_read c) (truncated c) request_fingerprint (checkpoint_candidate c) (scan_resume c).

(** What a finished run did with its writer. *)
Lemma finalize_ok collection spooled request s s' (completion : WorkerCompletion) :
  (finalize_spooled_collection collection spooled request : worker _) s = (s', Ok completion) →
  ∃ wr c, spooled = Ok (wr, rows_read c) ∧ collection = Ok c ∧ acknowledged s' = acknowledged s
    ∧ match completion with
      | RisingEmpty c' => c' = c ∧ rows_read c = 0 ∧ request ≠ None ∧ abort wr (spool_world s) = (spool_world s', Ok tt)
      | RisingSealed c' => c' = c ∧ rows_read c ≠ 0 ∧ ∃ fp ready, request = Some fp
          ∧ rising_validate (metadata_of c fp) = Ok tt
          ∧ seal_with_recovery_metadata wr (mkMetadata (rising_bytes (metadata_of c fp))) (spool_world s)
            = (spool_world s', Ok ready)
          ∧ event_count (ready_summary ready) = rows_read c
      | CompletedBatch c' => c' = c ∧ request = None ∧ ∃ ready,
          seal_with_recovery_metadata wr RecoveryMetadata_empty (spool_world s) = (spool_world s', Ok ready)
          ∧ event_count (ready_summary ready) = rows_read c
      end.
Proof using Type.
  unfold finalize_spooled_collection.
  intros ([wr n] & s1 & [-> Hsp%map_err_ok]%st_lift_ok & Hrun)%st_bind_ok. cbn beta iota in Hrun.
  destruct collection as [c|e]; [|by apply st_bind_ok in Hrun as (? & ? & _ & ?)].
  destruct (decide (rows_read c ≠ n)) as [|Hn%dec_stable]; [by apply st_bind_ok in Hrun as (? & ? & _ & ?)|].
  subst n. exists wr, c. split; [done|]. split; [done|]. destruct request as [fp|].
  - apply st_bind_ok in Hrun as (metadata & s1 & [-> Hmd%map_err_ok]%or_drop_ok & Hrun).
    apply RisingRecoveryMetadata_new_ok in Hmd as [-> Hval]. fold (metadata_of c fp) in Hval, Hrun.
    destruct (decide (rows_read c = 0)) as [Hz|Hz].
    + apply st_bind_ok in Hrun as ([] & s1 & [Hab Ha]%in_daemon_ok%from_spool_ok & [= <- <-]). split; [done|]. done.
    + apply st_bind_ok in Hrun as (encoded & s1 & [-> Henc%map_err_ok]%or_drop_ok & Hrun).
      rewrite rising_encode_ok in Henc. injection Henc as <-.
      apply st_bind_ok in Hrun as (ready & s1 & [Hseal Ha]%in_daemon_ok%from_spool_ok & Hrun).
      destruct (decide (event_count (ready_summary ready) ≠ rows_read c)) as [|Hc%dec_stable]; [done|].
      injection Hrun as <- <-. split; [done|]. split; [done|]. split; [done|]. by exists fp, ready.
  - apply st_bind_ok in Hrun as (ready & s1 & [Hseal Ha]%in_daemon_ok%from_spool_ok & Hrun).
    destruct (decide (event_count (ready_summary ready) ≠ rows_read c)) as [|Hc%dec_stable]; [done|].
    injection Hrun as <- <-. split; [done|]. split; [done|]. split; [done|]. by exists ready.
Qed.

(** ** One run *)

(** The segment header of a run. *)
Definition header_for (input : PreparedInput) (run : CollectionRun) (h : SegmentHeader) : Prop :=
  input_key h = pi_input_id input ∧ header_fingerprint h = pi_revision_fingerprint input
  ∧ match run with
    | RunBatch gen => header_generation h = gen ∧ batch_sequence h = created_epoch_millis h ∧ segment_sequence h = 1
    | RunRising gen checkpoint_gen attempt page _ =>
        header_generation h = gen ∧ batch_sequence h = checkpoint_gen ∧ batch_id h = attempt ∧ segment_sequence h = page
    end.

(** The machine widths of a run's numbers. *)
Definition run_wf (run : CollectionRun) : Prop :=
  match run with
  | RunBatch gen => in_u64 gen
  | RunRising gen checkpoint_gen _ page _ => in_u64 gen ∧ in_u64 checkpoint_gen ∧ in_u64 page
  end.

Definition cursor_of (run : CollectionRun) : option TimestampIdCursorRequest :=
  match run with RunBatch _ => None | RunRising _ _ _ _ cursor => Some cursor end.

Lemma epoch_millis_ok s s' n : epoch_millis s = (s', Ok n) → beside s s' ∧ in_u64 n.
Proof using Type.
  intros Hrun. split; [eapply asking_run; [|exact Hrun]; unfold epoch_millis; asking|].
  revert Hrun. unfold epoch_millis. intros (clock & s1 & _ & Hrun)%st_bind_ok.
  apply st_bind_ok in Hrun as (d & s2 & _ & Hrun). cbn zeta in Hrun. case_decide as Hb; [done|].
  injection Hrun as _ <-. unfold in_u64. lia.
Qed.

Lemma uuid_run s s' r : generate_uuid_bytes s = (s', r) →
  disk (spool_world s') = disk (spool_world s) ∧ accounting (spool_world s') = accounting (spool_world s)
  ∧ acknowledged s' = acknowledged s.
Proof using Type.
  unfold generate_uuid_bytes. intros Hrun.
  assert (∃ x, st_map_err (λ _, random_error) (on_spool (random_fill 16 (SpoolError_new "" ""))) s = (s', x)) as [x Hx].
  { apply st_bind_cases in Hrun as [(e & Hrun & _)|(a & s1 & Hrun & [= <- _])]; by eexists. }
  apply st_map_err_run in Hx as (y & Hx & _). unfold on_spool in Hx.
  destruct (random_fill 16 (SpoolError_new "" "") (spool_world s)) as [w z] eqn:E. injection Hx as <- _.
  apply random_fill_disk in E as [? ?]. done.
Qed.

Lemma run_header_ok input run created s s' h cursor :
  run_header input run created s = (s', Ok (h, cursor)) → run_wf run → in_u64 created →
  disk (spool_world s') = disk (spool_world s) ∧ accounting (spool_world s') = accounting (spool_world s)
  ∧ acknowledged s' = acknowledged s ∧ header_for input run h ∧ header_wf h ∧ cursor = cursor_of run.
Proof using Type.
  intros Hrun Hwf Hc. destruct run as [gen|gen cg attempt page cur]; cbn [run_header run_wf] in *.
  - apply st_bind_ok in Hrun as (batch & s1 & (Hd & Hac & Ha)%uuid_run & [= <- <- <-]).
    do 3 (split; [done|]). by split_and!.
  - injection Hrun as <- <- <-. destruct Hwf as (? & ? & ?). by split_and!.
Qed.

(** The steps of a run that came to an end: the writer begun with the run's header, the
    rows appended, and the last step of [finalize_spooled_collection]. *)
Lemma run_input_ok input run self hec secret rows collection s s' (completion : WorkerCompletion) :
  wf_tree (tree (disk (spool_world s))) → run_wf run →
  (run_input_inner input run self hec secret rows collection : worker _) s = (s', Ok completion) →
  ∃ h w0 w1 wr events wr1 s1 c identity request,
    validate_collection_run (cursor_spec <$> pi_rising input) run = Ok tt
    ∧ header_for input run h ∧ header_wf h
    ∧ disk w0 = disk (spool_world s) ∧ accounting w0 = accounting (spool_world s)
    ∧ begin_segment self h w0 = (w1, Ok wr)
    ∧ append_events events (w1, wr) = ((spool_world s1, wr1), Ok tt)
    ∧ row_events hec (pi_output input) identity 0 rows events
    ∧ identity_of input h (cursor_of run) = Ok identity ∧ recovery_request_of input (cursor_of run) = Ok request
    ∧ rows_read c = lengthN rows ∧ in_u64 (rows_read c) ∧ acknowledged s' = acknowledged s
    ∧ (finalize_spooled_collection collection (Ok (wr1, rows_read c)) request : worker _) s1 = (s', Ok completion)
    ∧ collection = Ok c.
Proof using Type.
  intros Hwf Hrw. unfold run_input_inner. intros ([] & s0 & [-> Hval%map_err_ok]%st_lift_ok & Hrun)%st_bind_ok.
  apply st_bind_ok in Hrun as (created & s1 & [[Hw1 Ha1] Hc]%in_daemon_ok%epoch_millis_ok & Hrun).
  apply st_bind_ok in Hrun as ([h cursor] & s2 & Hh%in_daemon_ok & Hrun). cbn beta iota in Hrun.
  apply run_header_ok in Hh as (Hd2 & Hac2 & Ha2 & Hhd & Hhw & ->); [|done..].
  apply st_bind_ok in Hrun as (wr & s3 & [Hbegin Ha3]%in_daemon_ok%from_spool_ok & Hrun).
  apply st_bind_ok in Hrun as ([] & s4 & [-> _]%or_drop_ok & Hrun).
  apply st_bind_ok in Hrun as (identity & s5 & [-> Hid]%or_drop_ok & Hrun).
  apply st_bind_ok in Hrun as (spooled & s6 & Htry & Hrun). unfold try_call in Htry.
  destruct (spool_rows rows wr hec (pi_output input) identity s3) as [s7 sp] eqn:Hsp.
  injection Htry as <- <-. destruct (recovery_request_of input (cursor_of run)) as [request|e] eqn:Hreq.
  2: { apply st_bind_ok in Hrun as (? & ? & _ & ?). done. }
  pose proof Hrun as Hfin. apply finalize_ok in Hfin as (wr1 & c & -> & -> & Ha4 & _).
  apply spool_rows_ok in Hsp as (events & Happ & Hrows & Hn & Hu & Ha7).
  exists h, (spool_world s2), (spool_world s3), wr, events, wr1, s7, c, identity, request.
  rewrite Hd2, Hac2, Hw1. do 5 (split; [done|]). do 8 (split; [done||congruence|]). done.
Qed.

Lemma sealed_run_report input run self hec secret rows collection s s' c :
  wf_tree (tree (disk (spool_world s))) → run_wf run →
  (run_input_inner input run self hec secret rows collection : worker _) s = (s', Ok (RisingSealed c)) → collection = Ok c.
Proof using Type.
  intros Hwf Hrw (h & w0 & w1 & wr & events & wr1 & s1 & c0 & identity & request & Hrun)%run_input_ok; [|done..].
  destruct Hrun as (_ & _ & _ & _ & _ & _ & _ & _ & _ & _ & _ & _ & _ & Hfin & ->).
  by apply finalize_ok in Hfin as (? & ? & _ & [= <-] & _ & -> & _).
Qed.

(** The segment that a sealed rising run publishes. *)
Definition sealed_page (input : PreparedInput) (run : CollectionRun) (self : Spool) (hec : HecClient) (rows : list JsonRow)
    (c : CollectionResult) (w : world) : Prop :=
  ∃ rising cursor ready events,
    pi_rising input = Some rising ∧ cursor_of run = Some cursor
    ∧ published_segment self w ready events ∧ header_for input run (ready_header ready)
    ∧ event_count (ready_summary ready) = rows_read c
    ∧ rising_decode (ready_recovery_metadata ready)
      = Ok (metadata_of c (rising_request_fingerprint (pr_cursor_identity_fingerprint rising) cursor))
    ∧ row_events hec (pi_output input) (RisingIdentity (pi_input_id input) (pi_lineage_fingerprint input)
        (pr_cursor_identity_fingerprint rising)) 0 rows events.

Lemma sealed_run_publishes input run self hec secret rows collection s s' c :
  wf_tree (tree (disk (spool_world s))) → run_wf run → limits_wf (limits self) → in_u64 (limit_global (limits self)) →
  (∀ x, checkpoint_candidate c = Some x ∨ scan_resume c = Some x → wf_cursor x) →
  (run_input_inner input run self hec secret rows collection : worker _) s = (s', Ok (RisingSealed c)) →
  collection = Ok c ∧ rows_read c = lengthN rows ∧ rows ≠ [] ∧ sealed_page input run self hec rows c (spool_world s').
Proof using All.
  intros Hwf Hrw Hlw Hg Hcur Hrun.
  apply run_input_ok in Hrun as (h & w0 & w1 & wr & events & wr1 & s1 & c0 & identity & request & Hval & Hh & Hhw & Hd & _
    & Hbegin & Happ & Hrows & Hid & Hreq & Hn & Hu & Ha & Hfin & ->); [|done..].
  apply finalize_ok in Hfin as (wr1' & c' & [= <- _] & [= <-] & _ & -> & Hne & fp & ready & -> & Hrv & Hseal & Hcount).
  rewrite <- Hd in Hwf. pose proof Hh as (Hkey & _). split; [done|]. split; [done|].
  split; [intros ->; apply Hne; by rewrite Hn|].
  unfold recovery_request_of in Hreq. destruct (cursor_of run) as [cursor|] eqn:Hcu; [|by destruct (pi_rising input)].
  destruct (pi_rising input) as [rising|] eqn:Hr; [|done]. injection Hreq as <-.
  unfold identity_of in Hid. rewrite Hr in Hid. injection Hid as <-. set (fp := rising_request_fingerprint _ _) in *.
  assert (metadata_wf (mkMetadata (rising_bytes (metadata_of c0 fp)))) as Hm.
  { unfold metadata_wf. cbn [as_bytes]. rewrite length_rising_bytes. unfold MAX_RECOVERY_METADATA_BYTES. lia. }
  pose proof (life_published _ _ _ _ _ _ _ _ _ _ _ Hwf Hbegin Happ Hseal Hhw Hm Hlw Hg) as Hp.
  destruct (life_identity _ _ _ _ _ _ _ _ _ _ _ Hwf Hbegin Happ Hseal) as [Eh Em].
  exists rising, cursor, ready, events. rewrite Eh, Em. do 5 (split; [done|]). split.
  - apply rising_decode_iff. split; [|done]. split; [done|]. cbn. naive_solver.
  - by rewrite Hkey in Hrows.
Qed.

End CollectionProps.
