(* ===== verification/RisingTransitions.v ===== *)
(** * The store accepts the coordinator's transitions

    Every next state that the rising coordinator computes (rising.rs) is one that
    [validate_transition] and [state_validate] of the store (store.rs, model.rs) accept:
    the two components agree on the life of a scan. *)

From S2P Require Export CollectionProps Rising StateRuns.

Local Open Scope N_scope.
Local Open Scope dbx_scope.

(** ** The coordinator part *)

Lemma after_unchanged {A} c n (m : snap A) : (∀ c' r, m c = (c', r) → c' = c) → c ≠ n → snapshot_after c n m = false.
Proof.
  intros Hm Hne. apply not_true_is_false. intros [x Hx]%snapshot_after_true. apply Hm in Hx. congruence.
Qed.

Lemma start_on_active c f a : active_attempt c = Some a → ∀ c' r, start_attempt f c = (c', r) → c' = c.
Proof. intros Ha c' r [->|(_ & _ & Hn & _)]%start_attempt_cases; [done|congruence]. Qed.

Lemma collected_again c a f rows cand rows' cand' :
  active_attempt c = Some a → collection a = CollCompleted rows cand →
  ∀ c' r, collection_completed f rows' cand' c = (c', r) → c' = c.
Proof.
  intros Ha Hc c' r [->|(_ & _ & a' & Ha' & _ & Hp & _)]%collection_completed_cases; [done|congruence].
Qed.
Lemma failed_again c a f :
  active_attempt c = Some a → collection a = CollFailed → ∀ c' r, collection_failed f c = (c', r) → c' = c.
Proof. intros Ha Hc c' r [->|(_ & _ & a' & Ha' & _ & Hp & _)]%collection_failed_cases; [done|congruence]. Qed.

Lemma collection_completed_ok f rows cand c n r :
  collection_completed f rows cand c = (n, Ok r) →
  ∃ a, active_attempt c = Some a ∧ fence a = f ∧ candidate_ok (committed c) rows cand
    ∧ ((collection a = CollInProgress
        ∧ n = set_active_attempt (Some (set_collection (CollCompleted rows cand) a)) c)
       ∨ (collection a = CollCompleted rows cand ∧ n = c)).
Proof.
  unfold collection_completed. unfold_monad. split_valid c V; [|done]. split_fence c f V a Ha; [|done].
  destruct (validate_candidate _ _ _) as [[]|] eqn:Hk; [|done]. apply validate_candidate_ok in Hk.
  destruct (collection a) eqn:Hc; [intros [= <- <-]; exists a; eauto 6| |done].
  case_decide as Hd; [|done]. destruct Hd as [-> ->]. intros [= <- <-]. exists a. eauto 6.
Qed.

Lemma collection_completed_run c a rows cand :
  valid c → active_attempt c = Some a → collection a = CollInProgress → candidate_ok (committed c) rows cand →
  collection_completed (fence a) rows cand c
  = (set_active_attempt (Some (set_collection (CollCompleted rows cand) a)) c, Ok Recorded).
Proof.
  intros V Ha Hc Hk. unfold collection_completed. unfold_monad. rewrite (proj2 (snapshot_validate_ok _) V).
  assert (require_active_fence c (fence a) = Ok tt) as -> by (apply require_active_fence_ok; [done|by exists a]).
  rewrite (proj2 (validate_candidate_ok _ _ _) Hk). rewrite Ha. by rewrite Hc.
Qed.

Lemma set_active_ne c a a' : active_attempt c = Some a → a' ≠ a → c ≠ set_active_attempt (Some a') c.
Proof. intros Ha Hne E. apply (f_equal active_attempt) in E. cbn in E. congruence. Qed.

Lemma classify_start c f r :
  active_attempt c = None → start_attempt f c = (set_active_attempt (Some (mkActive f CollInProgress DelInProgress)) c, Ok r) →
  classify_checkpoint_transition c (set_active_attempt (Some (mkActive f CollInProgress DelInProgress)) c) = Ok TransStartAttempt.
Proof.
  intros Ha Hr. unfold classify_checkpoint_transition. rewrite decide_False.
  2: { intros E. apply (f_equal active_attempt) in E. cbn in E. congruence. }
  unfold classify_active. cbn [active_attempt set_active_attempt fence].
  by rewrite (proj2 (snapshot_after_true _ _ _) (ex_intro _ r Hr)).
Qed.

Lemma classify_collected c a rows cand r :
  active_attempt c = Some a → collection a = CollInProgress →
  let n := set_active_attempt (Some (set_collection (CollCompleted rows cand) a)) c in
  collection_completed (fence a) rows cand c = (n, Ok r) → classify_checkpoint_transition c n = Ok TransCollectionCompleted.
Proof.
  cbn zeta. intros Ha Hc Hr. unfold classify_checkpoint_transition.
  assert (c ≠ set_active_attempt (Some (set_collection (CollCompleted rows cand) a)) c) as Hne.
  { apply (set_active_ne _ a); [done|]. intros E. apply (f_equal collection) in E. cbn in E. congruence. }
  rewrite decide_False by done. unfold classify_active. cbn [active_attempt set_active_attempt].
  rewrite (after_unchanged _ _ _ (start_on_active _ _ _ Ha)) by done.
  unfold classify_collection. cbn [collection set_collection fence].
  by rewrite (proj2 (snapshot_after_true _ _ _) (ex_intro _ r Hr)).
Qed.

Lemma classify_confirmed c a rows r :
  active_attempt c = Some a → delivery a = DelInProgress →
  let n := set_active_attempt (Some (set_delivery (DelConfirmed rows) a)) c in
  delivery_confirmed (fence a) rows c = (n, Ok r) → classify_checkpoint_transition c n = Ok TransDeliveryChanged.
Proof.
  cbn zeta. intros Ha Hd Hr. unfold classify_checkpoint_transition.
  assert (c ≠ set_active_attempt (Some (set_delivery (DelConfirmed rows) a)) c) as Hne.
  { apply (set_active_ne _ a); [done|]. intros E. apply (f_equal delivery) in E. cbn in E. congruence. }
  rewrite decide_False by done. unfold classify_active. cbn [active_attempt set_active_attempt].
  rewrite (after_unchanged _ _ _ (start_on_active _ _ _ Ha)) by done.
  assert (classify_collection c (set_active_attempt (Some (set_delivery (DelConfirmed rows) a)) c)
    (set_delivery (DelConfirmed rows) a) = None) as ->.
  { unfold classify_collection. cbn [collection set_delivery fence]. destruct (collection a) eqn:Hc; [done|..].
    - by rewrite (after_unchanged _ _ _ (collected_again _ _ _ _ _ _ _ Ha Hc)).
    - by rewrite (after_unchanged _ _ _ (failed_again _ _ _ Ha Hc)). }
  unfold classify_delivery. cbn [delivery set_delivery fence].
  by rewrite (proj2 (snapshot_after_true _ _ _) (ex_intro _ r Hr)).
Qed.

Lemma classify_commit c a n r :
  active_attempt c = Some a → active_attempt n = None → commit (fence a) c = (n, Ok r) →
  classify_checkpoint_transition c n = Ok TransCommit.
Proof.
  intros Ha Hn Hr. unfold classify_checkpoint_transition. rewrite decide_False by congruence.
  unfold classify_active. rewrite Hn, Ha. by rewrite (proj2 (snapshot_after_true _ _ _) (ex_intro _ r Hr)).
Qed.

(** ** The state part *)

Section Transitions.
Context `{Sha256, Crypto, HecJson, SerdeJson}.

Definition same_identity (s s' : DurableInputState) : Prop :=
  format_version s' = format_version s ∧ input_id s' = input_id s
  ∧ source_lineage_fingerprint s' = source_lineage_fingerprint s
  ∧ cursor_identity_fingerprint s' = cursor_identity_fingerprint s
  ∧ configuration_fingerprint s' = configuration_fingerprint s
  ∧ configuration_generation s' = configuration_generation s.

(** A valid next state of the same identity and fence. *)
Lemma state_validate_iff s :
  state_validate s = Ok tt ↔ format_version s = DURABLE_STATE_FORMAT_VERSION ∧ configuration_generation s ≠ 0
  ∧ valid (coordinator s)
  ∧ configuration_id (coordinator s) = configuration_fence_id (configuration_fingerprint s) (configuration_generation s)
  ∧ match active_scan s with
    | Some sc => scan_validate sc (coordinator s) = Ok tt
    | None => active_attempt (coordinator s) = None
    end.
Proof using Type.
  split.
  - intros Hv. pose proof Hv as (Hval & Hcfg & Hs)%state_validate_ok. revert Hv. unfold state_validate. unfold_monad.
    case_decide as H1'; [done|]. case_decide as H2'; [done|]. intros _. by split_and!.
  - intros (Hf & Hg & Hval & Hcfg & Hs). unfold state_validate. unfold_monad.
    rewrite decide_False by (rewrite Hf; intros Hn; by apply Hn). rewrite decide_False by done.
    rewrite decide_False by (rewrite (valid_version _ Hval); intros Hn; by apply Hn).
    rewrite (proj2 (snapshot_validate_ok _) Hval). rewrite decide_False by (rewrite Hcfg; intros Hn; by apply Hn).
    destruct (active_scan s); [done|]. by rewrite decide_False by (rewrite Hs; intros Hn; by apply Hn).
Qed.

Lemma state_validate_next s s' :
  state_validate s = Ok tt → same_identity s s' → valid (coordinator s') →
  configuration_id (coordinator s') = configuration_id (coordinator s) →
  match active_scan s' with
  | Some sc => scan_validate sc (coordinator s') = Ok tt
  | None => active_attempt (coordinator s') = None
  end → state_validate s' = Ok tt.
Proof using Type.
  intros (Hf & Hg & _ & Hcfg & _)%state_validate_iff (Ef & Ei & El & Ec & Ep & Eg) Hval Hid Hscan.
  apply state_validate_iff. rewrite Ef, Eg, Ep, Hid. by split_and!.
Qed.

(** One accepted transition: its classification, its scan part and a valid result. *)
Lemma accepted_intro s s' t :
  state_validate s = Ok tt → same_identity s s' → valid (coordinator s') →
  configuration_id (coordinator s') = configuration_id (coordinator s) →
  generation (coordinator s) ≤ generation (coordinator s') →
  classify_checkpoint_transition (coordinator s) (coordinator s') = Ok t →
  validate_scan_transition s s' t = Ok tt →
  match active_scan s' with
  | Some sc => ∃ a, scan_ok sc (coordinator s') a
  | None => active_attempt (coordinator s') = None
  end → accepted s s'.
Proof using Type.
  intros Hv Hsame Hval Hid Hgen Hc Ht Hscan. pose proof Hsame as (Ef & Ei & El & Ec & Ep & Eg).
  assert (widths_ok s') as Hw.
  { intros sc Hsc. rewrite Hsc in Hscan. destruct Hscan as [a Hok]. pose proof (ok_rows _ _ _ Hok) as Hr.
    unfold sealed_total in Hr. ulia. }
  split; [|split; [|done]].
  - unfold validate_transition. rewrite decide_False by congruence. rewrite decide_False by (intros [?|?]; congruence).
    rewrite decide_False by (rewrite Eg; lia). rewrite decide_False by (intros [?|?]; congruence).
    rewrite decide_False by lia. rewrite Hc, ok_bind. done.
  - apply (state_validate_next s); try done. destruct (active_scan s') as [sc|] eqn:Hsc; [|done].
    apply scan_validate_iff; [|done]. by apply Hw.
Qed.

Definition set_coordinator (c : Snapshot) (s : DurableInputState) : DurableInputState :=
  mkState (format_version s) (input_id s) (source_lineage_fingerprint s) (cursor_identity_fingerprint s)
    (configuration_fingerprint s) (configuration_generation s) c (active_scan s).

Lemma with_coordinator_ok {A} (m : snap A) s s1 a :
  with_coordinator m s = Ok (s1, a) ↔ ∃ c, m (coordinator s) = (c, Ok a) ∧ s1 = set_coordinator c s.
Proof using Type. unfold with_coordinator. destruct (m (coordinator s)) as [c [x|e]]; naive_solver. Qed.

Lemma scan_of_ok s sc : scan_of s = Ok sc ↔ active_scan s = Some sc.
Proof using Type. apply ok_or_ok. Qed.
Lemma active_fence_ok s f : active_fence s = Ok f ↔ ∃ a, active_attempt (coordinator s) = Some a ∧ fence a = f.
Proof using Type. unfold active_fence. rewrite ok_or_ok, fmap_Some. naive_solver. Qed.
Lemma sealed_rows_ok sc n : sealed_rows sc = Ok n → n = sealed_total sc.
Proof using Type. by intros Hs%ok_or_ok%try_sum_rows_ok. Qed.
Lemma try_sum_rows_in acc l n : try_sum_rows acc l = Some n → l ≠ [] → in_u64 n.
Proof using Type.
  revert acc. induction l as [|x l IH]; intros acc; [done|]. cbn. intros (b & [-> Hb]%checked_add_some & Hl)%bind_Some _.
  destruct l as [|y l]; [by injection Hl as <-|by eapply IH].
Qed.
Lemma try_sum_rows_total acc l : in_u64 (acc + rows_sum l) → try_sum_rows acc l = Some (acc + rows_sum l).
Proof using Type.
  revert acc. induction l as [|x l IH]; intros acc; cbn [try_sum_rows].
  - change (rows_sum []) with 0. by rewrite N.add_0_r.
  - rewrite rows_sum_cons. intros Hu. rewrite (proj2 (checked_add_some acc (rows x) _)) by (split; [done|ulia]).
    cbn. rewrite IH by (by rewrite <- N.add_assoc). by rewrite N.add_assoc.
Qed.
Lemma scan_segment_count_ok sc n : scan_segment_count sc = Ok n ↔ n = sealed_count sc ∧ in_u64 (sealed_count sc).
Proof using Type. unfold scan_segment_count. by rewrite ok_or_ok, checked_add_some. Qed.

Lemma canonical_lookup n l i seg : canonical_from n l → l !! i = Some seg → sequence seg = n + N.of_nat i.
Proof using Type.
  revert n i. induction l as [|x l IH]; intros n i; [done|]. intros (Hs & _ & _ & Hl). destruct i as [|i]; cbn.
  - intros [= <-]. lia.
  - intros Hi. rewrite (IH _ _ Hl Hi). lia.
Qed.
Lemma canonical_last n l seg : canonical_from n l → last l = Some seg → sequence seg + 1 = n + lengthN l.
Proof using Type.
  rewrite last_lookup. intros Hc Hl. pose proof (lookup_lt_Some _ _ _ Hl). rewrite (canonical_lookup _ _ _ _ Hc Hl).
  unfold lengthN. lia.
Qed.
Lemma receipted_prefix_spec d n l :
  canonical_from n l → let k := receipted_prefix d l in
  (k ≤ length l)%nat ∧ (k ≠ 0%nat → n + N.of_nat k ≤ d + 1) ∧ ((k < length l)%nat → d < n + N.of_nat k).
Proof using Type.
  cbn zeta. revert n. induction l as [|x l IH]; intros n; cbn [receipted_prefix length]; [lia|].
  intros (Hs & _ & _ & Hl). destruct (IH _ Hl) as (H1' & H2' & H3'). case_decide as Hd; [|lia].
  split; [lia|]. split; [intros _; destruct (receipted_prefix d l); lia|]. intros Hlt. lia.
Qed.

(** ** The transitions of the coordinator

    The next states as the methods compute them, with the facts they have checked. *)
Inductive rising_transition (s : DurableInputState) : DurableInputState → Prop :=
  | rt_start attempt s' : active_scan s = None → started s attempt = Ok s' → rising_transition s s'
  | rt_adopt input orphan metadata sc s' :
      adopt_orphan s input orphan = Ok s' → active_scan s = Some sc →
      (∀ a, active_attempt (coordinator s) = Some a → collection a ≠ CollFailed) →
      view_metadata orphan = Ok metadata →
      (* what the connector promises of a page *)
      cursor_strictly_advances (resume_after sc) (rm_scan_resume metadata) = true →
      opt_cursor_le (maximum_candidate sc) (rm_checkpoint_candidate metadata) →
      opt_cursor_le (base_committed sc) (rm_checkpoint_candidate metadata) →
      ready_segment_id orphan ∉ segment_id <$> DurableState.segments sc →
      rising_transition s s'
  | rt_empty page s' : completed_empty s page = Ok s' → rising_transition s s'
  | rt_receipt sc s' :
      active_scan s = Some sc → delivered_through_sequence sc + 1 ≤ sealed_count sc →
      with_receipt s (delivered_through_sequence sc + 1) = Ok s' → rising_transition s s'
  | rt_prune s' : pruned s = Ok (Some s') → rising_transition s s'
  | rt_confirm sc a rows s' r :
      active_scan s = Some sc → complete sc = true → delivered_through_sequence sc = sealed_count sc →
      active_attempt (coordinator s) = Some a → delivery a = DelInProgress → sealed_rows sc = Ok rows →
      with_coordinator (delivery_confirmed (fence a) rows) s = Ok (s', r) → rising_transition s s'
  | rt_commit a s1 g adv :
      active_attempt (coordinator s) = Some a → with_coordinator (commit (fence a)) s = Ok (s1, Committed g adv) →
      rising_transition s (set_active_scan None s1).

Lemma start_accepted s attempt s' :
  state_validate s = Ok tt → active_scan s = None → started s attempt = Ok s' → accepted s s'.
Proof using Type.
  intros Hv Hn. pose proof Hv as (Hval & _ & Ha)%state_validate_ok. rewrite Hn in Ha.
  unfold started. intros ([s1 r] & (c & Hm & ->)%with_coordinator_ok & [= <-])%result_bind_ok.
  pose proof Hm as [E|(_ & _ & _ & Hc & Hg & ->)]%start_attempt_cases.
  { revert Hm. subst c. unfold start_attempt. unfold_monad. rewrite (proj2 (snapshot_validate_ok _) Hval).
    destruct (require_current_context _ _); [|done]. rewrite Ha. intros [= E _].
    apply (f_equal active_attempt) in E. rewrite Ha in E. done. }
  apply (accepted_intro _ _ TransStartAttempt); cbn [coordinator set_coordinator set_active_scan active_scan]; try done.
  - eapply trans_valid; [exact Hval|by apply trans_start].
  - by eapply classify_start.
  - cbn [validate_scan_transition active_scan]. unfold_monad. rewrite Hn. rewrite decide_False by (intros Hx; by apply Hx).
    unfold validate_initial_scan. by rewrite decide_True.
  - exists (mkActive (mkFence attempt (configuration_id (coordinator s)) (generation (coordinator s))) CollInProgress DelInProgress).
    split; try done; try (unfold sealed_count, sealed_total, lengthN, rows_sum; cbn; ulia).
    + apply NoDup_nil_2.
Qed.

Lemma receipt_accepted s sc s' :
  state_validate s = Ok tt → widths_ok s → active_scan s = Some sc →
  delivered_through_sequence sc + 1 ≤ sealed_count sc → with_receipt s (delivered_through_sequence sc + 1) = Ok s' →
  accepted s s'.
Proof using Type.
  intros Hv Hw Hs Hle. destruct (state_scan_ok _ _ Hv Hw Hs) as [a V].
  unfold with_receipt, scan_of. rewrite Hs. intros [= <-]. pose proof Hv as (Hval & _ & _)%state_validate_ok.
  apply (accepted_intro _ _ TransUnchanged); cbn [coordinator set_active_scan active_scan]; try done.
  - unfold classify_checkpoint_transition. by rewrite decide_True.
  - cbn [validate_scan_transition]. unfold validate_scan_unchanged. rewrite Hs. cbn [active_scan set_active_scan].
    rewrite decide_True by (cbn; lia). unfold validate_delivery_receipt_advance.
    pose proof (ok_next _ _ _ V) as [_ Hn64]. assert (checked_add (delivered_through_sequence sc) 1 = Some (delivered_through_sequence sc + 1)) as ->
      by (apply checked_add_some; split; [done|ulia]).
    cbn [ok_or]. rewrite ok_bind. cbn [delivered_through_sequence set_delivered].
    rewrite decide_False by (intros Hx; by apply Hx). rewrite decide_False; [by rewrite decide_True|].
    unfold sealed_count in Hle. destruct (last (DurableState.segments sc)) as [seg|] eqn:El.
    + pose proof (canonical_last _ _ _ (ok_canonical _ _ _ V) El). lia.
    + apply last_None in El. rewrite El in Hle. unfold lengthN in Hle. cbn in Hle. lia.
  - exists a. destruct V as [Va Vat Vb Vlim Vrc Vcp Vcan Vnd Vnx Vrow Vcur Vco Vde]. split; try done; cbn.
    + change (sealed_count (set_delivered (delivered_through_sequence sc + 1) sc)) with (sealed_count sc). lia.
    + intros rows Hd. destruct (Vde rows Hd) as (? & E & ?). lia.
Qed.

(** Pruning removes references that are receipted, and only these. *)
Lemma pruned_ok s sc s' :
  state_validate s = Ok tt → widths_ok s → active_scan s = Some sc → pruned s = Ok (Some s') →
  ∃ k, let l := DurableState.segments sc in
    s' = set_active_scan (Some (set_compacted (compacted_through_sequence sc + N.of_nat k)
           (compacted_rows sc + rows_sum (take k l)) (drop k l) sc)) s
    ∧ (0 < k ≤ length l)%nat ∧ compacted_through_sequence sc + N.of_nat k ≤ delivered_through_sequence sc
    ∧ try_sum_rows 0 (take k l) = Some (rows_sum (take k l)) ∧ in_u64 (compacted_rows sc + rows_sum (take k l)).
Proof using Type.
  intros Hv Hw Hs. unfold pruned, scan_of. rewrite Hs. cbn [ok_or]. rewrite ok_bind. cbn zeta.
  destruct (state_scan_ok _ _ Hv Hw Hs) as [a V].
  destruct (receipted_prefix_spec (delivered_through_sequence sc) _ _ (ok_canonical _ _ _ V)) as (Hk & Hkd & _).
  set (k := receipted_prefix _ _) in *. case_decide as Hz; [done|].
  intros (removed & Hr%ok_or_ok & Hrun)%result_bind_ok.
  apply result_bind_ok in Hrun as (lastseg & Hl%ok_or_ok & Hrun).
  apply result_bind_ok in Hrun as (rows' & Hadd%ok_or_ok & [= <-]).
  apply checked_add_some in Hadd as [-> Hu]. pose proof Hr as Er%try_sum_rows_ok. rewrite N.add_0_l in Er. subst removed.
  pose proof (canonical_lookup _ _ _ _ (ok_canonical _ _ _ V) Hl) as Hseq.
  assert (sequence lastseg = compacted_through_sequence sc + N.of_nat k) as -> by lia.
  exists k. cbn zeta. split_and!; try done; lia.
Qed.

Lemma pruned_rows sc k :
  rows_sum (DurableState.segments sc)
  = rows_sum (take k (DurableState.segments sc)) + rows_sum (drop k (DurableState.segments sc)).
Proof using Type. by rewrite <- rows_sum_app, take_drop. Qed.
Lemma pruned_counts sc k : (k ≤ length (DurableState.segments sc))%nat →
  let sc' := set_compacted (compacted_through_sequence sc + N.of_nat k)
    (compacted_rows sc + rows_sum (take k (DurableState.segments sc))) (drop k (DurableState.segments sc)) sc in
  sealed_count sc' = sealed_count sc ∧ sealed_total sc' = sealed_total sc.
Proof using Type.
  intros Hk. cbn zeta. split.
  - unfold sealed_count, lengthN. cbn. rewrite length_drop. lia.
  - unfold sealed_total. rewrite (pruned_rows sc k). cbn. lia.
Qed.

Lemma prune_accepted s s' :
  state_validate s = Ok tt → widths_ok s → pruned s = Ok (Some s') → accepted s s'.
Proof using Type.
  intros Hv Hw Hp. pose proof Hp as (sc & Hs%scan_of_ok & _)%result_bind_ok.
  destruct (state_scan_ok _ _ Hv Hw Hs) as [a V]. pose proof Hv as (Hval & _ & _)%state_validate_ok.
  destruct (pruned_ok _ _ _ Hv Hw Hs Hp) as (k & -> & [Hz Hk] & Hkd & Hr & Hu). clear Hp. cbn zeta.
  destruct (pruned_counts sc k Hk) as [Ecount Etotal]. pose proof (pruned_rows sc k) as Hrs.
  set (sc' := set_compacted _ _ _ sc) in *.
  assert (lengthN (take k (DurableState.segments sc)) = N.of_nat k) as Hlen
    by (unfold lengthN; rewrite length_take; lia).
  pose proof (ok_canonical _ _ _ V) as Hcan. rewrite <- (take_drop k (DurableState.segments sc)) in Hcan.
  apply canonical_app in Hcan as [Hc1 Hc2]. rewrite Hlen in Hc2. pose proof (canonical_rows_pos _ _ Hc1) as Hpos.
  apply (accepted_intro _ _ TransUnchanged); cbn [coordinator set_active_scan active_scan]; try done.
  - unfold classify_checkpoint_transition. by rewrite decide_True.
  - cbn [validate_scan_transition]. unfold validate_scan_unchanged. rewrite Hs. cbn [active_scan set_active_scan].
    rewrite decide_False by (intros Hx; by apply Hx). rewrite decide_True by (left; cbn; lia).
    unfold validate_scan_compaction. cbn [compacted_through_sequence sc' set_compacted].
    rewrite decide_False by lia. assert (checked_sub (compacted_through_sequence sc + N.of_nat k) (compacted_through_sequence sc)
      = Some (compacted_through_sequence sc + N.of_nat k - compacted_through_sequence sc)) as ->
      by (apply checked_sub_some; split; [lia|done]). cbn [ok_or]. rewrite ok_bind.
    rewrite decide_False by (unfold lengthN; lia).
    replace (N.to_nat (compacted_through_sequence sc + N.of_nat k - compacted_through_sequence sc)) with k by lia.
    rewrite Hr. cbn [ok_or]. rewrite ok_bind. rewrite (proj2 (checked_add_some _ _ _) (conj eq_refl Hu)). cbn [ok_or].
    rewrite ok_bind. by rewrite decide_True.
  - exists a. destruct V as [Va Vat Vb Vlim Vrc Vcp Vcan Vnd Vnx Vrow Vcur Vco Vde]. split; try done; rewrite ?Ecount, ?Etotal; try done; cbn.
    + unfold lengthN in *. rewrite length_drop. lia.
    + lia.
    + lia.
    + by replace (compacted_through_sequence sc + N.of_nat k + 1) with (compacted_through_sequence sc + 1 + N.of_nat k) by lia.
    + rewrite list.fmap_drop. apply (sublist_NoDup _ _ Vnd), sublist_drop.
    + unfold cursors_ok in *. by rewrite Ecount.
Qed.

Lemma set_scan_coordinator c s : coordinator (set_coordinator c s) = c.
Proof using Type. done. Qed.

(** A complete scan that the attempt still collects gets its collection recorded. *)
Lemma complete_accepted s sc sc' a c r :
  state_validate s = Ok tt → active_scan s = Some sc → active_attempt (coordinator s) = Some a →
  collection_completed (fence a) (sealed_total sc') (maximum_candidate sc') (coordinator s) = (c, Ok r) →
  complete sc = false → validate_scan_append sc sc' true = Ok tt →
  collection a = CollInProgress → (∀ rows, delivery a ≠ DelConfirmed rows) → complete sc' = true →
  (∀ b, delivery b = delivery a → fence b = fence a → active_attempt c = Some b →
     collection b = CollCompleted (sealed_total sc') (maximum_candidate sc') → committed c = committed (coordinator s) →
     scan_ok sc' c b) →
  accepted s (set_active_scan (Some sc') (set_coordinator c s)).
Proof using Type.
  intros Hv Hs Ha Hcc Hc Happ Hin Hnd Hc' Hok. pose proof Hv as (Hval & _ & _)%state_validate_ok.
  pose proof Hcc as (a' & Ha' & _ & Hcand & Hcases)%collection_completed_ok.
  rewrite Ha in Ha'. injection Ha' as <-. destruct Hcases as [[_ ->]|[Hx _]]; [|congruence].
  apply (accepted_intro _ _ TransCollectionCompleted); cbn [coordinator set_active_scan active_scan set_coordinator]; try done.
  - eapply trans_valid; [exact Hval|by apply trans_collected].
  - by eapply classify_collected.
  - cbn [validate_scan_transition]. by rewrite Hs.
  - exists (set_collection (CollCompleted (sealed_total sc') (maximum_candidate sc')) a). by apply Hok.
Qed.

Lemma append_ok sc sc' :
  complete sc = false → sc' = set_complete (complete sc') (append_segment (List.last (DurableState.segments sc') (mkSegmentRef (vreplicate 16 x00) 0 0 0 (vreplicate 32 x00)))
     (resume_after sc') (maximum_candidate sc') sc) →
  in_u64 (next_page sc + 1) → cursor_strictly_advances (resume_after sc) (resume_after sc') = true →
  opt_cursor_le (maximum_candidate sc) (maximum_candidate sc') →
  validate_scan_append sc sc' (complete sc') = Ok tt.
Proof using Type.
  intros Hc E Hn Hr Hm. unfold validate_scan_append.
  assert (next_page sc' = next_page sc + 1) as En by (by rewrite E). set (x := List.last _ _) in E.
  assert (DurableState.segments sc' = DurableState.segments sc ++ [x]) as Es by (by rewrite E).
  assert (starts_with (DurableState.segments sc') (DurableState.segments sc) = true) as Hst
    by (apply starts_with_true; rewrite Es; by eexists).
  rewrite decide_False.
  2: { rewrite Hst, En, Hc. rewrite E. cbn. intros Hx. repeat destruct Hx as [Hx|Hx]; try done. lia. }
  rewrite Es at 1. rewrite length_app. cbn [length].
  replace (length (DurableState.segments sc) + 1 - length (DurableState.segments sc))%nat with 1%nat by lia.
  rewrite (proj2 (checked_add_some _ _ _) (conj eq_refl Hn)). cbn [ok_or]. rewrite ok_bind.
  apply regresses_spec in Hm. rewrite decide_False; [done|]. rewrite Hr, Hm, En. intros [?|[?|?]]; done.
Qed.

Lemma empty_accepted s page s' :
  state_validate s = Ok tt → widths_ok s → completed_empty s page = Ok s' → accepted s s'.
Proof using Type.
  intros Hv Hw. unfold completed_empty.
  intros (f & (a & Ha & <-)%active_fence_ok & Hrun)%result_bind_ok.
  apply result_bind_ok in Hrun as (sc & Hs%scan_of_ok & Hrun). case_decide as Hcp; [done|].
  apply Decidable.not_or in Hcp as [Hc%not_true_is_false _]. cbn zeta in Hrun.
  apply result_bind_ok in Hrun as (rows & ->%sealed_rows_ok & Hrun).
  apply result_bind_ok in Hrun as ([next r] & (c & Hcc & ->)%with_coordinator_ok & [= <-]).
  destruct (state_scan_ok _ _ Hv Hw Hs) as [a' V]. pose proof (ok_active _ _ _ V) as Ha'.
  rewrite Ha in Ha'. injection Ha' as <-. cbn [coordinator set_active_scan] in Hcc.
  pose proof Hcc as (a' & Ha' & _ & _ & Hcases)%collection_completed_ok. rewrite Ha in Ha'. injection Ha' as <-.
  pose proof (ok_collection _ _ _ V) as Hcol. pose proof (ok_delivery _ _ _ V) as Hdel.
  assert (collection a = CollInProgress) as Hin.
  { destruct Hcases as [[? _]|[Hx _]]; [done|]. rewrite Hx in Hcol. destruct Hcol. congruence. }
  assert (∀ rows, delivery a ≠ DelConfirmed rows) as Hnd by (intros rows Hd; destruct (Hdel rows Hd); congruence).
  apply (complete_accepted _ sc (set_complete true sc) a _ r); try done.
  - unfold validate_scan_append. rewrite decide_False.
    2: { assert (starts_with (DurableState.segments sc) (DurableState.segments sc) = true) as Hst
           by (apply starts_with_true; reflexivity).
         cbn. rewrite Hst, Hc. intros Hx. repeat destruct Hx as [Hx|Hx]; try done. lia. }
    cbn [DurableState.segments set_complete]. rewrite Nat.sub_diag. rewrite decide_False; [done|]. intros [?|[?|?]]; done.
  - intros b Eb Ef Hb Hcb Hk. destruct V as [Va Vat Vb Vlim Vrc Vcp Vcan Vnd Vnx Vrow Vcur Vco Vde]. split; try done.
    + by rewrite Ef.
    + cbn. by rewrite Hk.
    + by rewrite Hcb.
    + intros rows' Hd. rewrite Eb in Hd. by apply Hnd in Hd.
Qed.

Lemma confirm_accepted s sc a rows s' r :
  state_validate s = Ok tt → widths_ok s → active_scan s = Some sc → complete sc = true →
  delivered_through_sequence sc = sealed_count sc → active_attempt (coordinator s) = Some a →
  delivery a = DelInProgress → sealed_rows sc = Ok rows →
  with_coordinator (delivery_confirmed (fence a) rows) s = Ok (s', r) → accepted s s'.
Proof using Type.
  intros Hv Hw Hs Hc Hd Ha Hin ->%sealed_rows_ok (c & Hm & ->)%with_coordinator_ok.
  destruct (state_scan_ok _ _ Hv Hw Hs) as [a' V]. pose proof (ok_active _ _ _ V) as Ha'.
  rewrite Ha in Ha'. injection Ha' as <-. pose proof Hv as (Hval & _ & _)%state_validate_ok.
  assert (c = set_active_attempt (Some (set_delivery (DelConfirmed (sealed_total sc)) a)) (coordinator s)) as ->.
  { pose proof Hm as [E|(_ & _ & a' & Ha' & _ & _ & E)]%delivery_confirmed_cases; [|congruence].
    revert Hm. unfold delivery_confirmed. unfold_monad. rewrite (proj2 (snapshot_validate_ok _) Hval).
    destruct (require_active_fence _ _); [|done]. rewrite Ha, Hin. intros [= <- _]. done. }
  apply (accepted_intro _ _ TransDeliveryChanged); cbn [coordinator set_coordinator active_scan]; try done.
  - eapply trans_valid; [exact Hval|by apply trans_delivery].
  - by eapply classify_confirmed.
  - cbn [validate_scan_transition]. rewrite Hs. cbn [active_scan set_coordinator]. rewrite Hs.
    rewrite decide_False by (intros Hx; by apply Hx). cbn [coordinator set_coordinator active_attempt set_active_attempt].
    cbn [ok_or]. rewrite ok_bind. cbn [delivery set_delivery]. unfold scan_has_full_delivery_receipt.
    pose proof (ok_next _ _ _ V) as [_ Hn64].
    assert (checked_add (compacted_through_sequence sc) (lengthN (DurableState.segments sc)) = Some (sealed_count sc)) as ->
      by (apply checked_add_some; split; [done|unfold sealed_count in *; ulia]).
    cbn [ok_or]. rewrite ok_bind, Hc, Hd. cbn. by rewrite bool_decide_true.
  - rewrite Hs. exists (set_delivery (DelConfirmed (sealed_total sc)) a).
    destruct V as [Va Vat Vb Vlim Vrc Vcp Vcan Vnd Vnx Vrow Vcur Vco Vde]. split; try done.
    intros rows [= <-]. done.
Qed.

Lemma commit_accepted s a s1 g adv :
  state_validate s = Ok tt → widths_ok s → active_attempt (coordinator s) = Some a →
  with_coordinator (commit (fence a)) s = Ok (s1, Committed g adv) → accepted s (set_active_scan None s1).
Proof using Type.
  intros Hv Hw Ha (c & Hm & ->)%with_coordinator_ok. pose proof Hv as (Hval & _ & Hscan)%state_validate_ok.
  destruct (active_scan s) as [sc|] eqn:Hs; [|congruence].
  destruct (state_scan_ok _ _ Hv Hw Hs) as [a' V]. pose proof (ok_active _ _ _ V) as Ha'.
  rewrite Ha in Ha'. injection Ha' as <-.
  destruct (commit_cases (coordinator s) (fence a)) as [[e E]|[(E & _)|(a' & rows & cand & _ & Ha' & _ & Hc & Hd & Hg & E)]];
    rewrite E in Hm; try done. injection Hm as <- <- <-. rewrite Ha in Ha'. injection Ha' as <-.
  destruct (ok_delivery _ _ _ V _ Hd) as (Hcomp & Hfull & _).
  apply (accepted_intro _ _ TransCommit); cbn [coordinator set_coordinator set_active_scan active_scan]; try done.
  - eapply trans_valid; [exact Hval|by eapply trans_commit].
  - cbn. lia.
  - by eapply classify_commit.
  - cbn [validate_scan_transition]. rewrite Hs. cbn [ok_or]. rewrite ok_bind. cbn [active_scan set_active_scan].
    unfold scan_has_full_delivery_receipt. pose proof (ok_next _ _ _ V) as [_ Hn64].
    assert (checked_add (compacted_through_sequence sc) (lengthN (DurableState.segments sc)) = Some (sealed_count sc)) as ->
      by (apply checked_add_some; split; [done|unfold sealed_count in *; ulia]).
    cbn [ok_or]. rewrite ok_bind, Hcomp, Hfull. cbn. by rewrite bool_decide_true.
Qed.

(** What [validate_common_segment] has checked. *)
Record common_segment (s : DurableInputState) (input : PreparedInput) (segment : ReadySegment)
    (metadata : RisingRecoveryMetadata) : Prop := mkCommon {
  cs_active : ∃ a, active_attempt (coordinator s) = Some a ∧ batch_id (ready_header segment) = attempt_id (fence a);
  cs_key : input_key (ready_header segment) = pi_input_id input;
  cs_fingerprint : header_fingerprint (ready_header segment) = pi_revision_fingerprint input;
  cs_generation : header_generation (ready_header segment) = configuration_generation s;
  cs_batch : batch_sequence (ready_header segment) = generation (coordinator s);
  cs_sequence : segment_sequence (ready_header segment) ≠ 0;
  cs_metadata : view_metadata segment = Ok metadata;
  cs_rows : rm_rows metadata = event_count (ready_summary segment) ∧ rm_rows metadata ≠ 0;
}.

Lemma validate_common_ok s input segment metadata :
  validate_common_segment s input segment = Ok metadata ↔ common_segment s input segment metadata.
Proof using Type.
  unfold validate_common_segment. split.
  - intros (a & Ha%ok_or_ok & Hrun)%result_bind_ok. cbn zeta in Hrun. case_decide as Hk; [done|].
    apply result_bind_ok in Hrun as (m & Hm & Hrun). case_decide as Hr; [done|]. injection Hrun as <-.
    assert (batch_id (ready_header segment) = attempt_id (fence a)) as Hb by (apply dec_stable; tauto).
    split; try done; [by exists a|apply dec_stable; tauto..|tauto|].
    split; [apply dec_stable|]; tauto.
  - intros [(a & Ha & Hb) Hk Hf Hg Hbs Hq Hm [Hr Hz]]. apply result_bind_ok. exists a. split; [by apply ok_or_ok|].
    cbn zeta. rewrite decide_False by (intros Hx; repeat destruct Hx as [Hx|Hx]; congruence).
    apply result_bind_ok. exists metadata. split; [done|]. rewrite decide_False by (intros [?|?]; congruence). done.
Qed.

(** A page's cursors, when it has rows. *)
Lemma page_cursors segment metadata :
  view_metadata segment = Ok metadata → rm_rows metadata ≠ 0 →
  ∃ candidate resume, rm_checkpoint_candidate metadata = Some candidate ∧ rm_scan_resume metadata = Some resume
    ∧ cursor_le resume candidate.
Proof using Type.
  intros Hm%map_err_ok Hr. destruct (ready_recovery_metadata segment) as [bytes].
  apply rising_decode_iff in Hm as (_ & Hv & _). revert Hv. unfold rising_validate. case_decide; [done|].
  rewrite decide_False by done.
  destruct (rm_checkpoint_candidate metadata) as [c|], (rm_scan_resume metadata) as [r|]; try done.
  case_decide as Hlt; [done|]. intros _. exists c, r. split; [done|]. split; [done|]. by apply position_cmp_not_lt.
Qed.

(** The scan with the adopted page. *)
Definition adopted_scan (sc : ActiveScan) (segment : ReadySegment) (metadata : RisingRecoveryMetadata) : ActiveScan :=
  set_complete (negb (rm_truncated metadata))
    (append_segment (mkSegmentRef (ready_segment_id segment) (next_page sc) (next_page sc) (rm_rows metadata)
        (ReadySegment_reference_digest segment))
      (rm_scan_resume metadata) (rm_checkpoint_candidate metadata) sc).

(** What an adoption has checked, and the state it leads to. *)
Lemma adopt_orphan_ok s input segment s' :
  adopt_orphan s input segment = Ok s' →
  ∃ metadata a sc, common_segment s input segment metadata
    ∧ expected_request_fingerprint s input = Ok (rm_request_fingerprint metadata)
    ∧ active_attempt (coordinator s) = Some a ∧ active_scan s = Some sc ∧ complete sc = false
    ∧ segment_sequence (ready_header segment) = next_page sc ∧ next_page sc = sealed_count sc + 1
    ∧ lengthN (DurableState.segments sc) < MAX_SEGMENTS_PER_SCAN ∧ in_u64 (next_page sc + 1)
    ∧ in_u64 (sealed_total (adopted_scan sc segment metadata))
    ∧ if rm_truncated metadata then s' = set_active_scan (Some (adopted_scan sc segment metadata)) s
      else ∃ c r, collection_completed (fence a) (sealed_total (adopted_scan sc segment metadata))
             (rm_checkpoint_candidate metadata) (coordinator s) = (c, Ok r)
           ∧ s' = set_active_scan (Some (adopted_scan sc segment metadata)) (set_coordinator c s).
Proof using Type.
  unfold adopt_orphan. intros (metadata & Hm%validate_common_ok & Hrun)%result_bind_ok.
  apply result_bind_ok in Hrun as (expected & He & Hrun). case_decide as Hfp; [done|].
  apply result_bind_ok in Hrun as (f & (a & Ha & <-)%active_fence_ok & Hrun).
  apply result_bind_ok in Hrun as (sc & Hs%scan_of_ok & Hrun). case_decide as Hchk; [done|].
  apply result_bind_ok in Hrun as (count & [-> Hu]%scan_segment_count_ok & Hrun).
  apply result_bind_ok in Hrun as (seq & [-> Hu1]%ok_or_ok%checked_add_some & Hrun). case_decide as Hseq; [done|].
  cbn zeta in Hrun. apply result_bind_ok in Hrun as (np & [-> Hu2]%ok_or_ok%checked_add_some & Hrun).
  apply result_bind_ok in Hrun as (rows & Hrows & Hrun).
  assert (sealed_count sc + 1 = next_page sc) as Enp by (apply dec_stable; tauto).
  rewrite Enp in Hrows, Hrun. change (mkScan _ _ _ _ _ _ _ _ _ _) with (adopted_scan sc segment metadata) in Hrows, Hrun.
  exists metadata, a, sc. split; [done|]. split; [congruence|].
  do 2 (split; [done|]). split; [apply not_true_is_false; tauto|]. split; [apply dec_stable; tauto|]. split; [done|].
  split; [lia|]. split; [done|]. split.
  { apply ok_or_ok in Hrows. pose proof (try_sum_rows_in _ _ _ Hrows) as Hin. apply try_sum_rows_ok in Hrows as ->.
    apply Hin. cbn. by destruct (DurableState.segments sc). }
  apply sealed_rows_ok in Hrows as ->. cbn [complete adopted_scan set_complete] in Hrun.
  destruct (rm_truncated metadata); cbn [negb] in Hrun.
  - by injection Hrun as <-.
  - apply result_bind_ok in Hrun as ([next r] & (c & Hcc & ->)%with_coordinator_ok & [= <-]). by exists c, r.
Qed.

Lemma canonical_snoc n l seg :
  canonical_from n l → sequence seg = n + lengthN l → page seg = n + lengthN l → rows seg ≠ 0 → canonical_from n (l ++ [seg]).
Proof using Type. intros Hc Hs Hp Hr. apply canonical_app. split; [done|]. by split_and!. Qed.

(** The adopted scan is well formed when the connector keeps its promises. *)
Lemma adopted_scan_ok s sc segment metadata a c b :
  scan_ok sc (coordinator s) a → active_attempt (coordinator s) = Some a → complete sc = false →
  rm_rows metadata ≠ 0 → view_metadata segment = Ok metadata →
  next_page sc = sealed_count sc + 1 → lengthN (DurableState.segments sc) < MAX_SEGMENTS_PER_SCAN →
  in_u64 (next_page sc + 1) → in_u64 (sealed_total (adopted_scan sc segment metadata)) →
  opt_cursor_le (base_committed sc) (rm_checkpoint_candidate metadata) →
  ready_segment_id segment ∉ segment_id <$> DurableState.segments sc →
  active_attempt c = Some b → delivery b = delivery a → fence b = fence a → committed c = committed (coordinator s) →
  (if rm_truncated metadata then collection b = collection a else
     collection b = CollCompleted (sealed_total (adopted_scan sc segment metadata)) (rm_checkpoint_candidate metadata)) →
  scan_ok (adopted_scan sc segment metadata) c b.
Proof using Type.
  intros V Ha Hc Hr Hm Hn Hlim Hu Hrows Hbase Hid Hb Hd Hf Hk Hcol.
  destruct (page_cursors _ _ Hm Hr) as (candidate & resume & Ec & Er & Hle).
  pose proof (ok_collection _ _ _ V) as Hcola. pose proof (ok_delivery _ _ _ V) as Hdel.
  destruct V as [Va Vat Vb Vlim Vrc Vcp Vcan Vnd Vnx Vrow Vcur Vco Vde].
  assert (sealed_count (adopted_scan sc segment metadata) = sealed_count sc + 1) as Ecount.
  { unfold sealed_count. cbn. rewrite lengthN_app, lengthN_cons, (lengthN_nil (A := SegmentRef)). lia. }
  split; rewrite ?Ecount; try done.
  - by rewrite Hf.
  - cbn. by rewrite Hk.
  - cbn. rewrite lengthN_app, lengthN_cons, (lengthN_nil (A := SegmentRef)). lia.
  - cbn. lia.
  - cbn. apply canonical_snoc; [done|..|done]; cbn; unfold sealed_count in Hn; lia.
  - cbn. rewrite fmap_app. apply NoDup_app. split; [done|]. split; [|apply NoDup_singleton].
    intros i Hi Hi'%list_elem_of_singleton. by subst i.
  - cbn. split; [lia|]. by rewrite <- Hn.
  - unfold cursors_ok. rewrite Ecount, decide_False by lia. exists resume, candidate. cbn.
    do 3 (split; [done|]). intros k Hkk. rewrite Hkk, Ec in Hbase. exact Hbase.
  - destruct (rm_truncated metadata) eqn:Et.
    + rewrite Hcol. cbn. rewrite Et. cbn. destruct (collection a); try done. by destruct Hcola as [? _]; congruence.
    + rewrite Hcol. cbn. by rewrite Et.
  - intros rows' Hrr. rewrite Hd in Hrr. destruct (Hdel _ Hrr). congruence.
Qed.

Lemma adopt_accepted s input segment metadata sc s' :
  state_validate s = Ok tt → widths_ok s → adopt_orphan s input segment = Ok s' → active_scan s = Some sc →
  (∀ a, active_attempt (coordinator s) = Some a → collection a ≠ CollFailed) →
  view_metadata segment = Ok metadata →
  cursor_strictly_advances (resume_after sc) (rm_scan_resume metadata) = true →
  opt_cursor_le (maximum_candidate sc) (rm_checkpoint_candidate metadata) →
  opt_cursor_le (base_committed sc) (rm_checkpoint_candidate metadata) →
  ready_segment_id segment ∉ segment_id <$> DurableState.segments sc → accepted s s'.
Proof using Type.
  intros Hv Hw Hadopt Hs Hnf Hm Hadv Hcand Hbase Hid.
  apply adopt_orphan_ok in Hadopt as (m & a & sc' & Hcs & _ & Ha & Hs' & Hc & _ & Hn & Hlim & Hu & Hrows & Hlast).
  rewrite Hs in Hs'. injection Hs' as <-. pose proof (cs_metadata _ _ _ _ Hcs) as Hm'. rewrite Hm in Hm'. injection Hm' as <-.
  pose proof (cs_rows _ _ _ _ Hcs) as [_ Hr]. clear Hcs. specialize (Hnf a Ha).
  destruct (state_scan_ok _ _ Hv Hw Hs) as [a' V]. pose proof (ok_active _ _ _ V) as Ha'.
  rewrite Ha in Ha'. injection Ha' as <-. pose proof Hv as (Hval & _ & _)%state_validate_ok.
  pose proof (ok_collection _ _ _ V) as Hcol. pose proof (ok_delivery _ _ _ V) as Hdel.
  assert (collection a = CollInProgress) as Hin.
  { destruct (collection a); [done| |done]. destruct Hcol as [? _]. congruence. }
  assert (∀ rows, delivery a ≠ DelConfirmed rows) as Hnd by (intros rows Hd; destruct (Hdel rows Hd); congruence).
  assert (validate_scan_append sc (adopted_scan sc segment metadata) (complete (adopted_scan sc segment metadata)) = Ok tt) as Happ.
  { apply append_ok; try done. cbn. by rewrite List.last_last. }
  cbn [complete adopted_scan set_complete] in Happ. destruct (rm_truncated metadata) eqn:Et; cbn [negb] in Happ.
  - subst s'. apply (accepted_intro _ _ TransUnchanged); cbn [coordinator set_active_scan active_scan]; try done.
    + unfold classify_checkpoint_transition. by rewrite decide_True.
    + cbn [validate_scan_transition]. unfold validate_scan_unchanged. rewrite Hs. cbn [active_scan set_active_scan].
      rewrite decide_False by (intros Hx; by apply Hx). rewrite decide_False by (intros [Hx|Hx]; by apply Hx).
      rewrite Ha. cbn [ok_or]. rewrite ok_bind. rewrite decide_False by (rewrite Hin; intros Hx; by apply Hx). done.
    + exists a. apply (adopted_scan_ok s) with (a := a); try done. by rewrite Et.
  - destruct Hlast as (c & r & Hcc & ->).
    apply (complete_accepted _ sc (adopted_scan sc segment metadata) a _ r); try done; [by cbn; rewrite Et|].
    intros b Eb Ef Hb Hcb Hk. apply (adopted_scan_ok s) with (a := a); try done. by rewrite Et.
Qed.


(** ** A page collected for its context is adopted *)

Lemma answering_page_adopted s input rising sc a segment metadata :
  state_validate s = Ok tt → widths_ok s → pi_rising input = Some rising →
  active_scan s = Some sc → active_attempt (coordinator s) = Some a → collection a = CollInProgress →
  (* the fence of the segment *)
  input_key (ready_header segment) = pi_input_id input →
  header_fingerprint (ready_header segment) = pi_revision_fingerprint input →
  header_generation (ready_header segment) = configuration_generation s →
  batch_id (ready_header segment) = attempt_id (fence a) →
  batch_sequence (ready_header segment) = generation (coordinator s) →
  segment_sequence (ready_header segment) = next_page sc →
  (* its metadata *)
  view_metadata segment = Ok metadata → rm_rows metadata = event_count (ready_summary segment) → rm_rows metadata ≠ 0 →
  rm_request_fingerprint metadata
    = rising_request_fingerprint (pr_cursor_identity_fingerprint rising) (next_request s rising sc) →
  opt_cursor_le (committed (coordinator s)) (rm_checkpoint_candidate metadata) →
  (* room *)
  lengthN (DurableState.segments sc) < MAX_SEGMENTS_PER_SCAN → in_u64 (next_page sc + 1) →
  in_u64 (sealed_total sc + rm_rows metadata) →
  ∃ s', adopt_orphan s input segment = Ok s' ∧ active_scan s' = Some (adopted_scan sc segment metadata).
Proof using Type.
  intros Hv Hw Hri Hs Ha Hin Hkey Hfp Hgen Hb Hbs Hseq Hm Hrows Hnz Hreq Hcand Hlim Hu Hsum.
  destruct (state_scan_ok _ _ Hv Hw Hs) as [a' V]. pose proof (ok_active _ _ _ V) as Ha'.
  rewrite Ha in Ha'. injection Ha' as <-. pose proof Hv as (Hval & _ & _)%state_validate_ok.
  pose proof (ok_next _ _ _ V) as [Hn Hn64]. pose proof (ok_collection _ _ _ V) as Hc. rewrite Hin in Hc.
  assert (common_segment s input segment metadata) as Hcs.
  { split; try done; [by exists a|rewrite Hseq; lia]. }
  apply validate_common_ok in Hcs.
  assert (sealed_total (adopted_scan sc segment metadata) = sealed_total sc + rm_rows metadata) as Etot.
  { unfold sealed_total. cbn. rewrite rows_sum_app, rows_sum_cons. change (rows_sum []) with 0. cbn. lia. }
  assert (sealed_rows (adopted_scan sc segment metadata) = Ok (sealed_total (adopted_scan sc segment metadata))) as Hsr.
  { unfold sealed_rows. apply ok_or_ok, try_sum_rows_total. fold (sealed_total (adopted_scan sc segment metadata)).
    by rewrite Etot. }
  unfold adopt_orphan. rewrite Hcs, ok_bind. unfold expected_request_fingerprint, require_rising, scan_of.
  rewrite Hri, Hs. cbn [ok_or]. rewrite !ok_bind. unfold mret, result_ret. rewrite ok_bind.
  rewrite decide_False by (rewrite Hreq; intros Hx; by apply Hx).
  unfold active_fence. rewrite Ha. cbn [fmap option_fmap option_map ok_or]. rewrite !ok_bind.
  rewrite decide_False by (rewrite Hc, Hseq, Hrows; intros Hx; repeat destruct Hx as [Hx|Hx]; congruence).
  rewrite (proj2 (scan_segment_count_ok sc (sealed_count sc))) by (split; [done|ulia]). rewrite ok_bind.
  rewrite (proj2 (checked_add_some _ _ _) (conj eq_refl Hn64)). cbn [ok_or]. rewrite ok_bind.
  rewrite decide_False by (rewrite Hn; lia). cbn zeta. rewrite (proj2 (checked_add_some _ _ _) (conj eq_refl Hu)).
  cbn [ok_or]. rewrite ok_bind. rewrite <- Hn.
  change (mkScan _ _ _ _ _ _ _ _ _ _) with (adopted_scan sc segment metadata). rewrite Hsr, ok_bind.
  change (complete (adopted_scan sc segment metadata)) with (negb (rm_truncated metadata)).
  change (maximum_candidate (adopted_scan sc segment metadata)) with (rm_checkpoint_candidate metadata).
  destruct (negb (rm_truncated metadata)); [|by eexists].
  destruct (page_cursors _ _ Hm Hnz) as (candidate & resume & Ec & _).
  assert (with_coordinator (collection_completed (fence a) (sealed_total (adopted_scan sc segment metadata))
      (rm_checkpoint_candidate metadata)) (set_active_scan (Some (adopted_scan sc segment metadata)) s)
    = Ok (set_coordinator (set_active_attempt (Some (set_collection (CollCompleted
        (sealed_total (adopted_scan sc segment metadata)) (rm_checkpoint_candidate metadata)) a)) (coordinator s))
        (set_active_scan (Some (adopted_scan sc segment metadata)) s), Recorded)) as Hwc.
  { apply with_coordinator_ok. eexists. split; [|reflexivity]. cbn [coordinator set_active_scan].
    apply collection_completed_run; [done|done|done|]. right. split; [lia|]. exists candidate. split; [done|].
    intros k Hk. by rewrite Hk, Ec in Hcand. }
  rewrite Hwc, ok_bind. by eexists.
Qed.

(** a page collected for its context is adopted: the segment that a run of the context
    publishes carries the fence and the request fingerprint which the coordinator expects
    of the next page, so that nothing refuses it as long as the durable state still has
    that context, the report does not fall behind the committed cursor and there is room;
    the scan then ends with this page and its cursors. *)
Theorem collected_page_is_adopted s input rising sc a context segment c :
  state_validate s = Ok tt → widths_ok s → pi_rising input = Some rising →
  active_scan s = Some sc → active_attempt (coordinator s) = Some a → collection a = CollInProgress →
  validate_page_context s input rising context = Ok tt →
  header_for input (collection_run context) (ready_header segment) →
  rising_decode (ready_recovery_metadata segment)
    = Ok (metadata_of c (rising_request_fingerprint (pr_cursor_identity_fingerprint rising) (ctx_cursor_request context))) →
  event_count (ready_summary segment) = rows_read c → rows_read c ≠ 0 →
  opt_cursor_le (committed (coordinator s)) (checkpoint_candidate c) →
  lengthN (DurableState.segments sc) < MAX_SEGMENTS_PER_SCAN → in_u64 (next_page sc + 1) →
  in_u64 (sealed_total sc + rows_read c) →
  ∃ s', adopt_orphan s input segment = Ok s'
    ∧ active_scan s' = Some (adopted_scan sc segment
        (metadata_of c (rising_request_fingerprint (pr_cursor_identity_fingerprint rising) (ctx_cursor_request context)))).
Proof using Type.
  intros Hv Hw Hri Hs Ha Hin Hctx (Hk & Hf & Hg & Hb & Hid & Hq) Hm Hcount Hnz Hcand Hlim Hu Hsum.
  revert Hctx. unfold validate_page_context. rewrite Ha, Hs. cbn [ok_or]. rewrite !ok_bind. case_decide as Hx; [done|].
  intros _. assert (ctx_configuration_generation context = configuration_generation s
    ∧ ctx_checkpoint_generation context = generation (coordinator s) ∧ ctx_attempt_id context = attempt_id (fence a)
    ∧ ctx_page context = next_page sc ∧ ctx_cursor_request context = next_request s rising sc)
    as (E1 & E2 & E3 & E4 & E5) by (split_and!; apply dec_stable; tauto).
  eapply (answering_page_adopted s input rising); try done; try congruence.
  - unfold view_metadata. by rewrite Hm.
  - cbn. by rewrite E5.
Qed.
End Transitions.
