(* ===== verification/RisingProps.v ===== *)
(** * A committed scan was delivered

    The life of a scan in [reconcile]: what the durable state says after every step, and
    that the cursor advances only when every page of the scan is acknowledged. *)

From S2P Require Export StateStoreRuns Backlog RisingTransitions.

Local Open Scope N_scope.
Local Open Scope dbx_scope.

(** serde deserializes the counters of a state as [u64]. *)
Class SerdeJsonWidths `{Sha256, SerdeJson} : Prop :=
  json_widths payload v : from_slice payload = Some v → widths_ok v.

Section RisingProps.
Context `{Sha256, Crypto, !CryptoLaws, HecJson, SerdeJson, !SerdeJsonLaws, !SerdeJsonWidths}.

(** ** The store behind the coordinator *)

(** The envelope of [st] is the current one in the tree and in every version a crash may
    reveal. *)
Definition stored_durably (self : RisingCoordinator) (key : StateKey) (st : StoredState) (w : world) : Prop :=
  ∃ bytes, decode_envelope bytes = Ok st
    ∧ ∀ t, t ∈ versions (disk w) → t !! current_path (coordinator_store self) key = private_file bytes.

(** A state that the store has decoded. *)
Definition sound (state : DurableInputState) : Prop := state_validate state = Ok tt ∧ widths_ok state.

Lemma decoded_sound bytes st : decode_envelope bytes = Ok st → sound (value st).
Proof using Type*.
  intros (payload & _ & _ & _ & Hj & Hv)%decode_envelope_ok. split; [done|]. by apply (json_widths payload).
Qed.
Lemma stored_sound self key st w : stored_durably self key st w → sound (value st).
Proof using Type*. intros (bytes & Hd & _). by eapply decoded_sound. Qed.

Lemma from_store_run {A} (m : store A) s s' r :
  from_store m s = (s', r) → ∃ d x, m (disk (spool_world s)) = (d, x)
    ∧ s' = set_spool_world (set_disk d (spool_world s)) s ∧ r = map_err (λ _, state_store_error) x.
Proof using Type.
  unfold from_store. intros (x & Hrun & ->)%st_map_err_run. unfold on_spool in Hrun.
  destruct (on_disk m (spool_world s)) as [w y] eqn:E. apply on_disk_run in E as (d & Hd & ->).
  injection Hrun as <- <-. by exists d, y.
Qed.

(** The spool's accounting, the log and well-formedness are kept. *)
Record store_step (s s' : daemon) : Prop := mkStoreStep {
  ss_wf : wf_tree (tree (disk (spool_world s')));
  ss_acknowledged : Daemon.acknowledged s' = Daemon.acknowledged s;
  ss_accounting : accounting (spool_world s') = accounting (spool_world s);
}.

Lemma exchange_step self key stored next s s' r :
  wf_tree (tree (disk (spool_world s))) → exchange self key stored next s = (s', r) → store_step s s'.
Proof using Type.
  intros Hwf (d & x & Hrun & -> & _)%from_store_run. split; [|done|done].
  pose proof (compare_exchange_wf (coordinator_store self) key (token stored) next _ Hwf) as Hw.
  rewrite Hrun in Hw. exact Hw.
Qed.

Lemma exchange_ok self key stored next s s' st :
  wf_tree (tree (disk (spool_world s))) → exchange self key stored next s = (s', Ok st) →
  store_step s s' ∧ value st = next ∧ stored_durably self key st (spool_world s').
Proof using Type*.
  intros Hwf Hrun. split; [by eapply exchange_step|].
  apply from_store_run in Hrun as (d & x & Hrun & -> & Hx). symmetry in Hx. apply map_err_ok in Hx as ->.
  apply compare_exchange_run in Hrun as [(e & [=] & _)|(cur & st' & Hp & _)]; [|done].
  apply published_acknowledged in Hp as Hack. split; [exact (ack_value _ _ _ _ _ _ _ _ Hack)|].
  destruct Hp as [_ _ _ (old & new & _ & Hdec & _ & _ & _ & Hok)]. destruct (Hok _ eq_refl) as (-> & _ & _ & Hall).
  exists new. split; [done|]. intros t Ht. by apply Hall.
Qed.

(** The durable state of the input in the tree. *)
Definition durable (self : RisingCoordinator) (key : StateKey) (s : daemon) (st : StoredState) : Prop :=
  ∃ bytes, current_is (coordinator_store self) key (tree (disk (spool_world s))) bytes st.

Lemma durable_unique self key s st st' : durable self key s st → durable self key s st' → st = st'.
Proof using Type. intros [b1 H1'] [b2 H2']. by destruct (current_is_unique _ _ _ _ _ _ _ H1' H2'). Qed.
Lemma durable_same self key s s' st :
  tree (disk (spool_world s')) = tree (disk (spool_world s)) → durable self key s st → durable self key s' st.
Proof using Type. unfold durable. by intros ->. Qed.
Lemma stored_current self key st s : stored_durably self key st (spool_world s) → durable self key s st.
Proof using Type.
  intros (bytes & Hd & Hall). exists bytes. split; [|done]. eexists _, _. apply Hall. by left.
Qed.

(** Reading answers the durable state. *)
Lemma load_state_ok self key s s' res :
  wf_tree (tree (disk (spool_world s))) → load_state self key s = (s', Ok res) →
  tree (disk (spool_world s')) = tree (disk (spool_world s))
  ∧ ∀ st, res = Current st → durable self key s st ∧ sound (value st).
Proof using Type*.
  intros Hwf (d & x & Hrun & -> & Hx)%from_store_run. symmetry in Hx. apply map_err_ok in Hx as ->.
  destruct (load_exact _ _ _ _ _ Hwf Hrun) as [(l & ->) Hst]. split; [done|].
  intros st ->. destruct Hst as (bytes & (_ & (m & y & Ef & _) & Hdec) & _). split; [|by eapply decoded_sound].
  exists bytes. split; [by exists m, y|done].
Qed.

(** ** The inventory *)

(** What a reference of the scan says of its segment. *)
Record names (reference : SegmentRef) (segment : ReadySegment) : Prop := mkNames {
  nm_sequence : segment_sequence (ready_header segment) = sequence reference;
  nm_id : ready_segment_id segment = segment_id reference;
  nm_rows : event_count (ready_summary segment) = rows reference;
  nm_digest : ReadySegment_reference_digest segment = digest reference;
}.

Lemma validate_reference_ok state input sc reference segment :
  validate_reference state input sc reference segment = Ok tt → names reference segment.
Proof using Type.
  unfold validate_reference. intros (m & _ & Hrun)%result_bind_ok. case_decide as Hk; [done|]. clear Hrun.
  apply Decidable.not_or in Hk as [Ks%dec_stable Hk]. apply Decidable.not_or in Hk as [Kp%dec_stable Hk].
  apply Decidable.not_or in Hk as [Ki%dec_stable Hk]. apply Decidable.not_or in Hk as [Kr%dec_stable Kd%dec_stable].
  split; congruence.
Qed.

Definition listed (inventory : InputInventory) (located : LocatedSegment) : Prop :=
  match located with
  | LocatedReady ready => ready ∈ inv_ready inventory
  | LocatedDelivered delivered => delivered ∈ inv_delivered inventory
  end.

Lemma index_segments_ok state input segments index index' :
  index_segments state input segments index = Ok index' →
  ∀ id located, index' !! id = Some located → index !! id = Some located ∨ located ∈ segments.
Proof using Type.
  revert index. induction segments as [|segment segments IH]; intros index; cbn [index_segments].
  { intros [= <-]. by left. }
  intros (m & _ & Hrun)%result_bind_ok. case_decide; [done|]. intros id located Hl.
  destruct (IH _ Hrun id located Hl) as [Hi|Hi]; [|right; by right].
  apply lookup_insert_Some in Hi as [[_ <-]|[_ Hi]]; [right; by left|by left].
Qed.

Lemma index_inventory_ok state input inventory index :
  index_inventory state input inventory = Ok index → ∀ id located, index !! id = Some located → listed inventory located.
Proof using Type.
  intros Hx id located Hl. destruct (index_segments_ok _ _ _ _ _ Hx id located Hl) as [Hi|Hi].
  - by rewrite lookup_empty in Hi.
  - apply elem_of_app in Hi as [(r & -> & Hr)%list_elem_of_fmap|(d & -> & Hd)%list_elem_of_fmap]; done.
Qed.

(** What is pending answers a reference of the scan that has no receipt. *)
Definition answers (sc : ActiveScan) (P : LocatedSegment → Prop) (pending : gmap N LocatedSegment) : Prop :=
  ∀ seq located, delivered_through_sequence sc < seq → pending !! seq = Some located →
    P located ∧ ∃ reference, reference ∈ DurableState.segments sc ∧ sequence reference = seq
      ∧ names reference (view located).

Lemma match_references_ok state input sc references index pend receipted P index' pend' receipted' :
  references ⊆ DurableState.segments sc → (∀ id located, index !! id = Some located → P located) → answers sc P pend →
  match_references state input sc references index pend receipted = Ok (index', pend', receipted') →
  answers sc P pend' ∧ ∀ id located, index' !! id = Some located → P located.
Proof using Type.
  revert index pend receipted. induction references as [|reference references IH];
    intros index pend receipted Hsub HP Hans; cbn [match_references]; [by intros [= <- <- <-]|].
  assert (∀ id located, delete (segment_id reference) index !! id = Some located → P located) as HP'.
  { intros id located [_ Hl]%lookup_delete_Some. by eapply HP. }
  assert (references ⊆ DurableState.segments sc) as Hsub' by (intros x Hx; apply Hsub; by right).
  case_decide as Hr.
  - destruct (index !! segment_id reference) as [[ready|delivered]|]; [done| |by apply IH].
    intros ([] & _ & Hrun)%result_bind_ok. by eapply IH.
  - destruct (index !! segment_id reference) as [located|] eqn:Hi; [|done].
    intros ([] & Hv%validate_reference_ok & Hrun)%result_bind_ok. case_decide; [done|].
    eapply IH; [..|exact Hrun]; [done|done|]. intros seq l' Hseq [[<- <-]|[_ Hl]]%lookup_insert_Some; [|by apply Hans].
    split; [by eapply HP|]. exists reference. split; [apply Hsub; by left|done].
Qed.

Lemma validate_inventory_ok state input inventory sc plan :
  active_scan state = Some sc → validate_inventory state input inventory = Ok plan →
  answers sc (listed inventory) (pending plan)
  ∧ ∀ ready, orphan plan = Some ready → ready ∈ inv_ready inventory.
Proof using Type.
  intros Hs (index & Hx & Hrun)%result_bind_ok. rewrite Hs in Hrun.
  apply result_bind_ok in Hrun as ([[index' pend] receipted] & Hm & Hrun).
  apply result_bind_ok in Hrun as (orph & Ho & [= <-]). cbn.
  eapply match_references_ok in Hm as [Hans Hall]; [|done|by eapply index_inventory_ok|by intros ???].
  split; [done|]. intros ready ->. unfold adoptable_orphan in Ho.
  destruct (map_to_list index') as [|[id [r|d]] [|? ?]] eqn:El; [done| |done..].
  case_decide; [|done]. injection Ho as ->. apply (Hall id (LocatedReady ready)). apply elem_of_map_to_list.
  rewrite El. by left.
Qed.

(** ** References without a receipt *)
Definition outstanding (sc : ActiveScan) : list SegmentRef :=
  filter (λ reference, delivered_through_sequence sc < sequence reference) (DurableState.segments sc).

Lemma canonical_filter n d l :
  canonical_from n l → n ≤ d + 1 → filter (λ reference, d < sequence reference) l = drop (N.to_nat (d + 1 - n)) l.
Proof using Type.
  revert n. induction l as [|x l IH]; intros n; [by rewrite drop_nil|]. intros (Hs & _ & _ & Hl) Hn.
  destruct (decide (d < sequence x)) as [Hd|Hd].
  - rewrite filter_cons_True by done. replace (N.to_nat (d + 1 - n)) with 0%nat by lia. cbn. f_equal.
    clear IH. assert (d < n + 1) as Hdn by lia. clear Hs Hd Hn x. revert n Hl Hdn.
    induction l as [|y l IH]; intros n; [done|]. intros (Hs & _ & _ & Hl) Hdn.
    rewrite filter_cons_True by lia. f_equal. apply (IH (n + 1)); [done|lia].
  - rewrite filter_cons_False by done. rewrite (IH (n + 1)) by (done || lia).
    replace (N.to_nat (d + 1 - n)) with (S (N.to_nat (d + 1 - (n + 1)))) by lia. done.
Qed.

Section Scan.
Context (c : Snapshot) (a : ActiveAttempt) (sc : ActiveScan) (V : scan_ok sc c a).

Lemma outstanding_drop :
  outstanding sc = drop (N.to_nat (delivered_through_sequence sc - compacted_through_sequence sc)) (DurableState.segments sc).
Proof using V.
  pose proof (ok_receipt _ _ _ V). unfold outstanding. rewrite (canonical_filter _ _ _ (ok_canonical _ _ _ V)) by lia.
  f_equal. lia.
Qed.

Lemma outstanding_pruned k rows : compacted_through_sequence sc + N.of_nat k ≤ delivered_through_sequence sc →
  outstanding (set_compacted (compacted_through_sequence sc + N.of_nat k) rows (drop k (DurableState.segments sc)) sc)
  = outstanding sc.
Proof using V.
  intros Hk. rewrite outstanding_drop. pose proof (ok_canonical _ _ _ V) as Hc.
  unfold outstanding. cbn. destruct (decide (k ≤ length (DurableState.segments sc))%nat) as [Hl|Hl].
  - rewrite <- (take_drop k (DurableState.segments sc)) in Hc. apply canonical_app in Hc as [_ Hc].
    assert (lengthN (take k (DurableState.segments sc)) = N.of_nat k) as Hlen by (unfold lengthN; rewrite length_take; lia).
    rewrite Hlen in Hc. rewrite (canonical_filter _ _ _ Hc) by lia. rewrite drop_drop. f_equal. lia.
  - rewrite !drop_ge by (rewrite ?length_drop; lia). done.
Qed.

(** The next receipt takes the first of them. *)
Lemma outstanding_receipt : delivered_through_sequence sc + 1 ≤ sealed_count sc →
  ∃ reference, sequence reference = delivered_through_sequence sc + 1
    ∧ outstanding sc = reference :: outstanding (set_delivered (delivered_through_sequence sc + 1) sc)
    ∧ ∀ reference', reference' ∈ DurableState.segments sc → sequence reference' = sequence reference → reference' = reference.
Proof using V.
  intros Hle. pose proof (ok_receipt _ _ _ V) as Hr. pose proof (ok_canonical _ _ _ V) as Hc. unfold sealed_count, lengthN in Hle.
  set (i := N.to_nat (delivered_through_sequence sc - compacted_through_sequence sc)).
  destruct (lookup_lt_is_Some_2 (DurableState.segments sc) i) as [reference Hi]; [lia|].
  pose proof (canonical_lookup _ _ _ _ Hc Hi) as Hs. exists reference. split; [lia|]. split.
  - rewrite outstanding_drop. fold i. rewrite (drop_S _ _ _ Hi). f_equal.
    unfold outstanding. cbn. rewrite (canonical_filter _ _ _ Hc) by lia. f_equal. lia.
  - intros reference' [j Hj]%list_elem_of_lookup E. pose proof (canonical_lookup _ _ _ _ Hc Hj). 
    replace j with i in Hj by lia. congruence.
Qed.

Lemma outstanding_none : sealed_count sc ≤ delivered_through_sequence sc →
  outstanding sc = [] ∧ delivered_through_sequence sc = sealed_count sc.
Proof using V.
  pose proof (ok_receipt _ _ _ V) as Hr. intros Hle. split; [|lia]. rewrite outstanding_drop. apply drop_ge.
  unfold sealed_count, lengthN in *. lia.
Qed.
End Scan.

(** ** The rounds *)

(** The scan moves on by receipts and compaction only. *)
Record same_scan (sc sc' : ActiveScan) : Prop := mkSameScan {
  sm_complete : complete sc' = complete sc;
  sm_count : sealed_count sc' = sealed_count sc;
  sm_total : sealed_total sc' = sealed_total sc;
  sm_candidate : maximum_candidate sc' = maximum_candidate sc;
}.
#[local] Instance same_scan_preorder : PreOrder same_scan.
Proof using Type. split; [by intros sc; split|]. intros sc sc1 sc2 [] []. split; congruence. Qed.

(** A state of the same coordinator whose scan is [sc']. *)
Definition moved (state state' : DurableInputState) (sc sc' : ActiveScan) : Prop :=
  coordinator state' = coordinator state ∧ active_scan state' = Some sc' ∧ same_scan sc sc'.

Lemma moved_trans state state1 state2 sc sc1 sc2 :
  moved state state1 sc sc1 → moved state1 state2 sc1 sc2 → moved state state2 sc sc2.
Proof using Type. intros (E1 & _ & S1) (E2 & E & S2). split; [congruence|]. split; [done|]. by trans sc1. Qed.

(** The page of a reference is done: sent and acknowledged in the bodies, or found
    delivered already. *)
Definition page_done (spool : Spool) (hec : HecClient) (limits : DeliveryLimits) (P : LocatedSegment → Prop)
    (reference : SegmentRef) (bodies : list (list byte)) : Prop :=
  ∃ located, P located ∧ names reference (view located)
    ∧ match located with
      | LocatedReady ready => ∃ events, sent_events spool ready events ∧ taken hec limits events bodies
      | LocatedDelivered _ => bodies = []
      end.

Lemma prune_ok self key stored s s' stored' sc :
  wf_tree (tree (disk (spool_world s))) → sound (value stored) → active_scan (value stored) = Some sc →
  prune_compacted_prefix self key stored s = (s', Ok stored') →
  store_step s s' ∧ sound (value stored') ∧ ∃ sc', moved (value stored) (value stored') sc sc'
    ∧ outstanding sc' = outstanding sc ∧ delivered_through_sequence sc' = delivered_through_sequence sc
    ∧ DurableState.segments sc' ⊆ DurableState.segments sc ∧ (∀ reference, delivered_through_sequence sc < sequence reference →
        reference ∈ DurableState.segments sc → reference ∈ DurableState.segments sc').
Proof using Type*.
  intros Hwf [Hv Hw] Hs. unfold prune_compacted_prefix.
  intros (next & s1 & [-> Hp]%st_lift_ok & Hrun)%st_bind_ok. destruct next as [next|].
  2: { injection Hrun as <- <-. split; [by split|]. split; [done|]. exists sc. by split_and!. }
  destruct (state_scan_ok _ _ Hv Hw Hs) as [a V].
  destruct (pruned_ok _ _ _ Hv Hw Hs Hp) as (k & -> & [_ Hk] & Hkd & _). cbn zeta in Hrun.
  destruct (pruned_counts sc k Hk) as [Ec Et].
  apply exchange_ok in Hrun as (Hstep & Ev & Hd); [|done]. split; [done|]. split; [by eapply stored_sound|]. rewrite Ev.
  eexists. split; [split; [done|]; split; [reflexivity|by split]|]. split; [by eapply outstanding_pruned|]. split; [done|].
  split; [cbn; intros x Hx; rewrite <- (take_drop k (DurableState.segments sc)); apply elem_of_app; by right|].
  intros reference Hr Hin. cbn. rewrite <- (take_drop k (DurableState.segments sc)) in Hin.
  apply elem_of_app in Hin as [Hin|?]; [exfalso|done]. apply list_elem_of_lookup in Hin as [i Hi].
  apply lookup_take_Some in Hi as [Hi Hik]. pose proof (canonical_lookup _ _ _ _ (ok_canonical _ _ _ V) Hi). lia.
Qed.

Lemma store_step_trans s s1 s2 : store_step s s1 → store_step s1 s2 → store_step s s2.
Proof using Type. intros [] []. split; congruence || done. Qed.
Lemma answers_receipt sc P pending n :
  answers sc P pending → answers (set_delivered (delivered_through_sequence sc + 1) sc) P (delete n pending).
Proof using Type. intros Ha seq located Hs [_ Hl]%lookup_delete_Some. cbn in Hs. apply (Ha seq located); [lia|done]. Qed.

(** The page of a round: delivered by the sink, or found delivered. *)
Lemma page_ok spool hec limits state input n located s s' d :
  wf_tree (tree (disk (spool_world s))) →
  (match located with
   | LocatedReady ready =>
       delivered ← deliver_ready_segment_sync spool ready hec limits;
       _ ← st_lift (validate_delivered_for_reference state input n delivered);
       mret delivered
   | LocatedDelivered delivered => mret delivered
   end : task _) s = (s', Ok d) →
  wf_tree (tree (disk (spool_world s')))
  ∧ ∃ bodies, Daemon.acknowledged s' = Daemon.acknowledged s ++ bodies
    ∧ match located with
      | LocatedReady ready => ∃ events, sent_events spool ready events ∧ taken hec limits events bodies
      | LocatedDelivered _ => bodies = []
      end.
Proof using All.
  intros Hwf. destruct located as [ready|delivered].
  - intros (d1 & s1 & Hd & Hrun)%st_bind_ok. apply st_bind_ok in Hrun as ([] & s2 & [-> _]%st_lift_ok & [= <- <-]).
    apply deliver_confined in Hd as [[Hwf1 _] Hd]; [|done]. split; [done|].
    destruct (Hd _ eq_refl) as (_ & events & bodies & Hev & Ht & Ha). exists bodies. split; [done|].
    exists events. split; [by exists (spool_world s)|done].
  - intros [= <- <-]. split; [done|]. exists []. by rewrite app_nil_r.
Qed.

(** A round: a receipt for the next page, which is done, then compaction. *)
Lemma round_ok self spool hec limits key stored input P sc pending located s s' stored' :
  let n := delivered_through_sequence sc + 1 in
  wf_tree (tree (disk (spool_world s))) → sound (value stored) → active_scan (value stored) = Some sc →
  answers sc P pending → n ≤ sealed_count sc → pending !! n = Some located →
  reconcile_page self (λ ready, deliver_ready_segment_sync spool ready hec limits) key stored input spool n located s
  = (s', Ok stored') →
  wf_tree (tree (disk (spool_world s'))) ∧ sound (value stored') ∧ ∃ reference bodies sc',
    Daemon.acknowledged s' = Daemon.acknowledged s ++ bodies ∧ moved (value stored) (value stored') sc sc'
    ∧ page_done spool hec limits P reference bodies ∧ outstanding sc = reference :: outstanding sc'
    ∧ answers sc' P (delete n pending).
Proof using All.
  cbn zeta. intros Hwf Hsound Hs Hans Hle Hn. pose proof Hsound as [Hv Hw].
  destruct (state_scan_ok _ _ Hv Hw Hs) as [a V].
  destruct (outstanding_receipt _ _ _ V Hle) as (reference & Hseq & Hout & Huniq).
  unfold reconcile_page. intros (d & s1 & Hpage & Hrun)%st_bind_ok. apply page_ok in Hpage as (Hwf1 & bodies & Ha1 & Hdone); [|done].
  apply st_bind_ok in Hrun as (next & s1' & [-> Hnext]%st_lift_ok & Hrun). revert Hnext. unfold with_receipt, scan_of.
  rewrite Hs. cbn [ok_or]. rewrite ok_bind. intros [= <-].
  apply st_bind_ok in Hrun as (stored1 & s2 & Hex & Hrun). apply exchange_ok in Hex as ([Hwf2 Ha2 _] & Ev & Hd); [|done].
  apply stored_sound in Hd as Hsound1. apply st_bind_ok in Hrun as ([] & s3 & Hc & Hrun).
  apply compact_task_run in Hc as [[Hwf3 _] Ha3]; [|done].
  eapply prune_ok in Hrun as ([Hwf4 Ha4 _] & Hsound' & sc' & Hmoved & Eout & Ed & Hsub & Hkeep); [|done..|by rewrite Ev].
  rewrite Ev in Hmoved. split; [done|]. split; [done|]. exists reference, bodies, sc'.
  destruct (Hans (delivered_through_sequence sc + 1) located ltac:(lia) Hn) as (HP & reference' & Hin & Hseq' & Hnames).
  rewrite (Huniq reference') in Hnames by (done || congruence).
  split; [congruence|]. split; [eapply moved_trans; [|exact Hmoved]; by split|]. split; [by exists located|].
  split; [by rewrite Eout|]. intros seq l Hlt Hl.
  rewrite Ed in Hlt. cbn in Hlt. apply lookup_delete_Some in Hl as [_ Hl].
  destruct (Hans seq l ltac:(lia) Hl) as (HPl & r & Hr & Er & Hnr). split; [done|]. exists r. split; [|done].
  apply Hkeep; [cbn; lia|done].
Qed.

(** The loop ends with every page of the scan done and receipted. *)
Lemma rounds_ok rounds self spool hec limits key stored input P sc pending s s' stored' :
  wf_tree (tree (disk (spool_world s))) → sound (value stored) → active_scan (value stored) = Some sc →
  answers sc P pending →
  reconcile_loop self rounds (λ ready, deliver_ready_segment_sync spool ready hec limits) key stored input spool pending s
  = (s', Ok stored') →
  wf_tree (tree (disk (spool_world s'))) ∧ sound (value stored') ∧ ∃ bodies sc',
    Forall2 (page_done spool hec limits P) (outstanding sc) bodies
    ∧ Daemon.acknowledged s' = Daemon.acknowledged s ++ concat bodies
    ∧ moved (value stored) (value stored') sc sc' ∧ delivered_through_sequence sc' = sealed_count sc'.
Proof using All.
  revert stored sc pending s. induction rounds as [|rounds IH]; intros stored sc pending s Hwf Hsound Hs Hans;
    cbn [reconcile_loop]; [done|].
  intros (sc1 & s1 & [-> Hs1%scan_of_ok]%st_lift_ok & Hrun)%st_bind_ok. rewrite Hs in Hs1. injection Hs1 as <-.
  apply st_bind_ok in Hrun as (n & s1 & [-> [-> _]%ok_or_ok%checked_add_some]%st_lift_ok & Hrun).
  apply st_bind_ok in Hrun as (count & s1 & [-> [-> _]%scan_segment_count_ok]%st_lift_ok & Hrun).
  destruct Hsound as [Hv Hw]. destruct (state_scan_ok _ _ Hv Hw Hs) as [a V].
  destruct (decide (sealed_count sc < delivered_through_sequence sc + 1)) as [Hlt|Hle].
  { injection Hrun as <- <-. destruct (outstanding_none _ _ _ V) as [-> Ed]; [lia|]. split; [done|]. split; [done|].
    exists [], sc. rewrite app_nil_r. by split_and!. }
  apply st_bind_ok in Hrun as (located & s1 & [-> Hl%ok_or_ok]%st_lift_ok & Hrun).
  apply st_bind_ok in Hrun as (stored1 & s1 & Hround & Hrun).
  eapply round_ok in Hround as (Hwf1 & Hsound1 & reference & bodies & sc1 & Ha1 & Hm1 & Hdone & -> & Hans1); try done; [|lia].
  pose proof Hm1 as (_ & Hs1 & _).
  destruct (IH _ _ _ _ Hwf1 Hsound1 Hs1 Hans1 Hrun) as (Hwf2 & Hsound2 & rest & sc2 & Hdones & Ha2 & Hm2 & Ed).
  split; [done|]. split; [done|]. exists (bodies :: rest), sc2. split; [by constructor|].
  split; [by rewrite Ha2, Ha1, <- app_assoc|]. split; [by eapply moved_trans|done].
Qed.

(** More rounds than pending pages change nothing: the fuel of the loop never runs out. *)
Lemma st_bind_ext {S E A B} (m : st S E A) (f g : A → st S E B) s :
  (∀ a s', f a s' = g a s') → (m ≫= f) s = (m ≫= g) s.
Proof using Type. intros Hfg. unfold mbind, st_bind. destruct (m s) as [s' [a|e]]; [apply Hfg|done]. Qed.

Lemma reconcile_loop_rounds self rounds deliver key stored input spool pending s :
  (size pending < rounds)%nat →
  reconcile_loop self rounds deliver key stored input spool pending s
  = reconcile_loop self (S (size pending)) deliver key stored input spool pending s.
Proof using Type.
  remember (size pending) as k eqn:Ek. assert (size pending ≤ k)%nat as Hk by lia. clear Ek. intros Hr.
  destruct rounds as [|rounds]; [lia|]. assert (k ≤ rounds)%nat as Hkr by lia. clear Hr.
  revert rounds stored pending s Hk Hkr. induction k as [|k IH]; intros rounds stored pending s Hk Hkr; cbn [reconcile_loop];
    apply st_bind_ext; intros sc s1; apply st_bind_ext; intros n s2; apply st_bind_ext; intros count s3;
    case_decide; try done; destruct (pending !! n) as [located|] eqn:El; try done.
  - rewrite (map_size_empty_inv pending) in El by lia. done.
  - apply st_bind_ext; intros located' s4; apply st_bind_ext; intros stored1 s5.
    assert (size (delete n pending) = Nat.pred (size pending)) as Hd by (apply map_size_delete_Some; by rewrite El).
    destruct rounds as [|rounds]; [lia|]. apply IH; lia.
Qed.

(** ** Before the rounds *)

(** Calls that leave the log and the quota alone. *)
Definition steady {A} (m : task A) : Prop := ∀ s, wf_tree (tree (disk (spool_world s))) → store_step s (m s).1.

Lemma steady_ret {A} (a : A) : steady (mret a).
Proof using Type. by split. Qed.
Lemma steady_throw {A} (e : DaemonError) : steady (mthrow e : task A).
Proof using Type. by split. Qed.
Lemma steady_lift {A} (r : result DaemonError A) : steady (st_lift r).
Proof using Type. by split. Qed.
Lemma steady_bind {A B} (m : task A) (f : A → task B) : steady m → (∀ a, steady (f a)) → steady (m ≫= f).
Proof using Type.
  intros Hm Hf s Hwf. specialize (Hm s Hwf). unfold mbind, st_bind. destruct (m s) as [s1 [a|e]]; cbn in Hm; [|done].
  eapply store_step_trans; [exact Hm|]. apply Hf, Hm.
Qed.
Lemma steady_store {A} (m : store A) : (∀ d, wf_tree (tree d) → wf_tree (tree (m d).1)) → steady (from_store m).
Proof using Type.
  intros Hm s Hwf. destruct (from_store m s) as [s' r] eqn:E. apply from_store_run in E as (d & x & E & -> & _).
  split; [|done|done]. specialize (Hm _ Hwf). by rewrite E in Hm.
Qed.
Lemma steady_spool {A} (m : spool A) : looking m → steady (from_spool m).
Proof using Type.
  intros Hm s Hwf. destruct (from_spool m s) as [s' r] eqn:E. apply from_spool_run in E as (w & x & E & -> & _).
  pose proof (looking_run _ _ _ _ Hm E) as G. split; cbn; [by rewrite (glanced_tree _ _ G)|done|by apply glanced_accounting].
Qed.
Lemma steady_run {A} (m : task A) s s' r :
  steady m → wf_tree (tree (disk (spool_world s))) → m s = (s', r) → store_step s s'.
Proof using Type. intros Hm Hwf Hrun. specialize (Hm s Hwf). by rewrite Hrun in Hm. Qed.

Lemma activate_wf store key expected fp d :
  wf_tree (tree d) → wf_tree (tree (activate_configuration store key expected fp d).1).
Proof using Type.
  intros Hwf. destruct (activate_configuration store key expected fp d) as [d' r] eqn:E.
  apply activate_run in E as [(e & _ & _ & Hb)|(cur & v & next & [_ _ Hb _] & _)]; [apply Hb..|done].
Qed.

Lemma steady_load self key : steady (load_state self key).
Proof using Type.
  apply steady_store. intros d Hwf. destruct (ro_load (coordinator_store self) key d) as [l ->]. done.
Qed.
Lemma steady_inventory input spool : steady (InputInventory_load input spool).
Proof using Type.
  destruct (looking_lists spool). unfold InputInventory_load. apply steady_bind; [by apply steady_spool|intros ready].
  apply steady_bind; [by apply steady_spool|intros delivered]. apply steady_ret.
Qed.
Lemma looking_usage spool : looking (Spool_usage spool).
Proof using Type. intros []. apply glanced_refl. Qed.
Lemma steady_nonempty input spool : steady (input_spool_is_nonempty input spool).
Proof using Type.
  unfold input_spool_is_nonempty. apply steady_bind; [apply steady_spool, looking_usage|intros usage].
  case_decide; [apply steady_ret|]. apply steady_bind; [apply steady_inventory|intros ?]. apply steady_ret.
Qed.

Lemma steady_ensure self input spool : steady (ensure_input self input spool).
Proof using Type.
  unfold ensure_input. apply steady_bind; [apply steady_lift|intros rising]. cbn zeta.
  apply steady_bind; [apply steady_load|intros loaded]. apply steady_bind; [|intros ?; apply steady_ret].
  destruct loaded as [|st].
  - apply steady_bind; [apply steady_nonempty|intros nonempty]. case_decide; [apply steady_throw|].
    apply steady_store. intros d. apply create_wf.
  - apply steady_bind; [apply steady_lift|intros []]. case_decide; [apply steady_ret|].
    apply steady_bind; [case_decide; [apply steady_ret|apply steady_nonempty]|intros blocked].
    case_decide; [apply steady_throw|]. apply steady_store. intros d. apply activate_wf.
Qed.

Lemma load_current_ok self input rising s s' st :
  wf_tree (tree (disk (spool_world s))) → load_current self input rising s = (s', Ok st) →
  store_step s s' ∧ tree (disk (spool_world s')) = tree (disk (spool_world s))
  ∧ durable self (state_key rising) s st ∧ sound (value st).
Proof using Type*.
  intros Hwf. unfold load_current. intros (res & s1 & Hload & Hrun)%st_bind_ok.
  pose proof (steady_run _ _ _ _ (steady_load _ _) Hwf Hload) as Hstep.
  apply load_state_ok in Hload as [Ht Hst]; [|done]. destruct res as [|st1]; [done|].
  apply st_bind_ok in Hrun as ([] & s2 & [-> _]%st_lift_ok & Hrun). case_decide; [done|]. injection Hrun as <- <-.
  by destruct (Hst st1 eq_refl).
Qed.

(** [ensure_input] of a known input changes nothing, or activates a configuration while
    no scan is active. *)
Lemma ensure_input_ok self input rising spool s s' st status :
  wf_tree (tree (disk (spool_world s))) → pi_rising input = Some rising → durable self (state_key rising) s st →
  ensure_input self input spool s = (s', Ok status) →
  tree (disk (spool_world s')) = tree (disk (spool_world s))
  ∨ ∃ st', durable self (state_key rising) s' st' ∧ active_scan (value st') = None.
Proof using Type*.
  intros Hwf Hr Hd. unfold ensure_input, require_rising. rewrite Hr. cbn [ok_or].
  intros (rising' & s1 & [-> [= <-]]%st_lift_ok & Hrun)%st_bind_ok. cbn zeta in Hrun.
  apply st_bind_ok in Hrun as (res & s1 & Hload & Hrun).
  pose proof (steady_run _ _ _ _ (steady_load _ _) Hwf Hload) as [Hwf1 _ _].
  assert (∃ st1, res = Current st1) as [st1 ->].
  { destruct res as [|st1]; [exfalso|by exists st1]. apply from_store_run in Hload as (d & x & Hload & _ & Hx).
    symmetry in Hx. apply map_err_ok in Hx as ->. apply load_exact in Hload as [_ Hn]; [|done].
    destruct Hd as (bytes & (m & y & E) & _). congruence. }
  apply load_state_ok in Hload as [Ht1 _]; [|done].
  apply st_bind_ok in Hrun as (st2 & s2 & Hrun & [= <- <-]).
  apply st_bind_ok in Hrun as ([] & s3 & [-> _]%st_lift_ok & Hrun). case_decide; [injection Hrun as <- <-; by left|].
  apply st_bind_ok in Hrun as (blocked & s3 & Hb & Hrun). case_decide; [done|]. right.
  assert (wf_tree (tree (disk (spool_world s3)))) as Hwf3.
  { revert Hb. case_decide; [by intros [= <- _]|]. intros Hb. by eapply steady_run; [apply steady_nonempty| |]. }
  apply from_store_run in Hrun as (d & x & Hrun & -> & Hx). symmetry in Hx. apply map_err_ok in Hx as ->.
  apply activate_run in Hrun as [(e & [=] & _)|(cur & v & next & Hp & _ & Hscan & _ & Hact)]; [|done].
  apply published_acknowledged in Hp as [_ Ev _ (old & new & _ & Hdec & Hf & _)].
  apply activated_ok in Hact as (_ & _ & _ & _ & _ & _ & _ & _ & _ & _ & Es).
  exists st2. split; [|by rewrite Ev, Es]. exists new. split; [|done]. by eexists _, _.
Qed.

Lemma compact_receipted_run spool receipted s s' r :
  wf_tree (tree (disk (spool_world s))) → compact_receipted spool receipted s = (s', r) →
  wf_tree (tree (disk (spool_world s'))) ∧ Daemon.acknowledged s' = Daemon.acknowledged s.
Proof using All.
  revert s. induction receipted as [|d receipted IH]; intros s Hwf; cbn [compact_receipted]; [by intros [= <- _]|].
  intros [(e & Hrun & _)|([] & s1 & Hc & Hrun)]%st_bind_cases.
  - by apply compact_task_run in Hrun as [[? _] ?].
  - apply compact_task_run in Hc as [[Hwf1 _] Ha]; [|done]. destruct (IH _ Hwf1 Hrun). split; [done|congruence].
Qed.

(** The scan after the adoption of the orphan, if there is one. *)
Definition adopted (orphan : option ReadySegment) (sc sc' : ActiveScan) : Prop :=
  match orphan with
  | None => sc' = sc
  | Some segment => ∃ metadata, view_metadata segment = Ok metadata ∧ sc' = adopted_scan sc segment metadata
  end.

Lemma adopt_pending_ok self key stored input plan s s' stored' pending' P sc :
  wf_tree (tree (disk (spool_world s))) → sound (value stored) → active_scan (value stored) = Some sc →
  answers sc P (pending plan) → (∀ ready, orphan plan = Some ready → P (LocatedReady ready)) →
  adopt_pending self key stored input plan s = (s', Ok (stored', pending')) →
  store_step s s' ∧ sound (value stored') ∧ ∃ sc', active_scan (value stored') = Some sc'
    ∧ adopted (orphan plan) sc sc' ∧ answers sc' P pending'
    ∧ generation (coordinator (value stored')) = generation (coordinator (value stored))
    ∧ committed (coordinator (value stored')) = committed (coordinator (value stored)).
Proof using Type*.
  intros Hwf Hsound Hs Hans HP. unfold adopt_pending. destruct (orphan plan) as [segment|].
  2: { intros [= <- <- <-]. split; [by split|]. split; [done|]. by exists sc. }
  specialize (HP _ eq_refl). intros (next & s1 & [-> Hadopt]%st_lift_ok & Hrun)%st_bind_ok.
  apply st_bind_ok in Hrun as (stored1 & s1 & Hex & Hrun).
  apply exchange_ok in Hex as (Hstep & Ev & Hd); [|done]. apply stored_sound in Hd as Hsound1.
  apply st_bind_ok in Hrun as (sc1 & s2 & [-> Hs1%scan_of_ok]%st_lift_ok & Hrun).
  apply st_bind_ok in Hrun as (n & s2 & [-> [-> _]%scan_segment_count_ok]%st_lift_ok & [= <- <- <-]).
  split; [done|]. split; [done|].
  apply adopt_orphan_ok in Hadopt as (m & a & sc0 & Hcs & _ & _ & Hs0 & _ & Hseq & Hnp & _ & _ & _ & Hlast).
  rewrite Hs in Hs0. injection Hs0 as <-.
  assert (sc1 = adopted_scan sc segment m ∧ generation (coordinator next) = generation (coordinator (value stored))
    ∧ committed (coordinator next) = committed (coordinator (value stored))) as (-> & Hg & Hc).
  { rewrite Ev in Hs1. destruct (rm_truncated m); [subst next; by injection Hs1|].
    destruct Hlast as (c & r & (a' & _ & _ & _ & [[_ ->]|[_ ->]])%collection_completed_ok & ->); by injection Hs1. }
  rewrite Ev. exists (adopted_scan sc segment m). split; [by rewrite <- Ev|]. split; [by exists m; split; [apply Hcs|]|].
  split; [|done]. intros seq located Hlt Hl.
  assert (sealed_count (adopted_scan sc segment m) = next_page sc) as En.
  { unfold sealed_count in *. cbn. rewrite lengthN_app, lengthN_cons, (lengthN_nil (A := SegmentRef)). lia. }
  rewrite En in Hl. apply lookup_insert_Some in Hl as [[<- <-]|[_ Hl]].
  - split; [done|]. eexists. split; [apply elem_of_app; right; by left|]. split; [done|].
    split; try done. cbn. by destruct (cs_rows _ _ _ _ Hcs).
  - destruct (Hans seq located Hlt Hl) as (HPl & r & Hr & Hn). split; [done|]. exists r. split; [|done].
    apply elem_of_app. by left.
Qed.

(** The commit of a settled scan. *)
Lemma confirm_delivery_ok self key stored a rows s s' stored' :
  wf_tree (tree (disk (spool_world s))) → sound (value stored) →
  active_attempt (coordinator (value stored)) = Some a →
  confirm_delivery self key stored (fence a) rows s = (s', Ok stored') →
  store_step s s' ∧ sound (value stored') ∧ active_scan (value stored') = active_scan (value stored)
  ∧ generation (coordinator (value stored')) = generation (coordinator (value stored))
  ∧ committed (coordinator (value stored')) = committed (coordinator (value stored)).
Proof using Type*.
  intros Hwf Hsound Ha. unfold confirm_delivery. rewrite Ha. cbn [ok_or].
  intros (a1 & s1 & [-> [= <-]]%st_lift_ok & Hrun)%st_bind_ok. destruct (delivery a) as [|rows'| |]; [| |done..].
  2: { case_decide; [|done]. injection Hrun as <- <-. split; [by split|]. done. }
  apply st_bind_ok in Hrun as ([next r] & s1 & [-> (c & Hm & ->)%with_coordinator_ok]%st_lift_ok & Hrun).
  apply exchange_ok in Hrun as (Hstep & Ev & Hd); [|done]. split; [done|]. split; [by eapply stored_sound|].
  rewrite Ev. split; [done|]. apply delivery_confirmed_cases in Hm as [->|(_ & _ & a' & _ & _ & _ & ->)]; done.
Qed.

(** The durable state after a commit. *)
Definition committed_state (state : DurableInputState) (sc : ActiveScan) (gen : N) (state' : DurableInputState) : Prop :=
  active_scan state' = None ∧ active_attempt (coordinator state') = None
  ∧ generation (coordinator state') = gen ∧ gen = generation (coordinator state) + 1
  ∧ committed (coordinator state') = match maximum_candidate sc with Some k => Some k | None => committed (coordinator state) end.

Lemma finish_ok self key stored sc gen adv s s' :
  wf_tree (tree (disk (spool_world s))) → sound (value stored) → active_scan (value stored) = Some sc →
  finish_reconciled_scan self key stored s = (s', Ok (ScanCommitted gen adv)) →
  store_step s s' ∧ complete sc = true ∧ ∃ st, stored_durably self key st (spool_world s')
    ∧ committed_state (value stored) sc gen (value st).
Proof using Type*.
  intros Hwf Hsound Hs. unfold finish_reconciled_scan, scan_of. rewrite Hs. cbn [ok_or].
  intros (sc1 & s1 & [-> [= <-]]%st_lift_ok & Hrun)%st_bind_ok. destruct (complete sc) eqn:Hcomp; [|done].
  cbn [negb] in Hrun. apply st_bind_ok in Hrun as (count & s1 & [-> _]%st_lift_ok & Hrun). case_decide; [done|].
  apply st_bind_ok in Hrun as (f & s1 & [-> (a & Ha & <-)%active_fence_ok]%st_lift_ok & Hrun).
  apply st_bind_ok in Hrun as (rows & s1 & [-> _]%st_lift_ok & Hrun).
  apply st_bind_ok in Hrun as (stored1 & s1 & Hconf & Hrun).
  eapply confirm_delivery_ok in Hconf as (Hstep1 & [Hv1 Hw1] & Hs1 & Hg1 & Hc1); [|done..]. pose proof Hstep1 as [Hwf1 _ _].
  apply st_bind_ok in Hrun as ([next out] & s2 & [-> (c & Hm & ->)%with_coordinator_ok]%st_lift_ok & Hrun).
  apply st_bind_ok in Hrun as (st & s2 & Hex & Hrun). cbn beta iota in Hrun. destruct out as [g b|]; [|done].
  case_decide; [done|]. injection Hrun as <- <- <-. apply exchange_ok in Hex as (Hstep2 & Ev & Hd); [|done].
  split; [by eapply store_step_trans|]. split; [done|]. exists st. split; [done|]. rewrite Ev. rewrite Hs in Hs1.
  destruct (state_scan_ok _ _ Hv1 Hw1 Hs1) as [a1 V].
  destruct (commit_cases (coordinator (value stored1)) (fence a))
    as [[e E]|[(E & _)|(a' & rows' & cand & _ & Ha' & _ & Hcol & _ & _ & E)]]; rewrite E in Hm; [done..|].
  injection Hm as <- <- _. pose proof (ok_active _ _ _ V) as Ha1. rewrite Ha' in Ha1. injection Ha1 as <-.
  pose proof (ok_collection _ _ _ V) as Hk. rewrite Hcol in Hk. destruct Hk as (_ & _ & ->).
  split_and!; try done; cbn; by rewrite ?Hg1, ?Hc1.
Qed.

(** The pages of the input that the spool listed. *)
Definition in_spool (input : PreparedInput) (spool : Spool) (located : LocatedSegment) : Prop :=
  input_key (ready_header (view located)) = pi_input_id input
  ∧ match located with
    | LocatedReady ready => ∃ w w' l, list_ready spool w = (w', Ok l) ∧ ready ∈ l
    | LocatedDelivered delivered => ∃ w w' l, list_delivered spool w = (w', Ok l) ∧ delivered ∈ l
    end.

Lemma inventory_ok input spool s s' inventory :
  InputInventory_load input spool s = (s', Ok inventory) →
  tree (disk (spool_world s')) = tree (disk (spool_world s))
  ∧ ∀ located, listed inventory located → in_spool input spool located.
Proof using Type.
  destruct (looking_lists spool) as [Ld Lr]. unfold InputInventory_load. intros (ready & s1 & H1' & Hrun)%st_bind_ok.
  apply list_run in H1' as (G1 & _ & Hl1); [|done]. specialize (Hl1 _ eq_refl).
  apply st_bind_ok in Hrun as (delivered & s2 & H2' & [= <- <-]).
  apply list_run in H2' as (G2 & _ & Hl2); [|done]. specialize (Hl2 _ eq_refl).
  split; [by rewrite (glanced_tree _ _ G2), (glanced_tree _ _ G1)|].
  intros [r|d]; cbn; intros [Hk Hin]%list_elem_of_filter; (split; [done|]); [by exists (spool_world s), (spool_world s1), ready|].
  by exists (spool_world s1), (spool_world s2), delivered.
Qed.

Lemma answers_weaken sc (P Q : LocatedSegment → Prop) pending :
  (∀ l, P l → Q l) → answers sc P pending → answers sc Q pending.
Proof using Type. intros HPQ Ha seq l Hs Hl. destruct (Ha seq l Hs Hl) as [HP Hr]. split; [by apply HPQ|done]. Qed.

Lemma answers_moved sc sc' P pending :
  delivered_through_sequence sc' = delivered_through_sequence sc →
  (∀ reference, delivered_through_sequence sc < sequence reference →
     reference ∈ DurableState.segments sc → reference ∈ DurableState.segments sc') →
  answers sc P pending → answers sc' P pending.
Proof using Type.
  intros Ed Hkeep Ha seq l Hs Hl. rewrite Ed in Hs. destruct (Ha seq l Hs Hl) as (HP & r & Hr & Er & Hn).
  split; [done|]. exists r. split; [|done]. apply Hkeep; [lia|done].
Qed.

(** The reconciliation of the whole delivery prefix. *)
Lemma reconcile_prefix_ok self spool hec limits key stored input plan P sc s s' stored' :
  wf_tree (tree (disk (spool_world s))) → sound (value stored) → active_scan (value stored) = Some sc →
  answers sc P (pending plan) → (∀ ready, orphan plan = Some ready → P (LocatedReady ready)) →
  reconcile_delivery_prefix self (λ ready, deliver_ready_segment_sync spool ready hec limits) key stored input spool plan s
  = (s', Ok stored') →
  wf_tree (tree (disk (spool_world s'))) ∧ sound (value stored') ∧ ∃ sc0 sc1 bodies sc',
    same_scan sc sc0 ∧ outstanding sc0 = outstanding sc ∧ adopted (orphan plan) sc0 sc1
    ∧ Forall2 (page_done spool hec limits P) (outstanding sc1) bodies
    ∧ Daemon.acknowledged s' = Daemon.acknowledged s ++ concat bodies
    ∧ active_scan (value stored') = Some sc' ∧ same_scan sc1 sc'
    ∧ generation (coordinator (value stored')) = generation (coordinator (value stored))
    ∧ committed (coordinator (value stored')) = committed (coordinator (value stored)).
Proof using All.
  intros Hwf Hsound Hs Hans HP. unfold reconcile_delivery_prefix.
  intros ([] & s1 & Hc & Hrun)%st_bind_ok. apply compact_receipted_run in Hc as [Hwf1 Ha1]; [|done].
  apply st_bind_ok in Hrun as (stored1 & s2 & Hp & Hrun).
  eapply prune_ok in Hp as ([Hwf2 Ha2 _] & Hsound1 & sc0 & (Ec0 & Hs0 & Hsame0) & Eout & Ed & _ & Hkeep); [|done..].
  apply st_bind_ok in Hrun as ([stored2 pend] & s3 & Had & Hrun). cbn beta iota in Hrun.
  eapply adopt_pending_ok in Had as ([Hwf3 Ha3 _] & Hsound2 & sc1 & Hs1 & Hadopted & Hans1 & Eg & Ecm);
    [|done|done|done|by eapply answers_moved|done].
  eapply rounds_ok in Hrun as (Hwf4 & Hsound3 & bodies & sc' & Hdone & Ha4 & (Ec' & Hs' & Hsame) & _); [|done..].
  split; [done|]. split; [done|]. exists sc0, sc1, bodies, sc'. do 4 (split; [done|]). split; [congruence|].
  do 2 (split; [done|]). split; congruence.
Qed.

(** C1: the cursor advances only over delivered pages: when [reconcile] commits a scan,
    the durable state it found held that scan, up to pruning and the adoption of one
    sealed page of the spool; every page of it without a receipt was a segment that the
    spool listed for the input, with the identity, digest and rows the scan recorded, and
    was acknowledged by the sink in this call, event for event and in the order of the
    pages, unless it was found delivered already; nothing else was sent; and then the
    tree, and every version a crash may reveal, hold a state of the next generation
    without a scan, whose cursor is the largest candidate of the scan. *)
Theorem committed_scan_was_delivered self input spool hec limits s s' gen adv :
  wf_tree (tree (disk (spool_world s))) →
  reconcile self input spool (λ ready, deliver_ready_segment_sync spool ready hec limits) s
  = (s', Ok (ScanCommitted gen adv)) →
  ∃ rising st0 sc0 st sc orphan scan bodies,
    pi_rising input = Some rising ∧ durable self (state_key rising) s st0 ∧ active_scan (value st0) = Some sc0
    (* the scan that is committed *)
    ∧ same_scan sc0 sc ∧ outstanding sc = outstanding sc0 ∧ adopted orphan sc scan
    ∧ (∀ ready, orphan = Some ready → in_spool input spool (LocatedReady ready)) ∧ complete scan = true
    (* its pages *)
    ∧ Forall2 (page_done spool hec limits (in_spool input spool)) (outstanding scan) bodies
    ∧ Daemon.acknowledged s' = Daemon.acknowledged s ++ concat bodies
    (* the durable state *)
    ∧ stored_durably self (state_key rising) st (spool_world s') ∧ committed_state (value st0) scan gen (value st).
Proof using All.
  intros Hwf. unfold reconcile, require_rising. destruct (pi_rising input) as [rising|] eqn:Hr; [|done]. cbn [ok_or].
  intros (rising' & s1 & [-> [= <-]]%st_lift_ok & Hrun)%st_bind_ok. cbn zeta in Hrun.
  apply st_bind_ok in Hrun as (res & s1 & Hload & Hrun).
  pose proof (steady_run _ _ _ _ (steady_load _ _) Hwf Hload) as [Hwf1 Ha1 _].
  apply load_state_ok in Hload as [Ht1 Hst]; [|done]. destruct res as [|st0].
  { apply st_bind_ok in Hrun as (ne & s2 & _ & Hrun). by case_decide. }
  destruct (Hst st0 eq_refl) as [Hd0 Hsound0]. clear Hst. apply (durable_same _ _ _ s1) in Hd0 as Hd1; [|done].
  apply st_bind_ok in Hrun as (st1 & s2 & Hens & Hrun).
  pose proof (steady_run _ _ _ _ (steady_ensure _ _ _) Hwf1 Hens) as [Hwf2 Ha2 _].
  eapply ensure_input_ok in Hens as Hcase; [|done..]. clear Hens.
  apply st_bind_ok in Hrun as (stored & s3 & Hcur & Hrun).
  apply load_current_ok in Hcur as ([Hwf3 Ha3 _] & Ht3 & Hd2 & Hsound); [|done].
  apply st_bind_ok in Hrun as (inventory & s4 & Hinv & Hrun).
  pose proof (steady_run _ _ _ _ (steady_inventory _ _) Hwf3 Hinv) as [Hwf4 Ha4 _].
  apply inventory_ok in Hinv as [_ Hin]. apply st_bind_ok in Hrun as (plan & s5 & [-> Hplan]%st_lift_ok & Hrun).
  destruct (decide (active_scan (value stored) = None)) as [|Hscan]; [done|].
  destruct (active_scan (value stored)) as [sc0|] eqn:Hsc; [clear Hscan|done].
  assert (stored = st0) as ->.
  { destruct Hcase as [Ht2|(st' & Hd' & Hn)].
    - apply (durable_unique self (state_key rising) s2); [done|]. by apply (durable_same _ _ s1).
    - rewrite (durable_unique _ _ _ _ _ Hd' Hd2) in Hn. congruence. }
  destruct (validate_inventory_ok _ _ _ _ _ Hsc Hplan) as [Hans Horph].
  apply (answers_weaken _ _ _ _ Hin) in Hans. apply st_bind_ok in Hrun as (stored' & s6 & Hpre & Hrun).
  eapply reconcile_prefix_ok in Hpre as (Hwf6 & Hsound' & sc & scan & bodies & sc' & Hsame & Eout & Had & Hdone & Ha6
    & Hs' & Hsame' & Eg & Ec); [|done|done|done|done|].
  2: { intros ready Ho. apply Hin. by apply Horph. }
  eapply finish_ok in Hrun as ([_ Ha7 _] & Hcomp & st & Hdur & Hcs); [|done..].
  exists rising, st0, sc0, st, sc, (orphan plan), scan, bodies. do 6 (split; [done|]).
  split; [intros ready Ho; by apply Hin, Horph|]. destruct Hsame' as [Es1 _ _ Es4].
  split; [congruence|]. split; [done|]. split; [congruence|]. split; [done|].
  destruct Hcs as (E1 & E2 & E3 & E4 & E5). split_and!; try done; [congruence|]. rewrite E5, Es4, Ec. done.
Qed.
End RisingProps.
