(* ===== verification/RisingCrash.v ===== *)
(** * No page is lost before its receipt

    The rounds of [reconcile] under failures and crashes: in every version that a crash
    may reveal, a page is in the spool or its receipt is in the durable state. *)

From S2P Require Export RisingProps.

Local Open Scope N_scope.
Local Open Scope dbx_scope.

Section RisingCrash.
Context `{Sha256, Crypto, !CryptoLaws, HecJson, SerdeJson, !SerdeJsonLaws, !SerdeJsonWidths}.
Context (self : RisingCoordinator) (key : StateKey).

(** The receipts that an envelope in the place of the current one stands for. *)
Definition receipt_stored (n : N) (v : tree_t) : Prop :=
  ∃ bytes st sc, v !! current_path (coordinator_store self) key = private_file bytes
    ∧ decode_envelope bytes = Ok st ∧ active_scan (value st) = Some sc ∧ n ≤ delivered_through_sequence sc.

(** In every version that a crash may reveal. *)
Definition always (P : tree_t → Prop) (s : daemon) : Prop := ∀ v, v ∈ versions (disk (spool_world s)) → P v.

(** A path that the store does not use for the input. *)
Definition apart (x : path) : Prop := ∀ n, ¬ whole_area (coordinator_store self) key x n.

Definition page_paths (located : LocatedSegment) : list path :=
  match located with
  | LocatedReady ready => delivery_paths ready
  | LocatedDelivered delivered => [delivered_path delivered]
  end.
(** The file of a page before its round, and what is left of it. *)
Definition page_path (located : LocatedSegment) : path := ready_path (view located).
Definition holds_page (located : LocatedSegment) (file : node) (v : tree_t) : Prop :=
  ∃ x, x ∈ page_paths located ∧ v !! x = Some file.

Lemma page_path_in located : page_path located ∈ page_paths located.
Proof using Type. destruct located; by left. Qed.

(** What each call keeps in the versions. *)
Record kept (l : list path) (s s' : daemon) : Prop := mkKept {
  kp_wf : wf_tree (tree (disk (spool_world s')));
  kp_other x : x ∉ l → ∀ v, v ∈ versions (disk (spool_world s')) →
    ∃ v0, v0 ∈ versions (disk (spool_world s)) ∧ v0 !! x = v !! x;
}.

Lemma kept_always l s s' x f : kept l s s' → x ∉ l → always (λ v, v !! x = f) s → always (λ v, v !! x = f) s'.
Proof using Type. intros [_ Hk] Hx Ha v Hv. destruct (Hk x Hx v Hv) as (v0 & Hv0 & <-). by apply Ha. Qed.
Lemma kept_receipt l s s' n : kept l s s' → (∀ x, x ∈ l → apart x) →
  always (receipt_stored n) s → always (receipt_stored n) s'.
Proof using Type.
  intros [_ Hk] Hl Ha v Hv. destruct (Hk (current_path (coordinator_store self) key)) with (v := v) as (v0 & Hv0 & E); [|done|].
  - intros Hin. apply (Hl _ Hin None). right. right. right. by left.
  - destruct (Ha v0 Hv0) as (bytes & st & sc & E1 & Hrest). exists bytes, st, sc. by rewrite <- E.
Qed.
Lemma kept_same l s s' :
  wf_tree (tree (disk (spool_world s))) → same_disk (disk (spool_world s)) (disk (spool_world s')) → kept l s s'.
Proof using Type.
  intros Hwf Hd. split; [|intros x _ v Hv; exists v]. - by destruct Hd as [l' ->].
  - by rewrite <- (same_disk_versions _ _ Hd).
Qed.

(** ** The calls of a round *)

Lemma compact_kept spool d s s' r :
  wf_tree (tree (disk (spool_world s))) → from_spool (compact_delivered spool d) s = (s', r) →
  kept [delivered_path d] s s'.
Proof using All.
  intros Hwf (w & x & Hrun & -> & _)%from_spool_run.
  apply compact_delivered_run in Hrun as [[G _]|(c & _ & _ & _ & Hwf' & Hch & _)]; [| |done].
  - apply kept_same; [done|]. by apply glanced_disk.
  - split; [done|]. intros y Hy v Hv. by eapply ec_other_versions.
Qed.

(** Either the page's file did not move, or it is at its second path; after a success
    it is there in every version. *)
Lemma deliver_kept spool ready hec limits s s' r file :
  wf_tree (tree (disk (spool_world s))) → deliver_ready_segment_sync spool ready hec limits s = (s', r) →
  always (λ v, v !! ready_path ready = Some file) s →
  kept (delivery_paths ready) s s' ∧ always (holds_page (LocatedReady ready) file) s'
  ∧ ∀ d, r = Ok d → delivered_path d = with_extension (ready_path ready) DELIVERED_EXTENSION
      ∧ always (λ v, v !! delivered_path d = Some file) s'.
Proof using All.
  intros Hwf Hrun Hall. apply deliver_segment_run in Hrun; [|done].
  destruct Hrun as [[G [e ->]]|(c & events & bodies & x & _ & _ & _ & -> & _ & Hval & m & y & Hn & Hren & Hch & Hwf' & Hr)].
  { split; [apply kept_same; [done|by apply glanced_disk]|]. split; [|done]. intros v Hv.
    exists (ready_path ready). split; [by left|]. apply Hall.
    by rewrite <- (same_disk_versions _ _ (glanced_disk _ _ G)). }
  cbn zeta in *. destruct Hval as [(k & id & Hown & _) _]. apply owned_split in Hown as [Ep Eq]. specialize (Eq DELIVERED_EXTENSION).
  set (p := ready_path ready) in *. set (q := with_extension p DELIVERED_EXTENSION) in *.
  assert (p ≠ q) as Hne.
  { rewrite Eq. rewrite Ep. intros E. apply app_inj_2 in E as [_ [= E%segment_file_name_inj]]; [|done].
    by apply no_dot_lifecycle in E. }
  destruct (renamed_lookup _ _ _ _ _ Hne Hren) as (_ & Hq & _).
  assert (Regular m c y = file) as Ef by (pose proof (Hall _ (list_elem_of_here _ _)) as E; congruence).
  split; [split; [done|]; intros z Hz v Hv; by eapply ec_other_versions|]. split.
  - intros v Hv. destruct (ec_together _ _ _ Hch v Hv) as [(v0 & Hv0 & E)|E].
    + exists p. split; [by left|]. rewrite <- (E p) by (by left). by apply Hall.
    + exists q. split; [right; by left|]. rewrite E by (right; by left). by rewrite Hq, Ef.
  - intros d Hd%map_err_ok. destruct (Hr d Hd) as [Hh Hdur]. apply (f_equal ready_path) in Hh. cbn in Hh.
    split; [done|]. intros v Hv. rewrite Hh. rewrite (Hdur v _ Hv) by (right; by left). by rewrite Hq, Ef.
Qed.

(** An exchange keeps every path that is not the store's; what was receipted stays so, and
    a success stores the receipts of the next state. *)
Lemma exchange_kept stored next sc s s' r :
  wf_tree (tree (disk (spool_world s))) → exchange self key stored next s = (s', r) → active_scan next = Some sc →
  wf_tree (tree (disk (spool_world s')))
  ∧ (∀ x f, apart x → always (λ v, v !! x = f) s → always (λ v, v !! x = f) s')
  ∧ (∀ n, n ≤ delivered_through_sequence sc → always (receipt_stored n) s → always (receipt_stored n) s')
  ∧ ∀ st, r = Ok st → ∀ n, n ≤ delivered_through_sequence sc → always (receipt_stored n) s'.
Proof using Type*.
  intros Hwf Hrun Hs. split; [by eapply exchange_step|].
  assert (∀ st, r = Ok st → ∀ n, n ≤ delivered_through_sequence sc → always (receipt_stored n) s') as Hok.
  { intros st -> n Hn. apply exchange_ok in Hrun as (_ & Ev & bytes & Hd & Hall); [|done]. intros v Hv.
    exists bytes, st, sc. rewrite Ev. split; [by apply Hall|done]. }
  apply from_store_run in Hrun as (d & x & Hrun & -> & ->). cbn [spool_world set_spool_world disk set_disk] in *.
  unfold always in *. cbn [spool_world set_spool_world disk set_disk] in *.
  apply compare_exchange_run in Hrun as [(e & -> & Hun & Hb)|(cur & next' & Hp & _)]; [| |done].
  - split; [|split; [|done]].
    + intros y f Hy Ha v Hv. destruct Hb as [_ [_ Hev]%evolves_paths].
      destruct (Hev v y Hv) as [(v0 & Hv0 & <-)|E]; [by apply Ha|]. exfalso. apply (Hy (v !! y)). by left.
    + intros n _ Ha v Hv. destruct (Hun CURRENT_FILE) as [_ Hvers]. destruct (Hvers v Hv) as (v0 & Hv0 & E).
      destruct (Ha v0 Hv0) as (bytes & st & sc' & E1 & Hrest). exists bytes, st, sc'. split; [|done].
      rewrite <- E1. symmetry. exact E.
  - destruct Hp as [_ _ Hb (old & new & _ & Hdec & Henc & Hrev & Hup & _)].
    destruct (encode_decode _ _ _ _ Hrev Henc Hdec) as [Ev _]. split; [|split; [|done]].
    + intros y f Hy Ha v Hv. destruct Hb as [_ [_ Hev]%evolves_paths].
      destruct (Hev v y Hv) as [(v0 & Hv0 & <-)|E]; [by apply Ha|]. exfalso. by apply (Hy (v !! y)).
    + intros n Hn Ha v Hv. destruct (upd_current _ _ _ _ _ _ Hup v Hv) as [(v0 & Hv0 & E)|[E _]].
      * destruct (Ha v0 Hv0) as (bytes & st & sc' & E1 & Hrest). exists bytes, st, sc'. by rewrite <- E.
      * exists new, next', sc. by rewrite Ev.
Qed.

Lemma prune_kept stored sc s s' r :
  wf_tree (tree (disk (spool_world s))) → sound (value stored) → active_scan (value stored) = Some sc →
  prune_compacted_prefix self key stored s = (s', r) →
  wf_tree (tree (disk (spool_world s')))
  ∧ (∀ x f, apart x → always (λ v, v !! x = f) s → always (λ v, v !! x = f) s')
  ∧ ∀ n, n ≤ delivered_through_sequence sc → always (receipt_stored n) s → always (receipt_stored n) s'.
Proof using Type*.
  intros Hwf [Hv Hw] Hs. unfold prune_compacted_prefix.
  intros [(e & [= <- _] & _)|(next & s1 & [-> Hp]%st_lift_ok & Hrun)]%st_bind_cases; [done|].
  destruct next as [next|]; [|by injection Hrun as <- _].
  destruct (pruned_ok _ _ _ Hv Hw Hs Hp) as (k & -> & _).
  eapply exchange_kept in Hrun as (Hwf' & Ho & Hr & _); [|done|reflexivity]. done.
Qed.

(** ** One round *)

Section Round.
Context (spool : Spool) (hec : HecClient) (limits : DeliveryLimits) (input : PreparedInput).
Abbreviation deliver := (λ ready, deliver_ready_segment_sync spool ready hec limits).

(** After the page: it is kept whatever happened, and at one path after a success. *)
Lemma page_kept state n located s s' r file :
  wf_tree (tree (disk (spool_world s))) →
  (match located with
   | LocatedReady ready =>
       delivered ← deliver ready;
       _ ← st_lift (validate_delivered_for_reference state input n delivered);
       mret delivered
   | LocatedDelivered delivered => mret delivered
   end : task _) s = (s', r) →
  always (λ v, v !! page_path located = Some file) s →
  kept (page_paths located) s s' ∧ always (holds_page located file) s'
  ∧ ∀ d, r = Ok d → delivered_path d ∈ page_paths located ∧ always (λ v, v !! delivered_path d = Some file) s'.
Proof using All.
  intros Hwf Hrun Hall. destruct located as [ready|d].
  - apply st_bind_cases in Hrun as [(e & Hd & ->)|(d & s1 & Hd & Hrun)]; (eapply deliver_kept in Hd as (Hk & Hh & Hok); [|done..]).
    { by split_and!. }
    destruct (Hok d eq_refl) as [Ep Hat].
    apply st_bind_cases in Hrun as [(e & [= <- _] & ->)|([] & s2 & [-> _]%st_lift_ok & [= <- <-])]; [by split_and!|].
    split; [done|]. split; [done|]. intros d' [= <-]. split; [|done]. rewrite Ep. right. by left.
  - injection Hrun as <- <-. split; [apply kept_same; [done|apply glanced_disk, glanced_refl]|].
    split; [intros v Hv; exists (delivered_path d); split; [by left|by apply Hall]|].
    intros d' [= <-]. split; [by left|done].
Qed.

(** What every step of a round keeps: the other pages, and the receipts before [n]. *)
Record round_step (paths : list path) (n : N) (s s' : daemon) : Prop := mkRoundStep {
  rs_wf : wf_tree (tree (disk (spool_world s')));
  rs_other x f : x ∉ paths → apart x → always (λ v, v !! x = f) s → always (λ v, v !! x = f) s';
  rs_receipts m : m < n → always (receipt_stored m) s → always (receipt_stored m) s';
}.

Lemma round_step_trans paths n s s1 s2 : round_step paths n s s1 → round_step paths n s1 s2 → round_step paths n s s2.
Proof using Type. intros [_ O1 R1] [Hwf O2 R2]. split; [done|..]; auto. Qed.
Lemma kept_round l paths n s s' : kept l s s' → l ⊆ paths → (∀ x, x ∈ paths → apart x) → round_step paths n s s'.
Proof using Type.
  intros Hk Hl Hap. split; [apply Hk|intros x f Hx _ Ha; eapply kept_always; [done| |done]; by intros ?%Hl|].
  intros m _. eapply kept_receipt; [done|]. by intros x ?%Hl%Hap.
Qed.

Lemma exchange_round paths n stored next sc s s' r :
  wf_tree (tree (disk (spool_world s))) → exchange self key stored next s = (s', r) → active_scan next = Some sc →
  n ≤ delivered_through_sequence sc + 1 → round_step paths n s s'.
Proof using Type*.
  intros Hwf Hrun Hs Hn. eapply exchange_kept in Hrun as (Hwf' & Ho & Hr & _); [|done..].
  split; [done|intros x f _; apply Ho|]. intros m Hm. apply Hr. lia.
Qed.
Lemma prune_round paths n stored sc s s' r :
  wf_tree (tree (disk (spool_world s))) → sound (value stored) → active_scan (value stored) = Some sc →
  prune_compacted_prefix self key stored s = (s', r) → n ≤ delivered_through_sequence sc + 1 → round_step paths n s s'.
Proof using Type*.
  intros Hwf Hv Hs Hrun Hn. eapply prune_kept in Hrun as (Hwf' & Ho & Hr); [|done..].
  split; [done|intros x f _; apply Ho|]. intros m Hm. apply Hr. lia.
Qed.

(** What a round keeps of the other pages and receipts, and what becomes of its page. *)
Lemma round_kept stored sc located s s' r file :
  let n := delivered_through_sequence sc + 1 in
  wf_tree (tree (disk (spool_world s))) → sound (value stored) → active_scan (value stored) = Some sc →
  (∀ x, x ∈ page_paths located → apart x) →
  reconcile_page self deliver key stored input spool n located s = (s', r) →
  always (λ v, v !! page_path located = Some file) s →
  round_step (page_paths located) n s s' ∧ always (λ v, holds_page located file v ∨ receipt_stored n v) s'
  ∧ ∀ st, r = Ok st → always (receipt_stored n) s'.
Proof using All.
  cbn zeta. intros Hwf Hsound Hs Hap. unfold reconcile_page.
  set (n := delivered_through_sequence sc + 1). intros Hrun Hall.
  apply st_bind_cases in Hrun as [(e & Hpage & ->)|(d & s1 & Hpage & Hrun)];
    (eapply page_kept in Hpage as (Hk & Hh & Hok); [|done..]); apply (kept_round _ (page_paths located) n) in Hk as R1; try done.
  { split; [done|]. split; [|done]. intros v Hv. left. by apply Hh. }
  destruct (Hok d eq_refl) as [Hin Hat]. clear Hok Hh Hk. pose proof (rs_wf _ _ _ _ R1) as Hwf1.
  assert (∀ s, always (λ v, v !! delivered_path d = Some file) s → always (λ v, holds_page located file v ∨ receipt_stored n v) s) as Hpage'.
  { intros s0 Ha v Hv. left. exists (delivered_path d). split; [done|by apply Ha]. }
  unfold with_receipt, scan_of in Hrun. rewrite Hs in Hrun. cbn [ok_or] in Hrun. rewrite ok_bind in Hrun.
  apply st_bind_cases in Hrun as [(e & [=] & _)|(next & s2 & [-> [= <-]]%st_lift_ok & Hrun)].
  apply st_bind_cases in Hrun as [(e & Hex & ->)|(stored1 & s2 & Hex & Hrun)].
  { eapply (exchange_round (page_paths located) n) in Hex as R2; [|done|reflexivity|cbn; lia].
    eapply exchange_kept in Hex as (_ & Ho & _ & _); [|done|reflexivity]. split; [by eapply round_step_trans|].
    split; [|done]. apply Hpage', Ho; [by apply Hap|done]. }
  eapply (exchange_round (page_paths located) n) in Hex as R2; [|done|reflexivity|cbn; lia].
  pose proof Hex as Hex1. eapply exchange_kept in Hex1 as (_ & _ & _ & Hrec); [|done|reflexivity].
  eapply exchange_ok in Hex as (_ & Ev & Hdur); [|done]. apply stored_sound in Hdur.
  assert (always (receipt_stored n) s2) as Hrec2 by (eapply Hrec; [reflexivity|cbn; lia]). clear Hrec.
  pose proof (round_step_trans _ _ _ _ _ R1 R2) as R12. pose proof (rs_wf _ _ _ _ R2) as Hwf2.
  assert (∀ s3, round_step (page_paths located) (n + 1) s2 s3 →
    round_step (page_paths located) n s s3 ∧ always (receipt_stored n) s3) as Hend.
  { intros s3 R3. split; [|apply (rs_receipts _ _ _ _ R3); [lia|done]]. eapply round_step_trans; [exact R12|].
    destruct R3 as [? ? Hr3]. split; [done..|]. intros m Hm. apply Hr3. lia. }
  assert (∀ s3, round_step (page_paths located) (n + 1) s2 s3 →
    round_step (page_paths located) n s s3 ∧ always (λ v, holds_page located file v ∨ receipt_stored n v) s3
    ∧ ∀ st, r = Ok st → always (receipt_stored n) s3) as Hend'.
  { intros s3 R3. destruct (Hend s3 R3) as [? Ha]. split; [done|]. split; [|done]. intros v Hv. right. by apply Ha. }
  apply st_bind_cases in Hrun as [(e & Hc & ->)|([] & s3 & Hc & Hrun)]; eapply compact_kept in Hc as Hk; try done;
    (apply (kept_round _ (page_paths located) (n + 1)) in Hk as R3; [|by intros x ->%list_elem_of_singleton|done]).
  { by apply Hend'. }
  apply Hend'. eapply round_step_trans; [exact R3|].
  eapply (prune_round _ (n + 1)) in Hrun; [exact Hrun|apply R3|done|by rewrite Ev|cbn; lia].
Qed.

(** The state after a round that succeeds. *)
Lemma round_state stored sc located s s' st file :
  let n := delivered_through_sequence sc + 1 in
  wf_tree (tree (disk (spool_world s))) → active_scan (value stored) = Some sc →
  always (λ v, v !! page_path located = Some file) s →
  reconcile_page self deliver key stored input spool n located s = (s', Ok st) →
  sound (value st) ∧ ∃ sc', active_scan (value st) = Some sc' ∧ delivered_through_sequence sc' = n.
Proof using All.
  cbn zeta. intros Hwf Hs Hall. unfold reconcile_page. intros (d & s1 & Hpage & Hrun)%st_bind_ok.
  eapply page_kept in Hpage as (Hk & _ & _); [|done..]. unfold with_receipt, scan_of in Hrun. rewrite Hs in Hrun.
  cbn [ok_or] in Hrun. rewrite ok_bind in Hrun. apply st_bind_ok in Hrun as (next & s2 & [-> [= <-]]%st_lift_ok & Hrun).
  apply st_bind_ok in Hrun as (stored1 & s2 & Hex & Hrun).
  eapply exchange_ok in Hex as ([Hwf2 _ _] & Ev & Hdur); [|apply Hk]. apply stored_sound in Hdur.
  apply st_bind_ok in Hrun as ([] & s3 & Hc & Hrun). eapply compact_kept in Hc as [Hwf3 _]; [|done].
  eapply prune_ok in Hrun as (_ & Hsound & sc' & (_ & Hs' & _) & _ & Ed & _); [|done|done|by rewrite Ev].
  split; [done|]. by exists sc'.
Qed.

(** ** The loop *)

(** The pages that wait for their round, each with its file. *)
Definition waiting (sc : ActiveScan) (pending : gmap N LocatedSegment) (files : N → node) (s : daemon) : Prop :=
  ∀ seq located, delivered_through_sequence sc < seq → pending !! seq = Some located →
    always (λ v, v !! page_path located = Some (files seq)) s.

(** The paths of the pages: apart from the store's, and distinct. *)
Definition well_placed (pending : gmap N LocatedSegment) : Prop :=
  (∀ seq located x, pending !! seq = Some located → x ∈ page_paths located → apart x)
  ∧ ∀ seq1 seq2 l1 l2, pending !! seq1 = Some l1 → pending !! seq2 = Some l2 → seq1 ≠ seq2 →
      page_path l2 ∉ page_paths l1.

Lemma well_placed_delete pending n : well_placed pending → well_placed (delete n pending).
Proof using Type.
  intros [Ha Hd]. split; [intros seq l x [_ Hl]%lookup_delete_Some; by eapply Ha|].
  intros seq1 seq2 l1 l2 [_ E1]%lookup_delete_Some [_ E2]%lookup_delete_Some. by eapply Hd.
Qed.

Lemma loop_kept rounds stored sc pending files s s' r :
  wf_tree (tree (disk (spool_world s))) → sound (value stored) → active_scan (value stored) = Some sc →
  well_placed pending → reconcile_loop self rounds deliver key stored input spool pending s = (s', r) →
  waiting sc pending files s →
  (∀ m, m ≤ delivered_through_sequence sc → always (receipt_stored m) s → always (receipt_stored m) s')
  ∧ ∀ seq located, delivered_through_sequence sc < seq → pending !! seq = Some located →
      always (λ v, holds_page located (files seq) v ∨ receipt_stored seq v) s'.
Proof using All.
  revert stored sc pending s. induction rounds as [|rounds IH]; intros stored sc pending s Hwf Hsound Hs Hp;
    cbn [reconcile_loop]; intros Hrun Hwait.
  all: assert (∀ s1, waiting sc pending files s1 → ∀ seq located, delivered_through_sequence sc < seq →
    pending !! seq = Some located → always (λ v, holds_page located (files seq) v ∨ receipt_stored seq v) s1) as Hstay
    by (intros s1 Hw seq l Hlt Hl v Hv; left; exists (page_path l); split; [apply page_path_in|by eapply Hw]).
  { injection Hrun as <- <-. split; [done|by apply Hstay]. }
  unfold scan_of in Hrun. rewrite Hs in Hrun. cbn [ok_or] in Hrun.
  apply st_bind_cases in Hrun as [(e & [=] & _)|(sc1 & s1 & [-> [= <-]]%st_lift_ok & Hrun)].
  apply st_bind_cases in Hrun as [(e & [= <- _] & _)|(n & s1 & [-> [-> _]%ok_or_ok%checked_add_some]%st_lift_ok & Hrun)].
  { split; [done|by apply Hstay]. }
  apply st_bind_cases in Hrun as [(e & [= <- _] & _)|(count & s1 & [-> _]%st_lift_ok & Hrun)].
  { split; [done|by apply Hstay]. }
  case_decide; [injection Hrun as <- <-; split; [done|by apply Hstay]|].
  apply st_bind_cases in Hrun as [(e & [= <- _] & _)|(located & s1 & [-> Hl%ok_or_ok]%st_lift_ok & Hrun)].
  { split; [done|by apply Hstay]. }
  set (n := delivered_through_sequence sc + 1) in *.
  assert (always (λ v, v !! page_path located = Some (files n)) s) as Hpage by (apply (Hwait n); [lia|done]).
  assert (∀ x, x ∈ page_paths located → apart x) as Hap by (intros x; by apply (proj1 Hp n)).
  assert (∀ s1, round_step (page_paths located) n s s1 → ∀ seq l, n < seq → pending !! seq = Some l →
    always (λ v, v !! page_path l = Some (files seq)) s1) as Hothers.
  { intros s1 R seq l Hlt Hl'. apply (rs_other _ _ _ _ R); [|eapply (proj1 Hp); [done|apply page_path_in]|].
    - eapply (proj2 Hp); [done..|lia].
    - apply Hwait; [lia|done]. }
  apply st_bind_cases in Hrun as [(e & Hround & ->)|(st & s1 & Hround & Hrun)]; pose proof Hround as Hround';
    (eapply round_kept in Hround as (R & Hsafe & Hrec); [|done..]).
  - split; [intros m Hm; apply (rs_receipts _ _ _ _ R); lia|]. intros seq l Hlt Hl'.
    destruct (decide (seq = n)) as [->|Hne]; [rewrite Hl in Hl'; by injection Hl' as <-|].
    intros v Hv. left. exists (page_path l). split; [apply page_path_in|]. by eapply Hothers; [|lia|..].
  - eapply round_state in Hround' as (Hsound1 & sc1 & Hs1 & Ed); [|done..]. specialize (Hrec st eq_refl).
    edestruct (IH st sc1 (delete n pending) s1) as [Hr1 Hp1]; [apply R|done|done|by apply well_placed_delete|done|..].
    { intros seq l Hlt [_ Hl']%lookup_delete_Some. rewrite Ed in Hlt. by eapply Hothers; [|lia|..]. }
    split.
    + intros m Hm Ha. apply Hr1; [lia|]. apply (rs_receipts _ _ _ _ R); [lia|done].
    + intros seq l Hlt Hl'. destruct (decide (seq = n)) as [->|Hne].
      * intros v Hv. right. by apply Hr1; [lia|..].
      * apply Hp1; [lia|]. by rewrite lookup_delete_ne.
Qed.

(** C2: no page is lost before its receipt: whatever fails, and wherever a crash cuts the
    reconciliation short, in every version of the tree that may then be on the disk each
    page that was pending is at one of its two paths, unchanged, or its receipt is in the
    envelope of the durable state; receipts never regress. *)
Theorem pages_survive_until_receipted rounds stored sc pending files s s' r :
  wf_tree (tree (disk (spool_world s))) → sound (value stored) → active_scan (value stored) = Some sc →
  well_placed pending → reconcile_loop self rounds deliver key stored input spool pending s = (s', r) →
  waiting sc pending files s →
  (∀ m, m ≤ delivered_through_sequence sc → always (receipt_stored m) s → always (receipt_stored m) s')
  ∧ ∀ seq located, delivered_through_sequence sc < seq → pending !! seq = Some located →
      always (λ v, holds_page located (files seq) v ∨ receipt_stored seq v) s'.
Proof using All. apply loop_kept. Qed.
End Round.
End RisingCrash.
