(* ===== verification/Scheduler.v ===== *)
(** * The schedule and the generations of the daemon (crates/dbx-rs-daemon/src/runtime.rs)

    [ScheduleState] decides which inputs are collected next; [ConfigurationGenerations]
    numbers the revisions of batch inputs.  Instants and durations are nanoseconds. *)

From stdpp Require Export sorting.
From S2P Require Export Daemon.

Local Open Scope N_scope.
Local Open Scope dbx_scope.

(** Names of inputs, ordered as byte strings. *)
Abbreviation input_name := (list byte).

(** The entries of a [BTreeMap], as it iterates. *)
Definition name_le {A} (a b : input_name * A) : Prop := ¬ lexico (Byte.to_N <$> b.1) (Byte.to_N <$> a.1).
#[global] Instance name_le_dec {A} (a b : input_name * A) : Decision (name_le a b).
Proof. unfold name_le. apply _. Defined.
Definition in_order {A} (m : gmap input_name A) : list (input_name * A) := merge_sort name_le (map_to_list m).

(** ** The schedule *)
Record ScheduleState := mkSchedule {
  next_due : gmap input_name N;
  running : gset input_name;
}.

(** [retain] and then [entry(..).or_insert(now)]. *)
Definition sync (inputs : gmap input_name N) (now : N) (self : ScheduleState) : ScheduleState :=
  let retained := filter (λ e, is_Some (inputs !! e.1)) (next_due self) in
  mkSchedule (retained ∪ ((λ _, now) <$> inputs)) (running self).

Definition ScheduleState_new (inputs : gmap input_name N) (now : N) : ScheduleState :=
  sync inputs now (mkSchedule ∅ ∅).

(** The order of [take_due]: by the instant, then by the name. *)
Definition due_key (e : input_name * N) : N * list N := (e.2, Byte.to_N <$> e.1).
Definition due_le (a b : input_name * N) : Prop := ¬ lexico (due_key b) (due_key a).
#[global] Instance due_le_dec a b : Decision (due_le a b).
Proof. unfold due_le. apply _. Defined.

Definition due_entries (now : N) (self : ScheduleState) : list (input_name * N) :=
  filter (λ e, e.1 ∉ running self ∧ e.2 ≤ now) (map_to_list (next_due self)).
Definition take_due (now : N) (capacity : nat) (self : ScheduleState) : ScheduleState * list input_name :=
  let available := (capacity - size (running self))%nat in
  let due := take available (merge_sort due_le (due_entries now self)) in
  let names := due.*1 in
  (mkSchedule (next_due self) (running self ∪ list_to_set names), names).

(** [now + interval] of [std::time::Instant] panics outside the range of the platform. *)
Definition schedule_complete (name : input_name) (now : N) (interval : option N) (self : ScheduleState) : ScheduleState :=
  mkSchedule (match interval with
              | Some interval => <[name := now + interval]> (next_due self)
              | None => delete name (next_due self)
              end) (running self ∖ {[name]}).
Definition release_all (self : ScheduleState) : ScheduleState := mkSchedule (next_due self) ∅.

(** ** Configuration generations *)
Record ConfigurationGenerations := mkGenerations {
  high_water : gmap input_name N;
  active : gmap input_name (array 32 * N);
}.
Definition no_generations : ConfigurationGenerations := mkGenerations ∅ ∅.

Definition configuration_generation_error : DaemonError :=
  DaemonError_new "DBX-RS-RUN-0008" "internal" "configuration_generation" false false.

(** The generation of a revision: the active one of the same revision, or a new one. *)
Definition revision_generation (self : ConfigurationGenerations) (high : gmap input_name N) (name : input_name)
    (revision : array 32) : result DaemonError N :=
  let fresh := ok_or configuration_generation_error (checked_add (default 0 (high !! name)) 1) in
  match active self !! name with
  | Some (active_revision, generation) => if decide (active_revision = revision) then mret generation else fresh
  | None => fresh
  end.

(** The loop of [activate_revisions], over the revisions in the order of their names. *)
Fixpoint activate_loop (self : ConfigurationGenerations) (revisions : list (input_name * array 32))
    (next_active : gmap input_name (array 32 * N)) (high : gmap input_name N)
    : gmap input_name N * result DaemonError (gmap input_name (array 32 * N)) :=
  match revisions with
  | [] => (high, Ok next_active)
  | (name, revision) :: revisions =>
      match revision_generation self high name revision with
      | Ok generation =>
          activate_loop self revisions (<[name := (revision, generation)]> next_active) (<[name := generation]> high)
      | Err e => (high, Err e)
      end
  end.

(** A failure leaves the water marks that the loop has raised. *)
Definition activate_revisions (revisions : gmap input_name (array 32)) : st ConfigurationGenerations DaemonError () := λ self,
  match activate_loop self (in_order revisions) ∅ (high_water self) with
  | (high, Ok next_active) => (mkGenerations high next_active, Ok tt)
  | (high, Err e) => (mkGenerations high (active self), Err e)
  end.

(** ** What the schedule hands out *)

Lemma in_order_Permutation {A} (m : gmap input_name A) : in_order m ≡ₚ map_to_list m.
Proof. apply merge_sort_Permutation. Qed.
Lemma elem_of_in_order {A} (m : gmap input_name A) name a : (name, a) ∈ in_order m ↔ m !! name = Some a.
Proof. by rewrite in_order_Permutation, elem_of_map_to_list. Qed.

Lemma key_asym (a b : N * list N) : lexico a b → lexico b a → False.
Proof. intros Hab Hba. apply (irreflexivity lexico a). by trans b. Qed.
#[global] Instance due_le_total : Total due_le.
Proof.
  intros a b. unfold due_le. destruct (trichotomyT lexico (due_key a) (due_key b)) as [[?|E]|?].
  - left. intros ?. by eapply key_asym.
  - left. rewrite E. apply (irreflexivity lexico).
  - right. intros ?. by eapply key_asym.
Qed.
#[global] Instance due_le_trans : Transitive due_le.
Proof.
  intros a b c Hab Hbc. unfold due_le in *. intros Hca.
  destruct (trichotomyT lexico (due_key b) (due_key c)) as [[Hlt|E]|?]; [| |done].
  - apply Hab. by trans (due_key c).
  - apply Hab. by rewrite E.
Qed.
#[global] Instance to_N_inj : Inj (=) (=) Byte.to_N.
Proof. intros a b E. rewrite <- (byte_of_to_N a), <- (byte_of_to_N b). by rewrite E. Qed.
Lemma due_key_inj a b : due_key a = due_key b → a = b.
Proof. destruct a as [x d], b as [y e]. unfold due_key. cbn. by intros [= -> ->%(inj (fmap Byte.to_N))]. Qed.

Lemma due_entries_spec now self name d :
  (name, d) ∈ due_entries now self ↔ next_due self !! name = Some d ∧ name ∉ running self ∧ d ≤ now.
Proof. unfold due_entries. rewrite list_elem_of_filter, elem_of_map_to_list. cbn. tauto. Qed.
Lemma due_entries_nodup now self : NoDup (due_entries now self).*1.
Proof.
  unfold due_entries. eapply sublist_NoDup; [apply (NoDup_fst_map_to_list (next_due self))|].
  apply fmap_sublist, sublist_filter.
Qed.

(** The inputs handed out are the first of the due ones, as many as there is room for. *)
Lemma take_due_spec now capacity self :
  let l := merge_sort due_le (due_entries now self) in
  let n := (capacity - size (running self))%nat in
  NoDup l.*1 ∧ l ≡ₚ due_entries now self
  ∧ ∀ a b, a ∈ take n l → b ∈ drop n l → lexico (due_key a) (due_key b).
Proof.
  cbn zeta. set (l := merge_sort _ _). pose proof (merge_sort_Permutation due_le (due_entries now self)) as Hp. fold l in Hp.
  assert (NoDup l.*1) as Hnd by (rewrite Hp; apply due_entries_nodup). split; [done|]. split; [done|].
  pose proof (StronglySorted_merge_sort due_le (due_entries now self)) as Hs. fold l in Hs.
  set (n := (capacity - size (running self))%nat). revert Hs Hnd. rewrite <- (take_drop n l) at 1 2.
  intros Hs Hnd a b Ha Hb. apply (StronglySorted_app_1_elem_of _ _ _ a b) in Hs; [|done..]. unfold due_le in Hs.
  destruct (trichotomyT lexico (due_key a) (due_key b)) as [[Hlt|E]|?]; [done| |done].
  apply due_key_inj in E. subst b. rewrite fmap_app in Hnd. apply NoDup_app in Hnd as (_ & Hdis & _).
  destruct (Hdis a.1); by apply list_elem_of_fmap_2.
Qed.

Lemma take_due_names now capacity self :
  let n := (capacity - size (running self))%nat in
  let due := take n (merge_sort due_le (due_entries now self)) in
  take_due now capacity self = (mkSchedule (next_due self) (running self ∪ list_to_set due.*1), due.*1)
  ∧ NoDup due.*1 ∧ length due.*1 = Nat.min n (length (due_entries now self))
  ∧ ∀ name, name ∈ due.*1 →
      name ∉ running self ∧ ∃ d, next_due self !! name = Some d ∧ d ≤ now ∧ (name, d) ∈ due.
Proof.
  cbn zeta. split; [done|]. destruct (take_due_spec now capacity self) as (Hnd & Hp & _). cbn zeta in *.
  set (n := (capacity - size (running self))%nat). set (l := merge_sort due_le (due_entries now self)) in *.
  split; [rewrite fmap_take; eapply sublist_NoDup; [exact Hnd|apply sublist_take]|].
  split; [by rewrite length_fmap, length_take, (Permutation_length Hp)|].
  intros name ([name' d] & -> & Hx)%list_elem_of_fmap. cbn.
  assert ((name', d) ∈ due_entries now self) as (? & ? & ?)%due_entries_spec; [|by split; [|exists d]].
  rewrite <- Hp. apply (sublist_subseteq _ _ (sublist_take l n)), Hx.
Qed.

(** C15: the schedule hands out each input once and never one that runs: as many of the due
    inputs as the capacity leaves room for, the longest due first and by name within one
    instant; they count as running from then on and nothing else changes. *)
Theorem take_due_exact now capacity self :
  let (self', names) := take_due now capacity self in
  let n := (capacity - size (running self))%nat in
  NoDup names ∧ next_due self' = next_due self ∧ running self' = running self ∪ list_to_set names
  ∧ length names = Nat.min n (length (due_entries now self))
  ∧ size (running self') = (size (running self) + length names)%nat
  ∧ (∀ name, name ∈ names → name ∉ running self ∧ ∃ d, next_due self !! name = Some d ∧ d ≤ now)
  ∧ ∀ name d other e, name ∈ names → next_due self !! name = Some d →
      other ∉ names → other ∉ running self → next_due self !! other = Some e → e ≤ now →
      lexico (due_key (name, d)) (due_key (other, e)).
Proof.
  destruct (take_due_names now capacity self) as (-> & Hnd & Hlen & Hin).
  destruct (take_due_spec now capacity self) as (_ & Hp & Hord). cbn zeta in *. cbn [running next_due].
  set (n := (capacity - size (running self))%nat) in *. set (l := merge_sort due_le (due_entries now self)) in *.
  split; [done|]. split; [done|]. split; [done|]. split; [done|]. split; [|split].
  - rewrite size_union; [by rewrite size_list_to_set|]. intros name Hr Hx%elem_of_list_to_set. by apply Hin in Hx as [? _].
  - intros name Hname. destruct (Hin name Hname) as (? & d & ? & ? & _). by split; [|exists d].
  - intros name d other e (Hr & d' & Hd & _ & Hx)%Hin Hd' Ho Hro He Hle. rewrite Hd in Hd'. injection Hd' as ->.
    apply Hord; [done|]. assert ((other, e) ∈ l) as Hol by (rewrite Hp; by apply due_entries_spec).
    rewrite <- (take_drop n l) in Hol. apply elem_of_app in Hol as [Hol|Hol]; [|done].
    destruct Ho. apply list_elem_of_fmap. by exists (other, e).
Qed.

(** ** Generations *)

Lemma activate_loop_ok self revisions next high high' result :
  NoDup revisions.*1 → activate_loop self revisions next high = (high', Ok result) →
  (∀ name, name ∉ revisions.*1 → result !! name = next !! name ∧ high' !! name = high !! name)
  ∧ ∀ name revision, (name, revision) ∈ revisions → ∃ g, result !! name = Some (revision, g) ∧ high' !! name = Some g
      ∧ revision_generation self high name revision = Ok g.
Proof.
  revert next high. induction revisions as [|[name revision] revisions IH]; intros next high; cbn [activate_loop fmap list_fmap].
  { intros _ [= <- <-]. split; [done|]. intros ? ? []%not_elem_of_nil. }
  intros [Hn Hnd]%NoDup_cons. cbn [fst] in *. destruct (revision_generation _ _ _ _) as [g|e] eqn:Hg; [|done]. intros Hrun.
  destruct (IH _ _ Hnd Hrun) as [Hother Hin]. split.
  - intros x [Hx Hx']%not_elem_of_cons. destruct (Hother x Hx') as [-> ->]. by rewrite !lookup_insert_ne.
  - intros x r [[= -> ->]|Hx]%elem_of_cons.
    + exists g. destruct (Hother _ Hn) as [-> ->]. by rewrite !lookup_insert_eq.
    + destruct (Hin x r Hx) as (g' & E1 & E2 & E3). exists g'. split; [done|]. split; [done|]. rewrite <- E3.
      assert (x ≠ name) as Hne by (intros ->; apply Hn, list_elem_of_fmap; by exists (name, r)).
      unfold revision_generation. by rewrite lookup_insert_ne.
Qed.

Lemma activate_loop_other self revisions next high high' r name :
  name ∉ revisions.*1 → activate_loop self revisions next high = (high', r) → high' !! name = high !! name.
Proof.
  revert next high. induction revisions as [|[x revision] revisions IH]; intros next high; cbn [activate_loop fmap list_fmap].
  { by intros _ [= <- _]. }
  intros [Hx Hn]%not_elem_of_cons. cbn [fst] in *. destruct (revision_generation _ _ _ _) as [g|e]; [|by intros [= <- _]].
  intros Hrun. rewrite (IH _ _ Hn Hrun). by rewrite lookup_insert_ne.
Qed.

Lemma activate_loop_high self revisions next high high' r :
  NoDup revisions.*1 → activate_loop self revisions next high = (high', r) →
  ∀ name, high' !! name = high !! name
    ∨ ∃ revision g, revision_generation self high name revision = Ok g ∧ high' !! name = Some g.
Proof.
  revert next high. induction revisions as [|[name revision] revisions IH]; intros next high; cbn [activate_loop fmap list_fmap].
  { intros _ [= <- _]. by left. }
  intros [Hn Hnd]%NoDup_cons. cbn [fst] in *. destruct (revision_generation _ _ _ _) as [g|e] eqn:Hg; [|intros [= <- _]; by left].
  intros Hrun x. destruct (decide (x = name)) as [->|Hne].
  - right. exists revision, g. split; [done|]. rewrite (activate_loop_other _ _ _ _ _ _ _ Hn Hrun). by rewrite lookup_insert_eq.
  - destruct (IH _ _ Hnd Hrun x) as [->|(r' & g' & Hg' & ->)]; [left; by rewrite lookup_insert_ne|].
    right. exists r', g'. split; [|done]. rewrite <- Hg'. unfold revision_generation. by rewrite lookup_insert_ne.
Qed.

Lemma revision_generation_cases self high name revision g :
  revision_generation self high name revision = Ok g →
  active self !! name = Some (revision, g) ∨ g = default 0 (high !! name) + 1.
Proof.
  unfold revision_generation. destruct (active self !! name) as [[r g']|] eqn:Ha.
  - case_decide as Hr; [intros [= <-]; subst; by left|]. intros [-> _]%ok_or_ok%checked_add_some. by right.
  - intros [-> _]%ok_or_ok%checked_add_some. by right.
Qed.
Lemma in_order_NoDup {A} (m : gmap input_name A) : NoDup (in_order m).*1.
Proof. rewrite in_order_Permutation. apply NoDup_fst_map_to_list. Qed.

(** A generation [g] that was active for [name] with [revision], and what may come after. *)
Definition superseded (name : input_name) (revision : array 32) (g : N) (self : ConfigurationGenerations) : Prop :=
  g ≤ default 0 (high_water self !! name)
  ∧ ∀ revision' g', active self !! name = Some (revision', g') → g ≤ g' ∧ (g = g' → revision = revision').
Definition generations_ok (self : ConfigurationGenerations) : Prop :=
  ∀ name revision g, active self !! name = Some (revision, g) → 0 < g ∧ g ≤ default 0 (high_water self !! name).

Definition activation (self self' : ConfigurationGenerations) : Prop :=
  ∃ revisions r, activate_revisions revisions self = (self', r).

Lemma activation_cases self self' : activation self self' →
  (∀ name, high_water self' !! name = high_water self !! name
     ∨ ∃ revision g, revision_generation self (high_water self) name revision = Ok g ∧ high_water self' !! name = Some g)
  ∧ (active self' = active self
     ∨ ∀ name revision g, active self' !! name = Some (revision, g) →
         revision_generation self (high_water self) name revision = Ok g ∧ high_water self' !! name = Some g).
Proof.
  intros (revisions & r & Hrun). unfold activate_revisions in Hrun.
  destruct (activate_loop _ _ _ _) as [high [next|e]] eqn:Hl; injection Hrun as <- _; cbn;
    (split; [eapply activate_loop_high; [apply in_order_NoDup|exact Hl]|]); [right|by left].
  intros name revision g Hn. destruct (activate_loop_ok _ _ _ _ _ _ (in_order_NoDup _) Hl) as [Hother Hin].
  destruct (decide (name ∈ (in_order revisions).*1)) as [([x r'] & -> & Hx)%list_elem_of_fmap|Hx].
  - destruct (Hin _ _ Hx) as (g' & E1 & E2 & E3). cbn in *. rewrite E1 in Hn. by injection Hn as -> ->.
  - destruct (Hother name Hx) as [E _]. rewrite E, lookup_empty in Hn. done.
Qed.

Lemma activation_ok self self' : activation self self' → generations_ok self → generations_ok self'.
Proof.
  intros Hact Hok name revision g Hn. destruct (activation_cases _ _ Hact) as [Hh [Ha|Ha]].
  - rewrite Ha in Hn. destruct (Hok _ _ _ Hn) as [? Hg]. split; [done|].
    destruct (Hh name) as [->|(r & g' & Hr & ->)]; [done|]. cbn.
    apply revision_generation_cases in Hr as [Hr| ->]; [|lia]. rewrite Hn in Hr. injection Hr as -> ->. lia.
  - destruct (Ha _ _ _ Hn) as [Hr E]. rewrite E. cbn. split; [|lia].
    apply revision_generation_cases in Hr as [Hr| ->]; [by destruct (Hok _ _ _ Hr)|lia].
Qed.

Lemma activation_superseded name revision g self self' :
  activation self self' → superseded name revision g self → superseded name revision g self'.
Proof.
  intros Hact [Hg Hs]. destruct (activation_cases _ _ Hact) as [Hh Ha].
  assert (∀ r g', revision_generation self (high_water self) name r = Ok g' → g ≤ g' ∧ (g = g' → revision = r)) as Hgen.
  { intros r g' [Hr| ->]%revision_generation_cases; [by apply Hs|]. split; [lia|]. intros ?. exfalso. lia. }
  split.
  - destruct (Hh name) as [->|(r & g' & Hr & ->)]; [done|]. cbn. by apply Hgen in Hr as [? _].
  - intros r g' Hn. destruct Ha as [Ha|Ha]; [rewrite Ha in Hn; by apply Hs|]. apply Hgen. by eapply Ha.
Qed.

(** C14: a configuration generation is never reused: along every run of activations, failed
    ones included, the generation under which a batch input collects never decreases, is
    never zero, and stands for one revision only, whatever revisions were active between. *)
Theorem generations_never_reused self1 self2 name revision1 revision2 g1 g2 :
  rtc activation no_generations self1 → rtc activation self1 self2 →
  active self1 !! name = Some (revision1, g1) → active self2 !! name = Some (revision2, g2) →
  0 < g1 ∧ g1 ≤ g2 ∧ (g1 = g2 → revision1 = revision2).
Proof.
  intros H1 H2 Hn1 Hn2. assert (generations_ok self1) as Hok.
  { apply (rtc_invariant _ generations_ok _ _ (λ s s' Hok Hact, activation_ok s s' Hact Hok) H1). intros ? ? ? E. cbn in E. by rewrite lookup_empty in E. }
  destruct (Hok _ _ _ Hn1) as [Hpos Hle]. split; [done|].
  assert (superseded name revision1 g1 self2) as [_ Hs]; [|by eapply Hs].
  apply (rtc_invariant _ (superseded name revision1 g1) _ _ (λ s s' Hs Hact, activation_superseded _ _ _ s s' Hact Hs) H2).
  split; [done|]. intros r g E. rewrite Hn1 in E. by injection E as -> ->.
Qed.

(** Witness: a revision comes back after another one, under a new generation. *)
Definition demo_revisions (b : byte) : gmap input_name (array 32) := {[ [x61] := vreplicate 32 b ]}.
Definition activated_revisions (bs : list byte) : ConfigurationGenerations :=
  fold_left (λ s b, (activate_revisions (demo_revisions b) s).1) bs no_generations.
Lemma generations_never_reused_witness :
  active (activated_revisions [x01]) !! [x61] = Some (vreplicate 32 x01, 1)
  ∧ active (activated_revisions [x01; x02; x01]) !! [x61] = Some (vreplicate 32 x01, 3) ∧ 1 ≤ 3.
Proof.
  split; [vm_compute; reflexivity|]. split; [vm_compute; reflexivity|].
  apply (generations_never_reused (activated_revisions [x01]) (activated_revisions [x01; x02; x01]) [x61]
    (vreplicate 32 x01) (vreplicate 32 x01) 1 3); [| |vm_compute; reflexivity..].
  - apply rtc_once. eexists _, _. apply surjective_pairing.
  - apply (rtc_l _ _ (activated_revisions [x01; x02])); [|apply rtc_once]; eexists _, _; apply surjective_pairing.
Defined.
