(* ===== verification/Runtime.v ===== *)
(** * The daemon's loop (crates/dbx-rs-daemon/src/runtime.rs)

    One turn of [run_inner]: finished workers, a reload, the reconciliation of rising pages
    and the backlog, and the next wave of workers.  The workers themselves run beside the
    loop; the results of those that have finished are given to a turn.  Connectors and the
    trackers of telemetry are arguments; an [expect] that fails is the error [Panicked]. *)

From S2P Require Export Rising Scheduler.

Local Open Scope N_scope.
Local Open Scope dbx_scope.

(** ** Errors *)
Inductive RuntimeError :=
  | Panicked
  | Fatal (e : DaemonError).

Definition rising_delivery_unavailable : DaemonError :=
  DaemonError_new "DBX-RS-RUN-0010" "configuration" "rising_delivery" false true.
Definition reload_input_identity_error : DaemonError :=
  DaemonError_new "DBX-RS-RUN-0018" "configuration" "config_reload" false true.

Definition replay_accounting_error : DaemonError :=
  DaemonError_new "DBX-RS-RUN-0009" "internal" "spool_replay" false false.

(** ** Data *)

(** The handle of a worker is its result, once it has finished. *)
Record WorkerTask := mkTask {
  wt_interval : N;
  wt_rising : option RisingPageContext;
}.

Abbreviation inputs_map := (gmap input_name PreparedInput).

(** What the loop reads of the configuration. *)
Record RuntimeConfig := mkRuntimeConfig {
  rc_delivery_limits : DeliveryLimits;
  rc_capacity : nat;
}.

(** The variables of the loop; [instants] are the answers of [Instant::now()]. *)
Record Runtime := mkRuntime {
  rt_config : RuntimeConfig;
  rt_hec : option HecClient;
  rt_inputs : inputs_map;
  rt_generations : ConfigurationGenerations;
  rt_schedule : ScheduleState;
  rt_tasks : gmap input_name WorkerTask;
  rt_validated : gset (array 16);
  rt_instants : list N;
}.

Record RisingBacklogSummary := mkSummaryOf {
  needs_collection : gset input_name;
  committed_inputs : gset input_name;
}.

(** ** Pure parts *)
Definition input_intervals (inputs : inputs_map) : gmap input_name N :=
  (λ input, ps_interval (pi_schedule input)) <$> filter (λ e, ps_disabled (pi_schedule e.2) = false) inputs.
Definition runnable_intervals (inputs : inputs_map) (needs : gset input_name) : gmap input_name N :=
  (λ input, ps_interval (pi_schedule input))
    <$> filter (λ e, ps_disabled (pi_schedule e.2) = false ∨ e.1 ∈ needs) inputs.

Definition batch_inputs (inputs : inputs_map) : inputs_map := filter (λ e, pi_rising e.2 = None) inputs.
Definition rising_inputs (inputs : inputs_map) : inputs_map := filter (λ e, pi_rising e.2 ≠ None) inputs.

(** [collect] into a map: a later entry replaces an earlier one of the same key. *)
Definition replay_fences (inputs : inputs_map) : ReplayFences :=
  fold_left (λ fences e, <[pi_input_id e.2 := pi_revision_fingerprint e.2]> fences) (in_order (batch_inputs inputs)) ∅.
Definition rising_input_keys (inputs : inputs_map) : gset InputKey :=
  list_to_set ((λ e, pi_input_id e.2) <$> in_order (rising_inputs inputs)).

Definition collection_wave_may_start (active_workers : nat) (backlog_drained : option bool) : bool :=
  bool_decide (active_workers = O ∧ backlog_drained = Some true).

Definition activate (inputs : inputs_map) : st ConfigurationGenerations DaemonError () :=
  activate_revisions (pi_revision_fingerprint <$> batch_inputs inputs).
Definition generation_of (self : ConfigurationGenerations) (name : input_name) : result DaemonError N :=
  ok_or configuration_generation_error (snd <$> active self !! name).

Fixpoint validate_reload_loop (current : list (input_name * PreparedInput)) (candidate : inputs_map)
    : result DaemonError () :=
  match current with
  | [] => mret tt
  | (name, current_input) :: current =>
      match candidate !! name with
      | None => validate_reload_loop current candidate
      | Some candidate_input =>
          reject reload_input_identity_error
            when (state_input_id <$> pi_rising current_input ≠ state_input_id <$> pi_rising candidate_input);;
          validate_reload_loop current candidate
      end
  end.
Definition validate_reload_input_identities (current candidate : inputs_map) : result DaemonError () :=
  validate_reload_loop (in_order current) candidate.

Section Runtime.
Context `{Sha256, Crypto, HecJson, SerdeJson}.
Context {ConnectorError : Type}.
Context (self : RisingCoordinator) (spool : Spool).
(** [OperationTracker::start] and [succeeded], and the preparation of a rising query. *)
Context (start_tracker tracker_succeeded : task ()) (prepare_rising_contract : PreparedInput → task ()).

(** ** The backlog *)
Definition deliver_rising_segment (hec : HecClient) (limits : DeliveryLimits) (ready : ReadySegment)
    : task DeliveredSegment :=
  _ ← generate_uuid_bytes;
  _ ← start_tracker;
  delivered ← deliver_ready_segment_sync spool ready hec limits;
  _ ← tracker_succeeded;
  mret delivered.

Definition summarise (name : input_name) (outcome : RisingReconcileOutcome) (summary : RisingBacklogSummary)
    : RisingBacklogSummary :=
  match outcome with
  | Idle _ => summary
  | NeedsCollection _ _ => mkSummaryOf ({[name]} ∪ needs_collection summary) (committed_inputs summary)
  | ScanCommitted _ _ => mkSummaryOf (needs_collection summary) ({[name]} ∪ committed_inputs summary)
  end.

Fixpoint reconcile_rising_loop (hec : option HecClient) (limits : DeliveryLimits)
    (inputs : list (input_name * PreparedInput)) (summary : RisingBacklogSummary) : task RisingBacklogSummary :=
  match inputs with
  | [] => mret summary
  | (name, input) :: inputs =>
      outcome ← reconcile self input spool (λ ready,
        client ← st_lift (ok_or rising_delivery_unavailable hec);
        deliver_rising_segment client limits ready);
      reconcile_rising_loop hec limits inputs (summarise name outcome summary)
  end.
Definition reconcile_rising_backlog_sync (hec : option HecClient) (limits : DeliveryLimits) (inputs : inputs_map)
    : task RisingBacklogSummary :=
  reconcile_rising_loop hec limits (in_order (rising_inputs inputs)) (mkSummaryOf ∅ ∅).

Fixpoint pending_bytes (total : N) (ready : list ReadySegment) : option N :=
  match ready with
  | [] => Some total
  | segment :: ready => total ← checked_add total (plaintext_bytes (ready_summary segment)); pending_bytes total ready
  end.

(** Every error is logged and answered with [false]. *)
Definition drain_spool_backlog_inner (hec : option HecClient) (limits : DeliveryLimits) (inputs : inputs_map) : task () :=
  pending ← from_spool (list_ready spool);
  _ ← st_lift (ok_or replay_accounting_error (pending_bytes 0 pending));
  _ ← (if decide (pending = []) then mret tt else _ ← generate_uuid_bytes; start_tracker);
  _ ← drain_ready_segments_sync spool hec limits (replay_fences inputs) (rising_input_keys inputs);
  if decide (pending = []) then mret tt else tracker_succeeded.
Definition drain_spool_backlog (hec : option HecClient) (limits : DeliveryLimits) (inputs : inputs_map) : task bool :=
  answer ← try_call (drain_spool_backlog_inner hec limits inputs);
  mret (is_ok answer).

(** ** The loop's state *)
Abbreviation turn A := (st (daemon * Runtime) RuntimeError A).

Definition beside_loop {E A} (m : st daemon E A) : turn (result E A) := λ s,
  let '(d, r) := m s.1 in ((d, s.2), Ok r).
Definition runtime : turn Runtime := λ s, (s, Ok s.2).
Definition modify (f : Runtime → Runtime) : turn () := λ s, ((s.1, f s.2), Ok tt).
Definition on_schedule (f : ScheduleState → ScheduleState) : turn () :=
  modify (λ rt, mkRuntime (rt_config rt) (rt_hec rt) (rt_inputs rt) (rt_generations rt) (f (rt_schedule rt))
    (rt_tasks rt) (rt_validated rt) (rt_instants rt)).
Definition set_tasks (f : gmap input_name WorkerTask → gmap input_name WorkerTask) : turn () :=
  modify (λ rt, mkRuntime (rt_config rt) (rt_hec rt) (rt_inputs rt) (rt_generations rt) (rt_schedule rt)
    (f (rt_tasks rt)) (rt_validated rt) (rt_instants rt)).
Definition set_validated (f : gset (array 16) → gset (array 16)) : turn () :=
  modify (λ rt, mkRuntime (rt_config rt) (rt_hec rt) (rt_inputs rt) (rt_generations rt) (rt_schedule rt)
    (rt_tasks rt) (f (rt_validated rt)) (rt_instants rt)).
Definition instant_now : turn N := λ '(s, rt),
  let '(x, l) := next_of 0 (rt_instants rt) in
  ((s, mkRuntime (rt_config rt) (rt_hec rt) (rt_inputs rt) (rt_generations rt) (rt_schedule rt) (rt_tasks rt)
      (rt_validated rt) l), Ok x).
Definition expect {A} (o : option A) : turn A := st_lift (ok_or Panicked o).

Definition complete_now (name : input_name) (interval : option N) : turn () :=
  now ← instant_now;
  on_schedule (schedule_complete name now interval).

(** ** Reconciliation and backlog *)
Fixpoint complete_committed (now : N) (names : list input_name) : turn () :=
  match names with
  | [] => mret tt
  | name :: names =>
      rt ← runtime;
      input ← expect (rt_inputs rt !! name);
      let schedule := pi_schedule input in
      _ ← on_schedule (schedule_complete name now
        (if ps_disabled schedule then None else Some (ps_interval schedule)));
      complete_committed now names
  end.

Definition reconcile_and_drain_backlogs (workers_active : bool) (now : N) : turn (option bool) :=
  if workers_active then mret None else
  rt ← runtime;
  answer ← beside_loop (reconcile_rising_backlog_sync (rt_hec rt) (rc_delivery_limits (rt_config rt)) (rt_inputs rt));
  match answer with
  | Err _ => mret (Some false)
  | Ok summary =>
      _ ← complete_committed now (elements (committed_inputs summary));
      _ ← on_schedule (sync (runnable_intervals (rt_inputs rt) (needs_collection summary)) now);
      drained ← beside_loop (drain_spool_backlog (rt_hec rt) (rc_delivery_limits (rt_config rt)) (rt_inputs rt));
      mret (Some (match drained with Ok b => b | Err _ => false end))
  end.

(** ** The collection wave *)

(** The run of an input, or nothing when its turn is over ([continue]). *)
Definition prepare_run (name : input_name) (input : PreparedInput)
    : turn (option (CollectionRun * option RisingPageContext)) :=
  let interval := ps_interval (pi_schedule input) in
  match pi_rising input with
  | Some rising =>
      rt ← runtime;
      contract ← (if decide (state_input_id rising ∈ rt_validated rt) then mret (Ok tt) else
        beside_loop (prepare_rising_contract input));
      match contract with
      | Err _ => _ ← complete_now name (Some interval); mret None
      | Ok _ =>
          _ ← set_validated (λ validated, {[state_input_id rising]} ∪ validated);
          page ← beside_loop (start_or_resume_page self input spool);
          match page with
          | Ok (Ready context) => mret (Some (collection_run context, Some context))
          | Ok AwaitingReconcile => _ ← complete_now name (Some 0); mret None
          | Err _ => _ ← complete_now name (Some interval); mret None
          end
      end
  | None =>
      rt ← runtime;
      match generation_of (rt_generations rt) name with
      | Ok generation => mret (Some (RunBatch generation, None))
      | Err _ => _ ← complete_now name (Some interval); mret None
      end
  end.

(** Each started worker is a task; the runs that were launched, in order. *)
Fixpoint spawn_workers (names : list input_name) : turn (list (input_name * CollectionRun)) :=
  match names with
  | [] => mret []
  | name :: names =>
      rt ← runtime;
      input ← expect (rt_inputs rt !! name);
      run ← prepare_run name input;
      match run with
      | None => spawn_workers names
      | Some (run, context) =>
          _ ← set_tasks (λ tasks, <[name := mkTask (ps_interval (pi_schedule input)) context]> tasks);
          launched ← spawn_workers names;
          mret ((name, run) :: launched)
      end
  end.

Definition spawn_due_workers (capacity : nat) : turn (list (input_name * CollectionRun)) :=
  now ← instant_now;
  rt ← runtime;
  let (schedule, names) := take_due now capacity (rt_schedule rt) in
  _ ← on_schedule (λ _, schedule);
  spawn_workers names.

Definition launch_collection_wave (cancelled : bool) (backlog_drained : option bool)
    : turn (list (input_name * CollectionRun)) :=
  rt ← runtime;
  if decide (cancelled = true ∨ collection_wave_may_start (size (rt_tasks rt)) backlog_drained = false)
  then mret [] else
  match rt_hec rt with
  | None => mret []
  | Some _ => spawn_due_workers (rc_capacity (rt_config rt))
  end.

(** ** Finished workers *)

(** The join of a task: its result, or nothing when it did not complete. *)
Abbreviation worker_result := (option (result (WorkerError ConnectorError) WorkerCompletion)).

Definition rising_success (name : input_name) (task : WorkerTask) (joined : worker_result) : turn bool :=
  match wt_rising task, joined with
  | Some _, Some (Ok (RisingSealed _)) => mret true
  | Some context, Some (Ok (RisingEmpty collection)) =>
      rt ← runtime;
      input ← expect (rt_inputs rt !! name);
      recorded ← beside_loop (record_empty_completion self input context collection spool);
      mret (is_ok recorded)
  | _, _ => mret false
  end.

Fixpoint finish_workers (finished : list (input_name * worker_result)) : turn () :=
  match finished with
  | [] => mret tt
  | (name, joined) :: finished =>
      rt ← runtime;
      _ ← (match rt_tasks rt !! name with
        | None => mret tt
        | Some task =>
            _ ← set_tasks (delete name);
            success ← rising_success name task joined;
            complete_now name (if decide (wt_rising task ≠ None ∧ success = true) then None else Some (wt_interval task))
        end);
      finish_workers finished
  end.

(** ** Reload *)

(** A candidate configuration, with its sink ([prepare_hec]). *)
Record ReloadCandidate := mkReload {
  new_config : RuntimeConfig;
  new_inputs : inputs_map;
  new_hec : result DaemonError (option HecClient);
}.

Fixpoint validate_candidate_identities (inputs : list (input_name * PreparedInput)) : task () :=
  match inputs with
  | [] => mret tt
  | (_, input) :: inputs => _ ← validate_candidate_identity self input; validate_candidate_identities inputs
  end.

(** The values of a map of inputs, in its order. *)
Definition values_of (inputs : inputs_map) : list PreparedInput := (in_order inputs).*2.

(** [stop_workers_for_reload]: the tasks end, and every input may run again. *)
Definition stop_workers_for_reload : turn () :=
  _ ← set_tasks (λ _, ∅);
  on_schedule release_all.

Definition install (candidate : ReloadCandidate) (hec : option HecClient) (generations : ConfigurationGenerations)
    (rt : Runtime) : Runtime :=
  mkRuntime (new_config candidate) hec (new_inputs candidate) generations (rt_schedule rt) (rt_tasks rt) ∅
    (rt_instants rt).

(** Whatever stands against the candidate leaves the configuration as it was. *)
Definition apply_reload (candidate : ReloadCandidate) (now : N) : turn () :=
  rt ← runtime;
  match validate_reload_input_identities (rt_inputs rt) (new_inputs candidate) with Err _ => mret tt | Ok _ =>
  configured ← beside_loop (validate_configured_identities self (values_of (new_inputs candidate)));
  match configured with Err _ => mret tt | Ok _ =>
  identities ← beside_loop (validate_candidate_identities (in_order (rising_inputs (new_inputs candidate))));
  match identities with Err _ => mret tt | Ok _ =>
  _ ← stop_workers_for_reload;
  let limits := rc_delivery_limits (rt_config rt) in
  answer ← beside_loop (reconcile_rising_backlog_sync (rt_hec rt) limits (rt_inputs rt));
  match answer with Err _ => mret tt | Ok summary =>
  if decide (needs_collection summary ≠ ∅) then mret tt else
  drained ← beside_loop (drain_spool_backlog (rt_hec rt) limits (rt_inputs rt));
  match drained with Ok true =>
    match activate (new_inputs candidate) (rt_generations rt) with
    | (_, Err e) => mthrow (Fatal e)
    | (generations, Ok _) =>
        match new_hec candidate with
        | Err _ => mret tt
        | Ok hec =>
            _ ← modify (install candidate hec generations);
            on_schedule (sync (runnable_intervals (new_inputs candidate) (needs_collection summary)) now)
        end
    end
  | _ => mret tt end end end end end.

(** ** One turn of the loop

    What the turn meets: the finished workers in the order of their names, whether splunkd
    is still the same process, the reload that is due, and whether the daemon is being
    cancelled.  The answer is [None] when the loop ends, else what was launched. *)
Record Meets := mkMeets {
  met_finished : list (input_name * worker_result);
  met_splunkd : bool;
  met_reload : option ReloadCandidate;
  met_cancelled : bool;
}.

Definition turn_of (meets : Meets) : turn (option (list (input_name * CollectionRun))) :=
  _ ← finish_workers (met_finished meets);
  if negb (met_splunkd meets) then mret None else
  now ← instant_now;
  _ ← (match met_reload meets with None => mret tt | Some candidate => apply_reload candidate now end);
  rt ← runtime;
  backlog_drained ← reconcile_and_drain_backlogs (bool_decide (size (rt_tasks rt) ≠ O)) now;
  launched ← launch_collection_wave (met_cancelled meets) backlog_drained;
  mret (Some launched).
End Runtime.

(** The loop starts without tasks ([run_inner]). *)
Definition Runtime_new (config : RuntimeConfig) (hec : option HecClient) (inputs : inputs_map) (now : N)
    (instants : list N) : result DaemonError Runtime :=
  match activate inputs no_generations with
  | (generations, Ok _) =>
      mret (mkRuntime config hec inputs generations (ScheduleState_new (input_intervals inputs) now) ∅ ∅ instants)
  | (_, Err e) => mthrow e
  end.
