(* ===== verification/RuntimeProps.v ===== *)
(** * What the daemon's loop keeps

    The schedule, the tasks and the inputs stay in step, so that no [expect] of the loop
    fails and no input runs twice; waves respect the capacity and follow a drained backlog. *)

From S2P Require Export Runtime.

Local Open Scope N_scope.
Local Open Scope dbx_scope.

(** ** The invariant between two turns *)
Record runtime_ok (rt : Runtime) : Prop := mkRuntimeOk {
  ro_running : running (rt_schedule rt) = dom (rt_tasks rt);
  ro_due : dom (next_due (rt_schedule rt)) ⊆ dom (rt_inputs rt);
  ro_capacity : (size (rt_tasks rt) ≤ rc_capacity (rt_config rt))%nat;
  ro_mode name task : rt_tasks rt !! name = Some task →
    ∃ input, rt_inputs rt !! name = Some input ∧ (wt_rising task ≠ None ↔ pi_rising input ≠ None);
  ro_generations name input : rt_inputs rt !! name = Some input → pi_rising input = None →
    ∃ g, active (rt_generations rt) !! name = Some (pi_revision_fingerprint input, g);
}.

(** The parts that a wave does not change. *)
Definition same_setting (rt rt' : Runtime) : Prop :=
  rt_config rt' = rt_config rt ∧ rt_hec rt' = rt_hec rt ∧ rt_inputs rt' = rt_inputs rt
  ∧ rt_generations rt' = rt_generations rt.

Section Triples.
Abbreviation turn A := (st (daemon * Runtime) RuntimeError A).

(** From [P], a success ends in [Q]; an error is no panic and keeps the invariant. *)
Definition does {A} (P : Runtime → Prop) (m : turn A) (Q : A → Runtime → Prop) : Prop := ∀ s rt, P rt →
  match m (s, rt) with
  | ((_, rt'), Ok a) => Q a rt'
  | ((_, rt'), Err e) => e ≠ Panicked ∧ runtime_ok rt'
  end.

Lemma does_ret {A} (a : A) (P : Runtime → Prop) (Q : A → Runtime → Prop) : (∀ rt, P rt → Q a rt) → does P (mret a) Q.
Proof. intros HQ s rt HP. by apply HQ. Qed.
Lemma does_bind {A B} P (m : turn A) (f : A → turn B) (M : A → Runtime → Prop) Q :
  does P m M → (∀ a, does (M a) (f a) Q) → does P (m ≫= f) Q.
Proof.
  intros Hm Hf s rt HP. specialize (Hm s rt HP). unfold mbind, st_bind. destruct (m (s, rt)) as [[s1 rt1] [a|e]]; [|done].
  by apply Hf.
Qed.
Lemma does_weaken {A} (P P' : Runtime → Prop) (m : turn A) (Q Q' : A → Runtime → Prop) :
  does P' m Q' → (∀ rt, P rt → P' rt) → (∀ a rt, Q' a rt → Q a rt) → does P m Q.
Proof.
  intros Hm HP HQ s rt H. specialize (Hm s rt (HP _ H)). destruct (m (s, rt)) as [[s1 rt1] [a|e]]; [by apply HQ|done].
Qed.
Lemma does_beside {E A} (m : st daemon E A) P (Q : result E A → Runtime → Prop) :
  (∀ d rt, P rt → Q (m d).2 rt) → does P (beside_loop m) Q.
Proof. intros HQ s rt HP. unfold beside_loop. cbn. specialize (HQ s rt HP). by destruct (m s) as [d r]. Qed.
Lemma does_runtime P : does P runtime (λ a rt, P rt ∧ a = rt).
Proof. by intros s rt HP. Qed.
Lemma does_at {A} P (m : turn A) (Q : A → Runtime → Prop) : (∀ rt0, P rt0 → does (λ rt, rt = rt0) m Q) → does P m Q.
Proof. intros Hm s rt HP. by apply (Hm rt HP s rt). Qed.
Lemma does_modify f P (Q : () → Runtime → Prop) : (∀ rt, P rt → Q tt (f rt)) → does P (modify f) Q.
Proof. intros HQ s rt HP. by apply HQ. Qed.
Lemma does_expect {A} (o : option A) (P : Runtime → Prop) (Q : A → Runtime → Prop) :
  (∀ rt, P rt → ∃ a, o = Some a ∧ Q a rt) → does P (expect o) Q.
Proof. intros HQ s rt HP. destruct (HQ rt HP) as (a & -> & H). done. Qed.
Lemma does_fatal {A} e (Q : A → Runtime → Prop) : does runtime_ok (mthrow (Fatal e)) Q.
Proof. intros s rt HP. by split. Qed.

(** [Instant::now()] moves only the clock. *)
Definition set_instants (l : list N) (rt : Runtime) : Runtime :=
  mkRuntime (rt_config rt) (rt_hec rt) (rt_inputs rt) (rt_generations rt) (rt_schedule rt) (rt_tasks rt)
    (rt_validated rt) l.
Lemma does_instant P (Q : N → Runtime → Prop) : (∀ rt n l, P rt → Q n (set_instants l rt)) → does P instant_now Q.
Proof. intros HQ s rt HP. unfold instant_now. destruct (next_of 0 (rt_instants rt)) as [n l]. by apply HQ. Qed.
End Triples.

(** ** The schedule and the tasks in a wave *)

(** [names] are still to be spawned. *)
Record wave (names : list input_name) (rt : Runtime) : Prop := mkWave {
  wv_running : running (rt_schedule rt) = dom (rt_tasks rt) ∪ list_to_set names;
  wv_names : NoDup names ∧ ∀ name, name ∈ names → name ∉ dom (rt_tasks rt) ∧ name ∈ dom (rt_inputs rt);
  wv_due : dom (next_due (rt_schedule rt)) ⊆ dom (rt_inputs rt);
  wv_capacity : (size (rt_tasks rt) + length names ≤ rc_capacity (rt_config rt))%nat;
  wv_mode name task : rt_tasks rt !! name = Some task →
    ∃ input, rt_inputs rt !! name = Some input ∧ (wt_rising task ≠ None ↔ pi_rising input ≠ None);
  wv_generations name input : rt_inputs rt !! name = Some input → pi_rising input = None →
    ∃ g, active (rt_generations rt) !! name = Some (pi_revision_fingerprint input, g);
}.

Lemma wave_nil rt : wave [] rt ↔ runtime_ok rt.
Proof.
  split.
  - intros [Hr _ Hd Hc Hm Hg]. split; try done; [rewrite Hr; set_solver|cbn in Hc; lia].
  - intros [Hr Hd Hc Hm Hg]. split; try done; [rewrite Hr; set_solver| |cbn; lia].
    split; [constructor|]. by intros ? ?%not_elem_of_nil.
Qed.

Lemma wave_instants names l rt : wave names rt → wave names (set_instants l rt).
Proof. by intros []. Qed.
#[local] Instance same_setting_preorder : PreOrder same_setting.
Proof. split; [done|]. intros a b c (? & ? & ? & ?) (? & ? & ? & ?). split_and!; congruence. Qed.

(** The schedule with [complete], as the loop calls it. *)
Definition completed (name : input_name) (now : N) (interval : option N) (rt : Runtime) : Runtime :=
  mkRuntime (rt_config rt) (rt_hec rt) (rt_inputs rt) (rt_generations rt)
    (schedule_complete name now interval (rt_schedule rt)) (rt_tasks rt) (rt_validated rt) (rt_instants rt).
Lemma completed_due name now interval rt :
  name ∈ dom (rt_inputs rt) → dom (next_due (rt_schedule rt)) ⊆ dom (rt_inputs rt) →
  dom (next_due (schedule_complete name now interval (rt_schedule rt))) ⊆ dom (rt_inputs rt).
Proof. intros Hin Hd. destruct interval; cbn; [rewrite dom_insert|rewrite dom_delete]; set_solver. Qed.

(** A name whose turn is over without a worker. *)
Lemma wave_completed name names now interval rt : wave (name :: names) rt → wave names (completed name now interval rt).
Proof.
  intros [Hr [Hnd Hn] Hd Hc Hm Hg]. apply NoDup_cons in Hnd as [Hni Hnd].
  destruct (Hn name) as [Hname Hin]; [by left|]. split; cbn [completed rt_config rt_inputs rt_generations rt_schedule rt_tasks]; try done.
  - cbn. rewrite Hr. cbn. apply set_eq. intros x. rewrite elem_of_difference, !elem_of_union, elem_of_list_to_set, elem_of_singleton.
    split; [naive_solver|]. intros [Hx|Hx]; (split; [naive_solver|]); intros ->; [by apply Hname|done].
  - split; [done|]. intros x Hx. apply Hn. by right.
  - by apply completed_due.
  - cbn in Hc. lia.
Qed.

(** A name that gets its worker. *)
Lemma wave_spawned name names task input rt :
  wave (name :: names) rt → rt_inputs rt !! name = Some input → (wt_rising task ≠ None ↔ pi_rising input ≠ None) →
  wave names (mkRuntime (rt_config rt) (rt_hec rt) (rt_inputs rt) (rt_generations rt) (rt_schedule rt)
    (<[name := task]> (rt_tasks rt)) (rt_validated rt) (rt_instants rt)).
Proof.
  intros [Hr [Hnd Hn] Hd Hc Hm Hg] Hi Hmode. apply NoDup_cons in Hnd as [Hni Hnd].
  destruct (Hn name) as [Hname _]; [by left|]. split; cbn; try done.
  - rewrite Hr, dom_insert_L. cbn. set_solver.
  - split; [done|]. intros x Hx. destruct (Hn x) as [Hxt Hxi]; [by right|]. split; [|done].
    rewrite dom_insert. intros [->%elem_of_singleton|?]%elem_of_union; [by apply Hni|done].
  - rewrite map_size_insert_None by (by apply not_elem_of_dom). cbn in Hc. lia.
  - intros x t [[<- <-]|[_ Ht]]%lookup_insert_Some; [by exists input|by apply Hm].
Qed.

(** What a launched run has to do with its input. *)
Definition launched_ok (rt : Runtime) (launched : input_name * CollectionRun) : Prop :=
  ∃ input, rt_inputs rt !! launched.1 = Some input ∧ match pi_rising input with
    | Some _ => ∃ context, launched.2 = collection_run context
    | None => ∃ g, active (rt_generations rt) !! launched.1 = Some (pi_revision_fingerprint input, g) ∧ launched.2 = RunBatch g
    end.

Lemma launched_ok_same rt rt' l : same_setting rt rt' → launched_ok rt l → launched_ok rt' l.
Proof. intros (_ & _ & Ei & Eg). unfold launched_ok. by rewrite Ei, Eg. Qed.

Section Wave.
Context `{Sha256, Crypto, HecJson, SerdeJson}.
Context {ConnectorError : Type}.
Context (self : RisingCoordinator) (spool : Spool).
Context (start_tracker tracker_succeeded : task ()) (prepare_rising_contract : PreparedInput → task ()).
Context (rt0 : Runtime).

Definition in_wave (names : list input_name) (tasks : gset input_name) (rt : Runtime) : Prop :=
  wave names rt ∧ same_setting rt0 rt ∧ dom (rt_tasks rt) = tasks.

Lemma does_complete_now name interval P (Q : () → Runtime → Prop) :
  (∀ rt n l, P rt → Q tt (completed name n interval (set_instants l rt))) → does P (complete_now name interval) Q.
Proof using Type.
  intros HQ. unfold complete_now.
  eapply does_bind; [apply (does_instant _ (λ n rt, ∃ rt1 l, P rt1 ∧ rt = set_instants l rt1)); naive_solver|].
  intros now. apply does_modify. intros rt (rt1 & l & HP & ->). by apply HQ.
Qed.
Lemma does_skip {A} name names tasks interval (a : A) Q :
  (∀ rt, in_wave names tasks rt → Q a rt) → does (in_wave (name :: names) tasks) (_ ← complete_now name interval; mret a) Q.
Proof using Type.
  intros HQ. apply (does_bind _ _ _ (λ _, in_wave names tasks)); [|intros []; by apply does_ret]. apply does_complete_now.
  intros rt n l (Hw & Hs & Hd). split; [by apply wave_completed, wave_instants|]. by split.
Qed.

(** The run that is prepared for an input. *)
Definition run_for (name : input_name) (input : PreparedInput) (run : CollectionRun) (context : option RisingPageContext) : Prop :=
  (context ≠ None ↔ pi_rising input ≠ None) ∧ launched_ok rt0 (name, run).

Lemma prepare_run_does name names tasks input :
  rt_inputs rt0 !! name = Some input →
  does (in_wave (name :: names) tasks) (prepare_run self spool prepare_rising_contract name input)
    (λ o rt, match o with
      | None => in_wave names tasks rt
      | Some (run, context) => in_wave (name :: names) tasks rt ∧ run_for name input run context
      end).
Proof using Type.
  intros Hi. unfold prepare_run. destruct (pi_rising input) as [rising|] eqn:Hr.
  - eapply does_bind; [apply does_runtime|]. intros rt.
    eapply does_bind; [instantiate (1 := λ _, in_wave (name :: names) tasks)|].
    { case_decide; [apply does_ret; by intros ? []|apply does_beside; by intros ? ? [] ]. }
    intros [[]|e]; [|by apply does_skip].
    eapply does_bind; [apply (does_modify _ _ (λ _, in_wave (name :: names) tasks))|intros []].
    { intros rt' ([] & Hs & Hd). split; [by split|]. by split. }
    eapply does_bind; [by apply (does_beside _ _ (λ _, in_wave (name :: names) tasks))|].
    intros [[context|]|e]; [|by apply does_skip..].
    apply does_ret. intros rt' Hw. split; [done|]. split; [by rewrite Hr|]. exists input. split; [done|]. rewrite Hr. by exists context.
  - eapply does_bind; [apply does_runtime|]. intros a. apply does_at. intros rt [Hw ->].
    assert (∃ g, active (rt_generations rt) !! name = Some (pi_revision_fingerprint input, g)) as [g Hg].
    { destruct Hw as (Hw & (_ & _ & Ei & _) & _). apply (wv_generations _ _ Hw); [by rewrite Ei|done]. }
    unfold generation_of. rewrite Hg. cbn. apply does_ret. intros ? ->. split; [done|]. split; [by rewrite Hr|].
    destruct Hw as (_ & (_ & _ & _ & Eg) & _). exists input. split; [done|]. rewrite Hr, <- Eg. by exists g.
Qed.

Lemma spawn_workers_does names tasks :
  does (in_wave names tasks) (spawn_workers self spool prepare_rising_contract names)
    (λ launched rt, in_wave [] (tasks ∪ list_to_set launched.*1) rt ∧ sublist launched.*1 names
       ∧ Forall (launched_ok rt0) launched).
Proof using Type.
  revert tasks. induction names as [|name names IH]; intros tasks; cbn [spawn_workers].
  { apply does_ret. intros rt (Hw & Hs & Hd). split; [|split; constructor]. split; [done|]. split; [done|]. cbn. by rewrite union_empty_r_L. }
  eapply does_bind; [apply does_runtime|]. intros a. apply does_at. intros rt [Hw ->].
  destruct (proj2 (wv_names _ _ (proj1 Hw)) name) as [_ [input Hi]%elem_of_dom]; [by left|].
  eapply does_bind; [apply (does_expect _ _ (λ i rt', i = input ∧ rt' = rt)); intros ? ->; by exists input|].
  intros i. apply does_at. intros rt' [-> ->].
  assert (rt_inputs rt0 !! name = Some input) as Hi0 by (destruct Hw as (_ & (_ & _ & <- & _) & _); exact Hi).
  eapply does_bind; [eapply does_weaken; [apply (prepare_run_does name names tasks _ Hi0)|by intros ? ->|by intros ?]|].
  clear rt Hw Hi. intros [[run context]|].
  2: { eapply does_weaken; [apply IH|done|]. intros launched rt (Hw & Hsub & Hl). split; [done|]. split; [by constructor|done]. }
  cbn beta iota.
  eapply does_bind; [apply (does_modify _ _ (λ _ rt, in_wave names ({[name]} ∪ tasks) rt ∧ launched_ok rt0 (name, run)))|].
  { intros rt ((Hw & Hs & Hd) & [Hmode Hlaunch]). split; [|done]. split; [|split; [done|]].
    - eapply wave_spawned; [done| |exact Hmode]. destruct Hs as (_ & _ & -> & _). exact Hi0.
    - cbn. by rewrite dom_insert_L, Hd. }
  intros []. apply does_at. intros rt [Hw Hlaunch].
  eapply does_bind; [eapply does_weaken; [apply (IH ({[name]} ∪ tasks))|by intros ? ->|by intros ?]|].
  intros launched. apply does_ret. intros rt' (Hw' & Hsub & Hl). split; [|split; [by constructor|by constructor]].
  cbn. replace (tasks ∪ ({[name]} ∪ list_to_set launched.*1)) with ({[name]} ∪ tasks ∪ list_to_set launched.*1 : gset input_name); [done|].
  rewrite (union_comm_L {[name]} tasks). by rewrite union_assoc_L.
Qed.
End Wave.

(** ** The schedule between waves *)
Definition synced (intervals : gmap input_name N) (now : N) (rt : Runtime) : Runtime :=
  mkRuntime (rt_config rt) (rt_hec rt) (rt_inputs rt) (rt_generations rt) (sync intervals now (rt_schedule rt))
    (rt_tasks rt) (rt_validated rt) (rt_instants rt).

Lemma sync_due intervals now self : dom (next_due (sync intervals now self)) ⊆ dom intervals.
Proof.
  intros x. unfold sync. cbn. rewrite dom_union, elem_of_union, dom_fmap. intros [[d Hx]%elem_of_dom|?]; [|done].
  apply map_lookup_filter_Some in Hx as [_ Hx]. by apply elem_of_dom.
Qed.
Lemma runnable_dom inputs needs : dom (runnable_intervals inputs needs) ⊆ dom inputs.
Proof. unfold runnable_intervals. rewrite dom_fmap. apply dom_filter_subseteq. Qed.
Lemma intervals_dom inputs : dom (input_intervals inputs) ⊆ dom inputs.
Proof. unfold input_intervals. rewrite dom_fmap. apply dom_filter_subseteq. Qed.

Lemma ok_instants l rt : runtime_ok rt → runtime_ok (set_instants l rt).
Proof. by intros []. Qed.
Lemma ok_synced intervals now rt : runtime_ok rt → dom intervals ⊆ dom (rt_inputs rt) → runtime_ok (synced intervals now rt).
Proof. intros [Hr Hd Hc Hm Hg] Hi. split; cbn; try done. trans (dom intervals); [apply sync_due|done]. Qed.
Lemma ok_completed name now interval rt :
  runtime_ok rt → rt_tasks rt = ∅ → name ∈ dom (rt_inputs rt) → runtime_ok (completed name now interval rt).
Proof.
  intros [Hr Hd Hc Hm Hg] Ht Hi. split; cbn; try done.
  - rewrite Hr, Ht. set_solver.
  - by apply completed_due.
Qed.
Lemma ok_stopped rt : runtime_ok rt →
  runtime_ok (mkRuntime (rt_config rt) (rt_hec rt) (rt_inputs rt) (rt_generations rt) (release_all (rt_schedule rt)) ∅
    (rt_validated rt) (rt_instants rt)).
Proof. intros [Hr Hd Hc Hm Hg]. split; cbn; try done. rewrite map_size_empty. lia. Qed.

(** What is due starts a wave. *)
Lemma ok_wave now rt : runtime_ok rt →
  let (schedule, names) := take_due now (rc_capacity (rt_config rt)) (rt_schedule rt) in
  wave names (mkRuntime (rt_config rt) (rt_hec rt) (rt_inputs rt) (rt_generations rt) schedule (rt_tasks rt)
    (rt_validated rt) (rt_instants rt)).
Proof.
  intros [Hr Hd Hc Hm Hg]. destruct (take_due_names now (rc_capacity (rt_config rt)) (rt_schedule rt)) as (-> & Hnd & Hlen & Hin).
  split; cbn [rt_config rt_inputs rt_generations rt_schedule rt_tasks running next_due]; try done.
  - by rewrite Hr.
  - split; [done|]. intros name (Hrun & d & Hdue & _)%Hin. rewrite <- Hr. split; [done|]. apply Hd. by apply elem_of_dom.
  - rewrite Hlen, Hr, size_dom. lia.
Qed.

Lemma activate_covers inputs generations generations' u :
  activate inputs generations = (generations', Ok u) → ∀ name input, inputs !! name = Some input → pi_rising input = None →
  ∃ g, active generations' !! name = Some (pi_revision_fingerprint input, g).
Proof.
  unfold activate, activate_revisions. destruct (activate_loop _ _ _ _) as [high [next|e]] eqn:Hl; [|done].
  intros [= <- _] name input Hi Hr. destruct (activate_loop_ok _ _ _ _ _ _ (in_order_NoDup _) Hl) as [_ Hin].
  destruct (Hin name (pi_revision_fingerprint input)) as (g & E & _); [|by exists g].
  apply elem_of_in_order. rewrite lookup_fmap. unfold batch_inputs.
  by rewrite (map_lookup_filter_Some_2 _ _ _ _ Hi Hr).
Qed.

(** ** One turn *)
Section Turn.
Context `{Sha256, Crypto, HecJson, SerdeJson}.
Context {ConnectorError : Type}.
Context (self : RisingCoordinator) (spool : Spool).
Context (start_tracker tracker_succeeded : task ()) (prepare_rising_contract : PreparedInput → task ()).

(** The answer of the backlog: everything the spool held was delivered. *)
Definition drained (rt : Runtime) : Prop := ∃ d d',
  drain_spool_backlog spool start_tracker tracker_succeeded (rt_hec rt) (rc_delivery_limits (rt_config rt)) (rt_inputs rt) d
    = (d', Ok true).
Lemma drained_same rt rt' : same_setting rt rt' → drained rt → drained rt'.
Proof using Type. unfold drained. by intros (-> & -> & -> & _). Qed.

(** What a wave has launched: distinct inputs, within the capacity, over a drained backlog. *)
Definition wave_ok (rt : Runtime) (launched : list (input_name * CollectionRun)) : Prop :=
  NoDup launched.*1 ∧ (length launched ≤ rc_capacity (rt_config rt))%nat ∧ Forall (launched_ok rt) launched
  ∧ (launched ≠ [] → dom (rt_tasks rt) = list_to_set launched.*1 ∧ rt_hec rt ≠ None ∧ drained rt).

Lemma wave_ok_nil rt : wave_ok rt [].
Proof using Type. split; [constructor|]. split; [cbn; lia|]. by split; [constructor|]. Qed.

Lemma spawn_due_does rt0 : runtime_ok rt0 → rt_tasks rt0 = ∅ → rt_hec rt0 ≠ None → drained rt0 →
  does (λ rt, rt = rt0) (spawn_due_workers self spool prepare_rising_contract (rc_capacity (rt_config rt0)))
    (λ launched rt, runtime_ok rt ∧ wave_ok rt launched).
Proof using Type.
  intros Hok Ht Hh Hdr. unfold spawn_due_workers.
  eapply does_bind; [apply (does_instant _ (λ _ rt, runtime_ok rt ∧ same_setting rt0 rt ∧ rt_tasks rt = ∅))|].
  { intros rt n l ->. by split; [apply ok_instants|]. }
  intros now. eapply does_bind; [apply does_runtime|]. intros a. apply does_at. intros rt [(Hok' & Hs & Ht') ->].
  pose proof (ok_wave now rt Hok') as Hw. pose proof Hs as (Ec & Eh & Ei & Eg). rewrite Ec in Hw.
  pose proof (take_due_names now (rc_capacity (rt_config rt0)) (rt_schedule rt)) as (Etake & Hnd & Hlen & _). rewrite Etake in *.
  eapply does_bind; [apply (does_modify _ _ (λ _, in_wave rt0 (take (rc_capacity (rt_config rt0) - size (running (rt_schedule rt)))
    (merge_sort due_le (due_entries now (rt_schedule rt)))).*1 ∅))|].
  { intros ? ->. split; [by rewrite Ec|]. split; [done|]. cbn. by rewrite Ht', dom_empty_L. }
  intros []. eapply does_weaken; [apply (spawn_workers_does self spool prepare_rising_contract rt0)|done|].
  intros launched rt' ((Hw' & Hs' & Hd') & Hsub & Hl). rewrite wave_nil in Hw'. split; [done|].
  pose proof Hs' as (Ec' & Eh' & _). split; [by eapply sublist_NoDup|]. split; [|split].
  - rewrite <- (length_fmap fst). etrans; [apply (sublist_length _ _ Hsub)|]. rewrite Hlen, Ec'. lia.
  - eapply Forall_impl; [exact Hl|]. intros x. by apply launched_ok_same.
  - intros _. split; [by rewrite Hd', union_empty_l_L|]. split; [by rewrite Eh'|]. by eapply drained_same.
Qed.

Lemma launch_does cancelled backlog :
  does (λ rt, runtime_ok rt ∧ (backlog = Some true → drained rt))
    (launch_collection_wave self spool prepare_rising_contract cancelled backlog)
    (λ launched rt, runtime_ok rt ∧ wave_ok rt launched).
Proof using Type.
  unfold launch_collection_wave. eapply does_bind; [apply does_runtime|]. intros a. apply does_at. intros rt [[Hok Hb] ->].
  case_decide as Hc; [apply does_ret; intros ? ->; split; [done|apply wave_ok_nil]|].
  destruct (rt_hec rt) as [hec|] eqn:Hh; [|apply does_ret; intros ? ->; split; [done|apply wave_ok_nil] ].
  apply Decidable.not_or in Hc as [_ Hc]. unfold collection_wave_may_start in Hc.
  apply not_false_is_true, bool_decide_eq_true in Hc as [Hsize ->].
  apply spawn_due_does; [done| |by rewrite Hh|by apply Hb]. by apply map_size_empty_inv.
Qed.

(** *** Finished workers *)
Lemma finish_workers_does finished :
  does runtime_ok (finish_workers (ConnectorError := ConnectorError) self spool finished) (λ _, runtime_ok).
Proof using Type.
  clear start_tracker tracker_succeeded prepare_rising_contract. induction finished as [|[name joined] finished IH]; cbn [finish_workers]; [by apply does_ret|].
  eapply does_bind; [apply does_runtime|]. intros a. apply does_at. intros rt [Hok ->].
  eapply does_bind; [|intros ?; exact IH].
  destruct (rt_tasks rt !! name) as [task|] eqn:Ht; [|by apply does_ret; intros ? ->].
  destruct (ro_mode _ Hok _ _ Ht) as (input & Hi & Hmode).
  eapply does_bind; [apply (does_modify _ _ (λ _ rt, wave [name] rt ∧ rt_inputs rt !! name = Some input))|].
  { intros ? ->. split; [|done]. destruct Hok as [Hr Hd Hc Hm Hg].
    split; cbn [rt_config rt_inputs rt_generations rt_schedule rt_tasks]; try done.
    - rewrite Hr, dom_delete_L. apply set_eq. intros x. cbn. rewrite elem_of_union, elem_of_difference, !elem_of_union, elem_of_singleton.
      destruct (decide (x = name)) as [->|]; [|set_solver]. split; [naive_solver|]. intros _. apply elem_of_dom. by eexists.
    - split; [apply NoDup_singleton|]. intros x ->%list_elem_of_singleton. split; [rewrite dom_delete; set_solver|].
      apply elem_of_dom. by eexists.
    - rewrite map_size_delete_Some by (by eexists). cbn.
      assert (size (rt_tasks rt) ≠ O) by (intros E%map_size_empty_inv; rewrite E in Ht; done). lia.
    - intros x t [_ Hx]%lookup_delete_Some. by apply Hm. }
  intros []. eapply (does_bind _ _ _ (λ _, wave [name])).
  - unfold rising_success.
    destruct (wt_rising task) as [context|], joined as [[[]|]|]; try (apply does_ret; by intros ? []).
    eapply does_bind; [apply does_runtime|]. intros a. apply does_at. intros rt1 [[Hw Hi1] ->].
    eapply does_bind; [apply (does_expect _ _ (λ _, wave [name])); intros ? ->; by exists input|]. intros i.
    eapply does_bind; [by apply (does_beside _ _ (λ _, wave [name]))|]. intros recorded. by apply does_ret.
  - intros success. apply does_complete_now. intros rt1 n l Hw. by apply wave_nil, wave_completed, wave_instants.
Qed.

(** *** The backlog *)
Lemma reconcile_rising_names hec limits inputs summary d d' summary' :
  reconcile_rising_loop self spool start_tracker tracker_succeeded hec limits inputs summary d = (d', Ok summary') →
  ∀ name, name ∈ committed_inputs summary' → name ∈ committed_inputs summary ∨ name ∈ inputs.*1.
Proof using Type.
  revert summary d. induction inputs as [|[x input] inputs IH]; intros summary d; cbn [reconcile_rising_loop fmap list_fmap].
  { intros [= <- <-]. by left. }
  intros (outcome & d1 & _ & Hrun)%st_bind_ok name Hname. destruct (IH _ _ Hrun name Hname) as [Hs|Hs]; [|by right; right].
  destruct outcome; cbn in Hs; [by left..|]. apply elem_of_union in Hs as [->%elem_of_singleton|?]; [right; by left|by left].
Qed.

Lemma complete_committed_does rt0 now names :
  (∀ name, name ∈ names → name ∈ dom (rt_inputs rt0)) →
  does (λ rt, runtime_ok rt ∧ rt_tasks rt = ∅ ∧ same_setting rt0 rt) (complete_committed now names)
    (λ _ rt, runtime_ok rt ∧ rt_tasks rt = ∅ ∧ same_setting rt0 rt).
Proof using Type.
  induction names as [|name names IH]; intros Hn; cbn [complete_committed]; [by apply does_ret|].
  eapply does_bind; [apply does_runtime|]. intros a. apply does_at. intros rt [(Hok & Ht & Hs) ->].
  assert (name ∈ dom (rt_inputs rt)) as Hin by (destruct Hs as (_ & _ & -> & _); apply Hn; by left).
  pose proof Hin as [input Hi]%elem_of_dom.
  eapply does_bind; [apply (does_expect _ _ (λ _ rt', rt' = rt)); intros ? ->; by exists input|]. intros i.
  eapply (does_bind _ _ _ (λ _ rt', runtime_ok rt' ∧ rt_tasks rt' = ∅ ∧ same_setting rt0 rt'));
    [apply does_modify|intros ?; apply IH; intros x Hx; apply Hn; by right].
  intros ? ->. split; [by apply ok_completed|]. by split.
Qed.

Lemma reconcile_and_drain_does active now :
  does (λ rt, runtime_ok rt ∧ (active = false → rt_tasks rt = ∅))
    (reconcile_and_drain_backlogs self spool start_tracker tracker_succeeded active now)
    (λ answer rt, runtime_ok rt ∧ (answer = Some true → drained rt)).
Proof using Type.
  unfold reconcile_and_drain_backlogs. destruct active; [apply does_ret; by intros rt [? _]|].
  eapply does_bind; [apply does_runtime|]. intros a. apply does_at. intros rt [[Hok Ht] ->]. specialize (Ht eq_refl).
  eapply does_bind; [apply (does_beside _ _ (λ r rt', rt' = rt
    ∧ ∀ summary name, r = Ok summary → name ∈ committed_inputs summary → name ∈ dom (rt_inputs rt)))|].
  { intros d ? ->. split; [done|]. intros summary name Hrun Hname. destruct (reconcile_rising_backlog_sync _ _ _ _ _ _ _ d) as [d' r] eqn:Hr.
    cbn in Hrun. subst r. destruct (reconcile_rising_names _ _ _ _ _ _ _ Hr name Hname) as [[]%elem_of_empty|Hx].
    apply list_elem_of_fmap in Hx as ([x input] & -> & Hx%elem_of_in_order). cbn.
    apply map_lookup_filter_Some in Hx as [Hx _]. by apply elem_of_dom. }
  intros [summary|e]; [|apply does_ret; by intros ? [-> _]].
  apply does_at. intros ? [-> Hn].
  eapply does_bind; [eapply does_weaken; [apply (complete_committed_does rt now (elements (committed_inputs summary)))|by intros ? ->|by intros ?]|].
  { intros name Hname%elem_of_elements. by apply (Hn summary). }
  intros []. eapply does_bind; [apply (does_modify _ _ (λ _ rt', runtime_ok rt' ∧ same_setting rt rt'))|].
  { intros rt' (Hok' & _ & Hs). split; [|done]. apply ok_synced; [done|]. destruct Hs as (_ & _ & -> & _). apply runnable_dom. }
  intros []. eapply does_bind; [apply (does_beside _ _ (λ r rt', runtime_ok rt' ∧ (r = Ok true → drained rt')))|].
  { intros d rt' [Hok' Hs]. split; [done|]. intros Hr. eapply drained_same; [exact Hs|]. exists d. eexists.
    rewrite <- Hr. apply surjective_pairing. }
  intros [b|e]; apply does_ret; intros ? [? Hd]; (split; [done|]); [|done]. intros [= ->]. by apply Hd.
Qed.

(** *** Reload *)
Lemma does_keep {E A} (m : st daemon E A) P : does P (beside_loop m) (λ _, P).
Proof using Type. by apply (does_beside _ _ (λ _, P)). Qed.

Lemma install_ok candidate hec generations u intervals now rt :
  runtime_ok rt → rt_tasks rt = ∅ → activate (new_inputs candidate) (rt_generations rt) = (generations, Ok u) →
  dom intervals ⊆ dom (new_inputs candidate) → runtime_ok (synced intervals now (install candidate hec generations rt)).
Proof using Type.
  intros [Hr Hd Hc Hm Hg] Ht Ha Hi. split; cbn [synced install rt_config rt_inputs rt_generations rt_schedule rt_tasks].
  - exact Hr.
  - trans (dom intervals); [apply sync_due|done].
  - rewrite Ht, map_size_empty. lia.
  - rewrite Ht. intros name task E. by rewrite lookup_empty in E.
  - by eapply activate_covers.
Qed.

Lemma apply_reload_does candidate now :
  does runtime_ok (apply_reload self spool start_tracker tracker_succeeded candidate now) (λ _, runtime_ok).
Proof using Type.
  unfold apply_reload. eapply does_bind; [apply does_runtime|]. intros a. apply does_at. intros rt [Hok ->].
  destruct (validate_reload_input_identities _ _) as [_|e]; [|by apply does_ret; intros ? ->].
  eapply does_bind; [apply does_keep|]. intros [_|e]; [|by apply does_ret; intros ? ->].
  eapply does_bind; [apply does_keep|]. intros [_|e]; [|by apply does_ret; intros ? ->].
  set (stopped rt' := runtime_ok rt' ∧ rt_tasks rt' = ∅ ∧ same_setting rt rt').
  eapply (does_bind _ _ _ (λ _, stopped)).
  { unfold stop_workers_for_reload.
    eapply does_bind; [apply (does_modify _ _ (λ _ rt', rt' = mkRuntime (rt_config rt) (rt_hec rt) (rt_inputs rt) (rt_generations rt)
      (rt_schedule rt) ∅ (rt_validated rt) (rt_instants rt))); by intros ? ->|]. intros ?.
    apply does_modify. intros ? ->. split; [exact (ok_stopped rt Hok)|]. by split. }
  intros ?. eapply does_bind; [apply does_keep|]. intros [summary|e]; [|by apply does_ret; intros ? []].
  case_decide as Hneeds; [by apply does_ret; intros ? []|].
  eapply does_bind; [apply does_keep|]. intros [[]|e]; [|by apply does_ret; intros ? []..].
  destruct (activate _ _) as [generations [u|e]] eqn:Ha; [|eapply does_weaken; [apply (does_fatal _ (λ _, runtime_ok))|by intros ? []|done] ].
  destruct (new_hec candidate) as [hec|e]; [|by apply does_ret; intros ? []].
  eapply does_bind; [apply (does_modify _ _ (λ _ rt', ∃ rt1, stopped rt1 ∧ rt' = install candidate hec generations rt1)); naive_solver|].
  intros ?. apply does_modify. intros ? (rt1 & (Hok1 & Ht & _ & _ & _ & Eg) & ->).
  eapply install_ok; [done|done|by rewrite Eg|apply runnable_dom].
Qed.

(** *** The whole turn *)
Lemma turn_does meets :
  does runtime_ok
    (turn_of (ConnectorError := ConnectorError) self spool start_tracker tracker_succeeded prepare_rising_contract meets)
    (λ answer rt, runtime_ok rt ∧ ∀ launched, answer = Some launched → wave_ok rt launched).
Proof using Type.
  unfold turn_of. eapply does_bind; [apply finish_workers_does|]. intros ?.
  destruct (negb _); [apply does_ret; intros rt Hok; split; [exact Hok|discriminate]|].
  eapply does_bind; [apply (does_instant _ (λ _, runtime_ok)); intros; by eapply ok_instants|]. intros now.
  eapply (does_bind _ _ _ (λ _, runtime_ok)); [destruct (met_reload _); [apply apply_reload_does|by apply does_ret]|]. intros ?.
  eapply does_bind; [apply does_runtime|]. intros rt1. apply does_at. intros rt [Hok ->].
  eapply does_bind; [eapply does_weaken; [apply reconcile_and_drain_does| |by intros ?]|].
  { intros ? ->. split; [exact Hok|]. intros Hsize%bool_decide_eq_false%dec_stable. by apply map_size_empty_inv. }
  intros backlog. eapply does_bind; [eapply does_weaken; [apply launch_does|done|by intros ?]|].
  intros launched. apply does_ret. intros rt' [Hok' Hw]. split; [done|]. by intros ? [= <-].
Qed.
End Turn.

Lemma Runtime_new_ok config hec inputs now instants rt :
  Runtime_new config hec inputs now instants = Ok rt → runtime_ok rt.
Proof.
  unfold Runtime_new. destruct (activate _ _) as [generations [u|e]] eqn:Ha; [|done]. intros [= <-].
  split; cbn [rt_config rt_inputs rt_generations rt_schedule rt_tasks].
  - cbn. by rewrite dom_empty_L.
  - trans (dom (input_intervals inputs)); [apply sync_due|apply intervals_dom].
  - rewrite map_size_empty. lia.
  - intros name task E. by rewrite lookup_empty in E.
  - by eapply activate_covers.
Qed.

(** The turns that the loop takes from its start. *)
Section Reachable.
Context `{Sha256, Crypto, HecJson, SerdeJson}.
Context {ConnectorError : Type}.
Context (self : RisingCoordinator) (spool : Spool).
Context (start_tracker tracker_succeeded : task ()) (prepare_rising_contract : PreparedInput → task ()).

(** Turns, with whatever they meet and whatever happens beside the loop between them. *)
Inductive loop_reaches : Runtime → Prop :=
  | reaches_start config hec inputs now instants rt :
      Runtime_new config hec inputs now instants = Ok rt → loop_reaches rt
  | reaches_turn rt (meets : Meets (ConnectorError := ConnectorError)) s s' rt' launched :
      loop_reaches rt →
      turn_of self spool start_tracker tracker_succeeded prepare_rising_contract meets (s, rt) = ((s', rt'), Ok (Some launched)) →
      loop_reaches rt'.

Lemma reaches_ok rt : loop_reaches rt → runtime_ok rt.
Proof using Type.
  induction 1 as [|rt meets s s' rt' launched _ IH Hrun]; [by eapply Runtime_new_ok|].
  pose proof (turn_does self spool start_tracker tracker_succeeded prepare_rising_contract meets s rt IH) as Ht.
  rewrite Hrun in Ht. apply Ht.
Qed.

(** C13: in every turn that the daemon's loop takes, whatever workers finished, whichever
    reload came and whatever failed, no [expect] of the loop fails: the scheduled names, the
    running names and the tasks stay in step.  The inputs that a turn launches are distinct,
    as many as the capacity allows, each with the run of its mode (a batch input under the
    active generation of its very revision), and they are launched only while no other
    worker runs, with a sink and after the whole backlog of the spool was delivered. *)
Theorem loop_turn_safe rt meets s :
  loop_reaches rt →
  match turn_of (ConnectorError := ConnectorError) self spool start_tracker tracker_succeeded prepare_rising_contract meets (s, rt) with
  | ((_, rt'), r) => r ≠ Err Panicked ∧ runtime_ok rt' ∧ ∀ launched, r = Ok (Some launched) →
      NoDup launched.*1 ∧ (length launched ≤ rc_capacity (rt_config rt'))%nat ∧ Forall (launched_ok rt') launched
      ∧ (launched ≠ [] → dom (rt_tasks rt') = list_to_set launched.*1 ∧ rt_hec rt' ≠ None
          ∧ drained spool start_tracker tracker_succeeded rt')
  end.
Proof using Type.
  intros Hok%reaches_ok. pose proof (turn_does self spool start_tracker tracker_succeeded prepare_rising_contract meets s rt Hok) as Ht.
  destruct (turn_of _ _ _ _ _ _ _) as [[s' rt'] [answer|e]].
  - destruct Ht as [Hok' Hw]. split; [done|]. split; [done|]. intros launched [= ->]. by apply Hw.
  - destruct Ht as [He Hok']. split; [by intros [= ->]|]. by split.
Qed.
End Reachable.
