(* ===== verification/DaemonDemo.v ===== *)
(** * A rising input from its first page to its commit

    One daemon on a small disk: the spool is opened, the input gets its durable state, a
    page is collected, sealed, adopted, delivered, receipted, compacted and committed, all
    by the definitions of the model.  Witnesses of the theorems on the pipeline. *)

From S2P Require Import StateStoreDemo.
From S2P Require Export RisingCrash SpoolStartup RuntimeProps.

Local Open Scope N_scope.
Local Open Scope dbx_scope.

(** ** Stand-ins for the services *)
#[local] Instance daemon_sha256 : Sha256 := λ l, array_of_list 32 (x01 :: rev l).
#[local] Existing Instance demo_crypto.
#[local] Existing Instance demo_laws.

(** The sink takes every body, with acknowledgement 7. *)
#[local] Instance daemon_hec : HecJson := {|
  raw_value _ := true;
  event_envelope _ _ event_id line := Some (x7b :: take 4 event_id ++ line);
  hec_response body := if decide (body = [x00]) then Some (mkHecResponse 0 (Some 7)) else None;
  ack_request _ := Some [];
  ack_response body := if decide (body = [x01]) then Some {["7" := true]} else None;
|}.
Definition client : HecClient := mkHec true 100 200.
Definition delivery_limits : DeliveryLimits := mkDeliveryLimits 10 200.

(** ** The input *)
Definition demo_spec : TimestampIdCursorSpec := mkSpec [116] [105] (mkDuration 0 0) Reject.
Definition demo_rising : PreparedRising := mkPreparedRising (vreplicate 16 x01) demo_spec (vreplicate 32 x02).
Definition demo_input : PreparedInput :=
  mkPreparedInput (vreplicate 32 x04) (Some demo_rising) (mkPreparedSchedule false 60) (mkEventMetadata [] [] []) (vreplicate 32 x05) (vreplicate 32 x06).
Definition demo_rows : list JsonRow :=
  [mkJsonRow [x61] (Some (mkCursor 1000 1)); mkJsonRow [x62] (Some (mkCursor 1000 2))].
Definition demo_report : CollectionResult :=
  mkCollectionResult [114] 2 4 false (Some (mkCursor 1000 2)) (Some (mkCursor 1000 2)).

(** ** The disk *)
Definition state_root : path := [[x73]].
Definition spool_root : path := [[x70]].
Definition coordinator0 : RisingCoordinator := mkCoordinator (mkStore state_root false).
Definition rising_key : StateKey := state_key demo_rising.
Definition daemon_limits : SpoolLimits := mkLimits 2000 4000 8000.
Definition attempt_random : list byte := replicate 16 x0c.
Definition world0 : world :=
  mkWorld disk0 Accounting_default [Some attempt_random; Some (replicate 16 x0a); Some (replicate 32 x09)] [] [].

Definition value_of {E A} (d : A) (r : result E A) : A := match r with Ok a => a | Err _ => d end.
Lemma value_run {S E A} (d : A) (run : S * result E A) : is_ok run.2 = true → run = (run.1, Ok (value_of d run.2)).
Proof. destruct run as [s [a|e]]; done. Qed.
Lemma run_answer {S E A} (a : A) (run : S * result E A) : run.2 = Ok a → run = (run.1, Ok a).
Proof. destruct run as [s r]. cbn. by intros ->. Qed.

Definition no_spool : Spool := mkSpool [] demo_key daemon_limits 0.
Definition opening := Spool_open spool_root demo_key daemon_limits world0.
Definition spool0 : Spool := value_of no_spool opening.2.
Definition daemon0 : daemon := mkDaemon opening.1 [Some [x00]; Some [x01]] [false] [Some 0; Some 5; Some 6] [] [].
Lemma spool_opening_ok : is_ok opening.2 = true.
Proof. vm_compute. reflexivity. Qed.

(** ** The states of the input

    The codec knows the states that the run goes through; the page is rehearsed to know
    its segment. *)
Definition attempt0 : AttemptId := Eval vm_compute in value_of (vreplicate 16 x00) (generate_uuid_bytes daemon0).2.
Definition context0 : RisingPageContext :=
  mkPageContext 1 0 attempt0 1 (mkRequest demo_spec None None) (pi_input_id demo_input) (pi_revision_fingerprint demo_input).
Definition collect (s : daemon) : daemon * result (WorkerError ()) WorkerCompletion :=
  run_input_inner demo_input (collection_run context0) spool0 client (Ok tt) demo_rows (Ok demo_report) s.
Definition rehearsal := collect (generate_uuid_bytes daemon0).1.
Definition no_ready : ReadySegment :=
  mkReady [] demo_header demo_id (mkSummary 0 0 (vreplicate 32 x00)) 0 RecoveryMetadata_empty 0.
Definition ready0 : ReadySegment := Eval vm_compute in
  hd no_ready (value_of [] (list_ready spool0 (spool_world rehearsal.1)).2).

Definition state0 : DurableInputState := Eval vm_compute in initial_state demo_input demo_rising.
Definition state1 : DurableInputState := Eval vm_compute in value_of state0 (started state0 attempt0).
Definition state2 : DurableInputState := Eval vm_compute in value_of state0 (adopt_orphan state1 demo_input ready0).
Definition state3 : DurableInputState := Eval vm_compute in value_of state0 (with_receipt state2 1).
Definition state4 : DurableInputState := Eval vm_compute in default state0 (value_of None (pruned state3)).
Definition fence0 : AttemptFence := mkFence attempt0 (configuration_id (coordinator state0)) 0.
Definition state5 : DurableInputState := Eval vm_compute in
  (value_of (state0, Recorded) (with_coordinator (delivery_confirmed fence0 2) state4)).1.
Definition state6 : DurableInputState := Eval vm_compute in
  set_active_scan None (value_of (state0, AlreadyCommitted 0) (with_coordinator (commit fence0) state5)).1.
Definition demo_states : list DurableInputState := [state0; state1; state2; state3; state4; state5; state6].

Lemma demo_states_distinct : NoDup demo_states.
Proof. apply (bool_decide_unpack (NoDup demo_states)). vm_compute. exact I. Qed.

Definition position (v : DurableInputState) : option nat := fst <$> list_find (λ s : DurableInputState, s = v) demo_states.
#[local] Instance daemon_json : SerdeJson := {|
  to_vec v := (λ i, [byte_of_N (N.of_nat i)]) <$> position v;
  from_slice p := match p with [b] => demo_states !! N.to_nat (Byte.to_N b) | _ => None end;
|}.
#[local] Instance daemon_json_laws : SerdeJsonLaws.
Proof.
  intros v p (i & Hp & ->)%fmap_Some. apply fmap_Some in Hp as ([j s] & E & ->).
  apply list_find_Some in E as (Hj & -> & _). cbn [fst from_slice daemon_json].
  pose proof (lookup_lt_Some _ _ _ Hj) as Hlt. rewrite <- Hj. f_equal. unfold demo_states in Hlt. cbn [length] in Hlt.
  do 7 (destruct j as [|j]; [reflexivity|]). lia.
Qed.
#[local] Instance daemon_json_widths : SerdeJsonWidths.
Proof.
  intros p v. cbn. destruct p as [|b [|? ?]]; [done| |done]. intros Hv%list_elem_of_lookup_2.
  assert (Forall (λ s, match active_scan s with Some sc => compacted_rows sc < 2 ^ 64 | None => True end) demo_states) as Hall
    by (repeat constructor).
  rewrite Forall_forall in Hall. intros sc Hsc. specialize (Hall v Hv). rewrite Hsc in Hall. ulia.
Qed.

(** ** The run *)
Definition ensuring := ensure_input coordinator0 demo_input spool0 daemon0.
Definition starting := start_or_resume_page coordinator0 demo_input spool0 daemon0.
Definition collecting := collect starting.1.
Definition deliver0 (ready : ReadySegment) : task DeliveredSegment :=
  deliver_ready_segment_sync spool0 ready client delivery_limits.
Definition reconciling := reconcile coordinator0 demo_input spool0 deliver0 collecting.1.

(** ** What the run answers *)

(** Well-formedness as a test. *)
Definition dir_at (t : tree_t) (q : path) : bool := match t !! q with Some (Dir _) => true | _ => false end.
Definition well_formed (t : tree_t) : bool :=
  dir_at t [] && forallb (λ e, dir_at t (default [] (parent e.1))) (map_to_list t).
Lemma dir_at_true t q : dir_at t q = true → is_dir_at t q.
Proof. unfold dir_at, is_dir_at. destruct (t !! q) as [[m| |]|]; eauto; discriminate. Qed.
Lemma well_formed_wf t : well_formed t = true → wf_tree t.
Proof.
  intros [Hr%dir_at_true Hall]%andb_prop. rewrite forallb_forall in Hall. split; [done|]. intros q x n Hn.
  apply elem_of_map_to_list, list_elem_of_In in Hn. specialize (Hall _ Hn). cbn in Hall. rewrite parent_snoc in Hall.
  by apply dir_at_true in Hall.
Qed.
Definition settled (s : daemon) : bool := well_formed (tree (disk (spool_world s))).
Lemma settled_wf s : settled s = true → wf_tree (tree (disk (spool_world s))).
Proof. apply well_formed_wf. Qed.

Lemma starting_ok : starting.2 = Ok (Ready context0).
Proof. vm_compute. reflexivity. Qed.
Lemma collecting_ok : collecting.2 = Ok (RisingSealed demo_report).
Proof. vm_compute. reflexivity. Qed.
Lemma reconciling_ok : reconciling.2 = Ok (ScanCommitted 1 true).
Proof. vm_compute. reflexivity. Qed.
Lemma acknowledged_bodies : length (Daemon.acknowledged reconciling.1) = 1%nat.
Proof. vm_compute. reflexivity. Qed.
Lemma starting_wf : wf_tree (tree (disk (spool_world starting.1))).
Proof. apply settled_wf. vm_compute. reflexivity. Qed.
Lemma collecting_wf : wf_tree (tree (disk (spool_world collecting.1))).
Proof. apply settled_wf. vm_compute. reflexivity. Qed.

(** The page delivered by itself, and drained as a backlog. *)
Definition delivering := deliver0 ready0 collecting.1.
Definition fences0 : ReplayFences := {[pi_input_id demo_input := pi_revision_fingerprint demo_input]}.
Definition draining := drain_ready_segments_sync spool0 (Some client) delivery_limits fences0 ∅ collecting.1.
Definition delivered0 : DeliveredSegment := value_of (from_ready no_ready) delivering.2.
Lemma page_delivering_ok : is_ok delivering.2 = true.
Proof. vm_compute. reflexivity. Qed.
Lemma draining_ok : draining.2 = Ok 2.
Proof. vm_compute. reflexivity. Qed.

(** The rounds of [reconcile] alone, from the adopted page. *)
Definition no_state : StoredState := mkStored state0 (mkToken 0 (vreplicate 32 x00)).
Definition reading := load_current coordinator0 demo_input demo_rising collecting.1.
Definition adopting := exchange coordinator0 rising_key (value_of no_state reading.2) state2 reading.1.
Definition stored2 : StoredState := value_of no_state adopting.2.
Definition pending2 : gmap N LocatedSegment := {[1 := LocatedReady ready0]}.
Definition looping := reconcile_loop coordinator0 2 deliver0 rising_key stored2 demo_input spool0 pending2 adopting.1.
Definition scan2 : ActiveScan := default (initial_scan attempt0 None) (active_scan state2).
Definition page_file : node :=
  default (Link []) (tree (disk (spool_world adopting.1)) !! ready_path ready0).
Lemma adopting_ok : is_ok adopting.2 = true.
Proof. vm_compute. reflexivity. Qed.
Lemma adopting_wf : wf_tree (tree (disk (spool_world adopting.1))).
Proof. apply settled_wf. vm_compute. reflexivity. Qed.
Lemma stored2_value : value stored2 = state2.
Proof. vm_compute. reflexivity. Qed.
Lemma looping_ok : is_ok looping.2 = true.
Proof. vm_compute. reflexivity. Qed.
Lemma page_waits :
  forallb (λ v : tree_t, bool_decide (v !! ready_path ready0 = Some page_file)) (versions (disk (spool_world adopting.1))) = true.
Proof. vm_compute. reflexivity. Qed.

#[local] Strategy expand [starting collecting reconciling delivering draining looping].
Lemma page_delivering_eq :
  deliver_ready_segment_sync spool0 ready0 client delivery_limits collecting.1 = (delivering.1, Ok delivered0).
Proof. exact (value_run _ delivering page_delivering_ok). Qed.
Lemma draining_eq :
  drain_ready_segments_sync spool0 (Some client) delivery_limits fences0 ∅ collecting.1 = (draining.1, Ok 2).
Proof. exact (run_answer _ draining draining_ok). Qed.
Lemma looping_eq :
  reconcile_loop coordinator0 2 (λ ready, deliver_ready_segment_sync spool0 ready client delivery_limits) rising_key
    stored2 demo_input spool0 pending2 adopting.1 = (looping.1, looping.2).
Proof. exact (surjective_pairing looping). Qed.
Lemma collecting_eq :
  (run_input_inner demo_input (collection_run context0) spool0 client (Ok tt) demo_rows (Ok demo_report) starting.1
   : daemon * result (WorkerError ()) WorkerCompletion) = (collecting.1, Ok (RisingSealed demo_report)).
Proof. exact (run_answer _ collecting collecting_ok). Qed.
Lemma reconciling_eq :
  reconcile coordinator0 demo_input spool0 (λ ready, deliver_ready_segment_sync spool0 ready client delivery_limits)
    collecting.1 = (reconciling.1, Ok (ScanCommitted 1 true)).
Proof. exact (run_answer _ reconciling reconciling_ok). Qed.
#[local] Opaque starting collecting reconciling delivering draining looping.

(** ** Witnesses *)


(** The scan of the run is committed after its two events were acknowledged. *)
Lemma committed_scan_was_delivered_witness :
  ∃ scan bodies, complete scan = true
    ∧ Forall2 (page_done spool0 client delivery_limits (in_spool demo_input spool0)) (outstanding scan) bodies
    ∧ Daemon.acknowledged reconciling.1 = Daemon.acknowledged collecting.1 ++ concat bodies
    ∧ length (Daemon.acknowledged reconciling.1) = 1%nat.
Proof.
  destruct (committed_scan_was_delivered coordinator0 demo_input spool0 client delivery_limits collecting.1 reconciling.1 1 true
    collecting_wf reconciling_eq) as (rising & st0 & sc0 & st & sc & orphan & scan & bodies & _ & _ & _ & _ & _ & _ & _ & Hc & Hp & Ha & _).
  exists scan, bodies. split; [exact Hc|]. split; [exact Hp|]. split; [exact Ha|exact acknowledged_bodies].
Defined.

(** The two events of the page were acknowledged. *)
Lemma delivered_only_after_acknowledgement_witness :
  ∃ events bodies, segment_events spool0 (spool_world collecting.1) ready0 events
    ∧ taken client delivery_limits events bodies
    ∧ Daemon.acknowledged delivering.1 = Daemon.acknowledged collecting.1 ++ bodies.
Proof.
  destruct (delivered_only_after_acknowledgement spool0 ready0 client delivery_limits collecting.1 delivering.1 (Ok delivered0)
    collecting_wf page_delivering_eq) as (H & _). exact (H (or_intror eq_refl)).
Defined.

Lemma backlog_is_fenced_witness :
  ∃ (sent : list (list (list byte))) bodies, Daemon.acknowledged draining.1 = Daemon.acknowledged collecting.1 ++ concat bodies
    ∧ 2 = sumN (lengthN <$> sent).
Proof.
  destruct (backlog_is_fenced spool0 (Some client) delivery_limits fences0 ∅ collecting.1 draining.1 (Ok 2)
    collecting_wf draining_eq) as [(_ & _ & e & [=])|(delivered & ready & w2 & w3 & _ & _ & _ & _ & H)].
  destruct (H 2 eq_refl) as (sent & bodies & _ & _ & Ha & Hn). exists sent, bodies. exact (conj Ha Hn).
Defined.

(** The store accepts the adoption of the page. *)
Lemma state1_sound : state_validate state1 = Ok tt ∧ widths_ok state1.
Proof. split; [vm_compute; reflexivity|]. intros sc [= <-]. vm_compute. discriminate. Qed.
Lemma state2_sound : state_validate state2 = Ok tt ∧ widths_ok state2.
Proof. split; [vm_compute; reflexivity|]. intros sc [= <-]. vm_compute. discriminate. Qed.
Definition scan1 : ActiveScan := default (initial_scan attempt0 None) (active_scan state1).
Definition active1 : ActiveAttempt := mkActive fence0 CollInProgress DelInProgress.
Definition metadata0 : RisingRecoveryMetadata :=
  metadata_of demo_report (rising_request_fingerprint (pr_cursor_identity_fingerprint demo_rising) (ctx_cursor_request context0)).


Lemma collected_page_is_adopted_witness :
  ∃ s', adopt_orphan state1 demo_input ready0 = Ok s' ∧ active_scan s' = Some (adopted_scan scan1 ready0 metadata0).
Proof.
  apply (collected_page_is_adopted state1 demo_input demo_rising scan1 active1 context0 ready0 demo_report);
    try (apply state1_sound); try (vm_compute; reflexivity); try (vm_compute; discriminate).
  - vm_compute. repeat split.
Defined.

(** The spool is below another root than the store. *)
Lemma spool_apart x : head x = head spool_root → apart coordinator0 rising_key x.
Proof.
  intros Hx n Ha. destruct x as [|y x]; [discriminate|].
  assert (∃ l, y :: x = [x73] :: l) as [l E]; [|injection E as -> _; discriminate].
  destruct Ha as [[[k E]|E]|[[k E]|[[k E]|[E|E]]]]; try (injection E as -> _ || (cbn in E; injection E as -> _)); by eexists.
Qed.
Lemma pending2_lookup seq located : pending2 !! seq = Some located → 1 = seq ∧ LocatedReady ready0 = located.
Proof. unfold pending2. apply lookup_singleton_Some. Qed.
Lemma page_head : Forall (λ x, head x = head spool_root) (page_paths (LocatedReady ready0)).
Proof. repeat constructor. Qed.

(** The rounds keep the page until its receipt is stored. *)
Lemma pages_survive_until_receipted_witness :
  is_ok looping.2 = true
  ∧ always (λ v, holds_page (LocatedReady ready0) page_file v ∨ receipt_stored coordinator0 rising_key 1 v) looping.1.
Proof.
  split; [exact looping_ok|].
  destruct (pages_survive_until_receipted coordinator0 rising_key spool0 client delivery_limits demo_input 2 stored2 scan2
    pending2 (λ _, page_file) adopting.1 looping.1 looping.2) as [_ H]; [exact adopting_wf|..].
  - rewrite stored2_value. exact state2_sound.
  - rewrite stored2_value. vm_compute. reflexivity.
  - split.
    + intros seq located x [_ <-]%pending2_lookup Hx. apply spool_apart.
      exact (proj1 (Forall_forall _ _) page_head x Hx).
    + intros seq1 seq2 l1 l2 [<- _]%pending2_lookup [<- _]%pending2_lookup Hne. destruct (Hne eq_refl).
  - exact looping_eq.
  - intros seq located _ [_ <-]%pending2_lookup v Hv. pose proof page_waits as Hall.
    rewrite forallb_forall in Hall. exact (bool_decide_eq_true_1 _ (Hall v (proj1 (list_elem_of_In _ _) Hv))).
  - apply (H 1 (LocatedReady ready0)); vm_compute; reflexivity.
Defined.

(** ** The loop over one batch input *)
Definition batch_input : PreparedInput :=
  mkPreparedInput (vreplicate 32 x04) None (mkPreparedSchedule false 60) (mkEventMetadata [] [] []) (vreplicate 32 x05) (vreplicate 32 x06).
Definition no_runtime : Runtime :=
  mkRuntime (mkRuntimeConfig delivery_limits 1) None ∅ no_generations (mkSchedule ∅ ∅) ∅ ∅ [].
Definition starting_loop : result DaemonError Runtime :=
  Runtime_new (mkRuntimeConfig delivery_limits 1) (Some client) {[ [x61] := batch_input; [x62] := batch_input ]} 0 [5; 6].
Definition loop0 : Runtime := value_of no_runtime starting_loop.
Definition meets0 : Meets (ConnectorError := ()) := mkMeets [] true None false.
Definition turning := turn_of coordinator0 spool0 (mret tt) (mret tt) (λ _, mret tt) meets0 (daemon0, loop0).
Lemma turning_ok : turning.2 = Ok (Some [([x61], RunBatch 1)]).
Proof. vm_compute. reflexivity. Qed.

(** With room for one worker the first of two due inputs is launched. *)
Lemma loop_turn_safe_witness :
  turning.2 = Ok (Some [([x61], RunBatch 1)]) ∧ dom (rt_tasks turning.1.2) = list_to_set [ [x61] ]
  ∧ drained spool0 (mret tt) (mret tt) turning.1.2.
Proof.
  split; [exact turning_ok|].
  assert (starting_loop = Ok loop0) as Hstart by reflexivity.
  pose proof (loop_turn_safe (ConnectorError := ()) coordinator0 spool0 (mret tt) (mret tt) (λ _, mret tt) loop0 meets0 daemon0
    (reaches_start _ _ _ _ _ _ _ _ _ _ _ Hstart)) as H.
  fold turning in H. pose proof turning_ok as E. destruct turning as [[s' rt'] r]. cbn [fst snd] in *.
  destruct H as (_ & _ & H). destruct (H _ E) as (_ & _ & _ & Hw). destruct (Hw ltac:(discriminate)) as (Hd & _ & Hdr).
  by split.
Defined.
