(* ===== verification/Text.v ===== *)
(** * Strings, numbers and paths of the standard library

    What the configuration reads of [str], of the integer parsers and of [std::path] on
    Unix: UTF-8, trimming, ASCII tests, decimal numbers, the components of a path. *)

From S2P Require Export Cursor.

Local Open Scope N_scope.
Local Open Scope dbx_scope.

(** ** Text *)

(** A string constant. *)
Definition str (s : string) : rust_string := Byte.to_N <$> String.list_byte_of_string s.

(** The bytes of one scalar value. *)
Definition utf8_char (c : N) : list byte :=
  if decide (c < 128) then [byte_of_N c]
  else if decide (c < 2048) then [byte_of_N (192 + c / 64); byte_of_N (128 + c mod 64)]
  else if decide (c < 65536) then
    [byte_of_N (224 + c / 4096); byte_of_N (128 + c / 64 mod 64); byte_of_N (128 + c mod 64)]
  else [byte_of_N (240 + c / 262144); byte_of_N (128 + c / 4096 mod 64); byte_of_N (128 + c / 64 mod 64);
        byte_of_N (128 + c mod 64)].
(** [str::as_bytes] and [str::len]. *)
Definition utf8_bytes (s : rust_string) : list byte := (s ≫= utf8_char).
Definition str_len (s : rust_string) : N := lengthN (utf8_bytes s).

Definition is_scalar (c : N) : Prop := c < 1114112 ∧ ¬ (55296 ≤ c ∧ c < 57344).
#[global] Instance is_scalar_dec c : Decision (is_scalar c).
Proof. unfold is_scalar. apply _. Defined.
Definition wf_string (s : rust_string) : Prop := Forall is_scalar s.

(** [String::from_utf8]: a character is what encodes to the bytes at hand. *)
Definition utf8_lead (n : N) : nat * N :=
  if decide (n < 128) then (0%nat, n) else if decide (n < 224) then (1%nat, n - 192)
  else if decide (n < 240) then (2%nat, n - 224) else (3%nat, n - 240).
Definition decode_char (l : list byte) : option (N * list byte) :=
  match l with
  | [] => None
  | b :: rest =>
      let '(more, top) := utf8_lead (Byte.to_N b) in
      let c := fold_left (λ acc x, acc * 64 + (Byte.to_N x - 128)) (take more rest) top in
      if decide (is_scalar c ∧ utf8_char c = b :: take more rest) then Some (c, drop more rest) else None
  end.
Fixpoint from_utf8_loop (fuel : nat) (l : list byte) : option rust_string :=
  match l, fuel with
  | [], _ => Some []
  | _, O => None
  | _, S fuel => '(c, rest) ← decode_char l; (c ::.) <$> from_utf8_loop fuel rest
  end.
Definition from_utf8 (l : list byte) : option rust_string := from_utf8_loop (length l) l.

(** [char::is_control]: the category Cc. *)
Definition is_control (c : N) : bool := bool_decide (c < 32 ∨ (127 ≤ c ∧ c < 160)).
Definition is_ascii_alphanumeric (b : byte) : bool :=
  let n := Byte.to_N b in bool_decide ((48 ≤ n ∧ n ≤ 57) ∨ (65 ≤ n ∧ n ≤ 90) ∨ (97 ≤ n ∧ n ≤ 122)).
Definition to_ascii_lowercase (s : rust_string) : rust_string :=
  (λ c, if decide (65 ≤ c ∧ c ≤ 90) then c + 32 else c) <$> s.

(** [str::strip_prefix], [str::starts_with], [str::ends_with], [str::contains]. *)
Definition str_strip_prefix (prefix s : rust_string) : option rust_string :=
  if decide (take (length prefix) s = prefix) then Some (drop (length prefix) s) else None.
Definition str_starts_with (s prefix : rust_string) : bool := starts_with s prefix.
Definition str_ends_with (s suffix : rust_string) : bool := starts_with (reverse s) (reverse suffix).
Definition str_contains (s : rust_string) (c : N) : bool := bool_decide (c ∈ s).

(** ** Decimal numbers: [str::parse] of an unsigned integer *)
Definition digit_value (c : N) : option N := if decide (48 ≤ c ∧ c ≤ 57) then Some (c - 48) else None.
Fixpoint parse_digits (max acc : N) (s : rust_string) : option N :=
  match s with
  | [] => Some acc
  | c :: s =>
      digit ← digit_value c;
      if decide (acc * 10 + digit ≤ max) then parse_digits max (acc * 10 + digit) s else None
  end.
Definition parse_uint (max : N) (s : rust_string) : option N :=
  let digits := match s with 43 :: rest => rest | _ => s end in
  if decide (digits = []) then None else parse_digits max 0 digits.

(** ** Paths *)
Inductive component := RootDir | CurDir | ParentDir | Normal (name : rust_string).
#[global] Instance component_eq_dec : EqDecision component.
Proof. solve_decision. Defined.

(** The text between the separators. *)
Fixpoint split_on (sep : N) (s : rust_string) : list rust_string :=
  match s with
  | [] => [ [] ]
  | c :: s =>
      let parts := split_on sep s in
      if decide (c = sep) then [] :: parts
      else match parts with [] => [ [c] ] | part :: parts => (c :: part) :: parts end
  end.
Definition path_segment (s : rust_string) : option component :=
  if decide (s = [] ∨ s = str ".") then None
  else if decide (s = str "..") then Some ParentDir
  else Some (Normal s).

(** [Path::components]: a dot counts only at the start of a relative path. *)
Definition components (p : rust_string) : list component :=
  let segments := omap path_segment (split_on 47 p) in
  match p with
  | 47 :: _ => RootDir :: segments
  | _ => if decide (head (split_on 47 p) = Some (str ".")) then CurDir :: segments else segments
  end.
Definition is_absolute (p : rust_string) : bool := bool_decide (head p = Some 47).
(** [Path::starts_with] and [==] compare components. *)
Definition path_starts_with (p base : rust_string) : bool := starts_with (components p) (components base).
Definition path_eq (p q : rust_string) : bool := bool_decide (components p = components q).
(** [Path::join]: an absolute argument replaces the path. *)
Definition path_join (p q : rust_string) : rust_string :=
  if is_absolute q then q
  else if decide (p = [] ∨ last p = Some 47) then p ++ q
  else p ++ 47 :: q.

(** ** Lemmas *)
Lemma utf8_char_nonempty c : utf8_char c ≠ [].
Proof. unfold utf8_char. by repeat case_decide. Qed.

(** The digits of a character, six bits each. *)
Lemma six_bits c :
  c = 64 * (c / 64) + c mod 64 ∧ c / 64 = 64 * (c / 4096) + c / 64 mod 64
  ∧ c / 4096 = 64 * (c / 262144) + c / 4096 mod 64 ∧ c mod 64 < 64 ∧ c / 64 mod 64 < 64 ∧ c / 4096 mod 64 < 64.
Proof.
  assert (c / 4096 = c / 64 / 64) as -> by (by rewrite N.Div0.div_div).
  assert (c / 262144 = c / 64 / 64 / 64) as -> by (by rewrite !N.Div0.div_div).
  split_and!; first [by apply N.div_mod|by apply N.mod_lt].
Qed.
Lemma byte_of_N_inj a b : a < 256 → b < 256 → byte_of_N a = byte_of_N b → a = b.
Proof. intros Ha Hb E%(f_equal Byte.to_N). by rewrite !byte_to_of_N, !N.mod_small in E. Qed.

(** A character is known from the bytes that begin with it. *)
Lemma utf8_char_prefix c d l k :
  is_scalar c → is_scalar d → utf8_char c ++ l = utf8_char d ++ k → c = d ∧ l = k.
Proof.
  unfold is_scalar, utf8_char. intros [Hc _] [Hd _]. pose proof (six_bits c) as Hc'. pose proof (six_bits d) as Hd'.
  revert Hc' Hd'. generalize (c / 4096 mod 64); intros c2. generalize (c / 64 mod 64); intros c1.
  generalize (c mod 64); intros c0. generalize (d / 4096 mod 64); intros d2. generalize (d / 64 mod 64); intros d1.
  generalize (d mod 64); intros d0. intros (? & ? & ? & ? & ? & ?) (? & ? & ? & ? & ? & ?).
  repeat case_decide; cbn [app]; intros E; injection E; intros;
    repeat match goal with H : byte_of_N _ = byte_of_N _ |- _ => apply byte_of_N_inj in H; [|lia|lia] end;
    first [split; [lia|assumption]|exfalso; lia].
Qed.

Lemma utf8_bytes_inj s t : wf_string s → wf_string t → utf8_bytes s = utf8_bytes t → s = t.
Proof.
  intros Hs. revert t. induction Hs as [|c s Hc Hs IH]; intros t Ht E.
  - destruct t as [|d t]; [done|]. cbn in E. by apply symmetry, app_nil in E as [[]%utf8_char_nonempty _].
  - destruct Ht as [|d t Hd Ht]; cbn in E; [by apply app_nil in E as [[]%utf8_char_nonempty _]|].
    apply utf8_char_prefix in E as [-> E]; [|done..]. f_equal. by apply IH.
Qed.

Lemma parse_digits_bound max acc s n : acc ≤ max → parse_digits max acc s = Some n → n ≤ max.
Proof.
  revert acc. induction s as [|c s IH]; intros acc Ha; cbn; [by intros [= <-]|].
  destruct (digit_value c); [|done]. cbn. case_decide as Hd; [|done]. by apply IH.
Qed.
Lemma parse_uint_bound max s n : parse_uint max s = Some n → n ≤ max.
Proof. unfold parse_uint. case_decide; [done|]. apply parse_digits_bound. lia. Qed.

Lemma path_starts_with_true p base : path_starts_with p base = true ↔ components base `prefix_of` components p.
Proof. apply starts_with_true. Qed.

(** Reading what was written. *)
Lemma six_bits_bounds c :
  (c < 2048 → c / 64 < 32) ∧ (c < 65536 → c / 4096 < 16) ∧ (c < 1114112 → c / 262144 < 8).
Proof. split_and!; intros Hc; apply N.Div0.div_lt_upper_bound; lia. Qed.

Lemma utf8_lead_spec n :
  (n < 128 → utf8_lead n = (0%nat, n)) ∧ (128 ≤ n → n < 224 → utf8_lead n = (1%nat, n - 192))
  ∧ (224 ≤ n → n < 240 → utf8_lead n = (2%nat, n - 224)) ∧ (240 ≤ n → utf8_lead n = (3%nat, n - 240)).
Proof. unfold utf8_lead. split_and!; intros; repeat case_decide; (done || lia). Qed.

Lemma decode_char_utf8 c rest : is_scalar c → decode_char (utf8_char c ++ rest) = Some (c, rest).
Proof.
  intros Hc. pose proof Hc as [Hmax _]. unfold decode_char.
  destruct (utf8_char c) as [|b l] eqn:E; [by apply utf8_char_nonempty in E|]. cbn [app].
  assert (∀ (more : nat) (top : N), length l = more →
    fold_left (λ acc x, acc * 64 + (Byte.to_N x - 128)) l top = c →
    (let c := fold_left (λ acc x, acc * 64 + (Byte.to_N x - 128)) (take more (l ++ rest)) top in
     if decide (is_scalar c ∧ utf8_char c = b :: take more (l ++ rest)) then Some (c, drop more (l ++ rest)) else None)
    = Some (c, rest)) as Hread.
  { intros more top Hl Hf. cbn zeta. rewrite take_app_length', drop_app_length' by done. rewrite Hf.
    by rewrite decide_True. }
  pose proof (six_bits c) as Hsix. pose proof (six_bits_bounds c) as Hb.
  unfold utf8_char in E. revert Hsix Hb E. generalize (c / 4096 mod 64); intros c2. generalize (c / 64 mod 64); intros c1.
  generalize (c mod 64); intros c0. generalize (c / 64), (c / 4096), (c / 262144). intros q1 q2 q3 (? & ? & ? & ? & ? & ?) (? & ? & ?) E.
  destruct (decide (c < 128)); [|destruct (decide (c < 2048)); [|destruct (decide (c < 65536))] ];
    apply (f_equal (λ l, (head l, tail l))) in E; cbn [head tail] in E; injection E as Eb El;
    subst b; rewrite byte_to_of_N, N.mod_small by lia;
    match goal with |- context [utf8_lead ?n] => destruct (utf8_lead_spec n) as (L0 & L1 & L2 & L3) end;
    [rewrite L0 by lia|rewrite L1 by lia|rewrite L2 by lia|rewrite L3 by lia]; apply Hread; rewrite <- El; try done;
    cbn [fold_left]; rewrite ?byte_to_of_N, ?(N.mod_small (128 + _) 256) by lia; lia.
Qed.

Lemma decode_char_some l c rest : decode_char l = Some (c, rest) → is_scalar c ∧ l = utf8_char c ++ rest.
Proof.
  unfold decode_char. destruct l as [|b l]; [done|].
  destruct (utf8_lead _) as [more top]. case_decide as Hd; [|done]. intros [= <- <-].
  destruct Hd as [Hs Hu]. split; [done|]. rewrite Hu. cbn [app]. by rewrite take_drop.
Qed.
Lemma from_utf8_loop_bytes fuel s : wf_string s → (length (utf8_bytes s) ≤ fuel)%nat → from_utf8_loop fuel (utf8_bytes s) = Some s.
Proof.
  intros Hs. revert fuel. induction Hs as [|c s Hc Hs IH]; intros fuel Hf; [by destruct fuel|].
  assert (utf8_bytes (c :: s) = utf8_char c ++ utf8_bytes s) as Eu by done. rewrite Eu in *. rewrite length_app in Hf.
  pose proof (utf8_char_nonempty c) as Hne. destruct fuel as [|fuel].
  { destruct (utf8_char c); [done|cbn in Hf; lia]. }
  pose proof (decode_char_utf8 c (utf8_bytes s) Hc) as Hd.
  destruct (utf8_char c ++ utf8_bytes s) as [|b l] eqn:El; [by apply app_nil in El as [? _]|].
  cbn [from_utf8_loop]. rewrite Hd. cbn [mbind option_bind]. rewrite IH; [done|].
  destruct (utf8_char c); [done|cbn in Hf; lia].
Qed.

(** A text is read exactly from its bytes. *)
Lemma from_utf8_some l s : from_utf8 l = Some s ↔ utf8_bytes s = l ∧ wf_string s.
Proof.
  split; [|intros [<- Hs]; by apply from_utf8_loop_bytes].
  unfold from_utf8. generalize (length l). intros fuel. revert l s.
  induction fuel as [|fuel IH]; intros [|b l] s; cbn [from_utf8_loop]; try done;
    try (intros [= <-]; split; [done|constructor]).
  destruct (decode_char (b :: l)) as [[c rest]|] eqn:Hd; [|done]. cbn [mbind option_bind].
  apply decode_char_some in Hd as [Hc ->]. destruct (from_utf8_loop fuel rest) as [t|] eqn:Ht; [|done]. intros [= <-].
  apply IH in Ht as [<- Ht]. split; [done|]. by constructor.
Qed.

(** Trimming leaves something exactly when there is something other than white space. *)
Lemma trim_start_nil s : trim_start s = [] ↔ Forall (λ c, is_whitespace c = true) s.
Proof.
  induction s as [|c s IH]; cbn; [split; [constructor|done]|]. rewrite Forall_cons, <- IH.
  destruct (is_whitespace c); naive_solver.
Qed.
Lemma trim_start_head s c : head (trim_start s) = Some c → is_whitespace c = false.
Proof. induction s as [|d s IH]; cbn; [done|]. destruct (is_whitespace d) eqn:Hd; [done|]. cbn. by intros [= <-]. Qed.
Lemma trim_start_suffix s : ∃ k, s = k ++ trim_start s.
Proof.
  induction s as [|c s IH]; cbn; [by exists []|]. destruct (is_whitespace c); [|by exists []].
  destruct IH as [k E]. exists (c :: k). cbn. by rewrite <- E.
Qed.
Lemma trim_head s c : head (trim s) = Some c → is_whitespace c = false.
Proof.
  unfold trim. destruct (trim_start_suffix (reverse (trim_start s))) as [k E].
  apply (f_equal reverse) in E. rewrite reverse_involutive, reverse_app in E. intros Hh. apply (trim_start_head s).
  rewrite E. destruct (reverse (trim_start (reverse (trim_start s)))); [done|exact Hh].
Qed.
Lemma trim_not_nil s c : head s = Some c → is_whitespace c = false → trim s ≠ [].
Proof.
  intros Hh Hc. destruct s as [|d s]; [done|]. injection Hh as ->. unfold trim. cbn [trim_start]. rewrite Hc.
  intros E. apply (f_equal reverse) in E. rewrite reverse_involutive in E. apply trim_start_nil in E.
  rewrite Forall_reverse, Forall_cons in E. destruct E as [E _]. by rewrite Hc in E.
Qed.
Lemma trim_trimmed s : trim s ≠ [] → trim (trim s) ≠ [].
Proof.
  intros Hne. destruct (trim s) as [|c l] eqn:E; [done|]. apply (trim_not_nil _ c); [done|].
  apply (trim_head s). by rewrite E.
Qed.

(** ** More of [str] *)

(** [str::trim_end], [str::strip_suffix] of one character, [str::eq_ignore_ascii_case],
    [str::encode_utf16().count()]. *)
Definition trim_end (s : rust_string) : rust_string := reverse (trim_start (reverse s)).
Definition strip_suffix_char (c : N) (s : rust_string) : option rust_string :=
  match reverse s with d :: rest => if decide (d = c) then Some (reverse rest) else None | [] => None end.
Definition eq_ignore_ascii_case (s t : rust_string) : bool := bool_decide (to_ascii_lowercase s = to_ascii_lowercase t).
Definition utf16_count (s : rust_string) : N := sumN ((λ c, if decide (c < 65536) then 1 else 2) <$> s).
(** [u8::is_ascii_alphabetic], [u8::is_ascii_digit]. *)
Definition is_ascii_alphabetic (b : byte) : bool :=
  let n := Byte.to_N b in bool_decide ((65 ≤ n ∧ n ≤ 90) ∨ (97 ≤ n ∧ n ≤ 122)).
Definition is_ascii_digit (b : byte) : bool := let n := Byte.to_N b in bool_decide (48 ≤ n ∧ n ≤ 57).
(** [&s[a..b]] at character boundaries; elsewhere it panics. *)
Definition str_slice (a b : nat) (s : rust_string) : option rust_string := from_utf8 (slice a b (utf8_bytes s)).

Lemma utf8_bytes_app s t : utf8_bytes (s ++ t) = utf8_bytes s ++ utf8_bytes t.
Proof. apply bind_app. Qed.
Lemma trim_end_suffix s : ∃ k, s = trim_end s ++ k ∧ Forall (λ c, is_whitespace c = true) k.
Proof.
  unfold trim_end. assert (∀ l, ∃ k, l = k ++ trim_start l ∧ Forall (λ c, is_whitespace c = true) k) as Hs.
  { induction l as [|c l (k & E & Hk)]; cbn; [by exists []|]. destruct (is_whitespace c) eqn:Hc.
    - exists (c :: k). split; [by rewrite E at 1|by constructor].
    - exists []. split; [done|constructor]. }
  destruct (Hs (reverse s)) as (k & E & Hk). exists (reverse k). split; [|by apply Forall_reverse].
  rewrite <- reverse_app, <- E. by rewrite reverse_involutive.
Qed.
