(* ===== verification/Sdk.v ===== *)
(** * The connector contract (crates/dbx-rs-connector-sdk/src/contract.rs, error.rs, model.rs)

    The requests and results that pass between the daemon and a connector, the schema of
    a query, and the two operations of a connector the collection path calls. *)

From S2P Require Export Text.

Local Open Scope N_scope.
Local Open Scope dbx_scope.

(** ** Errors (error.rs): without the message *)
Inductive ErrorClass :=
  | Configuration | Dns | Tcp | Tls | Authentication | Protocol | Query | Conversion
  | Timeout | Cancelled | Internal.
Record ConnectorError := mkConnectorError {
  ce_code : string;
  ce_class : ErrorClass;
  ce_sql_state : option rust_string;
  ce_retryable : bool;
  ce_configuration_error : bool;
}.
Definition ConnectorError_new (code : string) (class : ErrorClass) (retryable configuration_error : bool) : ConnectorError :=
  mkConnectorError code class None retryable configuration_error.
Definition ConnectorError_cancelled (code : string) : ConnectorError := ConnectorError_new code Cancelled true false.
Definition with_sql_state (sql_state : rust_string) (self : ConnectorError) : ConnectorError :=
  mkConnectorError (ce_code self) (ce_class self) (Some sql_state) (ce_retryable self) (ce_configuration_error self).

(** An index out of range ends the task; no connector reports this code. *)
Definition panicked : ConnectorError := ConnectorError_new "panic" Internal false false.

(** ** The schema of a query *)
Inductive FieldType :=
  | FT_Boolean | FT_Int8 | FT_Int16 | FT_Int32 | FT_Int64 | FT_UInt32 | FT_Float32 | FT_Float64
  | FT_Utf8 | FT_Binary | FT_Uuid | FT_Json
  | FT_Decimal128 (precision : N) (scale : Z)
  | FT_Date32 | FT_Time64Microsecond | FT_TimestampMicrosecond | FT_TimestampMicrosecondUtc.
Record FieldDescriptor := mkField {
  fd_name : rust_string;
  fd_field_type : FieldType;
  fd_nullable : bool;
  fd_source_type : rust_string;
}.
Abbreviation QuerySchema := (list FieldDescriptor).

#[global] Instance ErrorClass_eq_dec : EqDecision ErrorClass.
Proof. solve_decision. Defined.
#[global] Instance ConnectorError_eq_dec : EqDecision ConnectorError.
Proof. solve_decision. Defined.
#[global] Instance FieldType_eq_dec : EqDecision FieldType.
Proof. solve_decision. Defined.
#[global] Instance FieldDescriptor_eq_dec : EqDecision FieldDescriptor.
Proof. solve_decision. Defined.

(** ** Connections (model.rs) *)
Inductive TlsMode := TlsDisable | TlsRequire | TlsVerifyCa | TlsVerifyFull.
#[global] Instance TlsMode_eq_dec : EqDecision TlsMode.
Proof. solve_decision. Defined.
Definition parse_tls_mode (value : rust_string) : option TlsMode :=
  if decide (value = str "disable") then Some TlsDisable
  else if decide (value = str "require") then Some TlsRequire
  else if decide (value = str "verify-ca") then Some TlsVerifyCa
  else if decide (value = str "verify-full") then Some TlsVerifyFull
  else None.
Record ConnectionConfig := mkConnection {
  cc_connector_id : rust_string;
  cc_host : rust_string;
  cc_port : N;
  cc_database : rust_string;
  cc_username : rust_string;
  cc_tls_mode : TlsMode;
  cc_tls_server_name : option rust_string;
  cc_tls_ca_pem : option (list byte);
  cc_connect_timeout : Duration;
  cc_probe_timeout : Duration;
}.

(** What a validation reports, without the messages. *)
Inductive ValidationSeverity := SeverityWarning | SeverityError.
#[global] Instance ValidationSeverity_eq_dec : EqDecision ValidationSeverity.
Proof. solve_decision. Defined.
Record ValidationIssue := mkIssue { vi_code : string; vi_field : string; vi_severity : ValidationSeverity }.
Abbreviation ValidationReport := (list ValidationIssue).
Definition is_valid (self : ValidationReport) : bool :=
  negb (existsb (λ issue, bool_decide (vi_severity issue = SeverityError)) self).

(** ** Requests and results *)
Record ExecutionLimits := mkExecutionLimits {
  el_max_rows : N;
  el_max_batch_rows : N;
  el_max_batch_bytes : N;
  el_max_total_ipc_bytes : N;
  el_timeout : Duration;
}.
Record ValidationRequest := mkValidationRequest {
  vr_connection : ConnectionConfig;
  vr_query : option rust_string;
  vr_max_rows : option N;
  vr_cursor : option TimestampIdCursorSpec;
}.
Record PrepareRequest := mkPrepareRequest {
  pq_request_id : rust_string;
  pq_connection : ConnectionConfig;
  pq_query : rust_string;
  pq_max_rows : N;
  pq_timeout : Duration;
  pq_cursor : option TimestampIdCursorRequest;
}.
Record PreparedQuery := mkPreparedQuery {
  pd_request_id : rust_string;
  pd_connector_id : rust_string;
  pd_schema : QuerySchema;
}.
Record ExecuteRequest := mkExecuteRequest {
  er_request_id : rust_string;
  er_connection : ConnectionConfig;
  er_query : rust_string;
  er_limits : ExecutionLimits;
  er_expected_schema : option QuerySchema;
  er_cursor : option TimestampIdCursorRequest;
}.
Record ArrowIpcBatch := mkIpcBatch {
  ib_request_id : rust_string;
  ib_sequence : N;
  ib_row_count : N;
  ib_schema : QuerySchema;
  ib_ipc_bytes : list byte;
}.
Record ExecutionResult := mkExecutionResult {
  ex_request_id : rust_string;
  ex_rows_read : N;
  ex_batches_emitted : N;
  ex_ipc_bytes_emitted : N;
  ex_truncated : bool;
  ex_schema : QuerySchema;
}.

(** [Connector]: what a connector answers to [prepare], and the batches [execute] sends
    before its result. *)
Record Connector := mkConnector {
  con_prepare : PrepareRequest → result ConnectorError PreparedQuery;
  con_execute : ExecuteRequest → list ArrowIpcBatch * result ConnectorError ExecutionResult;
}.

(** [Duration] is ordered by its seconds, then by its nanoseconds. *)
Definition duration_lt (a b : Duration) : Prop := secs a < secs b ∨ (secs a = secs b ∧ nanos a < nanos b).
#[global] Instance duration_lt_dec a b : Decision (duration_lt a b).
Proof. unfold duration_lt. apply _. Defined.
