(* ===== verification/Arrow.v ===== *)
(** * Arrow batches, their IPC streams, and calendar values

    The types of the libraries that connectors and the daemon exchange rows in.  An array
    is a sequence of nullable values of one type; the IPC encoding, the calendar and the
    JSON of scalars are parameters. *)

From S2P Require Export Sdk.

Local Open Scope N_scope.
Local Open Scope dbx_scope.

(** ** Data types and arrays (arrow_schema, arrow_array) *)
Inductive TimeUnit := Second | Millisecond | Microsecond | Nanosecond.
Inductive DataType :=
  | DT_Boolean | DT_Int8 | DT_Int16 | DT_Int32 | DT_Int64 | DT_UInt32 | DT_Float32 | DT_Float64
  | DT_Utf8 | DT_Binary
  | DT_Decimal128 (precision : N) (scale : Z)
  | DT_Date32
  | DT_Time64 (unit : TimeUnit)
  | DT_Timestamp (unit : TimeUnit) (timezone : option rust_string)
  | DT_Other (name : rust_string).
Record Field := mkArrowField { af_name : rust_string; af_data_type : DataType; af_nullable : bool }.
Abbreviation Schema := (list Field).

#[global] Instance TimeUnit_eq_dec : EqDecision TimeUnit.
Proof. solve_decision. Defined.
#[global] Instance DataType_eq_dec : EqDecision DataType.
Proof. solve_decision. Defined.
#[global] Instance Field_eq_dec : EqDecision Field.
Proof. solve_decision. Defined.

(** Floats are their bits; the unscaled value of a decimal is an [i128]. *)
Inductive Array :=
  | BooleanArray (values : list (option bool))
  | Int8Array (values : list (option Z))
  | Int16Array (values : list (option Z))
  | Int32Array (values : list (option Z))
  | Int64Array (values : list (option Z))
  | UInt32Array (values : list (option Z))
  | Float32Array (values : list (option N))
  | Float64Array (values : list (option N))
  | StringArray (values : list (option rust_string))
  | BinaryArray (values : list (option (list byte)))
  | Decimal128Array (precision : N) (scale : Z) (values : list (option Z))
  | Date32Array (values : list (option Z))
  | Time64MicrosecondArray (values : list (option Z))
  | TimestampMicrosecondArray (timezone : option rust_string) (values : list (option Z))
  | OtherArray (data_type : rust_string) (valid : list bool).

(** [Array::data_type]; which slots hold a value. *)
Definition data_type (a : Array) : DataType :=
  match a with
  | BooleanArray _ => DT_Boolean
  | Int8Array _ => DT_Int8
  | Int16Array _ => DT_Int16
  | Int32Array _ => DT_Int32
  | Int64Array _ => DT_Int64
  | UInt32Array _ => DT_UInt32
  | Float32Array _ => DT_Float32
  | Float64Array _ => DT_Float64
  | StringArray _ => DT_Utf8
  | BinaryArray _ => DT_Binary
  | Decimal128Array p s _ => DT_Decimal128 p s
  | Date32Array _ => DT_Date32
  | Time64MicrosecondArray _ => DT_Time64 Microsecond
  | TimestampMicrosecondArray tz _ => DT_Timestamp Microsecond tz
  | OtherArray name _ => DT_Other name
  end.
Definition valid {A} (values : list (option A)) : list bool := (λ v, bool_decide (is_Some v)) <$> values.
Definition validity (a : Array) : list bool :=
  match a with
  | BooleanArray l => valid l
  | Int8Array l | Int16Array l | Int32Array l | Int64Array l | UInt32Array l | Date32Array l
  | Time64MicrosecondArray l | TimestampMicrosecondArray _ l | Decimal128Array _ _ l => valid l
  | Float32Array l | Float64Array l => valid l
  | StringArray l => valid l
  | BinaryArray l => valid l
  | OtherArray _ l => l
  end.

Record RecordBatch := mkBatch { rb_schema : Schema; rb_columns : list Array; rb_num_rows : N }.

(** [RecordBatch::try_new]: one array per field, of its type and all of one length, and
    without nulls where the field has none; a batch without columns is refused. *)
Definition array_matches (num_rows : N) (field : Field) (a : Array) : bool :=
  bool_decide (data_type a = af_data_type field) && bool_decide (lengthN (validity a) = num_rows)
  && (af_nullable field || forallb id (validity a)).
Definition RecordBatch_try_new (schema : Schema) (columns : list Array) : option RecordBatch :=
  match columns with
  | [] => None
  | first :: _ =>
      let num_rows := lengthN (validity first) in
      if decide (length schema = length columns) then
        if forallb (λ '(field, a), array_matches num_rows field a) (zip schema columns)
        then Some (mkBatch schema columns num_rows) else None
      else None
  end.
(** What holds of every batch the library hands out. *)
Definition batch_wf (b : RecordBatch) : Prop :=
  Forall2 (λ field a, data_type a = af_data_type field ∧ lengthN (validity a) = rb_num_rows b
    ∧ (af_nullable field = false → Forall (λ v, v = true) (validity a))) (rb_schema b) (rb_columns b).

(** ** IPC streams (arrow_ipc)

    A reader that opened: its schema, what successive calls of [next] return ([None] for
    an error), and where the reader stands after two of them.  A writer is the chunks it
    hands to its sink, one [write_all] each. *)
Record ipc_stream := mkStream {
  stream_schema : Schema;
  stream_items : list (option RecordBatch);
  stream_position : N;
}.
Class ArrowIpc := {
  StreamReader_try_new : list byte → option ipc_stream;
  StreamWriter_chunks : RecordBatch → option (list (list byte));
}.
Definition IPC_END_MARKER : list byte := [xff; xff; xff; xff; x00; x00; x00; x00].
(** What the library documents: a written stream reads back to its batch, to its end, and
    a batch that was read is one the library can hand out. *)
Class ArrowIpcLaws `{ArrowIpc} : Prop := {
  stream_reads_back b chunks :
    batch_wf b → StreamWriter_chunks b = Some chunks →
    StreamReader_try_new (concat chunks) = Some (mkStream (rb_schema b) [Some b] (lengthN (concat chunks)))
    ∧ IPC_END_MARKER `suffix_of` concat chunks;
  stream_batches_wf bytes s b :
    StreamReader_try_new bytes = Some s → Some b ∈ stream_items s → batch_wf b ∧ rb_schema b = stream_schema s;
}.

(** The values of an array that was read are those of its type. *)
Definition in_width (lo hi : Z) (o : option Z) : Prop := match o with Some v => (lo ≤ v ≤ hi)%Z | None => True end.
Definition signed_width (bits : Z) : option Z → Prop := in_width (- 2 ^ (bits - 1)) (2 ^ (bits - 1) - 1).
Definition array_fits (a : Array) : Prop :=
  match a with
  | Int8Array l => Forall (signed_width 8) l
  | Int16Array l => Forall (signed_width 16) l
  | Int32Array l | Date32Array l => Forall (signed_width 32) l
  | Int64Array l | Time64MicrosecondArray l | TimestampMicrosecondArray _ l => Forall (signed_width 64) l
  | UInt32Array l => Forall (in_width 0 (2 ^ 32 - 1)) l
  | Decimal128Array _ _ l => Forall (signed_width 128) l
  | _ => True
  end.
Class ArrowIpcWidths `{ArrowIpc} : Prop :=
  stream_batches_fit bytes s b : StreamReader_try_new bytes = Some s → Some b ∈ stream_items s → Forall array_fits (rb_columns b).

(** ** Calendar values (chrono) *)
Class Chrono := {
  NaiveDate : Type;
  NaiveTime : Type;
  NaiveDateTime : Type;
  num_days_from_ce : NaiveDate → Z;
  num_seconds_from_midnight : NaiveTime → N;
  time_nanosecond : NaiveTime → N;
  datetime_nanosecond : NaiveDateTime → N;
  datetime_year : NaiveDateTime → Z;
  timestamp_micros : NaiveDateTime → Z;
  from_timestamp_micros : Z → option NaiveDateTime;
  date32_to_datetime : Z → option NaiveDateTime;
  time64us_to_time : Z → option NaiveTime;
  timestamp_us_to_datetime : Z → option NaiveDateTime;
  datetime_format : string → NaiveDateTime → rust_string;
  time_format : string → NaiveTime → rust_string;
}.

(** ** JSON of scalars (serde_json) *)
Inductive json_scalar :=
  | JsonString (value : rust_string)
  | JsonBool (value : bool)
  | JsonInt (value : Z)
  | JsonFloat (bits : N).
Class SerdeScalars := {
  json_scalar_bytes : json_scalar → option (list byte);
  RawValue_from_string : rust_string → option (list byte);
}.

(** ** Floats: IEEE 754 by their bits *)
Definition f64_is_finite (bits : N) : bool := bool_decide (bits / 2 ^ 52 mod 2048 ≠ 2047).
Definition f32_is_finite (bits : N) : bool := bool_decide (bits / 2 ^ 23 mod 256 ≠ 255).
(** [f64::from(f32)]: exact; a subnormal becomes normal. *)
Definition f64_from_f32 (bits : N) : N :=
  let sign := bits / 2 ^ 31 in
  let exponent := bits / 2 ^ 23 mod 256 in
  let mantissa := bits mod 2 ^ 23 in
  sign * 2 ^ 63 +
  (if decide (exponent = 255) then 2047 * 2 ^ 52 + mantissa * 2 ^ 29
   else if decide (exponent ≠ 0) then (exponent + 896) * 2 ^ 52 + mantissa * 2 ^ 29
   else if decide (mantissa = 0) then 0
   else (N.log2 mantissa + 874) * 2 ^ 52 + (mantissa - 2 ^ N.log2 mantissa) * 2 ^ (52 - N.log2 mantissa)).

(** ** Lemmas *)
Lemma forallb_zip_Forall2 {A B} (p : A → B → bool) l k :
  length l = length k → forallb (λ '(a, b), p a b) (zip l k) = true → Forall2 (λ a b, p a b = true) l k.
Proof.
  revert k. induction l as [|a l IH]; intros [|b k] Hl H; cbn in *; try done.
  apply andb_true_iff in H as [? ?]. constructor; [done|]. apply IH; [lia|done].
Qed.

Lemma RecordBatch_try_new_wf schema columns b :
  RecordBatch_try_new schema columns = Some b →
  batch_wf b ∧ rb_schema b = schema ∧ rb_columns b = columns ∧ ∃ first, head columns = Some first
  ∧ rb_num_rows b = lengthN (validity first).
Proof.
  unfold RecordBatch_try_new. destruct columns as [|first rest]; [done|]. case_decide as Hl; [|done].
  case_match eqn:E; [|done]. intros [= <-]. split; [|naive_solver].
  apply forallb_zip_Forall2 in E; [|done]. unfold batch_wf. cbn [rb_schema rb_columns rb_num_rows].
  eapply Forall2_impl; [exact E|]. intros field a Hm. unfold array_matches in Hm.
  rewrite !andb_true_iff, !bool_decide_eq_true, orb_true_iff, forallb_forall in Hm.
  destruct Hm as ((? & ?) & Hn). split_and!; [done..|]. intros Hf. rewrite Hf in Hn. destruct Hn as [|Hn]; [done|].
  apply Forall_forall. intros v Hv. apply Hn. by apply list_elem_of_In.
Qed.

Lemma length_valid {A} (l : list (option A)) : length (valid l) = length l.
Proof. apply length_fmap. Qed.
