(* ===== verification/Config.v ===== *)
(** * The effective configuration (crates/dbx-rs-config/src/lib.rs)

    Two layered files in INI syntax become typed, bounded settings.  The INI parser is
    the crate configparser: what it has read is given by the observations the code makes of it. *)

From stdpp Require Export sorting lexico.
From S2P Require Export Text.

Local Open Scope N_scope.
Local Open Scope dbx_scope.

(** ** Limits *)
Definition HARD_LOG_FILE_BYTES : N := 10000000.
Definition HARD_HEC_EVENT_BYTES : N := 10000000.
Definition HARD_HEC_BATCH_BYTES : N := 10000000.
Definition HARD_INPUT_ROWS : N := 100000.
Definition HARD_INPUT_BYTES : N := 1024 * 1024 * 1024.
Definition HARD_SPOOL_SEGMENT_BYTES : N := 1024 * 1024 * 1024.
Definition HARD_SPOOL_INPUT_BYTES : N := 100 * 1024 * 1024 * 1024.
Definition HARD_SPOOL_TOTAL_BYTES : N := 1024 * 1024 * 1024 * 1024.
Definition HARD_INTERVAL_SECONDS : N := 365 * 24 * 60 * 60.
Definition HARD_OPERATION_SECONDS : N := 24 * 60 * 60.
Definition SPOOL_EVENT_OVERHEAD_BYTES : N := 1024.
Definition SPOOL_FORMAT_OVERHEAD_BYTES : N := 4096.
Definition MAX_QUERY_BYTES : N := 1024 * 1024.
Definition MAX_TLS_CA_BYTES : N := 1024 * 1024.
Definition MAX_LABEL_BYTES : N := 128.
Definition MAX_POSTGRES_IDENTIFIER_BYTES : N := 63.

(** ** Data *)

(** Paths are texts; see [Text.components]. *)
Record PathsConfig := mkPaths {
  log_file : rust_string;
  splunkd_pid_file : rust_string;
  instance_lock_file : rust_string;
  master_key_file : rust_string;
  secret_dir : rust_string;
  deployment_identity_file : rust_string;
  deployment_receipt_dir : rust_string;
  hec_token_file : rust_string;
  hec_server_pem_file : rust_string;
  hec_ca_file : rust_string;
  spool_key_file : rust_string;
  state_dir : rust_string;
  spool_dir : rust_string;
  managed_inputs_file : rust_string;
}.
Record LoggingConfig := mkLogging { max_file_bytes : N; backup_count : N }.

(** [NonZeroUsize] is a positive number. *)
Inductive WorkerLimit := Auto | Fixed (configured : positive).
Definition effective (self : WorkerLimit) (available_parallelism : positive) : positive :=
  match self with
  | Auto => available_parallelism
  | Fixed configured => Pos.min configured available_parallelism
  end.

Record DaemonConfig := mkDaemonConfig {
  poll_interval : Duration;
  shutdown_grace : Duration;
  configuration_reload : Duration;
  max_workers : WorkerLimit;
}.
Record SpoolConfig := mkSpoolConfig {
  cfg_segment_max_bytes : N;
  cfg_input_max_bytes : N;
  cfg_total_max_bytes : N;
}.

Inductive HecState := HecEnabled | HecDisabled.
#[global] Instance HecState_eq_dec : EqDecision HecState.
Proof. solve_decision. Defined.
Inductive HecInputManagement := Managed | External.
Inductive TlsVerification := VerificationFull | VerificationDisabled.
Inductive IndexerAcknowledgment := AckEnabled | AckDisabled.

Record HecConfig := mkHecConfig {
  hec_state : HecState;
  input_management : HecInputManagement;
  hec_url : rust_string;
  hec_input_name : rust_string;
  listen_port : N;
  accept_from : rust_string;
  tls_verification : TlsVerification;
  hec_timeout : Duration;
  cfg_batch_max_events : N;
  cfg_batch_max_bytes : N;
  cfg_max_event_bytes : N;
  hec_index : rust_string;
  hec_sourcetype : rust_string;
  hec_source : rust_string;
  acknowledgment : IndexerAcknowledgment;
}.
Record GenericConfig := mkGeneric {
  g_paths : PathsConfig;
  g_logging : LoggingConfig;
  g_daemon : DaemonConfig;
  g_spool : SpoolConfig;
  g_hec : HecConfig;
}.

Record RisingInputConfig := mkRisingInput {
  ri_input_id : array 16;
  ri_timestamp_field : rust_string;
  ri_id_field : rust_string;
  ri_overlap : Duration;
}.
#[global] Instance Duration_eq_dec : EqDecision Duration.
Proof. solve_decision. Defined.
#[global] Instance RisingInputConfig_eq_dec : EqDecision RisingInputConfig.
Proof. solve_decision. Defined.
Inductive CollectionMode := BatchMode | RisingMode (rising : RisingInputConfig).
#[global] Instance CollectionMode_eq_dec : EqDecision CollectionMode.
Proof. solve_decision. Defined.
Inductive QuerySource := FileQuery (file : rust_string) | Inline (query : rust_string).

Record InputConfig := mkInput {
  ic_name : rust_string;
  ic_disabled : bool;
  ic_mode : CollectionMode;
  ic_connector : rust_string;
  ic_interval : Duration;
  ic_host : rust_string;
  ic_port : N;
  ic_database : rust_string;
  ic_username : rust_string;
  ic_secret_ref : rust_string;
  ic_tls_mode : rust_string;
  ic_tls_server_name : option rust_string;
  ic_tls_ca_file : option rust_string;
  ic_query : QuerySource;
  ic_connect_timeout : Duration;
  ic_probe_timeout : Duration;
  ic_max_rows : N;
  ic_max_bytes : N;
  ic_query_timeout : Duration;
  ic_index : rust_string;
  ic_sourcetype : rust_string;
  ic_source : rust_string;
}.
Record EffectiveConfig := mkEffective { ec_generic : GenericConfig; ec_inputs : list InputConfig }.

Record ConfigError := mkConfigError { ce_code : string; ce_field : string }.

(** What [configparser::ini::Ini] answers: its sections with their keys, in the order of
    its map, and the value of a key. *)
Record Ini := mkIni {
  get_map_ref : list (rust_string * list rust_string);
  ini_get : rust_string → rust_string → option rust_string;
}.

Record PathRoots := mkRoots { app_home : rust_string; splunk_home : rust_string }.

Abbreviation parse A := (result ConfigError A).
Definition seconds (n : N) : Duration := mkDuration n 0.
Definition milliseconds (n : N) : Duration := mkDuration (n / 1000) (n mod 1000 * 1000000).

(** ** Values *)
Definition optional (ini : Ini) (section : rust_string) (key : string) : option rust_string :=
  trim <$> ini_get ini section (str key).
(** [Option::filter] of texts that are not empty. *)
Definition filled (o : option rust_string) : option rust_string :=
  match o with Some [] => None | _ => o end.
Definition required (ini : Ini) (section : rust_string) (key : string) : parse rust_string :=
  ok_or (mkConfigError "DBX-RS-CFG-0024" key) (filled (optional ini section key)).
Definition required_nonempty (ini : Ini) (section : rust_string) (key : string) : parse rust_string :=
  value ← required ini section key;
  reject (mkConfigError "DBX-RS-CFG-0025" key) when (512 < str_len value ∨ existsb is_control value = true);;
  mret value.

Definition label_byte (b : byte) : bool :=
  is_ascii_alphanumeric b || bool_decide (Byte.to_N b ∈ str "-_.:/+").
Definition valid_label_value (value : rust_string) : bool :=
  bool_decide (value ≠ []) && bool_decide (str_len value ≤ MAX_LABEL_BYTES) && forallb label_byte (utf8_bytes value).
Definition validate_label (value : rust_string) (field : string) : parse () :=
  reject (mkConfigError "DBX-RS-CFG-0026" field) when (valid_label_value value = false);;
  mret tt.
Definition required_label (ini : Ini) (section : rust_string) (key : string) : parse rust_string :=
  value ← required ini section key;
  _ ← validate_label value key;
  mret value.
Definition optional_label (ini : Ini) (section : rust_string) (key : string) : parse (option rust_string) :=
  match optional ini section key with
  | Some value => _ ← validate_label value key; mret (Some value)
  | None => mret None
  end.

Definition required_bool (ini : Ini) (section : rust_string) (key : string) : parse bool :=
  value ← required ini section key;
  let value := to_ascii_lowercase value in
  if decide (value ∈ str <$> ["true"; "yes"; "1"; "on"]) then mret true
  else if decide (value ∈ str <$> ["false"; "no"; "0"; "off"]) then mret false
  else mthrow (mkConfigError "DBX-RS-CFG-0027" key).
Definition required_uint (max : N) (code : string) (ini : Ini) (section : rust_string) (key : string) : parse N :=
  value ← required ini section key;
  ok_or (mkConfigError code key) (parse_uint max value).
Definition required_u64 := required_uint u64_max "DBX-RS-CFG-0028".
Definition required_u16 := required_uint u16_max "DBX-RS-CFG-0029".
Definition required_u8 := required_uint 255 "DBX-RS-CFG-0030".
Definition required_usize := required_uint u64_max "DBX-RS-CFG-0031".
Definition required_nonzero_duration (ini : Ini) (section : rust_string) (key : string) : parse Duration :=
  value ← required_u64 ini section key;
  reject (mkConfigError "DBX-RS-CFG-0038" key) when (¬ (1 ≤ value ∧ value ≤ HARD_OPERATION_SECONDS));;
  mret (seconds value).

(** ** Paths *)
Definition expand_path (value : rust_string) (roots : PathRoots) (field : string) : parse rust_string :=
  let '(path, allowed_root) :=
    if decide (value = str "$DBX_RS_APP_HOME") then (app_home roots, app_home roots)
    else match str_strip_prefix (str "$DBX_RS_APP_HOME/") value with
    | Some relative => (path_join (app_home roots) relative, app_home roots)
    | None =>
        if decide (value = str "$SPLUNK_HOME") then (splunk_home roots, splunk_home roots)
        else match str_strip_prefix (str "$SPLUNK_HOME/") value with
        | Some relative => (path_join (splunk_home roots) relative, splunk_home roots)
        | None => (value, splunk_home roots)
        end
    end in
  reject (mkConfigError "DBX-RS-CFG-0032" field) when (ParentDir ∈ components path);;
  reject (mkConfigError "DBX-RS-CFG-0033" field) when (is_absolute path = false);;
  reject (mkConfigError "DBX-RS-CFG-0042" field) when (path_starts_with path allowed_root = false);;
  mret path.
Definition required_path (ini : Ini) (section : rust_string) (key : string) (roots : PathRoots) : parse rust_string :=
  value ← required ini section key;
  expand_path value roots key.
Definition required_var_path (ini : Ini) (section : rust_string) (key : string) (roots : PathRoots) : parse rust_string :=
  path ← required_path ini section key roots;
  reject (mkConfigError "DBX-RS-CFG-0043" key)
    when (path_starts_with path (path_join (splunk_home roots) (str "var")) = false);;
  mret path.
Definition required_runtime_path (ini : Ini) (section : rust_string) (key : string) (roots : PathRoots) : parse rust_string :=
  path ← required_path ini section key roots;
  let runtime_root := path_join (splunk_home roots) (str "var/run/splunk/dbx-rs") in
  reject (mkConfigError "DBX-RS-CFG-0044" key)
    when (path_eq path runtime_root = true ∨ path_starts_with path runtime_root = false);;
  mret path.
Definition optional_path (ini : Ini) (section : rust_string) (key : string) (roots : PathRoots)
    : parse (option rust_string) :=
  match filled (optional ini section key) with
  | Some value => Some <$> expand_path value roots key
  | None => mret None
  end.
Definition optional_asset_path (ini : Ini) (section : rust_string) (key : string) (roots : PathRoots)
    (asset_root : rust_string) (error_code : string) : parse (option rust_string) :=
  path ← optional_path ini section key roots;
  reject (mkConfigError error_code key)
    when (is_some_and (λ path, path_eq path asset_root || negb (path_starts_with path asset_root)) path = true);;
  mret path.

(** ** The generic file *)
Definition GENERIC_SECTIONS : list (string * list string) := [
  ("paths", ["log_file"; "splunkd_pid_file"; "instance_lock_file"; "master_key_file"; "secret_dir";
    "deployment_identity_file"; "deployment_receipt_dir"; "hec_token_file"; "hec_server_pem_file"; "hec_ca_file";
    "spool_key_file"; "state_dir"; "spool_dir"; "managed_inputs_file"]);
  ("logging", ["max_file_bytes"; "backup_count"]);
  ("daemon", ["poll_interval_ms"; "shutdown_grace_secs"; "configuration_reload_secs"; "max_workers"]);
  ("spool", ["segment_max_bytes"; "input_max_bytes"; "total_max_bytes"]);
  ("hec", ["enabled"; "manage_input"; "url"; "input_name"; "listen_port"; "accept_from"; "verify_tls"; "timeout_secs";
    "batch_max_events"; "batch_max_bytes"; "max_event_bytes"; "index"; "sourcetype"; "source"; "use_ack"])].

Fixpoint validate_generic_loop (sections : list (rust_string * list rust_string)) : parse () :=
  match sections with
  | [] => mret tt
  | (section, keys) :: sections =>
      match snd <$> list_find (λ candidate : string * list string, str candidate.1 = section) GENERIC_SECTIONS with
      | None => mthrow (mkConfigError "DBX-RS-CFG-0003" "section")
      | Some (_, allowed_keys) =>
          reject (mkConfigError "DBX-RS-CFG-0004" "setting") when (¬ (keys ⊆ str <$> allowed_keys));;
          validate_generic_loop sections
      end
  end.
Definition validate_generic_keys (ini : Ini) : parse () := validate_generic_loop (get_map_ref ini).

Definition parse_worker_limit (value : rust_string) : parse WorkerLimit :=
  if decide (value = str "auto") then mret Auto
  else match parse_uint u64_max value with
  | Some (Npos configured) => mret (Fixed configured)
  | _ => mthrow (mkConfigError "DBX-RS-CFG-0023" "daemon.max_workers")
  end.

Definition parse_paths (ini : Ini) (roots : PathRoots) : parse PathsConfig :=
  let paths := str "paths" in
  log ← required_var_path ini paths "log_file" roots;
  pid ← required_var_path ini paths "splunkd_pid_file" roots;
  lock ← required_runtime_path ini paths "instance_lock_file" roots;
  master ← required_var_path ini paths "master_key_file" roots;
  secret ← required_var_path ini paths "secret_dir" roots;
  identity ← required_var_path ini paths "deployment_identity_file" roots;
  receipt ← required_var_path ini paths "deployment_receipt_dir" roots;
  token ← required_var_path ini paths "hec_token_file" roots;
  pem ← required_var_path ini paths "hec_server_pem_file" roots;
  ca ← required_var_path ini paths "hec_ca_file" roots;
  key ← required_var_path ini paths "spool_key_file" roots;
  state ← required_var_path ini paths "state_dir" roots;
  spool ← required_var_path ini paths "spool_dir" roots;
  managed ← required_path ini paths "managed_inputs_file" roots;
  mret (mkPaths log pid lock master secret identity receipt token pem ca key state spool managed).

Definition parse_logging (ini : Ini) : parse LoggingConfig :=
  bytes ← required_u64 ini (str "logging") "max_file_bytes";
  reject (mkConfigError "DBX-RS-CFG-0005" "logging.max_file_bytes")
    when (¬ (4096 ≤ bytes ∧ bytes ≤ HARD_LOG_FILE_BYTES));;
  backups ← required_u8 ini (str "logging") "backup_count";
  reject (mkConfigError "DBX-RS-CFG-0006" "logging.backup_count") when (20 < backups);;
  mret (mkLogging bytes backups).

Definition parse_daemon (ini : Ini) : parse DaemonConfig :=
  let daemon := str "daemon" in
  poll_interval_ms ← required_u64 ini daemon "poll_interval_ms";
  reject (mkConfigError "DBX-RS-CFG-0007" "daemon.poll_interval_ms")
    when (¬ (100 ≤ poll_interval_ms ∧ poll_interval_ms ≤ 60000));;
  max_workers ← required ini daemon "max_workers" ≫= parse_worker_limit;
  shutdown_grace_secs ← required_u64 ini daemon "shutdown_grace_secs";
  reject (mkConfigError "DBX-RS-CFG-0036" "daemon.shutdown_grace_secs")
    when (¬ (1 ≤ shutdown_grace_secs ∧ shutdown_grace_secs ≤ 300));;
  configuration_reload_secs ← required_u64 ini daemon "configuration_reload_secs";
  reject (mkConfigError "DBX-RS-CFG-0037" "daemon.configuration_reload_secs")
    when (¬ (1 ≤ configuration_reload_secs ∧ configuration_reload_secs ≤ 3600));;
  mret (mkDaemonConfig (milliseconds poll_interval_ms) (seconds shutdown_grace_secs) (seconds configuration_reload_secs)
    max_workers).

Definition parse_spool (ini : Ini) : parse SpoolConfig :=
  let spool := str "spool" in
  segment_max ← required_u64 ini spool "segment_max_bytes";
  reject (mkConfigError "DBX-RS-CFG-0050" "spool.segment_max_bytes")
    when (¬ (4096 ≤ segment_max ∧ segment_max ≤ HARD_SPOOL_SEGMENT_BYTES));;
  input_max ← required_u64 ini spool "input_max_bytes";
  reject (mkConfigError "DBX-RS-CFG-0051" "spool.input_max_bytes")
    when (input_max < segment_max ∨ HARD_SPOOL_INPUT_BYTES < input_max);;
  total_max ← required_u64 ini spool "total_max_bytes";
  reject (mkConfigError "DBX-RS-CFG-0052" "spool.total_max_bytes")
    when (total_max < input_max ∨ HARD_SPOOL_TOTAL_BYTES < total_max);;
  mret (mkSpoolConfig segment_max input_max total_max).

Definition accept_byte (b : byte) : bool :=
  is_ascii_alphanumeric b || bool_decide (Byte.to_N b ∈ str ".:/,! -").
Definition https_event_url (url : rust_string) : bool :=
  str_starts_with url (str "https://") && negb (str_contains url 64)
  && str_ends_with url (str "/services/collector/event").
Definition local_url (url : rust_string) : bool :=
  str_starts_with url (str "https://localhost:") || str_starts_with url (str "https://127.0.0.1:")
  || str_starts_with url (str "https://[::1]:").

Definition parse_hec (ini : Ini) : parse HecConfig :=
  let hec := str "hec" in
  enabled ← required_bool ini hec "enabled";
  url ← required ini hec "url";
  reject (mkConfigError "DBX-RS-CFG-0008" "hec.url") when (enabled = true ∧ https_event_url url = false);;
  input_name ← required_label ini hec "input_name";
  port ← required_u16 ini hec "listen_port";
  accept ← required ini hec "accept_from";
  reject (mkConfigError "DBX-RS-CFG-0041" "hec.accept_from")
    when (512 < str_len accept ∨ forallb accept_byte (utf8_bytes accept) = false);;
  batch_max_events ← required_usize ini hec "batch_max_events";
  reject (mkConfigError "DBX-RS-CFG-0009" "hec.batch_max_events")
    when (batch_max_events = 0 ∨ 10000 < batch_max_events);;
  batch_max_bytes ← required_u64 ini hec "batch_max_bytes";
  reject (mkConfigError "DBX-RS-CFG-0010" "hec.batch_max_bytes")
    when (¬ (1 ≤ batch_max_bytes ∧ batch_max_bytes ≤ HARD_HEC_BATCH_BYTES));;
  max_event_bytes ← required_u64 ini hec "max_event_bytes";
  reject (mkConfigError "DBX-RS-CFG-0011" "hec.max_event_bytes")
    when (¬ (1 ≤ max_event_bytes ∧ max_event_bytes ≤ HARD_HEC_EVENT_BYTES) ∨ batch_max_bytes < max_event_bytes);;
  timeout_secs ← required_u64 ini hec "timeout_secs";
  reject (mkConfigError "DBX-RS-CFG-0034" "hec.timeout_secs")
    when (¬ (1 ≤ timeout_secs ∧ timeout_secs ≤ HARD_OPERATION_SECONDS));;
  verify_tls ← required_bool ini hec "verify_tls";
  reject (mkConfigError "DBX-RS-CFG-0035" "hec.verify_tls") when (verify_tls = false ∧ local_url url = false);;
  manage_input ← required_bool ini hec "manage_input";
  index ← required_label ini hec "index";
  sourcetype ← required_label ini hec "sourcetype";
  source ← required_label ini hec "source";
  use_ack ← required_bool ini hec "use_ack";
  mret (mkHecConfig (if enabled then HecEnabled else HecDisabled) (if (manage_input : bool) then Managed else External)
    url input_name port accept (if verify_tls then VerificationFull else VerificationDisabled)
    (seconds timeout_secs) batch_max_events batch_max_bytes max_event_bytes index sourcetype source
    (if (use_ack : bool) then AckEnabled else AckDisabled)).

Definition parse_generic (ini : Ini) (roots : PathRoots) : parse GenericConfig :=
  paths ← parse_paths ini roots;
  logging ← parse_logging ini;
  daemon ← parse_daemon ini;
  spool ← parse_spool ini;
  hec ← parse_hec ini;
  mret (mkGeneric paths logging daemon spool hec).

(** ** The inputs *)
Definition has_setting (ini : Ini) (section : rust_string) (key : string) : bool :=
  existsb (λ entry, bool_decide (entry.1 = section ∧ str key ∈ entry.2)) (get_map_ref ini).

Definition validate_cursor_field (value : rust_string) (code field : string) : parse () :=
  reject (mkConfigError code field)
    when (value = [] ∨ MAX_POSTGRES_IDENTIFIER_BYTES < str_len value ∨ existsb is_control value = true);;
  mret tt.

(** [lowercase_hex_nibble] is [Bytes.hex_value].  The loop of [parse_rising_input_id] over
    the bytes and their index: a pending high nibble, and the bytes so far. *)
Fixpoint rising_id_loop (index : nat) (value : list byte) (high : option N) (bytes : list byte) : option (list byte) :=
  match value with
  | [] => if decide (length bytes = 16%nat ∧ high = None) then Some bytes else None
  | byte :: value =>
      if decide (index ∈ [8; 13; 18; 23]%nat) then
        if decide (byte = x2d) then rising_id_loop (S index) value high bytes else None
      else
        nibble ← hex_value byte;
        match high with
        | Some high =>
            if decide (length bytes < 16)%nat
            then rising_id_loop (S index) value None (bytes ++ [byte_of_N (N.lor (N.shiftl high 4) nibble)]) else None
        | None => rising_id_loop (S index) value (Some nibble) bytes
        end
  end.
Definition parse_rising_input_id (value : rust_string) : option (array 16) :=
  if decide (str_len value ≠ 36) then None else
  bytes ← rising_id_loop 0 (utf8_bytes value) None [];
  if decide (bytes = replicate 16 x00) then None else Some (array_of_list 16 bytes).

Definition parse_rising_input (ini : Ini) (section : rust_string) : parse RisingInputConfig :=
  let invalid code field := mkConfigError code field in
  input_id ← ok_or (invalid "DBX-RS-CFG-0056" "input.input_id")
    (result_ok (required ini section "input_id") ≫= parse_rising_input_id);
  timestamp_field ← map_err (λ _, invalid "DBX-RS-CFG-0057" "input.cursor_timestamp_field")
    (required ini section "cursor_timestamp_field");
  _ ← validate_cursor_field timestamp_field "DBX-RS-CFG-0057" "input.cursor_timestamp_field";
  id_field ← map_err (λ _, invalid "DBX-RS-CFG-0058" "input.cursor_id_field") (required ini section "cursor_id_field");
  _ ← validate_cursor_field id_field "DBX-RS-CFG-0058" "input.cursor_id_field";
  reject (invalid "DBX-RS-CFG-0058" "input.cursor_id_field") when (timestamp_field = id_field);;
  overlap_secs ← (if has_setting ini section "cursor_overlap_secs"
    then ok_or (invalid "DBX-RS-CFG-0059" "input.cursor_overlap_secs")
      (result_ok (required ini section "cursor_overlap_secs") ≫= parse_uint u64_max)
    else mret 0);
  reject (invalid "DBX-RS-CFG-0059" "input.cursor_overlap_secs") when (HARD_INTERVAL_SECONDS < overlap_secs);;
  mret (mkRisingInput input_id timestamp_field id_field (seconds overlap_secs)).

Definition RISING_KEYS : list string := ["input_id"; "cursor_timestamp_field"; "cursor_id_field"; "cursor_overlap_secs"].
Definition parse_collection_mode (ini : Ini) (section : rust_string) : parse CollectionMode :=
  mode ← (if has_setting ini section "mode"
    then map_err (λ _, mkConfigError "DBX-RS-CFG-0054" "input.mode") (required ini section "mode")
    else mret (str "batch"));
  if decide (mode = str "batch") then
    reject (mkConfigError "DBX-RS-CFG-0055" "input.mode") when (existsb (has_setting ini section) RISING_KEYS = true);;
    mret BatchMode
  else if decide (mode = str "rising") then RisingMode <$> parse_rising_input ini section
  else mthrow (mkConfigError "DBX-RS-CFG-0054" "input.mode").

Definition query_namespace (connector : rust_string) : string :=
  if decide (connector = str "mariadb") then "mariadb" else if decide (connector = str "mssql") then "mssql"
  else if decide (connector = str "mysql") then "mysql" else if decide (connector = str "oracle") then "oracle"
  else if decide (connector = str "postgres") then "psql" else "unsupported".

Definition parse_query_source (ini : Ini) (section : rust_string) (roots : PathRoots) (connector : rust_string)
    : parse QuerySource :=
  let inline := filled (optional ini section "query") in
  file ← optional_asset_path ini section "query_file" roots
    (path_join (path_join (app_home roots) (str "queries")) (str (query_namespace connector))) "DBX-RS-CFG-0048";
  match inline, file with
  | Some _, Some _ => mthrow (mkConfigError "DBX-RS-CFG-0046" "input.query")
  | None, None => mthrow (mkConfigError "DBX-RS-CFG-0045" "input.query")
  | Some query, None =>
      reject (mkConfigError "DBX-RS-CFG-0047" "input.query")
        when (MAX_QUERY_BYTES < str_len query ∨ str_contains query 0 = true);;
      mret (Inline query)
  | None, Some path => mret (FileQuery path)
  end.

Definition CONNECTORS : list rust_string := str <$> ["mariadb"; "mssql"; "mysql"; "oracle"; "postgres"].

(** What a segment needs for the rows and the bytes that an input may collect. *)
Definition required_segment_bytes (max_rows max_bytes : N) : option N :=
  overhead ← checked_mul max_rows SPOOL_EVENT_OVERHEAD_BYTES;
  bytes ← checked_add overhead max_bytes;
  checked_add bytes SPOOL_FORMAT_OVERHEAD_BYTES.

Definition parse_input (ini : Ini) (name : rust_string) (roots : PathRoots) (generic : GenericConfig) : parse InputConfig :=
  mode ← parse_collection_mode ini name;
  connector ← required_label ini name "connector";
  reject (mkConfigError "DBX-RS-CFG-0014" "input.connector") when (connector ∉ CONNECTORS);;
  reject (mkConfigError "DBX-RS-CFG-0061" "input.mode") when (connector = str "oracle" ∧ mode ≠ BatchMode);;
  max_rows ← required_u64 ini name "max_rows";
  reject (mkConfigError "DBX-RS-CFG-0015" "input.max_rows") when (¬ (1 ≤ max_rows ∧ max_rows ≤ HARD_INPUT_ROWS));;
  max_bytes ← required_u64 ini name "max_bytes";
  reject (mkConfigError "DBX-RS-CFG-0016" "input.max_bytes") when (¬ (1 ≤ max_bytes ∧ max_bytes ≤ HARD_INPUT_BYTES));;
  required_bytes ← ok_or (mkConfigError "DBX-RS-CFG-0053" "input.spool_bound") (required_segment_bytes max_rows max_bytes);
  reject (mkConfigError "DBX-RS-CFG-0053" "input.spool_bound") when (cfg_segment_max_bytes (g_spool generic) < required_bytes);;
  interval_secs ← required_u64 ini name "interval_secs";
  reject (mkConfigError "DBX-RS-CFG-0019" "input.interval_secs")
    when (¬ (1 ≤ interval_secs ∧ interval_secs ≤ HARD_INTERVAL_SECONDS));;
  secret_ref ← required ini name "secret_ref";
  reject (mkConfigError "DBX-RS-CFG-0020" "input.secret_ref")
    when (is_some_and valid_label_value (str_strip_prefix (str "local:") secret_ref) = false);;
  tls_mode ← required ini name "tls_mode";
  reject (mkConfigError "DBX-RS-CFG-0021" "input.tls_mode") when (tls_mode ∉ str <$> ["disable"; "verify-full"]);;
  port ← required_u16 ini name "port";
  reject (mkConfigError "DBX-RS-CFG-0022" "input.port") when (port = 0);;
  connect_timeout ← required_nonzero_duration ini name "connect_timeout_secs";
  probe_timeout ← required_nonzero_duration ini name "probe_timeout_secs";
  query_timeout ← required_nonzero_duration ini name "query_timeout_secs";
  disabled ← required_bool ini name "disabled";
  host ← required_nonempty ini name "host";
  database ← required_nonempty ini name "database";
  username ← required_nonempty ini name "username";
  tls_ca_file ← optional_asset_path ini name "tls_ca_file" roots
    (path_join (path_join (app_home roots) (str "certs")) (str (query_namespace connector))) "DBX-RS-CFG-0049";
  query ← parse_query_source ini name roots connector;
  index ← optional_label ini name "index";
  sourcetype ← optional_label ini name "sourcetype";
  source ← optional_label ini name "source";
  mret (mkInput name disabled mode connector (seconds interval_secs) host port database username secret_ref tls_mode
    (optional ini name "tls_server_name") tls_ca_file query connect_timeout probe_timeout max_rows max_bytes query_timeout
    (default (hec_index (g_hec generic)) index) (default (hec_sourcetype (g_hec generic)) sourcetype)
    (default (hec_source (g_hec generic)) source)).

Definition SECRET_KEYS : list rust_string := str <$> ["password"; "secret"; "token"; "connection_string"].
Definition ALLOWED_KEYS : list rust_string := str <$> ["disabled"; "mode"; "input_id"; "cursor_timestamp_field";
  "cursor_id_field"; "cursor_overlap_secs"; "connector"; "interval_secs"; "host"; "port"; "database"; "username";
  "secret_ref"; "tls_mode"; "tls_server_name"; "tls_ca_file"; "query"; "query_file"; "connect_timeout_secs";
  "probe_timeout_secs"; "max_rows"; "max_bytes"; "query_timeout_secs"; "index"; "sourcetype"; "source"].

Fixpoint parse_inputs_loop (ini : Ini) (sections : list (rust_string * list rust_string)) (roots : PathRoots)
    (generic : GenericConfig) (inputs : list InputConfig) (rising_input_ids : list (array 16)) : parse (list InputConfig) :=
  match sections with
  | [] => mret inputs
  | (name, keys) :: sections =>
      _ ← validate_label name "input.name";
      reject (mkConfigError "DBX-RS-CFG-0013" "input.secret") when (Exists (λ key, key ∈ SECRET_KEYS) keys);;
      reject (mkConfigError "DBX-RS-CFG-0012" "input.setting") when (¬ (keys ⊆ ALLOWED_KEYS));;
      input ← parse_input ini name roots generic;
      match ic_mode input with
      | RisingMode rising =>
          reject (mkConfigError "DBX-RS-CFG-0060" "input.input_id") when (ri_input_id rising ∈ rising_input_ids);;
          parse_inputs_loop ini sections roots generic (inputs ++ [input]) (ri_input_id rising :: rising_input_ids)
      | BatchMode => parse_inputs_loop ini sections roots generic (inputs ++ [input]) rising_input_ids
      end
  end.

(** [str::cmp] compares bytes; the sort is stable. *)
Definition input_le (a b : InputConfig) : Prop :=
  ¬ lexico (Byte.to_N <$> utf8_bytes (ic_name b)) (Byte.to_N <$> utf8_bytes (ic_name a)).
#[global] Instance input_le_dec a b : Decision (input_le a b).
Proof. unfold input_le. apply _. Defined.
Definition parse_inputs (ini : Ini) (roots : PathRoots) (generic : GenericConfig) : parse (list InputConfig) :=
  inputs ← parse_inputs_loop ini (get_map_ref ini) roots generic [] [];
  mret (merge_sort input_le inputs).

(** ** The whole configuration *)
Section Load.
(** [Ini::load], [Path::exists] and [Ini::load_and_append]. *)
Context (load : rust_string → option Ini) (exists_ : rust_string → bool) (load_and_append : Ini → rust_string → option Ini).

Definition load_layered (home : rust_string) (file_name : string) : parse Ini :=
  ini ← ok_or (mkConfigError "DBX-RS-CFG-0001" file_name)
    (load (path_join (path_join home (str "default")) (str file_name)));
  let local_path := path_join (path_join home (str "local")) (str file_name) in
  if exists_ local_path then ok_or (mkConfigError "DBX-RS-CFG-0002" file_name) (load_and_append ini local_path)
  else mret ini.

Definition load_effective_config (roots : PathRoots) : parse EffectiveConfig :=
  ini ← load_layered (app_home roots) "dbxrs_generic.conf";
  _ ← validate_generic_keys ini;
  generic ← parse_generic ini roots;
  ini ← load_layered (app_home roots) "dbxrs_inputs.conf";
  inputs ← parse_inputs ini roots generic;
  reject (mkConfigError "DBX-RS-CFG-0039" "hec.enabled")
    when (hec_state (g_hec generic) = HecDisabled ∧ Exists (λ input, ic_disabled input = false) inputs);;
  mret (mkEffective generic inputs).
End Load.
