(* ===== verification/ConfigProps.v ===== *)
(** * What an accepted configuration guarantees

    Bounds of every setting, confinement of every path, canonical rising identities, and
    segments with room for whatever an input may collect. *)

From S2P Require Export Config.

Local Open Scope N_scope.
Local Open Scope dbx_scope.

(** Splits a run of a parser that has succeeded into its steps. *)
Ltac parsed_step :=
  match goal with
  | H : Ok _ = Ok _ |- _ => injection H as H; try subst
  | H : mret _ = Ok _ |- _ => injection H as H; try subst
  | H : mthrow _ = Ok _ |- _ => discriminate H
  | H : mbind _ _ = Ok _ |- _ => apply result_bind_ok in H as (? & ? & H)
  | H : ok_or _ _ = Ok _ |- _ => apply ok_or_ok in H
  | H : map_err _ _ = Ok _ |- _ => apply map_err_ok in H
  | H : (if decide ?P then _ else _) = Ok _ |- _ => destruct (decide P)
  end.
Ltac parsed := repeat parsed_step.

(** Every element of a list that is written out. *)
Ltac each tac := repeat (apply Forall_cons; split; [tac|]); apply Forall_nil; exact I.

(** ** Values *)
Lemma required_ok ini section key value : required ini section key = Ok value → value ≠ [].
Proof. unfold required. intros H. parsed. destruct (optional _ _ _) as [[|]|]; cbn in H; congruence. Qed.
Lemma required_uint_ok max code ini section key n : required_uint max code ini section key = Ok n → n ≤ max.
Proof. unfold required_uint. intros H. parsed. by eapply parse_uint_bound. Qed.

Lemma label_ok value field : validate_label value field = Ok tt → valid_label_value value = true.
Proof. unfold validate_label. intros H. parsed. by apply not_false_iff_true. Qed.
Lemma required_label_ok ini section key value : required_label ini section key = Ok value → valid_label_value value = true.
Proof. unfold required_label. intros H. parsed. destruct x0. by eapply label_ok. Qed.
Lemma optional_label_ok ini section key o value :
  optional_label ini section key = Ok o → valid_label_value value = true → valid_label_value (default value o) = true.
Proof.
  unfold optional_label. intros H Hv. destruct (optional _ _ _) as [v|]; parsed; [|done].
  destruct x. by eapply label_ok.
Qed.

(** A text for a connector: not empty, short, without control characters. *)
Definition plain_text (value : rust_string) : Prop := value ≠ [] ∧ str_len value ≤ 512 ∧ existsb is_control value = false.
Lemma required_nonempty_ok ini section key value : required_nonempty ini section key = Ok value → plain_text value.
Proof.
  unfold required_nonempty. intros H. parsed. apply Decidable.not_or in n as [Hl Hc]. split; [by eapply required_ok|].
  split; [lia|]. by apply not_true_is_false.
Qed.

(** Whole seconds within bounds. *)
Definition whole_seconds (low high : N) (d : Duration) : Prop := low ≤ secs d ∧ secs d ≤ high ∧ nanos d = 0.
Lemma required_nonzero_duration_ok ini section key d :
  required_nonzero_duration ini section key = Ok d → whole_seconds 1 HARD_OPERATION_SECONDS d.
Proof. unfold required_nonzero_duration. intros H. parsed. apply dec_stable in n as [??]. by repeat split. Qed.

(** ** Paths *)

(** An absolute path without parent components below a root. *)
Definition confined (root p : rust_string) : Prop :=
  is_absolute p = true ∧ ParentDir ∉ components p ∧ path_starts_with p root = true.
(** Below the root and not the root itself. *)
Definition strictly_confined (root p : rust_string) : Prop := confined root p ∧ path_eq p root = false.

Lemma expand_path_ok value roots field p :
  expand_path value roots field = Ok p → confined (app_home roots) p ∨ confined (splunk_home roots) p.
Proof.
  unfold expand_path. intros H.
  assert (∃ path root, (root = app_home roots ∨ root = splunk_home roots) ∧
    (if decide (ParentDir ∈ components path) then mthrow (mkConfigError "DBX-RS-CFG-0032" field)
     else if decide (is_absolute path = false) then mthrow (mkConfigError "DBX-RS-CFG-0033" field)
     else if decide (path_starts_with path root = false) then mthrow (mkConfigError "DBX-RS-CFG-0042" field)
     else mret path) = Ok p) as (path & root & Hroot & Hr).
  { revert H. case_decide; [eauto|]. destruct (str_strip_prefix _ value); [eauto|]. case_decide; [eauto|].
    destruct (str_strip_prefix _ value); eauto. }
  clear H. parsed. apply not_false_iff_true in n0, n1. destruct Hroot as [-> | ->]; [left|right]; by split_and!.
Qed.
Lemma required_path_ok ini section key roots p :
  required_path ini section key roots = Ok p → confined (app_home roots) p ∨ confined (splunk_home roots) p.
Proof. unfold required_path. intros H. parsed. by eapply expand_path_ok. Qed.
Lemma required_var_path_ok ini section key roots p :
  required_var_path ini section key roots = Ok p → confined (path_join (splunk_home roots) (str "var")) p.
Proof.
  unfold required_var_path. intros H. parsed. apply not_false_iff_true in n.
  apply required_path_ok in H0 as [(? & ? & _)|(? & ? & _)]; by split_and!.
Qed.
Lemma required_runtime_path_ok ini section key roots p :
  required_runtime_path ini section key roots = Ok p →
  strictly_confined (path_join (splunk_home roots) (str "var/run/splunk/dbx-rs")) p.
Proof.
  unfold required_runtime_path. intros H. parsed. apply Decidable.not_or in n as [He%not_true_is_false Hs%not_false_iff_true].
  split; [|done]. apply required_path_ok in H0 as [(? & ? & _)|(? & ? & _)]; by split_and!.
Qed.
Lemma optional_asset_path_ok ini section key roots asset_root code p :
  optional_asset_path ini section key roots asset_root code = Ok (Some p) → strictly_confined asset_root p.
Proof.
  unfold optional_asset_path. intros H. parsed. cbn in n. apply not_true_is_false, orb_false_elim in n as [He Hs].
  apply negb_false_iff in Hs. split; [|done]. unfold optional_path in H0. destruct (filled _) as [value|]; [|discriminate H0].
  destruct (expand_path _ _ _) as [q|] eqn:Hq; [|done]. injection H0 as ->.
  apply expand_path_ok in Hq as [(? & ? & _)|(? & ? & _)]; by split_and!.
Qed.

(** ** Sections *)
Record paths_ok (roots : PathRoots) (p : PathsConfig) : Prop := mkPathsOk {
  po_var : Forall (confined (path_join (splunk_home roots) (str "var")))
    [log_file p; splunkd_pid_file p; master_key_file p; secret_dir p; deployment_identity_file p; deployment_receipt_dir p;
     hec_token_file p; hec_server_pem_file p; hec_ca_file p; spool_key_file p; state_dir p; spool_dir p];
  po_lock : strictly_confined (path_join (splunk_home roots) (str "var/run/splunk/dbx-rs")) (instance_lock_file p);
  po_managed : confined (app_home roots) (managed_inputs_file p) ∨ confined (splunk_home roots) (managed_inputs_file p);
}.
Lemma parse_paths_ok ini roots p : parse_paths ini roots = Ok p → paths_ok roots p.
Proof.
  unfold parse_paths. intros H. parsed. split; cbn.
  - each ltac:(by eapply required_var_path_ok).
  - by eapply required_runtime_path_ok.
  - by eapply required_path_ok.
Qed.

Definition logging_ok (l : LoggingConfig) : Prop :=
  4096 ≤ max_file_bytes l ∧ max_file_bytes l ≤ HARD_LOG_FILE_BYTES ∧ backup_count l ≤ 20.
Lemma parse_logging_ok ini l : parse_logging ini = Ok l → logging_ok l.
Proof. unfold parse_logging. intros H. parsed. apply dec_stable in n as [??]. unfold logging_ok. cbn. lia. Qed.

Record daemon_ok (d : DaemonConfig) : Prop := mkDaemonOk {
  do_poll : ∃ ms, poll_interval d = milliseconds ms ∧ 100 ≤ ms ∧ ms ≤ 60000;
  do_grace : whole_seconds 1 300 (shutdown_grace d);
  do_reload : whole_seconds 1 3600 (configuration_reload d);
  do_workers configured : max_workers d = Fixed configured → Npos configured ≤ u64_max;
}.
Lemma parse_worker_limit_ok value configured : parse_worker_limit value = Ok (Fixed configured) → Npos configured ≤ u64_max.
Proof.
  unfold parse_worker_limit. case_decide; [discriminate|].
  destruct (parse_uint u64_max value) as [[|n]|] eqn:Hp; [discriminate| |discriminate].
  intros [= ->]. by apply parse_uint_bound in Hp.
Qed.
Lemma parse_daemon_ok ini d : parse_daemon ini = Ok d → daemon_ok d.
Proof.
  unfold parse_daemon. intros H. parsed. apply dec_stable in n as [??], n0 as [??], n1 as [??].
  split; cbn; [by eexists|done..|]. intros configured ->. by eapply parse_worker_limit_ok.
Qed.

Record spool_ok (s : SpoolConfig) : Prop := mkSpoolOk {
  so_segment : 4096 ≤ cfg_segment_max_bytes s ∧ cfg_segment_max_bytes s ≤ HARD_SPOOL_SEGMENT_BYTES;
  so_input : cfg_segment_max_bytes s ≤ cfg_input_max_bytes s ∧ cfg_input_max_bytes s ≤ HARD_SPOOL_INPUT_BYTES;
  so_total : cfg_input_max_bytes s ≤ cfg_total_max_bytes s ∧ cfg_total_max_bytes s ≤ HARD_SPOOL_TOTAL_BYTES;
}.
Lemma parse_spool_ok ini s : parse_spool ini = Ok s → spool_ok s.
Proof. unfold parse_spool. intros H. parsed. apply dec_stable in n. split; cbn; lia. Qed.

Record hec_ok (h : HecConfig) : Prop := mkHecOk {
  ho_url : hec_state h = HecEnabled → https_event_url (hec_url h) = true;
  ho_local : tls_verification h = VerificationDisabled → local_url (hec_url h) = true;
  ho_port : in_u16 (listen_port h);
  ho_accept : str_len (accept_from h) ≤ 512 ∧ forallb accept_byte (utf8_bytes (accept_from h)) = true;
  ho_events : 1 ≤ cfg_batch_max_events h ∧ cfg_batch_max_events h ≤ 10000;
  ho_bytes : 1 ≤ cfg_max_event_bytes h ∧ cfg_max_event_bytes h ≤ cfg_batch_max_bytes h
    ∧ cfg_batch_max_bytes h ≤ HARD_HEC_BATCH_BYTES;
  ho_timeout : whole_seconds 1 HARD_OPERATION_SECONDS (hec_timeout h);
  ho_labels : Forall (λ label, valid_label_value label = true) [hec_input_name h; hec_index h; hec_sourcetype h; hec_source h];
}.
Lemma parse_hec_ok ini h : parse_hec ini = Ok h → hec_ok h.
Proof.
  unfold parse_hec. intros H. parsed. 
  apply Decidable.not_or in n0 as [Ha Ha'%not_false_iff_true], n1 as [He He'], n3 as [Hb%dec_stable Hb'].
  apply dec_stable in n2, n4. split; cbn.
  - intros Hx. destruct x; [|done]. apply not_false_iff_true. naive_solver.
  - intros Hx. destruct x8; [done|]. apply not_false_iff_true. naive_solver.
  - by eapply required_uint_ok.
  - split; [lia|done].
  - lia.
  - lia.
  - by destruct n4.
  - each ltac:(by eapply required_label_ok).
Qed.

(** ** Rising identities *)

(** The canonical text of an identity: lowercase hexadecimal digits in five groups. *)
Definition uuid_text (bytes : list byte) : list byte :=
  encode_hex (slice 0 4 bytes) ++ x2d :: encode_hex (slice 4 6 bytes) ++ x2d :: encode_hex (slice 6 8 bytes)
    ++ x2d :: encode_hex (slice 8 10 bytes) ++ x2d :: encode_hex (slice 10 16 bytes).

(** A group of digits is read as [decode_hex_loop] reads it. *)
Definition no_dash (i : nat) : bool := bool_decide (i ∉ [8; 13; 18; 23]%nat).
Lemma rising_id_group k index group rest bytes :
  length group = (k * 2)%nat → forallb no_dash (seq index (k * 2)) = true → (length bytes + k ≤ 16)%nat →
  rising_id_loop index (group ++ rest) None bytes
    = (out ← decode_hex_loop group; rising_id_loop (index + k * 2) rest None (bytes ++ out)).
Proof.
  revert index group bytes. induction k as [|k IH]; intros index [|hi [|lo group]] bytes Hl Hi Hb; try discriminate Hl.
  - cbn. by rewrite Nat.add_0_r, app_nil_r.
  - cbn in Hi. apply andb_prop in Hi as [H1%bool_decide_eq_true Hi]. apply andb_prop in Hi as [H2%bool_decide_eq_true Hi].
    cbn [app rising_id_loop decode_hex_loop]. rewrite (decide_False _ _ H1).
    destruct (hex_value hi) as [h|]; [|done]. cbn [mbind option_bind]. rewrite (decide_False _ _ H2).
    destruct (hex_value lo) as [l|]; [|done]. cbn [mbind option_bind].
    rewrite decide_True by lia. rewrite IH.
    + replace (S (S index) + k * 2)%nat with (index + S k * 2)%nat by lia.
      destruct (decode_hex_loop group); cbn [mbind option_bind]; [|done]. by rewrite <- app_assoc.
    + cbn in Hl. lia.
    + done.
    + rewrite length_app. cbn. lia.
Qed.
Lemma rising_id_dash index rest bytes b : index ∈ [8; 13; 18; 23]%nat →
  rising_id_loop index (b :: rest) None bytes = if decide (b = x2d) then rising_id_loop (S index) rest None bytes else None.
Proof. intros Hi. cbn [rising_id_loop]. by rewrite decide_True. Qed.

(** A text of the right length, in its groups and dashes. *)
Lemma uuid_groups (l : list byte) : length l = 36%nat → ∃ g1 d1 g2 d2 g3 d3 g4 d4 g5,
  l = g1 ++ d1 :: g2 ++ d2 :: g3 ++ d3 :: g4 ++ d4 :: g5
  ∧ length g1 = 8%nat ∧ length g2 = 4%nat ∧ length g3 = 4%nat ∧ length g4 = 4%nat ∧ length g5 = 12%nat.
Proof.
  intros Hl. do 36 (destruct l as [|? l]; [discriminate Hl|]). destruct l; [|discriminate Hl].
  eexists [_; _; _; _; _; _; _; _], _, [_; _; _; _], _, [_; _; _; _], _, [_; _; _; _], _, [_; _; _; _; _; _; _; _; _; _; _; _].
  by split.
Qed.

Ltac id_group k index :=
  rewrite (rising_id_group k index) by (reflexivity || assumption || (repeat rewrite length_app; cbn [length]; lia));
  match goal with
  | |- context [decode_hex_loop ?g] =>
      let o := fresh "o" in let E := fresh "E" in destruct (decode_hex_loop g) as [o|] eqn:E; [|done];
      apply (decode_hex_loop_inv k) in E as [? _]; [|done]
  end; cbn [mbind option_bind app].

Lemma rising_id_groups g1 d1 g2 d2 g3 d3 g4 d4 g5 :
  length g1 = 8%nat → length g2 = 4%nat → length g3 = 4%nat → length g4 = 4%nat → length g5 = 12%nat →
  rising_id_loop 0 (g1 ++ d1 :: g2 ++ d2 :: g3 ++ d3 :: g4 ++ d4 :: g5) None []
  = (o1 ← decode_hex_loop g1; if decide (d1 = x2d) then
     o2 ← decode_hex_loop g2; if decide (d2 = x2d) then
     o3 ← decode_hex_loop g3; if decide (d3 = x2d) then
     o4 ← decode_hex_loop g4; if decide (d4 = x2d) then
     o5 ← decode_hex_loop g5; Some (o1 ++ o2 ++ o3 ++ o4 ++ o5)
     else None else None else None else None).
Proof.
  intros H1 H2 H3 H4 H5. id_group 4%nat 0%nat.
  rewrite rising_id_dash by set_solver. case_decide; [|done]. id_group 2%nat 9%nat.
  rewrite (rising_id_dash (9 + 2 * 2)) by set_solver. case_decide; [|done]. id_group 2%nat 14%nat.
  rewrite (rising_id_dash (14 + 2 * 2)) by set_solver. case_decide; [|done]. id_group 2%nat 19%nat.
  rewrite (rising_id_dash (19 + 2 * 2)) by set_solver. case_decide; [|done].
  rewrite <- (app_nil_r g5) at 1. id_group 6%nat 24%nat.
  cbn [rising_id_loop]. rewrite decide_True; [by rewrite <- !app_assoc|]. split; [|done]. rewrite !length_app. lia.
Qed.

Lemma uuid_text_groups o1 o2 o3 o4 o5 :
  length o1 = 4%nat → length o2 = 2%nat → length o3 = 2%nat → length o4 = 2%nat → length o5 = 6%nat →
  uuid_text (o1 ++ o2 ++ o3 ++ o4 ++ o5)
    = encode_hex o1 ++ x2d :: encode_hex o2 ++ x2d :: encode_hex o3 ++ x2d :: encode_hex o4 ++ x2d :: encode_hex o5.
Proof.
  intros H1 H2 H3 H4 H5. do 4 (destruct o1 as [|? o1]; [done|]). destruct o1; [|done].
  do 2 (destruct o2 as [|? o2]; [done|]). destruct o2; [|done]. do 2 (destruct o3 as [|? o3]; [done|]). destruct o3; [|done].
  do 2 (destruct o4 as [|? o4]; [done|]). destruct o4; [|done]. do 6 (destruct o5 as [|? o5]; [done|]). by destruct o5.
Qed.

Lemma parse_rising_input_id_some value id :
  parse_rising_input_id value = Some id ↔
    utf8_bytes value = uuid_text (vec_to_list id) ∧ vec_to_list id ≠ replicate 16 x00.
Proof.
  unfold parse_rising_input_id, str_len, lengthN. split.
  - case_decide as Hl; [done|]. destruct (uuid_groups (utf8_bytes value)) as (g1 & d1 & g2 & d2 & g3 & d3 & g4 & d4 & g5 & E & H1 & H2 & H3 & H4 & H5); [lia|].
    rewrite E, rising_id_groups by done.
    destruct (decode_hex_loop g1) as [o1|] eqn:E1; [|done]. apply (decode_hex_loop_inv 4) in E1 as [L1 <-]; [|done].
    cbn [mbind option_bind]. case_decide; [subst d1|done].
    destruct (decode_hex_loop g2) as [o2|] eqn:E2; [|done]. apply (decode_hex_loop_inv 2) in E2 as [L2 <-]; [|done].
    cbn [mbind option_bind]. case_decide; [subst d2|done].
    destruct (decode_hex_loop g3) as [o3|] eqn:E3; [|done]. apply (decode_hex_loop_inv 2) in E3 as [L3 <-]; [|done].
    cbn [mbind option_bind]. case_decide; [subst d3|done].
    destruct (decode_hex_loop g4) as [o4|] eqn:E4; [|done]. apply (decode_hex_loop_inv 2) in E4 as [L4 <-]; [|done].
    cbn [mbind option_bind]. case_decide; [subst d4|done].
    destruct (decode_hex_loop g5) as [o5|] eqn:E5; [|done]. apply (decode_hex_loop_inv 6) in E5 as [L5 <-]; [|done].
    cbn [mbind option_bind]. case_decide as Hz; [done|]. intros [= <-].
    rewrite array_of_list_id by (rewrite !length_app; lia). split; [|done]. by rewrite uuid_text_groups.
  - intros [E Hz]. rewrite E. pose proof (length_vec_to_list id) as Hid. unfold uuid_text.
    assert (∀ a b, (b ≤ 16)%nat → length (slice a b (vec_to_list id)) = (b - a)%nat) as Hs by (intros; apply length_slice; lia).
    rewrite decide_False; [|intros Hn; apply Hn; rewrite !length_app; cbn [length]; repeat (rewrite length_app; cbn [length]);
      rewrite !length_encode_hex, !Hs by lia; done].
    rewrite rising_id_groups by (rewrite length_encode_hex, Hs by lia; done).
    rewrite !decode_hex_loop_encode. cbn [mbind option_bind]. repeat (rewrite decide_True by done; cbn [mbind option_bind]).
    assert (slice 0 4 (vec_to_list id) ++ slice 4 6 (vec_to_list id) ++ slice 6 8 (vec_to_list id) ++ slice 8 10 (vec_to_list id)
      ++ slice 10 16 (vec_to_list id) = vec_to_list id) as ->.
    { revert Hid. generalize (vec_to_list id). intros l Hl. do 16 (destruct l as [|? l]; [discriminate Hl|]).
      destruct l; [done|discriminate Hl]. }
    rewrite decide_False by done. by rewrite array_of_to_list.
Qed.

(** a rising identity is read exactly from its canonical text: sixteen bytes, not all
    zero, as lowercase hexadecimal digits in groups of 8, 4, 4, 4 and 12 between dashes. *)
Theorem rising_id_canonical value id :
  parse_rising_input_id value = Some id ↔
    utf8_bytes value = uuid_text (vec_to_list id) ∧ vec_to_list id ≠ replicate 16 x00.
Proof. apply parse_rising_input_id_some. Qed.

(** ** Inputs *)

(** A rising input as configured. *)
Record rising_ok (r : RisingInputConfig) : Prop := mkRisingOk {
  rk_id : vec_to_list (ri_input_id r) ≠ replicate 16 x00;
  rk_fields : Forall (λ f, f ≠ [] ∧ str_len f ≤ MAX_POSTGRES_IDENTIFIER_BYTES ∧ existsb is_control f = false)
    [ri_timestamp_field r; ri_id_field r];
  rk_distinct : ri_timestamp_field r ≠ ri_id_field r;
  rk_trimmed : ∃ a b, ri_timestamp_field r = trim a ∧ ri_id_field r = trim b;
  rk_overlap : whole_seconds 0 HARD_INTERVAL_SECONDS (ri_overlap r);
}.
Record input_ok (roots : PathRoots) (generic : GenericConfig) (i : InputConfig) : Prop := mkInputOk {
  io_name : valid_label_value (ic_name i) = true;
  io_connector : ic_connector i ∈ CONNECTORS;
  io_oracle : ic_connector i = str "oracle" → ic_mode i = BatchMode;
  io_rising rising : ic_mode i = RisingMode rising → rising_ok rising;
  io_rows : 1 ≤ ic_max_rows i ∧ ic_max_rows i ≤ HARD_INPUT_ROWS;
  io_bytes : 1 ≤ ic_max_bytes i ∧ ic_max_bytes i ≤ HARD_INPUT_BYTES;
  io_segment : ic_max_rows i * SPOOL_EVENT_OVERHEAD_BYTES + ic_max_bytes i + SPOOL_FORMAT_OVERHEAD_BYTES
    ≤ cfg_segment_max_bytes (g_spool generic);
  io_interval : whole_seconds 1 HARD_INTERVAL_SECONDS (ic_interval i);
  io_timeouts : Forall (whole_seconds 1 HARD_OPERATION_SECONDS) [ic_connect_timeout i; ic_probe_timeout i; ic_query_timeout i];
  io_secret : ∃ label, ic_secret_ref i = str "local:" ++ label ∧ valid_label_value label = true;
  io_tls_mode : ic_tls_mode i ∈ str <$> ["disable"; "verify-full"];
  io_port : 1 ≤ ic_port i ∧ in_u16 (ic_port i);
  io_texts : Forall plain_text [ic_host i; ic_database i; ic_username i];
  io_ca p : ic_tls_ca_file i = Some p →
    strictly_confined (path_join (path_join (app_home roots) (str "certs")) (str (query_namespace (ic_connector i)))) p;
  io_query : match ic_query i with
    | FileQuery p =>
        strictly_confined (path_join (path_join (app_home roots) (str "queries")) (str (query_namespace (ic_connector i)))) p
    | Inline q => q ≠ [] ∧ str_len q ≤ MAX_QUERY_BYTES ∧ str_contains q 0 = false
    end;
  io_labels : Forall (λ label, valid_label_value label = true) [ic_index i; ic_sourcetype i; ic_source i];
}.

Lemma cursor_field_ok value code field : validate_cursor_field value code field = Ok tt →
  value ≠ [] ∧ str_len value ≤ MAX_POSTGRES_IDENTIFIER_BYTES ∧ existsb is_control value = false.
Proof.
  unfold validate_cursor_field. intros H. parsed. apply Decidable.not_or in n as [? [? Hc%not_true_is_false]%Decidable.not_or].
  split_and!; [done|lia|done].
Qed.
Lemma required_trimmed ini section key value : required ini section key = Ok value → ∃ a, value = trim a.
Proof.
  unfold required, optional. intros H. parsed. destruct (ini_get _ _ _) as [a|]; [|done]. exists a. cbn in H.
  destruct (trim a); cbn in H; congruence.
Qed.
Lemma parse_rising_input_ok ini section r : parse_rising_input ini section = Ok r → rising_ok r.
Proof.
  unfold parse_rising_input. intros H. parsed. destruct x1, x3. rename x into id, x0 into ts, x2 into fid, x4 into overlap.
  split; cbn.
  - destruct (result_ok _); [|done]. by apply parse_rising_input_id_some in H0 as [_ ?].
  - each ltac:(by eapply cursor_field_ok).
  - done.
  - destruct (required_trimmed _ _ _ _ H1) as [a ->], (required_trimmed _ _ _ _ H3) as [b ->]. by exists a, b.
  - split_and!; cbn; [lia|lia|done].
Qed.
Lemma parse_collection_mode_ok ini section mode rising :
  parse_collection_mode ini section = Ok mode → mode = RisingMode rising → rising_ok rising.
Proof.
  unfold parse_collection_mode. intros H ->. parsed; [discriminate H|]. destruct (parse_rising_input _ _) eqn:Hr; [|discriminate H].
  injection H as ->. by eapply parse_rising_input_ok.
Qed.
Lemma parse_query_source_ok ini section roots connector q :
  parse_query_source ini section roots connector = Ok q →
  match q with
  | FileQuery p => strictly_confined (path_join (path_join (app_home roots) (str "queries")) (str (query_namespace connector))) p
  | Inline q => q ≠ [] ∧ str_len q ≤ MAX_QUERY_BYTES ∧ str_contains q 0 = false
  end.
Proof.
  unfold parse_query_source. intros H. apply result_bind_ok in H as (file & Hf & H).
  destruct (filled _) as [inline|] eqn:Hi, file as [p|]; try discriminate H; parsed.
  - apply Decidable.not_or in n as [? ?%not_true_is_false]. split_and!; [|lia|done].
    destruct (optional _ _ _) as [[|]|]; cbn in Hi; congruence.
  - by eapply optional_asset_path_ok.
Qed.
Lemma required_segment_bytes_ok rows bytes n : required_segment_bytes rows bytes = Some n →
  n = rows * SPOOL_EVENT_OVERHEAD_BYTES + bytes + SPOOL_FORMAT_OVERHEAD_BYTES.
Proof.
  unfold required_segment_bytes, checked_mul. case_decide; [|done]. rewrite some_bind.
  destruct (checked_add _ bytes) as [m|] eqn:Hm; [|done]. rewrite some_bind.
  apply checked_add_some in Hm as [-> _]. by intros [-> _]%checked_add_some.
Qed.
Lemma secret_ref_ok secret_ref : is_some_and valid_label_value (str_strip_prefix (str "local:") secret_ref) = true →
  ∃ label, secret_ref = str "local:" ++ label ∧ valid_label_value label = true.
Proof.
  unfold str_strip_prefix. case_decide as Hp; [|done]. cbn [is_some_and]. intros Hv.
  eexists. split; [|exact Hv]. rewrite <- Hp at 1. symmetry. apply take_drop.
Qed.

Lemma parse_input_ok ini name roots generic i :
  hec_ok (g_hec generic) → valid_label_value name = true → parse_input ini name roots generic = Ok i →
  input_ok roots generic i ∧ ic_name i = name.
Proof.
  intros Hhec Hname. unfold parse_input. intros H.
  apply result_bind_ok in H as (mode & Hmode & H). apply result_bind_ok in H as (connector & Hconn & H).
  case_decide as Hc; [discriminate H|]. case_decide as Ho; [discriminate H|].
  apply result_bind_ok in H as (rows & Hrows & H). case_decide as Hr; [discriminate H|].
  apply result_bind_ok in H as (bytes & Hbytes & H). case_decide as Hb; [discriminate H|].
  apply result_bind_ok in H as (required_bytes & Hreq%ok_or_ok%required_segment_bytes_ok & H).
  case_decide as Hs; [discriminate H|]. apply result_bind_ok in H as (interval & Hint & H).
  case_decide as Hi; [discriminate H|].
  apply result_bind_ok in H as (secret & Hsec & H). case_decide as Hl; [discriminate H|]. apply not_false_iff_true in Hl.
  apply result_bind_ok in H as (tls & Htls & H). case_decide as Ht; [discriminate H|].
  apply result_bind_ok in H as (port & Hport & H). case_decide as Hp; [discriminate H|].
  parsed. cbn. pose proof (ho_labels _ Hhec) as Hlabels. rewrite !Forall_cons in Hlabels. destruct Hlabels as (_ & ? & ? & ? & _).
  split; [|done]. split; cbn; try done.
  - intros E. destruct (decide (mode = BatchMode)) as [|Hne]; [done|]. by destruct Ho.
  - intros rising E. by eapply parse_collection_mode_ok.
  - lia.
  - by destruct Hi.
  - each ltac:(by eapply required_nonzero_duration_ok).
  - by apply secret_ref_ok.
  - split; [lia|]. by eapply required_uint_ok.
  - each ltac:(by eapply required_nonempty_ok).
  - intros p ->. by eapply optional_asset_path_ok.
  - by eapply parse_query_source_ok.
  - each ltac:(by eapply optional_label_ok).
Qed.

Definition rising_id (i : InputConfig) : option (array 16) :=
  match ic_mode i with RisingMode rising => Some (ri_input_id rising) | BatchMode => None end.
Definition rising_ids (inputs : list InputConfig) : list (array 16) := omap rising_id inputs.

Lemma parse_inputs_loop_ok ini sections roots generic inputs ids result :
  hec_ok (g_hec generic) → parse_inputs_loop ini sections roots generic inputs ids = Ok result →
  Forall (input_ok roots generic) inputs → NoDup (rising_ids inputs) → (∀ id, id ∈ rising_ids inputs → id ∈ ids) →
  Forall (input_ok roots generic) result ∧ NoDup (rising_ids result) ∧ ic_name <$> result = (ic_name <$> inputs) ++ sections.*1.
Proof.
  intros Hhec. revert inputs ids. induction sections as [|[name keys] sections IH]; intros inputs ids; cbn [parse_inputs_loop].
  { intros [= <-] ? ? ?. by rewrite app_nil_r. }
  intros ([] & Hlabel%label_ok & H)%result_bind_ok Hin Hnd Hids.
  case_decide as Hsec; [discriminate H|]. case_decide as Hkey; [discriminate H|]. clear Hsec Hkey.
  apply result_bind_ok in H as (input & [Hok Hname]%(parse_input_ok _ _ _ _ _ Hhec Hlabel) & H).
  assert (Forall (input_ok roots generic) (inputs ++ [input])) as Hin' by (apply Forall_app; by split; [|constructor]).
  assert (rising_ids (inputs ++ [input]) = rising_ids inputs ++ rising_ids [input]) as Happ by apply omap_app.
  assert ((ic_name <$> inputs ++ [input]) ++ sections.*1 = (ic_name <$> inputs) ++ ((name, keys) :: sections).*1) as <-
    by (rewrite fmap_app, <- app_assoc; cbn; by rewrite Hname).
  assert (rising_ids [input] = match ic_mode input with RisingMode rising => [ri_input_id rising] | BatchMode => [] end) as Hone
    by (unfold rising_ids, rising_id; cbn; by destruct (ic_mode input)).
  destruct (ic_mode input) as [|rising]; [|case_decide as Hfresh; [discriminate H|] ]; apply IH in H; try done;
    rewrite Happ, Hone, ?app_nil_r; try done.
  - apply NoDup_app. split; [done|]. split; [|apply NoDup_singleton]. intros id Hid ->%list_elem_of_singleton. by apply Hfresh, Hids.
  - intros id [Hid|Hid]%elem_of_app; [right; by apply Hids|].
    apply list_elem_of_singleton in Hid as ->. apply list_elem_of_here.
Qed.

#[global] Instance input_le_total : Total input_le.
Proof.
  intros a b. unfold input_le. destruct (trichotomyT lexico (Byte.to_N <$> utf8_bytes (ic_name a)) (Byte.to_N <$> utf8_bytes (ic_name b))) as [[Hlt|E]|Hlt].
  - left. intros Hgt. apply (irreflexivity lexico (Byte.to_N <$> utf8_bytes (ic_name a))). by etrans.
  - left. rewrite E. apply (irreflexivity lexico).
  - right. intros Hgt. apply (irreflexivity lexico (Byte.to_N <$> utf8_bytes (ic_name a))). by etrans.
Qed.
Lemma parse_inputs_ok ini roots generic inputs :
  hec_ok (g_hec generic) → parse_inputs ini roots generic = Ok inputs →
  Forall (input_ok roots generic) inputs ∧ NoDup (rising_ids inputs) ∧ Sorted input_le inputs
  ∧ ic_name <$> inputs ≡ₚ (get_map_ref ini).*1.
Proof.
  intros Hhec. unfold parse_inputs. intros (read & H & [= <-])%result_bind_ok.
  apply parse_inputs_loop_ok in H as (Hall & Hnd & Hn); [|done|constructor|constructor|by intros ? ?%not_elem_of_nil].
  pose proof (merge_sort_Permutation input_le read) as Hp. split_and!.
  - by rewrite Hp.
  - unfold rising_ids. by rewrite Hp.
  - apply (Sorted_merge_sort input_le).
  - rewrite Hp, Hn. done.
Qed.

Lemma load_effective_config_ok load exists_ load_and_append roots config :
  load_effective_config load exists_ load_and_append roots = Ok config →
  let generic := ec_generic config in
  paths_ok roots (g_paths generic) ∧ logging_ok (g_logging generic) ∧ daemon_ok (g_daemon generic)
  ∧ spool_ok (g_spool generic) ∧ hec_ok (g_hec generic)
  ∧ Forall (input_ok roots generic) (ec_inputs config)
  ∧ NoDup (rising_ids (ec_inputs config)) ∧ Sorted input_le (ec_inputs config)
  ∧ (∃ ini, load_layered load exists_ load_and_append (app_home roots) "dbxrs_inputs.conf" = Ok ini
       ∧ ic_name <$> ec_inputs config ≡ₚ (get_map_ref ini).*1)
  ∧ (hec_state (g_hec generic) = HecDisabled → Forall (λ i, ic_disabled i = true) (ec_inputs config)).
Proof.
  unfold load_effective_config. intros (ini & Hini & H)%result_bind_ok. apply result_bind_ok in H as ([] & Hkeys & H).
  apply result_bind_ok in H as (generic & Hg & H). apply result_bind_ok in H as (ini2 & Hini2 & H).
  apply result_bind_ok in H as (inputs & Hinputs & H). case_decide as Hd; [discriminate H|]. injection H as <-. cbn zeta. cbn [ec_generic ec_inputs].
  unfold parse_generic in Hg. parsed. cbn [g_paths g_logging g_daemon g_spool g_hec] in *.
  assert (hec_ok x3) as Hhec by (by eapply parse_hec_ok).
  apply parse_inputs_ok in Hinputs as (Hall & Hnd & Hs & Hn); [|done].
  split_and!; [by eapply parse_paths_ok|by eapply parse_logging_ok|by eapply parse_daemon_ok|by eapply parse_spool_ok|done..| |].
  - by exists ini2.
  - intros Hdis. apply Forall_forall. intros i Hi. apply not_false_iff_true. intros Hen. apply Hd. split; [done|].
    apply Exists_exists. by exists i.
Qed.

(** C16: whatever the files say, an accepted configuration is within its bounds: every path
    is absolute, without parent components and below its root; the quotas of the spool are
    nested; TLS is left unverified only towards the same host; every input is labelled,
    bounded, fits a segment with all it may collect, and has its assets below the roots of
    its connector; the inputs are those of the file, sorted, with distinct rising
    identities; and no input is enabled without a sink. *)
Theorem accepted_configuration_ok load exists_ load_and_append roots config :
  load_effective_config load exists_ load_and_append roots = Ok config →
  let generic := ec_generic config in
  paths_ok roots (g_paths generic) ∧ logging_ok (g_logging generic) ∧ daemon_ok (g_daemon generic)
  ∧ spool_ok (g_spool generic) ∧ hec_ok (g_hec generic)
  ∧ Forall (input_ok roots generic) (ec_inputs config)
  ∧ NoDup (rising_ids (ec_inputs config)) ∧ Sorted input_le (ec_inputs config)
  ∧ (∃ ini, load_layered load exists_ load_and_append (app_home roots) "dbxrs_inputs.conf" = Ok ini
       ∧ ic_name <$> ec_inputs config ≡ₚ (get_map_ref ini).*1)
  ∧ (hec_state (g_hec generic) = HecDisabled → Forall (λ i, ic_disabled i = true) (ec_inputs config)).
Proof. apply load_effective_config_ok. Qed.
