(* ===== verification/Settings.v ===== *)
(** * The settings the daemon takes from its configuration (crates/dbx-rs-daemon/src/runtime.rs)

    The limits of the spool, of the workers and of the sink's batches, and why a segment of
    an accepted configuration holds all that an input may collect. *)

From S2P Require Export SegmentRoundTrip Runtime ConfigProps.

Local Open Scope N_scope.
Local Open Scope dbx_scope.

Definition configured_spool_limits (config : EffectiveConfig) : result DaemonError SpoolLimits :=
  let spool := g_spool (ec_generic config) in
  map_err from_spool_error
    (SpoolLimits_new (cfg_segment_max_bytes spool) (cfg_input_max_bytes spool) (cfg_total_max_bytes spool)).
Definition configured_worker_capacity (config : EffectiveConfig) (available_parallelism : positive) : positive :=
  effective (max_workers (g_daemon (ec_generic config))) available_parallelism.
Definition configured_delivery_limits (config : EffectiveConfig) : DeliveryLimits :=
  let hec := g_hec (ec_generic config) in
  mkDeliveryLimits (cfg_batch_max_events hec) (cfg_batch_max_bytes hec).

(** What the loop reads of its configuration. *)
Definition runtime_config (config : EffectiveConfig) (available_parallelism : positive) : RuntimeConfig :=
  mkRuntimeConfig (configured_delivery_limits config) (Pos.to_nat (configured_worker_capacity config available_parallelism)).

(** The parts of the theorem on accepted configurations that the daemon builds on. *)
Lemma accepted_spool_ok load exists_ load_and_append roots config :
  load_effective_config load exists_ load_and_append roots = Ok config →
  spool_ok (g_spool (ec_generic config)) ∧ Forall (input_ok roots (ec_generic config)) (ec_inputs config).
Proof. by intros (_ & _ & _ & ? & _ & ? & _)%load_effective_config_ok. Qed.

Section Fits.
Context `{Sha256, CryptoLaws, !CryptoTotal}.

(** The space a segment has taken for its events. *)
Definition taken (events : list (list byte)) : N := 215 + sumN (lengthN <$> events) + 29 * lengthN events.
Lemma encoded_taken e sk salt id h limit events :
  encoded e sk salt id h limit events → enc_position e = taken events.
Proof using All.
  intros E. destruct (encoded_frames _ _ _ _ _ _ _ E) as (fs & Hfs%length_frames & Hw).
  rewrite (encoded_position _ _ _ _ _ _ _ E), Hw, (encoded_prefix _ _ _ _ _ _ _ E), lengthN_app, Hfs.
  unfold taken. assert (lengthN (encode_prefix (key_id sk) salt id FORMAT_VERSION) = 74) as ->
    by (unfold lengthN; by rewrite length_encode_prefix).
  rewrite fmap_cons, sumN_cons, !lengthN_cons. pose proof (events_frames_length events) as He. unfold events_bytes in He.
  assert (lengthN (encode_header h) = 112) as -> by (unfold lengthN; by rewrite length_encode_header). lia.
Qed.

(** Events that fit are all taken. *)
Lemma append_all_run events sk salt id h limit done_events e :
  encoded e sk salt id h limit done_events → reliable (enc_file e) → in_u32 limit → Forall (λ event, event ≠ []) events →
  taken (done_events ++ events) + 234 ≤ limit → ∃ e', append_all events e = (e', Ok tt).
Proof using All.
  revert done_events e. induction events as [|event events IH]; intros don e E R Hl Hne Hfit; cbn [append_all]; [by eexists|].
  apply Forall_cons in Hne as [Hev Hne].
  assert (enc_position e + (29 + lengthN event) + 234 ≤ limit ∧ lengthN event + 17 ≤ limit) as [Hpos Hlen].
  { rewrite (encoded_taken _ _ _ _ _ _ _ E). revert Hfit. unfold taken. rewrite fmap_app, sumN_app, lengthN_app, fmap_cons, sumN_cons, lengthN_cons. lia. }
  destruct (append_run e sk salt id h limit don event E R) as [e1 Ha]; [ulia|ulia|done|done|].
  rewrite (st_bind_run _ _ _ _ _ Ha).
  apply (IH (don ++ [event])); [by eapply append_encoded|by eapply append_event_reliable|done|done|by rewrite <- app_assoc].
Qed.

(** C18: a segment under an accepted configuration has room for every collection of one of
    its inputs: whatever rows within the input's limits are collected, if the envelope adds
    less than a kilobyte to each event, a segment can be started with the configured
    limit and takes every event. *)
Theorem accepted_input_fits_segment load exists_ load_and_append roots config i sk salt id h faults events :
  load_effective_config load exists_ load_and_append roots = Ok config → i ∈ ec_inputs config →
  Forall (λ f, f = WriteOk) faults → Forall (λ event, event ≠ []) events → lengthN events ≤ ic_max_rows i →
  sumN (lengthN <$> events) ≤ ic_max_bytes i + (SPOOL_EVENT_OVERHEAD_BYTES - 29) * lengthN events →
  ∃ limits, configured_spool_limits config = Ok limits ∧
  ∃ f e e', start sk salt id h (limit_segment limits) (mkSink [] faults) = (f, Ok e) ∧ append_all events e = (e', Ok tt).
Proof using All.
  intros [Hs Hin]%accepted_spool_ok Hi Hf Hne Hrows Hbytes. rewrite Forall_forall in Hin.
  pose proof (io_segment _ _ _ (Hin i Hi)) as Hseg. destruct Hs as [Hs1 Hs2 Hs3].
  unfold HARD_SPOOL_SEGMENT_BYTES, SPOOL_EVENT_OVERHEAD_BYTES, SPOOL_FORMAT_OVERHEAD_BYTES in *.
  set (spool := g_spool (ec_generic config)) in *.
  exists (mkLimits (cfg_segment_max_bytes spool) (cfg_input_max_bytes spool) (cfg_total_max_bytes spool)).
  split.
  { unfold configured_spool_limits. fold spool. apply map_err_ok, SpoolLimits_new_ok. split; [done|].
    split; cbn; unfold MIN_SEGMENT_BYTES; lia. }
  cbn [limit_segment]. set (limit := cfg_segment_max_bytes spool) in *.
  assert (MIN_SEGMENT_BYTES ≤ limit) as Hmin by (unfold MIN_SEGMENT_BYTES; lia).
  destruct (start_run sk salt id h limit faults) as (f & e & Es & R); [done|ulia|done|].
  exists f, e. pose proof (proj1 (start_encoded _ _ _ _ _ _ _ _ Es)) as E.
  destruct (append_all_run events sk salt id h limit [] e) as [e' Ha]; [done|done|ulia|done| |by exists e'].
  unfold taken. cbn [app]. nia.
Qed.
End Fits.
