(* ===== verification/Prepared.v ===== *)
(** * Preparation of inputs (crates/dbx-rs-daemon/src/prepared.rs)

    A configured input becomes an immutable prepared one: its query and CA file are read,
    and its identity, lineage and revision get fingerprints over a tagged encoding. *)

From S2P Require Export Daemon Config Sdk.

Local Open Scope N_scope.
Local Open Scope dbx_scope.

(** ** Errors *)
Definition preparation_error (code stage : string) : DaemonError := DaemonError_new code "configuration" stage false true.
Definition fingerprint_size_error : DaemonError :=
  DaemonError_new "DBX-RS-PREP-0005" "internal" "input_fingerprint" false false.

(** ** Data *)

Record PreparedLimits := mkPreparedLimits { pl_max_rows : N; pl_max_bytes : N; pl_query_timeout : Duration }.

(** A prepared input: what the durable pipeline reads of it, and what the connector needs. *)
Record Prepared := mkPrepared {
  pw_input : PreparedInput;
  pw_name : rust_string;
  pw_connector : rust_string;
  pw_secret_ref : rust_string;
  pw_connection : ConnectionConfig;
  pw_query : rust_string;
  pw_limits : PreparedLimits;
  pw_query_fingerprint : array 32;
}.
Record PreparedIdentity := mkIdentity {
  id_input_id : array 32;
  id_rising : option PreparedRising;
  id_lineage_fingerprint : array 32;
}.

(** ** The encoder of fingerprints *)
Definition PREPARED_FINGERPRINT_VERSION : N := 1.
Definition CONTRACT_VERSION_MAJOR : N := 1.
Definition CONTRACT_VERSION_MINOR : N := 2.
Definition domain (s : string) : list byte := String.list_byte_of_string s ++ [x00].

(** The calls of the encoder, one constructor per method; a [usize] is encoded as a [u64]. *)
Inductive field :=
  | F_u8 (value : N)
  | F_u16 (value : N)
  | F_u64 (value : N)
  | F_duration (value : Duration)
  | F_bytes (value : list byte)
  | F_fixed_bytes (value : array 32)
  | F_fixed_bytes_16 (value : array 16)
  | F_optional_bytes (value : option (list byte))
  | F_optional_digest (value : option (list byte)).
Definition F_boolean (value : bool) : field := F_u8 (if value then 1 else 0).

Section Fingerprints.
Context `{Sha256}.

Definition length_prefixed (value : list byte) : result DaemonError (list byte) :=
  length ← ok_or fingerprint_size_error (u32_try_from (lengthN value));
  mret (u32_be length ++ value).
Definition encode_field (tag : N) (f : field) : result DaemonError (list byte) :=
  value ← match f with
    | F_u8 value => mret [byte_of_N value]
    | F_u16 value => mret (u16_be value)
    | F_u64 value => mret (u64_be value)
    | F_duration value => mret (u64_be (secs value) ++ u32_be (nanos value))
    | F_bytes value => length_prefixed value
    | F_fixed_bytes value => mret (vec_to_list value)
    | F_fixed_bytes_16 value => mret (vec_to_list value)
    | F_optional_bytes (Some value) => cons x01 <$> length_prefixed value
    | F_optional_digest (Some value) => mret (x01 :: vec_to_list (sha256 value))
    | F_optional_bytes None | F_optional_digest None => mret [x00]
    end;
  mret (byte_of_N tag :: value).
Fixpoint encode_fields (fields : list (N * field)) : result DaemonError (list byte) :=
  match fields with
  | [] => mret []
  | (tag, f) :: fields =>
      bytes ← encode_field tag f;
      rest ← encode_fields fields;
      mret (bytes ++ rest)
  end.
(** What the encoder has hashed when it finishes. *)
Definition message (d : string) (fields : list (N * field)) : result DaemonError (list byte) :=
  bytes ← encode_fields fields;
  mret (domain d ++ bytes).
Definition fingerprint (d : string) (fields : list (N * field)) : result DaemonError (array 32) :=
  sha256 <$> message d fields.

(** ** The fingerprints *)
Definition batch_input_id_fields (name : rust_string) : list (N * field) := [(1, F_bytes (utf8_bytes name))].
Definition batch_input_id (name : rust_string) : result DaemonError (array 32) :=
  fingerprint "dbx-rs/batch-input-id/v1" (batch_input_id_fields name).

Definition rising_input_key_fields (state_input_id : array 16) : list (N * field) :=
  [(1, F_u16 PREPARED_FINGERPRINT_VERSION); (2, F_fixed_bytes_16 state_input_id)].
Definition rising_input_key (state_input_id : array 16) : result DaemonError (array 32) :=
  fingerprint "dbx-rs/rising-input-key/v1" (rising_input_key_fields state_input_id).

Definition query_fields (connector query : rust_string) : list (N * field) :=
  [(1, F_u16 PREPARED_FINGERPRINT_VERSION); (2, F_bytes (utf8_bytes connector)); (3, F_u16 CONTRACT_VERSION_MAJOR);
   (4, F_u16 CONTRACT_VERSION_MINOR); (5, F_bytes (utf8_bytes query))].
Definition query_fingerprint (connector query : rust_string) : result DaemonError (array 32) :=
  fingerprint "dbx-rs/query-fingerprint/v1" (query_fields connector query).

Definition batch_lineage_fields (input_id : array 32) (input : InputConfig) (query : array 32) : list (N * field) :=
  [(1, F_u16 PREPARED_FINGERPRINT_VERSION); (2, F_fixed_bytes input_id); (3, F_bytes (utf8_bytes (ic_host input)));
   (4, F_u16 (ic_port input)); (5, F_bytes (utf8_bytes (ic_database input))); (6, F_bytes (utf8_bytes (ic_username input)));
   (7, F_fixed_bytes query)].
Definition batch_lineage_fingerprint (input_id : array 32) (input : InputConfig) (query : array 32) : result DaemonError (array 32) :=
  fingerprint "dbx-rs/lineage-fingerprint/v1" (batch_lineage_fields input_id input query).

Definition rising_lineage_fields (state_input_id : array 16) (input : InputConfig) (query : array 32) : list (N * field) :=
  [(1, F_u16 PREPARED_FINGERPRINT_VERSION); (2, F_fixed_bytes_16 state_input_id); (3, F_bytes (utf8_bytes (ic_connector input)));
   (4, F_u16 CONTRACT_VERSION_MAJOR); (5, F_u16 CONTRACT_VERSION_MINOR); (6, F_bytes (utf8_bytes (ic_host input)));
   (7, F_u16 (ic_port input)); (8, F_bytes (utf8_bytes (ic_database input))); (9, F_bytes (utf8_bytes (ic_username input)));
   (10, F_fixed_bytes query)].
Definition rising_lineage_fingerprint (state_input_id : array 16) (input : InputConfig) (query : array 32)
    : result DaemonError (array 32) :=
  fingerprint "dbx-rs/rising-source-lineage-fingerprint/v1" (rising_lineage_fields state_input_id input query).

Definition cursor_null_policy_tag (policy : CursorNullPolicy) : N := match policy with Reject => 0 end.
Definition cursor_identity_fields (spec : TimestampIdCursorSpec) : list (N * field) :=
  [(1, F_u16 PREPARED_FINGERPRINT_VERSION); (2, F_u16 CONTRACT_VERSION_MAJOR); (3, F_u16 CONTRACT_VERSION_MINOR);
   (4, F_u16 TIMESTAMP_ID_CURSOR_FORMAT_VERSION); (5, F_bytes (utf8_bytes (timestamp_field spec)));
   (6, F_bytes (utf8_bytes (id_field spec))); (7, F_u8 (cursor_null_policy_tag (null_policy spec)))].
Definition cursor_identity_fingerprint (spec : TimestampIdCursorSpec) : result DaemonError (array 32) :=
  fingerprint "dbx-rs/rising-cursor-identity-fingerprint/v1" (cursor_identity_fields spec).

Definition rising_revision_fields (operational_revision cursor_identity : array 32) (overlap : Duration) : list (N * field) :=
  [(1, F_u16 PREPARED_FINGERPRINT_VERSION); (2, F_fixed_bytes operational_revision); (3, F_u8 1);
   (4, F_fixed_bytes cursor_identity); (5, F_duration overlap)].
Definition rising_revision_fingerprint (operational_revision cursor_identity : array 32) (overlap : Duration)
    : result DaemonError (array 32) :=
  fingerprint "dbx-rs/rising-revision-fingerprint/v1" (rising_revision_fields operational_revision cursor_identity overlap).

Definition tls_mode_tag (mode : TlsMode) : N :=
  match mode with TlsDisable => 0 | TlsRequire => 1 | TlsVerifyCa => 2 | TlsVerifyFull => 3 end.
Definition hec_state_tag (state : HecState) : N := match state with HecEnabled => 1 | HecDisabled => 0 end.
Definition hec_management_tag (management : HecInputManagement) : N := match management with Managed => 1 | External => 0 end.
Definition tls_verification_tag (verification : TlsVerification) : N :=
  match verification with VerificationFull => 1 | VerificationDisabled => 0 end.
Definition acknowledgment_tag (acknowledgment : IndexerAcknowledgment) : N :=
  match acknowledgment with AckEnabled => 1 | AckDisabled => 0 end.

Definition revision_fields (lineage : array 32) (input : InputConfig) (hec : HecConfig) (mode : TlsMode)
    (tls_ca_pem : option (list byte)) : list (N * field) :=
  [(1, F_u16 PREPARED_FINGERPRINT_VERSION); (2, F_fixed_bytes lineage); (3, F_bytes (utf8_bytes (ic_secret_ref input)));
   (4, F_u8 (tls_mode_tag mode)); (5, F_optional_bytes (utf8_bytes <$> ic_tls_server_name input));
   (6, F_optional_digest tls_ca_pem); (7, F_duration (ic_connect_timeout input)); (8, F_duration (ic_probe_timeout input));
   (9, F_duration (ic_query_timeout input)); (10, F_duration (ic_interval input)); (11, F_boolean (ic_disabled input));
   (12, F_u64 (ic_max_rows input)); (13, F_u64 (ic_max_bytes input)); (14, F_bytes (utf8_bytes (ic_index input)));
   (15, F_bytes (utf8_bytes (ic_sourcetype input))); (16, F_bytes (utf8_bytes (ic_source input)));
   (17, F_u8 (hec_state_tag (hec_state hec))); (18, F_bytes (utf8_bytes (hec_url hec)));
   (19, F_u8 (hec_management_tag (input_management hec))); (20, F_bytes (utf8_bytes (hec_input_name hec)));
   (21, F_u16 (listen_port hec)); (22, F_bytes (utf8_bytes (accept_from hec)));
   (23, F_u8 (tls_verification_tag (tls_verification hec))); (24, F_duration (hec_timeout hec));
   (25, F_u64 (cfg_batch_max_events hec)); (26, F_u64 (cfg_batch_max_bytes hec)); (27, F_u64 (cfg_max_event_bytes hec));
   (28, F_u8 (acknowledgment_tag (acknowledgment hec)))].
Definition revision_fingerprint (lineage : array 32) (input : InputConfig) (hec : HecConfig) (mode : TlsMode)
    (tls_ca_pem : option (list byte)) : result DaemonError (array 32) :=
  fingerprint "dbx-rs/revision-fingerprint/v1" (revision_fields lineage input hec mode tls_ca_pem).

(** ** Preparation *)

(** [rising_input_key] and [rising_revision_fingerprint] have no failing field. *)
Definition infallible (r : result DaemonError (array 32)) : array 32 :=
  match r with Ok a => a | Err _ => array_of_list 32 [] end.

Definition prepare_identity (input : InputConfig) (query : array 32) : result DaemonError PreparedIdentity :=
  reject (preparation_error "DBX-RS-PREP-0007" "cursor_configuration")
    when (ic_connector input = str "oracle" ∧ ic_mode input ≠ BatchMode);;
  match ic_mode input with
  | BatchMode =>
      input_id ← batch_input_id (ic_name input);
      lineage ← batch_lineage_fingerprint input_id input query;
      mret (mkIdentity input_id None lineage)
  | RisingMode configured =>
      let state_input_id := ri_input_id configured in
      let input_id := infallible (rising_input_key state_input_id) in
      let spec := mkSpec (ri_timestamp_field configured) (ri_id_field configured) (ri_overlap configured) Reject in
      _ ← map_err (λ _, preparation_error "DBX-RS-PREP-0006" "cursor_configuration") (spec_validate spec);
      cursor_identity ← cursor_identity_fingerprint spec;
      lineage ← rising_lineage_fingerprint state_input_id input query;
      mret (mkIdentity input_id (Some (mkPreparedRising state_input_id spec cursor_identity)) lineage)
  end.

(** The file of a path, by the names of its components. *)
Definition file_of (p : rust_string) : path :=
  omap (λ c, match c with Normal name => Some (utf8_bytes name) | _ => None end) (components p).

Abbreviation reading A := (st fs DaemonError A).
Definition resolve_query (source : QuerySource) : reading rust_string :=
  match source with
  | Inline query => mret query
  | FileQuery p =>
      bytes ← st_map_err (λ _, preparation_error "DBX-RS-PREP-0001" "query_input") (read_limited (file_of p) MAX_QUERY_BYTES);
      st_lift (ok_or (preparation_error "DBX-RS-PREP-0002" "query_input") (from_utf8 bytes))
  end.
Definition resolve_tls_ca (file : option rust_string) : reading (option (list byte)) :=
  match file with
  | None => mret None
  | Some p =>
      bytes ← st_map_err (λ _, preparation_error "DBX-RS-PREP-0003" "tls_ca_input") (read_limited (file_of p) MAX_TLS_CA_BYTES);
      mret (Some bytes)
  end.

Definition as_nanos (d : Duration) : N := secs d * 1000000000 + nanos d.

(** The fingerprints and the result, once the files are read. *)
Definition prepare_resolved (input : InputConfig) (hec : HecConfig) (query : rust_string) (tls_ca_pem : option (list byte))
    : result DaemonError Prepared :=
  tls_mode ← ok_or (preparation_error "DBX-RS-PREP-0004" "tls_configuration") (parse_tls_mode (ic_tls_mode input));
  let connection := mkConnection (ic_connector input) (ic_host input) (ic_port input) (ic_database input) (ic_username input)
    tls_mode (ic_tls_server_name input) tls_ca_pem (ic_connect_timeout input) (ic_probe_timeout input) in
  query_print ← query_fingerprint (ic_connector input) query;
  identity ← prepare_identity input query_print;
  operational ← revision_fingerprint (id_lineage_fingerprint identity) input hec tls_mode tls_ca_pem;
  let revision := match id_rising identity with
    | Some rising => infallible (rising_revision_fingerprint operational (pr_cursor_identity_fingerprint rising)
        (overlap (cursor_spec rising)))
    | None => operational
    end in
  mret (mkPrepared
    (mkPreparedInput (id_input_id identity) (id_rising identity)
      (mkPreparedSchedule (ic_disabled input) (as_nanos (ic_interval input)))
      (mkEventMetadata (ic_index input) (ic_sourcetype input) (ic_source input))
      (id_lineage_fingerprint identity) revision)
    (ic_name input) (ic_connector input) (ic_secret_ref input) connection query
    (mkPreparedLimits (ic_max_rows input) (ic_max_bytes input) (ic_query_timeout input)) query_print).

Definition prepare_input (input : InputConfig) (hec : HecConfig) : reading Prepared :=
  query ← resolve_query (ic_query input);
  tls_ca_pem ← resolve_tls_ca (ic_tls_ca_file input);
  st_lift (prepare_resolved input hec query tls_ca_pem).

(** [prepare_inputs] of runtime.rs collects by name; the first failure ends it. *)
Fixpoint prepare_inputs_loop (hec : HecConfig) (inputs : list InputConfig) (prepared : gmap (list byte) Prepared)
    : reading (gmap (list byte) Prepared) :=
  match inputs with
  | [] => mret prepared
  | input :: inputs =>
      p ← prepare_input input hec;
      prepare_inputs_loop hec inputs (<[utf8_bytes (pw_name p) := p]> prepared)
  end.
Definition prepare_inputs (config : EffectiveConfig) : reading (gmap (list byte) Prepared) :=
  prepare_inputs_loop (g_hec (ec_generic config)) (ec_inputs config) ∅.
End Fingerprints.
