(* ===== verification/PreparedProps.v ===== *)
(** * What a fingerprint says about its input

    The encoding of the fields is injective, so that as long as no two of the hashed
    messages collide a revision fingerprint stands for one configuration. *)

From S2P Require Export Prepared ConfigProps.

Local Open Scope N_scope.
Local Open Scope dbx_scope.

(** ** The encoding of fields *)

(** The widths of the values. *)
Definition field_wf (f : field) : Prop :=
  match f with
  | F_u8 n => n < 256
  | F_u16 n => in_u16 n
  | F_u64 n => in_u64 n
  | F_duration d => in_u64 (secs d) ∧ in_u32 (nanos d)
  | _ => True
  end.
(** The same method of the encoder. *)
Definition same_shape (f g : field) : Prop :=
  match f, g with
  | F_u8 _, F_u8 _ | F_u16 _, F_u16 _ | F_u64 _, F_u64 _ | F_duration _, F_duration _ | F_bytes _, F_bytes _
  | F_fixed_bytes _, F_fixed_bytes _ | F_fixed_bytes_16 _, F_fixed_bytes_16 _
  | F_optional_bytes _, F_optional_bytes _ | F_optional_digest _, F_optional_digest _ => True
  | _, _ => False
  end.

Section Encoding.
Context `{Sha256}.

(** Equal up to what is only hashed. *)
Definition same_field (f g : field) : Prop :=
  match f, g with
  | F_optional_digest a, F_optional_digest b => sha256 <$> a = sha256 <$> b
  | _, _ => f = g
  end.

Lemma length_prefixed_inj a b la lb r1 r2 :
  length_prefixed a = Ok la → length_prefixed b = Ok lb → la ++ r1 = lb ++ r2 → a = b ∧ r1 = r2.
Proof using Type.
  unfold length_prefixed. intros (n & [-> Ha]%ok_or_ok%u32_try_from_some & [= <-])%result_bind_ok
    (m & [-> Hb]%ok_or_ok%u32_try_from_some & [= <-])%result_bind_ok E.
  rewrite <- !app_assoc in E. apply app_inj_1 in E as [El E]; [|by rewrite !length_u32_be].
  apply (f_equal from_be) in El. rewrite !u32_from_be in El by done. apply Nat2N.inj in El.
  by apply app_inj_1 in E.
Qed.

Lemma encode_field_inj tag f g bf bg r1 r2 :
  same_shape f g → field_wf f → field_wf g → encode_field tag f = Ok bf → encode_field tag g = Ok bg →
  bf ++ r1 = bg ++ r2 → same_field f g ∧ r1 = r2.
Proof using Type.
  intros Hs Hf Hg. unfold encode_field. intros (vf & Ef & [= <-])%result_bind_ok (vg & Eg & [= <-])%result_bind_ok.
  cbn [app]. intros E. injection E as E.
  assert (∀ a b : list byte, Ok a = @Ok DaemonError _ vf → Ok b = @Ok DaemonError _ vg → length a = length b → a = b ∧ r1 = r2) as Hfixed.
  { intros a b [= <-] [= <-] Hl. by apply app_inj_1 in E. }
  destruct f, g; try done; cbn [field_wf same_field] in *.
  - destruct (Hfixed _ _ Ef Eg eq_refl) as [Eb ?]. injection Eb as Eb. apply byte_of_N_inj in Eb; [by subst|done..].
  - destruct (Hfixed _ _ Ef Eg ltac:(by rewrite !length_u16_be)) as [Eb ?].
    apply (f_equal from_be) in Eb. rewrite !u16_from_be in Eb by done. by subst.
  - destruct (Hfixed _ _ Ef Eg ltac:(by rewrite !length_u64_be)) as [Eb ?].
    apply (f_equal from_be) in Eb. rewrite !u64_from_be in Eb by done. by subst.
  - destruct (Hfixed _ _ Ef Eg ltac:(by autorewrite with lens)) as [Eb ?].
    apply app_inj_1 in Eb as [E1 E2]; [|by rewrite !length_u64_be]. apply (f_equal from_be) in E1, E2.
    destruct value as [s n], value0 as [s' n'], Hf, Hg; cbn [secs nanos] in *.
    rewrite !u64_from_be in E1 by done. rewrite !u32_from_be in E2 by done. by subst.
  - destruct (length_prefixed_inj _ _ _ _ _ _ Ef Eg E) as [-> ?]. done.
  - destruct (Hfixed _ _ Ef Eg ltac:(by rewrite !length_vec_to_list)) as [Eb ?]. apply vec_to_list_inj2 in Eb. by subst.
  - destruct (Hfixed _ _ Ef Eg ltac:(by rewrite !length_vec_to_list)) as [Eb ?]. apply vec_to_list_inj2 in Eb. by subst.
  - destruct value as [a|], value0 as [b|].
    + destruct (length_prefixed a) as [la|] eqn:Ha; [|discriminate Ef]. destruct (length_prefixed b) as [lb|] eqn:Hb; [|discriminate Eg].
      injection Ef as <-. injection Eg as <-. injection E as E. by destruct (length_prefixed_inj _ _ _ _ _ _ Ha Hb E) as [-> ?].
    + destruct (length_prefixed a) as [la|] eqn:Ha; [|discriminate Ef]. injection Ef as <-. injection Eg as <-. discriminate E.
    + destruct (length_prefixed b) as [lb|] eqn:Hb; [|discriminate Eg]. injection Ef as <-. injection Eg as <-. discriminate E.
    + injection Ef as <-. injection Eg as <-. injection E as ->. done.
  - destruct value as [a|], value0 as [b|]; injection Ef as <-; injection Eg as <-; try discriminate E; cbn in *.
    + injection E as E. apply app_inj_1 in E as [E ->]; [|by rewrite !length_vec_to_list]. apply vec_to_list_inj2 in E. by rewrite E.
    + by injection E as ->.
Qed.

Definition alike (a b : N * field) : Prop := a.1 = b.1 ∧ same_shape a.2 b.2 ∧ field_wf a.2 ∧ field_wf b.2.
Lemma encode_fields_inj fs gs bytes :
  Forall2 alike fs gs → encode_fields fs = Ok bytes → encode_fields gs = Ok bytes →
  Forall2 (λ a b, same_field a.2 b.2) fs gs.
Proof using Type.
  intros Ha. revert bytes. cut (∀ b1 b2 r1 r2, encode_fields fs = Ok b1 → encode_fields gs = Ok b2 → b1 ++ r1 = b2 ++ r2 →
    Forall2 (λ a b, same_field a.2 b.2) fs gs).
  { intros Hcut bytes E1 E2. by apply (Hcut bytes bytes [] []). }
  induction Ha as [|[tag f] [tag' g] fs gs (Htag & Hs & Hf & Hg) _ IH]; intros b1 b2 r1 r2; cbn [encode_fields]; [by constructor|].
  cbn in Htag, Hs, Hf, Hg. subst tag'.
  intros (bf & Ef & (bs & Efs & [= <-])%result_bind_ok)%result_bind_ok (bg & Eg & (bs' & Egs & [= <-])%result_bind_ok)%result_bind_ok.
  rewrite <- !app_assoc. intros E. destruct (encode_field_inj _ _ _ _ _ _ _ Hs Hf Hg Ef Eg E) as [Hsame E'].
  constructor; [done|]. by eapply IH.
Qed.
Lemma message_inj d fs gs bytes :
  Forall2 alike fs gs → message d fs = Ok bytes → message d gs = Ok bytes → Forall2 (λ a b, same_field a.2 b.2) fs gs.
Proof using Type.
  intros Ha (b1 & E1 & [= <-])%result_bind_ok (b2 & E2 & [= E%app_inv_head])%result_bind_ok. subst b2.
  by eapply encode_fields_inj.
Qed.
End Encoding.

(** ** Inversion of a preparation *)

(** What the types of the fields guarantee. *)
Definition duration_typed (d : Duration) : Prop := in_u64 (secs d) ∧ in_u32 (nanos d).
Record input_typed (i : InputConfig) : Prop := mkInputTyped {
  it_texts : Forall wf_string [ic_name i; ic_connector i; ic_host i; ic_database i; ic_username i; ic_secret_ref i; ic_index i;
    ic_sourcetype i; ic_source i];
  it_server_name name : ic_tls_server_name i = Some name → wf_string name;
  it_port : in_u16 (ic_port i);
  it_limits : in_u64 (ic_max_rows i) ∧ in_u64 (ic_max_bytes i);
  it_durations : Forall duration_typed [ic_connect_timeout i; ic_probe_timeout i; ic_query_timeout i; ic_interval i];
  it_rising r : ic_mode i = RisingMode r →
    wf_string (ri_timestamp_field r) ∧ wf_string (ri_id_field r) ∧ duration_typed (ri_overlap r);
}.
Record hec_typed (h : HecConfig) : Prop := mkHecTyped {
  ht_texts : Forall wf_string [hec_url h; hec_input_name h; accept_from h];
  ht_port : in_u16 (listen_port h);
  ht_timeout : duration_typed (hec_timeout h);
  ht_limits : Forall in_u64 [cfg_batch_max_events h; cfg_batch_max_bytes h; cfg_max_event_bytes h];
}.

Definition spec_of (r : RisingInputConfig) : TimestampIdCursorSpec :=
  mkSpec (ri_timestamp_field r) (ri_id_field r) (ri_overlap r) Reject.

Section Binding.
Context `{Sha256}.

Lemma fingerprint_ok d fs a : fingerprint d fs = Ok a ↔ ∃ m, message d fs = Ok m ∧ a = sha256 m.
Proof using Type. unfold fingerprint. destruct (message d fs) as [m|e]; naive_solver. Qed.

(** The messages that a preparation hashes. *)
Definition digested (d : string) (fs : list (N * field)) : list (list byte) :=
  match message d fs with Ok m => [m] | Err _ => [] end.
Definition identity_messages (input : InputConfig) (p : Prepared) : list (list byte) :=
  match ic_mode input with
  | BatchMode =>
      digested "dbx-rs/batch-input-id/v1" (batch_input_id_fields (ic_name input))
      ++ digested "dbx-rs/lineage-fingerprint/v1"
           (batch_lineage_fields (pi_input_id (pw_input p)) input (pw_query_fingerprint p))
  | RisingMode r =>
      digested "dbx-rs/rising-cursor-identity-fingerprint/v1" (cursor_identity_fields (spec_of r))
      ++ digested "dbx-rs/rising-source-lineage-fingerprint/v1"
           (rising_lineage_fields (ri_input_id r) input (pw_query_fingerprint p))
  end.
Definition revision_messages (input : InputConfig) (hec : HecConfig) (mode : TlsMode) (ca : option (list byte)) (p : Prepared)
    : list (list byte) :=
  digested "dbx-rs/revision-fingerprint/v1" (revision_fields (pi_lineage_fingerprint (pw_input p)) input hec mode ca)
  ++ match pi_rising (pw_input p), revision_fingerprint (pi_lineage_fingerprint (pw_input p)) input hec mode ca with
     | Some rising, Ok operational => digested "dbx-rs/rising-revision-fingerprint/v1"
         (rising_revision_fields operational (pr_cursor_identity_fingerprint rising) (overlap (cursor_spec rising)))
     | _, _ => []
     end.
Definition messages (input : InputConfig) (hec : HecConfig) (query : rust_string) (ca : option (list byte)) (p : Prepared)
    : list (list byte) :=
  digested "dbx-rs/query-fingerprint/v1" (query_fields (ic_connector input) query) ++ identity_messages input p
  ++ match parse_tls_mode (ic_tls_mode input) with Some mode => revision_messages input hec mode ca p | None => [] end
  ++ option_list ca.

(** No two of the messages have one digest. *)
Definition collision_free (ms : list (list byte)) : Prop := ∀ a b, a ∈ ms → b ∈ ms → sha256 a = sha256 b → a = b.

Lemma fingerprint_inj ms d fs gs a :
  collision_free ms → digested d fs ⊆ ms → digested d gs ⊆ ms → Forall2 alike fs gs →
  fingerprint d fs = Ok a → fingerprint d gs = Ok a → Forall2 (λ x y, same_field x.2 y.2) fs gs.
Proof using Type.
  intros Hms Hf Hg Ha (m1 & E1 & ->)%fingerprint_ok (m2 & E2 & E)%fingerprint_ok. unfold digested in *.
  rewrite E1 in Hf. rewrite E2 in Hg. apply Hms in E; [|apply Hf, list_elem_of_here|apply Hg, list_elem_of_here].
  subst m2. by eapply message_inj.
Qed.

(** The equations behind a prepared input. *)
Lemma prepare_resolved_ok input hec query ca p :
  prepare_resolved input hec query ca = Ok p →
  ∃ mode operational, parse_tls_mode (ic_tls_mode input) = Some mode
    ∧ query_fingerprint (ic_connector input) query = Ok (pw_query_fingerprint p)
    ∧ revision_fingerprint (pi_lineage_fingerprint (pw_input p)) input hec mode ca = Ok operational
    ∧ match ic_mode input with
      | BatchMode => pi_rising (pw_input p) = None ∧ batch_input_id (ic_name input) = Ok (pi_input_id (pw_input p))
          ∧ batch_lineage_fingerprint (pi_input_id (pw_input p)) input (pw_query_fingerprint p)
            = Ok (pi_lineage_fingerprint (pw_input p))
          ∧ pi_revision_fingerprint (pw_input p) = operational
      | RisingMode r => ∃ cursor_identity,
          pi_rising (pw_input p) = Some (mkPreparedRising (ri_input_id r) (spec_of r) cursor_identity)
          ∧ spec_validate (spec_of r) = Ok tt
          ∧ cursor_identity_fingerprint (spec_of r) = Ok cursor_identity
          ∧ rising_lineage_fingerprint (ri_input_id r) input (pw_query_fingerprint p) = Ok (pi_lineage_fingerprint (pw_input p))
          ∧ pi_revision_fingerprint (pw_input p)
            = infallible (rising_revision_fingerprint operational cursor_identity (ri_overlap r))
      end.
Proof using Type.
  unfold prepare_resolved. intros (mode & Hmode%ok_or_ok & Hrun)%result_bind_ok.
  apply result_bind_ok in Hrun as (qp & Hq & Hrun). apply result_bind_ok in Hrun as (identity & Hid & Hrun).
  apply result_bind_ok in Hrun as (operational & Hop & Hrun). injection Hrun as <-. exists mode, operational.
  cbn [pw_input pw_query_fingerprint pi_lineage_fingerprint pi_rising pi_input_id pi_revision_fingerprint].
  split; [done|]. split; [done|]. split; [done|]. unfold prepare_identity in Hid. case_decide; [discriminate Hid|].
  destruct (ic_mode input) as [|r].
  - apply result_bind_ok in Hid as (id & Hi & Hid). apply result_bind_ok in Hid as (lineage & Hl & Hid). by injection Hid as <-.
  - cbn zeta in Hid. apply result_bind_ok in Hid as ([] & Hs%map_err_ok & Hid).
    apply result_bind_ok in Hid as (cursor & Hc & Hid). apply result_bind_ok in Hid as (lineage & Hl & Hid).
    injection Hid as <-. by exists cursor.
Qed.

Lemma rising_revision_total operational cursor overlap :
  rising_revision_fingerprint operational cursor overlap = Ok (infallible (rising_revision_fingerprint operational cursor overlap)).
Proof using Type. done. Qed.

(** *** One message after the other *)
Lemma tags_bounded :
  (∀ m, tls_mode_tag m < 256) ∧ (∀ p, cursor_null_policy_tag p < 256) ∧ (∀ s, hec_state_tag s < 256)
  ∧ (∀ m, hec_management_tag m < 256) ∧ (∀ v, tls_verification_tag v < 256) ∧ (∀ a, acknowledgment_tag a < 256)
  ∧ (∀ b : bool, (if b then 1 else 0) < 256).
Proof using Type. split_and!; by intros []. Qed.
Ltac alike := repeat (apply Forall2_cons; split; [split_and!; cbn; try done; try by apply tags_bounded|]); [..|by constructor].
Ltac fields_equal H :=
  repeat (apply Forall2_cons in H as [? H]); cbn [snd same_field F_boolean] in *;
  repeat match goal with
  | E : F_bytes _ = F_bytes _ |- _ => injection E as E
  | E : F_u8 _ = F_u8 _ |- _ => injection E as E
  | E : F_u16 _ = F_u16 _ |- _ => injection E as E
  | E : F_u64 _ = F_u64 _ |- _ => injection E as E
  | E : F_duration _ = F_duration _ |- _ => injection E as E
  | E : F_fixed_bytes _ = F_fixed_bytes _ |- _ => injection E as E
  | E : F_fixed_bytes_16 _ = F_fixed_bytes_16 _ |- _ => injection E as E
  | E : F_optional_bytes _ = F_optional_bytes _ |- _ => injection E as E
  | E : utf8_bytes _ = utf8_bytes _ |- _ => apply utf8_bytes_inj in E; [|assumption|assumption]
  end.

Lemma query_binds ms connector1 query1 connector2 query2 a :
  collision_free ms → digested "dbx-rs/query-fingerprint/v1" (query_fields connector1 query1) ⊆ ms →
  digested "dbx-rs/query-fingerprint/v1" (query_fields connector2 query2) ⊆ ms →
  Forall wf_string [connector1; connector2; query1; query2] →
  query_fingerprint connector1 query1 = Ok a → query_fingerprint connector2 query2 = Ok a →
  connector1 = connector2 ∧ query1 = query2.
Proof using Type.
  intros Hms H1 H2 Hwf E1 E2. rewrite !Forall_cons in Hwf. destruct Hwf as (? & ? & ? & ? & _).
  assert (Forall2 (λ x y, same_field x.2 y.2) (query_fields connector1 query1) (query_fields connector2 query2)) as Hf.
  { eapply fingerprint_inj; [exact Hms|exact H1|exact H2| |exact E1|exact E2]. unfold query_fields. alike. }
  unfold query_fields in Hf. fields_equal Hf. done.
Qed.

Lemma batch_binds ms input1 input2 id1 id2 q1 q2 a :
  collision_free ms → input_typed input1 → input_typed input2 →
  digested "dbx-rs/batch-input-id/v1" (batch_input_id_fields (ic_name input1))
    ++ digested "dbx-rs/lineage-fingerprint/v1" (batch_lineage_fields id1 input1 q1) ⊆ ms →
  digested "dbx-rs/batch-input-id/v1" (batch_input_id_fields (ic_name input2))
    ++ digested "dbx-rs/lineage-fingerprint/v1" (batch_lineage_fields id2 input2 q2) ⊆ ms →
  batch_input_id (ic_name input1) = Ok id1 → batch_input_id (ic_name input2) = Ok id2 →
  batch_lineage_fingerprint id1 input1 q1 = Ok a → batch_lineage_fingerprint id2 input2 q2 = Ok a →
  ic_name input1 = ic_name input2 ∧ ic_host input1 = ic_host input2 ∧ ic_port input1 = ic_port input2
  ∧ ic_database input1 = ic_database input2 ∧ ic_username input1 = ic_username input2 ∧ q1 = q2.
Proof using Type.
  intros Hms T1 T2 [H1 H1']%list_subseteq_app_iff_l [H2 H2']%list_subseteq_app_iff_l I1 I2 E1 E2.
  pose proof (it_texts _ T1) as W1. pose proof (it_texts _ T2) as W2. rewrite !Forall_cons in W1, W2.
  destruct W1 as (? & ? & ? & ? & ? & _), W2 as (? & ? & ? & ? & ? & _).
  pose proof (it_port _ T1). pose proof (it_port _ T2).
  assert (Forall2 (λ x y, same_field x.2 y.2) (batch_lineage_fields id1 input1 q1) (batch_lineage_fields id2 input2 q2)) as Hf.
  { eapply fingerprint_inj; [exact Hms|exact H1'|exact H2'| |exact E1|exact E2]. unfold batch_lineage_fields. alike. }
  unfold batch_lineage_fields in Hf. fields_equal Hf. subst id2.
  assert (Forall2 (λ x y, same_field x.2 y.2) (batch_input_id_fields (ic_name input1)) (batch_input_id_fields (ic_name input2))) as Hf'.
  { eapply fingerprint_inj; [exact Hms|exact H1|exact H2| |exact I1|exact I2]. unfold batch_input_id_fields. alike. }
  unfold batch_input_id_fields in Hf'. fields_equal Hf'. done.
Qed.

Lemma rising_binds ms input1 input2 id1 id2 q1 q2 a :
  collision_free ms → input_typed input1 → input_typed input2 →
  digested "dbx-rs/rising-source-lineage-fingerprint/v1" (rising_lineage_fields id1 input1 q1) ⊆ ms →
  digested "dbx-rs/rising-source-lineage-fingerprint/v1" (rising_lineage_fields id2 input2 q2) ⊆ ms →
  rising_lineage_fingerprint id1 input1 q1 = Ok a → rising_lineage_fingerprint id2 input2 q2 = Ok a →
  id1 = id2 ∧ ic_host input1 = ic_host input2 ∧ ic_port input1 = ic_port input2
  ∧ ic_database input1 = ic_database input2 ∧ ic_username input1 = ic_username input2 ∧ q1 = q2.
Proof using Type.
  intros Hms T1 T2 H1 H2 E1 E2.
  pose proof (it_texts _ T1) as W1. pose proof (it_texts _ T2) as W2. rewrite !Forall_cons in W1, W2.
  destruct W1 as (? & ? & ? & ? & ? & _), W2 as (? & ? & ? & ? & ? & _).
  pose proof (it_port _ T1). pose proof (it_port _ T2).
  assert (Forall2 (λ x y, same_field x.2 y.2) (rising_lineage_fields id1 input1 q1) (rising_lineage_fields id2 input2 q2)) as Hf.
  { eapply fingerprint_inj; [exact Hms|exact H1|exact H2| |exact E1|exact E2]. unfold rising_lineage_fields. alike. }
  unfold rising_lineage_fields in Hf. fields_equal Hf. done.
Qed.

Lemma cursor_binds ms spec1 spec2 a :
  collision_free ms → digested "dbx-rs/rising-cursor-identity-fingerprint/v1" (cursor_identity_fields spec1) ⊆ ms →
  digested "dbx-rs/rising-cursor-identity-fingerprint/v1" (cursor_identity_fields spec2) ⊆ ms →
  Forall wf_string [timestamp_field spec1; id_field spec1; timestamp_field spec2; id_field spec2] →
  cursor_identity_fingerprint spec1 = Ok a → cursor_identity_fingerprint spec2 = Ok a →
  timestamp_field spec1 = timestamp_field spec2 ∧ id_field spec1 = id_field spec2.
Proof using Type.
  intros Hms H1 H2 Hwf E1 E2. rewrite !Forall_cons in Hwf. destruct Hwf as (? & ? & ? & ? & _).
  assert (Forall2 (λ x y, same_field x.2 y.2) (cursor_identity_fields spec1) (cursor_identity_fields spec2)) as Hf.
  { eapply fingerprint_inj; [exact Hms|exact H1|exact H2| |exact E1|exact E2]. unfold cursor_identity_fields. alike. }
  unfold cursor_identity_fields in Hf. fields_equal Hf. done.
Qed.

Lemma rising_revision_binds ms op1 op2 c1 c2 d1 d2 a :
  collision_free ms → duration_typed d1 → duration_typed d2 →
  digested "dbx-rs/rising-revision-fingerprint/v1" (rising_revision_fields op1 c1 d1) ⊆ ms →
  digested "dbx-rs/rising-revision-fingerprint/v1" (rising_revision_fields op2 c2 d2) ⊆ ms →
  rising_revision_fingerprint op1 c1 d1 = Ok a → rising_revision_fingerprint op2 c2 d2 = Ok a →
  op1 = op2 ∧ c1 = c2 ∧ d1 = d2.
Proof using Type.
  intros Hms D1 D2 H1 H2 E1 E2. destruct D1, D2.
  assert (Forall2 (λ x y, same_field x.2 y.2) (rising_revision_fields op1 c1 d1) (rising_revision_fields op2 c2 d2)) as Hf.
  { eapply fingerprint_inj; [exact Hms|exact H1|exact H2| |exact E1|exact E2]. unfold rising_revision_fields. alike. }
  unfold rising_revision_fields in Hf. fields_equal Hf. by subst.
Qed.

(** What a revision fingerprint covers of the input itself, and of the sink. *)
Definition same_operation (i1 i2 : InputConfig) : Prop :=
  ic_disabled i1 = ic_disabled i2 ∧ ic_interval i1 = ic_interval i2 ∧ ic_secret_ref i1 = ic_secret_ref i2
  ∧ ic_tls_server_name i1 = ic_tls_server_name i2 ∧ ic_connect_timeout i1 = ic_connect_timeout i2
  ∧ ic_probe_timeout i1 = ic_probe_timeout i2 ∧ ic_query_timeout i1 = ic_query_timeout i2
  ∧ ic_max_rows i1 = ic_max_rows i2 ∧ ic_max_bytes i1 = ic_max_bytes i2
  ∧ ic_index i1 = ic_index i2 ∧ ic_sourcetype i1 = ic_sourcetype i2 ∧ ic_source i1 = ic_source i2.
Definition same_sink (h1 h2 : HecConfig) : Prop :=
  hec_state h1 = hec_state h2 ∧ hec_url h1 = hec_url h2 ∧ input_management h1 = input_management h2
  ∧ hec_input_name h1 = hec_input_name h2 ∧ listen_port h1 = listen_port h2 ∧ accept_from h1 = accept_from h2
  ∧ tls_verification h1 = tls_verification h2 ∧ hec_timeout h1 = hec_timeout h2
  ∧ cfg_batch_max_events h1 = cfg_batch_max_events h2 ∧ cfg_batch_max_bytes h1 = cfg_batch_max_bytes h2
  ∧ cfg_max_event_bytes h1 = cfg_max_event_bytes h2 ∧ acknowledgment h1 = acknowledgment h2.

Lemma tls_mode_tag_inj m1 m2 : tls_mode_tag m1 = tls_mode_tag m2 → m1 = m2.
Proof using Type. by destruct m1, m2. Qed.
Lemma server_name_inj o1 o2 :
  (∀ name, o1 = Some name → wf_string name) → (∀ name, o2 = Some name → wf_string name) →
  utf8_bytes <$> o1 = utf8_bytes <$> o2 → o1 = o2.
Proof using Type.
  destruct o1 as [a|], o2 as [b|]; cbn; intros H1 H2 E; try done. injection E as E. f_equal. apply utf8_bytes_inj in E; auto.
Qed.

Lemma revision_binds ms l1 l2 i1 i2 h1 h2 m1 m2 c1 c2 a :
  collision_free ms → input_typed i1 → input_typed i2 → hec_typed h1 → hec_typed h2 →
  option_list c1 ++ option_list c2 ⊆ ms →
  digested "dbx-rs/revision-fingerprint/v1" (revision_fields l1 i1 h1 m1 c1) ⊆ ms →
  digested "dbx-rs/revision-fingerprint/v1" (revision_fields l2 i2 h2 m2 c2) ⊆ ms →
  revision_fingerprint l1 i1 h1 m1 c1 = Ok a → revision_fingerprint l2 i2 h2 m2 c2 = Ok a →
  l1 = l2 ∧ same_operation i1 i2 ∧ same_sink h1 h2 ∧ m1 = m2 ∧ c1 = c2.
Proof using Type.
  intros Hms T1 T2 U1 U2 Hca H1 H2 E1 E2.
  pose proof (it_texts _ T1) as W1. pose proof (it_texts _ T2) as W2. rewrite !Forall_cons in W1, W2.
  destruct W1 as (_ & _ & _ & _ & _ & ? & ? & ? & ? & _), W2 as (_ & _ & _ & _ & _ & ? & ? & ? & ? & _).
  pose proof (it_limits _ T1) as [? ?]. pose proof (it_limits _ T2) as [? ?].
  pose proof (it_durations _ T1) as D1. pose proof (it_durations _ T2) as D2. rewrite !Forall_cons in D1, D2.
  destruct D1 as ([??] & [??] & [??] & [??] & _), D2 as ([??] & [??] & [??] & [??] & _).
  pose proof (ht_texts _ U1) as X1. pose proof (ht_texts _ U2) as X2. rewrite !Forall_cons in X1, X2.
  destruct X1 as (? & ? & ? & _), X2 as (? & ? & ? & _).
  pose proof (ht_limits _ U1) as Y1. pose proof (ht_limits _ U2) as Y2. rewrite !Forall_cons in Y1, Y2.
  destruct Y1 as (? & ? & ? & _), Y2 as (? & ? & ? & _).
  pose proof (ht_port _ U1). pose proof (ht_port _ U2). destruct (ht_timeout _ U1), (ht_timeout _ U2).
  assert (Forall2 (λ x y, same_field x.2 y.2) (revision_fields l1 i1 h1 m1 c1) (revision_fields l2 i2 h2 m2 c2)) as Hf.
  { eapply fingerprint_inj; [exact Hms|exact H1|exact H2| |exact E1|exact E2]. unfold revision_fields. alike. }
  unfold revision_fields in Hf. fields_equal Hf.
  match goal with E : utf8_bytes <$> ic_tls_server_name i1 = _ |- _ =>
    apply server_name_inj in E; [|apply (it_server_name _ T1)|apply (it_server_name _ T2)] end.
  match goal with E : tls_mode_tag m1 = _ |- _ => apply tls_mode_tag_inj in E end.
  split; [assumption|]. split; [|split; [|split; [assumption|] ] ].
  - unfold same_operation. split_and!; try assumption. by destruct (ic_disabled i1), (ic_disabled i2).
  - unfold same_sink. split_and!; try assumption;
      [by destruct (hec_state h1), (hec_state h2)|by destruct (input_management h1), (input_management h2)
      |by destruct (tls_verification h1), (tls_verification h2)|by destruct (acknowledgment h1), (acknowledgment h2)].
  - destruct c1 as [b1|], c2 as [b2|]; try done. f_equal. apply Hms; [apply Hca; left|apply Hca; right; left|].
    by match goal with E : sha256 <$> _ = _ |- _ => injection E end.
Qed.

Definition same_source (i1 i2 : InputConfig) (q1 q2 : rust_string) (c1 c2 : option (list byte)) : Prop :=
  ic_connector i1 = ic_connector i2 ∧ ic_host i1 = ic_host i2 ∧ ic_port i1 = ic_port i2 ∧ ic_database i1 = ic_database i2
  ∧ ic_username i1 = ic_username i2 ∧ ic_tls_mode i1 = ic_tls_mode i2 ∧ q1 = q2 ∧ c1 = c2.
(** A batch input is its name; a rising input is its identity and its cursor, whatever its name. *)
Definition same_mode (i1 i2 : InputConfig) : Prop :=
  match ic_mode i1, ic_mode i2 with
  | BatchMode, BatchMode => ic_name i1 = ic_name i2
  | RisingMode r1, RisingMode r2 => r1 = r2
  | _, _ => False
  end.

Lemma parse_tls_mode_inj t1 t2 m : parse_tls_mode t1 = Some m → parse_tls_mode t2 = Some m → t1 = t2.
Proof using Type. unfold parse_tls_mode. intros H1 H2. repeat case_decide; simplify_eq; congruence. Qed.

(** The messages of the two preparations, by what they are. *)
Record hashes (ms : list (list byte)) (input : InputConfig) (hec : HecConfig) (query : rust_string) (ca : option (list byte))
    (p : Prepared) (mode : TlsMode) (operational : array 32) : Prop := mkHashes {
  hs_query : digested "dbx-rs/query-fingerprint/v1" (query_fields (ic_connector input) query) ⊆ ms;
  hs_identity : identity_messages input p ⊆ ms;
  hs_revision : digested "dbx-rs/revision-fingerprint/v1"
    (revision_fields (pi_lineage_fingerprint (pw_input p)) input hec mode ca) ⊆ ms;
  hs_rising rising : pi_rising (pw_input p) = Some rising → digested "dbx-rs/rising-revision-fingerprint/v1"
    (rising_revision_fields operational (pr_cursor_identity_fingerprint rising) (overlap (cursor_spec rising))) ⊆ ms;
  hs_ca : option_list ca ⊆ ms;
}.
Lemma messages_hashes ms input hec query ca p mode operational :
  messages input hec query ca p ⊆ ms → parse_tls_mode (ic_tls_mode input) = Some mode →
  revision_fingerprint (pi_lineage_fingerprint (pw_input p)) input hec mode ca = Ok operational →
  hashes ms input hec query ca p mode operational.
Proof using Type.
  unfold messages, revision_messages. intros Hms Hmode Hop. rewrite Hmode, Hop in Hms.
  split; [..|intros rising Hr; rewrite Hr in Hms| ]; intros x Hx; apply Hms; rewrite !elem_of_app; tauto.
Qed.

(** Revisions of the two modes are hashes of different messages. *)
Lemma modes_apart ms fs gs a :
  collision_free ms → digested "dbx-rs/revision-fingerprint/v1" fs ⊆ ms → digested "dbx-rs/rising-revision-fingerprint/v1" gs ⊆ ms →
  fingerprint "dbx-rs/revision-fingerprint/v1" fs = Ok a → fingerprint "dbx-rs/rising-revision-fingerprint/v1" gs = Ok a → False.
Proof using Type.
  intros Hms H1 H2 (m1 & E1 & ->)%fingerprint_ok (m2 & E2 & E)%fingerprint_ok. unfold digested in *.
  rewrite E1 in H1. rewrite E2 in H2. apply Hms in E; [|apply H1, list_elem_of_here|apply H2, list_elem_of_here].
  apply result_bind_ok in E1 as (b1 & _ & [= <-]). apply result_bind_ok in E2 as (b2 & _ & [= <-]). discriminate E.
Qed.

(** C17: as long as no two of the messages that two preparations hash collide, one revision
    fingerprint stands for one configuration: the same database, account, query, TLS
    settings and CA, limits, schedule, labels and sink, and the same mode, with the same
    name for a batch input and the same identity and cursor for a rising one. *)
Theorem revision_stands_for_configuration i1 h1 q1 c1 p1 i2 h2 q2 c2 p2 :
  input_typed i1 → input_typed i2 → hec_typed h1 → hec_typed h2 → wf_string q1 → wf_string q2 →
  prepare_resolved i1 h1 q1 c1 = Ok p1 → prepare_resolved i2 h2 q2 c2 = Ok p2 →
  collision_free (messages i1 h1 q1 c1 p1 ++ messages i2 h2 q2 c2 p2) →
  pi_revision_fingerprint (pw_input p1) = pi_revision_fingerprint (pw_input p2) →
  same_source i1 i2 q1 q2 c1 c2 ∧ same_operation i1 i2 ∧ same_sink h1 h2 ∧ same_mode i1 i2.
Proof using Type.
  intros T1 T2 U1 U2 Wq1 Wq2 (m1 & o1 & M1 & Q1 & R1 & D1)%prepare_resolved_ok (m2 & o2 & M2 & Q2 & R2 & D2)%prepare_resolved_ok.
  set (ms := _ ++ _). intros Hms Erev.
  destruct (messages_hashes ms i1 h1 q1 c1 p1 m1 o1) as [A1 A2 A3 A4 A5]; [intros x ?; apply elem_of_app; by left|done..|].
  destruct (messages_hashes ms i2 h2 q2 c2 p2 m2 o2) as [B1 B2 B3 B4 B5]; [intros x ?; apply elem_of_app; by right|done..|].
  assert (option_list c1 ++ option_list c2 ⊆ ms) as Hca by (by apply list_subseteq_app_iff_l).
  pose proof (it_texts _ T1) as W1. pose proof (it_texts _ T2) as W2. rewrite !Forall_cons in W1, W2.
  destruct W1 as (_ & W1 & _), W2 as (_ & W2 & _).
  assert (pw_query_fingerprint p1 = pw_query_fingerprint p2 → ic_connector i1 = ic_connector i2 ∧ q1 = q2) as Hquery.
  { intros E. rewrite E in Q1. eapply query_binds; [exact Hms|exact A1|exact B1|by repeat constructor|exact Q1|exact Q2]. }
  assert (o1 = o2 → pi_lineage_fingerprint (pw_input p1) = pi_lineage_fingerprint (pw_input p2)
    ∧ same_operation i1 i2 ∧ same_sink h1 h2 ∧ m1 = m2 ∧ c1 = c2) as Hrevision.
  { intros <-. eapply revision_binds; [exact Hms|done..|exact Hca|exact A3|exact B3|exact R1|exact R2]. }
  unfold identity_messages, same_mode in *.
  destruct (ic_mode i1) as [|r1] eqn:Mode1, (ic_mode i2) as [|r2] eqn:Mode2.
  - destruct D1 as (_ & I1 & L1 & <-), D2 as (_ & I2 & L2 & <-). destruct (Hrevision Erev) as (El & Hop & Hsink & <- & <-).
    rewrite El in L1. destruct (batch_binds ms i1 i2 _ _ _ _ _ Hms T1 T2 A2 B2 I1 I2 L1 L2) as (Hn & Hh & Hp & Hd & Hu & Hq).
    destruct (Hquery Hq) as [Hc ->]. split; [|by split_and!]. split_and!; try done. by eapply parse_tls_mode_inj.
  - exfalso. destruct D1 as (_ & _ & _ & E1), D2 as (cur & P2 & _ & _ & _ & E2). specialize (B4 _ P2). cbn [pr_cursor_identity_fingerprint cursor_spec overlap spec_of] in B4.
    eapply (modes_apart ms); [exact Hms|exact A3|exact B4|exact R1|]. rewrite <- E1, Erev, E2. apply rising_revision_total.
  - exfalso. destruct D2 as (_ & _ & _ & E2), D1 as (cur & P1 & _ & _ & _ & E1). specialize (A4 _ P1). cbn [pr_cursor_identity_fingerprint cursor_spec overlap spec_of] in A4.
    eapply (modes_apart ms); [exact Hms|exact B3|exact A4|exact R2|]. rewrite <- E2, <- Erev, E1. apply rising_revision_total.
  - destruct D1 as (cur1 & P1 & _ & C1 & L1 & E1), D2 as (cur2 & P2 & _ & C2 & L2 & E2).
    specialize (A4 _ P1). specialize (B4 _ P2). cbn [pr_cursor_identity_fingerprint cursor_spec overlap spec_of] in A4, B4.
    apply list_subseteq_app_iff_l in A2 as [A2 A2'], B2 as [B2 B2'].
    destruct (it_rising _ T1 _ Mode1) as (Wt1 & Wi1 & Wo1), (it_rising _ T2 _ Mode2) as (Wt2 & Wi2 & Wo2).
    destruct (rising_revision_binds ms o1 o2 cur1 cur2 (ri_overlap r1) (ri_overlap r2) (pi_revision_fingerprint (pw_input p1)))
      as (Eo & -> & Hov); [done..|rewrite E1; apply rising_revision_total|rewrite Erev, E2; apply rising_revision_total|].
    destruct (Hrevision Eo) as (El & Hop & Hsink & <- & <-). rewrite El in L1.
    destruct (rising_binds ms i1 i2 _ _ _ _ _ Hms T1 T2 A2' B2' L1 L2) as (Hid & Hh & Hp & Hd & Hu & Hq).
    destruct (Hquery Hq) as [Hc ->].
    destruct (cursor_binds ms (spec_of r1) (spec_of r2) cur2 Hms A2 B2) as [Ht Hi]; [by repeat constructor|done..|].
    split; [split_and!; try done; by eapply parse_tls_mode_inj|]. split; [done|]. split; [done|].
    destruct r1, r2. cbn in *. by subst.
Qed.
End Binding.

(** ** Preparing an accepted configuration

    Every input of an accepted configuration can be prepared: only its query file or its
    CA file can fail. *)
(** The texts that the configuration does not bound fit the encoding: below 4 GiB. *)
Definition bounded_texts (i : InputConfig) (h : HecConfig) : Prop :=
  str_len (hec_url h) ≤ u32_max ∧ ∀ name, ic_tls_server_name i = Some name → str_len name ≤ u32_max.

Definition field_fits (f : field) : Prop :=
  match f with
  | F_bytes value | F_optional_bytes (Some value) => lengthN value ≤ u32_max
  | _ => True
  end.

Section Total.
Context `{Sha256}.

Lemma length_prefixed_total value : lengthN value ≤ u32_max → ∃ b, length_prefixed value = Ok b.
Proof using Type. intros Hv. unfold length_prefixed, u32_try_from. rewrite decide_True by done. by eexists. Qed.
Lemma encode_field_total tag f : field_fits f → ∃ b, encode_field tag f = Ok b.
Proof using Type.
  intros Hf. unfold encode_field.
  destruct f as [| | | |v| | |[v|]|[v|]]; try (by eexists); cbn in Hf; destruct (length_prefixed_total v Hf) as [b E];
    rewrite E; by eexists.
Qed.
Lemma fingerprint_total d fs : Forall (λ x, field_fits x.2) fs → ∃ a, fingerprint d fs = Ok a.
Proof using Type.
  intros Hall. assert (∃ b, encode_fields fs = Ok b) as [b E].
  { induction Hall as [|[tag f] fs Hf _ [b IH]]; cbn [encode_fields]; [by eexists|].
    destruct (encode_field_total tag f Hf) as [bf ->]. rewrite ok_bind, IH. by eexists. }
  eexists. apply fingerprint_ok. exists (domain d ++ b). split; [|reflexivity]. unfold message. by rewrite E.
Qed.

Ltac each_field := repeat (apply Forall_cons; split; [cbn [snd field_fits]; try done; try (unfold str_len in *; ulia)|]); [..|by constructor].

Lemma label_length value : valid_label_value value = true → str_len value ≤ 128.
Proof using Type.
  unfold valid_label_value, MAX_LABEL_BYTES. intros [[_ Hl%bool_decide_eq_true]%andb_prop _]%andb_prop. done.
Qed.

(** *** The parts of a preparation *)
Section Input.
Context (roots : PathRoots) (g : GenericConfig) (i : InputConfig).
Context (Hhec : hec_ok (g_hec g)) (Hi : input_ok roots g i) (Htexts : bounded_texts i (g_hec g)).

Lemma texts_short : str_len (ic_connector i) ≤ 128 ∧ str_len (ic_name i) ≤ 128 ∧ str_len (ic_host i) ≤ 512
  ∧ str_len (ic_database i) ≤ 512 ∧ str_len (ic_username i) ≤ 512 ∧ str_len (ic_secret_ref i) ≤ 134
  ∧ str_len (ic_index i) ≤ 128 ∧ str_len (ic_sourcetype i) ≤ 128 ∧ str_len (ic_source i) ≤ 128.
Proof using Hi.
  pose proof (io_texts _ _ _ Hi) as Ht. rewrite !Forall_cons in Ht. destruct Ht as ((_ & ? & _) & (_ & ? & _) & (_ & ? & _) & _).
  pose proof (io_labels _ _ _ Hi) as Hl. rewrite !Forall_cons in Hl. destruct Hl as (?%label_length & ?%label_length & ?%label_length & _).
  split_and!; try done; [|by apply label_length, (io_name _ _ _ Hi)|].
  - pose proof (io_connector _ _ _ Hi) as Hc. revert Hc. generalize (ic_connector i). apply Forall_forall.
    apply (bool_decide_unpack _). vm_compute. exact I.
  - destruct (io_secret _ _ _ Hi) as (label & -> & Hlabel%label_length).
    unfold str_len, utf8_bytes in *. rewrite bind_app, lengthN_app. change (lengthN (str "local:" ≫= utf8_char)) with 6. lia.
Qed.

Lemma query_total query : str_len query ≤ MAX_QUERY_BYTES → ∃ a, query_fingerprint (ic_connector i) query = Ok a.
Proof using Hi.
  unfold MAX_QUERY_BYTES. intros Hq. destruct texts_short as (? & _). apply fingerprint_total. unfold query_fields. each_field.
Qed.
Lemma revision_total lineage mode ca : ∃ a, revision_fingerprint lineage i (g_hec g) mode ca = Ok a.
Proof using Hhec Hi Htexts.
  destruct texts_short as (? & ? & ? & ? & ? & ? & ? & ? & ?). destruct Htexts as [Hurl Hname].
  pose proof (ho_accept _ Hhec) as [? _]. pose proof (ho_labels _ Hhec) as Hl. rewrite !Forall_cons in Hl.
  destruct Hl as (?%label_length & _). apply fingerprint_total. unfold revision_fields. each_field.
  destruct (ic_tls_server_name i) as [name|]; cbn; [by apply Hname|done].
Qed.
Lemma tls_mode_known : ∃ mode, parse_tls_mode (ic_tls_mode i) = Some mode.
Proof using Hi.
  pose proof (io_tls_mode _ _ _ Hi) as Hm. revert Hm. generalize (ic_tls_mode i). intros m Hm.
  assert (Forall (λ m, is_Some (parse_tls_mode m)) (str <$> ["disable"; "verify-full"])) as Hall
    by (repeat constructor; vm_compute; by eexists).
  rewrite Forall_forall in Hall. destruct (Hall m Hm) as [mode E]. by exists mode.
Qed.

Lemma cursor_spec_valid r : ic_mode i = RisingMode r → spec_validate (spec_of r) = Ok tt.
Proof using Hi.
  intros Hr. destruct (io_rising _ _ _ Hi _ Hr) as [_ Hf Hd (a & b & Ea & Eb) (_ & Ho & Hn)]. rewrite !Forall_cons in Hf.
  destruct Hf as ((Hne1 & _) & (Hne2 & _) & _). apply spec_validate_ok. unfold spec_of. cbn [timestamp_field id_field overlap].
  split_and!; [rewrite Ea in *; by apply trim_trimmed|rewrite Eb in *; by apply trim_trimmed|done|by rewrite Hn|].
  unfold as_micros. rewrite Hn. unfold HARD_INTERVAL_SECONDS in Ho. change (0 / 1000) with 0. ulia.
Qed.

Lemma identity_total query : ∃ identity, prepare_identity i query = Ok identity.
Proof using Hi.
  destruct texts_short as (? & ? & ? & ? & ? & ? & ? & ? & ?). unfold prepare_identity.
  rewrite decide_False by (intros [Hc Hm]; by apply Hm, (io_oracle _ _ _ Hi)).
  destruct (ic_mode i) as [|r] eqn:Hr.
  - destruct (fingerprint_total "dbx-rs/batch-input-id/v1" (batch_input_id_fields (ic_name i))) as [id Eid];
      [unfold batch_input_id_fields; each_field|].
    unfold batch_input_id. rewrite Eid, ok_bind.
    destruct (fingerprint_total "dbx-rs/lineage-fingerprint/v1" (batch_lineage_fields id i query)) as [l El];
      [unfold batch_lineage_fields; each_field|].
    unfold batch_lineage_fingerprint. rewrite El. by eexists.
  - cbn zeta. pose proof (cursor_spec_valid r Hr) as Hs. unfold spec_of in Hs. rewrite Hs. cbn [map_err]. rewrite ok_bind.
    destruct (io_rising _ _ _ Hi _ Hr) as [_ Hf _ _ _]. rewrite !Forall_cons in Hf.
    destruct Hf as ((_ & Hl1 & _) & (_ & Hl2 & _) & _). unfold MAX_POSTGRES_IDENTIFIER_BYTES in *.
    destruct (fingerprint_total "dbx-rs/rising-cursor-identity-fingerprint/v1" (cursor_identity_fields (spec_of r))) as [c Ec];
      [unfold cursor_identity_fields, spec_of; cbn [timestamp_field id_field]; each_field|]. unfold spec_of in Ec.
    unfold cursor_identity_fingerprint. rewrite Ec, ok_bind.
    destruct (fingerprint_total "dbx-rs/rising-source-lineage-fingerprint/v1" (rising_lineage_fields (ri_input_id r) i query)) as [l El];
      [unfold rising_lineage_fields; each_field|].
    unfold rising_lineage_fingerprint. rewrite El. by eexists.
Qed.

Lemma prepare_resolved_total query ca : str_len query ≤ MAX_QUERY_BYTES →
  ∃ p, prepare_resolved i (g_hec g) query ca = Ok p ∧ pw_name p = ic_name i.
Proof using Hhec Hi Htexts.
  intros Hq. unfold prepare_resolved. destruct tls_mode_known as [mode ->]. cbn [ok_or]. rewrite ok_bind. cbn zeta.
  destruct (query_total query Hq) as [qp ->]. rewrite ok_bind. destruct (identity_total qp) as [identity ->]. rewrite ok_bind.
  destruct (revision_total (id_lineage_fingerprint identity) mode ca) as [op ->]. rewrite ok_bind. by eexists.
Qed.
End Input.
End Total.

(** ** Reading the files *)
Lemma read_limited_length p max s s' bytes : read_limited p max s = (s', Ok bytes) → lengthN bytes ≤ max.
Proof.
  unfold read_limited, read_limited_inner. intros (? & s1 & _ & Hr)%st_bind_ok. apply st_bind_ok in Hr as (? & s2 & _ & Hr).
  apply st_bind_ok in Hr as (? & s3 & _ & Hr). case_decide; [discriminate Hr|].
  apply st_bind_ok in Hr as (? & s4 & _ & Hr). apply st_bind_ok in Hr as (b & s5 & _ & Hr).
  case_decide as Hl; [discriminate Hr|]. injection Hr as _ <-. lia.
Qed.

Section Prepare.
Context `{Sha256}.

Lemma resolve_query_cases source s : match resolve_query source s with
  | (_, Ok query) => str_len query ≤ MAX_QUERY_BYTES ∨ source = Inline query
  | (_, Err e) => ∃ file, source = FileQuery file ∧ de_code e ∈ ["DBX-RS-PREP-0001"; "DBX-RS-PREP-0002"]
  end.
Proof using Type.
  destruct source as [file|query]; cbn [resolve_query]; [|by right].
  destruct (read_limited (file_of file) MAX_QUERY_BYTES s) as [s1 [bytes|e]] eqn:Hread.
  - rewrite (st_bind_run _ _ s s1 bytes) by (unfold st_map_err; by rewrite Hread).
    apply read_limited_length in Hread. unfold st_lift. destruct (from_utf8 bytes) as [query|] eqn:Hu; cbn [ok_or].
    + left. apply from_utf8_some in Hu as [Hu _]. unfold str_len. by rewrite Hu.
    + exists file. split; [done|]. right. left.
  - unfold mbind, st_bind, st_map_err. rewrite Hread. cbn [map_err]. exists file. split; [done|]. left.
Qed.
Lemma resolve_tls_ca_cases file s : match resolve_tls_ca file s with
  | (_, Ok _) => True
  | (_, Err e) => ∃ p, file = Some p ∧ de_code e = "DBX-RS-PREP-0003"
  end.
Proof using Type.
  destruct file as [p|]; cbn [resolve_tls_ca]; [|done].
  destruct (read_limited (file_of p) MAX_TLS_CA_BYTES s) as [s1 [bytes|e]] eqn:Hread.
  - by rewrite (st_bind_run _ _ s s1 bytes) by (unfold st_map_err; by rewrite Hread).
  - unfold mbind, st_bind, st_map_err. rewrite Hread. cbn [map_err]. by exists p.
Qed.

(** C19: preparing an input of an accepted configuration can fail only for its files: with
    the codes of the query file when it has one, with the code of the CA when it has one.
    In every other case the input is prepared under its name: neither the TLS mode, nor
    the cursor, nor a fingerprint fails. *)
Theorem accepted_input_prepares load exists_ load_and_append roots config i s :
  load_effective_config load exists_ load_and_append roots = Ok config → i ∈ ec_inputs config →
  bounded_texts i (g_hec (ec_generic config)) →
  match prepare_input i (g_hec (ec_generic config)) s with
  | (_, Ok p) => pw_name p = ic_name i
  | (_, Err e) =>
      (∃ file, ic_query i = FileQuery file ∧ de_code e ∈ ["DBX-RS-PREP-0001"; "DBX-RS-PREP-0002"])
      ∨ ∃ file, ic_tls_ca_file i = Some file ∧ de_code e = "DBX-RS-PREP-0003"
  end.
Proof using Type.
  intros (_ & _ & _ & _ & Hhec & Hall & _)%load_effective_config_ok Hin Htexts. rewrite Forall_forall in Hall.
  pose proof (Hall i Hin) as Hi. unfold prepare_input, mbind, st_bind.
  pose proof (resolve_query_cases (ic_query i) s) as Hq. destruct (resolve_query (ic_query i) s) as [s1 [query|e]]; [|by left].
  pose proof (resolve_tls_ca_cases (ic_tls_ca_file i) s1) as Hc. destruct (resolve_tls_ca _ s1) as [s2 [ca|e]]; [|by right].
  assert (str_len query ≤ MAX_QUERY_BYTES) as Hl.
  { destruct Hq as [Hq|Hq]; [done|]. pose proof (io_query _ _ _ Hi) as Hb. rewrite Hq in Hb. by destruct Hb as (_ & ? & _). }
  destruct (prepare_resolved_total roots (ec_generic config) i Hhec Hi Htexts query ca Hl) as (p & E & Hn).
  unfold st_lift. by rewrite E.
Qed.
End Prepare.
