(* ===== verification/ConfigDemo.v ===== *)
(** * A small configuration, loaded and prepared

    The files of one installation with a batch and a rising input, and the witnesses of
    the theorems on configurations and prepared inputs. *)

From S2P Require Import StateStoreDemo.
From S2P Require Export Settings PreparedProps.

Local Open Scope N_scope.
Local Open Scope dbx_scope.

(** ** The files *)
Definition ini_of (sections : list (string * list (string * string))) : Ini :=
  mkIni ((λ s : string * list (string * string), (str s.1, str <$> s.2.*1)) <$> sections)
    (λ section key,
       '(_, (_, entries)) ← list_find (λ s : string * list (string * string), str s.1 = section) sections;
       '(_, (_, value)) ← list_find (λ e : string * string, str e.1 = key) entries;
       Some (str value)).

Definition generic_file : Ini := ini_of [
  ("paths", [("log_file", "$SPLUNK_HOME/var/log/trace.log"); ("splunkd_pid_file", "$SPLUNK_HOME/var/run/splunkd.pid");
    ("instance_lock_file", "$SPLUNK_HOME/var/run/splunk/dbx-rs/daemon.lock"); ("master_key_file", "/o/var/lib/master.key");
    ("secret_dir", "/o/var/lib/secrets"); ("deployment_identity_file", "/o/var/lib/identity");
    ("deployment_receipt_dir", "/o/var/lib/receipts"); ("hec_token_file", "/o/var/lib/token");
    ("hec_server_pem_file", "/o/var/lib/server.pem"); ("hec_ca_file", "/o/var/lib/ca.pem");
    ("spool_key_file", "/o/var/lib/spool.key"); ("state_dir", "/o/var/lib/state"); ("spool_dir", "/o/var/lib/./spool");
    ("managed_inputs_file", "$DBX_RS_APP_HOME/local/inputs.conf")]);
  ("logging", [("max_file_bytes", "10000000"); ("backup_count", "2")]);
  ("daemon", [("poll_interval_ms", "1500"); ("shutdown_grace_secs", "30"); ("configuration_reload_secs", "5");
    ("max_workers", "auto")]);
  ("spool", [("segment_max_bytes", "10000"); ("input_max_bytes", "20000"); ("total_max_bytes", "30000")]);
  ("hec", [("enabled", "true"); ("manage_input", "yes"); ("url", "https://localhost:8088/services/collector/event");
    ("input_name", "dbx_rs"); ("listen_port", "8088"); ("accept_from", "127.0.0.1,::1"); ("verify_tls", "Off");
    ("timeout_secs", "10"); ("batch_max_events", "500"); ("batch_max_bytes", "1000000"); ("max_event_bytes", "+1000000");
    ("index", "main"); ("sourcetype", "row"); ("source", "daemon"); ("use_ack", "1")])].

Definition common_settings : list (string * string) := [
  ("disabled", "false"); ("connector", "postgres"); ("interval_secs", "60"); ("host", "db"); ("port", "5432");
  ("database", "events"); ("username", "reader"); ("secret_ref", "local:k"); ("tls_mode", "disable");
  ("connect_timeout_secs", "10"); ("probe_timeout_secs", "10"); ("max_rows", "2"); ("max_bytes", "1000");
  ("query_timeout_secs", "30"); ("query", "  select 1 ")].
Definition rising_settings : list (string * string) := [
  ("mode", "rising"); ("input_id", "123e4567-e89b-12d3-a456-426614174000"); ("cursor_timestamp_field", "t");
  ("cursor_id_field", "i")].
Definition inputs_file : Ini := ini_of [("rows", common_settings ++ rising_settings); ("batch", common_settings)].

Definition demo_roots : PathRoots := mkRoots (str "/o/app") (str "/o").
Definition load_demo (p : rust_string) : option Ini :=
  if decide (p = str "/o/app/default/dbxrs_generic.conf") then Some generic_file
  else if decide (p = str "/o/app/default/dbxrs_inputs.conf") then Some inputs_file else None.
Definition loading := load_effective_config load_demo (λ _, false) (λ ini _, Some ini) demo_roots.
Definition demo_config : EffectiveConfig := Eval vm_compute in
  match loading with Ok c => c | Err _ =>
    mkEffective (mkGeneric (mkPaths [] [] [] [] [] [] [] [] [] [] [] [] [] []) (mkLogging 0 0)
      (mkDaemonConfig (seconds 0) (seconds 0) (seconds 0) Auto) (mkSpoolConfig 0 0 0)
      (mkHecConfig HecDisabled External [] [] 0 [] VerificationFull (seconds 0) 0 0 0 [] [] [] AckDisabled)) []
  end.
Lemma loading_ok : loading = Ok demo_config.
Proof. vm_compute. reflexivity. Qed.

Lemma accepted_configuration_ok_witness :
  loading = Ok demo_config ∧ Forall (input_ok demo_roots (ec_generic demo_config)) (ec_inputs demo_config)
  ∧ (ic_name <$> ec_inputs demo_config) = [str "batch"; str "rows"] ∧ NoDup (rising_ids (ec_inputs demo_config)).
Proof.
  split; [exact loading_ok|].
  destruct (accepted_configuration_ok load_demo (λ _, false) (λ ini _, Some ini) demo_roots demo_config loading_ok)
    as (_ & _ & _ & _ & _ & Hall & Hnd & _). by split_and!.
Defined.

(** ** A segment for the batch input *)
Definition batch_config : InputConfig := Eval vm_compute in hd (hd (mkInput [] false BatchMode [] (seconds 0) [] 0 [] [] [] [] None None
  (Inline []) (seconds 0) (seconds 0) 0 0 (seconds 0) [] [] []) (ec_inputs demo_config)) (ec_inputs demo_config).
Definition rising_config : InputConfig := Eval vm_compute in List.last (ec_inputs demo_config) batch_config.
Lemma batch_configured : batch_config ∈ ec_inputs demo_config.
Proof. left. Qed.

#[local] Existing Instance demo_crypto.
#[local] Existing Instance demo_laws.
#[local] Existing Instance demo_total.
#[local] Instance config_sha256 : Sha256 := λ l, array_of_list 32 (x01 :: rev l).

Lemma accepted_input_fits_segment_witness :
  lengthN [[x61]; [x62; x63]] ≤ ic_max_rows batch_config ∧
  ∃ limits, configured_spool_limits demo_config = Ok limits ∧
  ∃ f e e', start demo_key demo_salt demo_id demo_header (limit_segment limits) (mkSink [] []) = (f, Ok e)
    ∧ append_all [[x61]; [x62; x63]] e = (e', Ok tt).
Proof.
  split; [vm_compute; discriminate|].
  apply (accepted_input_fits_segment load_demo (λ _, false) (λ ini _, Some ini) demo_roots demo_config batch_config);
    [exact loading_ok|exact batch_configured|constructor|by repeat constructor|vm_compute; discriminate..].
Defined.

(** ** Preparation *)
Definition no_files : fs := disk0.
Lemma accepted_input_prepares_witness :
  ∃ s' p, prepare_input rising_config (g_hec (ec_generic demo_config)) no_files = (s', Ok p) ∧ pw_name p = str "rows".
Proof.
  pose proof (accepted_input_prepares load_demo (λ _, false) (λ ini _, Some ini) demo_roots demo_config rising_config no_files
    loading_ok ltac:(right; left) ltac:(split; [vm_compute; discriminate|intros name [=]])) as Hp.
  destruct (prepare_input rising_config (g_hec (ec_generic demo_config)) no_files) as [s' [p|e]].
  - by exists s', p.
  - exfalso. destruct Hp as [(file & E & _)|(file & E & _)]; discriminate E.
Defined.

(** The rising input under another name has the same revision. *)
Definition renamed_config : InputConfig :=
  mkInput (str "renamed") (ic_disabled rising_config) (ic_mode rising_config) (ic_connector rising_config)
    (ic_interval rising_config) (ic_host rising_config) (ic_port rising_config) (ic_database rising_config)
    (ic_username rising_config) (ic_secret_ref rising_config) (ic_tls_mode rising_config) (ic_tls_server_name rising_config)
    (ic_tls_ca_file rising_config) (ic_query rising_config) (ic_connect_timeout rising_config) (ic_probe_timeout rising_config)
    (ic_max_rows rising_config) (ic_max_bytes rising_config) (ic_query_timeout rising_config) (ic_index rising_config)
    (ic_sourcetype rising_config) (ic_source rising_config).
Definition demo_hec : HecConfig := g_hec (ec_generic demo_config).
Definition prepared_as (i : InputConfig) : Prepared :=
  match prepare_resolved i demo_hec (str "select 1") None with
  | Ok p => p
  | Err _ => mkPrepared (mkPreparedInput (array_of_list 32 []) None (mkPreparedSchedule true 0) (mkEventMetadata [] [] [])
      (array_of_list 32 []) (array_of_list 32 [])) [] [] [] (mkConnection [] [] 0 [] [] TlsDisable None None (seconds 0) (seconds 0))
      [] (mkPreparedLimits 0 0 (seconds 0)) (array_of_list 32 [])
  end.
Definition no_collision (ms : list (list byte)) : bool :=
  forallb (λ a, forallb (λ b, bool_decide (sha256 a ≠ sha256 b ∨ a = b)) ms) ms.
Lemma no_collision_free ms : no_collision ms = true → collision_free ms.
Proof.
  unfold no_collision. rewrite forallb_forall. intros Hall a b Ha Hb E. specialize (Hall a (proj1 (list_elem_of_In _ _) Ha)).
  rewrite forallb_forall in Hall. specialize (Hall b (proj1 (list_elem_of_In _ _) Hb)).
  by apply bool_decide_eq_true in Hall as [?|?].
Qed.
Ltac typed :=
  lazymatch goal with
  | |- wf_string _ => apply (bool_decide_unpack (Forall is_scalar _)); vm_compute; exact I
  | |- Forall wf_string _ => apply (bool_decide_unpack (Forall (Forall is_scalar) _)); vm_compute; exact I
  | |- ∀ _ : rust_string, _ => let E := fresh in intros ? E; discriminate E
  | |- ∀ _ : RisingInputConfig, _ => let E := fresh in intros ? E; injection E as <-
  | |- _ ∧ _ => split
  | |- duration_typed _ => split
  | |- Forall _ _ => constructor
  | |- _ => vm_compute; discriminate
  end.
Lemma rising_config_typed : input_typed rising_config.
Proof. split; repeat typed. Qed.
Lemma renamed_config_typed : input_typed renamed_config.
Proof. split; repeat typed. Qed.
Lemma demo_hec_typed : hec_typed demo_hec.
Proof. split; repeat typed. Qed.

Lemma revision_stands_for_configuration_witness :
  ic_name rising_config ≠ ic_name renamed_config ∧ same_mode rising_config renamed_config ∧ same_operation rising_config renamed_config.
Proof.
  split; [vm_compute; discriminate|].
  destruct (revision_stands_for_configuration rising_config demo_hec (str "select 1") None (prepared_as rising_config)
    renamed_config demo_hec (str "select 1") None (prepared_as renamed_config)) as (_ & Hop & _ & Hmode);
    [exact rising_config_typed|exact renamed_config_typed|exact demo_hec_typed|exact demo_hec_typed|typed|typed
    |vm_compute; reflexivity|vm_compute; reflexivity| |vm_compute; reflexivity|by split].
  apply no_collision_free. vm_compute. reflexivity.
Defined.
