(* ===== verification/Native.v ===== *)
(** * Materialised rows of a connector (crates/dbx-rs-native-connectors/src/lib.rs)

    A collection prepares the query at a connector, executes it, and turns every Arrow
    batch it sends into JSON lines for the daemon, checking identity, order, schema,
    limits and cursors on the way.  The connector, the clock, the cancellation and the
    receiver of the rows are outside: schedules say what they answer. *)

From S2P Require Export Arrow Daemon.

Local Open Scope N_scope.
Local Open Scope dbx_scope.

Definition MAX_BATCH_ROWS : N := 256.
Definition MAX_FIXED_BATCH_VALUE_BYTES : N := 256 * 1024.
Definition MAX_BATCH_BYTES : N := 1024 * 1024.
Definition MAX_TOTAL_IPC_BYTES : N := 2 * 1024 * 1024 * 1024.
Definition IPC_FRAME_OVERHEAD_BYTES : N := 64 * 1024.
Definition MAX_COLLECTION_TIMEOUT : Duration := mkDuration 86400 0.

(** ** Errors *)
Definition native_error (code : string) (class : ErrorClass) (configuration_error : bool) : ConnectorError :=
  ConnectorError_new code class false configuration_error.
Definition configuration_error (code : string) : ConnectorError := native_error code Configuration true.
Definition protocol_error (code : string) : ConnectorError := native_error code Protocol false.
Definition conversion_error (code : string) : ConnectorError := native_error code Conversion false.
Definition limit_error (code : string) : ConnectorError := native_error code Query false.
Definition temporal_overflow : ConnectorError := conversion_error "DBX-RS-NATIVE-CONVERT-0004".
Definition operation_timeout : ConnectorError := ConnectorError_new "DBX-RS-NATIVE-TIMEOUT-0001" Timeout true false.

(** ** Data *)
Record JsonCollectionRequest := mkCollectionRequest {
  jr_request_id : rust_string;
  jr_connection : ConnectionConfig;
  jr_query : rust_string;
  jr_max_rows : N;
  jr_max_bytes : N;
  jr_timeout : Duration;
  jr_cursor : option TimestampIdCursorRequest;
}.
Record CursorTracker := mkTracker {
  ct_timestamp_index : nat;
  ct_id_index : nat;
  ct_lower_bound : option TimestampIdCursorBound;
  ct_committed : option TimestampIdCursor;
  ct_last_emitted : option TimestampIdCursor;
  ct_candidate : option TimestampIdCursor;
}.
Record MaterializedResult := mkMaterialized {
  mr_rows : N;
  mr_ndjson_bytes : N;
  mr_batches : N;
  mr_ipc_bytes : N;
  mr_schema : QuerySchema;
  mr_checkpoint_candidate : option TimestampIdCursor;
  mr_scan_resume : option TimestampIdCursor;
}.
Inductive BinaryJsonEncoding := PostgresByteaHex | TaggedHex.
Record MaterializationOptions := mkOptions {
  mo_request_id : rust_string;
  mo_expected_schema : QuerySchema;
  mo_limits : ExecutionLimits;
  mo_max_output_bytes : N;
  mo_binary_json_encoding : BinaryJsonEncoding;
  mo_cursor : option TimestampIdCursorRequest;
}.

(** ** State: the rows sent so far; whether the receiver is still there, whether the task
    is cancelled and how much time is left, each time it is asked. *)
Record collecting := mkCollecting {
  cg_sent : list JsonRow;
  cg_receiving : list bool;
  cg_cancelled : list bool;
  cg_remaining : list Duration;
}.
Abbreviation native A := (st collecting ConnectorError A).
Definition cancelled : native bool := λ s,
  let '(x, l) := next_of false (cg_cancelled s) in
  (mkCollecting (cg_sent s) (cg_receiving s) l (cg_remaining s), Ok x).
Definition send_row (row : JsonRow) : native bool := λ s,
  let '(x, l) := next_of true (cg_receiving s) in
  (mkCollecting (if x then cg_sent s ++ [row] else cg_sent s) l (cg_cancelled s) (cg_remaining s), Ok x).
Definition until_deadline : native Duration := λ s,
  let '(x, l) := next_of (mkDuration 0 0) (cg_remaining s) in
  (mkCollecting (cg_sent s) (cg_receiving s) (cg_cancelled s) l, Ok x).

Definition remaining_timeout : native Duration :=
  remaining ← until_deadline;
  reject operation_timeout when (is_zero remaining = true);;
  mret remaining.

(** ** Limits *)
Definition field_width (field_type : FieldType) : option N :=
  match field_type with
  | FT_Boolean | FT_Int8 => Some 1
  | FT_Int16 => Some 2
  | FT_Int32 | FT_UInt32 | FT_Float32 | FT_Date32 => Some 4
  | FT_Int64 | FT_Float64 | FT_Time64Microsecond | FT_TimestampMicrosecond | FT_TimestampMicrosecondUtc => Some 8
  | FT_Decimal128 _ _ => Some 16
  | FT_Utf8 | FT_Binary | FT_Uuid | FT_Json => None
  end.

(** [Iterator::try_fold] with [Option]; [u64::clamp]. *)
Fixpoint try_fold {A B} (f : B → A → option B) (acc : B) (l : list A) : option B :=
  match l with [] => Some acc | x :: l => acc ← f acc x; try_fold f acc l end.
Definition clamp (low high n : N) : N := if decide (n < low) then low else if decide (high < n) then high else n.

Definition max_batch_rows (max_rows : N) (schema : QuerySchema) : result ConnectorError N :=
  let fixed_row_bytes := try_fold (λ total field,
    (λ width, saturating_add total width) <$> field_width (fd_field_type field)) 0 schema in
  let schema_cap := match fixed_row_bytes with
    | None => 1
    | Some row_bytes => clamp 1 MAX_BATCH_ROWS (MAX_FIXED_BATCH_VALUE_BYTES / N.max row_bytes 1)
    end in
  ok_or (configuration_error "DBX-RS-NATIVE-CFG-0005") (u32_try_from (N.min max_rows schema_cap)).

Definition saturating_mul (a b : N) : N := N.min (a * b) u64_max.
Definition div_ceil (a b : N) : N := (a + b - 1) / b.
Definition execution_limits (request : JsonCollectionRequest) (schema : QuerySchema) (timeout : Duration)
    : result ConnectorError ExecutionLimits :=
  max_batch_rows ← max_batch_rows (jr_max_rows request) schema;
  let batch_count := div_ceil (jr_max_rows request) max_batch_rows in
  let total_overhead := saturating_mul batch_count IPC_FRAME_OVERHEAD_BYTES in
  let max_total_ipc_bytes := N.min (saturating_add (jr_max_bytes request) total_overhead) MAX_TOTAL_IPC_BYTES in
  let max_batch_bytes := N.min (N.min (saturating_add (jr_max_bytes request) IPC_FRAME_OVERHEAD_BYTES) MAX_BATCH_BYTES)
    max_total_ipc_bytes in
  mret (mkExecutionLimits (jr_max_rows request) max_batch_rows max_batch_bytes max_total_ipc_bytes timeout).

Definition validate_collection_request (request : JsonCollectionRequest) : result ConnectorError () :=
  reject (configuration_error "DBX-RS-NATIVE-CFG-0001") when (trim (jr_request_id request) = []);;
  reject (configuration_error "DBX-RS-NATIVE-CFG-0002") when (jr_max_rows request = 0);;
  reject (configuration_error "DBX-RS-NATIVE-CFG-0003") when (jr_max_bytes request = 0);;
  reject (configuration_error "DBX-RS-NATIVE-CFG-0004") when (is_zero (jr_timeout request) = true);;
  reject (configuration_error "DBX-RS-NATIVE-CFG-0006") when (duration_lt MAX_COLLECTION_TIMEOUT (jr_timeout request));;
  match jr_cursor request with
  | None => mret tt
  | Some cursor =>
      _ ← map_err (λ _, configuration_error "DBX-RS-NATIVE-CURSOR-0001") (spec_validate (req_spec cursor));
      _ ← map_err (λ _, configuration_error "DBX-RS-NATIVE-CURSOR-0002") (effective_bound cursor);
      mret tt
  end.

(** ** The cursor tracker *)
Definition field_index (schema : QuerySchema) (name : rust_string) : option nat :=
  fst <$> list_find (λ field, fd_name field = name) schema.
Definition field_type_at (schema : QuerySchema) (index : nat) : option FieldType := fd_field_type <$> schema !! index.

Definition CursorTracker_new (cursor : option TimestampIdCursorRequest) (schema : QuerySchema)
    : result ConnectorError (option CursorTracker) :=
  match cursor with
  | None => mret None
  | Some cursor =>
      _ ← map_err (λ _, configuration_error "DBX-RS-NATIVE-CURSOR-0001") (spec_validate (req_spec cursor));
      lower_bound ← map_err (λ _, configuration_error "DBX-RS-NATIVE-CURSOR-0002") (effective_bound cursor);
      timestamp_index ← ok_or (configuration_error "DBX-RS-NATIVE-CURSOR-0003")
        (field_index schema (timestamp_field (req_spec cursor)));
      id_index ← ok_or (configuration_error "DBX-RS-NATIVE-CURSOR-0004") (field_index schema (id_field (req_spec cursor)));
      reject (configuration_error "DBX-RS-NATIVE-CURSOR-0005")
        when (field_type_at schema timestamp_index ≠ Some FT_TimestampMicrosecondUtc);;
      reject (configuration_error "DBX-RS-NATIVE-CURSOR-0006") when (field_type_at schema id_index ≠ Some FT_Int64);;
      mret (Some (mkTracker timestamp_index id_index lower_bound (req_committed cursor) None None))
  end.

(** [Array::is_null] and the value of a slot; [downcast_ref] is a pattern. *)
Definition is_null (a : Array) (row : nat) : result ConnectorError bool := ok_or panicked (negb <$> validity a !! row).
Definition value_at {A} (values : list (option A)) (row : nat) : result ConnectorError A := ok_or panicked (mjoin (values !! row)).
Definition as_timestamps (a : Array) : option (list (option Z)) :=
  match a with TimestampMicrosecondArray _ l => Some l | _ => None end.
Definition as_int64 (a : Array) : option (list (option Z)) := match a with Int64Array l => Some l | _ => None end.

(** Which cursors a bound lets through, as the tracker computes it. *)
Definition outside_bound (bound : TimestampIdCursorBound) (value : TimestampIdCursor) : bool :=
  match position_cmp value (bound_value bound) with
  | Lt => true
  | Eq => negb (inclusive bound)
  | Gt => false
  end.

Definition validate_row (self : CursorTracker) (batch : RecordBatch) (row : nat) : result ConnectorError TimestampIdCursor :=
  timestamp_column ← ok_or panicked (rb_columns batch !! ct_timestamp_index self);
  timestamps ← ok_or (protocol_error "DBX-RS-NATIVE-CURSOR-0007") (as_timestamps timestamp_column);
  id_column ← ok_or panicked (rb_columns batch !! ct_id_index self);
  ids ← ok_or (protocol_error "DBX-RS-NATIVE-CURSOR-0008") (as_int64 id_column);
  timestamp_null ← is_null timestamp_column row;
  id_null ← is_null id_column row;
  reject (conversion_error "DBX-RS-NATIVE-CURSOR-0009") when (timestamp_null || id_null = true);;
  timestamp ← value_at timestamps row;
  id ← value_at ids row;
  let value := mkCursor timestamp id in
  reject (protocol_error "DBX-RS-NATIVE-CURSOR-0010")
    when (is_some_and (λ bound, outside_bound bound value) (ct_lower_bound self) = true);;
  reject (protocol_error "DBX-RS-NATIVE-CURSOR-0011")
    when (is_some_and (λ previous, bool_decide (position_cmp value previous ≠ Gt)) (ct_last_emitted self) = true);;
  mret value.

(** [o.filter(|x| x.position_cmp(&value) == Greater).unwrap_or(value)]. *)
Definition greater_or (o : option TimestampIdCursor) (value : TimestampIdCursor) : TimestampIdCursor :=
  match o with Some x => if decide (position_cmp x value = Gt) then x else value | None => value end.
Definition record_emitted (self : CursorTracker) (value : TimestampIdCursor) : CursorTracker :=
  mkTracker (ct_timestamp_index self) (ct_id_index self) (ct_lower_bound self) (ct_committed self) (Some value)
    (Some (greater_or (ct_candidate self) (greater_or (ct_committed self) value))).

(** ** Schemas *)
Fixpoint distinct_names (names : list rust_string) : bool :=
  match names with [] => true | n :: names => negb (bool_decide (n ∈ names)) && distinct_names names end.
Definition reject_duplicate_fields (schema : QuerySchema) : result ConnectorError () :=
  reject (conversion_error "DBX-RS-NATIVE-SCHEMA-0002") when (distinct_names (fd_name <$> schema) = false);;
  mret tt.

Definition arrow_type_matches (field_type : FieldType) (data_type : DataType) : bool :=
  bool_decide (data_type = match field_type with
  | FT_Boolean => DT_Boolean
  | FT_Int8 => DT_Int8
  | FT_Int16 => DT_Int16
  | FT_Int32 => DT_Int32
  | FT_Int64 => DT_Int64
  | FT_UInt32 => DT_UInt32
  | FT_Float32 => DT_Float32
  | FT_Float64 => DT_Float64
  | FT_Utf8 | FT_Uuid | FT_Json => DT_Utf8
  | FT_Binary => DT_Binary
  | FT_Decimal128 precision scale => DT_Decimal128 precision scale
  | FT_Date32 => DT_Date32
  | FT_Time64Microsecond => DT_Time64 Microsecond
  | FT_TimestampMicrosecond => DT_Timestamp Microsecond None
  | FT_TimestampMicrosecondUtc => DT_Timestamp Microsecond (Some (str "UTC"))
  end).

Definition validate_arrow_schema (query_schema : QuerySchema) (arrow_schema : Schema) : result ConnectorError () :=
  _ ← reject_duplicate_fields query_schema;
  reject (conversion_error "DBX-RS-NATIVE-SCHEMA-0002") when (distinct_names (af_name <$> arrow_schema) = false);;
  reject (protocol_error "DBX-RS-NATIVE-SCHEMA-0003") when (length query_schema ≠ length arrow_schema);;
  reject (protocol_error "DBX-RS-NATIVE-SCHEMA-0004")
    when (existsb (λ '(declared, arrow), bool_decide (fd_name declared ≠ af_name arrow)
      || bool_decide (fd_nullable declared ≠ af_nullable arrow)
      || negb (arrow_type_matches (fd_field_type declared) (af_data_type arrow))) (zip query_schema arrow_schema) = true);;
  mret tt.

Definition validate_prepared (request : JsonCollectionRequest) (prepared : PreparedQuery) : result ConnectorError () :=
  reject (protocol_error "DBX-RS-NATIVE-PROTOCOL-0001")
    when (pd_request_id prepared ≠ jr_request_id request ∨ pd_connector_id prepared ≠ cc_connector_id (jr_connection request));;
  _ ← reject_duplicate_fields (pd_schema prepared);
  _ ← CursorTracker_new (jr_cursor request) (pd_schema prepared);
  mret tt.

Definition validate_envelope (envelope : ArrowIpcBatch) (request_id : rust_string) (expected_sequence : N)
    (expected_schema : QuerySchema) (current : MaterializedResult) (limits : ExecutionLimits) : result ConnectorError () :=
  reject (protocol_error "DBX-RS-NATIVE-IPC-0001") when (ib_request_id envelope ≠ request_id);;
  reject (protocol_error "DBX-RS-NATIVE-IPC-0002") when (ib_sequence envelope ≠ expected_sequence);;
  reject (protocol_error "DBX-RS-NATIVE-SCHEMA-0001")
    when (ib_schema envelope ≠ expected_schema ∨ mr_schema current ≠ expected_schema);;
  reject (limit_error "DBX-RS-NATIVE-LIMIT-0004") when (el_max_batch_bytes limits < lengthN (ib_ipc_bytes envelope));;
  reject (limit_error "DBX-RS-NATIVE-LIMIT-0007") when (el_max_batch_rows limits < ib_row_count envelope);;
  mret tt.

(** ** JSON of a row *)
Definition HEX : list N := N.of_nat <$> seq 48 10 ++ seq 97 6.
Definition hex_digit (n : N) : N := nth (N.to_nat n) HEX 0.
Definition encode_binary_json (bytes : list byte) (encoding : BinaryJsonEncoding) : rust_string :=
  (match encoding with PostgresByteaHex => str "\x" | TaggedHex => str "hex:" end)
  ++ (bytes ≫= λ byte, [hex_digit (N.shiftr (Byte.to_N byte) 4); hex_digit (N.land (Byte.to_N byte) 15)]).

(** [u128::to_string], and [iter::repeat_n] of zeros. *)
Fixpoint decimal_digits (fuel : nat) (n : N) : rust_string :=
  match fuel with
  | O => []
  | S fuel => if decide (n < 10) then [48 + n] else decimal_digits fuel (n / 10) ++ [48 + n mod 10]
  end.
Definition to_string (n : N) : rust_string := decimal_digits (S (N.to_nat (N.log2 n))) n.
Definition zeros (n : N) : rust_string := replicate (N.to_nat n) 48.

Definition format_decimal (value : Z) (scale : Z) : rust_string :=
  let digits := to_string (Z.abs_N value) in
  let formatted :=
    match (scale ?= 0)%Z with
    | Gt =>
        let scale := Z.to_N scale in
        if decide (lengthN digits ≤ scale) then str "0." ++ zeros (scale - lengthN digits) ++ digits
        else let split := N.to_nat (lengthN digits - scale) in take split digits ++ str "." ++ drop split digits
    | Lt => digits ++ zeros (Z.abs_N scale)
    | Eq => digits
    end in
  if decide (value < 0)%Z then 45 :: formatted else formatted.

Definition binary_json_encoding (connector_id : rust_string) : result ConnectorError BinaryJsonEncoding :=
  if decide (connector_id = str "postgres") then mret PostgresByteaHex
  else if decide (connector_id = str "mariadb" ∨ connector_id = str "mssql" ∨ connector_id = str "mysql"
      ∨ connector_id = str "oracle") then mret TaggedHex
  else mthrow (configuration_error "DBX-RS-NATIVE-CFG-0007").

Section Materialize.
Context `{ArrowIpc, Chrono, SerdeScalars}.

Definition write_json (value : json_scalar) : result ConnectorError (list byte) :=
  ok_or (conversion_error "DBX-RS-NATIVE-CONVERT-0001") (json_scalar_bytes value).
Definition write_finite_float (value : N) : result ConnectorError (list byte) :=
  reject (conversion_error "DBX-RS-NATIVE-CONVERT-0002") when (f64_is_finite value = false);;
  write_json (JsonFloat value).

(** [values] is the array downcast to the type of the field. *)
Definition write_array_value {A} (values : option (list (option A))) (row : nat)
    (writer : A → result ConnectorError (list byte)) : result ConnectorError (list byte) :=
  typed ← ok_or (protocol_error "DBX-RS-NATIVE-SCHEMA-0005") values;
  value ← value_at typed row;
  writer value.

(** The bytes appended to the output. *)
Definition write_field_value (a : Array) (field : FieldDescriptor) (row : nat) (binary : BinaryJsonEncoding)
    : result ConnectorError (list byte) :=
  null ← is_null a row;
  if null : bool then mret (String.list_byte_of_string "null") else
  match fd_field_type field with
  | FT_Boolean =>
      write_array_value (match a with BooleanArray l => Some l | _ => None end) row (λ v, write_json (JsonBool v))
  | FT_Int8 => write_array_value (match a with Int8Array l => Some l | _ => None end) row (λ v, write_json (JsonInt v))
  | FT_Int16 => write_array_value (match a with Int16Array l => Some l | _ => None end) row (λ v, write_json (JsonInt v))
  | FT_Int32 => write_array_value (match a with Int32Array l => Some l | _ => None end) row (λ v, write_json (JsonInt v))
  | FT_Int64 => write_array_value (as_int64 a) row (λ v, write_json (JsonInt v))
  | FT_UInt32 => write_array_value (match a with UInt32Array l => Some l | _ => None end) row (λ v, write_json (JsonInt v))
  | FT_Float32 =>
      write_array_value (match a with Float32Array l => Some l | _ => None end) row (λ v, write_finite_float (f64_from_f32 v))
  | FT_Float64 => write_array_value (match a with Float64Array l => Some l | _ => None end) row write_finite_float
  | FT_Utf8 | FT_Uuid =>
      write_array_value (match a with StringArray l => Some l | _ => None end) row (λ v, write_json (JsonString v))
  | FT_Binary =>
      write_array_value (match a with BinaryArray l => Some l | _ => None end) row
        (λ v, write_json (JsonString (encode_binary_json v binary)))
  | FT_Json =>
      write_array_value (match a with StringArray l => Some l | _ => None end) row
        (λ v, ok_or (conversion_error "DBX-RS-NATIVE-CONVERT-0003") (RawValue_from_string v))
  | FT_Decimal128 _ scale =>
      write_array_value (match a with Decimal128Array _ _ l => Some l | _ => None end) row
        (λ v, write_json (JsonString (format_decimal v scale)))
  | FT_Date32 =>
      write_array_value (match a with Date32Array l => Some l | _ => None end) row (λ v,
        date ← ok_or temporal_overflow (date32_to_datetime v);
        write_json (JsonString (datetime_format "%Y-%m-%d" date)))
  | FT_Time64Microsecond =>
      write_array_value (match a with Time64MicrosecondArray l => Some l | _ => None end) row (λ v,
        time ← ok_or temporal_overflow (time64us_to_time v);
        write_json (JsonString (time_format "%H:%M:%S%.6f" time)))
  | FT_TimestampMicrosecond =>
      write_array_value (as_timestamps a) row (λ v,
        timestamp ← ok_or temporal_overflow (timestamp_us_to_datetime v);
        write_json (JsonString (datetime_format "%Y-%m-%dT%H:%M:%S%.6f" timestamp)))
  | FT_TimestampMicrosecondUtc =>
      write_array_value (as_timestamps a) row (λ v,
        timestamp ← ok_or temporal_overflow (timestamp_us_to_datetime v);
        write_json (JsonString (datetime_format "%Y-%m-%dT%H:%M:%S%.6f" timestamp ++ str "Z")))
  end.

Fixpoint materialize_fields (batch : RecordBatch) (index : nat) (schema : QuerySchema) (row : nat) (binary : BinaryJsonEncoding)
    : result ConnectorError (list byte) :=
  match schema with
  | [] => mret []
  | field :: schema =>
      name ← write_json (JsonString (fd_name field));
      column ← ok_or panicked (rb_columns batch !! index);
      value ← write_field_value column field row binary;
      rest ← materialize_fields batch (S index) schema row binary;
      mret ((if decide (index = 0%nat) then [] else [x2c]) ++ name ++ [x3a] ++ value ++ rest)
  end.
Definition materialize_row (batch : RecordBatch) (schema : QuerySchema) (row : nat) (binary : BinaryJsonEncoding)
    : result ConnectorError (list byte) :=
  fields ← materialize_fields batch 0 schema row binary;
  mret (x7b :: fields ++ [x7d]).

(** ** One batch *)
Definition decode_one_batch (ipc_bytes : list byte) (query_schema : QuerySchema) : result ConnectorError RecordBatch :=
  let malformed := protocol_error "DBX-RS-NATIVE-IPC-0003" in
  reject malformed when (starts_with (reverse ipc_bytes) (reverse IPC_END_MARKER) = false);;
  reader ← ok_or malformed (StreamReader_try_new ipc_bytes);
  _ ← validate_arrow_schema query_schema (stream_schema reader);
  match stream_items reader with
  | [] | None :: _ => mthrow malformed
  | Some batch :: rest =>
      match rest with
      | _ :: _ => mthrow malformed
      | [] =>
          reject malformed when (stream_position reader ≠ lengthN ipc_bytes);;
          mret batch
      end
  end.

Definition materialize_and_send_row (batch : RecordBatch) (schema : QuerySchema) (row : nat)
    (cursor : option TimestampIdCursor) (res : MaterializedResult) (options : MaterializationOptions)
    : native MaterializedResult :=
  line ← st_lift (materialize_row batch schema row (mo_binary_json_encoding options));
  let limit := conversion_error "DBX-RS-NATIVE-LIMIT-0003" in
  line_with_delimiter ← st_lift (ok_or limit (checked_add (lengthN line) 1));
  next_bytes ← st_lift (ok_or limit (checked_add (mr_ndjson_bytes res) line_with_delimiter));
  reject (limit_error "DBX-RS-NATIVE-LIMIT-0003") when (mo_max_output_bytes options < next_bytes);;
  stop ← cancelled;
  if stop : bool then mthrow (ConnectorError_cancelled "DBX-RS-NATIVE-CANCELLED-0002") else
  received ← send_row (mkJsonRow line cursor);
  if negb received then mthrow (native_error "DBX-RS-NATIVE-OUTPUT-0001" Internal false) else
  rows ← st_lift (ok_or (conversion_error "DBX-RS-NATIVE-LIMIT-0001") (checked_add (mr_rows res) 1));
  mret (mkMaterialized rows next_bytes (mr_batches res) (mr_ipc_bytes res) (mr_schema res)
    (mr_checkpoint_candidate res) (mr_scan_resume res)).

(** [for row in 0..num_rows]. *)
Fixpoint materialize_rows (batch : RecordBatch) (schema : QuerySchema) (rows : list nat) (res : MaterializedResult)
    (tracker : option CursorTracker) (options : MaterializationOptions)
    : native (MaterializedResult * option CursorTracker) :=
  match rows with
  | [] => mret (res, tracker)
  | row :: rows =>
      cursor ← st_lift (match tracker with
        | Some tracker => Some <$> validate_row tracker batch row
        | None => mret None
        end);
      res ← materialize_and_send_row batch schema row cursor res options;
      let tracker := match tracker, cursor with
        | Some tracker, Some cursor => Some (record_emitted tracker cursor)
        | tracker, _ => tracker
        end in
      materialize_rows batch schema rows res tracker options
  end.

Definition materialize_envelope (envelope : ArrowIpcBatch) (expected_sequence : N) (res : MaterializedResult)
    (tracker : option CursorTracker) (options : MaterializationOptions)
    : native (MaterializedResult * option CursorTracker) :=
  let limits := mo_limits options in
  _ ← st_lift (validate_envelope envelope (mo_request_id options) expected_sequence (mo_expected_schema options) res limits);
  next_ipc_bytes ← st_lift (ok_or (conversion_error "DBX-RS-NATIVE-LIMIT-0004")
    (checked_add (mr_ipc_bytes res) (lengthN (ib_ipc_bytes envelope))));
  reject (limit_error "DBX-RS-NATIVE-LIMIT-0005") when (el_max_total_ipc_bytes limits < next_ipc_bytes);;
  decoded ← st_lift (decode_one_batch (ib_ipc_bytes envelope) (ib_schema envelope));
  reject (protocol_error "DBX-RS-NATIVE-IPC-0005") when (rb_num_rows decoded ≠ ib_row_count envelope);;
  next_rows ← st_lift (ok_or (conversion_error "DBX-RS-NATIVE-LIMIT-0001") (checked_add (mr_rows res) (rb_num_rows decoded)));
  reject (limit_error "DBX-RS-NATIVE-LIMIT-0002") when (el_max_rows limits < next_rows);;
  '(res, tracker) ← materialize_rows decoded (ib_schema envelope) (seq 0 (N.to_nat (rb_num_rows decoded))) res tracker options;
  batches ← st_lift (ok_or (conversion_error "DBX-RS-NATIVE-LIMIT-0006") (checked_add (mr_batches res) 1));
  mret (mkMaterialized (mr_rows res) (mr_ndjson_bytes res) batches next_ipc_bytes (mr_schema res)
    (mr_checkpoint_candidate res) (mr_scan_resume res), tracker).

(** ** All batches

    [loop]: the receiver ends when the connector has dropped its sender. *)
Fixpoint materialize_loop (batch_rx : list ArrowIpcBatch) (expected_sequence : N) (res : MaterializedResult)
    (tracker : option CursorTracker) (options : MaterializationOptions)
    : native (MaterializedResult * option CursorTracker) :=
  stop ← cancelled;
  if stop : bool then mthrow (ConnectorError_cancelled "DBX-RS-NATIVE-CANCELLED-0001") else
  match batch_rx with
  | [] => mret (res, tracker)
  | envelope :: batch_rx =>
      '(res, tracker) ← materialize_envelope envelope expected_sequence res tracker options;
      expected_sequence ← st_lift (ok_or (conversion_error "DBX-RS-NATIVE-IPC-0006") (checked_add expected_sequence 1));
      materialize_loop batch_rx expected_sequence res tracker options
  end.

Definition materialize_batches (batch_rx : list ArrowIpcBatch) (options : MaterializationOptions) : native MaterializedResult :=
  _ ← st_lift (reject_duplicate_fields (mo_expected_schema options));
  tracker ← st_lift (CursorTracker_new (mo_cursor options) (mo_expected_schema options));
  '(res, tracker) ← materialize_loop batch_rx 0 (mkMaterialized 0 0 0 0 (mo_expected_schema options) None None) tracker options;
  mret (match tracker with
    | Some tracker => mkMaterialized (mr_rows res) (mr_ndjson_bytes res) (mr_batches res) (mr_ipc_bytes res) (mr_schema res)
        (ct_candidate tracker) (ct_last_emitted tracker)
    | None => res
    end).

(** ** The result of the connector *)
Definition validate_execution_result (request_id : rust_string) (executed : ExecutionResult) (materialized : MaterializedResult)
    : result ConnectorError () :=
  reject (protocol_error "DBX-RS-NATIVE-PROTOCOL-0002")
    when (ex_request_id executed ≠ request_id ∨ ex_rows_read executed ≠ mr_rows materialized
      ∨ ex_batches_emitted executed ≠ mr_batches materialized
      ∨ ex_ipc_bytes_emitted executed ≠ mr_ipc_bytes materialized ∨ ex_schema executed ≠ mr_schema materialized);;
  mret tt.

Definition validate_scan_progress (cursor : option TimestampIdCursorRequest) (executed : ExecutionResult)
    (materialized : MaterializedResult) : result ConnectorError () :=
  match cursor with
  | None => mret tt
  | Some cursor =>
      reject (limit_error "DBX-RS-NATIVE-CURSOR-0012")
        when (ex_truncated executed = true ∧ mr_scan_resume materialized = None);;
      match req_resume_after cursor, mr_scan_resume materialized with
      | Some previous, Some resume =>
          reject (protocol_error "DBX-RS-NATIVE-CURSOR-0013") when (position_cmp resume previous ≠ Gt);;
          mret tt
      | _, _ => mret tt
      end
  end.

(** ** A collection

    The two futures run side by side and meet only in the channel: the materialisation
    sees the batches the connector sent.  Its error comes first; when it fails, what the
    connector still does is not observed. *)
Definition collect_json_rows_inner (connector : Connector) (request : JsonCollectionRequest) : native CollectionResult :=
  binary ← st_lift (binary_json_encoding (cc_connector_id (jr_connection request)));
  prepare_timeout ← remaining_timeout;
  prepared ← st_lift (con_prepare connector (mkPrepareRequest (jr_request_id request) (jr_connection request) (jr_query request)
    (jr_max_rows request) prepare_timeout (jr_cursor request)));
  _ ← st_lift (validate_prepared request prepared);
  execute_timeout ← remaining_timeout;
  limits ← st_lift (execution_limits request (pd_schema prepared) execute_timeout);
  let '(batches, execution_result) := con_execute connector (mkExecuteRequest (jr_request_id request) (jr_connection request)
    (jr_query request) limits (Some (pd_schema prepared)) (jr_cursor request)) in
  materialized ← materialize_batches batches (mkOptions (jr_request_id request) (pd_schema prepared) limits (jr_max_bytes request)
    binary (jr_cursor request));
  executed ← st_lift execution_result;
  _ ← st_lift (validate_execution_result (jr_request_id request) executed materialized);
  _ ← st_lift (validate_scan_progress (jr_cursor request) executed materialized);
  mret (mkCollectionResult (jr_request_id request) (mr_rows materialized) (mr_ndjson_bytes materialized)
    (ex_truncated executed) (mr_checkpoint_candidate materialized) (mr_scan_resume materialized)).

(** [select!]: which of the three comes first.  An operation that is left behind has been
    cancelled: what it has sent is as far as its schedule lets it.  A deadline that cannot
    be represented ends it before it starts. *)
Inductive first_event := OperationDone | TokenCancelled | DeadlineElapsed | NoDeadline.
Definition collect_json_rows_with_connector (connector : Connector) (request : JsonCollectionRequest) (first : first_event)
    : native CollectionResult := λ s,
  match first with
  | NoDeadline => (s, Err (configuration_error "DBX-RS-NATIVE-CFG-0006"))
  | OperationDone => collect_json_rows_inner connector request s
  | TokenCancelled => ((collect_json_rows_inner connector request s).1, Err (ConnectorError_cancelled "DBX-RS-NATIVE-CANCELLED-0003"))
  | DeadlineElapsed => ((collect_json_rows_inner connector request s).1, Err operation_timeout)
  end.

(** ** The registry *)
Record NativeConnectorProvider := mkProvider {
  np_mariadb : Connector;
  np_mssql : Connector;
  np_mysql : Connector;
  np_oracle : Connector;
  np_postgres : Connector;
}.
Definition provider_connector (self : NativeConnectorProvider) (connector_id : rust_string) : result ConnectorError Connector :=
  if decide (connector_id = str "mariadb") then mret (np_mariadb self)
  else if decide (connector_id = str "mssql") then mret (np_mssql self)
  else if decide (connector_id = str "mysql") then mret (np_mysql self)
  else if decide (connector_id = str "oracle") then mret (np_oracle self)
  else if decide (connector_id = str "postgres") then mret (np_postgres self)
  else mthrow (native_error "DBX-RS-NATIVE-CONNECTOR-0001" Configuration true).

Definition collect_json_rows (self : NativeConnectorProvider) (request : JsonCollectionRequest) (first : first_event)
    : native CollectionResult :=
  _ ← st_lift (validate_collection_request request);
  connector ← st_lift (provider_connector self (cc_connector_id (jr_connection request)));
  collect_json_rows_with_connector connector request first.
End Materialize.
