(* ===== verification/NativeProps.v ===== *)
(** * What a collection sends and reports (Native.v)

    Whatever the connector sends and whoever interrupts, the lines that reach the daemon
    stay within the limits and in strict cursor order above the bound; a collection that
    succeeds reports exactly them. *)

From S2P Require Export Native.
From stdpp Require Import sorting.

Local Open Scope N_scope.
Local Open Scope dbx_scope.

(** ** Running one statement: what holds after an answer, and after an error. *)
Definition yields {A} (m : native A) (s : collecting) (Q : A → collecting → Prop) (E : collecting → Prop) : Prop :=
  match m s with (s', Ok a) => Q a s' | (s', Err _) => E s' end.

Lemma yields_bind {A B} (m : native A) (f : A → native B) s Q E :
  yields m s (λ a s', yields (f a) s' Q E) E → yields (m ≫= f) s Q E.
Proof. unfold yields, mbind, st_bind. by destruct (m s) as [s' [a|e]]. Qed.
Lemma yields_lift {A B} (r : result ConnectorError A) (f : A → native B) s (Q : B → collecting → Prop) (E : collecting → Prop) :
  E s → (∀ a, r = Ok a → yields (f a) s Q E) → yields (st_lift r ≫= f) s Q E.
Proof. intros HE H. unfold yields, mbind, st_bind, st_lift. destruct r; [by apply H|done]. Qed.
Lemma yields_ret {A} (a : A) s (Q : A → collecting → Prop) E : Q a s → yields (mret a) s Q E.
Proof. done. Qed.
Lemma yields_throw {A} (e : ConnectorError) s (Q : A → collecting → Prop) (E : collecting → Prop) : E s → yields (mthrow e) s Q E.
Proof. done. Qed.
Lemma yields_weaken {A} (m : native A) s (Q Q' : A → collecting → Prop) (E : collecting → Prop) :
  yields m s Q E → (∀ a s', Q a s' → Q' a s') → yields m s Q' E.
Proof. unfold yields. destruct (m s) as [s' [a|e]]; eauto. Qed.
Lemma yields_ok {A} (m : native A) s Q E s' a : yields m s Q E → m s = (s', Ok a) → Q a s'.
Proof. unfold yields. intros H E0. by rewrite E0 in H. Qed.
Lemma yields_any {A} (m : native A) s E : yields m s (λ _, E) E → E (m s).1.
Proof. unfold yields. by destruct (m s) as [s' [a|e]]. Qed.

(** ** Rows and their cursors *)
Definition lines_bytes (rows : list JsonRow) : N := sumN ((λ r, lengthN (row_line r) + 1) <$> rows).
Definition cursors_of (rows : list JsonRow) : list (option TimestampIdCursor) := row_cursor <$> rows.

(** Strictly increasing above a bound. *)
Definition ordered_above (bound : option TimestampIdCursorBound) (cs : list TimestampIdCursor) : Prop :=
  StronglySorted cursor_lt cs ∧ Forall (bound_admits bound) cs.
Definition in_order (bound : option TimestampIdCursorBound) (tracked : bool) (rows : list JsonRow) : Prop :=
  if tracked then ∃ cs, cursors_of rows = Some <$> cs ∧ ordered_above bound cs
  else Forall (λ r, row_cursor r = None) rows.

(** The cursors a tracker has seen. *)
Definition tracked_ok (bound : option TimestampIdCursorBound) (committed : option TimestampIdCursor)
    (tracker : CursorTracker) (cs : list TimestampIdCursor) : Prop :=
  ct_lower_bound tracker = bound ∧ ct_committed tracker = committed ∧ ordered_above bound cs
  ∧ ct_last_emitted tracker = last cs ∧ ct_candidate tracker = greater_or committed <$> last cs.

Lemma lines_bytes_snoc rows r : lines_bytes (rows ++ [r]) = lines_bytes rows + (lengthN (row_line r) + 1).
Proof. unfold lines_bytes. rewrite fmap_app, sumN_app. cbn. lia. Qed.

Lemma outside_bound_admits bound value :
  is_some_and (λ b, outside_bound b value) bound = false ↔ bound_admits bound value.
Proof.
  destruct bound as [b|]; [|done]. cbn. unfold outside_bound, cursor_le, cursor_lt.
  destruct (position_cmp value (bound_value b)) eqn:E.
  - apply position_cmp_eq in E as <-. destruct (inclusive b); cbn; [|split; [done|]].
    + split; [|done]. intros _. by rewrite (proj2 (position_cmp_eq value value) eq_refl).
    + by rewrite (proj2 (position_cmp_eq value value) eq_refl).
  - pose proof E as Hlt. destruct (inclusive b); (split; [done|]); intros Hb.
    + destruct Hb. by apply position_cmp_gt.
    + exfalso. apply (irreflexivity cursor_lt value). by etrans.
  - apply position_cmp_gt in E. destruct (inclusive b); [|done]. split; [|done]. intros _. by apply cursor_lt_le.
Qed.

Lemma sorted_snoc cs c :
  StronglySorted cursor_lt cs → is_none_or (λ p, bool_decide (cursor_lt p c)) (last cs) = true →
  StronglySorted cursor_lt (cs ++ [c]).
Proof.
  intros Hs Hl. destruct cs as [|x cs _] using rev_ind; [repeat constructor|].
  rewrite last_snoc in Hl. cbn in Hl. apply bool_decide_eq_true in Hl.
  apply StronglySorted_app. split_and!; [|done|repeat constructor].
  intros a b Ha ->%list_elem_of_singleton. apply elem_of_app in Ha as [Ha| ->%list_elem_of_singleton]; [|done].
  apply StronglySorted_app in Hs as (Hx & _ & _). etrans; [|exact Hl]. apply Hx; [done|by apply list_elem_of_singleton].
Qed.

(** The candidate is the largest of the committed cursor and the cursors so far. *)
Lemma greater_or_step committed p v :
  cursor_lt p v → greater_or (Some (greater_or committed p)) (greater_or committed v) = greater_or committed v.
Proof.
  intros Hlt. unfold greater_or. destruct committed as [k|]; repeat case_decide; rewrite ?position_cmp_gt in *; try done.
  all: exfalso; rewrite !cursor_lt_spec in *; lia.
Qed.

Section Collecting.
Context `{ArrowIpc, Chrono, SerdeScalars}.

(** ** The row at a position of a batch, read without a tracker. *)
Definition batch_cursor (timestamp_index id_index : nat) (batch : RecordBatch) (row : nat) : option TimestampIdCursor :=
  timestamps ← rb_columns batch !! timestamp_index ≫= as_timestamps;
  ids ← rb_columns batch !! id_index ≫= as_int64;
  timestamp ← mjoin (timestamps !! row);
  id ← mjoin (ids !! row);
  Some (mkCursor timestamp id).
Definition batch_positions (batch : RecordBatch) : list (RecordBatch * nat) :=
  pair batch <$> seq 0 (N.to_nat (rb_num_rows batch)).

Context (options : MaterializationOptions) (indices : option (nat * nat)).
Context (bound : option TimestampIdCursorBound) (committed : option TimestampIdCursor) (base : list JsonRow).
Hypothesis Hw : in_u64 (el_max_rows (mo_limits options)).

Definition row_at (p : RecordBatch * nat) (r : JsonRow) : Prop :=
  materialize_row p.1 (mo_expected_schema options) p.2 (mo_binary_json_encoding options) = Ok (row_line r)
  ∧ match indices with
    | None => row_cursor r = None
    | Some (ti, ii) => is_Some (row_cursor r) ∧ row_cursor r = batch_cursor ti ii p.1 p.2
    end.

(** What the result and the tracker say of the rows sent so far. *)
Definition tracks (tracker : option CursorTracker) (rows : list JsonRow) : Prop :=
  match indices, tracker with
  | None, None => Forall (λ r, row_cursor r = None) rows
  | Some (ti, ii), Some t => ct_timestamp_index t = ti ∧ ct_id_index t = ii
      ∧ ∃ cs, cursors_of rows = Some <$> cs ∧ tracked_ok bound committed t cs
  | _, _ => False
  end.
Definition progress (res : MaterializedResult) (tracker : option CursorTracker) (rows : list JsonRow) : Prop :=
  mr_rows res = lengthN rows ∧ mr_ndjson_bytes res = lines_bytes rows ∧ lines_bytes rows ≤ mo_max_output_bytes options
  ∧ mr_schema res = mo_expected_schema options ∧ mr_checkpoint_candidate res = None ∧ mr_scan_resume res = None
  ∧ tracks tracker rows.

(** The limits of what has been sent, after any outcome. *)
Definition within (s : collecting) : Prop := ∃ rows, cg_sent s = base ++ rows
  ∧ lengthN rows ≤ el_max_rows (mo_limits options) ∧ lines_bytes rows ≤ mo_max_output_bytes options
  ∧ in_order bound (bool_decide (is_Some indices)) rows.

Lemma tracks_in_order tracker rows : tracks tracker rows → in_order bound (bool_decide (is_Some indices)) rows.
Proof using Type.
  unfold tracks. destruct indices as [[ti ii]|]; destruct tracker as [t|]; try done; cbn.
  intros (_ & _ & cs & Hc & _ & _ & Ho & _). by exists cs.
Qed.
Lemma progress_within res tracker rows s :
  progress res tracker rows → cg_sent s = base ++ rows → lengthN rows ≤ el_max_rows (mo_limits options) → within s.
Proof using Type. intros (_ & _ & Hb & _ & _ & _ & Ht) Hs Hn. exists rows. split_and!; [done..|]. by eapply tracks_in_order. Qed.

Lemma value_at_ok {A} (l : list (option A)) i v : value_at l i = Ok v ↔ mjoin (l !! i) = Some v.
Proof using Type. unfold value_at. apply ok_or_ok. Qed.

(** A row the tracker accepts extends the order. *)
Lemma validate_row_ok t b i c cs :
  validate_row t b i = Ok c → tracked_ok bound committed t cs →
  batch_cursor (ct_timestamp_index t) (ct_id_index t) b i = Some c ∧ tracked_ok bound committed (record_emitted t c) (cs ++ [c]).
Proof using Type.
  unfold validate_row. rewrite result_bind_ok. intros (tc & Htc%ok_or_ok & Hv). revert Hv.
  rewrite result_bind_ok. intros (ts & Hts%ok_or_ok & Hv). revert Hv.
  rewrite result_bind_ok. intros (ic & Hic%ok_or_ok & Hv). revert Hv.
  rewrite result_bind_ok. intros (ids & Hids%ok_or_ok & Hv). revert Hv.
  rewrite result_bind_ok. intros (n1 & _ & Hv). revert Hv. rewrite result_bind_ok. intros (n2 & _ & Hv). revert Hv.
  case_decide; [done|]. rewrite result_bind_ok. intros (tv & Htv%value_at_ok & Hv). revert Hv.
  rewrite result_bind_ok. intros (iv & Hiv%value_at_ok & Hv). revert Hv.
  case_decide as Hb; [done|]. case_decide as Hl; [done|]. intros [= <-] (El & Ec & (Hs & Hf) & Elast & Ecand).
  apply not_true_is_false in Hb, Hl. rewrite El in Hb. apply outside_bound_admits in Hb. rewrite Elast in Hl. split.
  { unfold batch_cursor. rewrite Htc, Hic. cbn [mbind option_bind]. rewrite Hts, Hids. cbn [mbind option_bind].
    by rewrite Htv, Hiv. }
  unfold tracked_ok, record_emitted. cbn [ct_lower_bound ct_committed ct_last_emitted ct_candidate]. rewrite last_snoc.
  split_and!; [done|done| |done|].
  - split; [|by apply Forall_app; split; [|constructor]]. apply sorted_snoc; [done|].
    destruct (last cs) as [p|]; cbn in *; [|done]. apply bool_decide_eq_false, dec_stable in Hl. apply bool_decide_eq_true.
    by apply position_cmp_gt.
  - cbn. f_equal. rewrite Ec, Ecand. destruct (last cs) as [p|]; cbn in *; [|done].
    apply bool_decide_eq_false, dec_stable, position_cmp_gt in Hl. by apply greater_or_step.
Qed.

(** ** Sending one row *)
Lemma send_row_ok b i cursor res tracker rows s :
  progress res tracker rows → cg_sent s = base ++ rows → lengthN rows < el_max_rows (mo_limits options) →
  yields (materialize_and_send_row b (mo_expected_schema options) i cursor res options) s
    (λ res' s', ∃ line, materialize_row b (mo_expected_schema options) i (mo_binary_json_encoding options) = Ok line
      ∧ cg_sent s' = base ++ rows ++ [mkJsonRow line cursor] ∧ mr_rows res' = lengthN rows + 1
      ∧ mr_ndjson_bytes res' = lines_bytes (rows ++ [mkJsonRow line cursor])
      ∧ mr_ndjson_bytes res' ≤ mo_max_output_bytes options
      ∧ mr_batches res' = mr_batches res ∧ mr_ipc_bytes res' = mr_ipc_bytes res ∧ mr_schema res' = mr_schema res
      ∧ mr_checkpoint_candidate res' = None ∧ mr_scan_resume res' = None)
    (λ s', cg_sent s' = cg_sent s).
Proof using Hw.
  intros (Er & Eb & Hb & Es & Ecc & Esr & Ht) Hs Hn. unfold materialize_and_send_row.
  apply yields_lift; [done|]. intros line Hline. cbn zeta.
  apply yields_lift; [done|]. intros ld [-> Hu]%ok_or_ok%checked_add_some.
  apply yields_lift; [done|]. intros nb [-> Hu']%ok_or_ok%checked_add_some.
  case_decide as Hm; [done|]. apply yields_bind. unfold yields, cancelled.
  destruct (next_of false (cg_cancelled s)) as [stop lc]. destruct stop; [done|].
  unfold mbind, st_bind, send_row. cbn [cg_receiving cg_sent cg_cancelled cg_remaining].
  destruct (next_of true (cg_receiving s)) as [open lr]. destruct open; cbn; [|done].
  assert (mr_ndjson_bytes res + (lengthN line + 1) = lines_bytes (rows ++ [mkJsonRow line cursor])) as El.
  { by rewrite lines_bytes_snoc, Eb. }
  rewrite El in *. unfold st_lift. rewrite Er.
  rewrite (proj2 (checked_add_some (lengthN rows) 1 _)) by (split; [reflexivity|ulia]). cbn.
  rewrite Hs, <- app_assoc. exists line. split_and!; try done. lia.
Qed.

(** The rows of one batch, from some position on. *)
Lemma send_rows_ok b : ∀ positions res tracker rows s,
  progress res tracker rows → cg_sent s = base ++ rows →
  lengthN rows + lengthN positions ≤ el_max_rows (mo_limits options) →
  yields (materialize_rows b (mo_expected_schema options) positions res tracker options) s
    (λ '(res', tracker') s', ∃ new, cg_sent s' = base ++ rows ++ new ∧ progress res' tracker' (rows ++ new)
      ∧ mr_batches res' = mr_batches res ∧ mr_ipc_bytes res' = mr_ipc_bytes res
      ∧ Forall2 row_at (pair b <$> positions) new)
    within.
Proof using Hw.
  induction positions as [|i positions IH]; intros res tracker rows s Hp Hs Hn.
  { apply yields_ret. exists []. rewrite !app_nil_r. split_and!; try done. }
  rewrite lengthN_cons in Hn.
  assert (within s) as Hin by (eapply progress_within; [done..|lia]).
  pose proof Hp as (Er & Eb & Hb & Es & Ecc & Esr & Ht).
  cbn [materialize_rows]. apply yields_lift; [done|]. intros cursor Hcur. apply yields_bind.
  pose proof (send_row_ok b i cursor res tracker rows s Hp Hs ltac:(lia)) as Hsend. revert Hsend.
  unfold yields at 1 2. destruct (materialize_and_send_row _ _ _ _ _ _ s) as [s1 [res1|e]].
  2:{ intros Hsame. destruct Hin as (rs & ? & ?). exists rs. unfold within. rewrite Hsame. done. }
  intros (line & Hline & Hs1 & Hr1 & Hb1 & Hb1' & Eb1 & Ei1 & Es1 & Ecc1 & Esr1).
  set (row := mkJsonRow line cursor) in *.
  set (tracker1 := match tracker, cursor with Some t, Some c => Some (record_emitted t c) | t, _ => t end).
  assert (tracks tracker1 (rows ++ [row]) ∧ row_at (b, i) row) as [Ht1 Hrow].
  { unfold row_at, tracks in *. cbn [fst snd]. destruct indices as [[ti ii]|]; destruct tracker as [t|]; try done.
    - destruct Ht as (Eti & Eii & cs & Hcs & Htk). unfold fmap, result_fmap in Hcur.
      destruct (validate_row t b i) as [c|] eqn:Hv; [|done]. injection Hcur as <-.
      apply (validate_row_ok _ _ _ _ cs) in Hv as [Hbc Htk']; [|done]. rewrite Eti, Eii in Hbc.
      split; [|by rewrite Hbc]. split_and!; [done..|]. exists (cs ++ [c]). split; [|done].
      unfold cursors_of in *. by rewrite !fmap_app, Hcs.
    - injection Hcur as <-. split; [|done]. apply Forall_app. split; [done|]. by constructor. }
  eapply yields_weaken; [apply (IH res1 tracker1 (rows ++ [row]))|].
  - unfold progress. rewrite Hr1, lengthN_app, Es1. split_and!; try done. lia.
  - by rewrite Hs1.
  - rewrite lengthN_app. change (lengthN [row]) with 1. lia.
  - intros [res' tracker'] s' (new & Hs' & Hp' & Eb' & Ei' & Hf). exists (row :: new).
    rewrite <- !app_assoc in *. cbn [app] in *. split_and!; [done|done|by rewrite Eb'|by rewrite Ei'|].
    cbn [fmap list_fmap]. by constructor.
Qed.

(** ** One batch, all batches *)
Definition decodes_to (e : ArrowIpcBatch) (b : RecordBatch) : Prop :=
  ib_request_id e = mo_request_id options ∧ ib_schema e = mo_expected_schema options
  ∧ decode_one_batch (ib_ipc_bytes e) (mo_expected_schema options) = Ok b ∧ ib_row_count e = rb_num_rows b
  ∧ lengthN (ib_ipc_bytes e) ≤ el_max_batch_bytes (mo_limits options)
  ∧ rb_num_rows b ≤ el_max_batch_rows (mo_limits options).

Lemma batch_positions_length b : lengthN (batch_positions b) = rb_num_rows b.
Proof using Type. unfold batch_positions, lengthN. rewrite length_fmap, length_seq. lia. Qed.
Lemma Forall2_lengthN {A B} (R : A → B → Prop) l k : Forall2 R l k → lengthN l = lengthN k.
Proof using Type. intros Hf%Forall2_length. unfold lengthN. by rewrite Hf. Qed.

Lemma send_envelope_ok e n res tracker rows s :
  progress res tracker rows → cg_sent s = base ++ rows → lengthN rows ≤ el_max_rows (mo_limits options) →
  yields (materialize_envelope e n res tracker options) s
    (λ '(res', tracker') s', ∃ b new, decodes_to e b ∧ ib_sequence e = n ∧ cg_sent s' = base ++ rows ++ new
      ∧ progress res' tracker' (rows ++ new) ∧ Forall2 row_at (batch_positions b) new
      ∧ lengthN (rows ++ new) ≤ el_max_rows (mo_limits options) ∧ mr_batches res' = mr_batches res + 1
      ∧ mr_ipc_bytes res' = mr_ipc_bytes res + lengthN (ib_ipc_bytes e)
      ∧ mr_ipc_bytes res' ≤ el_max_total_ipc_bytes (mo_limits options))
    within.
Proof using Hw.
  intros Hp Hs Hn. assert (within s) as Hin by (by eapply progress_within).
  pose proof Hp as (Er & _). unfold materialize_envelope. cbn zeta.
  apply yields_lift; [done|]. intros _u Hv. unfold validate_envelope in Hv.
  case_decide as Hid; [done|]. case_decide as Hsq; [done|]. case_decide as Hsc; [done|]. case_decide as Hbb; [done|].
  case_decide as Hbr; [done|].
  assert (ib_schema e = mo_expected_schema options) as Hsch by (destruct (decide (ib_schema e = mo_expected_schema options)); tauto).
  apply yields_lift; [done|]. intros ni [-> Hui]%ok_or_ok%checked_add_some. case_decide as Hti; [done|].
  apply yields_lift; [done|]. intros b Hb. case_decide as Hrc; [done|].
  apply yields_lift; [done|]. intros nr [-> Hur]%ok_or_ok%checked_add_some. case_decide as Hmr; [done|].
  rewrite Hsch in *. apply yields_bind.
  eapply yields_weaken; [apply (send_rows_ok b _ res tracker rows s Hp Hs)|].
  { unfold lengthN at 2. rewrite length_seq, N2Nat.id. lia. }
  intros [res1 tracker1] s1 (new & Hs1 & Hp1 & Eb1 & Ei1 & Hf).
  assert (lengthN (rows ++ new) ≤ el_max_rows (mo_limits options)) as Hn1.
  { rewrite lengthN_app. apply Forall2_lengthN in Hf. fold (batch_positions b) in Hf. rewrite batch_positions_length in Hf. lia. }
  apply yields_lift; [by eapply progress_within|]. intros nb [-> Hub]%ok_or_ok%checked_add_some.
  apply yields_ret. exists b, new. unfold decodes_to. rewrite Hsch.
  split_and!; try done; try (cbn; lia).
Qed.

Lemma send_batches_ok : ∀ batch_rx n res tracker rows s,
  progress res tracker rows → cg_sent s = base ++ rows → lengthN rows ≤ el_max_rows (mo_limits options) →
  mr_ipc_bytes res ≤ el_max_total_ipc_bytes (mo_limits options) →
  yields (materialize_loop batch_rx n res tracker options) s
    (λ '(res', tracker') s', ∃ batches new, Forall2 decodes_to batch_rx batches
      ∧ (∀ i e, batch_rx !! i = Some e → ib_sequence e = n + N.of_nat i)
      ∧ cg_sent s' = base ++ rows ++ new ∧ progress res' tracker' (rows ++ new)
      ∧ Forall2 row_at (batches ≫= batch_positions) new ∧ lengthN (rows ++ new) ≤ el_max_rows (mo_limits options)
      ∧ mr_batches res' = mr_batches res + lengthN batch_rx
      ∧ mr_ipc_bytes res' = mr_ipc_bytes res + sumN ((λ e, lengthN (ib_ipc_bytes e)) <$> batch_rx)
      ∧ mr_ipc_bytes res' ≤ el_max_total_ipc_bytes (mo_limits options))
    within.
Proof using Hw.
  induction batch_rx as [|e batch_rx IH]; intros n res tracker rows s Hp Hs Hn Hi.
  all: assert (within s) as Hin by (by eapply progress_within).
  all: cbn [materialize_loop]; apply yields_bind; unfold yields at 1, cancelled.
  all: destruct (next_of false (cg_cancelled s)) as [[] lc]; [done|].
  { apply yields_ret. exists [], []. rewrite !app_nil_r, lengthN_nil. cbn. split_and!; try done; try lia. }
  apply yields_bind. eapply yields_weaken; [by apply (send_envelope_ok e n res tracker rows)|].
  intros [res1 tracker1] s1 (b & new & Hd & Hsq & Hs1 & Hp1 & Hf & Hn1 & Eb & Ei & Hi1).
  apply yields_lift; [by eapply progress_within|]. intros n1 [-> _]%ok_or_ok%checked_add_some.
  eapply yields_weaken; [by apply (IH (n + 1) res1 tracker1 (rows ++ new))|].
  intros [res' tracker'] s' (batches & new' & Hds & Hseq & Hs' & Hp' & Hf' & Hn' & Eb' & Ei' & Hi').
  exists (b :: batches), (new ++ new'). rewrite <- !app_assoc in *. cbn [fmap list_fmap]. rewrite lengthN_cons, sumN_cons.
  split_and!; try done; try lia.
  - by constructor.
  - intros [|i] e' He'; cbn in He'; [injection He' as <-; lia|]. apply Hseq in He'. lia.
  - rewrite bind_cons. by apply Forall2_app.
Qed.
End Collecting.

(** ** What the cursor of a request asks of the rows *)
Definition page_bound (cursor : option TimestampIdCursorRequest) : option TimestampIdCursorBound :=
  cursor ← cursor; mjoin (result_ok (effective_bound cursor)).
Definition page_committed (cursor : option TimestampIdCursorRequest) : option TimestampIdCursor := cursor ≫= req_committed.
Definition page_indices (schema : QuerySchema) (cursor : option TimestampIdCursorRequest) : option (nat * nat) :=
  cursor ← cursor;
  timestamp_index ← field_index schema (timestamp_field (req_spec cursor));
  id_index ← field_index schema (id_field (req_spec cursor));
  Some (timestamp_index, id_index).

Lemma CursorTracker_new_ok cursor schema tracker :
  CursorTracker_new cursor schema = Ok tracker →
  match cursor with
  | None => tracker = None
  | Some c => effective_bound c = Ok (page_bound cursor) ∧ ∃ ti ii, page_indices schema cursor = Some (ti, ii)
      ∧ field_type_at schema ti = Some FT_TimestampMicrosecondUtc ∧ field_type_at schema ii = Some FT_Int64
      ∧ tracker = Some (mkTracker ti ii (page_bound cursor) (req_committed c) None None)
  end.
Proof.
  destruct cursor as [c|]; cbn [CursorTracker_new]; [|by intros [= <-]].
  rewrite result_bind_ok. intros (_u & _ & Hn). revert Hn.
  rewrite result_bind_ok. intros (b & Hb%map_err_ok & Hn). revert Hn.
  rewrite result_bind_ok. intros (ti & Hti%ok_or_ok & Hn). revert Hn.
  rewrite result_bind_ok. intros (ii & Hii%ok_or_ok & Hn). revert Hn.
  case_decide as Ht; [done|]. case_decide as Hi; [done|]. intros [= <-].
  unfold page_bound, page_indices. cbn. rewrite Hb. split; [done|]. exists ti, ii. rewrite Hti. cbn. rewrite Hii. done.
Qed.

Section Collections.
Context `{ArrowIpc, Chrono, SerdeScalars}.

(** What the report of a collection says of the rows it sent. *)
Definition reports (request : JsonCollectionRequest) (executed : ExecutionResult) (rows : list JsonRow) (c : CollectionResult) : Prop :=
  cr_request_id c = jr_request_id request
  ∧ rows_read c = lengthN rows ∧ lengthN rows ≤ jr_max_rows request
  ∧ bytes_read c = lines_bytes rows ∧ lines_bytes rows ≤ jr_max_bytes request
  ∧ truncated c = ex_truncated executed
  ∧ match jr_cursor request with
    | None => Forall (λ r, row_cursor r = None) rows ∧ checkpoint_candidate c = None ∧ scan_resume c = None
    | Some cursor => ∃ bound cs, effective_bound cursor = Ok bound ∧ cursors_of rows = Some <$> cs
        ∧ ordered_above bound cs ∧ scan_resume c = last cs
        ∧ checkpoint_candidate c = greater_or (req_committed cursor) <$> last cs
        ∧ (truncated c = true → is_Some (scan_resume c))
        ∧ (∀ previous resume, req_resume_after cursor = Some previous → scan_resume c = Some resume → cursor_lt previous resume)
    end.

Definition sent_within (request : JsonCollectionRequest) (s s' : collecting) : Prop :=
  ∃ rows, cg_sent s' = cg_sent s ++ rows ∧ lengthN rows ≤ jr_max_rows request ∧ lines_bytes rows ≤ jr_max_bytes request
    ∧ in_order (page_bound (jr_cursor request)) (bool_decide (is_Some (jr_cursor request))) rows.

Lemma materialize_batches_ok batch_rx options s :
  in_u64 (el_max_rows (mo_limits options)) →
  let bound := page_bound (mo_cursor options) in
  let indices := page_indices (mo_expected_schema options) (mo_cursor options) in
  yields (materialize_batches batch_rx options) s
    (λ res s', ∃ batches rows, Forall2 (decodes_to options) batch_rx batches
      ∧ (∀ i e, batch_rx !! i = Some e → ib_sequence e = N.of_nat i)
      ∧ cg_sent s' = cg_sent s ++ rows ∧ Forall2 (row_at options indices) (batches ≫= batch_positions) rows
      ∧ lengthN rows ≤ el_max_rows (mo_limits options) ∧ lines_bytes rows ≤ mo_max_output_bytes options
      ∧ mr_rows res = lengthN rows ∧ mr_ndjson_bytes res = lines_bytes rows ∧ mr_batches res = lengthN batch_rx
      ∧ mr_ipc_bytes res = sumN ((λ e, lengthN (ib_ipc_bytes e)) <$> batch_rx) ∧ mr_schema res = mo_expected_schema options
      ∧ match mo_cursor options with
        | None => Forall (λ r, row_cursor r = None) rows ∧ mr_checkpoint_candidate res = None ∧ mr_scan_resume res = None
        | Some c => effective_bound c = Ok bound ∧ ∃ cs, cursors_of rows = Some <$> cs ∧ ordered_above bound cs
            ∧ mr_scan_resume res = last cs ∧ mr_checkpoint_candidate res = greater_or (req_committed c) <$> last cs
        end)
    (λ s', cg_sent s' = cg_sent s ∨ (bool_decide (is_Some (mo_cursor options)) = bool_decide (is_Some indices)
        ∧ within options indices bound (cg_sent s) s')).
Proof.
  intros Hw bound indices. unfold materialize_batches.
  apply yields_lift; [by left|]. intros _u _. apply yields_lift; [by left|]. intros tracker Ht%CursorTracker_new_ok.
  apply yields_bind.
  assert (progress options indices bound (page_committed (mo_cursor options))
    (mkMaterialized 0 0 0 0 (mo_expected_schema options) None None) tracker []) as Hp.
  { unfold progress, lines_bytes. cbn. split_and!; try done; [lia|]. subst indices bound. unfold tracks.
    destruct (mo_cursor options) as [c|]; cbn [page_committed]; [|by subst tracker; constructor].
    destruct Ht as (_ & ti & ii & -> & _ & _ & ->). cbn. split_and!; [done..|]. exists [].
    unfold tracked_ok. cbn. split_and!; try done; repeat constructor. }
  assert (bool_decide (is_Some (mo_cursor options)) = bool_decide (is_Some indices)) as Hsame.
  { subst indices. destruct (mo_cursor options) as [c|]; [|done]. by destruct Ht as (_ & ti & ii & -> & _). }
  pose proof (send_batches_ok options indices bound (page_committed (mo_cursor options)) (cg_sent s) Hw batch_rx 0 _ _ [] s
    Hp (eq_sym (app_nil_r _)) ltac:(rewrite lengthN_nil; lia) ltac:(cbn; lia)) as Hloop. revert Hloop. unfold yields at 1 2.
  destruct (materialize_loop _ _ _ _ _ s) as [s1 [[res1 tracker1]|e]]; [|by right].
  intros (batches & rows & Hd & Hseq & Hs1 & Hp1 & Hf & Hn & Eb & Ei & _). cbn [app] in *.
  destruct Hp1 as (Er & Ey & Hy & Es & Ec & Er' & Htr). apply yields_ret. exists batches, rows.
  destruct (mo_cursor options) as [c|].
  - destruct Ht as (Hb & ti & ii & Hti & _). subst indices. unfold tracks in Htr. rewrite Hti in Htr.
    destruct tracker1 as [t|]; [|done]. destruct Htr as (_ & _ & cs & Hcs & _ & _ & Ho & Hl & Hca). cbn.
    split_and!; try done; try lia. by exists cs.
  - unfold tracks in Htr. subst indices. cbn in Htr. destruct tracker1; [done|]. split_and!; try done; lia.
Qed.

Lemma yields_timeout {A} (f : Duration → native A) s Q (E : collecting → Prop) :
  (∀ s1, cg_sent s1 = cg_sent s → E s1) →
  (∀ d s1, cg_sent s1 = cg_sent s → yields (f d) s1 Q E) → yields (remaining_timeout ≫= f) s Q E.
Proof.
  intros HE H2. apply yields_bind. unfold remaining_timeout, until_deadline. apply yields_bind. unfold yields.
  destruct (next_of _ (cg_remaining s)) as [d l]. case_decide; [by apply HE|by apply H2].
Qed.

Lemma execution_limits_rows request schema timeout limits :
  execution_limits request schema timeout = Ok limits → el_max_rows limits = jr_max_rows request.
Proof. unfold execution_limits. rewrite result_bind_ok. by intros (n & _ & [= <-]). Qed.

(** Where the rows of a successful collection come from. *)
Definition collected (connector : Connector) (request : JsonCollectionRequest) (rows : list JsonRow) (executed : ExecutionResult) : Prop :=
  ∃ prepared limits binary timeout sent batches,
  execution_limits request (pd_schema prepared) timeout = Ok limits
  ∧ binary_json_encoding (cc_connector_id (jr_connection request)) = Ok binary
  ∧ let options := mkOptions (jr_request_id request) (pd_schema prepared) limits (jr_max_bytes request) binary (jr_cursor request) in
    con_execute connector (mkExecuteRequest (jr_request_id request) (jr_connection request)
      (jr_query request) limits (Some (pd_schema prepared)) (jr_cursor request)) = (sent, Ok executed)
    ∧ Forall2 (decodes_to options) sent batches
    ∧ (∀ i e, sent !! i = Some e → ib_sequence e = N.of_nat i)
    ∧ Forall2 (row_at options (page_indices (pd_schema prepared) (jr_cursor request))) (batches ≫= batch_positions) rows
    ∧ ex_batches_emitted executed = lengthN sent.

Lemma collect_inner_ok connector request s :
  in_u64 (jr_max_rows request) →
  yields (collect_json_rows_inner connector request) s
    (λ c s', ∃ executed rows, cg_sent s' = cg_sent s ++ rows ∧ collected connector request rows executed
      ∧ reports request executed rows c)
    (sent_within request s).
Proof.
  intros Hw.
  assert (∀ s1, cg_sent s1 = cg_sent s → sent_within request s s1) as Hnone.
  { intros s1 Es. exists []. rewrite app_nil_r, lengthN_nil. unfold lines_bytes, in_order. cbn. split_and!; [done|lia|lia|].
    case_bool_decide; [|constructor]. exists []. repeat constructor. }
  unfold collect_json_rows_inner. apply yields_lift; [by apply Hnone|]. intros binary Hbin.
  apply yields_timeout; [done|]. intros d1 s1 E1. apply yields_lift; [by apply Hnone|]. intros prepared Hprep.
  apply yields_lift; [by apply Hnone|]. intros _u _. apply yields_timeout; [intros s2 E2; apply Hnone; by rewrite E2|].
  intros d2 s2 E2. rewrite E1 in E2. clear s1 E1. apply yields_lift; [by apply Hnone|]. intros limits Hlim.
  pose proof (execution_limits_rows _ _ _ _ Hlim) as Hrows.
  destruct (con_execute _ _) as [sent execution] eqn:Hex. apply yields_bind.
  set (options := mkOptions _ _ _ _ _ _).
  pose proof (materialize_batches_ok sent options s2 ltac:(cbn; by rewrite Hrows)) as Hm. revert Hm.
  unfold yields at 1 2. cbn zeta. destruct (materialize_batches sent options s2) as [s3 [res|e]].
  2:{ intros [E3|[Hi (rows & Hs & Hn & Hb & Ho)]]; [by apply Hnone; rewrite E3|]. exists rows. rewrite Hs, E2.
      rewrite <- Hi in Ho. cbn in Hn, Hb, Ho. rewrite Hrows in Hn. by split_and!. }
  intros (batches & rows & Hd & Hseq & Hs & Hf & Hn & Hb & Er & Ey & Eb & Ei & Es & Hcur). cbn in Hn, Hb. rewrite Hrows in Hn.
  assert (sent_within request s s3) as Hsent.
  { exists rows. rewrite Hs, E2. split_and!; [done..|]. unfold in_order. subst options. cbn in Hcur.
    destruct (jr_cursor request) as [c|]; cbn; [|by destruct Hcur].
    destruct Hcur as (_ & cs & ? & ? & _). by exists cs. }
  apply yields_lift; [done|]. intros executed ->. apply yields_lift; [done|]. intros _u1 Hv1.
  apply yields_lift; [done|]. intros _u2 Hv2. apply yields_ret. exists executed, rows.
  unfold validate_execution_result in Hv1. case_decide as Hno; [done|].
  assert (ex_batches_emitted executed = lengthN sent) as Hbe.
  { destruct (decide (ex_batches_emitted executed = mr_batches res)) as [->|]; [done|tauto]. }
  split_and!; [by rewrite Hs, E2| |].
  { exists prepared, limits, binary, d2, sent, batches. by split_and!. }
  unfold reports. cbn. rewrite Er, Ey. split_and!; try done.
  subst options. cbn in Hcur. destruct (jr_cursor request) as [c|]; [|done].
  destruct Hcur as (Hbound & cs & Hcs & Ho & Hl & Hca). exists (page_bound (Some c)), cs.
  cbn in Hv2. case_decide as Hres; [done|]. split_and!; try done.
  - intros Htr. apply not_eq_None_Some. tauto.
  - intros previous resume Hp Hr. rewrite Hp, Hr in Hv2. case_decide as Hgt; [done|]. by apply position_cmp_gt.
Qed.

(** C11: a collection that succeeds reports exactly the rows it sent, which are the JSON of the
    rows of the batches its connector sent, in order: their number and bytes, within the
    limits, and for a cursor page the last cursor as the place to resume and the largest of
    it and the committed one as candidate, the cursors increasing strictly above the bound
    of the request. *)
Theorem collection_reports_what_it_sent provider request first s s' c :
  in_u64 (jr_max_rows request) →
  collect_json_rows provider request first s = (s', Ok c) →
  ∃ connector executed rows,
    provider_connector provider (cc_connector_id (jr_connection request)) = Ok connector
    ∧ collected connector request rows executed
    ∧ cg_sent s' = cg_sent s ++ rows ∧ reports request executed rows c.
Proof.
  intros Hw. unfold collect_json_rows. rewrite st_bind_ok. intros (_u & s1 & (-> & _)%st_lift_ok & Hc). revert Hc.
  rewrite st_bind_ok. intros (connector & s1 & (-> & Hcon)%st_lift_ok & Hc). destruct first; try done.
  pose proof (yields_ok _ _ _ _ _ _ (collect_inner_ok connector request s Hw) Hc) as (executed & rows & ? & ? & ?).
  by exists connector, executed, rows.
Qed.

(** C12: however a collection ends (cancelled, past its deadline, refused by a check, its
    receiver gone), the rows it has sent by then are within the row and byte limits of the
    request, and their cursors increase strictly above the bound of the request. *)
Theorem collection_stays_within_limits provider request first s :
  in_u64 (jr_max_rows request) → sent_within request s (collect_json_rows provider request first s).1.
Proof.
  intros Hw.
  assert (sent_within request s s) as Hnone.
  { exists []. rewrite app_nil_r, lengthN_nil. unfold lines_bytes, in_order. cbn. split_and!; [done|lia|lia|].
    case_bool_decide; [|constructor]. exists []. repeat constructor. }
  assert (∀ connector, sent_within request s (collect_json_rows_inner connector request s).1) as Hinner.
  { intros connector. apply (yields_any _ _ (sent_within request s)).
    eapply yields_weaken; [by apply collect_inner_ok|]. intros c s1 (executed & rows & Hs & _ & _ & Er & Hn & _ & Hb & _ & Hcur).
    exists rows. split_and!; [done..|]. unfold in_order, page_bound. destruct (jr_cursor request) as [k|]; cbn; [|by destruct Hcur].
    destruct Hcur as (b & cs & -> & Hcs & Ho & _). by exists cs. }
  unfold collect_json_rows. unfold mbind, st_bind, st_lift.
  destruct (validate_collection_request request); [|done]. destruct (provider_connector _ _) as [connector|]; [|done].
  destruct first; cbn; [apply Hinner..|done].
Qed.
End Collections.
