(* ===== verification/MssqlSql.v ===== *)
(** * SQL of the SQL Server connector (connectors/mssql/src/connector/sql.rs)

    A configured query is scanned, refused unless it is one read-only SELECT or WITH, and
    wrapped as a common table expression below the connector's own outer query.

    The scanner walks over the bytes of the text: [rest] is what is left of them and
    [position] how many are behind. *)

From S2P Require Export Sdk.

Local Open Scope N_scope.
Local Open Scope dbx_scope.

Definition MAX_COLLECTION_ROWS : N := 100000.
Definition MAX_QUERY_BYTES : N := 1024 * 1024.
Definition MAX_CURSOR_FIELD_BYTES : N := 128.

Definition configuration_error (code : string) : ConnectorError := ConnectorError_new code Configuration false true.

Definition RESERVED_CTE : rust_string := str "dbx_rs_base".
Definition REJECTED_TOKENS : list rust_string := str <$>
  ["alter"; "backup"; "bulk"; "checkpoint"; "create"; "dbcc"; "delete"; "deny"; "drop"; "dump"; "execute"; "exec";
   "grant"; "holdlock"; "insert"; "into"; "kill"; "merge"; "next"; "openrowset"; "openquery"; "opendatasource";
   "openxml"; "reconfigure"; "restore"; "revert"; "revoke"; "set"; "shutdown"; "tablockx"; "truncate"; "update";
   "updlock"; "use"; "waitfor"; "writetext"; "xlock"]%string.

Record Token := mkToken { tk_text : rust_string; tk_start : nat; tk_depth : N }.
Record NormalizedQuery := mkNormalized {
  cursor_bound : option TimestampIdCursorBound;
  cte_prefix : option rust_string;
  main_select : rust_string;
}.

(** ** The scanner *)
Definition is_identifier_start (b : byte) : bool := is_ascii_alphabetic b || bool_decide (b = "_"%byte) || bool_decide (b = "#"%byte).
Definition is_identifier_continue (b : byte) : bool := is_identifier_start b || is_ascii_digit b || bool_decide (b = "$"%byte).

(** Past the quote that closes; a doubled one is text.  The answer is what is left behind
    it and how far that was. *)
Fixpoint skip_closing (quote : byte) (rest : list byte) (position : nat) : option (list byte * nat) :=
  match rest with
  | [] => None
  | b :: rest1 =>
      if decide (b = quote) then
        match rest1 with
        | c :: rest2 => if decide (c = quote) then skip_closing quote rest2 (position + 2) else Some (rest1, S position)
        | [] => Some (rest1, S position)
        end
      else skip_closing quote rest1 (S position)
  end.
Definition skip_quoted (rest : list byte) (position : nat) (quote : byte) : result ConnectorError (list byte * nat) :=
  ok_or (configuration_error "DBX-RS-MS-CFG-0021") (skip_closing quote rest position).
Definition skip_bracket_identifier (rest : list byte) (position : nat) : result ConnectorError (list byte * nat) :=
  ok_or (configuration_error "DBX-RS-MS-CFG-0021") (skip_closing "]"%byte rest position).

Fixpoint skip_line_comment (rest : list byte) (position : nat) : list byte * nat :=
  match rest with
  | [] => ([], position)
  | b :: rest => if decide (b = x0a ∨ b = x0d) then (rest, S position) else skip_line_comment rest (S position)
  end.

(** The two steps of a nesting are one turn of the loop each. *)
Fixpoint skip_block_comment (rest : list byte) (position : nat) (nesting : N) : result ConnectorError (list byte * nat) :=
  match rest with
  | b :: (c :: rest2) as rest1 =>
      if decide (b = "/"%byte ∧ c = "*"%byte) then
        nesting ← ok_or (configuration_error "DBX-RS-MS-CFG-0022") (checked_add nesting 1);
        skip_block_comment rest2 (position + 2) nesting
      else if decide (b = "*"%byte ∧ c = "/"%byte) then
        if decide (nesting - 1 = 0) then mret (rest2, (position + 2)%nat) else skip_block_comment rest2 (position + 2) (nesting - 1)
      else skip_block_comment rest1 (S position) nesting
  | _ => mthrow (configuration_error "DBX-RS-MS-CFG-0022")
  end.

(** The bytes of an identifier and what follows. *)
Fixpoint span_identifier (rest : list byte) : list byte * list byte :=
  match rest with
  | [] => ([], [])
  | b :: rest1 => if is_identifier_continue b then let '(word, rest2) := span_identifier rest1 in (b :: word, rest2) else ([], rest)
  end.

Record scanner := mkScanner { sc_rest : list byte; sc_position : nat; sc_depth : N; sc_tokens : list Token }.

(** One turn of [scan_sql] at a byte. *)
Definition scan_turn (b : byte) (rest : list byte) (position : nat) (depth : N) (tokens : list Token)
    : result ConnectorError scanner :=
  let at_ p := mkScanner p.1 p.2 depth tokens in
  if decide (b = "'"%byte ∨ b = x22) then at_ <$> skip_quoted rest (S position) b
  else if decide (b = "["%byte) then at_ <$> skip_bracket_identifier rest (S position)
  else if decide (b = "-"%byte ∧ head rest = Some "-"%byte) then
    mret (at_ (skip_line_comment (tail rest) (position + 2)))
  else if decide (b = "/"%byte ∧ head rest = Some "*"%byte) then
    at_ <$> skip_block_comment (tail rest) (position + 2) 1
  else if decide (b = ";"%byte) then mthrow (configuration_error "DBX-RS-MS-CFG-0016")
  else if decide (b = "@"%byte) then mthrow (configuration_error "DBX-RS-MS-CFG-0047")
  else if decide (b = "("%byte) then
    depth ← ok_or (configuration_error "DBX-RS-MS-CFG-0020") (checked_add depth 1);
    mret (mkScanner rest (S position) depth tokens)
  else if decide (b = ")"%byte) then
    depth ← ok_or (configuration_error "DBX-RS-MS-CFG-0020") (checked_sub depth 1);
    mret (mkScanner rest (S position) depth tokens)
  else if is_identifier_start b then
    let '(word, rest) := span_identifier rest in
    text ← ok_or (configuration_error "DBX-RS-MS-CFG-0020") (from_utf8 (b :: word));
    mret (mkScanner rest (S position + length word) depth (tokens ++ [mkToken text position depth]))
  else mret (mkScanner rest (S position) depth tokens).

(** Every turn takes a byte at least: as much fuel as bytes is enough. *)
Fixpoint scan_loop (fuel : nat) (s : scanner) : result ConnectorError (N * list Token) :=
  match sc_rest s, fuel with
  | [], _ => mret (sc_depth s, sc_tokens s)
  | _, O => mthrow panicked
  | b :: rest, S fuel => s ← scan_turn b rest (sc_position s) (sc_depth s) (sc_tokens s); scan_loop fuel s
  end.
Definition scan_sql (query : rust_string) : result ConnectorError (list Token) :=
  let bytes := utf8_bytes query in
  '(depth, tokens) ← scan_loop (length bytes) (mkScanner bytes 0 0 []);
  reject (configuration_error "DBX-RS-MS-CFG-0020") when (depth ≠ 0);;
  mret tokens.

(** ** The checks *)
Definition is_word (words : list rust_string) (token : Token) : bool := existsb (eq_ignore_ascii_case (tk_text token)) words.
Definition reject_unsafe_query (tokens : list Token) : result ConnectorError () :=
  reject (configuration_error "DBX-RS-MS-CFG-0018") when (existsb (is_word REJECTED_TOKENS) tokens = true);;
  mret tt.
Definition OUTER_WORDS : list rust_string := str <$> ["order"; "offset"; "fetch"; "option"; "for"; "top"]%string.
Definition valid_cursor_field (field : rust_string) : bool :=
  bool_decide (field ≠ []) && bool_decide (str_len field ≤ MAX_CURSOR_FIELD_BYTES) && bool_decide (utf16_count field ≤ 128)
  && negb (existsb is_control field).

(** The bound of a cursor; [transpose] and [flatten]. *)
Definition bound_of (cursor : option TimestampIdCursorRequest) : result ConnectorError (option TimestampIdCursorBound) :=
  match cursor with
  | None => mret None
  | Some cursor => map_err (λ _, configuration_error "DBX-RS-MS-CFG-0046") (effective_bound cursor)
  end.

(** A WITH query up to its top-level SELECT, and from there on. *)
Definition split_with (query : rust_string) (tokens : list Token) : result ConnectorError (option rust_string * rust_string) :=
  let len := length (utf8_bytes query) in
  main ← ok_or (configuration_error "DBX-RS-MS-CFG-0049")
    (snd <$> list_find (λ token, tk_depth token = 0 ∧ eq_ignore_ascii_case (tk_text token) (str "select") = true) (tail tokens));
  before ← ok_or panicked (str_slice 0 (tk_start main) query);
  let prefix := trim_end before in
  reject (configuration_error "DBX-RS-MS-CFG-0049") when (prefix = []);;
  after ← ok_or panicked (str_slice (tk_start main) len query);
  mret (Some prefix, after).

Definition normalize_query (query : rust_string) (max_rows : N) (cursor : option TimestampIdCursorRequest)
    : result ConnectorError NormalizedQuery :=
  reject (configuration_error "DBX-RS-MS-CFG-0014") when (¬ (1 ≤ max_rows ∧ max_rows ≤ MAX_COLLECTION_ROWS));;
  reject (configuration_error "DBX-RS-MS-CFG-0041") when (MAX_QUERY_BYTES < str_len query);;
  let query := trim query in
  reject (configuration_error "DBX-RS-MS-CFG-0015") when (query = [] ∨ str_contains query 0 = true);;
  let query := match strip_suffix_char 59 query with Some query => trim_end query | None => query end in
  reject (configuration_error "DBX-RS-MS-CFG-0016") when (query = []);;
  tokens ← scan_sql query;
  _ ← reject_unsafe_query tokens;
  first ← ok_or (configuration_error "DBX-RS-MS-CFG-0017") (head tokens);
  reject (configuration_error "DBX-RS-MS-CFG-0017")
    when (is_word [str "select"; str "with"] first = false);;
  reject (configuration_error "DBX-RS-MS-CFG-0048") when (existsb (is_word [RESERVED_CTE]) tokens = true);;
  reject (configuration_error "DBX-RS-MS-CFG-0050")
    when (existsb (λ token, bool_decide (tk_depth token = 0) && is_word OUTER_WORDS token) tokens = true);;
  '(cte_prefix, main_select) ← (if is_word [str "select"] first then mret (None, query) else split_with query tokens);
  cursor_bound ← bound_of cursor;
  reject (configuration_error "DBX-RS-MS-CFG-0046")
    when (is_some_and (λ c, negb (valid_cursor_field (timestamp_field (req_spec c)))
      || negb (valid_cursor_field (id_field (req_spec c)))) cursor = true);;
  mret (mkNormalized cursor_bound cte_prefix main_select).

(** ** Building SQL *)
Definition quote_identifier (identifier : rust_string) : rust_string :=
  str "[" ++ (identifier ≫= λ c, if decide (c = 93) then [93; c] else [c]) ++ str "]".
Definition qualified_identifier (identifier : rust_string) : rust_string := str "[dbx_rs_row]." ++ quote_identifier identifier.

Definition newline : rust_string := [10].
Definition wrap (self : NormalizedQuery) (outer : rust_string) : rust_string :=
  match cte_prefix self with
  | None => str "WITH [dbx_rs_base] AS (" ++ newline ++ main_select self ++ newline ++ str ")" ++ newline ++ outer
  | Some prefix =>
      prefix ++ newline ++ str ", [dbx_rs_base] AS (" ++ newline ++ main_select self ++ newline ++ str ")" ++ newline ++ outer
  end.
Definition metadata_sql (self : NormalizedQuery) : rust_string :=
  wrap self (str "SELECT TOP (0) * FROM [dbx_rs_base] AS [dbx_rs_row]").
Definition projected_metadata_sql (self : NormalizedQuery) (projection : rust_string) : rust_string :=
  wrap self (str "SELECT TOP (0) " ++ projection ++ str " FROM [dbx_rs_base] AS [dbx_rs_row]").

Definition execution_sql (self : NormalizedQuery) (projection : rust_string) (cursor : option TimestampIdCursorRequest) : rust_string :=
  match cursor with
  | None => wrap self (str "SELECT TOP (@P1) " ++ projection ++ str " FROM [dbx_rs_base] AS [dbx_rs_row]")
  | Some cursor =>
      let timestamp := qualified_identifier (timestamp_field (req_spec cursor)) in
      let id := qualified_identifier (id_field (req_spec cursor)) in
      let '(predicate, page_parameter) :=
        match cursor_bound self with
        | None => ([], str "@P1")
        | Some bound =>
            let id_operator := if inclusive bound then str ">=" else str ">" in
            (str " WHERE (" ++ timestamp ++ str " IS NULL OR " ++ id ++ str " IS NULL OR " ++ timestamp ++ str " > @P1 OR ("
               ++ timestamp ++ str " = @P1 AND " ++ id ++ str " " ++ id_operator ++ str " @P2))", str "@P3")
        end in
      let order := str " ORDER BY CASE WHEN " ++ timestamp ++ str " IS NULL THEN 0 ELSE 1 END, " ++ timestamp
        ++ str ", CASE WHEN " ++ id ++ str " IS NULL THEN 0 ELSE 1 END, " ++ id in
      wrap self (str "SELECT TOP (" ++ page_parameter ++ str ") " ++ projection ++ str " FROM [dbx_rs_base] AS [dbx_rs_row]"
        ++ predicate ++ order)
  end.
