(* ===== verification/MssqlSqlProps.v ===== *)
(** * A wrapped SQL Server query stays in its parentheses (MssqlSql.v)

    The scanner without its positions is a machine that turns bytes into effects: a word,
    an opening or a closing parenthesis.  Effects compose along a text that is cut where
    no lexical form is open, which is what the wrapping relies on. *)

From S2P Require Export MssqlSql.

Local Open Scope N_scope.
Local Open Scope dbx_scope.

(** ** The scanner as a relation *)
Definition turn (s s' : scanner) : Prop := ∃ b rest, sc_rest s = b :: rest
  ∧ scan_turn b rest (sc_position s) (sc_depth s) (sc_tokens s) = Ok s'.
(** What a token says apart from its place. *)
Definition sig (t : Token) : rust_string * N := (tk_text t, tk_depth t).

(** ** The machine of effects *)
Inductive effect := Word (text : rust_string) | Open | Close.
Definition lex_turn (b : byte) (rest : list byte) : option (list byte * option effect) :=
  let quiet (r : list byte) := (r, @None effect) in
  if decide (b = "'"%byte ∨ b = x22) then (λ r, quiet r.1) <$> skip_closing b rest 0
  else if decide (b = "["%byte) then (λ r, quiet r.1) <$> skip_closing "]"%byte rest 0
  else if decide (b = "-"%byte ∧ head rest = Some "-"%byte) then Some (quiet (skip_line_comment (tail rest) 0).1)
  else if decide (b = "/"%byte ∧ head rest = Some "*"%byte) then
    (λ r, quiet r.1) <$> result_ok (skip_block_comment (tail rest) 0 1)
  else if decide (b = ";"%byte) then None
  else if decide (b = "@"%byte) then None
  else if decide (b = "("%byte) then Some (rest, Some Open)
  else if decide (b = ")"%byte) then Some (rest, Some Close)
  else if is_identifier_start b then
    let '(word, rest) := span_identifier rest in
    (λ text, (rest, Some (Word text))) <$> from_utf8 (b :: word)
  else Some (quiet rest).

Inductive lexes : list byte → list effect → list byte → Prop :=
  | lexes_refl r : lexes r [] r
  | lexes_step b rest r e es r' :
      lex_turn b rest = Some (r, e) → lexes r es r' → lexes (b :: rest) (option_list e ++ es) r'.

(** Depth and words of a sequence of effects. *)
Fixpoint run_effects (d : N) (es : list effect) : option (N * list (rust_string * N)) :=
  match es with
  | [] => Some (d, [])
  | Word w :: es => '(d', ws) ← run_effects d es; Some (d', (w, d) :: ws)
  | Open :: es => d ← checked_add d 1; run_effects d es
  | Close :: es => d ← checked_sub d 1; run_effects d es
  end.
Definition deepen (k : N) (w : rust_string * N) : rust_string * N := (w.1, w.2 + k).

(** ** Skipping is the same at every position *)
Lemma skip_closing_any q l : ∀ p p2 r p', skip_closing q l p = Some (r, p') →
  ∃ p2', skip_closing q l p2 = Some (r, p2') ∧ (p' + length r = p + length l)%nat ∧ r `suffix_of` l.
Proof.
  induction l as [l IH] using (induction_ltof1 _ length); unfold ltof in IH.
  intros p p2 r p'. destruct l as [|b l]; cbn; [done|]. case_decide.
  - destruct l as [|c l].
    + intros [= <- <-]. exists (S p2). split_and!; [done|cbn; lia|by exists [b]].
    + case_decide.
      * intros Hk. apply (IH l ltac:(cbn; lia) _ (p2 + 2)%nat) in Hk as (p2' & Hk & Hl & Hs). exists p2'.
        split_and!; [done|cbn; lia|by do 2 apply suffix_cons_r].
      * intros [= <- <-]. exists (S p2). split_and!; [done|cbn; lia|by apply suffix_cons_r].
  - intros Hk. apply (IH l ltac:(cbn; lia) _ (S p2)) in Hk as (p2' & Hk & Hl & Hs). exists p2'.
    split_and!; [done|cbn; lia|by apply suffix_cons_r].
Qed.
Lemma skip_line_any l : ∀ p p2, ∃ p2',
  skip_line_comment l p2 = ((skip_line_comment l p).1, p2')
  ∧ ((skip_line_comment l p).2 + length (skip_line_comment l p).1 = p + length l)%nat
  ∧ (skip_line_comment l p).1 `suffix_of` l.
Proof.
  induction l as [|b l IH]; intros p p2; cbn; [exists p2; split_and!; [done|lia|done]|].
  case_decide; cbn.
  - exists (S p2). split_and!; [done|lia|by apply suffix_cons_r].
  - destruct (IH (S p) (S p2)) as (p2' & E & Hl & Hs). exists p2'. split_and!; [done|lia|by apply suffix_cons_r].
Qed.
Lemma skip_block_any l : ∀ n p p2 r p', skip_block_comment l p n = Ok (r, p') →
  ∃ p2', skip_block_comment l p2 n = Ok (r, p2') ∧ (p' + length r = p + length l)%nat ∧ r `suffix_of` l.
Proof.
  induction l as [l IH] using (induction_ltof1 _ length); unfold ltof in IH.
  intros n p p2 r p'. destruct l as [|b [|c l]]; [done..|]. cbn [skip_block_comment]. case_decide.
  - rewrite result_bind_ok. intros (m & Hm & Hk). rewrite Hm, ok_bind.
    apply (IH l ltac:(cbn; lia) _ _ (p2 + 2)%nat) in Hk as (p2' & Hk & Hl & Hs). exists p2'.
    split_and!; [done|cbn; lia|by do 2 apply suffix_cons_r].
  - case_decide; [case_decide|].
    + intros [= <- <-]. exists (p2 + 2)%nat. split_and!; [done|cbn; lia|by do 2 apply suffix_cons_r].
    + intros Hk. apply (IH l ltac:(cbn; lia) _ _ (p2 + 2)%nat) in Hk as (p2' & Hk & Hl & Hs). exists p2'.
      split_and!; [done|cbn; lia|by do 2 apply suffix_cons_r].
    + intros Hk. apply (IH (c :: l) ltac:(cbn; lia) _ _ (S p2)) in Hk as (p2' & Hk & Hl & Hs). exists p2'.
      split_and!; [done|cbn in *; lia|by apply suffix_cons_r].
Qed.
Lemma span_any l word r : span_identifier l = (word, r) → l = word ++ r ∧ Forall (λ b, is_identifier_continue b = true) word
  ∧ is_none_or (λ b, negb (is_identifier_continue b)) (head r) = true.
Proof.
  revert word r. induction l as [|b l IH]; intros word r; cbn; [by intros [= <- <-]|].
  destruct (is_identifier_continue b) eqn:Hb.
  - destruct (span_identifier l) as [w r1]. intros [= <- <-]. destruct (IH w r1 eq_refl) as (-> & Hw & Hh).
    split_and!; [done|by constructor|done].
  - intros [= <- <-]. split_and!; [done|constructor|cbn; by rewrite Hb].
Qed.
Lemma span_back word r : Forall (λ b, is_identifier_continue b = true) word →
  is_none_or (λ b, negb (is_identifier_continue b)) (head r) = true → span_identifier (word ++ r) = (word, r).
Proof.
  intros Hw Hr. induction Hw as [|b word Hb _ IH]; cbn.
  - destruct r as [|c r]; [done|]. cbn in *. by destruct (is_identifier_continue c).
  - by rewrite Hb, IH.
Qed.

(** ** One turn is one step of the machine *)
Definition effect_at (position : nat) (depth : N) (e : option effect) : option (N * list Token) :=
  match e with
  | None => Some (depth, [])
  | Some (Word w) => Some (depth, [mkToken w position depth])
  | Some Open => (λ d, (d, [])) <$> checked_add depth 1
  | Some Close => (λ d, (d, [])) <$> checked_sub depth 1
  end.
Lemma scan_turn_lexes b rest p d ts s :
  scan_turn b rest p d ts = Ok s ↔
  ∃ r e new, lex_turn b rest = Some (r, e) ∧ effect_at p d e = Some (sc_depth s, new) ∧ sc_rest s = r
    ∧ sc_tokens s = ts ++ new ∧ (sc_position s + length r = p + S (length rest))%nat.
Proof.
  unfold scan_turn, lex_turn. destruct s as [r' p' d' ts']. cbn [sc_rest sc_position sc_depth sc_tokens].
  assert (∀ (o1 : option (list byte * nat)) (o2 : result ConnectorError (list byte * nat)) err,
    (∀ r q, o1 = Some (r, q) → ∃ q2, o2 = Ok (r, q2) ∧ (q2 + length r = p + S (length rest))%nat) →
    (o1 = None → o2 = Err err) →
    ((λ p, mkScanner p.1 p.2 d ts) <$> o2 = Ok (mkScanner r' p' d' ts') ↔
     ∃ r e new, (λ r : list byte * nat, (r.1, @None effect)) <$> o1 = Some (r, e) ∧ effect_at p d e = Some (d', new)
       ∧ r' = r ∧ ts' = ts ++ new ∧ (p' + length r = p + S (length rest))%nat)) as Hquiet.
  { intros [[r q]|] o2 err H1 H2; cbn.
    - destruct (H1 r q eq_refl) as (q2 & -> & Hq). cbn. split.
      + intros [= <- <- <- <-]. exists r, None, []. by rewrite app_nil_r.
      + intros (? & ? & ? & [= <- <-] & [= <- <-] & -> & -> & Hp). rewrite app_nil_r. do 2 f_equal. lia.
    - rewrite (H2 eq_refl). cbn. split; [done|]. by intros (? & ? & ? & ? & _). }
  assert (∀ q, (λ p, mkScanner p.1 p.2 d ts) <$> ok_or (configuration_error "DBX-RS-MS-CFG-0021") (skip_closing q rest (S p))
      = Ok (mkScanner r' p' d' ts') ↔
     ∃ r e new, (λ r : list byte * nat, (r.1, @None effect)) <$> skip_closing q rest 0 = Some (r, e)
       ∧ effect_at p d e = Some (d', new) ∧ r' = r ∧ ts' = ts ++ new ∧ (p' + length r = p + S (length rest))%nat) as Hclosing.
  { intros q. eapply Hquiet.
    - intros r k Hk. apply (skip_closing_any _ _ _ (S p)) in Hk as (k' & Hk & _). exists k'. rewrite Hk. split; [done|].
      apply (skip_closing_any _ _ _ 0%nat) in Hk as (_ & _ & Hl & _). lia.
    - intros Hn. destruct (skip_closing q rest (S p)) as [[r k]|] eqn:Hk; [|done].
      apply (skip_closing_any _ _ _ 0%nat) in Hk as (? & Hk & _). by rewrite Hk in Hn. }
  case_decide; [apply Hclosing|]. case_decide; [apply Hclosing|]. case_decide as Hline.
  { destruct Hline as [-> Hh]. destruct rest as [|c rest]; [done|]. cbn [tail].
    destruct (skip_line_any rest 0 (p + 2)) as (k & Hk & _). destruct (skip_line_any rest (p + 2) 0) as (_ & _ & Hl & _).
    rewrite Hk in Hl |- *. cbn [fst snd] in Hl. split.
    - intros [= <- <- <- <-]. do 3 eexists. split; [done|]. cbn. rewrite app_nil_r. split_and!; try done. lia.
    - intros (? & ? & ? & [= <- <-] & [= <- <-] & -> & -> & Hp). rewrite app_nil_r. cbn in *. do 2 f_equal. lia. }
  case_decide as Hblock.
  { destruct Hblock as [-> Hh]. destruct rest as [|c rest]; [done|]. cbn [tail].
    destruct (skip_block_comment rest (p + 2) 1) as [[r k]|err] eqn:Hk.
    - pose proof Hk as (k0 & Hk0 & Hl & _)%(λ h, skip_block_any _ _ _ 0%nat _ _ h). rewrite Hk0. apply (Hquiet (Some (r, k0)) (Ok (r, k)) panicked); [|done].
      intros ? ? [= <- <-]. exists k. split; [done|]. cbn. lia.
    - apply (Hquiet (result_ok (skip_block_comment rest 0 1)) (Err err) err); [|done]. intros r k Hr.
      destruct (skip_block_comment rest 0 1) as [[r1 k1]|] eqn:Hk1; [|done].
      apply (skip_block_any _ _ _ (p + 2)%nat) in Hk1 as (? & Hk1 & _). by rewrite Hk1 in Hk. }
  case_decide; [by split; [|intros (? & ? & ? & ? & _)]|]. case_decide; [by split; [|intros (? & ? & ? & ? & _)]|].
  case_decide.
  { rewrite result_bind_ok. split.
    - intros (d1 & Hd%ok_or_ok & [= <- <- <- <-]). do 3 eexists. split; [done|]. cbn. rewrite Hd, app_nil_r. cbn. done.
    - intros (? & ? & ? & [= <- <-] & He & -> & -> & Hp). cbn in He. destruct (checked_add d 1); [|done].
      injection He as <- <-. eexists. split; [done|]. rewrite app_nil_r. do 2 f_equal. lia. }
  case_decide.
  { rewrite result_bind_ok. split.
    - intros (d1 & Hd%ok_or_ok & [= <- <- <- <-]). do 3 eexists. split; [done|]. cbn. rewrite Hd, app_nil_r. cbn. done.
    - intros (? & ? & ? & [= <- <-] & He & -> & -> & Hp). cbn in He. destruct (checked_sub d 1); [|done].
      injection He as <- <-. eexists. split; [done|]. rewrite app_nil_r. do 2 f_equal. lia. }
  destruct (is_identifier_start b).
  { destruct (span_identifier rest) as [word r] eqn:Hs. apply span_any in Hs as (-> & _). rewrite result_bind_ok. split.
    - intros (text & Ht%ok_or_ok & [= <- <- <- <-]). rewrite Ht. do 3 eexists. split; [done|]. cbn. split_and!; try done.
      rewrite length_app. lia.
    - intros (? & ? & ? & Hf & He & -> & -> & Hp). destruct (from_utf8 (b :: word)) as [text|]; [|done].
      injection Hf as <- <-. injection He as <- <-. exists text. split; [done|]. rewrite length_app in Hp. do 2 f_equal. lia. }
  split.
  - intros [= <- <- <- <-]. do 3 eexists. split; [done|]. cbn. by rewrite app_nil_r.
  - intros (? & ? & ? & [= <- <-] & [= <- <-] & -> & -> & Hp). rewrite app_nil_r. do 2 f_equal. lia.
Qed.

Lemma lex_turn_suffix b rest r e : lex_turn b rest = Some (r, e) → r `suffix_of` rest.
Proof.
  intros Hl.
  assert (∀ q, (λ r : list byte * nat, (r.1, @None effect)) <$> skip_closing q rest 0 = Some (r, e) → r `suffix_of` rest) as Hq.
  { intros q H. destruct (skip_closing q rest 0) as [[r1 k]|] eqn:Hk; [|done]. injection H as <- <-.
    by apply (skip_closing_any _ _ _ 0%nat) in Hk as (_ & _ & _ & Hk). }
  assert (∀ l, l `suffix_of` tail rest → l `suffix_of` rest) as Ht.
  { intros l H. destruct rest; [done|]. by apply suffix_cons_r. }
  unfold lex_turn in Hl. case_decide; [by eapply Hq|]. case_decide; [by eapply Hq|]. case_decide.
  { injection Hl as <- <-. apply Ht. by destruct (skip_line_any (tail rest) 0 0) as (_ & _ & _ & Hk). }
  case_decide.
  { destruct (skip_block_comment (tail rest) 0 1) as [[r1 k]|] eqn:Hk; [|done]. injection Hl as <- <-. apply Ht.
    by apply (skip_block_any _ _ _ 0%nat) in Hk as (_ & _ & _ & Hk). }
  repeat (case_decide; [by simplify_eq|]). destruct (is_identifier_start b); [|by simplify_eq].
  destruct (span_identifier rest) as [w r1] eqn:Hs. apply span_any in Hs as (-> & _). destruct (from_utf8 _); [|done].
  injection Hl as <- <-. by apply suffix_app_r.
Qed.

(** ** Runs of the scanner *)
Lemma run_effects_app d es es' :
  run_effects d (es ++ es') = ('(d1, ws) ← run_effects d es; '(d2, ws') ← run_effects d1 es'; Some (d2, ws ++ ws')).
Proof.
  revert d. induction es as [|[w| |] es IH]; intros d; cbn.
  - by destruct (run_effects d es') as [[? ?]|].
  - rewrite IH. destruct (run_effects d es) as [[d1 ws]|]; cbn; [|done]. by destruct (run_effects d1 es') as [[? ?]|].
  - destruct (checked_add d 1); cbn; [apply IH|done].
  - destruct (checked_sub d 1); cbn; [apply IH|done].
Qed.
Lemma effect_run p d e d' new :
  effect_at p d e = Some (d', new) → run_effects d (option_list e) = Some (d', sig <$> new).
Proof. destruct e as [[w| |]|]; cbn; [by intros [= <- <-]| | |by intros [= <- <-]]; (destruct (_ d 1); [|done]); by intros [= <- <-]. Qed.
Lemma run_effect p d e d' ws :
  run_effects d (option_list e) = Some (d', ws) → ∃ new, effect_at p d e = Some (d', new) ∧ sig <$> new = ws.
Proof.
  destruct e as [[w| |]|]; cbn; [intros [= <- <-]; by eexists| | |intros [= <- <-]; by eexists];
    (destruct (_ d 1); [|done]); intros [= <- <-]; by eexists.
Qed.

Lemma turns_lexes s s' : rtc turn s s' →
  ∃ es new, lexes (sc_rest s) es (sc_rest s') ∧ run_effects (sc_depth s) es = Some (sc_depth s', sig <$> new)
    ∧ sc_tokens s' = sc_tokens s ++ new ∧ (sc_position s' + length (sc_rest s') = sc_position s + length (sc_rest s))%nat.
Proof.
  induction 1 as [s|s s1 s' (b & rest & Hr & Ht) _ (es & new & Hl & He & Htk & Hp)].
  - exists [], []. rewrite app_nil_r. split_and!; [constructor|done..].
  - apply scan_turn_lexes in Ht as (r & e & new1 & Hl1 & He1 & Er & Et & Hp1). exists (option_list e ++ es), (new1 ++ new).
    rewrite Hr, Et, <- app_assoc in *. rewrite Er in *. split_and!; [by eapply lexes_step| |done|cbn; lia].
    rewrite run_effects_app, (effect_run _ _ _ _ _ He1). cbn. rewrite He. cbn. by rewrite fmap_app.
Qed.
Lemma lexes_turns a es r : lexes a es r → ∀ p d ts d' ws, run_effects d es = Some (d', ws) →
  ∃ p' new, rtc turn (mkScanner a p d ts) (mkScanner r p' d' (ts ++ new)) ∧ sig <$> new = ws.
Proof.
  induction 1 as [r|b rest r e es r' Hl _ IH]; intros p d ts d' ws Hrun.
  - injection Hrun as <- <-. exists p, []. rewrite app_nil_r. by split.
  - rewrite run_effects_app in Hrun. destruct (run_effects d (option_list e)) as [[d1 ws1]|] eqn:H1; [|done]. cbn in Hrun.
    destruct (run_effects d1 es) as [[d2 ws2]|] eqn:H2; [|done]. injection Hrun as <- <-.
    apply (run_effect p) in H1 as (new1 & He & <-).
    pose proof (suffix_length _ _ (lex_turn_suffix _ _ _ _ Hl)) as Hlen.
    set (s1 := mkScanner r (p + S (length rest) - length r) d1 (ts ++ new1)).
    destruct (IH (sc_position s1) d1 (ts ++ new1) d2 ws2 H2) as (p' & new2 & Hrtc & <-).
    exists p', (new1 ++ new2). rewrite app_assoc, fmap_app. split; [|done]. eapply rtc_l; [|exact Hrtc].
    exists b, rest. split; [done|]. apply scan_turn_lexes. exists r, e, new1. cbn. split_and!; try done. lia.
Qed.


Lemma turn_suffix s s' : turn s s' → ∃ b rest, sc_rest s = b :: rest ∧ sc_rest s' `suffix_of` rest.
Proof.
  intros (b & rest & Hr & Ht). exists b, rest. split; [done|]. apply scan_turn_lexes in Ht as (r & e & new & Hl & _ & -> & _).
  by eapply lex_turn_suffix.
Qed.
Lemma scan_loop_turns fuel s d ts :
  (length (sc_rest s) ≤ fuel)%nat → scan_loop fuel s = Ok (d, ts) ↔ ∃ p, rtc turn s (mkScanner [] p d ts).
Proof.
  revert s. induction fuel as [|fuel IH]; intros [rest p0 d0 ts0] Hf; destruct rest as [|b rest]; cbn in *; try lia.
  1, 2: split; [intros [= <- <-]; by exists p0|intros (p & Hrtc)].
  1, 2: apply rtc_inv in Hrtc as [[= -> -> ->]|(s1 & (b & rest & Hr & _) & _)]; done.
  rewrite result_bind_ok. split.
  - intros (s1 & Ht & Hl). assert (turn (mkScanner (b :: rest) p0 d0 ts0) s1) as Hturn by (by exists b, rest).
    pose proof (turn_suffix _ _ Hturn) as (? & ? & [= <- <-] & Hs%suffix_length).
    apply IH in Hl as (p & Hl); [|lia]. exists p. by eapply rtc_l.
  - intros (p & Hrtc). apply rtc_inv in Hrtc as [|(s1 & Hturn & Hrtc)]; [done|].
    pose proof (turn_suffix _ _ Hturn) as (? & ? & [= <- <-] & Hs%suffix_length).
    destruct Hturn as (? & ? & [= <- <-] & Ht). exists s1. split; [done|]. apply IH; [lia|]. by exists p.
Qed.
Lemma scan_sql_ok q tokens :
  scan_sql q = Ok tokens ↔ ∃ p, rtc turn (mkScanner (utf8_bytes q) 0 0 []) (mkScanner [] p 0 tokens).
Proof.
  unfold scan_sql. rewrite result_bind_ok. split.
  - intros ([d ts] & Hl & Hd). apply scan_loop_turns in Hl as (p & Hl); [|done]. case_decide as Hz; [done|].
    injection Hd as ->. subst d. by exists p.
  - intros Hp. exists (0, tokens). by rewrite scan_loop_turns.
Qed.
(** A scan is a sequence of effects from no depth to no depth. *)
Lemma scan_sql_lexes q tokens : scan_sql q = Ok tokens → ∃ es, lexes (utf8_bytes q) es [] ∧ run_effects 0 es = Some (0, sig <$> tokens).
Proof.
  intros (p & Hrtc)%scan_sql_ok. apply turns_lexes in Hrtc as (es & new & Hl & Hr & Ht & _). cbn in *. subst new. by exists es.
Qed.
Lemma lexes_scan_sql q es ws : lexes (utf8_bytes q) es [] → run_effects 0 es = Some (0, ws) →
  ∃ tokens, scan_sql q = Ok tokens ∧ sig <$> tokens = ws.
Proof.
  intros Hl Hr. destruct (lexes_turns _ _ _ Hl 0 0 [] _ _ Hr) as (p & new & Hrtc & Hs). exists new. split; [|done].
  apply scan_sql_ok. by exists p.
Qed.

(** ** Effects at a greater depth *)
Lemma run_effects_depth d es d' ws : run_effects d es = Some (d', ws) → d' ≤ d + lengthN es.
Proof.
  revert d ws. induction es as [|[w| |] es IH]; intros d ws; cbn; rewrite ?lengthN_cons.
  - intros [= <- _]. lia.
  - destruct (run_effects d es) as [[d1 ws1]|] eqn:E; [|done]. intros [= <- _]. apply IH in E. lia.
  - destruct (checked_add d 1) eqn:E; [|done]. apply checked_add_some in E as [-> _]. intros Hr%IH. lia.
  - destruct (checked_sub d 1) eqn:E; [|done]. apply checked_sub_some in E as [? ->]. intros Hr%IH. lia.
Qed.
Lemma run_effects_deepen k d es d' ws :
  run_effects d es = Some (d', ws) → in_u64 (d + k + lengthN es) → run_effects (d + k) es = Some (d' + k, deepen k <$> ws).
Proof.
  revert d ws. induction es as [|[w| |] es IH]; intros d ws; cbn [run_effects]; rewrite ?lengthN_cons.
  - by intros [= <- <-].
  - destruct (run_effects d es) as [[d1 ws1]|] eqn:E; [|done]. intros [= <- <-] Hu.
    rewrite (IH d ws1 E) by ulia. done.
  - destruct (checked_add d 1) as [d1|] eqn:E; [|done]. apply checked_add_some in E as [-> _]. rewrite some_bind. intros Hr Hu.
    assert (checked_add (d + k) 1 = Some (d + k + 1)) as -> by (apply checked_add_some; split; [done|]; clear Hr; ulia). rewrite some_bind.
    replace (d + k + 1) with (d + 1 + k) by lia. apply IH; [done|ulia].
  - destruct (checked_sub d 1) as [d1|] eqn:E; [|done]. apply checked_sub_some in E as [? ->]. rewrite some_bind. intros Hr Hu.
    rewrite (proj2 (checked_sub_some (d + k) 1 (d + k - 1))) by (split; [lia|done]). rewrite some_bind.
    replace (d + k - 1) with (d - 1 + k) by lia. apply IH; [done|ulia].
Qed.
Lemma lexes_length a es r : lexes a es r → (length es + length r ≤ length a)%nat.
Proof.
  induction 1 as [|b rest r e es r' Hl _ IH]; [done|]. apply lex_turn_suffix, suffix_length in Hl.
  rewrite length_app. destruct e; cbn; lia.
Qed.
Lemma lexes_app a es r es' r' : lexes a es r → lexes r es' r' → lexes a (es ++ es') r'.
Proof. induction 1; [done|]. intros H2. rewrite <- app_assoc. eapply lexes_step; eauto. Qed.

(** ** Cutting a text where no form is open *)
Definition neutral (b : byte) : bool :=
  negb (bool_decide (b ∈ ["'"%byte; x22; "]"%byte; "-"%byte; "*"%byte; "/"%byte])) && negb (is_identifier_continue b).
(** The text goes on with a neutral byte, or ends. *)
Definition neutral_head (y : list byte) : bool := is_none_or neutral (head y).

Lemma neutral_not b c : neutral b = true → c ∈ ["'"%byte; x22; "]"%byte; "-"%byte; "*"%byte; "/"%byte] → b ≠ c.
Proof. unfold neutral. rewrite andb_true_iff, !negb_true_iff, bool_decide_eq_false. by intros [Hn _] Hc ->. Qed.

Lemma skip_closing_app q a y p r p' :
  skip_closing q a p = Some (r, p') → head y ≠ Some q → skip_closing q (a ++ y) p = Some (r ++ y, p').
Proof.
  intros H Hy. revert p H. induction a as [a IH] using (induction_ltof1 _ length); unfold ltof in IH. intros p.
  destruct a as [|b a]; cbn; [done|]. case_decide.
  - destruct a as [|c a]; cbn.
    + intros [= <- <-]. destruct y as [|c y]; [done|]. rewrite decide_False; [done|]. intros ->. by apply Hy.
    + case_decide; [|by intros [= <- <-]]. apply (IH a). cbn. lia.
  - apply (IH a). cbn. lia.
Qed.
Lemma skip_block_app a y n p r p' :
  skip_block_comment a p n = Ok (r, p') → skip_block_comment (a ++ y) p n = Ok (r ++ y, p').
Proof.
  revert n p. induction a as [a IH] using (induction_ltof1 _ length); unfold ltof in IH. intros n p.
  destruct a as [|b [|c a]]; [done..|]. cbn [skip_block_comment app]. case_decide.
  - rewrite result_bind_ok. intros (m & -> & Hk). rewrite ok_bind. apply (IH a); [cbn; lia|done].
  - case_decide; [case_decide; [by intros [= <- <-]|]|].
    + apply (IH a). cbn. lia.
    + apply (IH (c :: a)). cbn. lia.
Qed.
(** A line comment ends inside the text, or goes on into what follows. *)
Lemma skip_line_app a y p :
  (∃ r p', skip_line_comment a p = (r, p') ∧ skip_line_comment (a ++ y) p = (r ++ y, p'))
  ∨ (skip_line_comment a p).1 = [] ∧ (skip_line_comment (a ++ y) p).1 = (skip_line_comment y p).1.
Proof.
  revert p. induction a as [|b a IH]; intros p; cbn; [by right|]. case_decide; [left; by do 2 eexists|].
  destruct (IH (S p)) as [(r & p' & -> & ->)|[E1 E2]]; [left; by do 2 eexists|right]. split; [done|]. rewrite E2.
  destruct (skip_line_any y p (S p)) as (k & -> & _). done.
Qed.
Lemma span_app a y word r : span_identifier a = (word, r) → neutral_head y = true → span_identifier (a ++ y) = (word, r ++ y).
Proof.
  intros (-> & Hw & Hr)%span_any Hy. rewrite <- app_assoc. apply span_back; [done|]. destruct r as [|c r]; [|done].
  destruct y as [|c y]; [done|]. cbn in *. unfold neutral in Hy. by apply andb_true_iff in Hy as [_ ->].
Qed.

Lemma lex_turn_app b rest y r e :
  lex_turn b rest = Some (r, e) → neutral_head y = true →
  lex_turn b (rest ++ y) = Some (r ++ y, e)
  ∨ (r = [] ∧ e = None ∧ lex_turn b (rest ++ y) = Some ((skip_line_comment y 0).1, None)).
Proof.
  unfold lex_turn. intros H Hy.
  assert (∀ c, c ∈ ["'"%byte; x22; "]"%byte; "-"%byte; "*"%byte; "/"%byte] → head y ≠ Some c) as Hhead.
  { intros c Hc Hh. destruct y as [|d y]; [done|]. injection Hh as ->. by apply (neutral_not c c) in Hy. }
  assert (∀ q, q ∈ ["'"%byte; x22; "]"%byte; "-"%byte; "*"%byte; "/"%byte] →
    (λ r : list byte * nat, (r.1, @None effect)) <$> skip_closing q rest 0 = Some (r, e) →
    (λ r : list byte * nat, (r.1, @None effect)) <$> skip_closing q (rest ++ y) 0 = Some (r ++ y, e)) as Hclosing.
  { intros q Hq Hk. destruct (skip_closing q rest 0) as [[r1 k]|] eqn:E; [|done]. injection Hk as <- <-.
    rewrite (skip_closing_app _ _ _ _ _ _ E (Hhead _ Hq)). done. }
  case_decide as Hquote; [left; apply Hclosing; [destruct Hquote as [->| ->]; set_solver|done]|].
  case_decide; [left; apply Hclosing; [set_solver|done]|]. case_decide as Hline.
  { destruct Hline as [-> Hh]. destruct rest as [|c rest]; [done|]. cbn [head app] in *. injection Hh as ->.
    rewrite decide_True by done. cbn [tail] in *. injection H as <- <-.
    destruct (skip_line_app rest y 0) as [(r & p' & -> & ->)|[-> ->]]; [by left|by right]. }
  rewrite (decide_False (P := b = "-"%byte ∧ head (rest ++ y) = Some "-"%byte)).
  2:{ intros [-> Hh]. destruct rest as [|c rest]; [by apply (Hhead "-"%byte); [set_solver|]|]. by apply Hline. }
  case_decide as Hblock.
  { destruct Hblock as [-> Hh]. destruct rest as [|c rest]; [done|]. cbn [head app] in *. injection Hh as ->.
    rewrite decide_True by done. cbn [tail] in *. destruct (skip_block_comment rest 0 1) as [[r1 k]|] eqn:E; [|done].
    injection H as <- <-. left. by rewrite (skip_block_app _ _ _ _ _ _ E). }
  rewrite (decide_False (P := b = "/"%byte ∧ head (rest ++ y) = Some "*"%byte)).
  2:{ intros [-> Hh]. destruct rest as [|c rest]; [by apply (Hhead "*"%byte); [set_solver|]|]. by apply Hblock. }
  left. repeat (case_decide; [by simplify_eq|]). destruct (is_identifier_start b); [|by simplify_eq].
  destruct (span_identifier rest) as [word r1] eqn:Hs. rewrite (span_app _ _ _ _ Hs Hy).
  destruct (from_utf8 (b :: word)); [|done]. by injection H as <- <-.
Qed.

(** ** A text up to a newline, without its blanks, and up to a word *)
Definition blank (b : byte) : bool := neutral b && negb (bool_decide (b ∈ ["["%byte; "("%byte; ")"%byte; ";"%byte; "@"%byte])).

Lemma blank_turn b rest : blank b = true → lex_turn b rest = Some (rest, None).
Proof.
  unfold blank, neutral, lex_turn. rewrite !andb_true_iff, !negb_true_iff, !bool_decide_eq_false. intros [[H1 H2] H3].
  repeat (rewrite decide_False by (intros H; destruct_or?; destruct_and?; subst b; first [apply H1|apply H3]; set_solver)).
  unfold is_identifier_continue in H2. apply orb_false_iff in H2 as [H2 _]. apply orb_false_iff in H2 as [-> _]. done.
Qed.
Lemma blank_neutral b : blank b = true → neutral b = true.
Proof. unfold blank. by intros [? _]%andb_true_iff. Qed.

Lemma lexes_suffix a es r : lexes a es r → r `suffix_of` a.
Proof.
  induction 1 as [|b rest r e es r' Hl _ IH]; [done|]. apply suffix_cons_r. etrans; [exact IH|]. by eapply lex_turn_suffix.
Qed.
Lemma lexes_nil es r : lexes [] es r → es = [] ∧ r = [].
Proof. inversion 1; subst; done. Qed.

Lemma lexes_newline a es tl : lexes a es [] → lexes (a ++ x0a :: tl) es tl.
Proof.
  remember [] as r0 eqn:Er. intros H. revert Er. induction H as [r|b rest r e es r' Hl Hs IH]; intros ->.
  - cbn. apply (lexes_step x0a tl tl None [] tl); [by apply blank_turn|constructor].
  - cbn [app]. destruct (lex_turn_app _ _ (x0a :: tl) _ _ Hl eq_refl) as [Hl'|(-> & -> & Hl')].
    + eapply lexes_step; [exact Hl'|]. by apply IH.
    + apply lexes_nil in Hs as [-> _]. apply (lexes_step b _ tl None [] tl); [exact Hl'|constructor].
Qed.

Lemma lexes_blank w es : Forall (λ b, blank b = true) w → lexes w es [] → es = [].
Proof.
  intros Hw. revert es. induction Hw as [|b w Hb _ IH]; intros es Hl; [by apply lexes_nil in Hl as [-> _]|].
  inversion Hl as [|? ? r e es' ? Ht Hs]; subst. rewrite blank_turn in Ht by done. injection Ht as <- <-. by apply IH.
Qed.

Lemma skip_closing_none q a y p :
  skip_closing q a p = None → q ∉ y → skip_closing q (a ++ y) p = None.
Proof.
  intros H Hy. revert p H. induction a as [a IH] using (induction_ltof1 _ length); unfold ltof in IH. intros p.
  destruct a as [|b a]; cbn.
  - clear IH. intros _. revert p. induction y as [|c y IHy]; intros p; [done|]. cbn. rewrite decide_False by set_solver. apply IHy. set_solver.
  - case_decide; [|apply (IH a); cbn; lia]. destruct a as [|c a]; cbn; [done|]. case_decide; [|done]. apply (IH a). cbn. lia.
Qed.
Lemma skip_block_none a y n p :
  result_ok (skip_block_comment a p n) = None → "*"%byte ∉ y → "/"%byte ∉ y → result_ok (skip_block_comment (a ++ y) p n) = None.
Proof.
  intros H Hs Hd. revert n p H. induction a as [a IH] using (induction_ltof1 _ length); unfold ltof in IH. intros n p.
  assert (∀ l n p, "*"%byte ∉ l → "/"%byte ∉ l → result_ok (skip_block_comment l p n) = None) as Hnone.
  { clear. induction l as [|b l IH]; intros n p H1 H2; [done|]. destruct l as [|c l]; [done|]. cbn [skip_block_comment].
    rewrite !decide_False by (intros [? ?]; set_solver). apply IH; set_solver. }
  destruct a as [|b [|c a]]; cbn [app]; [intros _; by apply Hnone| |].
  - intros _. destruct y as [|c y]; [done|].
    assert (skip_block_comment (b :: c :: y) p n = skip_block_comment (c :: y) (S p) n) as ->; [|by apply Hnone].
    clear -Hs Hd. cbn [skip_block_comment]. rewrite (decide_False (P := b = "/"%byte ∧ c = "*"%byte)) by set_solver.
    by rewrite (decide_False (P := b = "*"%byte ∧ c = "/"%byte)) by set_solver.
  - cbn [skip_block_comment]. case_decide.
    + destruct (checked_add n 1); cbn [ok_or]; [|done]. rewrite !ok_bind. apply (IH a). cbn. lia.
    + case_decide; [|exact (IH (c :: a) ltac:(cbn; lia) n (S p))]. case_decide; [done|]. apply (IH a). cbn. lia.
Qed.

Lemma blanks_without y c : Forall (λ b, blank b = true) y → c ∈ ["'"%byte; x22; "]"%byte; "-"%byte; "*"%byte; "/"%byte] → c ∉ y.
Proof. intros Hy Hc Hin. rewrite Forall_forall in Hy. exact (neutral_not c c (blank_neutral _ (Hy _ Hin)) Hc eq_refl). Qed.

Lemma lex_turn_none b rest y : lex_turn b rest = None → Forall (λ b, blank b = true) y → lex_turn b (rest ++ y) = None.
Proof.
  intros H Hy. pose proof (λ c, blanks_without y c Hy) as Hno.
  assert (neutral_head y = true) as Hh. { destruct Hy as [|c y Hc _]; [done|]. by apply blank_neutral. }
  assert (∀ q, q ∈ ["'"%byte; x22; "]"%byte; "-"%byte; "*"%byte; "/"%byte] →
    (λ r : list byte * nat, (r.1, @None effect)) <$> skip_closing q rest 0 = None →
    (λ r : list byte * nat, (r.1, @None effect)) <$> skip_closing q (rest ++ y) 0 = None) as Hclosing.
  { intros q Hq Hk. destruct (skip_closing q rest 0) as [?|] eqn:E; [done|].
    by rewrite (skip_closing_none _ _ _ _ E (Hno _ Hq)). }
  revert H. unfold lex_turn. case_decide as Hquote; [apply Hclosing; destruct Hquote as [->| ->]; set_solver|].
  case_decide; [apply Hclosing; set_solver|]. case_decide as Hline; [done|].
  rewrite (decide_False (P := b = "-"%byte ∧ head (rest ++ y) = Some "-"%byte)).
  2:{ intros [-> Hd]. destruct rest as [|c rest]; [|by apply Hline]. apply (Hno "-"%byte); [set_solver|].
      destruct y; [done|]. injection Hd as ->. set_solver. }
  case_decide as Hblock.
  { destruct Hblock as [-> Hd]. destruct rest as [|c rest]; [done|]. cbn [head app tail] in *. injection Hd as ->.
    rewrite decide_True by done. intros Hk. destruct (skip_block_comment rest 0 1) as [|e] eqn:E; [done|].
    pose proof (skip_block_none rest y 1 0 ltac:(by rewrite E) ltac:(apply Hno; set_solver) ltac:(apply Hno; set_solver)) as ->. done. }
  rewrite (decide_False (P := b = "/"%byte ∧ head (rest ++ y) = Some "*"%byte)).
  2:{ intros [-> Hd]. destruct rest as [|c rest]; [|by apply Hblock]. apply (Hno "*"%byte); [set_solver|].
      destruct y; [done|]. injection Hd as ->. set_solver. }
  repeat (case_decide; [done|]). destruct (is_identifier_start b); [|done].
  destruct (span_identifier rest) as [word r1] eqn:Hs. rewrite (span_app _ _ _ _ Hs Hh). by destruct (from_utf8 (b :: word)).
Qed.

Lemma Forall_suffix {A} (P : A → Prop) (l k : list A) : Forall P k → l `suffix_of` k → Forall P l.
Proof. intros Hk [m ->]. by apply Forall_app in Hk as [_ ?]. Qed.
Lemma lexes_trim a w es : Forall (λ b, blank b = true) w → lexes (a ++ w) es [] → lexes a es [].
Proof.
  intros Hw. revert es. induction a as [a IH] using (induction_ltof1 _ length); unfold ltof in IH. intros es Hl.
  destruct a as [|b rest]; [apply lexes_blank in Hl as ->; [constructor|done]|]. cbn [app] in Hl.
  inversion Hl as [|? ? r1 e es' ? Ht Hs]; subst.
  destruct (lex_turn b rest) as [[r e0]|] eqn:E; [|by rewrite (lex_turn_none _ _ _ E Hw) in Ht].
  assert (neutral_head w = true) as Hh by (destruct Hw as [|c w Hc _]; [done|by apply blank_neutral]).
  destruct (lex_turn_app _ _ w _ _ E Hh) as [Hl'|(-> & -> & Hl')]; rewrite Hl' in Ht; injection Ht as <- <-.
  - eapply lexes_step; [exact E|]. apply IH; [|done]. apply lex_turn_suffix, suffix_length in E. cbn. lia.
  - apply lexes_blank in Hs as ->; [apply (lexes_step b rest [] None [] []); [done|constructor]|].
    destruct (skip_line_any w 0 0) as (_ & _ & _ & Hk). by eapply Forall_suffix.
Qed.

(** ** Up to a word *)
Lemma skip_closing_shorter q l p r p' : skip_closing q l p = Some (r, p') → (length r < length l)%nat.
Proof.
  revert p. induction l as [l IH] using (induction_ltof1 _ length); unfold ltof in IH. intros p.
  destruct l as [|b l]; cbn; [done|]. case_decide.
  - destruct l as [|c l]; cbn; [intros [= <- _]; cbn; lia|]. case_decide; [|intros [= <- _]; cbn; lia].
    intros Hk%(IH l ltac:(cbn; lia)). lia.
  - intros Hk%(IH l ltac:(cbn; lia)). lia.
Qed.
Lemma skip_closing_cut q a y p r p' :
  skip_closing q (a ++ y) p = Some (r ++ y, p') → head y ≠ Some q → skip_closing q a p = Some (r, p').
Proof.
  intros H Hy. revert p H. induction a as [a IH] using (induction_ltof1 _ length); unfold ltof in IH. intros p.
  destruct a as [|b a]; cbn [app].
  - intros H%skip_closing_shorter. rewrite length_app in H. lia.
  - cbn [skip_closing]. case_decide; [|apply (IH a); cbn; lia]. destruct a as [|c a]; cbn [app].
    + destruct y as [|c y]; [intros [= E <-]; symmetry in E; by apply app_nil in E as [-> _]|].
      rewrite decide_False by (intros ->; by apply Hy). intros [= E <-].
      assert (r = []) as -> by (apply (f_equal length) in E; rewrite length_app in E; cbn in E; destruct r; [done|cbn in E; lia]). done.
    + case_decide; [apply (IH a); cbn; lia|]. intros [= E <-]. apply (app_inv_tail y (c :: a) r) in E as <-. done.
Qed.
Lemma skip_block_shorter l n p r p' : skip_block_comment l p n = Ok (r, p') → (length r < length l)%nat.
Proof.
  revert n p. induction l as [l IH] using (induction_ltof1 _ length); unfold ltof in IH. intros n p.
  destruct l as [|b [|c l]]; [done..|]. cbn [skip_block_comment]. case_decide.
  - rewrite result_bind_ok. intros (m & _ & Hk%(IH l ltac:(cbn; lia))). cbn. lia.
  - case_decide; [case_decide; [intros [= <- _]; cbn; lia|intros Hk%(IH l ltac:(cbn; lia)); cbn; lia]|].
    intros Hk%(IH (c :: l) ltac:(cbn; lia)). cbn in *. lia.
Qed.
Lemma skip_block_cut a y n p r p' :
  skip_block_comment (a ++ y) p n = Ok (r ++ y, p') → head y ≠ Some "*"%byte → head y ≠ Some "/"%byte →
  skip_block_comment a p n = Ok (r, p').
Proof.
  intros H Hs Hd. revert n p H. induction a as [a IH] using (induction_ltof1 _ length); unfold ltof in IH. intros n p.
  destruct a as [|b [|c a]]; cbn [app].
  - intros H%skip_block_shorter. rewrite length_app in H. lia.
  - intros H. exfalso. destruct y as [|c y]; [done|]. cbn [skip_block_comment] in H.
    rewrite (decide_False (P := b = "/"%byte ∧ c = "*"%byte)) in H by (intros [_ ->]; by apply Hs).
    rewrite (decide_False (P := b = "*"%byte ∧ c = "/"%byte)) in H by (intros [_ ->]; by apply Hd).
    apply (skip_block_shorter (c :: y) n (S p)) in H. rewrite length_app in H. lia.
  - cbn [skip_block_comment]. case_decide.
    + rewrite result_bind_ok. intros (m & -> & Hk). rewrite ok_bind. by apply (IH a ltac:(cbn; lia)).
    + case_decide; [case_decide|].
      * intros [= E <-]. by apply (app_inv_tail y) in E as <-.
      * apply (IH a). cbn. lia.
      * exact (IH (c :: a) ltac:(cbn; lia) n (S p)).
Qed.
Lemma skip_line_cut a y p r :
  (skip_line_comment (a ++ y) p).1 = r ++ y → (skip_line_comment y p).1 ≠ y ∨ y = [] → (skip_line_comment a p).1 = r.
Proof.
  intros H Hy. destruct (skip_line_app a y p) as [(r1 & p' & -> & E)|[E1 E2]].
  - rewrite E in H. cbn in *. by apply app_inv_tail in H.
  - rewrite E2 in H. rewrite E1. destruct (skip_line_any y p p) as (_ & _ & _ & Hl). rewrite H in Hl.
    assert (r = []) as ->; [|done]. apply suffix_length in Hl. rewrite length_app in Hl. destruct r; [done|cbn in Hl; lia].
Qed.

(** The text goes on with a letter. *)
Definition letter_head (y : list byte) : Prop := ∃ c, head y = Some c ∧ is_ascii_alphabetic c = true.
Lemma letter_not c : is_ascii_alphabetic c = true → c ∉ ["'"%byte; x22; "]"%byte; "-"%byte; "*"%byte; "/"%byte].
Proof. intros H Hin. repeat (apply elem_of_cons in Hin as [->|Hin]; [done|]). by apply not_elem_of_nil in Hin. Qed.

Lemma lex_turn_cut b rest y r e :
  lex_turn b (rest ++ y) = Some (r ++ y, e) → letter_head y → lex_turn b rest = Some (r, e).
Proof.
  intros H (c & Hc & Hl).
  assert (∀ q, q ∈ ["'"%byte; x22; "]"%byte; "-"%byte; "*"%byte; "/"%byte] → head y ≠ Some q) as Hno.
  { intros q Hq Hh. rewrite Hc in Hh. injection Hh as ->. by apply (letter_not q). }
  assert (∀ q, q ∈ ["'"%byte; x22; "]"%byte; "-"%byte; "*"%byte; "/"%byte] →
    (λ r : list byte * nat, (r.1, @None effect)) <$> skip_closing q (rest ++ y) 0 = Some (r ++ y, e) →
    (λ r : list byte * nat, (r.1, @None effect)) <$> skip_closing q rest 0 = Some (r, e)) as Hclosing.
  { intros q Hq Hk. destruct (skip_closing q (rest ++ y) 0) as [[r1 k]|] eqn:E; [|done]. injection Hk as -> <-.
    by rewrite (skip_closing_cut _ _ _ _ _ _ E (Hno q Hq)). }
  revert H. unfold lex_turn. case_decide as Hquote; [apply Hclosing; destruct Hquote as [->| ->]; set_solver|].
  case_decide; [apply Hclosing; set_solver|]. case_decide as Hline.
  { destruct Hline as [-> Hh]. destruct rest as [|d rest]; [by apply (Hno "-"%byte) in Hh; [|set_solver]|].
    cbn [head app tail] in *. injection Hh as ->. rewrite decide_True by done. intros [= E <-]. do 2 f_equal.
    eapply skip_line_cut; [exact E|]. left. destruct y as [|d y]; [done|]. injection Hc as ->. cbn.
    rewrite decide_False by (intros [->| ->]; done). intros Eq. destruct (skip_line_any y 1 0) as (_ & _ & _ & Hs).
    rewrite Eq in Hs. apply suffix_length in Hs. cbn in Hs. lia. }
  rewrite (decide_False (P := b = "-"%byte ∧ head rest = Some "-"%byte)).
  2:{ intros [-> Hh]. destruct rest as [|d rest]; [done|]. by apply Hline. }
  case_decide as Hblock.
  { destruct Hblock as [-> Hh]. destruct rest as [|d rest]; [by apply (Hno "*"%byte) in Hh; [|set_solver]|].
    cbn [head app tail] in *. injection Hh as ->. rewrite decide_True by done.
    destruct (skip_block_comment (rest ++ y) 0 1) as [[r1 k]|] eqn:E; [|done]. intros [= -> <-].
    by rewrite (skip_block_cut _ _ _ _ _ _ E (Hno "*"%byte ltac:(set_solver)) (Hno "/"%byte ltac:(set_solver))). }
  rewrite (decide_False (P := b = "/"%byte ∧ head rest = Some "*"%byte)).
  2:{ intros [-> Hh]. destruct rest as [|d rest]; [done|]. by apply Hblock. }
  case_decide; [done|]. case_decide; [done|].
  case_decide; [intros [= E <-]; by apply app_inv_tail in E as <-|].
  case_decide; [intros [= E <-]; by apply app_inv_tail in E as <-|].
  destruct (is_identifier_start b).
  - destruct (span_identifier (rest ++ y)) as [word r1] eqn:Hs. pose proof Hs as (E & Hw & Hr)%span_any.
    destruct (from_utf8 (b :: word)) as [text|] eqn:Ht; [|done]. intros [= -> <-]. rewrite app_assoc in E.
    apply app_inv_tail in E as ->. rewrite (span_back word r), Ht; [done|done|].
    destruct r as [|d r]; [done|]. exact Hr.
  - intros [= E <-]. by apply app_inv_tail in E as <-.
Qed.

Lemma lexes_same y es : lexes y es y → es = [].
Proof.
  inversion 1 as [|b rest r e es' ? Ht Hs]; subst; [done|]. apply lexes_suffix, suffix_length in Hs.
  apply lex_turn_suffix, suffix_length in Ht. cbn in Hs. lia.
Qed.
Lemma lexes_inv b l es r' : lexes (b :: l) es r' →
  (es = [] ∧ r' = b :: l) ∨ ∃ r e es', es = option_list e ++ es' ∧ lex_turn b l = Some (r, e) ∧ lexes r es' r'.
Proof. inversion 1; subst; [by left|right; by do 3 eexists]. Qed.
Lemma lexes_cut a y es : lexes (a ++ y) es y → letter_head y → lexes a es [].
Proof.
  intros Hl Hy. revert es Hl. induction a as [a IH] using (induction_ltof1 _ length); unfold ltof in IH. intros es Hl.
  destruct a as [|b rest]; [apply lexes_same in Hl as ->; constructor|].
  apply lexes_inv in Hl as [[_ Eq]|(r & e & es' & -> & Ht & Hs)].
  { exfalso. apply (f_equal length) in Eq. cbn in Eq. rewrite length_app in Eq. lia. }
  pose proof (lexes_suffix _ _ _ Hs) as [r0 ->]. pose proof Ht as Hlen%lex_turn_suffix%suffix_length.
  rewrite !length_app in Hlen. apply lex_turn_cut in Ht; [|done]. eapply lexes_step; [exact Ht|]. apply IH; [cbn; lia|done].
Qed.

(** The state of the scanner when it meets a word. *)
Lemma token_reached s s' t pre post :
  rtc turn s s' → sc_tokens s' = pre ++ t :: post → (length (sc_tokens s) ≤ length pre)%nat →
  ∃ s1 b word r, rtc turn s s1 ∧ rtc turn s1 s' ∧ sc_tokens s1 = pre ∧ sc_position s1 = tk_start t ∧ sc_depth s1 = tk_depth t
    ∧ sc_rest s1 = b :: word ++ r ∧ from_utf8 (b :: word) = Some (tk_text t).
Proof.
  intros Hrtc. induction Hrtc as [s|s s1 s' Hturn Hrtc IH]; intros Htk Hlen.
  { rewrite Htk, length_app in Hlen. cbn in Hlen. lia. }
  destruct (decide (length (sc_tokens s1) ≤ length pre)%nat) as [Hle|Hgt].
  { destruct (IH Htk Hle) as (s2 & b & word & r & H1 & H2 & Hrest). exists s2, b, word, r. split; [by eapply rtc_l|done]. }
  pose proof Hturn as (b & rest & Hr & Ht). apply scan_turn_lexes in Ht as (r & e & new & Hl & He & Er & Et & _).
  apply turns_lexes in Hrtc as Htail. destruct Htail as (_ & new2 & _ & _ & Et2 & _). rewrite Et2, Et, <- app_assoc in Htk.
  rewrite Et, length_app in Hgt.
  destruct e as [[w| |]|]; cbn in He.
  2-3: destruct (_ (sc_depth s) 1); [|done]; injection He as _ <-; cbn in Hgt; lia.
  2: injection He as _ <-; cbn in Hgt; lia.
  injection He as _ <-. cbn in Hgt. apply app_inj_1 in Htk as [Epre Etail]; [|lia]. injection Etail as <- _.
  unfold lex_turn in Hl. repeat case_decide; try (by destruct (skip_closing _ _ _)); try (by destruct (skip_block_comment _ _ _)); try done.
  destruct (is_identifier_start b); [|done]. destruct (span_identifier rest) as [word r1] eqn:Hs.
  pose proof Hs as (-> & _)%span_any. destruct (from_utf8 (b :: word)) as [text|] eqn:Hu; [|done]. injection Hl as -> <-.
  exists s, b, word, r. split_and!; try done. by eapply rtc_l.
Qed.

(** A text is scanned by computation. *)
Fixpoint lex_all (fuel : nat) (l : list byte) : option (list effect) :=
  match l, fuel with
  | [], _ => Some []
  | _, O => None
  | b :: rest, S fuel => '(r, e) ← lex_turn b rest; es ← lex_all fuel r; Some (option_list e ++ es)
  end.
Lemma lex_all_lexes fuel l es : lex_all fuel l = Some es → lexes l es [].
Proof.
  revert l es. induction fuel as [|fuel IH]; intros l es; (destruct l as [|b rest]; [intros [= <-]; apply lexes_refl|]); [done|].
  cbn. destruct (lex_turn b rest) as [[r e]|] eqn:E; [|done]. cbn. destruct (lex_all fuel r) as [es1|] eqn:E1; [|done].
  intros [= <-]. eapply lexes_step; [exact E|]. by apply IH.
Qed.

(** ** Text *)
Lemma whitespace_blank c : is_whitespace c = true → Forall (λ b, blank b = true) (utf8_char c).
Proof.
  unfold is_whitespace. rewrite bool_decide_eq_true. intros Hc.
  assert (c ∈ [9; 10; 11; 12; 13; 32; 133; 160; 5760; 8192; 8193; 8194; 8195; 8196; 8197; 8198; 8199; 8200; 8201; 8202;
    8232; 8233; 8239; 8287; 12288]) as Hin by (rewrite !elem_of_cons; lia).
  repeat (apply elem_of_cons in Hin as [->|Hin]; [repeat constructor|]). by apply not_elem_of_nil in Hin.
Qed.
Lemma whitespace_bytes s : Forall (λ c, is_whitespace c = true) s → Forall (λ b, blank b = true) (utf8_bytes s).
Proof. induction 1 as [|c s Hc _ IH]; [constructor|]. apply Forall_app. split; [by apply whitespace_blank|done]. Qed.

Lemma str_len_app s t : str_len (s ++ t) = str_len s + str_len t.
Proof. unfold str_len. by rewrite utf8_bytes_app, lengthN_app. Qed.
Lemma trim_end_shorter s : str_len (trim_end s) ≤ str_len s.
Proof. destruct (trim_end_suffix s) as (k & E & _). rewrite E at 2. rewrite str_len_app. lia. Qed.
Lemma trim_shorter s : str_len (trim s) ≤ str_len s.
Proof.
  change (trim s) with (trim_end (trim_start s)). etrans; [apply trim_end_shorter|].
  destruct (trim_start_suffix s) as [k E]. rewrite E at 2. rewrite str_len_app. lia.
Qed.
Lemma strip_suffix_shorter c s t : strip_suffix_char c s = Some t → str_len t ≤ str_len s.
Proof.
  unfold strip_suffix_char. destruct (reverse s) as [|d rest] eqn:E; [done|]. case_decide; [|done]. intros [= <-].
  apply (f_equal reverse) in E. rewrite reverse_involutive, reverse_cons in E. rewrite E, str_len_app. lia.
Qed.

(** ** The checks speak of words only *)
Definition rejected (w : rust_string) : bool := existsb (eq_ignore_ascii_case w) REJECTED_TOKENS.
Definition reserved (w : rust_string) : bool := eq_ignore_ascii_case w RESERVED_CTE.
(** A word a base query may contain. *)
Definition allowed (w : rust_string * N) : Prop :=
  rejected w.1 = false ∧ reserved w.1 = false ∧ (w.2 = 0 → existsb (eq_ignore_ascii_case w.1) OUTER_WORDS = false).
Definition starts_with_word (word : string) (ws : list (rust_string * N)) : Prop :=
  ∃ w rest, ws = (w, 0) :: rest ∧ eq_ignore_ascii_case w (str word) = true.

Lemma existsb_false {A} (p : A → bool) l : existsb p l = false → Forall (λ x, p x = false) l.
Proof. induction l as [|x l IH]; cbn; [constructor|]. intros [? ?]%orb_false_iff. constructor; [done|by apply IH]. Qed.
Lemma allowed_tokens tokens :
  reject_unsafe_query tokens = Ok tt → existsb (is_word [RESERVED_CTE]) tokens = false →
  existsb (λ t, bool_decide (tk_depth t = 0) && is_word OUTER_WORDS t) tokens = false →
  Forall allowed (sig <$> tokens).
Proof.
  unfold reject_unsafe_query. case_decide as H1; [done|]. intros _ H2%existsb_false H3%existsb_false.
  apply not_true_is_false, existsb_false in H1. apply Forall_fmap, Forall_forall. intros t Ht. rewrite Forall_forall in *.
  unfold allowed. cbn. split_and!.
  - by apply H1.
  - specialize (H2 t Ht). unfold is_word in H2. cbn in H2. by apply orb_false_iff in H2 as [? _].
  - intros Hd. specialize (H3 t Ht). apply andb_false_iff in H3 as [H3|H3]; [|done].
    by apply bool_decide_eq_false in H3.
Qed.

(** A token that is SELECT begins with a letter. *)
Lemma select_letter t b word : from_utf8 (b :: word) = Some t → eq_ignore_ascii_case t (str "select") = true →
  is_ascii_alphabetic b = true.
Proof.
  intros [Hu Hwf]%from_utf8_some. unfold eq_ignore_ascii_case. rewrite bool_decide_eq_true. intros Heq.
  destruct t as [|c t]; [done|]. cbn in Heq. injection Heq as Hc _.
  assert (c = 115 ∨ c = 83) as [->| ->] by (case_decide; lia); cbn in Hu; by injection Hu as <- _.
Qed.

(** A WITH query falls into two texts that scan by themselves. *)
Lemma split_with_ok q tokens prefix main :
  scan_sql q = Ok tokens → split_with q tokens = Ok (Some prefix, main) →
  ∃ ptokens mtokens, scan_sql prefix = Ok ptokens ∧ scan_sql main = Ok mtokens
    ∧ sig <$> tokens = (sig <$> ptokens) ++ (sig <$> mtokens) ∧ starts_with_word "select" (sig <$> mtokens)
    ∧ str_len main ≤ str_len q.
Proof.
  intros Hscan. unfold split_with. rewrite result_bind_ok. intros (m & Hm%ok_or_ok & Hs). revert Hs.
  rewrite result_bind_ok. intros (before & Hb%ok_or_ok & Hs). revert Hs. case_decide; [done|].
  rewrite result_bind_ok. intros (after & Ha%ok_or_ok & [= <- <-]).
  destruct (list_find _ (tail tokens)) as [[i t]|] eqn:Hf; [|done]. injection Hm as ->.
  apply list_find_Some in Hf as (Hi & [Hd Hw] & _). destruct tokens as [|t0 tokens]; [done|]. cbn [tail] in Hi.
  apply list_elem_of_split_length in Hi as (pre & post & -> & _).
  apply scan_sql_ok in Hscan as (p & Hrtc).
  destruct (token_reached _ _ m (t0 :: pre) post Hrtc eq_refl ltac:(cbn; lia)) as (s1 & b & word & r & H1 & H2 & Et & Ep & Ed & Er & Eu).
  pose proof (select_letter _ _ _ Eu Hw) as Hletter.
  set (y := b :: word ++ r) in *. set (bytes := utf8_bytes q) in *.
  apply turns_lexes in H1 as (es1 & new1 & Hl1 & Hr1 & Et1 & Hp1). apply turns_lexes in H2 as (es2 & new2 & Hl2 & Hr2 & Et2 & Hp2).
  cbn in Hl1, Hr1, Et1, Hp1, Hl2, Hr2, Et2. rewrite Et in Et1, Et2. subst new1. rewrite Er in Hl1, Hp1, Hl2. rewrite Ed, Hd in Hr1, Hr2.
  assert (new2 = m :: post) as ->. { apply (app_inv_head (t0 :: pre)). by rewrite <- Et2. }
  pose proof (lexes_suffix _ _ _ Hl1) as [a Ha']. apply from_utf8_some in Hb as [Hb _], Ha as [Ha _].
  assert (tk_start m = length a) as Estart.
  { rewrite Ep in Hp1. apply (f_equal length) in Ha'. rewrite length_app in Ha'. lia. }
  fold bytes in Hb, Ha. rewrite Estart in Hb, Ha. rewrite Ha' in Hl1, Hb, Ha. rewrite length_app in Ha.
  rewrite slice_here in Hb by done.
  assert (utf8_bytes after = y) as Hafter.
  { rewrite Ha. unfold slice. rewrite drop_app_length. apply take_ge. lia. }
  apply lexes_cut in Hl1; [|by exists b]. destruct (trim_end_suffix before) as (w & Ew & Hw').
  rewrite Ew in Hb. rewrite utf8_bytes_app in Hb. rewrite <- Hb in Hl1. apply lexes_trim in Hl1; [|by apply whitespace_bytes].
  destruct (lexes_scan_sql _ _ _ Hl1 Hr1) as (ptokens & Hp & Eptok). rewrite <- Hafter in Hl2.
  destruct (lexes_scan_sql _ _ _ Hl2 Hr2) as (mtokens & Hmt & Emtok). exists ptokens, mtokens.
  split_and!; [done|done| | |].
  - rewrite Eptok, Emtok, <- fmap_app. done.
  - rewrite Emtok. cbn. unfold sig. rewrite Hd. by do 2 eexists.
  - unfold str_len. fold bytes. rewrite Hafter, Ha', lengthN_app. lia.
Qed.

(** ** The theorem *)
Definition before_base (ptokens : option (list Token)) : list (rust_string * N) :=
  match ptokens with
  | None => [(str "WITH", 0); (str "AS", 0)]
  | Some ptokens => (sig <$> ptokens) ++ [(str "AS", 0)]
  end.

(** The wrapping of a base query that scans: its effects inside one pair of parentheses. *)
Lemma wrap_lexes nq mtokens ptokens outer :
  scan_sql (main_select nq) = Ok mtokens → str_len (main_select nq) ≤ MAX_QUERY_BYTES →
  match cte_prefix nq, ptokens with
  | None, None => True
  | Some prefix, Some ptokens => scan_sql prefix = Ok ptokens
  | _, _ => False
  end →
  ∃ es, lexes (utf8_bytes (wrap nq outer)) es (utf8_bytes outer)
    ∧ run_effects 0 es = Some (0, before_base ptokens ++ (deepen 1 <$> (sig <$> mtokens))).
Proof.
  intros (esm & Hm & Hrm)%scan_sql_lexes Hlen Hp.
  assert (∀ tl, lexes (utf8_bytes (str ")" ++ newline) ++ tl) [Close] tl) as Hclose.
  { intros tl. apply (lexes_newline [")"%byte] [Close] tl). by apply (lex_all_lexes 1). }
  assert (∀ tl, lexes (utf8_bytes (main_select nq ++ newline) ++ tl) esm tl) as Hmain.
  { intros tl. rewrite utf8_bytes_app, <- app_assoc. by apply lexes_newline. }
  assert (run_effects 1 (esm ++ [Close]) = Some (0, deepen 1 <$> (sig <$> mtokens))) as Hrun.
  { assert (in_u64 (0 + 1 + lengthN esm)) as Hu.
    { apply lexes_length in Hm. unfold str_len, MAX_QUERY_BYTES, lengthN in Hlen. cbn in Hm. ulia. }
    rewrite run_effects_app. change 1 with (0 + 1) at 1. rewrite (run_effects_deepen 1 _ _ _ _ Hrm Hu).
    cbn [mbind option_bind run_effects]. change (checked_sub (0 + 1) 1) with (Some 0). cbn. by rewrite app_nil_r. }
  destruct (cte_prefix nq) as [prefix|] eqn:Ep, ptokens as [ptokens|]; try done.
  - apply scan_sql_lexes in Hp as (esp & Hpl & Hpr).
    exists (esp ++ [Word (str "AS"); Open] ++ esm ++ [Close]). unfold wrap. rewrite Ep. split.
    + rewrite 2!utf8_bytes_app. eapply lexes_app; [by apply lexes_newline|].
      replace (str ", [dbx_rs_base] AS (" ++ newline ++ main_select nq ++ newline ++ str ")" ++ newline ++ outer)
        with ((str ", [dbx_rs_base] AS (" ++ newline) ++ (main_select nq ++ newline) ++ (str ")" ++ newline) ++ outer)
        by (by rewrite <- !app_assoc).
      rewrite !(utf8_bytes_app _ (_ ++ _)). eapply lexes_app; [|eapply lexes_app; [apply Hmain|]].
      * rewrite utf8_bytes_app, <- app_assoc. apply lexes_newline. by apply (lex_all_lexes 30).
      * rewrite utf8_bytes_app. apply Hclose.
    + rewrite run_effects_app, Hpr. cbn [mbind option_bind]. rewrite run_effects_app.
      replace (run_effects 0 [Word (str "AS"); Open]) with (Some (1, [(str "AS", 0)])) by (by vm_compute).
      cbn [mbind option_bind]. rewrite Hrun. cbn [mbind option_bind before_base]. by rewrite <- app_assoc.
  - exists ([Word (str "WITH"); Word (str "AS"); Open] ++ esm ++ [Close]). unfold wrap. rewrite Ep. split.
    + replace (str "WITH [dbx_rs_base] AS (" ++ newline ++ main_select nq ++ newline ++ str ")" ++ newline ++ outer)
        with ((str "WITH [dbx_rs_base] AS (" ++ newline) ++ (main_select nq ++ newline) ++ (str ")" ++ newline) ++ outer)
        by (by rewrite <- !app_assoc).
      rewrite !(utf8_bytes_app _ (_ ++ _)). eapply lexes_app; [|eapply lexes_app; [apply Hmain|]].
      * rewrite utf8_bytes_app, <- app_assoc. apply lexes_newline. by apply (lex_all_lexes 30).
      * rewrite utf8_bytes_app. apply Hclose.
    + rewrite run_effects_app.
      replace (run_effects 0 [Word (str "WITH"); Word (str "AS"); Open]) with (Some (1, [(str "WITH", 0); (str "AS", 0)]))
        by (by vm_compute).
      cbn [mbind option_bind]. rewrite Hrun. done.
Qed.

Lemma normalize_query_ok query max_rows cursor nq :
  normalize_query query max_rows cursor = Ok nq →
  ∃ q tokens, scan_sql q = Ok tokens ∧ str_len q ≤ MAX_QUERY_BYTES ∧ Forall allowed (sig <$> tokens)
    ∧ bound_of cursor = Ok (cursor_bound nq)
    ∧ match cte_prefix nq with
      | None => main_select nq = q ∧ is_Some (head tokens) ∧ Forall (λ t, is_word [str "select"] t = true) (take 1 tokens)
      | Some prefix => split_with q tokens = Ok (Some prefix, main_select nq)
      end.
Proof.
  unfold normalize_query. case_decide; [done|]. case_decide as Hlen; [done|]. case_decide; [done|].
  set (q := match strip_suffix_char 59 (trim query) with Some query => trim_end query | None => trim query end).
  assert (str_len q ≤ MAX_QUERY_BYTES) as Hq.
  { subst q. pose proof (trim_shorter query). destruct (strip_suffix_char 59 (trim query)) as [s|] eqn:E.
    - apply strip_suffix_shorter in E. pose proof (trim_end_shorter s). lia.
    - lia. }
  case_decide; [done|]. rewrite result_bind_ok. intros (tokens & Hscan & Hn). revert Hn.
  rewrite result_bind_ok. intros ([] & Hsafe & Hn). revert Hn.
  rewrite result_bind_ok. intros (first & Hfirst%ok_or_ok & Hn). revert Hn. case_decide; [done|].
  case_decide as Hres; [done|]. case_decide as Hout; [done|]. apply not_true_is_false in Hres, Hout.
  rewrite result_bind_ok. intros ([prefix main] & Hsplit & Hn). revert Hn.
  rewrite result_bind_ok. intros (bound & Hbound & Hn). revert Hn. case_decide; [done|]. intros [= <-].
  exists q, tokens. cbn [cursor_bound cte_prefix main_select]. split_and!; [done|done|by apply allowed_tokens|done|].
  destruct (is_word [str "select"] first) eqn:Hs.
  - injection Hsplit as <- <-. split_and!; [done|by rewrite Hfirst|]. destruct tokens as [|t tokens]; [done|].
    injection Hfirst as ->. cbn. by repeat constructor.
  - destruct prefix as [prefix|]; [done|]. exfalso. revert Hsplit. unfold split_with.
    rewrite result_bind_ok. intros (m & _ & Hb). revert Hb. rewrite result_bind_ok. intros (b & _ & Hb). revert Hb.
    case_decide; [done|]. rewrite result_bind_ok. by intros (a & _ & [= ?]).
Qed.

(** The first word of a text, at whatever depth. *)
Definition first_word (word : string) (ws : list (rust_string * N)) : Prop :=
  ∃ w d rest, ws = (w, d) :: rest ∧ eq_ignore_ascii_case w (str word) = true.

(** C23: a base query cannot leave the parentheses it is wrapped in. Whatever outer query is
    put around an accepted one, the scanner comes to the outer query outside of all
    parentheses and of every quote, comment and name, having met the words of the base
    query one level deep, the first of them SELECT, and in front of them only the words of
    the host or the balanced common table expressions of the query itself. None of these
    words writes, executes, locks or names the reserved expression, and none at the top of
    the base query pages or orders. *)
Theorem base_query_is_confined query max_rows cursor nq :
  normalize_query query max_rows cursor = Ok nq →
  ∃ base ptokens, scan_sql (main_select nq) = Ok base
    ∧ match cte_prefix nq with
      | None => ptokens = None
      | Some prefix => ∃ tokens, ptokens = Some tokens ∧ scan_sql prefix = Ok tokens ∧ Forall allowed (sig <$> tokens)
      end
    ∧ Forall allowed (sig <$> base) ∧ first_word "select" (sig <$> base)
    ∧ ∀ outer, ∃ position tokens,
        rtc turn (mkScanner (utf8_bytes (wrap nq outer)) 0 0 []) (mkScanner (utf8_bytes outer) position 0 tokens)
        ∧ sig <$> tokens = before_base ptokens ++ (deepen 1 <$> (sig <$> base)).
Proof.
  intros (q & tokens & Hscan & Hlen & Hall & _ & Hsel)%normalize_query_ok.
  assert (∃ base ptokens, scan_sql (main_select nq) = Ok base ∧ str_len (main_select nq) ≤ MAX_QUERY_BYTES
    ∧ match cte_prefix nq with
      | None => ptokens = None
      | Some prefix => ∃ tokens, ptokens = Some tokens ∧ scan_sql prefix = Ok tokens ∧ Forall allowed (sig <$> tokens)
      end
    ∧ Forall allowed (sig <$> base) ∧ first_word "select" (sig <$> base)) as (base & ptokens & Hb & Hl & Hp & Ha & Hf).
  { destruct (cte_prefix nq) as [prefix|].
    - destruct (split_with_ok _ _ _ _ Hscan Hsel) as (pt & mt & Hp & Hm & E & (w & rest & Ew & Hw) & Hl).
      rewrite E in Hall. apply Forall_app in Hall as [Hall1 Hall2]. exists mt, (Some pt).
      split_and!; [done|lia|by exists pt|done|by exists w, 0, rest].
    - destruct Hsel as (-> & [t Ht] & Hw). exists tokens, None. split_and!; try done.
      destruct tokens as [|t0 tokens]; [done|]. injection Ht as ->. cbn in Hw. apply Forall_cons in Hw as [Hw _].
      exists (tk_text t), (tk_depth t), (sig <$> tokens). split; [done|]. unfold is_word in Hw. cbn [existsb] in Hw.
      by rewrite orb_false_r in Hw. }
  exists base, ptokens. split_and!; [done..|]. intros outer.
  destruct (wrap_lexes nq base ptokens outer Hb Hl) as (es & Hle & Hr).
  { destruct (cte_prefix nq) as [prefix|]; [destruct Hp as (pt & -> & ? & _)|subst ptokens]; done. }
  destruct (lexes_turns _ _ _ Hle 0 0 [] _ _ Hr) as (p & new & Hrtc & Hs). by exists p, new.
Qed.

Lemma base_query_is_confined_witness : ∃ nq,
  normalize_query (str "WITH s AS (SELECT ')' AS v) SELECT v FROM s -- all") 10 None = Ok nq
  ∧ ∃ base ptokens, scan_sql (main_select nq) = Ok base
    ∧ match cte_prefix nq with
      | None => ptokens = None
      | Some prefix => ∃ tokens, ptokens = Some tokens ∧ scan_sql prefix = Ok tokens ∧ Forall allowed (sig <$> tokens)
      end
    ∧ Forall allowed (sig <$> base) ∧ first_word "select" (sig <$> base)
    ∧ ∀ outer, ∃ position tokens,
        rtc turn (mkScanner (utf8_bytes (wrap nq outer)) 0 0 []) (mkScanner (utf8_bytes outer) position 0 tokens)
        ∧ sig <$> tokens = before_base ptokens ++ (deepen 1 <$> (sig <$> base)).
Proof.
  eexists. assert (normalize_query (str "WITH s AS (SELECT ')' AS v) SELECT v FROM s -- all") 10 None = Ok _) as H
    by (vm_compute; reflexivity).
  split; [exact H|]. exact (base_query_is_confined _ _ _ _ H).
Defined.

(** ** Quoted names *)
Lemma other_bytes c : is_scalar c → c ≠ 93 → "]"%byte ∉ utf8_char c.
Proof.
  intros [Hs _] Hc Hin. assert (∀ n, n < 256 → byte_of_N n = "]"%byte → n = 93) as Hb.
  { intros n Hn E. apply (byte_of_N_inj n 93); [done|lia|]. by rewrite E. }
  unfold utf8_char in Hin. pose proof (six_bits c) as (E0 & E1 & E2 & H0 & H1 & H2).
  revert E0 E1 E2 H0 H1 H2 Hin. generalize (c / 64) (c mod 64) (c / 64 mod 64) (c / 4096) (c / 4096 mod 64) (c / 262144).
  intros a1 a2 a3 a4 a5 a6 E0 E1 E2 H0 H1 H2 Hin.
  repeat case_decide; rewrite ?elem_of_cons, elem_of_nil in Hin; destruct_or?; try done;
    match goal with H : "]"%byte = byte_of_N _ |- _ => symmetry in H; apply Hb in H; lia end.
Qed.
Lemma skip_closing_other w l p : "]"%byte ∉ w → skip_closing "]"%byte (w ++ l) p = skip_closing "]"%byte l (p + length w).
Proof.
  revert p. induction w as [|b w IH]; intros p Hw; cbn [app length]; [f_equal; lia|]. cbn [skip_closing].
  rewrite decide_False by (intros ->; set_solver). rewrite IH by set_solver. f_equal. lia.
Qed.

(** a name that the connector quotes is one lexical form: from its opening bracket the
    scanner comes in one turn to what follows it, whatever the name contains, with nothing
    recorded and the depth unchanged. *)
Theorem quoted_name_is_inert name rest position depth tokens :
  wf_string name → head rest ≠ Some "]"%byte →
  ∃ position', turn (mkScanner (utf8_bytes (quote_identifier name) ++ rest) position depth tokens)
    (mkScanner rest position' depth tokens).
Proof.
  intros Hwf Hrest.
  set (body := utf8_bytes (name ≫= λ c, if decide (c = 93) then [93; c] else [c])).
  assert (∀ p, skip_closing "]"%byte (body ++ "]"%byte :: rest) p = Some (rest, (p + length body + 1)%nat)) as Hskip.
  { subst body. induction Hwf as [|c name Hc _ IH]; intros p.
    - cbn. rewrite decide_True by done. destruct rest as [|b rest]; [do 2 f_equal; lia|]. rewrite decide_False; [do 2 f_equal; lia|]. intros ->. by apply Hrest.
    - rewrite bind_cons, utf8_bytes_app, <- app_assoc, length_app. case_decide as E.
      + subst c. cbn -[utf8_bytes skip_closing mbind]. change (utf8_bytes [93; 93]) with ["]"%byte; "]"%byte].
        cbn [app skip_closing]. rewrite !decide_True by done. rewrite IH. do 2 f_equal. cbn [length]. lia.
      + change (utf8_bytes [c]) with (utf8_char c ++ []). rewrite app_nil_r, skip_closing_other by (by apply other_bytes).
        rewrite IH. do 2 f_equal. lia. }
  exists (S position + length body + 1)%nat. exists "["%byte, (body ++ "]"%byte :: rest). split.
  - cbn [sc_rest]. unfold quote_identifier. rewrite !utf8_bytes_app, <- app_assoc. fold body. rewrite <- app_assoc. done.
  - cbn [sc_position sc_depth sc_tokens]. unfold scan_turn. rewrite decide_False by (intros [?|?]; done).
    rewrite decide_True by done. unfold skip_bracket_identifier. by rewrite Hskip.
Qed.

Lemma quoted_name_is_inert_witness : wf_string (str "a]b'; DROP TABLE t --")
  ∧ ∃ position', turn (mkScanner (utf8_bytes (quote_identifier (str "a]b'; DROP TABLE t --")) ++ []) 0 0 [])
    (mkScanner [] position' 0 []).
Proof.
  assert (wf_string (str "a]b'; DROP TABLE t --")) as H
    by (refine (bool_decide_unpack (Forall is_scalar _) _); vm_compute; exact I).
  split; [exact H|]. apply (quoted_name_is_inert _ [] 0 0 []); [exact H|done].
Defined.
