(* ===== verification/MssqlConnector.v ===== *)
(** * The SQL Server connector: configuration and sessions (connectors/mssql/src/connector.rs)

    A connection is validated before anything is opened; a session is one connection to
    one of the addresses of the host, whose server has identified itself.  The driver, the
    resolver, the clock and the cancellation are schedules; TLS names and certificates are
    parameters. *)

From S2P Require Export MssqlSql Arrow Daemon.

Local Open Scope N_scope.
Local Open Scope dbx_scope.

Definition CONNECTOR_ID : rust_string := str "mssql".
Definition MAX_OPERATION_TIMEOUT : Duration := mkDuration 86400 0.
Definition MAX_TLS_CA_BYTES : N := 1024 * 1024.
Definition MAX_REQUEST_ID_BYTES : N := 256.
Definition MAX_SECRET_BYTES : N := 1024.
Definition MAX_HOST_BYTES : N := 253.
Definition MAX_TDS_TEXT_UNITS : N := 128.
Definition MAX_SERVER_TEXT_BYTES : N := 4096.
Definition MAX_WIRE_MESSAGE_BYTES : N := 2 * 1024 * 1024.

Definition ms_protocol_error (code : string) : ConnectorError := ConnectorError_new code Protocol false false.

(** ** Server names and certificates (rustls) *)
Class Rustls := {
  Certificate : Type;
  ServerName_try_from : rust_string → bool;
  pem_slice_iter : list byte → option (list Certificate);
}.

(** ** What the driver hands out (mssql_client) *)
Record Column := mkColumn {
  co_name : rust_string;
  co_type_name : string;
  co_nullable : bool;
  co_max_length : option N;
  co_precision : option N;
  co_scale : option N;
  co_collation : option (N * N);
}.
(** Access to a row; [None] of a getter is an error of the conversion. *)
Class MssqlRow `{Chrono} := {
  Row : Type;
  Uuid : Type;
  hyphenated : Uuid → rust_string;
  row_len : Row → nat;
  row_is_null : Row → nat → bool;
  get_bool : Row → nat → option bool;
  get_u8 : Row → nat → option Z;
  get_i16 : Row → nat → option Z;
  get_i32 : Row → nat → option Z;
  get_i64 : Row → nat → option Z;
  get_f32 : Row → nat → option N;
  get_f64 : Row → nat → option N;
  get_string : Row → nat → option rust_string;
  get_bytes : Row → nat → option (list byte);
  get_uuid : Row → nat → option Uuid;
  get_date : Row → nat → option NaiveDate;
  get_time : Row → nat → option NaiveTime;
  get_datetime : Row → nat → option NaiveDateTime;
}.
(** The errors the classification tells apart, with [is_transient] where it asks. *)
Inductive MssqlError :=
  | MsAuthentication
  | MsServer (number : Z) (transient : bool)
  | MsTls | MsTlsTimeout | MsConnectTimeout | MsLoginTimeout
  | MsIo | MsConnection | MsConnectionClosed
  | MsConfig (transient : bool)
  | MsProtocolError (transient : bool) | MsProtocol (transient : bool) | MsCodec (transient : bool)
  | MsRouting (transient : bool) | MsTooManyRedirects (transient : bool)
  | MsQuery (transient : bool) | MsCommandTimeout | MsCancelled | MsCancel | MsType (transient : bool)
  | MsResponseTooLarge (transient : bool)
  | MsOther (transient : bool).

(** ** Classification of errors *)
Definition authentication_error : ConnectorError := ConnectorError_new "DBX-RS-MS-AUTH-0002" Authentication false false.
Definition is_authentication_error (number : Z) : bool := bool_decide (number ∈ [4060; 18450; 18452; 18456]%Z).
Definition is_transient (e : MssqlError) : bool :=
  match e with
  | MsServer _ t | MsConfig t | MsProtocolError t | MsProtocol t | MsCodec t | MsRouting t | MsTooManyRedirects t
  | MsQuery t | MsType t | MsResponseTooLarge t | MsOther t => t
  | _ => false
  end.
Definition classify_connect_error (e : MssqlError) (tls_mode : TlsMode) : ConnectorError :=
  let other := ConnectorError_new "DBX-RS-MS-PROTOCOL-0002" Protocol (is_transient e) false in
  let negotiation := ConnectorError_new "DBX-RS-MS-PROTOCOL-0001" Protocol (is_transient e) false in
  match e with
  | MsAuthentication => authentication_error
  | MsServer number _ => if is_authentication_error number then authentication_error else negotiation
  | MsTls => ConnectorError_new "DBX-RS-MS-TLS-0001" Tls false false
  | MsTlsTimeout => ConnectorError_new "DBX-RS-MS-TLS-0002" Tls true false
  | MsConnectTimeout | MsLoginTimeout => ConnectorError_new "DBX-RS-MS-CONNECT-0001" Timeout true false
  | MsIo | MsConnection | MsConnectionClosed => ConnectorError_new "DBX-RS-MS-TCP-0001" Tcp true false
  | MsConfig _ => if decide (tls_mode = TlsDisable) then ConnectorError_new "DBX-RS-MS-TLS-0003" Tls false false else other
  | MsProtocolError _ | MsProtocol _ | MsCodec _ | MsRouting _ | MsTooManyRedirects _ => negotiation
  | _ => other
  end.
Definition classify_query_error (e : MssqlError) : ConnectorError :=
  let failed := ConnectorError_new "DBX-RS-MS-QUERY-0001" Query (is_transient e) false in
  match e with
  | MsServer number _ => if is_authentication_error number then authentication_error else failed
  | MsQuery _ => failed
  | MsCommandTimeout => ConnectorError_new "DBX-RS-MS-QUERY-0002" Timeout true false
  | MsCancelled | MsCancel => ConnectorError_cancelled "DBX-RS-MS-CANCELLED-0022"
  | MsTls | MsTlsTimeout => ConnectorError_new "DBX-RS-MS-TLS-0004" Tls true false
  | MsIo | MsConnection | MsConnectionClosed => ConnectorError_new "DBX-RS-MS-TCP-0002" Tcp true false
  | MsType _ => ConnectorError_new "DBX-RS-MS-CONVERT-0001" Conversion false false
  | MsResponseTooLarge _ => ConnectorError_new "DBX-RS-MS-LIMIT-0001" Query false false
  | MsProtocolError _ | MsProtocol _ | MsCodec _ => ConnectorError_new "DBX-RS-MS-PROTOCOL-0003" Protocol true false
  | _ => ConnectorError_new "DBX-RS-MS-QUERY-0003" Protocol (is_transient e) false
  end.

(** ** Validation of a connection *)
Definition validation_error (code field : string) : ValidationIssue := mkIssue code field SeverityError.
Definition valid_tds_text (value : rust_string) : bool :=
  bool_decide (trim value ≠ []) && bool_decide (utf16_count value ≤ MAX_TDS_TEXT_UNITS) && negb (existsb is_control value).
Definition valid_request_id (request_id : rust_string) : bool :=
  bool_decide (trim request_id ≠ []) && bool_decide (str_len request_id ≤ MAX_REQUEST_ID_BYTES)
  && negb (existsb is_control request_id).
Definition timeout_issue (timeout : Duration) (field zero_code maximum_code : string) : list ValidationIssue :=
  if is_zero timeout then [validation_error zero_code field]
  else if decide (duration_lt MAX_OPERATION_TIMEOUT timeout) then [validation_error maximum_code field]
  else [].
(** [issues.push] under a condition. *)
Definition issue_when (b : bool) (issue : ValidationIssue) : list ValidationIssue := if b then [issue] else [].

Section Connection.
Context `{Rustls}.

Definition valid_server_name (name : rust_string) : bool :=
  bool_decide (name ≠ []) && bool_decide (str_len name ≤ MAX_HOST_BYTES) && ServerName_try_from name.
Definition parse_ca_pem (pem : list byte) : result ConnectorError (list Certificate) :=
  certificates ← ok_or (configuration_error "DBX-RS-MS-CFG-0011") (pem_slice_iter pem);
  match certificates with
  | [] => mthrow (configuration_error "DBX-RS-MS-CFG-0011")
  | _ => mret certificates
  end.
Definition validate_tls (config : ConnectionConfig) : list ValidationIssue :=
  match cc_tls_mode config with
  | TlsDisable =>
      issue_when (bool_decide (is_Some (cc_tls_server_name config)) || bool_decide (is_Some (cc_tls_ca_pem config)))
        (validation_error "DBX-RS-MS-CFG-0009" "tls_mode")
  | TlsVerifyFull =>
      issue_when (negb (valid_server_name (default (cc_host config) (cc_tls_server_name config))))
        (validation_error "DBX-RS-MS-CFG-0010"
          (if decide (is_Some (cc_tls_server_name config)) then "tls_server_name" else "host"))
      ++ match cc_tls_ca_pem config with
         | Some pem =>
             if decide (MAX_TLS_CA_BYTES < lengthN pem) then [validation_error "DBX-RS-MS-CFG-0055" "tls_ca_pem"]
             else issue_when (negb (is_ok (parse_ca_pem pem))) (validation_error "DBX-RS-MS-CFG-0011" "tls_ca_pem")
         | None => []
         end
  | TlsRequire | TlsVerifyCa => [validation_error "DBX-RS-MS-CFG-0008" "tls_mode"]
  end.
Definition validate_connection (config : ConnectionConfig) : ValidationReport :=
  issue_when (bool_decide (cc_connector_id config ≠ CONNECTOR_ID)) (validation_error "DBX-RS-MS-CFG-0001" "connector_id")
  ++ (if decide (trim (cc_host config) = []) then [validation_error "DBX-RS-MS-CFG-0002" "host"]
      else issue_when (bool_decide (MAX_HOST_BYTES < str_len (cc_host config)) || negb (valid_server_name (cc_host config)))
        (validation_error "DBX-RS-MS-CFG-0044" "host"))
  ++ issue_when (bool_decide (cc_port config = 0)) (validation_error "DBX-RS-MS-CFG-0003" "port")
  ++ issue_when (negb (valid_tds_text (cc_database config))) (validation_error "DBX-RS-MS-CFG-0004" "database")
  ++ issue_when (negb (valid_tds_text (cc_username config))) (validation_error "DBX-RS-MS-CFG-0005" "username")
  ++ timeout_issue (cc_connect_timeout config) "connect_timeout" "DBX-RS-MS-CFG-0006" "DBX-RS-MS-CFG-0012"
  ++ timeout_issue (cc_probe_timeout config) "probe_timeout" "DBX-RS-MS-CFG-0007" "DBX-RS-MS-CFG-0013"
  ++ validate_tls config.

(** [secret] is what [expose_secret] shows. *)
Definition validate_operation (config : ConnectionConfig) (secret : list byte) : result ConnectorError () :=
  let report := validate_connection config in
  reject (ConnectorError_new (from_option vi_code "DBX-RS-MS-CFG-0099" (head report)) Configuration false true)
    when (is_valid report = false);;
  reject (configuration_error "DBX-RS-MS-AUTH-0001") when (secret = []);;
  reject (configuration_error "DBX-RS-MS-CFG-0052") when (MAX_SECRET_BYTES < lengthN secret);;
  password ← ok_or (configuration_error "DBX-RS-MS-CFG-0051") (from_utf8 secret);
  reject (configuration_error "DBX-RS-MS-CFG-0052") when (MAX_TDS_TEXT_UNITS < utf16_count password);;
  mret tt.

Definition validate (request : ValidationRequest) : ValidationReport :=
  validate_connection (vr_connection request) ++
  match vr_query request with
  | Some query =>
      match vr_max_rows request with
      | Some max_rows =>
          let cursor := (λ spec, mkRequest spec None None) <$> vr_cursor request in
          match normalize_query query max_rows cursor with
          | Err e => [mkIssue (ce_code e) "query" SeverityError]
          | Ok _ => []
          end
      | None => [validation_error "DBX-RS-MS-CFG-0029" "max_rows"]
      end
  | None => issue_when (bool_decide (is_Some (vr_cursor request))) (validation_error "DBX-RS-MS-CFG-0030" "cursor")
  end.

(** ** The settings of the driver *)
Record DriverTls := mkDriverTls { dt_server_name : rust_string; dt_root_certificates : option (list Certificate) }.
Record DriverConfig := mkDriverConfig {
  dc_endpoint : N;
  dc_database : rust_string;
  dc_username : rust_string;
  dc_password : rust_string;
  dc_connect_timeout : Duration;
  dc_command_timeout : Duration;
  dc_max_response_size : N;
  dc_encrypt : bool;
  dc_no_tls : bool;
  dc_trust_server_certificate : bool;
  dc_tls : option DriverTls;
}.
(** An address is a number here: its place in the order of the resolver's set. *)
Definition driver_config (connection : ConnectionConfig) (secret : list byte) (endpoint : N)
    (connect_timeout command_timeout : Duration) (max_response_bytes : N) : result ConnectorError DriverConfig :=
  password ← ok_or (configuration_error "DBX-RS-MS-CFG-0051") (from_utf8 secret);
  let config := mkDriverConfig endpoint (cc_database connection) (cc_username connection) password
    connect_timeout command_timeout max_response_bytes in
  match cc_tls_mode connection with
  | TlsDisable => mret (config false true false None)
  | TlsVerifyFull =>
      let server_name := default (cc_host connection) (cc_tls_server_name connection) in
      match cc_tls_ca_pem connection with
      | Some pem => roots ← parse_ca_pem pem; mret (config true false false (Some (mkDriverTls server_name (Some roots))))
      | None => mret (config true false false (Some (mkDriverTls server_name None)))
      end
  | TlsRequire | TlsVerifyCa => mthrow (configuration_error "DBX-RS-MS-CFG-0008")
  end.
End Connection.

(** ** The version a server reports *)
Definition parse_component (value : option rust_string) : result ConnectorError N :=
  ok_or (ms_protocol_error "DBX-RS-MS-PROTOCOL-0008") (value ← value; parse_uint u16_max value).
Definition parse_server_version (version : rust_string) : result ConnectorError (N * N * N) :=
  let components := split_on 46 version in
  major ← parse_component (components !! 0%nat);
  minor ← parse_component (components !! 1%nat);
  build ← parse_component (components !! 2%nat);
  _revision ← parse_component (components !! 3%nat);
  reject (ms_protocol_error "DBX-RS-MS-PROTOCOL-0008") when (is_Some (components !! 4%nat));;
  mret (major, minor, build).
Definition checked_u32 (n : N) : option N := if decide (n ≤ u32_max) then Some n else None.
Definition pack_server_version (version : N * N * N) : option N :=
  let '(major, minor, build) := version in
  a ← checked_u32 (major * 1000000);
  b ← checked_u32 (minor * 10000);
  c ← checked_u32 (a + b);
  checked_u32 (c + build).

(** ** A session

    The answers of the outside, one list per kind of question, and what was asked and sent:
    the connections attempted, the statements with their parameters, the batches. *)
Inductive lookup_outcome := LookupCancelled | LookupTimeout | LookupFailed | LookupAddresses (count : N).
Inductive connect_outcome := ConnectCancelled | ConnectElapsed | ConnectError (e : MssqlError) | Connected.

Section Session.
Context `{Rustls, MssqlRow}.

Inductive sql_param := P_timestamp (value : NaiveDateTime) | P_id (value : Z) | P_fetch_rows (value : Z) | P_text (value : rust_string).
(** A stream of rows: its columns, and what [try_next] answers. *)
Record row_stream := mkRowStream { rs_columns : list Column; rs_items : list (result MssqlError Row) }.

Record session := mkSession {
  ss_remaining : list Duration;
  ss_lookups : list lookup_outcome;
  ss_connects : list connect_outcome;
  ss_cancelled : list bool;
  ss_answers : list (result MssqlError row_stream);
  ss_receiving : list bool;
  ss_attempts : list DriverConfig;
  ss_asked : list (rust_string * list sql_param);
  ss_sent : list ArrowIpcBatch;
}.
Abbreviation mssql A := (st session ConnectorError A).

Definition ask_remaining : mssql Duration := λ s,
  let '(x, l) := next_of (mkDuration 0 0) (ss_remaining s) in
  (mkSession l (ss_lookups s) (ss_connects s) (ss_cancelled s) (ss_answers s) (ss_receiving s) (ss_attempts s) (ss_asked s) (ss_sent s), Ok x).
Definition ask_lookup : mssql lookup_outcome := λ s,
  let '(x, l) := next_of LookupFailed (ss_lookups s) in
  (mkSession (ss_remaining s) l (ss_connects s) (ss_cancelled s) (ss_answers s) (ss_receiving s) (ss_attempts s) (ss_asked s) (ss_sent s), Ok x).
Definition ask_cancelled : mssql bool := λ s,
  let '(x, l) := next_of false (ss_cancelled s) in
  (mkSession (ss_remaining s) (ss_lookups s) (ss_connects s) l (ss_answers s) (ss_receiving s) (ss_attempts s) (ss_asked s) (ss_sent s), Ok x).
(** [Client::connect]. *)
Definition client_connect (config : DriverConfig) : mssql connect_outcome := λ s,
  let '(x, l) := next_of (ConnectError MsConnection) (ss_connects s) in
  (mkSession (ss_remaining s) (ss_lookups s) l (ss_cancelled s) (ss_answers s) (ss_receiving s) (ss_attempts s ++ [config]) (ss_asked s) (ss_sent s), Ok x).
(** [client.query_stream], its error classified. *)
Definition query_stream (sql : rust_string) (params : list sql_param) : mssql row_stream := λ s,
  let '(x, l) := next_of (Err MsConnectionClosed) (ss_answers s) in
  (mkSession (ss_remaining s) (ss_lookups s) (ss_connects s) (ss_cancelled s) l (ss_receiving s) (ss_attempts s) (ss_asked s ++ [(sql, params)]) (ss_sent s),
   map_err classify_query_error x).
(** [batch_tx.send]: whether the receiver took it. *)
Definition send_ipc_batch (batch : ArrowIpcBatch) : mssql bool := λ s,
  let '(x, l) := next_of true (ss_receiving s) in
  (mkSession (ss_remaining s) (ss_lookups s) (ss_connects s) (ss_cancelled s) (ss_answers s) l (ss_attempts s) (ss_asked s)
     (if x then ss_sent s ++ [batch] else ss_sent s), Ok x).

(** [rows.try_next]. *)
Definition try_next (items : list (result MssqlError Row)) : result ConnectorError (option Row * list (result MssqlError Row)) :=
  match items with
  | [] => mret (None, [])
  | Ok row :: items => mret (Some row, items)
  | Err e :: _ => mthrow (classify_query_error e)
  end.

Definition resolve : mssql (list N) :=
  let timed_out := ConnectorError_new "DBX-RS-MS-DNS-0001" Timeout true false in
  remaining ← ask_remaining;
  reject timed_out when (is_zero remaining = true);;
  outcome ← ask_lookup;
  match outcome with
  | LookupCancelled => mthrow (ConnectorError_cancelled "DBX-RS-MS-CANCELLED-0001")
  | LookupTimeout => mthrow timed_out
  | LookupFailed => mthrow (ConnectorError_new "DBX-RS-MS-DNS-0002" Dns true false)
  | LookupAddresses count =>
      reject (ConnectorError_new "DBX-RS-MS-DNS-0003" Dns true false) when (count = 0);;
      mret (N.of_nat <$> seq 0 (N.to_nat count))
  end.

Definition strict_server_text (row : Row) (index : nat) : result ConnectorError rust_string :=
  let malformed := ms_protocol_error "DBX-RS-MS-PROTOCOL-0007" in
  reject malformed when (row_is_null row index = true);;
  value ← ok_or malformed (get_string row index);
  reject malformed when (value = [] ∨ MAX_SERVER_TEXT_BYTES < str_len value);;
  mret value.

Definition IDENTITY_QUERY : rust_string := str "SELECT CONVERT(nvarchar(128), SERVERPROPERTY(N'ProductVersion')) AS [product_version], CONVERT(nvarchar(128), SERVERPROPERTY(N'Edition')) AS [edition], CONVERT(int, SERVERPROPERTY(N'EngineEdition')) AS [engine_edition], CONVERT(nvarchar(128), DB_NAME()) AS [database_name]".
Definition check_identity (row : Row) (config : ConnectionConfig) : result ConnectorError (rust_string * (N * N * N)) :=
  version ← strict_server_text row 0;
  _edition ← strict_server_text row 1;
  let bad := ms_protocol_error "DBX-RS-MS-PROTOCOL-0006" in
  reject bad when (row_is_null row 2 = true);;
  engine_edition ← ok_or bad (get_i32 row 2);
  database ← strict_server_text row 3;
  reject (configuration_error "DBX-RS-MS-PRODUCT-0001") when (¬ (2 ≤ engine_edition ≤ 4)%Z);;
  reject (configuration_error "DBX-RS-MS-PRODUCT-0002") when (eq_ignore_ascii_case database (cc_database config) = false);;
  version_tuple ← parse_server_version version;
  mret (version, version_tuple).
Definition identify_server (config : ConnectionConfig) : mssql (rust_string * (N * N * N)) :=
  stop ← ask_cancelled;
  if stop : bool then mthrow (ConnectorError_cancelled "DBX-RS-MS-CANCELLED-0002") else
  stream ← query_stream IDENTITY_QUERY [];
  '(first, rest) ← st_lift (try_next (rs_items stream));
  row ← st_lift (ok_or (ms_protocol_error "DBX-RS-MS-PROTOCOL-0004") first);
  '(second, _) ← st_lift (try_next rest);
  reject (ms_protocol_error "DBX-RS-MS-PROTOCOL-0005") when (is_Some second);;
  st_lift (check_identity row config).

(** The loop over the addresses: the server's identity and the endpoint. *)
Fixpoint connect_loop (config : ConnectionConfig) (secret : list byte) (command_timeout : Duration) (max_response_bytes : N)
    (addresses : list N) (last_tcp_error : option ConnectorError) : mssql ((rust_string * (N * N * N)) * N) :=
  let failed := default (ConnectorError_new "DBX-RS-MS-CONNECT-0001" Timeout true false) last_tcp_error in
  match addresses with
  | [] => mthrow failed
  | endpoint :: addresses =>
      remaining ← ask_remaining;
      if is_zero remaining then mthrow failed else
      driver ← st_lift (driver_config config secret endpoint remaining command_timeout max_response_bytes);
      outcome ← client_connect driver;
      match outcome with
      | ConnectCancelled => mthrow (ConnectorError_cancelled "DBX-RS-MS-CANCELLED-0001")
      | ConnectElapsed => mthrow failed
      | Connected => server ← identify_server config; mret (server, endpoint)
      | ConnectError e =>
          let e := classify_connect_error e (cc_tls_mode config) in
          if decide (ce_class e = Tcp)
          then connect_loop config secret command_timeout max_response_bytes addresses (Some e)
          else mthrow e
      end
  end.
(** [representable]: whether the deadline is an instant. *)
Definition open_session (config : ConnectionConfig) (secret : list byte) (command_timeout : Duration) (max_response_bytes : N)
    (representable : bool) : mssql ((rust_string * (N * N * N)) * N) :=
  reject (configuration_error "DBX-RS-MS-CFG-0054") when (representable = false);;
  addresses ← resolve;
  connect_loop config secret command_timeout max_response_bytes addresses None.
End Session.
