(* ===== verification/MssqlTyped.v ===== *)
(** * Typed queries of the SQL Server connector (connectors/mssql/src/connector/typed.rs)

    A query is discovered (its columns, their plans and the projection that reads them),
    executed, and its rows are sent as Arrow batches within the limits of the request. *)

From S2P Require Export MssqlConnector Native.

Local Open Scope N_scope.
Local Open Scope dbx_scope.

Definition MAX_TYPED_BATCH_ROWS : N := 256.
Definition MAX_QUERY_COLUMNS : N := 256.
Definition MAX_FIELD_NAME_BYTES : N := 512.
Definition MAX_VALUE_BYTES : N := 1024 * 1024.
Definition TYPED_MAX_FIXED_BATCH_VALUE_BYTES : N := 256 * 1024.
Definition MAX_TYPED_BATCH_IPC_BYTES : N := 1024 * 1024.
Definition MAX_TYPED_TOTAL_IPC_BYTES : N := 2 * 1024 * 1024 * 1024.
Definition DESCRIBE_TEMPORAL_METADATA_SQL : rust_string :=
  str "SELECT [column_ordinal], [name], [scale] FROM sys.dm_exec_describe_first_result_set(@P1, NULL, 0) WHERE [is_hidden] = 0 ORDER BY [column_ordinal]".

(** ** Errors *)
Definition ms_configuration_error : string → ConnectorError := MssqlSql.configuration_error.
Definition ms_conversion_error (code : string) : ConnectorError := ConnectorError_new code Conversion false false.
Definition ms_operation_timeout (code : string) : ConnectorError := ConnectorError_new code Timeout true false.
Definition decimal_declaration_error : ConnectorError := ms_conversion_error "DBX-RS-MS-CONVERT-0034".
Definition temporal_declaration_error : ConnectorError := ms_conversion_error "DBX-RS-MS-CONVERT-0035".
Definition temporal_metadata_error : ConnectorError := ms_protocol_error "DBX-RS-MS-PROTOCOL-0024".
Definition unsupported_type_error : ConnectorError := ms_conversion_error "DBX-RS-MS-CONVERT-0020".
Definition value_conversion_error : ConnectorError := ms_conversion_error "DBX-RS-MS-CONVERT-0024".
Definition value_size_error : ConnectorError := ms_conversion_error "DBX-RS-MS-CONVERT-0026".

(** ** Data *)
Inductive ValueType :=
  | VT_Boolean | VT_Int16 | VT_Int32 | VT_Int64 | VT_Float32 | VT_Float64 | VT_Utf8 | VT_Binary | VT_Uuid
  | VT_Decimal128 (precision : N) (scale : Z)
  | VT_Date32 | VT_Time64Microsecond | VT_TimestampMicrosecond | VT_TimestampMicrosecondUtc.
Record ColumnPlan := mkPlan {
  cp_field : FieldDescriptor;
  cp_arrow_type : DataType;
  cp_value_type : ValueType;
  cp_projection : rust_string;
}.
Record CursorProjection := mkProjection { pj_timestamp_index : nat; pj_id_index : nat }.
Record DescribedColumn := mkDescribed { dc_ordinal : N; dc_name : rust_string; dc_scale : option N }.

(** ** Projections *)
Definition direct_projection (name : rust_string) : rust_string := qualified_identifier name ++ str " AS " ++ quote_identifier name.
Definition decimal_projection (name : rust_string) : rust_string :=
  str "CONVERT(nvarchar(50), " ++ qualified_identifier name ++ str ") AS " ++ quote_identifier name.
Definition money_projection (name : rust_string) : rust_string :=
  str "CONVERT(nvarchar(50), " ++ qualified_identifier name ++ str ", 2) AS " ++ quote_identifier name.
Definition legacy_datetime_projection (name : rust_string) : rust_string :=
  str "CONVERT(nvarchar(23), " ++ qualified_identifier name ++ str ", 121) AS " ++ quote_identifier name.
Definition datetimeoffset_projection (name : rust_string) : rust_string :=
  str "CONVERT(nvarchar(40), " ++ qualified_identifier name ++ str ", 127) AS " ++ quote_identifier name.
Definition text_projection (name : rust_string) : rust_string :=
  let column := qualified_identifier name in
  let converted := str "CONVERT(nvarchar(max), " ++ column ++ str ")" in
  str "CASE WHEN " ++ column ++ str " IS NULL OR DATALENGTH(" ++ converted ++ str ") <= " ++ to_string MAX_VALUE_BYTES
  ++ str " THEN " ++ converted ++ str " ELSE CONVERT(nvarchar(max), CONVERT(int, CONCAT(N'dbx_rs_value_', DATALENGTH("
  ++ converted ++ str ")))) END AS " ++ quote_identifier name.
Definition binary_projection (name : rust_string) : rust_string :=
  let column := qualified_identifier name in
  str "CASE WHEN " ++ column ++ str " IS NULL OR DATALENGTH(" ++ column ++ str ") <= " ++ to_string MAX_VALUE_BYTES
  ++ str " THEN CONVERT(varbinary(max), " ++ column ++ str ") ELSE CONVERT(varbinary(max), CONVERT(int, CONCAT(N'dbx_rs_value_', DATALENGTH("
  ++ column ++ str ")))) END AS " ++ quote_identifier name.

(** [[String]::join]. *)
Fixpoint join_with (separator : rust_string) (parts : list rust_string) : rust_string :=
  match parts with
  | [] => []
  | [part] => part
  | part :: parts => part ++ separator ++ join_with separator parts
  end.
Definition projection_sql (plans : list ColumnPlan) : rust_string := join_with (str ", ") (cp_projection <$> plans).

(** ** Plans of columns *)
Definition decimal_shape (column : Column) : result ConnectorError (N * Z) :=
  precision ← ok_or decimal_declaration_error (co_precision column);
  scale ← ok_or decimal_declaration_error (co_scale column);
  reject decimal_declaration_error when (precision = 0 ∨ 38 < precision ∨ precision < scale);;
  reject decimal_declaration_error when (127 < scale);;
  mret (precision, Z.of_N scale).
Definition temporal_scale (column : Column) : result ConnectorError N :=
  scale ← ok_or temporal_declaration_error (co_scale column);
  reject temporal_declaration_error when (6 < scale);;
  mret scale.
Definition legacy_datetime_source (column : Column) : result ConnectorError rust_string :=
  if decide (co_type_name column = "DateTime") then mret (str "DATETIME")
  else if decide (co_type_name column = "DateTime4") then mret (str "SMALLDATETIME")
  else if decide (co_type_name column = "DateTimeN") then
    match co_max_length column with
    | Some 4 => mret (str "SMALLDATETIME")
    | Some 8 => mret (str "DATETIME")
    | _ => mthrow unsupported_type_error
    end
  else mthrow unsupported_type_error.
Definition text_base (type_name : string) : option string :=
  if decide (type_name ∈ ["Char"; "BigChar"]%string) then Some "CHAR"
  else if decide (type_name ∈ ["VarChar"; "BigVarChar"]%string) then Some "VARCHAR"
  else if decide (type_name = "NChar") then Some "NCHAR"
  else if decide (type_name = "NVarChar") then Some "NVARCHAR"
  else if decide (type_name = "Text") then Some "TEXT"
  else if decide (type_name = "NText") then Some "NTEXT"
  else None.
Definition text_source_type (column : Column) : result ConnectorError rust_string :=
  base ← ok_or unsupported_type_error (text_base (co_type_name column));
  source ← (if decide (base ∈ ["TEXT"; "NTEXT"]%string) then mret (str base) else
    length ← ok_or unsupported_type_error (co_max_length column);
    length ← (if decide (length = u16_max) then mret (str "MAX")
      else if decide (base ∈ ["NCHAR"; "NVARCHAR"]%string) then
        reject unsupported_type_error when (length mod 2 ≠ 0);; mret (to_string (length / 2))
      else mret (to_string length) : result ConnectorError rust_string);
    mret (str base ++ str "(" ++ length ++ str ")"));
  mret (source ++ match co_collation column with
    | Some (lcid, sort_id) => str " COLLATION(" ++ to_string lcid ++ str "," ++ to_string sort_id ++ str ")"
    | None => []
    end).
Definition binary_source_type (column : Column) : rust_string :=
  if decide (co_type_name column = "Image") then str "IMAGE" else
  let base := if decide (co_type_name column ∈ ["VarBinary"; "BigVarBinary"]%string) then str "VARBINARY" else str "BINARY" in
  match co_max_length column with
  | None => base
  | Some length => base ++ str "(" ++ (if decide (length = u16_max) then str "MAX" else to_string length) ++ str ")"
  end.

(** Field type, Arrow type, value type, source type and projection. *)
Definition PlanTuple : Type := FieldType * DataType * ValueType * rust_string * rust_string.
Definition integer_n_plan (column : Column) (projection : rust_string) : result ConnectorError PlanTuple :=
  match co_max_length column with
  | Some 1 => mret (FT_Int16, DT_Int16, VT_Int16, str "TINYINT", projection)
  | Some 2 => mret (FT_Int16, DT_Int16, VT_Int16, str "SMALLINT", projection)
  | Some 4 => mret (FT_Int32, DT_Int32, VT_Int32, str "INT", projection)
  | Some 8 => mret (FT_Int64, DT_Int64, VT_Int64, str "BIGINT", projection)
  | _ => mthrow unsupported_type_error
  end.
Definition float_n_plan (column : Column) (projection : rust_string) : result ConnectorError PlanTuple :=
  match co_max_length column with
  | Some 4 => mret (FT_Float32, DT_Float32, VT_Float32, str "REAL", projection)
  | Some 8 => mret (FT_Float64, DT_Float64, VT_Float64, str "FLOAT(53)", projection)
  | _ => mthrow unsupported_type_error
  end.
Definition money_plan (name : rust_string) (precision : N) (source_type : string) : PlanTuple :=
  (FT_Decimal128 precision 4, DT_Decimal128 precision 4, VT_Decimal128 precision 4, str source_type, money_projection name).

(** The arms of the match on the type name, in their order. *)
Definition plan_tuple (column : Column) (cursor_timestamp : bool) : result ConnectorError PlanTuple :=
  let name := co_name column in
  let direct := direct_projection name in
  let named (names : list string) := bool_decide (co_type_name column ∈ names) in
  if named ["Bit"; "BitN"]%string then mret (FT_Boolean, DT_Boolean, VT_Boolean, str "BIT", direct)
  else if named ["Int1"]%string then mret (FT_Int16, DT_Int16, VT_Int16, str "TINYINT", direct)
  else if named ["Int2"]%string then mret (FT_Int16, DT_Int16, VT_Int16, str "SMALLINT", direct)
  else if named ["Int4"]%string then mret (FT_Int32, DT_Int32, VT_Int32, str "INT", direct)
  else if named ["Int8"]%string then mret (FT_Int64, DT_Int64, VT_Int64, str "BIGINT", direct)
  else if named ["IntN"]%string then integer_n_plan column direct
  else if named ["Float4"]%string then mret (FT_Float32, DT_Float32, VT_Float32, str "REAL", direct)
  else if named ["Float8"]%string then mret (FT_Float64, DT_Float64, VT_Float64, str "FLOAT(53)", direct)
  else if named ["FloatN"]%string then float_n_plan column direct
  else if named ["Decimal"; "DecimalN"; "Numeric"; "NumericN"]%string then
    '(precision, scale) ← decimal_shape column;
    mret (FT_Decimal128 precision scale, DT_Decimal128 precision scale, VT_Decimal128 precision scale,
      str "DECIMAL(" ++ to_string precision ++ str "," ++ to_string (Z.to_N scale) ++ str ")", decimal_projection name)
  else if named ["Money"]%string then mret (money_plan name 19 "MONEY")
  else if named ["Money4"]%string then mret (money_plan name 10 "SMALLMONEY")
  else if named ["MoneyN"]%string then
    match co_max_length column with
    | Some 4 => mret (money_plan name 10 "SMALLMONEY")
    | Some 8 => mret (money_plan name 19 "MONEY")
    | _ => mthrow unsupported_type_error
    end
  else if named ["Guid"]%string then mret (FT_Uuid, DT_Utf8, VT_Uuid, str "UNIQUEIDENTIFIER", direct)
  else if named ["Date"]%string then mret (FT_Date32, DT_Date32, VT_Date32, str "DATE", direct)
  else if named ["Time"]%string then
    scale ← temporal_scale column;
    mret (FT_Time64Microsecond, DT_Time64 Microsecond, VT_Time64Microsecond, str "TIME(" ++ to_string scale ++ str ")", direct)
  else if named ["DateTime2"]%string then
    scale ← temporal_scale column;
    let source := str "DATETIME2(" ++ to_string scale ++ str ")" in
    mret (if cursor_timestamp
      then (FT_TimestampMicrosecondUtc, DT_Timestamp Microsecond (Some (str "UTC")), VT_TimestampMicrosecondUtc,
            source ++ str " UTC-CURSOR", direct)
      else (FT_TimestampMicrosecond, DT_Timestamp Microsecond None, VT_TimestampMicrosecond, source, direct))
  else if named ["DateTimeOffset"]%string then
    scale ← ok_or temporal_declaration_error (co_scale column);
    reject temporal_declaration_error when (7 < scale);;
    mret (FT_Utf8, DT_Utf8, VT_Utf8, str "DATETIMEOFFSET(" ++ to_string scale ++ str ")", datetimeoffset_projection name)
  else if named ["DateTime"; "DateTime4"; "DateTimeN"]%string then
    source ← legacy_datetime_source column;
    mret (FT_Utf8, DT_Utf8, VT_Utf8, source, legacy_datetime_projection name)
  else if named ["Char"; "VarChar"; "BigChar"; "BigVarChar"; "Text"; "NChar"; "NVarChar"; "NText"]%string then
    source ← text_source_type column;
    mret (FT_Utf8, DT_Utf8, VT_Utf8, source, text_projection name)
  else if named ["Binary"; "VarBinary"; "BigBinary"; "BigVarBinary"; "Image"]%string then
    mret (FT_Binary, DT_Binary, VT_Binary, binary_source_type column, binary_projection name)
  else if named ["Xml"]%string then mret (FT_Utf8, DT_Utf8, VT_Utf8, str "XML", text_projection name)
  else mthrow unsupported_type_error.
Definition plan_column (column : Column) (cursor_timestamp : bool) : result ConnectorError ColumnPlan :=
  '(field_type, arrow_type, value_type, source_type, projection) ← plan_tuple column cursor_timestamp;
  mret (mkPlan (mkField (co_name column) field_type (co_nullable column) source_type) arrow_type value_type projection).

Definition valid_column_name (name : rust_string) : bool :=
  bool_decide (name ≠ []) && bool_decide (str_len name ≤ MAX_FIELD_NAME_BYTES) && bool_decide (utf16_count name ≤ 128)
  && negb (existsb is_control name).
(** The loop over the columns, with the names so far. *)
Fixpoint plan_loop (names : list rust_string) (columns : list Column) (cursor_spec : option TimestampIdCursorSpec)
    : result ConnectorError (list ColumnPlan) :=
  match columns with
  | [] => mret []
  | column :: columns =>
      let name := co_name column in
      reject (ms_conversion_error "DBX-RS-MS-SCHEMA-0002") when (valid_column_name name = false ∨ name ∈ names);;
      let cursor_timestamp := is_some_and (λ spec, bool_decide (timestamp_field spec = name)) cursor_spec in
      plan ← plan_column column cursor_timestamp;
      plans ← plan_loop (name :: names) columns cursor_spec;
      mret (plan :: plans)
  end.
Definition arrow_field (plan : ColumnPlan) : Field :=
  mkArrowField (fd_name (cp_field plan)) (cp_arrow_type plan) (fd_nullable (cp_field plan)).
Definition plan_columns (columns : list Column) (cursor_spec : option TimestampIdCursorSpec)
    : result ConnectorError (QuerySchema * Schema * list ColumnPlan) :=
  reject (ms_conversion_error "DBX-RS-MS-SCHEMA-0003") when (lengthN columns = 0);;
  reject (ms_conversion_error "DBX-RS-MS-SCHEMA-0008") when (MAX_QUERY_COLUMNS < lengthN columns);;
  plans ← plan_loop [] columns cursor_spec;
  mret ((cp_field <$> plans) : list FieldDescriptor, (arrow_field <$> plans) : list Field, plans).

(** ** Metadata *)
Definition is_temporal_column (column : Column) : bool :=
  bool_decide (co_type_name column ∈ ["Time"; "DateTime2"; "DateTimeOffset"]%string).
Definition with_scale (scale : N) (c : Column) : Column :=
  mkColumn (co_name c) (co_type_name c) (co_nullable c) (co_max_length c) (co_precision c) (Some scale) (co_collation c).
Fixpoint merge_loop (index : N) (columns : list Column) (described : list DescribedColumn) : result ConnectorError (list Column) :=
  match columns, described with
  | column :: columns, described :: rest =>
      reject temporal_metadata_error when (dc_ordinal described ≠ index + 1 ∨ dc_name described ≠ co_name column);;
      column ← (if is_temporal_column column
        then scale ← ok_or temporal_metadata_error (dc_scale described); mret (with_scale scale column)
        else mret column);
      columns ← merge_loop (index + 1) columns rest;
      mret (column :: columns)
  | columns, _ => mret columns
  end.
Definition merge_temporal_metadata (columns : list Column) (described : list DescribedColumn) : result ConnectorError (list Column) :=
  reject temporal_metadata_error when (length columns ≠ length described);;
  merge_loop 0 columns described.

Definition validate_projected_columns (columns : list Column) (plans : list ColumnPlan) : result ConnectorError () :=
  reject (ms_conversion_error "DBX-RS-MS-SCHEMA-0005")
    when (length columns ≠ length plans
      ∨ existsb (λ '(column, plan), bool_decide (co_name column ≠ fd_name (cp_field plan))) (zip columns plans) = true);;
  mret tt.

(** The places of the fields of a name. *)
Definition places (schema : QuerySchema) (name : rust_string) : list (nat * FieldDescriptor) :=
  filter (λ p, fd_name p.2 = name) (zip (seq 0 (length schema)) schema).
Definition validate_cursor_schema (schema : QuerySchema) (spec : TimestampIdCursorSpec) : result ConnectorError CursorProjection :=
  match places schema (timestamp_field spec), places schema (id_field spec) with
  | [(timestamp_index, timestamp)], [(id_index, id)] =>
      reject (ms_configuration_error "DBX-RS-MS-CFG-0056")
        when (fd_field_type timestamp ≠ FT_TimestampMicrosecondUtc ∨ fd_field_type id ≠ FT_Int64);;
      mret (mkProjection timestamp_index id_index)
  | _, _ => mthrow (ms_configuration_error "DBX-RS-MS-CFG-0056")
  end.

(** ** Limits *)
Definition typed_field_width (field_type : FieldType) : option N :=
  match field_type with
  | FT_Boolean | FT_Int8 => Some 1
  | FT_Int16 => Some 2
  | FT_Int32 | FT_UInt32 | FT_Float32 | FT_Date32 => Some 4
  | FT_Int64 | FT_Float64 | FT_Time64Microsecond | FT_TimestampMicrosecond | FT_TimestampMicrosecondUtc => Some 8
  | FT_Decimal128 _ _ => Some 16
  | FT_Utf8 | FT_Binary | FT_Uuid | FT_Json => None
  end.
Definition effective_batch_capacity (request : ExecuteRequest) (schema : QuerySchema) : N :=
  let fixed_row_bytes := try_fold (λ total field,
    (λ width, saturating_add total width) <$> typed_field_width (fd_field_type field)) 0 schema in
  let schema_cap := match fixed_row_bytes with
    | None => 1
    | Some row_bytes => clamp 1 MAX_TYPED_BATCH_ROWS (TYPED_MAX_FIXED_BATCH_VALUE_BYTES / N.max row_bytes 1)
    end in
  N.min (N.min (el_max_batch_rows (er_limits request)) (el_max_rows (er_limits request))) schema_cap.

Definition invalid_request_id (request_id : rust_string) : Prop :=
  trim request_id = [] ∨ MAX_REQUEST_ID_BYTES < str_len request_id ∨ existsb is_control request_id = true.
#[global] Instance invalid_request_id_dec r : Decision (invalid_request_id r).
Proof. unfold invalid_request_id. apply _. Defined.
Definition validate_prepare_request (request : PrepareRequest) : result ConnectorError () :=
  reject (ms_configuration_error "DBX-RS-MS-CFG-0058") when (invalid_request_id (pq_request_id request));;
  reject (ms_configuration_error "DBX-RS-MS-CFG-0059") when (is_zero (pq_timeout request) = true);;
  reject (ms_configuration_error "DBX-RS-MS-CFG-0045") when (duration_lt MAX_OPERATION_TIMEOUT (pq_timeout request));;
  mret tt.
Definition validate_execute_request (request : ExecuteRequest) : result ConnectorError () :=
  let limits := er_limits request in
  reject (ms_configuration_error "DBX-RS-MS-CFG-0060") when (invalid_request_id (er_request_id request));;
  reject (ms_configuration_error "DBX-RS-MS-CFG-0061") when (is_zero (el_timeout limits) = true);;
  reject (ms_configuration_error "DBX-RS-MS-CFG-0045") when (duration_lt MAX_OPERATION_TIMEOUT (el_timeout limits));;
  reject (ms_configuration_error "DBX-RS-MS-CFG-0024") when (el_max_batch_rows limits = 0);;
  reject (ms_configuration_error "DBX-RS-MS-CFG-0025") when (el_max_batch_bytes limits = 0);;
  reject (ms_configuration_error "DBX-RS-MS-CFG-0026") when (el_max_total_ipc_bytes limits = 0);;
  reject (ms_configuration_error "DBX-RS-MS-CFG-0062") when (MAX_TYPED_BATCH_ROWS < el_max_batch_rows limits);;
  reject (ms_configuration_error "DBX-RS-MS-CFG-0063") when (MAX_TYPED_BATCH_IPC_BYTES < el_max_batch_bytes limits);;
  reject (ms_configuration_error "DBX-RS-MS-CFG-0042") when (MAX_TYPED_TOTAL_IPC_BYTES < el_max_total_ipc_bytes limits);;
  reject (ms_configuration_error "DBX-RS-MS-CFG-0043") when (el_max_total_ipc_bytes limits < el_max_batch_bytes limits);;
  mret tt.

(** ** Decimals *)
Definition i32_max : Z := 2147483647.
Definition i128_max : N := 2 ^ 127 - 1.
(** [str::parse::<i128>] of a text that starts with a digit. *)
Definition parse_i128 (digits : rust_string) : option N := if decide (digits = []) then None else parse_digits i128_max 0 digits.
Definition is_digit (c : N) : bool := bool_decide (48 ≤ c ∧ c ≤ 57).
(** [str::split_once]. *)
Fixpoint split_once (c : N) (s : rust_string) : option (rust_string * rust_string) :=
  match s with
  | [] => None
  | x :: s => if decide (x = c) then Some ([], s) else '(a, b) ← split_once c s; Some (x :: a, b)
  end.
Definition split_fraction (unsigned : rust_string) (scale : N) : result ConnectorError (rust_string * rust_string) :=
  if decide (scale = 0) then
    reject value_conversion_error when (str_contains unsigned 46 = true);; mret (unsigned, [])
  else
    '(integer, fractional) ← ok_or value_conversion_error (split_once 46 unsigned);
    reject value_conversion_error when (str_contains fractional 46 = true ∨ str_len fractional ≠ scale);;
    mret (integer, fractional).
(** [checked_neg] of a value that is not negative never overflows. *)
Definition parse_decimal (value : rust_string) (precision : N) (scale : Z) : result ConnectorError Z :=
  reject value_conversion_error when (scale < 0)%Z;;
  let scale := Z.to_N scale in
  let '(negative, unsigned) := match value with 45 :: value => (true, value) | _ => (false, value) end in
  reject value_conversion_error when (unsigned = [] ∨ head unsigned = Some 43);;
  '(integer, fractional) ← split_fraction unsigned scale;
  reject value_conversion_error when (integer = [] ∨ (1 < str_len integer ∧ head integer = Some 48)
    ∨ forallb is_digit integer = false ∨ forallb is_digit fractional = false);;
  let integer_digits := if decide (integer = [48]) then 0 else str_len integer in
  let represented_digits := if decide (scale = 0 ∧ integer = [48]) then 1 else saturating_add integer_digits (str_len fractional) in
  reject value_conversion_error when (precision < represented_digits);;
  unscaled ← ok_or value_conversion_error (parse_i128 (integer ++ fractional));
  mret (if negative : bool then (- Z.of_N unscaled)%Z else Z.of_N unscaled).

(** ** Values of rows *)
Section Typed.
Context `{Rustls, MssqlRow, ArrowIpc}.
Abbreviation mssql A := (st session ConnectorError A).

Definition optional_value {T} (get : Row → nat → option T) (row : Row) (index : nat) (plan : ColumnPlan)
    : result ConnectorError (option T) :=
  reject value_conversion_error when (row_len row ≤ index)%nat;;
  if row_is_null row index then
    if fd_nullable (cp_field plan) then mret None else mthrow (ms_conversion_error "DBX-RS-MS-CONVERT-0037")
  else Some <$> ok_or value_conversion_error (get row index).
Definition required_value {T} (get : Row → nat → option T) (row : Row) (index : nat) : result ConnectorError T :=
  reject (ms_conversion_error "DBX-RS-MS-CONVERT-0038") when ((row_len row ≤ index)%nat ∨ row_is_null row index = true);;
  ok_or value_conversion_error (get row index).
Definition finite_value (get : Row → nat → option N) (is_finite : N → bool) (row : Row) (index : nat) (plan : ColumnPlan)
    : result ConnectorError (option N) :=
  value ← optional_value get row index plan;
  reject (ms_conversion_error "DBX-RS-MS-CONVERT-0025") when (is_some_and (λ v, negb (is_finite v)) value = true);;
  mret value.
Definition bounded_string (row : Row) (index : nat) (plan : ColumnPlan) : result ConnectorError (option rust_string) :=
  value ← optional_value get_string row index plan;
  reject value_size_error when (is_some_and (λ v, bool_decide (MAX_VALUE_BYTES < str_len v)) value = true);;
  mret value.
Definition bounded_binary (row : Row) (index : nat) (plan : ColumnPlan) : result ConnectorError (option (list byte)) :=
  value ← optional_value get_bytes row index plan;
  reject value_size_error when (is_some_and (λ v, bool_decide (MAX_VALUE_BYTES < lengthN v)) value = true);;
  mret value.

Definition exact_time_micros (value : NaiveTime) : result ConnectorError Z :=
  reject value_conversion_error when (time_nanosecond value mod 1000 ≠ 0);;
  mret (Z.of_N (num_seconds_from_midnight value) * 1000000 + Z.of_N (time_nanosecond value / 1000))%Z.
Definition exact_timestamp_micros (value : NaiveDateTime) : result ConnectorError Z :=
  reject value_conversion_error when (datetime_nanosecond value mod 1000 ≠ 0);;
  mret (timestamp_micros value).

(** [map(f).transpose()] on an optional value. *)
Definition transposed {A B} (f : A → result ConnectorError B) (o : option A) : result ConnectorError (option B) :=
  match o with Some a => Some <$> f a | None => mret None end.

(** [Decimal128Array::with_precision_and_scale]: the shapes Arrow accepts. *)
Context (decimal_shape_ok : N → Z → bool).

(** [rows.iter().map(f).collect()]. *)
Definition each {T} (rows : list Row) (f : Row → result ConnectorError (option T)) : result ConnectorError (list (option T)) := mapM f rows.
Definition plain {T} (rows : list Row) (index : nat) (plan : ColumnPlan) (get : Row → nat → option T) : result ConnectorError (list (option T)) :=
  each rows (λ row, optional_value get row index plan).
Definition exact_values {T} (rows : list Row) (index : nat) (plan : ColumnPlan) (get : Row → nat → option T)
    (f : T → result ConnectorError Z) : result ConnectorError (list (option Z)) :=
  each rows (λ row, optional_value get row index plan ≫= transposed f).

Definition decimal_array (rows : list Row) (index : nat) (plan : ColumnPlan) (precision : N) (scale : Z) : result ConnectorError Array :=
  values ← each rows (λ row, bounded_string row index plan ≫= transposed (λ value, parse_decimal value precision scale));
  reject (ms_conversion_error "DBX-RS-MS-CONVERT-0022") when (decimal_shape_ok precision scale = false);;
  mret (Decimal128Array precision scale values).
Definition column_array (rows : list Row) (index : nat) (plan : ColumnPlan) : result ConnectorError Array :=
  match cp_value_type plan with
  | VT_Boolean => BooleanArray <$> plain rows index plan get_bool
  | VT_Int16 => Int16Array <$> plain rows index plan (if decide (fd_source_type (cp_field plan) = str "TINYINT") then get_u8 else get_i16)
  | VT_Int32 => Int32Array <$> plain rows index plan get_i32
  | VT_Int64 => Int64Array <$> plain rows index plan get_i64
  | VT_Float32 => Float32Array <$> each rows (λ row, finite_value get_f32 f32_is_finite row index plan)
  | VT_Float64 => Float64Array <$> each rows (λ row, finite_value get_f64 f64_is_finite row index plan)
  | VT_Utf8 => StringArray <$> each rows (λ row, bounded_string row index plan)
  | VT_Binary => BinaryArray <$> each rows (λ row, bounded_binary row index plan)
  | VT_Uuid => StringArray <$> each rows (λ row, option_map hyphenated <$> optional_value get_uuid row index plan)
  | VT_Decimal128 precision scale =>
      decimal_array rows index plan precision scale
  | VT_Date32 => Date32Array <$> each rows (λ row, option_map (λ d, num_days_from_ce d - 719163)%Z <$> optional_value get_date row index plan)
  | VT_Time64Microsecond => Time64MicrosecondArray <$> exact_values rows index plan get_time exact_time_micros
  | VT_TimestampMicrosecond => TimestampMicrosecondArray None <$> exact_values rows index plan get_datetime exact_timestamp_micros
  | VT_TimestampMicrosecondUtc => TimestampMicrosecondArray (Some (str "UTC")) <$> exact_values rows index plan get_datetime exact_timestamp_micros
  end.

Fixpoint column_arrays (rows : list Row) (index : nat) (plans : list ColumnPlan) : result ConnectorError (list Array) :=
  match plans with
  | [] => mret []
  | plan :: plans =>
      a ← column_array rows index plan;
      arrays ← column_arrays rows (S index) plans;
      mret (a :: arrays)
  end.
Definition rows_to_batch (rows : list Row) (plans : list ColumnPlan) (schema : Schema) : result ConnectorError RecordBatch :=
  arrays ← column_arrays rows 0 plans;
  ok_or (ms_conversion_error "DBX-RS-MS-CONVERT-0021") (RecordBatch_try_new schema arrays).

(** ** Encoding

    [BoundedWriter]: the writer hands over one chunk after the other. *)
Fixpoint bounded_write (limit : N) (bytes : list byte) (chunks : list (list byte)) : option (list byte) :=
  match chunks with
  | [] => Some bytes
  | chunk :: chunks =>
      if decide (limit - lengthN bytes < lengthN chunk) then None else bounded_write limit (bytes ++ chunk) chunks
  end.
Definition encode_batch (batch : RecordBatch) (max_bytes : N) : result ConnectorError (list byte) :=
  ok_or (ConnectorError_new "DBX-RS-MS-LIMIT-0020" Query false false)
    (chunks ← StreamWriter_chunks batch; bounded_write max_bytes [] chunks).

Definition emit_batch (request : ExecuteRequest) (sequence : N) (query_schema : QuerySchema) (arrow_schema : Schema)
    (plans : list ColumnPlan) (rows : list Row) (total_ipc_bytes : N) : mssql N :=
  batch ← st_lift (rows_to_batch rows plans arrow_schema);
  ipc_bytes ← st_lift (encode_batch batch (el_max_batch_bytes (er_limits request)));
  let encoded_bytes := lengthN ipc_bytes in
  reject (ConnectorError_new "DBX-RS-MS-LIMIT-0021" Query false false)
    when (el_max_total_ipc_bytes (er_limits request) < saturating_add total_ipc_bytes encoded_bytes);;
  received ← send_ipc_batch (mkIpcBatch (er_request_id request) sequence (rb_num_rows batch) query_schema ipc_bytes);
  if negb received then mthrow (ConnectorError_new "DBX-RS-MS-OUTPUT-0020" Internal false false) else
  mret encoded_bytes.

(** ** Discovery *)
Fixpoint read_described (items : list (result MssqlError Row)) : result ConnectorError (list DescribedColumn) :=
  match items with
  | [] => mret []
  | Err e :: _ => mthrow (classify_query_error e)
  | Ok row :: items =>
      reject temporal_metadata_error when (row_is_null row 0 = true);;
      ordinal ← ok_or temporal_metadata_error (get_i32 row 0);
      reject temporal_metadata_error when (ordinal < 0)%Z;;
      reject temporal_metadata_error when (row_is_null row 1 = true);;
      name ← ok_or temporal_metadata_error (get_string row 1);
      scale ← (if row_is_null row 2 then mret None else Some <$> ok_or temporal_metadata_error (get_u8 row 2));
      rest ← read_described items;
      mret (mkDescribed (Z.to_N ordinal) name (Z.to_N <$> scale) :: rest)
  end.
Definition hydrate_temporal_metadata (metadata_sql : rust_string) (columns : list Column) : mssql (list Column) :=
  if negb (existsb is_temporal_column columns) then mret columns else
  rows ← query_stream DESCRIBE_TEMPORAL_METADATA_SQL [P_text metadata_sql];
  described ← st_lift (read_described (rs_items rows));
  st_lift (merge_temporal_metadata columns described).

Definition discover_query (query : NormalizedQuery) (cursor_spec : option TimestampIdCursorSpec)
    : mssql (QuerySchema * Schema * list ColumnPlan * option CursorProjection) :=
  let metadata_sql := metadata_sql query in
  metadata ← query_stream metadata_sql [];
  '(first, _) ← st_lift (try_next (rs_items metadata));
  reject (ms_protocol_error "DBX-RS-MS-PROTOCOL-0021") when (is_Some first);;
  source_columns ← hydrate_temporal_metadata metadata_sql (rs_columns metadata);
  '(query_schema, arrow_schema, plans) ← st_lift (plan_columns source_columns cursor_spec);
  cursor_projection ← st_lift (transposed (validate_cursor_schema query_schema) cursor_spec);
  projected ← query_stream (projected_metadata_sql query (projection_sql plans)) [];
  _ ← st_lift (validate_projected_columns (rs_columns projected) plans);
  '(row, _) ← st_lift (try_next (rs_items projected));
  reject (ms_protocol_error "DBX-RS-MS-PROTOCOL-0022") when (is_Some row);;
  mret (query_schema, arrow_schema, plans, cursor_projection).

(** ** Execution *)
Definition cursor_timestamp_parameter (epoch_micros : Z) : result ConnectorError NaiveDateTime :=
  timestamp ← ok_or (ms_configuration_error "DBX-RS-MS-CFG-0057") (from_timestamp_micros epoch_micros);
  reject (ms_configuration_error "DBX-RS-MS-CFG-0057") when (¬ (1 ≤ datetime_year timestamp ≤ 9999)%Z);;
  mret timestamp.
(** The parameters in the order of the statement: those of the bound, then the page size. *)
Definition query_parameters (bound : option TimestampIdCursorBound) (max_rows : N) : result ConnectorError (list sql_param) :=
  let invalid := ms_configuration_error "DBX-RS-MS-CFG-0014" in
  fetch_rows ← ok_or invalid (checked_add max_rows 1);
  reject invalid when (i32_max < Z.of_N fetch_rows)%Z;;
  match bound with
  | None => mret [P_fetch_rows (Z.of_N fetch_rows)]
  | Some bound =>
      timestamp ← cursor_timestamp_parameter (timestamp_epoch_micros (bound_value bound));
      mret [P_timestamp timestamp; P_id (cursor_id (bound_value bound)); P_fetch_rows (Z.of_N fetch_rows)]
  end.
Definition projected_cursor (row : Row) (projection : CursorProjection) : result ConnectorError TimestampIdCursor :=
  timestamp ← required_value get_datetime row (pj_timestamp_index projection);
  id ← required_value get_i64 row (pj_id_index projection);
  timestamp ← exact_timestamp_micros timestamp;
  mret (mkCursor timestamp id).
Definition observe_cursor_order (previous : option TimestampIdCursor) (current : TimestampIdCursor)
    : result ConnectorError (option TimestampIdCursor) :=
  reject (ms_conversion_error "DBX-RS-MS-CONVERT-0036")
    when (is_some_and (λ previous, bool_decide (position_cmp current previous ≠ Gt)) previous = true);;
  mret (Some current).

(** What the loop over the rows carries: [rd_pending] are the rows of the next batch. *)
Record reading := mkReading {
  rd_pending : list Row;
  rd_rows_read : N;
  rd_sequence : N;
  rd_ipc_bytes : N;
  rd_truncated : bool;
}.
Definition flush_pending (request : ExecuteRequest) (query_schema : QuerySchema) (arrow_schema : Schema) (plans : list ColumnPlan)
    (r : reading) : mssql reading :=
  emitted ← emit_batch request (rd_sequence r) query_schema arrow_schema plans (rd_pending r) (rd_ipc_bytes r);
  mret (mkReading [] (rd_rows_read r) (saturating_add (rd_sequence r) 1) (saturating_add (rd_ipc_bytes r) emitted) (rd_truncated r)).
Fixpoint read_rows (request : ExecuteRequest) (query_schema : QuerySchema) (arrow_schema : Schema) (plans : list ColumnPlan)
    (projection : option CursorProjection) (capacity : N) (items : list (result MssqlError Row))
    (previous : option TimestampIdCursor) (r : reading) : mssql reading :=
  match items with
  | [] => mret r
  | Err e :: _ => mthrow (classify_query_error e)
  | Ok row :: items =>
      previous ← st_lift (match projection with
        | Some projection => cursor ← projected_cursor row projection; observe_cursor_order previous cursor
        | None => mret previous
        end);
      if decide (rd_rows_read r = el_max_rows (er_limits request)) then
        '(more, _) ← st_lift (try_next items);
        reject (ms_protocol_error "DBX-RS-MS-PROTOCOL-0020") when (is_Some more);;
        mret (mkReading (rd_pending r) (rd_rows_read r) (rd_sequence r) (rd_ipc_bytes r) true)
      else
        let r := mkReading (rd_pending r ++ [row]) (saturating_add (rd_rows_read r) 1) (rd_sequence r) (rd_ipc_bytes r) (rd_truncated r) in
        r ← (if decide (lengthN (rd_pending r) = capacity)
          then flush_pending request query_schema arrow_schema plans r else mret r);
        read_rows request query_schema arrow_schema plans projection capacity items previous r
  end.

Definition execute_query (query : NormalizedQuery) (request : ExecuteRequest) : mssql ExecutionResult :=
  '(query_schema, arrow_schema, plans, cursor_projection) ← discover_query query (req_spec <$> er_cursor request);
  reject (ms_conversion_error "DBX-RS-MS-SCHEMA-0001")
    when (is_some_and (λ expected, bool_decide (expected ≠ query_schema)) (er_expected_schema request) = true);;
  let sql := execution_sql query (projection_sql plans) (er_cursor request) in
  parameters ← st_lift (query_parameters (cursor_bound query) (el_max_rows (er_limits request)));
  rows ← query_stream sql parameters;
  _ ← st_lift (validate_projected_columns (rs_columns rows) plans);
  let capacity := effective_batch_capacity request query_schema in
  r ← read_rows request query_schema arrow_schema plans cursor_projection capacity (rs_items rows) None (mkReading [] 0 0 0 false);
  r ← (match rd_pending r with
    | [] => mret r
    | _ => flush_pending request query_schema arrow_schema plans r
    end);
  mret (mkExecutionResult (er_request_id request) (rd_rows_read r) (rd_sequence r) (rd_ipc_bytes r) (rd_truncated r) query_schema).

(** ** The operations

    The three ways a select! ends; the operation that is left behind goes as far as its
    schedule lets it. *)
Definition selected {A} (first : first_event) (cancelled timed_out : ConnectorError) (operation : mssql A) : mssql A := λ s,
  match first with
  | OperationDone | NoDeadline => operation s
  | TokenCancelled => ((operation s).1, Err cancelled)
  | DeadlineElapsed => ((operation s).1, Err timed_out)
  end.
Definition prepare (request : PrepareRequest) (secret : list byte) (representable : bool) (first : first_event) : mssql PreparedQuery :=
  _ ← st_lift (validate_operation (pq_connection request) secret);
  _ ← st_lift (validate_prepare_request request);
  query ← st_lift (normalize_query (pq_query request) (pq_max_rows request) (pq_cursor request));
  _ ← open_session (pq_connection request) secret (pq_timeout request) MAX_WIRE_MESSAGE_BYTES representable;
  '(schema, _, _, _) ← selected first (ConnectorError_cancelled "DBX-RS-MS-CANCELLED-0020")
    (ms_operation_timeout "DBX-RS-MS-QUERY-0020") (discover_query query (req_spec <$> pq_cursor request));
  mret (mkPreparedQuery (pq_request_id request) CONNECTOR_ID schema).
Definition execute (request : ExecuteRequest) (secret : list byte) (representable : bool) (first : first_event) : mssql ExecutionResult :=
  _ ← st_lift (validate_operation (er_connection request) secret);
  _ ← st_lift (validate_execute_request request);
  query ← st_lift (normalize_query (er_query request) (el_max_rows (er_limits request)) (er_cursor request));
  _ ← open_session (er_connection request) secret (el_timeout (er_limits request)) MAX_WIRE_MESSAGE_BYTES representable;
  selected first (ConnectorError_cancelled "DBX-RS-MS-CANCELLED-0021") (ms_operation_timeout "DBX-RS-MS-QUERY-0021")
    (execute_query query request).

(** The connector as its callers see it: [prepare] and [execute] from their own sessions. *)
Definition mssql_connector (secret : list byte) (prepare_session execute_session : session)
    (representable : bool) (first : first_event) : Connector :=
  mkConnector
    (λ request, (prepare request secret representable first prepare_session).2)
    (λ request, let '(s, r) := execute request secret representable first execute_session in
      (drop (length (ss_sent execute_session)) (ss_sent s), r)).
End Typed.
