(* ===== verification/Decimals.v ===== *)
(** * Decimals between the connectors and the JSON rows

    The SQL Server connector parses the text of a decimal (MssqlTyped.v, [parse_decimal]);
    the registry prints the unscaled value again (Native.v, [format_decimal]). *)

From S2P Require Export MssqlTyped.

Local Open Scope N_scope.
Local Open Scope dbx_scope.

(** ** Digits *)
Definition all_digits (s : rust_string) : Prop := Forall (λ c, 48 ≤ c ∧ c ≤ 57) s.
Definition digits_value (s : rust_string) : N := foldl (λ acc c, acc * 10 + (c - 48)) 0 s.
(** No leading zero but in "0" itself. *)
Definition canonical (s : rust_string) : Prop := all_digits s ∧ s ≠ [] ∧ (head s = Some 48 → s = [48]).

Lemma forallb_digits s : forallb is_digit s = true ↔ all_digits s.
Proof.
  unfold all_digits. rewrite forallb_forall, Forall_forall. unfold is_digit.
  split; intros Hs c Hc; specialize (Hs c); rewrite <- list_elem_of_In in *.
  - by apply bool_decide_eq_true in Hs.
  - apply bool_decide_eq_true. by apply Hs.
Qed.
Lemma str_len_digits s : all_digits s → str_len s = lengthN s.
Proof.
  induction 1 as [|c s Hc Hs IH]; [done|]. unfold str_len in *. change (c :: s) with ([c] ++ s) at 1.
  rewrite utf8_bytes_app, lengthN_app, IH. rewrite (lengthN_cons c s).
  assert (utf8_bytes [c] = [byte_of_N c]) as ->.
  { unfold utf8_bytes. cbn. unfold utf8_char. by rewrite decide_True by lia. }
  change (lengthN [byte_of_N c]) with 1. lia.
Qed.
Lemma digits_value_snoc s c : digits_value (s ++ [c]) = digits_value s * 10 + (c - 48).
Proof. unfold digits_value. by rewrite foldl_app. Qed.
Lemma digits_value_zero s : digits_value (48 :: s) = digits_value s.
Proof. done. Qed.
Lemma foldl_digits_le acc s : acc ≤ foldl (λ acc c, acc * 10 + (c - 48)) acc s.
Proof. revert acc. induction s as [|c s IH]; intros acc; cbn; [lia|]. etrans; [|apply IH]. lia. Qed.
Lemma foldl_digits_split acc s :
  foldl (λ acc c, acc * 10 + (c - 48)) acc s = acc * 10 ^ lengthN s + digits_value s.
Proof.
  induction s as [|c s IH] using rev_ind; [change (acc = acc * 1 + 0); lia|]. rewrite foldl_app, digits_value_snoc. cbn. rewrite IH, lengthN_app.
  change (lengthN [c]) with 1. rewrite N.pow_add_r, N.pow_1_r. ring.
Qed.
Lemma digits_value_app s t : digits_value (s ++ t) = digits_value s * 10 ^ lengthN t + digits_value t.
Proof. unfold digits_value at 1. by rewrite foldl_app, foldl_digits_split. Qed.
Lemma digits_value_bound s : all_digits s → digits_value s < 10 ^ lengthN s.
Proof.
  induction s as [|c s IH] using rev_ind; [done|]. intros [Hs Hc]%Forall_app. rewrite Forall_singleton in Hc.
  rewrite digits_value_snoc, lengthN_app. change (lengthN [c]) with 1. rewrite N.pow_add_r, N.pow_1_r. specialize (IH Hs).
  cbn in Hc. lia.
Qed.
Lemma digits_value_lower s : all_digits s → s ≠ [] → head s ≠ Some 48 → 10 ^ (lengthN s - 1) ≤ digits_value s.
Proof.
  intros Hs Hne Hh. destruct s as [|c s]; [done|]. apply Forall_cons in Hs as [Hc Hs].
  change (c :: s) with ([c] ++ s). rewrite digits_value_app. change ([c] ++ s) with (c :: s). rewrite lengthN_cons.
  assert (c ≠ 48) by (intros ->; by apply Hh). cbn in Hc. cbn [digits_value foldl]. replace (lengthN s + 1 - 1) with (lengthN s) by lia.
  nia.
Qed.

Lemma parse_digits_some max acc s n :
  acc ≤ max →
  parse_digits max acc s = Some n ↔ all_digits s ∧ n = foldl (λ acc c, acc * 10 + (c - 48)) acc s ∧ n ≤ max.
Proof.
  revert acc. induction s as [|c s IH]; intros acc Ha; cbn [parse_digits foldl].
  - split; [intros [= ->]; by repeat constructor|]. by intros (_ & -> & _).
  - unfold digit_value. destruct (decide (48 ≤ c ∧ c ≤ 57)) as [Hc|Hc].
    + rewrite some_bind. case_decide as Hm.
      * rewrite IH by done. unfold all_digits. rewrite Forall_cons. tauto.
      * split; [done|]. intros (_ & -> & Hn). pose proof (foldl_digits_le (acc * 10 + (c - 48)) s). lia.
    + split; [done|]. intros (Hs & _). apply Forall_cons in Hs as [? _]. tauto.
Qed.

(** ** Printing *)
Lemma canonical_pos s : canonical s → s ≠ [48] → 0 < digits_value s.
Proof.
  intros (Hs & Hne & Hz) H0. pose proof (digits_value_lower s Hs Hne ltac:(intros E; auto)) as Hl.
  pose proof (N.pow_nonzero 10 (lengthN s - 1)). lia.
Qed.
Lemma digits_canonical_snoc s c : canonical (s ++ [c]) → s ≠ [] → canonical s ∧ s ≠ [48].
Proof.
  intros (Hs & _ & Hz) Hne. apply Forall_app in Hs as [Hs _]. destruct s as [|d s]; [done|]. cbn in Hz.
  assert (d ≠ 48). { intros ->. specialize (Hz eq_refl). injection Hz as Hz. by destruct s. }
  split; [|congruence]. split_and!; [done..|]. cbn. congruence.
Qed.
Lemma decimal_digits_step fuel n :
  decimal_digits (S fuel) n = if decide (n < 10) then [48 + n] else decimal_digits fuel (n / 10) ++ [48 + n mod 10].
Proof. done. Qed.
Lemma decimal_digits_spec fuel s :
  canonical s → digits_value s < 2 ^ N.of_nat (S fuel) → decimal_digits (S fuel) (digits_value s) = s.
Proof.
  revert s. induction fuel as [|fuel IH]; intros s Hcan Hf; pose proof Hcan as (Hs & Hne & _).
  all: destruct s as [|c s _] using rev_ind; [done|]; apply Forall_app in Hs as [_ Hc]; rewrite Forall_singleton in Hc.
  all: rewrite digits_value_snoc in *; rewrite decimal_digits_step.
  all: destruct (decide (s = [])) as [->|Hs]; [rewrite decide_True by (cbn; lia); cbn; f_equal; lia|].
  all: destruct (digits_canonical_snoc _ _ Hcan Hs) as [Hcs H0]; pose proof (canonical_pos s Hcs H0).
  - change (2 ^ N.of_nat 1) with 2 in Hf. lia.
  - rewrite decide_False by lia. set (v := digits_value s) in *.
    assert ((v * 10 + (c - 48)) / 10 = v) as -> by (symmetry; apply (N.div_unique _ _ _ (c - 48)); lia).
    assert ((v * 10 + (c - 48)) mod 10 = c - 48) as -> by (symmetry; apply (N.mod_unique _ _ v); lia).
    subst v. rewrite IH; [|done|].
    + f_equal. f_equal. lia.
    + rewrite Nat2N.inj_succ, N.pow_succ_r' in Hf. lia.
Qed.
Lemma to_string_digits s : canonical s → to_string (digits_value s) = s.
Proof.
  intros Hs. unfold to_string. apply decimal_digits_spec; [done|]. rewrite Nat2N.inj_succ, N2Nat.id.
  destruct (decide (digits_value s = 0)) as [->|Hn]; [cbn; lia|]. apply N.log2_spec. lia.
Qed.
(** Every number has its text. *)
Lemma canonical_exists n : ∃ s, canonical s ∧ digits_value s = n.
Proof.
  induction (N.lt_wf_0 n) as [n _ IH]. destruct (decide (n < 10)) as [Hn|Hn].
  - exists [48 + n]. split; [|cbn; lia]. split_and!; [repeat constructor; lia|done|]. cbn. intros [= E]. by rewrite E.
  - destruct (IH (n / 10)) as (s & Hs & Hv); [apply N.div_lt; lia|]. pose proof (N.mod_lt n 10 ltac:(lia)).
    pose proof (N.div_mod n 10 ltac:(lia)) as Hdm. exists (s ++ [48 + n mod 10]).
    rewrite digits_value_snoc, Hv. clear IH. generalize dependent (n / 10). generalize dependent (n mod 10). intros r Hr q Hv Hdm.
    split; [|lia]. destruct Hs as (Hd & Hne & Hz). split_and!.
    + apply Forall_app. split; [done|]. repeat constructor; lia.
    + by destruct s.
    + destruct s as [|c s]; [done|]. cbn. intros [= ->]. specialize (Hz eq_refl). injection Hz as ->. cbn in Hv. lia.
Qed.
Lemma to_string_spec n : canonical (to_string n) ∧ digits_value (to_string n) = n.
Proof. destruct (canonical_exists n) as (s & Hs & <-). by rewrite to_string_digits. Qed.
Lemma to_string_length n p : 0 < p → n < 10 ^ p → lengthN (to_string n) ≤ p.
Proof.
  intros Hp Hn. destruct (to_string_spec n) as [(Hd & Hne & Hz) Hv]. destruct (decide (head (to_string n) = Some 48)) as [E|E].
  - rewrite (Hz E). change (1 ≤ p). lia.
  - pose proof (digits_value_lower _ Hd Hne E) as Hl. rewrite Hv in Hl.
    destruct (decide (lengthN (to_string n) ≤ p)) as [|Hgt]; [done|]. exfalso.
    assert (10 ^ p ≤ 10 ^ (lengthN (to_string n) - 1)) by (apply N.pow_le_mono_r; lia). lia.
Qed.

(** ** Zeros in front *)
Lemma length_zeros n : lengthN (zeros n) = n.
Proof. unfold lengthN, zeros. rewrite length_replicate. lia. Qed.
Lemma zeros_succ n : zeros (n + 1) = 48 :: zeros n.
Proof. unfold zeros. by rewrite N.add_1_r, N2Nat.inj_succ. Qed.
Lemma zeros_digits n : all_digits (zeros n).
Proof. apply Forall_replicate. lia. Qed.
Lemma digits_value_zeros n s : digits_value (zeros n ++ s) = digits_value s.
Proof. unfold zeros. induction (N.to_nat n) as [|k IH]; [done|]. exact IH. Qed.
(** A fraction is its value behind zeros. *)
Lemma padded f :
  all_digits f → f ≠ [] →
  lengthN (to_string (digits_value f)) ≤ lengthN f
  ∧ zeros (lengthN f - lengthN (to_string (digits_value f))) ++ to_string (digits_value f) = f.
Proof.
  induction f as [|c f IH]; [done|]. intros Hf _. apply Forall_cons in Hf as Hf'. destruct Hf' as [Hc Hd].
  destruct (decide (c = 48 ∧ f ≠ [])) as [[-> Hne]|Hno].
  - rewrite digits_value_zero. destruct (IH Hd Hne) as [Hl Hz]. rewrite lengthN_cons. split; [lia|].
    replace (lengthN f + 1 - _) with (lengthN f - lengthN (to_string (digits_value f)) + 1) by lia.
    rewrite zeros_succ. cbn [app]. by rewrite Hz.
  - assert (canonical (c :: f)) as Hcan.
    { split_and!; [done..|]. cbn. intros [= ->]. destruct f; [done|]. exfalso. by apply Hno. }
    rewrite (to_string_digits _ Hcan). split; [done|]. by rewrite N.sub_diag.
Qed.

(** ** The text of a magnitude *)
Definition format_magnitude (n s : N) : rust_string :=
  let digits := to_string n in
  if decide (s = 0) then digits
  else if decide (lengthN digits ≤ s) then str "0." ++ zeros (s - lengthN digits) ++ digits
  else let split := N.to_nat (lengthN digits - s) in take split digits ++ str "." ++ drop split digits.
Lemma format_decimal_eq v s :
  format_decimal v (Z.of_N s) = if decide (v < 0)%Z then 45 :: format_magnitude (Z.abs_N v) s else format_magnitude (Z.abs_N v) s.
Proof.
  unfold format_decimal, format_magnitude. destruct (decide (s = 0)) as [->|Hs]; [done|].
  assert ((Z.of_N s ?= 0)%Z = Gt) as -> by (apply Z.compare_gt_iff; lia). by rewrite N2Z.id.
Qed.

(** [parse_decimal] behind the sign. *)
Definition parse_magnitude (unsigned : rust_string) (precision scale : N) : result ConnectorError N :=
  reject value_conversion_error when (unsigned = [] ∨ head unsigned = Some 43);;
  '(integer, fractional) ← split_fraction unsigned scale;
  reject value_conversion_error when (integer = [] ∨ (1 < str_len integer ∧ head integer = Some 48)
    ∨ forallb is_digit integer = false ∨ forallb is_digit fractional = false);;
  let integer_digits := if decide (integer = [48]) then 0 else str_len integer in
  let represented_digits := if decide (scale = 0 ∧ integer = [48]) then 1 else saturating_add integer_digits (str_len fractional) in
  reject value_conversion_error when (precision < represented_digits);;
  ok_or value_conversion_error (parse_i128 (integer ++ fractional)).

(** The parts of a text with a scale, and when they are a number of a precision. *)
Definition parts (u : rust_string) (s : N) (i f : rust_string) : Prop :=
  (s = 0 ∧ u = i ∧ f = []) ∨ (s ≠ 0 ∧ u = i ++ 46 :: f ∧ lengthN f = s).
Definition represented (s : N) (i : rust_string) : N := if decide (i = [48]) then N.max s 1 else lengthN i + s.

Lemma split_once_some c s a b : split_once c s = Some (a, b) ↔ s = a ++ c :: b ∧ c ∉ a.
Proof.
  revert a b. induction s as [|x s IH]; intros a b; cbn [split_once].
  - split; [done|]. intros [E _]. by destruct a.
  - case_decide as Hx.
    + subst x. split; [intros [= <- <-]; split; [done|apply not_elem_of_nil]|].
      intros [E Hc]. destruct a as [|y a]; [by injection E as ->|]. injection E as <- _. by destruct Hc; left.
    + destruct (split_once c s) as [[a' b']|] eqn:Es.
      * rewrite some_bind. destruct (IH a' b') as [H1 _]. specialize (H1 eq_refl) as [-> Ha]. split.
        -- intros [= <- <-]. split; [done|]. intros [->|Hin]%elem_of_cons; done.
        -- intros [E Hc]. destruct a as [|y a]; [by injection E as -> _|]. injection E as -> E.
           rewrite elem_of_cons in Hc. assert (Some (a', b') = Some (a, b)) as [= -> ->]; [|done].
           apply IH. split; [done|]. intros Hin. apply Hc. by right.
      * split; [done|]. intros [E Hc]. destruct a as [|y a]; [by injection E as -> _|]. injection E as -> E.
        assert (None = Some (a, b)); [|done]. apply IH. split; [done|]. intros Hin. apply Hc. by right.
Qed.
Lemma digits_no_dot s : all_digits s → 46 ∉ s.
Proof. intros Hs Hin. pose proof (proj1 (Forall_forall _ s) Hs _ Hin) as H. cbn in H. lia. Qed.
Lemma split_fraction_ok u s i f :
  all_digits i → all_digits f → split_fraction u s = Ok (i, f) ↔ parts u s i f.
Proof.
  intros Hi Hf. unfold split_fraction, parts, str_contains. case_decide as Hs.
  - case_decide as Hdot.
    + apply bool_decide_eq_true in Hdot. split; [done|]. intros [(_ & -> & _)|(? & _)]; [|done]. by destruct (digits_no_dot _ Hi).
    + split; [intros [= <- <-]; by left|]. by intros [(_ & -> & ->)|(? & _)].
  - split.
    + intros ([i' f'] & (-> & _)%ok_or_ok%split_once_some & Hr)%result_bind_ok. case_decide as Hbad; [done|]. injection Hr as -> ->.
      right. split_and!; [done..|]. rewrite <- (str_len_digits f Hf). destruct (decide (str_len f = s)) as [|Hn]; [done|]. destruct Hbad. by right.
    + intros [(? & _)|(_ & -> & Hl)]; [done|].
      assert (split_once 46 (i ++ 46 :: f) = Some (i, f)) as ->.
      { apply split_once_some. split; [done|]. by apply digits_no_dot. }
      cbn [ok_or]. rewrite ok_bind, decide_False; [done|]. rewrite str_len_digits, bool_decide_eq_true by done.
      intros [Hd|Hd]; [by apply (digits_no_dot f)|done].
Qed.

Lemma parts_length u s i f : parts u s i f → lengthN f = s.
Proof. by intros [(-> & _ & ->)|(_ & _ & ?)]. Qed.
Lemma digits_canonical_app i f : canonical i → all_digits f → i ≠ [48] → canonical (i ++ f).
Proof.
  intros (Hi & Hne & Hz) Hf H0. split_and!; [by apply Forall_app|by destruct i|].
  destruct i as [|c i]; [done|]. cbn. intros [= ->]. specialize (Hz eq_refl). done.
Qed.
Lemma parts_format u s i f :
  parts u s i f → canonical i → all_digits f → u = format_magnitude (digits_value (i ++ f)) s.
Proof.
  intros Hp Hi Hf. pose proof (parts_length _ _ _ _ Hp) as Hl. unfold format_magnitude.
  destruct Hp as [(-> & -> & ->)|(Hs & -> & _)].
  - rewrite decide_True by done. rewrite app_nil_r. by rewrite to_string_digits.
  - rewrite decide_False by done. destruct (decide (i = [48])) as [->|H0].
    + cbn [app]. rewrite digits_value_zero. assert (f ≠ []) as Hne by (intros ->; by apply Hs).
      destruct (padded f Hf Hne) as [Hle Hpad]. rewrite <- Hl in *. rewrite decide_True by done. rewrite Hpad. done.
    + rewrite (to_string_digits _ (digits_canonical_app _ _ Hi Hf H0)), lengthN_app, Hl.
      assert (0 < lengthN i) by (destruct Hi as (_ & Hne & _); destruct i; [done|rewrite lengthN_cons; lia]).
      rewrite decide_False by lia. replace (N.to_nat (lengthN i + s - s)) with (length i) by (unfold lengthN; lia).
      by rewrite take_app_length, drop_app_length.
Qed.
Lemma parts_bound p s i f :
  all_digits i → all_digits f → lengthN f = s → represented s i ≤ p → digits_value (i ++ f) < 10 ^ p.
Proof.
  intros Hi Hf Hl. unfold represented. case_decide as H0; intros Hr.
  - subst i. cbn [app]. rewrite digits_value_zero. eapply N.lt_le_trans; [by apply digits_value_bound|].
    apply N.pow_le_mono_r; lia.
  - eapply N.lt_le_trans; [apply digits_value_bound; by apply Forall_app|]. rewrite lengthN_app. apply N.pow_le_mono_r; lia.
Qed.
Lemma format_parts n s p :
  0 < p → s ≤ p → n < 10 ^ p →
  ∃ i f, parts (format_magnitude n s) s i f ∧ canonical i ∧ all_digits f ∧ n = digits_value (i ++ f) ∧ represented s i ≤ p.
Proof.
  intros Hp Hs Hn. pose proof (to_string_length n p Hp Hn) as Hl. destruct (to_string_spec n) as [Hc Hv].
  unfold format_magnitude, parts, represented. destruct (decide (s = 0)) as [->|H0].
  - exists (to_string n), []. rewrite app_nil_r. split_and!; [by left|done|constructor|done|]. case_decide; lia.
  - case_decide as Hlen.
    + exists [48], (zeros (s - lengthN (to_string n)) ++ to_string n). cbn [app]. rewrite digits_value_zero, digits_value_zeros.
      split_and!; [|by repeat constructor|apply Forall_app; split; [apply zeros_digits|apply Hc]|done|rewrite decide_True by done; lia].
      right. split_and!; [done..|]. rewrite lengthN_app, length_zeros. lia.
    + set (k := N.to_nat (lengthN (to_string n) - s)). destruct Hc as (Hd & Hne & Hz). pose proof Hd as Hd'.
      rewrite <- (take_drop k) in Hd'. apply Forall_app in Hd' as [Hd1 Hd2].
      assert (lengthN (drop k (to_string n)) = s) as Hf by (unfold lengthN in *; rewrite length_drop; lia).
      assert (lengthN (take k (to_string n)) = lengthN (to_string n) - s) as Hi by (unfold lengthN in *; rewrite length_take; lia).
      assert (head (take k (to_string n)) = head (to_string n)) as Hh.
      { destruct (to_string n); [done|]. subst k. unfold lengthN in *. by destruct (N.to_nat _) eqn:E; [lia|]. }
      assert (head (take k (to_string n)) ≠ Some 48) as H48.
      { rewrite Hh. intros E. rewrite (Hz E) in Hlen. apply Hlen. change (1 ≤ s). lia. }
      exists (take k (to_string n)), (drop k (to_string n)). rewrite take_drop. split_and!; try done.
      * right. done.
      * split; [done|]. split; [|done]. intros E. rewrite E in Hi. change (lengthN []) with 0 in Hi. lia.
      * case_decide as E; [by rewrite E in H48|lia].
Qed.

Lemma magnitude_exact u p s n :
  1 ≤ p → p ≤ 38 → s ≤ p → parse_magnitude u p s = Ok n ↔ n < 10 ^ p ∧ u = format_magnitude n s.
Proof.
  intros Hp1 Hp Hs. assert (10 ^ p ≤ 10 ^ 38) as H38 by (apply N.pow_le_mono_r; lia).
  assert (10 ^ 38 ≤ i128_max) as Hmax by (vm_compute; discriminate). split.
  - unfold parse_magnitude. case_decide; [done|]. intros ([i f] & Hsplit & Hr)%result_bind_ok. cbn beta iota in Hr.
    case_decide as Hbad; [done|]. cbn zeta in Hr. case_decide as Hlen; [done|]. apply ok_or_ok in Hr.
    assert (all_digits i ∧ all_digits f) as [Hi Hf].
    { rewrite <- !forallb_digits. split; apply not_false_iff_true; tauto. }
    apply split_fraction_ok in Hsplit; [|done..]. pose proof (parts_length _ _ _ _ Hsplit) as Hfl.
    rewrite !str_len_digits in * by done. unfold parse_i128 in Hr. case_decide as Hne; [done|].
    apply parse_digits_some in Hr as (_ & Hn & _); [|done]. change (n = digits_value (i ++ f)) in Hn. subst n.
    assert (canonical i) as Hc.
    { split_and!; [done|tauto|]. intros E. destruct i as [|c [|d i]]; [done|by injection E as ->|].
      exfalso. apply Hbad. right. left. split; [|done]. rewrite !lengthN_cons. lia. }
    assert (represented s i ≤ p) as Hrep.
    { revert Hlen. unfold represented, saturating_add. rewrite Hfl. repeat case_decide; try tauto; ulia. }
    split; [by apply (parts_bound p s)|by apply parts_format].
  - intros [Hn ->]. destruct (format_parts n s p ltac:(lia) Hs Hn) as (i & f & Hparts & Hc & Hf & Hv & Hrep).
    pose proof Hc as (Hi & Hne & Hz). pose proof (parts_length _ _ _ _ Hparts) as Hfl. set (u := format_magnitude n s) in *.
    assert (head u = head i ∧ u ≠ []) as [Hh Hu].
    { destruct i as [|c i]; [done|]. by destruct Hparts as [(_ & -> & _)|(_ & -> & _)]. }
    unfold parse_magnitude. rewrite decide_False.
    2:{ intros [?|E]; [done|]. rewrite Hh in E. destruct i as [|c i]; [done|]. injection E as ->. apply Forall_cons in Hi as [[? _] _]. lia. }
    rewrite (proj2 (split_fraction_ok u s i f Hi Hf) Hparts), ok_bind. cbn beta iota. rewrite !str_len_digits by done.
    rewrite decide_False.
    2:{ rewrite (proj2 (forallb_digits i) Hi), (proj2 (forallb_digits f) Hf). intros [?|[[H1 E]|[?|?]]]; try done.
        rewrite (Hz E) in H1. by apply N.lt_irrefl in H1. }
    cbn zeta. rewrite decide_False.
    2:{ revert Hrep. unfold represented, saturating_add. rewrite Hfl. repeat case_decide; try tauto; ulia. }
    unfold parse_i128. rewrite decide_False by (by destruct i). apply ok_or_ok, parse_digits_some; [done|].
    split_and!; [by apply Forall_app|exact Hv|lia].
Qed.

Definition signed (value : rust_string) : bool * rust_string :=
  match value with 45 :: value => (true, value) | _ => (false, value) end.
Lemma parse_decimal_eq value p s :
  parse_decimal value p (Z.of_N s)
  = (n ← parse_magnitude (signed value).2 p s; mret (if (signed value).1 then (- Z.of_N n)%Z else Z.of_N n)).
Proof.
  unfold parse_decimal. rewrite decide_False by lia. rewrite N2Z.id. fold (signed value).
  destruct (signed value) as [negative u]. unfold parse_magnitude. cbn [fst snd].
  case_decide; [done|]. destruct (split_fraction u s) as [[i f]|e]; [|done]. rewrite !ok_bind. cbn beta iota.
  case_decide; [done|]. cbn zeta. case_decide; done.
Qed.
Lemma magnitude_head n s : ∃ c u, format_magnitude n s = c :: u ∧ 48 ≤ c ≤ 57.
Proof.
  destruct (to_string_spec n) as [(Hd & Hne & _) _]. unfold format_magnitude. repeat case_decide.
  - destruct (to_string n) as [|c u]; [done|]. apply Forall_cons in Hd as [? _]. by exists c, u.
  - eexists 48, _. split; [reflexivity|lia].
  - destruct (to_string n) as [|c u]; [done|]. apply Forall_cons in Hd as [? _].
    destruct (N.to_nat _) as [|k] eqn:E; [lia|]. cbn. by eexists c, _.
Qed.
Lemma signed_magnitude n s : signed (format_magnitude n s) = (false, format_magnitude n s).
Proof.
  destruct (magnitude_head n s) as (c & u & -> & Hc). unfold signed.
  destruct (decide (c = 45)) as [->|]; [lia|]. repeat case_match; congruence.
Qed.
Lemma signed_spec text : text = (if (signed text).1 then 45 :: (signed text).2 else (signed text).2).
Proof. unfold signed. by repeat case_match. Qed.

(** the text of a decimal means exactly its unscaled value: for a column of precision
    [p] and scale [s], the connector accepts a text as [v] if and only if [v] has at most
    [p] digits and the text is the one the registry prints for [v] (zero may also carry a
    minus sign).  So what is parsed prints as it was read, what is printed parses to the
    same value, and no other spelling, precision or scale is taken. *)
Theorem decimal_text_exact text p s v :
  1 ≤ p → p ≤ 38 → s ≤ p →
  parse_decimal text p (Z.of_N s) = Ok v ↔
    Z.abs_N v < 10 ^ p
    ∧ (text = format_decimal v (Z.of_N s) ∨ v = 0%Z ∧ text = 45 :: format_decimal 0 (Z.of_N s)).
Proof.
  intros Hp1 Hp Hs. rewrite parse_decimal_eq, result_bind_ok, !format_decimal_eq.
  rewrite (decide_False (P := (0 < 0)%Z)) by lia. split.
  - intros (n & [Hn Hu]%magnitude_exact & [= <-]); [|done..]. pose proof (signed_spec text) as Ht. rewrite Hu in Ht.
    destruct (signed text).1.
    + assert (Z.abs_N (- Z.of_N n) = n) as -> by lia. split; [done|].
      destruct (decide (n = 0)) as [->|H0]; [by right|]. left. by rewrite decide_True by lia.
    + assert (Z.abs_N (Z.of_N n) = n) as -> by lia. split; [done|]. left. by rewrite decide_False by lia.
  - intros [Hn Hor]. exists (Z.abs_N v). rewrite magnitude_exact by done.
    assert (∃ negative, signed text = (negative, format_magnitude (Z.abs_N v) s) ∧ v = if negative : bool then (- Z.of_N (Z.abs_N v))%Z else Z.of_N (Z.abs_N v))
      as (negative & -> & Hv).
    { destruct Hor as [->|[-> ->]]; [|by exists true]. case_decide; [exists true; split; [done|lia]|].
      exists false. split; [apply signed_magnitude|lia]. }
    split; [done|]. cbn. by rewrite <- Hv.
Qed.

Lemma decimal_text_exact_witness :
  parse_decimal (str "-12.05") 4 2 = Ok (-1205)%Z ∧ str "-12.05" = format_decimal (-1205) 2.
Proof.
  assert (parse_decimal (str "-12.05") 4 2 = Ok (-1205)%Z) as H by (vm_compute; reflexivity). split; [exact H|].
  destruct (proj1 (decimal_text_exact (str "-12.05") 4 2 (-1205) ltac:(discriminate) ltac:(discriminate) ltac:(discriminate)) H)
    as [_ [E|[E _]]]; [exact E|discriminate E].
Defined.
