(* ===== verification/MssqlTypedProps.v ===== *)
(** * What an execution at SQL Server sends (MssqlTyped.v)

    The batches of a successful execution are its rows in order, cut at the capacity, and
    every one of them passes the checks of the registry (Native.v). *)

From S2P Require Export MssqlTyped NativeProps.
From stdpp Require Import sorting.

Local Open Scope N_scope.
Local Open Scope dbx_scope.

(** ** The columns of a plan agree with the registry *)
Definition agrees (r : result ConnectorError PlanTuple) : Prop :=
  match r with Ok (field_type, arrow_type, _, _, _) => arrow_type_matches field_type arrow_type = true | Err _ => True end.
Lemma agrees_bind {A} (r : result ConnectorError A) f : (∀ a, agrees (f a)) → agrees (r ≫= f).
Proof. destruct r; [|done]. intros Hf. apply Hf. Qed.
Lemma agrees_if (b : bool) r1 r2 : agrees r1 → agrees r2 → agrees (if b then r1 else r2).
Proof. by destruct b. Qed.
Lemma agrees_sumbool (P : Prop) (b : {P} + {¬ P}) r1 r2 : agrees r1 → agrees r2 → agrees (if b then r1 else r2).
Proof. by destruct b. Qed.
Lemma arrow_type_refl_decimal p s : arrow_type_matches (FT_Decimal128 p s) (DT_Decimal128 p s) = true.
Proof. by apply bool_decide_eq_true. Qed.
Lemma integer_n_agrees c p : agrees (integer_n_plan c p).
Proof. unfold integer_n_plan. repeat case_match; done || (vm_compute; reflexivity). Qed.
Lemma float_n_agrees c p : agrees (float_n_plan c p).
Proof. unfold float_n_plan. repeat case_match; done || (vm_compute; reflexivity). Qed.
Lemma money_agrees n p s : agrees (mret (money_plan n p s)).
Proof. apply arrow_type_refl_decimal. Qed.
Lemma plan_tuple_agrees column t : agrees (plan_tuple column t).
Proof.
  unfold plan_tuple. cbn zeta.
  repeat first [apply agrees_if|apply integer_n_agrees|apply float_n_agrees|apply money_agrees|apply agrees_sumbool
    |apply agrees_bind; intros|exact I|reflexivity|apply arrow_type_refl_decimal|case_match].
Qed.
Lemma plan_column_ok column t plan :
  plan_column column t = Ok plan →
  fd_name (cp_field plan) = co_name column ∧ arrow_type_matches (fd_field_type (cp_field plan)) (cp_arrow_type plan) = true.
Proof.
  unfold plan_column. pose proof (plan_tuple_agrees column t) as Ha.
  destruct (plan_tuple column t) as [[[[[ft at_] vt] src] pr]|e]; [|done]. by intros [= <-].
Qed.

Lemma plan_loop_ok names columns spec plans :
  plan_loop names columns spec = Ok plans →
  Forall2 (λ c p, fd_name (cp_field p) = co_name c ∧ arrow_type_matches (fd_field_type (cp_field p)) (cp_arrow_type p) = true) columns plans
  ∧ NoDup (co_name <$> columns) ∧ (∀ n, n ∈ names → n ∉ co_name <$> columns).
Proof.
  revert names plans. induction columns as [|c columns IH]; intros names plans; cbn [plan_loop].
  - intros [= <-]. split; [constructor|]. split; [constructor|]. intros n _. apply not_elem_of_nil.
  - cbn zeta. case_decide as Hbad; [done|]. intros (plan & Hp%plan_column_ok & Hr)%result_bind_ok.
    apply result_bind_ok in Hr as (rest & (Hf & Hnd & Hout)%IH & [= <-]). split; [by constructor|].
    cbn [fmap list_fmap]. split.
    + constructor; [|done]. apply Hout. by left.
    + intros n Hn [->|Hin]%elem_of_cons; [apply Hbad; by right|]. apply (Hout n); [by right|done].
Qed.

Lemma distinct_names_NoDup l : distinct_names l = true ↔ NoDup l.
Proof.
  induction l as [|n l IH]; [split; [constructor|done]|]. cbn. rewrite andb_true_iff, negb_true_iff, bool_decide_eq_false, IH.
  by rewrite NoDup_cons.
Qed.

(** A planned schema is accepted against itself. *)
Lemma plan_columns_ok columns spec schema arrow plans :
  plan_columns columns spec = Ok (schema, arrow, plans) →
  schema = cp_field <$> plans ∧ arrow = arrow_field <$> plans ∧ plans ≠ [] ∧ validate_arrow_schema schema arrow = Ok tt.
Proof.
  unfold plan_columns. case_decide as Hne; [done|]. case_decide; [done|]. intros (ps & (Hf & Hnd & _)%plan_loop_ok & [= <- <- <-])%result_bind_ok.
  assert (fd_name <$> (cp_field <$> ps) = co_name <$> columns) as Hnames.
  { rewrite <- list_fmap_compose. clear -Hf. induction Hf as [|c p cs ps [E _] _ IH]; [done|]. cbn. by rewrite E, IH. }
  split_and!; [done..| |].
  - intros ->. apply Forall2_nil_inv_r in Hf as ->. by apply Hne.
  - assert (af_name <$> (arrow_field <$> ps) = fd_name <$> (cp_field <$> ps)) as Han by (by rewrite <- !list_fmap_compose).
    unfold validate_arrow_schema, reject_duplicate_fields. rewrite Han, Hnames.
    rewrite (proj2 (distinct_names_NoDup _) Hnd). repeat (rewrite decide_False by done; rewrite ?ok_bind; unfold mret, result_ret; rewrite ?ok_bind).
    rewrite decide_False by (rewrite !length_fmap; auto). rewrite decide_False; [done|].
    intros (x & Hin & Hx)%existsb_exists. apply list_elem_of_In in Hin.
    assert (∃ p, p ∈ ps ∧ x = (cp_field p, arrow_field p)) as (p & Hp & ->).
    { clear -Hin. induction ps as [|p ps IH]; [by apply elem_of_nil in Hin|]. cbn in Hin.
      apply elem_of_cons in Hin as [->|Hin]; [exists p; split; [by left|done]|]. destruct (IH Hin) as (q & ? & ?). exists q. split; [by right|done]. }
    apply list_elem_of_lookup in Hp as [i Hi]. destruct (Forall2_lookup_r _ _ _ _ _ Hf Hi) as (c & _ & _ & Hm).
    cbn in Hx. rewrite Hm in Hx. cbn in Hx. rewrite !bool_decide_eq_false_2 in Hx by auto. done.
Qed.

(** ** Batches *)
Lemma mapM_ok_length {A B} (f : A → result ConnectorError B) l k : mapM f l = Ok k → length k = length l.
Proof.
  revert k. induction l as [|a l IH]; intros k; cbn; [by intros [= <-]|].
  intros (b & _ & Hr)%result_bind_ok. apply result_bind_ok in Hr as (bs & Hbs & [= <-]). cbn. f_equal. by apply IH.
Qed.
Lemma result_fmap_ok {E A B} (f : A → B) (r : result E A) b : f <$> r = Ok b ↔ ∃ a, r = Ok a ∧ b = f a.
Proof. destruct r; cbn; split; [intros [= <-]; eauto|intros (a' & [= <-] & ->); done|done|by intros (? & ? & _)]. Qed.

Section Emission.
Context `{Rustls, MssqlRow, ArrowIpc, !ArrowIpcLaws}.
Context (decimal_shape_ok : N → Z → bool).
Abbreviation mssql A := (st session ConnectorError A).

Lemma each_length {T} (rows : list Row) (f : Row → result ConnectorError (option T)) l : each rows f = Ok l → length (Arrow.valid l) = length rows.
Proof using Type. intros Hl%mapM_ok_length. by rewrite length_valid. Qed.
Lemma column_array_length rows i plan a : column_array decimal_shape_ok rows i plan = Ok a → length (validity a) = length rows.
Proof using Type.
  unfold column_array, plain, exact_values, decimal_array. destruct (cp_value_type plan).
  all: try (intros (l & Hl & ->)%result_fmap_ok; cbn; eapply each_length; exact Hl).
  intros (l & Hl & Hr)%result_bind_ok. case_decide; [done|]. injection Hr as <-. cbn. eapply each_length; exact Hl.
Qed.
Lemma rows_to_batch_ok rows plans schema b :
  rows_to_batch decimal_shape_ok rows plans schema = Ok b → batch_wf b ∧ rb_schema b = schema ∧ rb_num_rows b = lengthN rows.
Proof using Type.
  unfold rows_to_batch. intros (arrays & Ha & (Hwf & Hs & Hc & first & Hf & Hn)%ok_or_ok%RecordBatch_try_new_wf)%result_bind_ok.
  split_and!; [done..|]. rewrite Hn. destruct plans as [|p plans]; [injection Ha as <-; done|].
  cbn in Ha. apply result_bind_ok in Ha as (a & Ha & Hr). apply result_bind_ok in Hr as (as' & _ & [= <-]).
  injection Hf as ->. unfold lengthN. by rewrite (column_array_length _ _ _ _ Ha).
Qed.

Lemma bounded_write_ok limit bytes chunks out :
  lengthN bytes ≤ limit → bounded_write limit bytes chunks = Some out → out = bytes ++ concat chunks ∧ lengthN out ≤ limit.
Proof using Type.
  revert bytes. induction chunks as [|c chunks IH]; intros bytes Hl; cbn [bounded_write concat].
  - intros [= <-]. by rewrite app_nil_r.
  - case_decide as Hlt; [done|]. intros Hw. apply IH in Hw as [-> ?]; [|rewrite lengthN_app; lia]. split; [by rewrite <- app_assoc|done].
Qed.
Lemma encode_batch_ok schema b max bytes :
  batch_wf b → validate_arrow_schema schema (rb_schema b) = Ok tt → encode_batch b max = Ok bytes →
  decode_one_batch bytes schema = Ok b ∧ lengthN bytes ≤ max.
Proof using All.
  intros Hwf Hs Hen. unfold encode_batch in Hen. apply ok_or_ok, bind_Some in Hen as (chunks & Hc & Hw). apply bounded_write_ok in Hw as [-> Hl]; [|unfold lengthN; cbn; lia].
  split; [|done]. cbn [app]. destruct (stream_reads_back b chunks Hwf Hc) as [Hr [k Hk]].
  unfold decode_one_batch. cbn zeta. rewrite decide_False.
  2:{ rewrite Hk, reverse_app. intros Hst. rewrite (proj2 (starts_with_true _ _)) in Hst; [done|by eexists]. }
  rewrite Hr. cbn [ok_or]. rewrite ok_bind. cbn [stream_schema stream_items stream_position]. rewrite Hs, ok_bind.
  by rewrite decide_False by auto.
Qed.

Lemma saturating_add_below a b m : saturating_add a b ≤ m → m < u64_max → saturating_add a b = a + b.
Proof using Type. unfold saturating_add. generalize u64_max. intros; lia. Qed.
Lemma saturating_succ a m : a + 1 ≤ m → in_u64 m → saturating_add a 1 = a + 1.
Proof using Type. unfold saturating_add, in_u64. generalize u64_max. intros; lia. Qed.

(** ** The loop over the rows *)
Context (request : ExecuteRequest) (schema : QuerySchema) (arrow : Schema) (plans : list ColumnPlan).
Context (projection : option CursorProjection) (capacity : N) (base : list ArrowIpcBatch).
Hypothesis Hmax : in_u64 (el_max_rows (er_limits request)).
Hypothesis Htotal : el_max_total_ipc_bytes (er_limits request) < u64_max.
Hypothesis Hcapacity : 0 < capacity.

Definition emitted (e : ArrowIpcBatch) (chunk : list Row) : Prop :=
  ∃ b, rows_to_batch decimal_shape_ok chunk plans arrow = Ok b
    ∧ encode_batch b (el_max_batch_bytes (er_limits request)) = Ok (ib_ipc_bytes e)
    ∧ ib_request_id e = er_request_id request ∧ ib_row_count e = rb_num_rows b ∧ ib_schema e = schema.
Definition numbered (sent : list ArrowIpcBatch) : Prop := ∀ i e, sent !! i = Some e → ib_sequence e = N.of_nat i.
Definition ipc_total (sent : list ArrowIpcBatch) : N := sumN ((λ e, lengthN (ib_ipc_bytes e)) <$> sent).
(** The cursors the connector saw, strictly increasing. *)
Definition observed (rows : list Row) (cs : list TimestampIdCursor) : Prop :=
  match projection with
  | Some p => Forall2 (λ row c, projected_cursor row p = Ok c) rows cs ∧ StronglySorted cursor_lt cs
  | None => cs = []
  end.
Definition same_server (s s' : session) : Prop := ss_answers s' = ss_answers s ∧ ss_asked s' = ss_asked s.

(** Where the loop is, after [rows]. *)
Definition emitting (s : session) (rows : list Row) (chunks : list (list Row)) (sent : list ArrowIpcBatch) (r : reading) : Prop :=
  ss_sent s = base ++ sent ∧ Forall2 emitted sent chunks ∧ numbered sent
  ∧ concat chunks ++ rd_pending r = rows ∧ rd_rows_read r = lengthN rows ∧ lengthN rows ≤ el_max_rows (er_limits request)
  ∧ rd_sequence r = lengthN sent ∧ rd_ipc_bytes r = ipc_total sent ∧ ipc_total sent ≤ el_max_total_ipc_bytes (er_limits request)
  ∧ lengthN (rd_pending r) ≤ capacity ∧ Forall (λ chunk, chunk ≠ [] ∧ lengthN chunk ≤ capacity) chunks.

Lemma numbered_snoc sent e : numbered sent → ib_sequence e = lengthN sent → numbered (sent ++ [e]).
Proof using All.
  intros Hn He i x Hx. apply lookup_app_Some in Hx as [Hx|[Hi Hx]]; [by apply Hn|].
  apply list_lookup_singleton_Some in Hx as [Hi0 <-]. rewrite He. unfold lengthN. f_equal. lia.
Qed.
Lemma ipc_total_snoc sent e : ipc_total (sent ++ [e]) = ipc_total sent + lengthN (ib_ipc_bytes e).
Proof using All. unfold ipc_total. rewrite fmap_app, sumN_app. cbn. lia. Qed.
Lemma chunks_le (chunks : list (list Row)) :
  Forall (λ chunk, chunk ≠ [] ∧ lengthN chunk ≤ capacity) chunks → lengthN chunks ≤ lengthN (concat chunks).
Proof using All.
  induction 1 as [|c chunks [Hc _] _ IH]; [done|]. cbn [concat]. rewrite lengthN_cons, lengthN_app.
  destruct c; [done|]. rewrite lengthN_cons. lia.
Qed.

Lemma emit_batch_ok s s' sequence rows total n :
  emit_batch decimal_shape_ok request sequence schema arrow plans rows total s = (s', Ok n) →
  same_server s s' ∧ ∃ e, ss_sent s' = ss_sent s ++ [e] ∧ emitted e rows ∧ ib_sequence e = sequence
    ∧ n = lengthN (ib_ipc_bytes e) ∧ saturating_add total n ≤ el_max_total_ipc_bytes (er_limits request).
Proof using Type.
  unfold emit_batch. intros Hemit. apply st_bind_ok in Hemit as (b & s2 & [-> Hb]%st_lift_ok & Hemit).
  apply st_bind_ok in Hemit as (bytes & s3 & [-> Henc]%st_lift_ok & Hemit). cbn zeta in Hemit.
  case_decide as Hlimit; [done|]. apply st_bind_ok in Hemit as (received & s4 & Hsend & Hemit).
  unfold send_ipc_batch in Hsend. destruct (next_of true (ss_receiving s)) as [x l]. injection Hsend as <- <-.
  destruct x; [|done]. injection Hemit as <- <-. split; [done|]. eexists. split; [reflexivity|].
  split; [by exists b|]. split; [done|]. split; [done|]. by apply N.nlt_ge.
Qed.
Lemma flush_ok s s' rows chunks sent r r' :
  emitting s rows chunks sent r → rd_pending r ≠ [] →
  flush_pending decimal_shape_ok request schema arrow plans r s = (s', Ok r') →
  same_server s s' ∧ ∃ e, emitting s' rows (chunks ++ [rd_pending r]) (sent ++ [e]) r' ∧ rd_pending r' = [] ∧ rd_truncated r' = rd_truncated r.
Proof using All.
  intros (Hs & Hf & Hnum & Hrows & Hn & Hm & Hseq & Hipc & Htot & Hcap & Hch) Hne. unfold flush_pending.
  intros Hemit. apply st_bind_ok in Hemit as (n & s1 & Hemit & [= <- <-]).
  apply emit_batch_ok in Hemit as (Hsame & e & Hs1 & He & Hse & -> & Hlimit). split; [done|].
  assert (lengthN sent = lengthN chunks) as Hlen by (unfold lengthN; by rewrite (Forall2_length _ _ _ Hf)).
  assert (lengthN sent + 1 ≤ lengthN rows) as Hle.
  { rewrite Hlen, <- Hrows, lengthN_app. pose proof (chunks_le chunks Hch). destruct (rd_pending r); [done|]. rewrite lengthN_cons. lia. }
  assert (saturating_add (rd_ipc_bytes r) (lengthN (ib_ipc_bytes e)) = ipc_total (sent ++ [e])) as Eipc.
  { rewrite ipc_total_snoc, <- Hipc. by apply (saturating_add_below _ _ _ Hlimit). }
  assert (saturating_add (rd_sequence r) 1 = lengthN (sent ++ [e])) as Eseq.
  { rewrite Hseq, lengthN_app. apply (saturating_succ _ (el_max_rows (er_limits request))); [lia|done]. }
  rewrite Eipc in Hlimit |- *. rewrite Eseq. exists e. split; [|done]. split; [by rewrite Hs1, Hs, app_assoc|].
  split; [apply Forall2_app; [done|by constructor]|]. split; [apply numbered_snoc; [done|by rewrite Hse]|].
  split; [rewrite concat_app; cbn; by rewrite !app_nil_r|]. do 5 (split; [done|]).
  split; [apply N.le_0_l|]. apply Forall_app. split; [done|]. by constructor.
Qed.

Lemma projected_order previous row r :
  (match projection with
   | Some p => cursor ← projected_cursor row p; observe_cursor_order previous cursor
   | None => mret previous
   end : result ConnectorError (option TimestampIdCursor)) = Ok r →
  ∀ rows cs, observed rows cs → previous = last cs → ∃ cs', observed (rows ++ [row]) cs' ∧ r = last cs'.
Proof using All.
  unfold observed. destruct projection as [p|]; [|intros [= <-] rows cs -> ->; by exists []].
  intros (c & Hc & Ho)%result_bind_ok rows cs [Hf Hs] ->. unfold observe_cursor_order in Ho.
  case_decide as Hord; [done|]. injection Ho as <-. exists (cs ++ [c]). rewrite last_snoc. split; [|done]. split.
  - apply Forall2_app; [done|]. by constructor.
  - apply sorted_snoc; [done|]. destruct (last cs) as [q|]; [|done]. cbn in *. apply bool_decide_eq_true.
    apply not_true_is_false, bool_decide_eq_false in Hord. apply position_cmp_gt. by apply dec_stable.
Qed.

(** What the loop leaves behind: all rows of the stream in order, the first of them up to
    the limit cut into batches. *)
Definition finished (s : session) (all : list Row) (cs : list TimestampIdCursor) (chunks : list (list Row))
    (sent : list ArrowIpcBatch) (r : reading) : Prop :=
  let rows := take (N.to_nat (el_max_rows (er_limits request))) all in
  observed all cs ∧ lengthN all ≤ el_max_rows (er_limits request) + 1
  ∧ rd_truncated r = bool_decide (el_max_rows (er_limits request) < lengthN all)
  ∧ emitting s rows chunks sent r.

Lemma read_rows_ok items previous r s s' r' rows cs chunks sent :
  emitting s rows chunks sent r → rd_truncated r = false → lengthN (rd_pending r) < capacity →
  observed rows cs → previous = last cs →
  read_rows decimal_shape_ok request schema arrow plans projection capacity items previous r s = (s', Ok r') →
  same_server s s' ∧ ∃ new cs' chunks' sent', items = Ok <$> new ∧ finished s' (rows ++ new) cs' chunks' sent' r'.
Proof using All.
  revert previous r s rows cs chunks sent. induction items as [|[row|e] items IH]; intros previous r s rows cs chunks sent Hemit Htr Hpend Hobs Hprev; cbn [read_rows].
  - intros [= <- <-]. split; [done|]. exists [], cs, chunks, sent. rewrite app_nil_r. split; [done|].
    pose proof Hemit as (_ & _ & _ & _ & _ & Hm & _). unfold finished.
    rewrite take_ge by (unfold lengthN in Hm; lia). rewrite Htr. split_and!; [done|lia|symmetry; apply bool_decide_eq_false; lia|done].
  - intros (previous1 & s1 & [-> Hord]%st_lift_ok & Hrun)%st_bind_ok.
    destruct (projected_order _ _ _ Hord rows cs Hobs Hprev) as (cs1 & Hobs1 & Hprev1).
    pose proof Hemit as (Hs & Hf & Hnum & Hrows & Hn & Hm & Hseq & Hipc & Htot & Hcap & Hch).
    case_decide as Hfull.
    + apply st_bind_ok in Hrun as ([more rest] & s2 & [-> Hnext]%st_lift_ok & Hrun). cbn beta iota in Hrun.
      case_decide as Hmore; [done|]. injection Hrun as <- <-. split; [done|].
      assert (items = []) as ->.
      { destruct items as [|[?|?] ?]; [done| |done]. injection Hnext as <- _. destruct Hmore. by eexists. }
      exists [row], cs1, chunks, sent. split; [done|]. unfold finished. cbn.
      rewrite take_app_le by (unfold lengthN in *; lia). rewrite take_ge by (unfold lengthN in *; lia).
      rewrite lengthN_app. change (lengthN [row]) with 1.
      split_and!; [done|lia|symmetry; apply bool_decide_eq_true; lia|done].
    + set (r1 := mkReading _ _ _ _ _) in Hrun.
      assert (emitting s (rows ++ [row]) chunks sent r1) as Hemit1.
      { unfold emitting. subst r1. cbn. rewrite lengthN_app. change (lengthN [row]) with 1. split_and!; try done.
        - by rewrite <- Hrows, app_assoc.
        - rewrite Hn. apply (saturating_succ _ (el_max_rows (er_limits request))); [lia|done].
        - lia.
        - rewrite lengthN_app. change (lengthN [row]) with 1. lia. }
      apply st_bind_ok in Hrun as (r2 & s2 & Hflush & Hrun).
      assert (same_server s s2 ∧ ∃ chunks2 sent2, emitting s2 (rows ++ [row]) chunks2 sent2 r2 ∧ lengthN (rd_pending r2) < capacity
        ∧ rd_truncated r2 = false) as [[Ea Eq] (chunks2 & sent2 & Hemit2 & Hpend2 & Htr2)].
      { case_decide as Hc.
        - apply (flush_ok _ _ _ _ _ _ _ Hemit1) in Hflush as [? (e & He & Hp & Ht)]; [|subst r1; cbn; by destruct (rd_pending r)].
          split; [done|]. do 2 eexists. split; [exact He|]. rewrite Hp, Ht. by split.
        - injection Hflush as <- <-. split; [done|]. do 2 eexists. split; [exact Hemit1|].
          subst r1. cbn in *. rewrite lengthN_app in *. change (lengthN [row]) with 1 in *. split; [lia|done]. }
      destruct (IH _ _ _ _ _ _ _ Hemit2 Htr2 Hpend2 Hobs1 Hprev1 Hrun) as [[Ea' Eq'] (new & cs' & chunks' & sent' & -> & Hfin)].
      split; [split; congruence|]. exists (row :: new), cs', chunks', sent'. split; [done|]. by rewrite <- app_assoc in Hfin.
  - done.
Qed.
End Emission.

(** ** What a computation leaves of a session

    Any preorder between the sessions before and after. *)
Section Keeps.
Context `{Rustls, MssqlRow} (R : session → session → Prop) `{!PreOrder R}.
Abbreviation mssql A := (st session ConnectorError A).
Definition keeps {A} (m : mssql A) : Prop := ∀ s, R s (m s).1.
Lemma keeps_bind {A B} (m : mssql A) (f : A → mssql B) : keeps m → (∀ a, keeps (f a)) → keeps (m ≫= f).
Proof using PreOrder0.
  intros Hm Hf s. specialize (Hm s). unfold mbind, st_bind. destruct (m s) as [s1 [a|e]]; [|done]. etrans; [done|apply Hf].
Qed.
Lemma keeps_lift {A} (r : result ConnectorError A) : keeps (st_lift r).
Proof using PreOrder0. intros s. unfold st_lift. cbn. reflexivity. Qed.
Lemma keeps_ret {A} (a : A) : keeps (mret a).
Proof using PreOrder0. intros s. reflexivity. Qed.
Lemma keeps_throw {A} (e : ConnectorError) : keeps (mthrow e : mssql A).
Proof using PreOrder0. intros s. reflexivity. Qed.
Lemma keeps_if {A} (P : Prop) (d : {P} + {¬ P}) (m1 m2 : mssql A) : keeps m1 → keeps m2 → keeps (if d then m1 else m2).
Proof using Type. by destruct d. Qed.
Lemma keeps_bool {A} (b : bool) (m1 m2 : mssql A) : keeps m1 → keeps m2 → keeps (if b then m1 else m2).
Proof using Type. by destruct b. Qed.
Lemma keeps_lift_bind {A B} (r : result ConnectorError A) (f : A → mssql B) :
  (∀ a, r = Ok a → keeps (f a)) → keeps (st_lift r ≫= f).
Proof using PreOrder0. intros Hf s. unfold mbind, st_bind, st_lift. destruct r as [a|e]; [by apply Hf|reflexivity]. Qed.
End Keeps.

Section Contacts.
Context `{Rustls, MssqlRow, ArrowIpc} (decimal_shape_ok : N → Z → bool).
Abbreviation mssql A := (st session ConnectorError A).

(** The batches sent so far stay. *)
Definition silent (s s' : session) : Prop := ss_sent s' = ss_sent s.
#[local] Instance silent_preorder : PreOrder silent.
Proof using Type. split; [done|]. intros a b c Hab Hbc. unfold silent in *. congruence. Qed.

(** New connections and statements are of some kind; answers are taken from the front. *)
Definition extends (verified : DriverConfig → Prop) (allowed : rust_string → Prop) (s s' : session) : Prop :=
  (∃ attempts, ss_attempts s' = ss_attempts s ++ attempts ∧ Forall verified attempts)
  ∧ (∃ asked, ss_asked s' = ss_asked s ++ asked ∧ Forall (λ q, allowed q.1) asked)
  ∧ (∃ taken, ss_answers s = taken ++ ss_answers s').
#[local] Instance extends_preorder verified allowed : PreOrder (extends verified allowed).
Proof using Type.
  split; [intros s; split_and!; eexists []; by rewrite ?app_nil_r|].
  intros a b c ((l1 & L1 & F1) & (k1 & K1 & G1) & (t1 & T1)) ((l2 & L2 & F2) & (k2 & K2 & G2) & (t2 & T2)). split_and!.
  - exists (l1 ++ l2). rewrite L2, L1, app_assoc. split; [done|]. by apply Forall_app.
  - exists (k1 ++ k2). rewrite K2, K1, app_assoc. split; [done|]. by apply Forall_app.
  - exists (t1 ++ t2). by rewrite T1, T2, app_assoc.
Qed.
Definition contacts (verified : DriverConfig → Prop) (allowed : rust_string → Prop) (s s' : session) : Prop :=
  silent s s' ∧ extends verified allowed s s'.
#[local] Instance contacts_preorder verified allowed : PreOrder (contacts verified allowed).
Proof using Type.
  split; [by intros s|]. intros a b c [] []. split; by etrans.
Qed.

Context (verified : DriverConfig → Prop) (allowed : rust_string → Prop).
Abbreviation keeping := (keeps (contacts verified allowed)).

Lemma untouched (s s' : session) :
  ss_sent s' = ss_sent s → ss_attempts s' = ss_attempts s → ss_asked s' = ss_asked s → ss_answers s' = ss_answers s →
  contacts verified allowed s s'.
Proof using Type.
  intros E1 E2 E3 E4. split; [done|]. unfold extends. rewrite E2, E3, E4. split_and!; exists []; by rewrite ?app_nil_r.
Qed.
Lemma ask_remaining_keeps : keeping ask_remaining.
Proof using Type. intros s. unfold ask_remaining. destruct (next_of _ _). by apply untouched. Qed.
Lemma ask_lookup_keeps : keeping ask_lookup.
Proof using Type. intros s. unfold ask_lookup. destruct (next_of _ _). by apply untouched. Qed.
Lemma ask_cancelled_keeps : keeping ask_cancelled.
Proof using Type. intros s. unfold ask_cancelled. destruct (next_of _ _). by apply untouched. Qed.
Lemma client_connect_keeps config : verified config → keeping (client_connect config).
Proof using Type.
  intros Hv s. unfold client_connect. destruct (next_of _ _). split; [done|]. split_and!; cbn.
  - exists [config]. split; [done|]. by constructor.
  - exists []. by rewrite app_nil_r.
  - by exists [].
Qed.
Lemma next_of_suffix {A} (d : A) l : ∃ taken, l = taken ++ (next_of d l).2.
Proof using Type. destruct l as [|x l]; [by exists []|]. by exists [x]. Qed.
Lemma query_stream_keeps sql params : allowed sql → keeping (query_stream sql params).
Proof using Type.
  intros Ha s. unfold query_stream. destruct (next_of _ (ss_answers s)) as [x l] eqn:E.
  destruct (next_of_suffix (Err MsConnectionClosed : result MssqlError row_stream) (ss_answers s)) as [taken Ht].
  split; [done|]. split_and!; cbn.
  - exists []. by rewrite app_nil_r.
  - exists [(sql, params)]. split; [done|]. by constructor.
  - exists taken. by rewrite E in Ht.
Qed.

Hint Resolve keeps_lift keeps_ret keeps_throw ask_remaining_keeps ask_lookup_keeps ask_cancelled_keeps : keeps.
Ltac keeps_step := first
  [ progress intros | apply keeps_lift_bind | apply keeps_bind | apply keeps_bool | apply keeps_if
  | solve [eauto with keeps typeclass_instances] | case_match ].

Lemma resolve_keeps : keeping MssqlConnector.resolve.
Proof using Type. unfold MssqlConnector.resolve. cbn zeta. repeat keeps_step. Qed.
Lemma identify_server_keeps config : allowed IDENTITY_QUERY → keeping (identify_server config).
Proof using Type.
  intros Ha. unfold identify_server. apply keeps_bind; [apply _|apply ask_cancelled_keeps|]. intros stop.
  apply keeps_bool; [by apply keeps_throw; apply _|]. apply keeps_bind; [apply _|by apply query_stream_keeps|]. repeat keeps_step.
Qed.
Lemma connect_loop_keeps config secret command_timeout max addresses last :
  allowed IDENTITY_QUERY →
  (∀ endpoint remaining driver, driver_config config secret endpoint remaining command_timeout max = Ok driver → verified driver) →
  keeping (connect_loop config secret command_timeout max addresses last).
Proof using Type.
  intros Ha Hv. revert last. induction addresses as [|endpoint addresses IH]; intros last; cbn [connect_loop]; cbn zeta.
  { apply keeps_throw; apply _. }
  apply keeps_bind; [apply _|apply ask_remaining_keeps|]. intros remaining. apply keeps_bool; [apply keeps_throw; apply _|].
  apply keeps_lift_bind; [apply _|]. intros driver Hd. apply keeps_bind; [apply _|apply client_connect_keeps; by eapply Hv|].
  intros [| |e|]; try (apply keeps_throw; apply _).
  - apply keeps_if; [apply IH|apply keeps_throw; apply _].
  - apply keeps_bind; [apply _|by apply identify_server_keeps|]. intros server. apply keeps_ret; apply _.
Qed.
Lemma open_session_keeps config secret command_timeout max representable :
  allowed IDENTITY_QUERY →
  (∀ endpoint remaining driver, driver_config config secret endpoint remaining command_timeout max = Ok driver → verified driver) →
  keeping (open_session config secret command_timeout max representable).
Proof using Type.
  intros Ha Hv. unfold open_session. apply keeps_if; [apply keeps_throw; apply _|].
  apply keeps_bind; [apply _|apply resolve_keeps|]. intros addresses. by apply connect_loop_keeps.
Qed.
Lemma discover_keeps query spec :
  allowed DESCRIBE_TEMPORAL_METADATA_SQL → (∀ outer, allowed (wrap query outer)) → keeping (discover_query query spec).
Proof using Type.
  intros Hd Hw. assert (∀ sql columns, keeping (hydrate_temporal_metadata sql columns)) as Hhydrate.
  { intros sql columns. unfold hydrate_temporal_metadata. apply keeps_bool; [apply keeps_ret; apply _|].
    apply keeps_bind; [apply _|by apply query_stream_keeps|]. repeat keeps_step. }
  unfold discover_query. cbn zeta. apply keeps_bind; [apply _|apply query_stream_keeps, Hw|]. intros metadata.
  apply keeps_lift_bind; [apply _|]. intros [first rest] _. apply keeps_if; [apply keeps_throw; apply _|].
  apply keeps_bind; [apply _|apply Hhydrate|]. intros columns. apply keeps_lift_bind; [apply _|]. intros [[schema arrow] plans] _.
  apply keeps_lift_bind; [apply _|]. intros cursor _. apply keeps_bind; [apply _|apply query_stream_keeps, Hw|]. intros projected.
  repeat keeps_step.
Qed.
End Contacts.

(** ** Which connections and statements an execution makes *)
Section Execution.
Context `{Rustls, MssqlRow, ArrowIpc} (decimal_shape_ok : N → Z → bool).
Abbreviation mssql A := (st session ConnectorError A).

(** The settings verify the server's name, by the configured authorities if there are any,
    unless the connection disables TLS; they never trust an unverified certificate. *)
Definition verifies (connection : ConnectionConfig) (driver : DriverConfig) : Prop :=
  dc_trust_server_certificate driver = false ∧ dc_database driver = cc_database connection
  ∧ match cc_tls_mode connection with
    | TlsDisable => dc_no_tls driver = true ∧ dc_tls driver = None
    | TlsVerifyFull => dc_encrypt driver = true ∧ dc_no_tls driver = false
        ∧ ∃ roots, dc_tls driver = Some (mkDriverTls (default (cc_host connection) (cc_tls_server_name connection)) roots)
          ∧ match cc_tls_ca_pem connection with
            | Some pem => ∃ certificates, pem_slice_iter pem = Some certificates ∧ certificates ≠ [] ∧ roots = Some certificates
            | None => roots = None
            end
    | TlsRequire | TlsVerifyCa => False
    end.
Lemma driver_config_verifies connection secret endpoint t1 t2 max driver :
  driver_config connection secret endpoint t1 t2 max = Ok driver → verifies connection driver.
Proof using Type.
  unfold driver_config, verifies. intros (password & _ & Hd)%result_bind_ok. cbn zeta in Hd.
  destruct (cc_tls_mode connection); try done.
  - by injection Hd as <-.
  - destruct (cc_tls_ca_pem connection) as [pem|].
    + apply result_bind_ok in Hd as (roots & Hr & [= <-]). cbn. split_and!; try done. exists (Some roots). split; [done|].
      unfold parse_ca_pem in Hr. apply result_bind_ok in Hr as (cs & Hcs%ok_or_ok & Hr). destruct cs as [|c cs]; [done|].
      injection Hr as <-. by eexists.
    + injection Hd as <-. cbn. split_and!; try done. by exists None.
Qed.

(** The statements of the connector itself, and an accepted query below an outer one. *)
Definition asked_of (request : ExecuteRequest) (sql : rust_string) : Prop :=
  sql = IDENTITY_QUERY ∨ sql = DESCRIBE_TEMPORAL_METADATA_SQL
  ∨ ∃ query outer, normalize_query (er_query request) (el_max_rows (er_limits request)) (er_cursor request) = Ok query
      ∧ sql = wrap query outer.

#[local] Existing Instance extends_preorder.
#[local] Existing Instance contacts_preorder.
Abbreviation extending request := (keeps (extends (verifies (er_connection request)) (asked_of request))).

Lemma contacts_extend {A} verified allowed (m : mssql A) : keeps (contacts verified allowed) m → keeps (extends verified allowed) m.
Proof using Type. intros Hm s. apply Hm. Qed.
Lemma flush_extends verified allowed request schema arrow plans r :
  keeps (extends verified allowed) (flush_pending decimal_shape_ok request schema arrow plans r).
Proof using Type.
  unfold flush_pending, emit_batch. apply keeps_bind; [apply _| |intros; apply keeps_ret; apply _].
  apply keeps_lift_bind; [apply _|]. intros b _. apply keeps_lift_bind; [apply _|]. intros bytes _. cbn zeta.
  apply keeps_if; [apply keeps_throw; apply _|]. apply keeps_bind; [apply _| |].
  - intros s. unfold send_ipc_batch. destruct (next_of _ _) as [x l]. cbn. split_and!; exists []; by rewrite ?app_nil_r.
  - intros received. apply keeps_bool; [apply keeps_throw; apply _|apply keeps_ret; apply _].
Qed.
Lemma read_rows_extends verified allowed request schema arrow plans projection capacity items previous r :
  keeps (extends verified allowed) (read_rows decimal_shape_ok request schema arrow plans projection capacity items previous r).
Proof using Type.
  revert previous r. induction items as [|[row|e] items IH]; intros previous r; cbn [read_rows];
    [apply keeps_ret; apply _| |apply keeps_throw; apply _].
  apply keeps_lift_bind; [apply _|]. intros previous1 _. apply keeps_if.
  - apply keeps_lift_bind; [apply _|]. intros [more rest] _. apply keeps_if; [apply keeps_throw; apply _|apply keeps_ret; apply _].
  - cbn zeta. apply keeps_bind; [apply _| |intros; apply IH]. apply keeps_if; [apply flush_extends|apply keeps_ret; apply _].
Qed.
Lemma execute_query_extends verified allowed query request :
  allowed DESCRIBE_TEMPORAL_METADATA_SQL → (∀ outer, allowed (wrap query outer)) →
  keeps (extends verified allowed) (execute_query decimal_shape_ok query request).
Proof using Type.
  intros Hd Hw. unfold execute_query.
  apply keeps_bind; [apply _|apply contacts_extend; by apply discover_keeps|]. intros [[[schema arrow] plans] cursor].
  apply keeps_if; [apply keeps_throw; apply _|]. cbn zeta. apply keeps_lift_bind; [apply _|]. intros parameters _.
  apply keeps_bind; [apply _| |].
  { apply contacts_extend, query_stream_keeps. unfold execution_sql.
    destruct (er_cursor request); [|apply Hw]. destruct (cursor_bound query); apply Hw. }
  intros rows. apply keeps_lift_bind; [apply _|]. intros _u _.
  apply keeps_bind; [apply _|apply read_rows_extends|]. intros r. apply keeps_bind; [apply _| |intros; apply keeps_ret; apply _].
  destruct (rd_pending r); [apply keeps_ret; apply _|apply flush_extends].
Qed.

(** C21: whatever an execution ends with, it only opens connections whose driver settings
    verify the server unless the connection itself disables TLS, and it only sends the
    connector's two fixed statements and statements that wrap the accepted query, the query
    of the request in no other form; a refused request reaches no server at all. *)
Theorem execution_is_confined request secret representable first s :
  let '(s', r) := execute decimal_shape_ok request secret representable first s in
  extends (verifies (er_connection request)) (asked_of request) s s'
  ∧ ((∃ e, validate_operation (er_connection request) secret = Err e) ∨ (∃ e, validate_execute_request request = Err e)
     ∨ (∃ e, normalize_query (er_query request) (el_max_rows (er_limits request)) (er_cursor request) = Err e)
     → s' = s ∧ is_ok r = false).
Proof using Type.
  destruct (execute _ _ _ _ _ s) as [s' r] eqn:He. unfold execute in He. unfold mbind at 1, st_bind at 1, st_lift at 1 in He.
  destruct (validate_operation _ secret) as [[]|e1] eqn:E1; [|injection He as <- <-; split; [reflexivity|done]].
  unfold mbind at 1, st_bind at 1, st_lift at 1 in He.
  destruct (validate_execute_request request) as [[]|e2] eqn:E2; [|injection He as <- <-; split; [reflexivity|done]].
  unfold mbind at 1, st_bind at 1, st_lift at 1 in He.
  destruct (normalize_query _ _ _) as [query|e3] eqn:E3; [|injection He as <- <-; split; [reflexivity|done]].
  split; [|by intros [[? ?]|[[? ?]|[? ?]]]].
  change s' with (s', r).1. rewrite <- He. match goal with |- extends _ _ s (?m s).1 => assert (extending request m) as Hk; [|exact (Hk s)] end.
  apply keeps_bind; [apply _| |].
  - apply contacts_extend, open_session_keeps; [by left|]. intros endpoint remaining driver. apply driver_config_verifies.
  - intros _. assert (extending request (execute_query decimal_shape_ok query request)) as Hq.
    { apply execute_query_extends; [right; by left|]. intros outer. right; right. by exists query, outer. }
    intros s1. unfold selected. specialize (Hq s1). destruct first; done.
Qed.

(** ** What an execution sends *)
Context {Hlaws : ArrowIpcLaws}.

Lemma validate_execute_ok request :
  validate_execute_request request = Ok tt →
  el_max_batch_rows (er_limits request) ≠ 0 ∧ el_max_total_ipc_bytes (er_limits request) < u64_max.
Proof using Type.
  unfold validate_execute_request. cbn zeta. repeat (case_decide; [done|]). intros _. split; [done|].
  eapply N.le_lt_trans; [apply N.nlt_ge; eassumption|]. vm_compute. reflexivity.
Qed.
Lemma normalize_rows query max cursor nq : normalize_query query max cursor = Ok nq → 1 ≤ max.
Proof using Type. unfold normalize_query. case_decide as Hr; [done|]. intros _. apply Hr. Qed.
Lemma effective_batch_capacity_bounds request schema :
  el_max_batch_rows (er_limits request) ≠ 0 → 1 ≤ el_max_rows (er_limits request) →
  0 < effective_batch_capacity request schema ≤ el_max_batch_rows (er_limits request).
Proof using Type.
  intros Hb Hr. unfold effective_batch_capacity. cbn zeta. set (cap := match try_fold _ _ _ with Some _ => _ | None => _ end).
  assert (1 ≤ cap) by (subst cap; case_match; [unfold clamp; repeat case_decide; unfold MAX_TYPED_BATCH_ROWS in *; lia|lia]). lia.
Qed.

(** A batch that was sent decodes to its rows, in the eyes of the registry. *)
Lemma emitted_decodes request schema arrow plans options e chunk :
  validate_arrow_schema schema arrow = Ok tt → mo_request_id options = er_request_id request →
  mo_expected_schema options = schema → mo_limits options = er_limits request →
  lengthN chunk ≤ el_max_batch_rows (er_limits request) →
  emitted decimal_shape_ok request schema arrow plans e chunk →
  ∃ b, rows_to_batch decimal_shape_ok chunk plans arrow = Ok b ∧ decodes_to options e b.
Proof using All.
  intros Hs Hid Hsc Hl Hc (b & Hb & Henc & He1 & He2 & He3). exists b. split; [done|].
  pose proof (rows_to_batch_ok _ _ _ _ _ Hb) as (Hwf & Hsb & Hn). rewrite <- Hsb in Hs.
  destruct (encode_batch_ok decimal_shape_ok _ _ _ _ Hwf Hs Henc) as [Hd Hle]. unfold decodes_to. rewrite Hid, Hsc, Hl, He2, Hn. by split_and!.
Qed.

Lemma emitted_all_decode request schema arrow plans options capacity sent chunks :
  validate_arrow_schema schema arrow = Ok tt → mo_request_id options = er_request_id request →
  mo_expected_schema options = schema → mo_limits options = er_limits request →
  capacity ≤ el_max_batch_rows (er_limits request) → Forall (λ chunk, chunk ≠ [] ∧ lengthN chunk ≤ capacity) chunks →
  Forall2 (emitted decimal_shape_ok request schema arrow plans) sent chunks →
  Forall2 (λ e chunk, ∃ b, rows_to_batch decimal_shape_ok chunk plans arrow = Ok b ∧ decodes_to options e b) sent chunks.
Proof using All.
  intros Hs Ho1 Ho2 Ho3 Hc Hch Hf. induction Hf as [|e chunk sent chunks He _ IH]; [constructor|].
  apply Forall_cons in Hch as [[_ Hl] Hch]. constructor; [|by apply IH]. eapply emitted_decodes; try done. by etrans.
Qed.

(** The steps of an execution that came to an end. *)
Lemma execute_query_ok query request s s' executed :
  execute_query decimal_shape_ok query request s = (s', Ok executed) →
  ∃ schema arrow plans projection parameters stream s1 s2 s3 r,
    discover_query query (req_spec <$> er_cursor request) s = (s1, Ok (schema, arrow, plans, projection))
    ∧ (er_expected_schema request = None ∨ er_expected_schema request = Some schema)
    ∧ query_stream (execution_sql query (projection_sql plans) (er_cursor request)) parameters s1 = (s2, Ok stream)
    ∧ read_rows decimal_shape_ok request schema arrow plans projection (effective_batch_capacity request schema)
        (rs_items stream) None (mkReading [] 0 0 0 false) s2 = (s3, Ok r)
    ∧ match rd_pending r with
      | [] => mret r
      | _ => flush_pending decimal_shape_ok request schema arrow plans r
      end s3 = (s', Ok (mkReading [] (ex_rows_read executed) (ex_batches_emitted executed) (ex_ipc_bytes_emitted executed) (ex_truncated executed)))
    ∧ ex_request_id executed = er_request_id request ∧ ex_schema executed = schema.
Proof using Type.
  unfold execute_query. intros Hrun. apply st_bind_ok in Hrun as ([[[schema arrow] plans] projection] & s1 & Hdisc & Hrun).
  cbn beta iota in Hrun. case_decide as Hexp; [done|]. cbn zeta in Hrun.
  apply st_bind_ok in Hrun as (parameters & s1' & [-> Hpar]%st_lift_ok & Hrun).
  apply st_bind_ok in Hrun as (stream & s2 & Hstream & Hrun). apply st_bind_ok in Hrun as (_u & s2' & [-> _]%st_lift_ok & Hrun).
  apply st_bind_ok in Hrun as (r & s3 & Hread & Hrun). apply st_bind_ok in Hrun as (r' & s4 & Hflush & [= <- <-]).
  exists schema, arrow, plans, projection, parameters, stream, s1, s2, s3, r. cbn. split_and!; try done.
  - destruct (er_expected_schema request) as [expected|]; [right|by left]. cbn in Hexp.
    apply not_true_is_false, bool_decide_eq_false, dec_stable in Hexp. by subst.
  - rewrite Hflush. f_equal. f_equal. destruct (rd_pending r) as [|row pending] eqn:Ep.
    + injection Hflush as _ <-. destruct r; cbn in *. by subst.
    + unfold flush_pending in Hflush. apply st_bind_ok in Hflush as (n & s5 & _ & [= _ <-]). done.
Qed.
Lemma discover_schema query spec s s' schema arrow plans projection :
  discover_query query spec s = (s', Ok (schema, arrow, plans, projection)) → validate_arrow_schema schema arrow = Ok tt.
Proof using Type.
  unfold discover_query. cbn zeta. intros Hrun. apply st_bind_ok in Hrun as (metadata & s1 & _ & Hrun).
  apply st_bind_ok in Hrun as ([first rest] & s2 & _ & Hrun). cbn beta iota in Hrun. case_decide; [done|].
  apply st_bind_ok in Hrun as (columns & s3 & _ & Hrun).
  apply st_bind_ok in Hrun as ([[schema1 arrow1] plans1] & s4 & [_ Hp]%st_lift_ok & Hrun). cbn beta iota in Hrun.
  apply st_bind_ok in Hrun as (cursor & s5 & _ & Hrun). apply st_bind_ok in Hrun as (projected & s6 & _ & Hrun).
  apply st_bind_ok in Hrun as (_u & s7 & _ & Hrun). apply st_bind_ok in Hrun as ([row rest'] & s8 & _ & Hrun).
  cbn beta iota in Hrun. case_decide; [done|]. injection Hrun as _ <- <- <- _. by apply plan_columns_ok in Hp as (_ & _ & _ & ?).
Qed.

(** What a finished execution has sent: all rows of the server's answer up to the limit. *)
Definition execution_sent (request : ExecuteRequest) (s s' : session) (executed : ExecutionResult) : Prop :=
  ∃ query schema arrow plans projection parameters stream all cs chunks sent,
    normalize_query (er_query request) (el_max_rows (er_limits request)) (er_cursor request) = Ok query
    ∧ (∃ taken, ss_answers s = taken ++ Ok stream :: ss_answers s')
    ∧ last (ss_asked s') = Some (execution_sql query (projection_sql plans) (er_cursor request), parameters)
    ∧ rs_items stream = Ok <$> all
    ∧ lengthN all ≤ el_max_rows (er_limits request) + 1
    ∧ observed projection all cs
    ∧ (er_expected_schema request = None ∨ er_expected_schema request = Some schema)
    ∧ ss_sent s' = ss_sent s ++ sent ∧ numbered sent
    ∧ concat chunks = take (N.to_nat (el_max_rows (er_limits request))) all
    ∧ (∀ options, mo_request_id options = er_request_id request → mo_expected_schema options = schema →
        mo_limits options = er_limits request →
        Forall2 (λ e chunk, ∃ b, rows_to_batch decimal_shape_ok chunk plans arrow = Ok b ∧ decodes_to options e b) sent chunks)
    ∧ executed = mkExecutionResult (er_request_id request)
        (lengthN (take (N.to_nat (el_max_rows (er_limits request))) all)) (lengthN sent) (ipc_total sent)
        (bool_decide (el_max_rows (er_limits request) < lengthN all)) schema.

Lemma query_stream_ok sql parameters s s' stream :
  query_stream sql parameters s = (s', Ok stream) →
  ss_sent s' = ss_sent s ∧ ss_answers s = Ok stream :: ss_answers s' ∧ ss_asked s' = ss_asked s ++ [(sql, parameters)].
Proof using Type.
  unfold query_stream. destruct (ss_answers s) as [|a l] eqn:E; cbn; [done|]. destruct a as [x|e]; [|done].
  by intros [= <- <-].
Qed.

Lemma execute_query_sent query request s s' executed :
  in_u64 (el_max_rows (er_limits request)) → validate_execute_request request = Ok tt →
  normalize_query (er_query request) (el_max_rows (er_limits request)) (er_cursor request) = Ok query →
  execute_query decimal_shape_ok query request s = (s', Ok executed) → execution_sent request s s' executed.
Proof using All.
  intros Hw [Hbr Htot]%validate_execute_ok Hq Hrun. pose proof (normalize_rows _ _ _ _ Hq) as Hr1.
  apply execute_query_ok in Hrun as (schema & arrow & plans & projection & parameters & stream & s1 & s2 & s3 & r & Hdisc & Hexp
    & Hstream & Hread & Hflush & Hid & Hsc).
  pose proof (discover_schema _ _ _ _ _ _ _ _ Hdisc) as Harrow.
  pose proof (discover_keeps (λ _, True) (λ _, True) query (req_spec <$> er_cursor request) I (λ _, I) s) as [Hsil (_ & _ & taken & Htaken)].
  rewrite Hdisc in Hsil, Htaken. cbn in Hsil, Htaken. unfold silent in Hsil.
  apply query_stream_ok in Hstream as (Hs2 & Ha2 & Hk2).
  pose proof (effective_batch_capacity_bounds request schema Hbr Hr1) as [Hc0 Hc].
  eapply (read_rows_ok decimal_shape_ok request schema arrow plans projection _ (ss_sent s2) Hw Htot Hc0 _ _ _ _ _ _ [] [] [] []) in Hread
    as [[Ea Eq] (all & cs & chunks & sent & Hitems & Hfin)].
  2:{ unfold emitting. cbn. rewrite app_nil_r. split_and!; try done; try constructor; apply N.le_0_l. }
  2-3: done.
  2:{ unfold observed. destruct projection; [|done]. split; constructor. }
  2:{ done. }
  cbn [app] in Hfin. destruct Hfin as (Hobs & Hall & Htr & Hemit). set (capacity := effective_batch_capacity request schema) in *.
  set (rows := take _ all) in *. set (r' := mkReading [] _ _ _ _) in Hflush.
  assert (∃ chunks' sent', same_server s3 s' ∧ emitting decimal_shape_ok request schema arrow plans capacity (ss_sent s2) s' rows
      chunks' sent' r' ∧ rd_truncated r' = rd_truncated r) as (chunks' & sent' & [Ea' Eq'] & Hemit' & Htr').
  { destruct (rd_pending r) as [|row pending] eqn:Ep; [injection Hflush as -> <-; by exists chunks, sent|].
    apply (flush_ok decimal_shape_ok request schema arrow plans projection capacity (ss_sent s2) Hw Htot Hc0 _ _ _ _ _ _ _ Hemit) in Hflush
      as [? (e & ? & _ & ?)]; [|by rewrite Ep]. by do 2 eexists. }
  destruct Hemit' as (Hs' & Hf & Hnum & Hrows & Hn & _ & Hseq & Hipc & _ & _ & Hch). cbn in Hrows, Hn, Hseq, Hipc, Htr'.
  rewrite app_nil_r in Hrows.
  exists query, schema, arrow, plans, projection, parameters, stream, all, cs, chunks', sent'.
  split; [done|]. split; [exists taken; by rewrite Htaken, Ha2, <- Ea, <- Ea'|].
  split; [by rewrite Eq', Eq, Hk2, last_snoc|]. do 4 (split; [done|]). split; [by rewrite Hs', Hs2, Hsil|]. do 2 (split; [done|]). split.
  - intros options Ho1 Ho2 Ho3. by eapply emitted_all_decode.
  - destruct executed. cbn in *. subst. by rewrite Htr.
Qed.

(** C20: what an execution sends is what the server answered.  An execution that succeeds
    read the whole answer to the statement it built for the accepted query; it sent exactly
    the rows of it up to the limit, in order and cut into numbered batches, each of which
    the registry decodes to the Arrow columns of its rows under the schema that was
    prepared; it counts what it sent, and says it was truncated exactly when the answer had
    one row more; under a cursor the rows' cursors increase strictly. *)
Theorem execution_sends_the_answer request secret representable first s s' executed :
  in_u64 (el_max_rows (er_limits request)) →
  execute decimal_shape_ok request secret representable first s = (s', Ok executed) →
  ∃ s1, contacts (verifies (er_connection request)) (asked_of request) s s1 ∧ execution_sent request s1 s' executed.
Proof using All.
  intros Hw. unfold execute. intros Hrun. apply st_bind_ok in Hrun as ([] & s0 & [-> _]%st_lift_ok & Hrun).
  apply st_bind_ok in Hrun as ([] & s0 & [-> Hv]%st_lift_ok & Hrun). apply st_bind_ok in Hrun as (query & s0 & [-> Hq]%st_lift_ok & Hrun).
  apply st_bind_ok in Hrun as (server & s1 & Hopen & Hrun). exists s1. split.
  - pose proof (open_session_keeps (verifies (er_connection request)) (asked_of request) (er_connection request) secret
      (el_timeout (er_limits request)) MAX_WIRE_MESSAGE_BYTES representable (or_introl eq_refl)
      ltac:(intros; by eapply driver_config_verifies) s) as Hk. by rewrite Hopen in Hk.
  - unfold selected in Hrun. destruct first; try done; by eapply execute_query_sent.
Qed.
End Execution.
