(* ===== verification/NativeDemo.v ===== *)
(** * A collection at a concrete connector (NativeProps.v) *)

From S2P Require Export NativeProps.

Local Open Scope N_scope.
Local Open Scope dbx_scope.

(** ** Libraries: one stream that holds one batch, and plain JSON. *)
Definition demo_schema : QuerySchema :=
  [mkField (str "t") FT_TimestampMicrosecondUtc false (str "T"); mkField (str "i") FT_Int64 false (str "I")].
Definition demo_arrow_schema : Schema :=
  [mkArrowField (str "t") (DT_Timestamp Microsecond (Some (str "UTC"))) false; mkArrowField (str "i") DT_Int64 false].
Definition demo_batch : RecordBatch := mkBatch demo_arrow_schema
  [TimestampMicrosecondArray (Some (str "UTC")) [Some 1000%Z; Some 1000%Z]; Int64Array [Some 1%Z; Some 2%Z]] 2.
Definition demo_bytes : list byte := x01 :: IPC_END_MARKER.

#[local] Instance demo_ipc : ArrowIpc := {
  StreamReader_try_new bytes := if decide (bytes = demo_bytes) then Some (mkStream demo_arrow_schema [Some demo_batch] 9) else None;
  StreamWriter_chunks _ := None;
}.
#[local] Instance demo_chrono : Chrono := {
  NaiveDate := Z; NaiveTime := N; NaiveDateTime := Z;
  num_days_from_ce d := d; num_seconds_from_midnight n := n; time_nanosecond n := 0; datetime_nanosecond z := 0;
  datetime_year z := 1970%Z; timestamp_micros z := z; from_timestamp_micros z := Some z;
  date32_to_datetime z := Some z; time64us_to_time z := Some (Z.to_N z); timestamp_us_to_datetime z := Some z;
  datetime_format _ z := to_string (Z.to_N z); time_format _ n := to_string n;
}.
Definition quoted (s : rust_string) : list byte := x22 :: utf8_bytes s ++ [x22].
#[local] Instance demo_serde : SerdeScalars := {
  json_scalar_bytes v := Some (match v with
    | JsonString s => quoted s
    | JsonBool b => utf8_bytes (str (if b then "true" else "false"))
    | JsonInt z => utf8_bytes (format_decimal z 0)
    | JsonFloat _ => utf8_bytes (str "0.0")
    end);
  RawValue_from_string s := Some (utf8_bytes s);
}.

(** ** A page of a rising input *)
Definition demo_cursor : TimestampIdCursorRequest :=
  mkRequest (mkSpec (str "t") (str "i") (mkDuration 0 0) Reject) (Some (mkCursor 999 7)) None.
Definition demo_connection : ConnectionConfig :=
  mkConnection (str "mssql") (str "h") 1 (str "d") (str "u") TlsVerifyFull None None (mkDuration 5 0) (mkDuration 5 0).
Definition demo_request : JsonCollectionRequest :=
  mkCollectionRequest (str "r") demo_connection (str "SELECT") 10 100 (mkDuration 5 0) (Some demo_cursor).
Definition demo_connector : Connector := {|
  con_prepare request := Ok (mkPreparedQuery (str "r") (str "mssql") demo_schema);
  con_execute request := ([mkIpcBatch (str "r") 0 2 demo_schema demo_bytes], Ok (mkExecutionResult (str "r") 2 1 9 false demo_schema));
|}.
Definition demo_provider : NativeConnectorProvider :=
  mkProvider demo_connector demo_connector demo_connector demo_connector demo_connector.
Definition demo_start : collecting := mkCollecting [] [] [] [mkDuration 4 0; mkDuration 3 0].

Lemma collection_reports_what_it_sent_witness : ∃ s' c,
  collect_json_rows demo_provider demo_request OperationDone demo_start = (s', Ok c)
  ∧ ∃ connector executed rows,
    provider_connector demo_provider (cc_connector_id (jr_connection demo_request)) = Ok connector
    ∧ collected connector demo_request rows executed
    ∧ cg_sent s' = cg_sent demo_start ++ rows ∧ reports demo_request executed rows c.
Proof.
  do 2 eexists.
  assert (collect_json_rows demo_provider demo_request OperationDone demo_start = (_, Ok _)) as H by (vm_compute; reflexivity).
  split; [exact H|]. refine (collection_reports_what_it_sent _ _ _ _ _ _ _ H). vm_compute. discriminate.
Defined.

Lemma collection_stays_within_limits_witness :
  in_u64 (jr_max_rows demo_request)
  ∧ sent_within demo_request demo_start (collect_json_rows demo_provider demo_request DeadlineElapsed demo_start).1.
Proof. split; [vm_compute; discriminate|]. apply collection_stays_within_limits. vm_compute. discriminate. Defined.

(** ** An execution at a concrete server (MssqlTypedProps.v) *)
From S2P Require Export MssqlTypedProps.
#[local] Existing Instance demo_chrono.

(** ** A driver whose rows are lists of cells *)
Inductive cell := CellText (value : rust_string) | CellInt (value : Z).
Definition cell_at (row : list (option cell)) (index : nat) : option cell := mjoin (row !! index).
Definition text_at row index : option rust_string := match cell_at row index with Some (CellText s) => Some s | _ => None end.
Definition int_at row index : option Z := match cell_at row index with Some (CellInt z) => Some z | _ => None end.
#[local] Instance demo_row : MssqlRow := {
  Row := list (option cell); Uuid := rust_string; hyphenated s := s;
  row_len := length; row_is_null row index := negb (bool_decide (is_Some (mjoin (row !! index))));
  get_bool row index := None; get_u8 := int_at; get_i16 := int_at; get_i32 := int_at; get_i64 := int_at;
  get_f32 row index := None; get_f64 row index := None; get_string := text_at; get_bytes row index := None;
  get_uuid := text_at; get_date := int_at; get_time row index := Z.to_N <$> int_at row index; get_datetime := int_at;
}.
#[local] Instance demo_rustls : Rustls := {
  Certificate := (); ServerName_try_from _ := true; pem_slice_iter _ := None;
}.
#[local] Instance Array_eq_dec : EqDecision Array.
Proof. solve_decision. Defined.
#[local] Instance RecordBatch_eq_dec : EqDecision RecordBatch.
Proof. solve_decision. Defined.
Definition demo_chunks : list (list byte) := [[x01]; IPC_END_MARKER].
#[local] Instance demo_stream : ArrowIpc := {
  StreamReader_try_new bytes := if decide (bytes = demo_bytes) then Some (mkStream demo_arrow_schema [Some demo_batch] 9) else None;
  StreamWriter_chunks b := if decide (b = demo_batch) then Some demo_chunks else None;
}.
#[local] Instance demo_stream_laws : ArrowIpcLaws.
Proof.
  split.
  - intros b chunks _. cbn. case_decide as Hb; [|done]. intros [= <-]. subst b. split; [reflexivity|]. by exists [x01].
  - intros bytes s b. cbn. case_decide; [|done]. intros [= <-] [= ->]%list_elem_of_singleton. split; [|done].
    repeat constructor; vm_compute; reflexivity.
Qed.

(** ** A server with a table of two columns *)
Definition demo_columns : list Column :=
  [mkColumn (str "t") "DateTime2" false None None None None; mkColumn (str "i") "Int8" false None None None None].
Definition demo_identity : list (option cell) :=
  [Some (CellText (str "16.0.1000.5")); Some (CellText (str "Edition")); Some (CellInt 3); Some (CellText (str "D"))].
Definition demo_described : list (list (option cell)) :=
  [[Some (CellInt 1); Some (CellText (str "t")); Some (CellInt 6)]; [Some (CellInt 2); Some (CellText (str "i")); None]].
Definition demo_table : list (list (option cell)) :=
  [[Some (CellInt 1000); Some (CellInt 1)]; [Some (CellInt 1000); Some (CellInt 2)]].
Definition demo_answers : list (result MssqlError row_stream) :=
  [Ok (mkRowStream [] [Ok demo_identity]); Ok (mkRowStream demo_columns []); Ok (mkRowStream [] (Ok <$> demo_described));
   Ok (mkRowStream demo_columns []); Ok (mkRowStream demo_columns (Ok <$> demo_table))].
Definition demo_session : session :=
  mkSession [mkDuration 4 0; mkDuration 3 0] [LookupAddresses 1] [Connected] [] demo_answers [] [] [] [].
Definition demo_execute : ExecuteRequest :=
  mkExecuteRequest (str "r") demo_connection (str "SELECT t, i FROM x") (mkExecutionLimits 10 10 1000 1000 (mkDuration 5 0)) None (Some demo_cursor).
Definition every_shape (precision : N) (scale : Z) : bool := true.
Definition demo_execution := execute every_shape demo_execute [x70] true OperationDone demo_session.
Definition demo_result : ExecutionResult :=
  mkExecutionResult (str "r") 2 1 9 false
    [mkField (str "t") FT_TimestampMicrosecondUtc false (str "DATETIME2(6) UTC-CURSOR"); mkField (str "i") FT_Int64 false (str "BIGINT")].

Lemma demo_execution_ok : demo_execution.2 = Ok demo_result.
Proof. vm_compute. reflexivity. Qed.
Lemma pair_answer {S A} (run : S * A) a : run.2 = a → run = (run.1, a).
Proof. by destruct run; cbn; intros ->. Qed.
#[local] Strategy expand [demo_execution].
Lemma demo_execution_eq :
  execute every_shape demo_execute [x70] true OperationDone demo_session = (demo_execution.1, Ok demo_result).
Proof. exact (pair_answer demo_execution _ demo_execution_ok). Qed.
#[local] Opaque demo_execution.
Lemma execution_sends_the_answer_witness :
  ∃ s1, contacts (verifies demo_connection) (asked_of demo_execute) demo_session s1
    ∧ execution_sent every_shape demo_execute s1 demo_execution.1 demo_result.
Proof.
  exact (execution_sends_the_answer every_shape demo_execute [x70] true OperationDone demo_session demo_execution.1 demo_result
    ltac:(vm_compute; discriminate) demo_execution_eq).
Defined.
