(* ===== verification/Pipeline.v ===== *)
(** * A page from the connector to the coordinator (crates/dbx-rs-daemon/src/worker.rs)

    The run of an input with its connector: the collection (Native.v) sends its rows to
    the spooling task (Collection.v), and the page they seal is what the coordinator of a
    rising input adopts (Rising.v). *)

From S2P Require Export NativeProps Prepared CollectionProps RisingTransitions.

Local Open Scope N_scope.
Local Open Scope dbx_scope.

Abbreviation worker A := (st daemon (WorkerError ConnectorError) A).

(** What a run asks of its connector. *)
Definition collection_request (input : Prepared) (request_id : rust_string) (cursor : option TimestampIdCursorRequest)
    : JsonCollectionRequest :=
  mkCollectionRequest request_id (pw_connection input) (pw_query input) (pl_max_rows (pw_limits input))
    (pl_max_bytes (pw_limits input)) (pl_query_timeout (pw_limits input)) cursor.

Section Pipeline.
Context `{Sha256, Crypto, !CryptoLaws, HecJson, SerdeJson}.
Context `{ArrowIpc, Hfits : !ArrowIpcWidths, Chrono, SerdeScalars}.

(** [join!]: collection and spooling meet in the channel of the rows, which is new: [cg]
    says what its receiver, the clock and the token answer. *)
Definition run_with_connector (provider : NativeConnectorProvider) (input : Prepared) (run : CollectionRun) (spool : Spool)
    (hec : HecClient) (secret : result DaemonError ()) (request_id : rust_string) (first : first_event) (cg : collecting)
    : worker WorkerCompletion :=
  let cursor := match run with RunBatch _ => None | RunRising _ _ _ _ cursor => Some cursor end in
  let '(cg, collection) := collect_json_rows provider (collection_request input request_id cursor) first
    (mkCollecting [] (cg_receiving cg) (cg_cancelled cg) (cg_remaining cg)) in
  run_input_inner (pw_input input) run spool hec secret (cg_sent cg) collection.

(** ** The cursors of a collection are values of their types *)
Lemma greater_or_ge k c : opt_cursor_le (Some k) (Some (greater_or (Some k) c)).
Proof using Type.
  cbn. unfold greater_or. case_decide as Hk; [reflexivity|]. unfold cursor_le. intros Hx. apply Hk. by apply position_cmp_gt.
Qed.
Lemma decoded_fits bytes schema b : decode_one_batch bytes schema = Ok b → Forall array_fits (rb_columns b).
Proof using Hfits.
  unfold decode_one_batch. cbn zeta. case_decide; [done|]. intros (reader & Hr%ok_or_ok & Hd)%result_bind_ok.
  apply result_bind_ok in Hd as ([] & _ & Hd). destruct (stream_items reader) as [|[batch|] [|? ?]] eqn:Hi; try done.
  case_decide; [done|]. injection Hd as <-. apply (stream_batches_fit bytes reader batch Hr). rewrite Hi. by left.
Qed.
Lemma batch_cursor_wf ti ii b row c : Forall array_fits (rb_columns b) → batch_cursor ti ii b row = Some c → wf_cursor c.
Proof using Type.
  intros Hfit. unfold batch_cursor. intros (ts & Hts & Hc)%bind_Some. apply bind_Some in Hc as (ids & Hids & Hc).
  apply bind_Some in Hc as (t & Ht & Hc). apply bind_Some in Hc as (i & Hi & [= <-]).
  apply bind_Some in Hts as (a1 & Ha1 & Hts). apply bind_Some in Hids as (a2 & Ha2 & Hids).
  pose proof (Forall_lookup_1 _ _ _ _ Hfit Ha1) as F1. pose proof (Forall_lookup_1 _ _ _ _ Hfit Ha2) as F2.
  destruct a1; try done. injection Hts as ->. destruct a2; try done. injection Hids as ->. cbn in F1, F2.
  assert (ts !! row = Some (Some t)) as Ht' by (destruct (ts !! row) as [[|]|]; cbn in Ht; congruence).
  assert (ids !! row = Some (Some i)) as Hi' by (destruct (ids !! row) as [[|]|]; cbn in Hi; congruence).
  pose proof (Forall_lookup_1 _ _ _ _ F1 Ht') as W1. pose proof (Forall_lookup_1 _ _ _ _ F2 Hi') as W2.
  unfold signed_width, in_width in W1, W2. split; cbn; unfold in_i64, i64_min, i64_max; lia.
Qed.

Lemma page_bound_ok cursor bound : effective_bound cursor = Ok bound → page_bound (Some cursor) = bound.
Proof using Type. intros Hb. change (mjoin (result_ok (effective_bound cursor)) = bound). rewrite Hb. by destruct bound. Qed.
(** The report of a cursor page, and its cursors within their types. *)
Lemma page_report provider request first s s' c cursor :
  in_u64 (jr_max_rows request) → jr_cursor request = Some cursor → cg_sent s = [] →
  collect_json_rows provider request first s = (s', Ok c) →
  ∃ connector executed, provider_connector provider (cc_connector_id (jr_connection request)) = Ok connector
    ∧ collected connector request (cg_sent s') executed ∧ reports request executed (cg_sent s') c.
Proof using Type.
  intros Hw Hk Hs. unfold collect_json_rows. rewrite st_bind_ok. intros (_u & s1 & (-> & _)%st_lift_ok & Hc). revert Hc.
  rewrite st_bind_ok. intros (connector & s1 & (-> & Hcon)%st_lift_ok & Hc). destruct first; try done.
  pose proof (yields_ok _ _ _ _ _ _ (collect_inner_ok connector request s Hw) Hc) as (executed & rows & Hrows & ? & ?).
  rewrite Hs in Hrows. cbn in Hrows. rewrite Hrows. by exists connector, executed.
Qed.
Lemma collected_cursors_wf connector request rows executed cursor cs :
  jr_cursor request = Some cursor → collected connector request rows executed → cursors_of rows = Some <$> cs →
  Forall wf_cursor cs.
Proof using Hfits.
  intros Hk (prepared & limits & binary & timeout & sent & batches & _ & _ & _ & Hd & _ & Hf & _) Hcs.
  rewrite Hk in Hf. set (options := mkOptions _ _ _ _ _ _) in *.
  assert (Forall (λ b, Forall array_fits (rb_columns b)) batches) as Hfit.
  { apply Forall_forall. intros b Hb. apply list_elem_of_lookup in Hb as [i Hi].
    destruct (Forall2_lookup_r _ _ _ _ _ Hd Hi) as (e & _ & _ & _ & Hdec & _). by apply decoded_fits in Hdec. }
  apply Forall_forall. intros c Hc. apply list_elem_of_lookup in Hc as [i Hi].
  assert (∃ r, rows !! i = Some r ∧ row_cursor r = Some c) as (r & Hr & Hrc).
  { pose proof (f_equal (.!! i) Hcs) as E. cbn in E. unfold cursors_of in E. rewrite !list_lookup_fmap, Hi in E.
    destruct (rows !! i) as [r|]; [|done]. injection E as E. by exists r. }
  destruct (Forall2_lookup_r _ _ _ _ _ Hf Hr) as (p & Hp & _ & Hcur).
  apply list_elem_of_lookup_2, list_elem_of_bind in Hp as (b & (n & -> & _)%list_elem_of_fmap & Hb).
  destruct (page_indices _ _) as [[ti ii]|]; [|congruence]. destruct Hcur as [_ Hcur]. rewrite Hrc in Hcur.
  rewrite Forall_forall in Hfit. eapply batch_cursor_wf; [by apply Hfit|by symmetry].
Qed.

(** C9: a page that a connector's rows are sealed into is adopted.  When a run of a page
    context comes to a sealed page, that page holds exactly the JSON of the rows of the
    batches the connector sent, with cursors that increase strictly above the bound of the
    context, and as long as the durable state still has the context and there is room the
    coordinator adopts it: the scan ends at the last of these cursors and is complete
    unless the connector cut the page short. *)
Theorem connector_page_is_adopted s input rising sc a context provider self hec secret request_id first cg w w' c :
  state_validate s = Ok tt → widths_ok s → pi_rising (pw_input input) = Some rising →
  active_scan s = Some sc → active_attempt (coordinator s) = Some a → collection a = CollInProgress →
  validate_page_context s (pw_input input) rising context = Ok tt →
  (∀ k, committed (coordinator s) = Some k → wf_cursor k) → run_wf (collection_run context) →
  lengthN (DurableState.segments sc) < MAX_SEGMENTS_PER_SCAN → in_u64 (next_page sc + 1) →
  in_u64 (sealed_total sc + pl_max_rows (pw_limits input)) →
  wf_tree (tree (disk (spool_world w))) → limits_wf (limits self) → in_u64 (limit_global (limits self)) →
  run_with_connector provider input (collection_run context) self hec secret request_id first cg w
    = (w', Ok (RisingSealed c)) →
  ∃ connector executed rows cs segment events s' sc',
    provider_connector provider (cc_connector_id (pw_connection input)) = Ok connector
    ∧ collected connector (collection_request input request_id (Some (ctx_cursor_request context))) rows executed
    ∧ cursors_of rows = Some <$> cs ∧ ordered_above (page_bound (Some (ctx_cursor_request context))) cs
    ∧ published_segment self (spool_world w') segment events
    ∧ row_events hec (pi_output (pw_input input)) (RisingIdentity (pi_input_id (pw_input input))
        (pi_lineage_fingerprint (pw_input input)) (pr_cursor_identity_fingerprint rising)) 0 rows events
    ∧ adopt_orphan s (pw_input input) segment = Ok s' ∧ active_scan s' = Some sc'
    ∧ resume_after sc' = last cs ∧ complete sc' = negb (ex_truncated executed)
    ∧ sealed_total sc' = sealed_total sc + lengthN rows.
Proof using All.
  intros Hv Hwid Hri Hs Ha Hin Hctx Hkwf Hrw Hlim Hnext Hsum Hwf Hlw Hg. unfold run_with_connector, collection_run.
  pose proof Hctx as Hc0. revert Hc0. unfold validate_page_context. rewrite Ha, Hs. cbn [ok_or]. rewrite !ok_bind.
  case_decide as Hx; [done|]. intros _.
  assert (ctx_configuration_generation context = configuration_generation s
    ∧ ctx_checkpoint_generation context = generation (coordinator s) ∧ ctx_attempt_id context = attempt_id (fence a)
    ∧ ctx_page context = next_page sc ∧ ctx_cursor_request context = next_request s rising sc)
    as (E1 & E2 & E3 & E4 & E5) by (split_and!; apply dec_stable; tauto). clear Hx.
  set (request := collection_request input request_id (Some (ctx_cursor_request context))).
  set (cg0 := mkCollecting [] _ _ _). destruct (collect_json_rows provider request first cg0) as [cg1 collection] eqn:Hcol.
  intros Hrun. assert (in_u64 (jr_max_rows request)) as Hmax by (cbn; ulia).
  pose proof (sealed_run_report _ _ _ _ _ _ _ _ _ _ Hwf Hrw Hrun) as ->.
  destruct (page_report _ _ _ cg0 _ _ (ctx_cursor_request context) Hmax eq_refl eq_refl Hcol)
    as (connector & executed & Hcon & Hcoll & _ & Hn & Hnm & _ & _ & Htr & bound & cs & Hbound & Hcs & Hord & Hres & Hcand & _).
  rewrite <- (page_bound_ok _ _ Hbound) in Hord.
  pose proof (collected_cursors_wf connector request (cg_sent cg1) executed _ cs eq_refl Hcoll Hcs) as Hcwf.
  assert (∀ x, checkpoint_candidate c = Some x ∨ scan_resume c = Some x → wf_cursor x) as Hxwf.
  { rewrite Hres, Hcand. intros x [Hx|Hx].
    - apply fmap_Some in Hx as (l & Hl%last_Some_elem_of & ->). rewrite E5. unfold greater_or. cbn [next_request req_committed].
      destruct (committed (coordinator s)) as [k|] eqn:Hk; [case_decide; [by apply Hkwf|]|]; by apply (Forall_forall wf_cursor cs).
    - by apply last_Some_elem_of in Hx; apply (Forall_forall wf_cursor cs). }
  apply sealed_run_publishes in Hrun as (_ & _ & Hne & rising' & cursor & segment & events & Hri' & [= <-] & Hp & Hh & Hcount & Hm & Hev);
    [|done..].
  rewrite Hri in Hri'. injection Hri' as <-. destruct Hh as (Hk & Hf & Hgen & Hb & Hid & Hq).
  assert (is_Some (last cs)) as [l Hl].
  { apply last_is_Some. intros ->. apply Hne. by destruct (cg_sent cg1). }
  destruct (answering_page_adopted s (pw_input input) rising sc a segment
    (metadata_of c (rising_request_fingerprint (pr_cursor_identity_fingerprint rising) (ctx_cursor_request context))))
    as (s' & Hadopt & Hsc'); try done; try congruence; try (unfold view_metadata; by rewrite Hm).
  - rewrite <- Hcount in *. cbn. intros Hz. apply Hne. apply nil_length_inv. unfold lengthN in Hn. cbn in Hz. lia.
  - cbn. by rewrite E5.
  - cbn. rewrite Hcand, Hl, E5. cbn [next_request req_committed fmap option_fmap option_map].
    destruct (committed (coordinator s)); [apply greater_or_ge|done].
  - cbn. cbn in Hnm. ulia.
  - exists connector, executed, (cg_sent cg1), cs, segment, events, s'. eexists.
    do 8 (split; [done|]). split_and!.
    + cbn. by rewrite Hres.
    + cbn. by rewrite Htr.
    + unfold sealed_total. cbn. rewrite rows_sum_app, rows_sum_cons. change (rows_sum []) with 0. rewrite <- Hn. cbn. lia.
Qed.
End Pipeline.
