(* ===== verification/PipelineDemo.v ===== *)
(** * A page from a concrete connector to the coordinator (Pipeline.v)

    The connector of NativeDemo.v under the daemon of DaemonDemo.v. *)

From S2P Require Import StateStoreDemo DaemonDemo NativeDemo.
From S2P Require Export Pipeline.

Local Open Scope N_scope.
Local Open Scope dbx_scope.

#[local] Existing Instance daemon_sha256.
#[local] Existing Instance demo_crypto.
#[local] Existing Instance demo_laws.
#[local] Existing Instance daemon_hec.
#[local] Existing Instance daemon_json.
#[local] Existing Instance demo_ipc.
#[local] Existing Instance demo_chrono.
#[local] Existing Instance demo_serde.

#[local] Instance demo_ipc_widths : ArrowIpcWidths.
Proof.
  intros bytes s b. cbn. case_decide; [|done]. intros [= <-] [= ->]%list_elem_of_singleton.
  repeat constructor; discriminate.
Qed.

Definition prepared0 : Prepared :=
  mkPrepared demo_input (str "n") (str "mssql") (str "s") demo_connection (str "SELECT") (mkPreparedLimits 10 100 (mkDuration 5 0))
    (vreplicate 32 x00).
Definition connecting :=
  run_with_connector demo_provider prepared0 (collection_run context0) spool0 client (Ok tt) (str "r") OperationDone demo_start starting.1.
Definition no_report : CollectionResult := mkCollectionResult [] 0 0 false None None.
Definition connected : CollectionResult :=
  match connecting.2 with Ok (RisingSealed c) => c | _ => no_report end.
Lemma connecting_ok : connecting.2 = Ok (RisingSealed connected).
Proof. vm_compute. reflexivity. Qed.
Lemma connecting_eq :
  run_with_connector demo_provider prepared0 (collection_run context0) spool0 client (Ok tt) (str "r") OperationDone demo_start starting.1
  = (connecting.1, Ok (RisingSealed connected)).
Proof. exact (run_answer _ connecting connecting_ok). Qed.

#[local] Opaque connecting.
Lemma connector_page_is_adopted_witness :
  ∃ rows cs segment s' sc', cursors_of rows = Some <$> cs ∧ ordered_above None cs
    ∧ adopt_orphan state1 demo_input segment = Ok s' ∧ active_scan s' = Some sc' ∧ resume_after sc' = last cs.
Proof.
  destruct (connector_page_is_adopted state1 prepared0 demo_rising scan1 active1 context0 demo_provider spool0 client (Ok tt)
    (str "r") OperationDone demo_start starting.1 connecting.1 connected (proj1 state1_sound) (proj2 state1_sound) eq_refl)
    as (connector & executed & rows & cs & segment & events & s' & sc' & _ & _ & Hcs & Hord & _ & _ & Ha & Hs & Hr & _).
  - vm_compute. reflexivity.
  - vm_compute. reflexivity.
  - reflexivity.
  - vm_compute. reflexivity.
  - discriminate.
  - repeat split; vm_compute; discriminate.
  - vm_compute. reflexivity.
  - vm_compute. discriminate.
  - vm_compute. discriminate.
  - exact starting_wf.
  - split; vm_compute; discriminate.
  - vm_compute. discriminate.
  - exact connecting_eq.
  - exists rows, cs, segment, s', sc'. split; [exact Hcs|]. split; [exact Hord|]. split; [exact Ha|]. split; [exact Hs|exact Hr].
Defined.
