(* ===== verification/SecretStore.v ===== *)
(** * Local secrets (crates/dbx-rs-secure-store/src/store.rs and connector-sdk/src/secret.rs)

    A store keeps one file per secret, encrypted under a master key file and bound to its
    name.  A name is the bytes of its text.  Clearing memory ([fill(0)]) has no counterpart. *)

From S2P Require Export FileReads.

Local Open Scope N_scope.
Local Open Scope dbx_scope.

(** ** The host: its disk and the outcomes of [SystemRandom::fill] *)
Record host := mkHost {
  host_disk : fs;
  host_randoms : list (option (list byte));
}.
Abbreviation hosted A := (st host SecureStoreError A).

Definition on_host {E A} (m : st fs E A) : st host E A := λ h,
  let '(d, r) := m (host_disk h) in (mkHost d (host_randoms h), r).
(** Nothing left counts as a failure of the generator. *)
Definition random_fill (n : nat) (e : SecureStoreError) : hosted (array n) := λ h,
  match host_randoms h with
  | [] => (h, Err e)
  | None :: l => (mkHost (host_disk h) l, Err e)
  | Some bytes :: l => (mkHost (host_disk h) l, Ok (array_of_list n bytes))
  end.

(** ** Constants *)
Definition MASTER_KEY_BYTES : nat := 32.
Definition NONCE_BYTES : nat := 12.
Definition MAGIC : list byte := String.list_byte_of_string "DBXRSSEC".
Definition VERSION : byte := x01.
Definition MAX_SECRET_BYTES : N := 16 * 1024.
Definition MAX_SECRET_FILE_BYTES : N := MAX_SECRET_BYTES + 64.

Definition invalid_secret_file : SecureStoreError :=
  config_error "DBX-RS-SECRET-0009" "secret_decrypt" "protected secret file is invalid or cannot be authenticated".
Definition random_failure (code stage : string) : SecureStoreError :=
  SecureStoreError_new code "internal" stage "secure random generation failed" false false.

(** ** Names and values *)
Definition name_byte (b : byte) : bool :=
  let n := Byte.to_N b in
  bool_decide (48 ≤ n ≤ 57 ∨ 65 ≤ n ≤ 90 ∨ 97 ≤ n ≤ 122) || bool_decide (b = x2d ∨ b = x5f ∨ b = x2e).
Definition validate_name (n : name) : result SecureStoreError () :=
  reject (config_error "DBX-RS-SECRET-0008" "secret_name" "secret name is invalid")
    when (n = [] ∨ 128 < lengthN n ∨ forallb name_byte n = false);;
  mret tt.

Definition line_ending (b : byte) : bool := bool_decide (b = x0a ∨ b = x0d).
Fixpoint drop_line_endings (reversed : list byte) : list byte :=
  match reversed with b :: l => if line_ending b then drop_line_endings l else reversed | [] => [] end.
Definition trim_line_endings (bytes : list byte) : list byte := reverse (drop_line_endings (reverse bytes)).

Definition aad (n : name) : list byte := String.list_byte_of_string "dbx-rs-local-secret-v1" ++ [x00] ++ n.

Section SecretStore.
Context `{Crypto}.

Definition encryption_key (bytes : array 32) : result SecureStoreError aead_key :=
  ok_or (SecureStoreError_new "DBX-RS-SECRET-0007" "internal" "secret_crypto"
           "secret encryption key initialization failed" false false) (unbound_key bytes).

Record SecretStore := mkSecretStore {
  key : array 32;
  directory : path;
}.
Definition secret_path (self : SecretStore) (n : name) : path :=
  join (directory self) (n ++ String.list_byte_of_string ".secret").

(** ** The master key *)
Definition load_master_key (p : path) : secure (array 32) :=
  bytes ← read_private_limited p (N.of_nat MASTER_KEY_BYTES);
  reject (config_error "DBX-RS-SECRET-0006" "master_key_load" "stored master key has an invalid size")
    when (length bytes ≠ MASTER_KEY_BYTES);;
  mret (array_of_list 32 bytes).
Definition create_master_key (p : path) : hosted (array 32) :=
  key ← random_fill MASTER_KEY_BYTES (random_failure "DBX-RS-SECRET-0005" "master_key_create");
  r ← try_call (on_host (write_new p (vec_to_list key) MODE_PRIVATE_FILE));
  match r with
  | Ok _ => mret key
  | Err error =>
      present ← on_host (path_exists p);
      if present : bool then on_host (load_master_key p) else mthrow error
  end.

(** [SecretStore::open]. *)
Definition store_open (master_key_file dir : path) : hosted SecretStore :=
  _ ← on_host (ensure_private_dir dir);
  present ← on_host (path_exists master_key_file);
  key ← (if present : bool then on_host (load_master_key master_key_file) else create_master_key master_key_file);
  mret (mkSecretStore key dir).
(** [SecretStore::open_existing]. *)
Definition store_open_existing (master_key_file dir : path) : secure SecretStore :=
  _ ← validate_private_dir dir;
  key ← load_master_key master_key_file;
  mret (mkSecretStore key dir).

(** ** Secrets *)
Definition set (self : SecretStore) (n : name) (secret : list byte) : hosted () :=
  _ ← st_lift (validate_name n);
  let secret := trim_line_endings secret in
  reject (config_error "DBX-RS-SECRET-0001" "secret_input" "secret is empty or exceeds the size limit")
    when (secret = [] ∨ MAX_SECRET_BYTES < lengthN secret);;
  nonce_bytes ← random_fill NONCE_BYTES (random_failure "DBX-RS-SECRET-0002" "secret_encrypt");
  k ← st_lift (encryption_key (key self));
  sealed ← st_lift (ok_or (SecureStoreError_new "DBX-RS-SECRET-0003" "internal" "secret_encrypt"
                             "secret encryption failed" false false) (seal k nonce_bytes (aad n) secret));
  let protected := MAGIC ++ [VERSION] ++ vec_to_list nonce_bytes ++ sealed in
  on_host (atomic_write (secret_path self n) protected MODE_PRIVATE_FILE).

(** What [resolve] makes of the bytes of a file; every slice is within the length checked first. *)
Definition open_secret (self : SecretStore) (n : name) (protected : list byte) : result SecureStoreError (list byte) :=
  let prefix_bytes := (length MAGIC + 1 + NONCE_BYTES)%nat in
  reject invalid_secret_file
    when ((length protected ≤ prefix_bytes + tag_len)%nat ∨ take (length MAGIC) protected ≠ MAGIC
          ∨ protected !! length MAGIC ≠ Some VERSION);;
  let nonce_bytes := array_of_list NONCE_BYTES (slice (length MAGIC + 1) prefix_bytes protected) in
  k ← encryption_key (key self);
  secret ← ok_or invalid_secret_file (open k nonce_bytes (aad n) (drop prefix_bytes protected));
  reject invalid_secret_file when (secret = [] ∨ MAX_SECRET_BYTES < lengthN secret);;
  mret secret.

Definition LOCAL : list byte := String.list_byte_of_string "local:".
Definition resolve (self : SecretStore) (reference : list byte) : secure (list byte) :=
  reject (config_error "DBX-RS-SECRET-0004" "secret_resolve" "secret reference is not a local protected reference")
    when (starts_with reference LOCAL = false);;
  let n := drop (length LOCAL) reference in
  _ ← st_lift (validate_name n);
  protected ← read_private_limited (secret_path self n) MAX_SECRET_FILE_BYTES;
  st_lift (open_secret self n protected).

Definition secret_matches (self : SecretStore) (n : name) (expected : list byte) : secure bool :=
  let p := secret_path self n in
  present ← path_exists p;
  if negb present then mret false else
  resolved ← resolve self (LOCAL ++ n);
  mret (bool_decide (resolved = expected)).
End SecretStore.

(** * Properties *)

(** ** Disk operations of the host *)
Lemma on_host_run {E A} (m : st fs E A) h h' r :
  on_host m h = (h', r) → m (host_disk h) = (host_disk h', r) ∧ host_randoms h' = host_randoms h.
Proof. unfold on_host. destruct (m (host_disk h)). by intros [= <- <-]. Qed.

Lemma random_fill_run n e h h' r :
  random_fill n e h = (h', r) → host_disk h' = host_disk h ∧ (r = Err e ∨ ∃ bytes, r = Ok (array_of_list n bytes)).
Proof.
  unfold random_fill. destruct (host_randoms h) as [|[bytes|] l]; intros [= <- <-]; (split; [done|]); [by left| |by left].
  right. by exists bytes.
Qed.

(** An atomic write leaves every path alone that is not its own, above it or a staging file. *)
Lemma atomic_write_apart p q bytes mode s s' r :
  wf_tree (tree s) → atomic_write p bytes mode s = (s', r) → q ≠ p → ¬ staging p q → ¬ q `prefix_of` p →
  tree s' !! q = tree s !! q ∧ ∀ v, v ∈ versions s' → ∃ v0, v0 ∈ versions s ∧ v0 !! q = v !! q.
Proof.
  intros Hwf Hrun Hne Hst Hpre. destruct (atomic_write_run _ _ _ _ _ _ Hwf Hrun) as [[_ [Ht Hv]%evolves_paths] _].
  pose proof (atomic_writes_other p bytes mode (tree s) q) as Hno. split.
  - destruct (Ht q) as [|E]; [done|]. by destruct (Hno _ Hne Hst Hpre E).
  - intros v Hin. destruct (Hv v q Hin) as [|E]; [done|]. by destruct (Hno _ Hne Hst Hpre E).
Qed.

(** A staging file ends in [p], a secret and a receipt in [t]. *)
Lemma staging_last p q : staging p q → ∃ d l, q = d ++ [l ++ [x70]].
Proof.
  intros (d & f & pid & sequence & _ & _ & ->). exists d.
  exists (ch x2e ++ f ++ ch x2e ++ decimal pid ++ ch x2e ++ decimal sequence ++ ch x2e ++ String.list_byte_of_string "tm").
  unfold temp_name. by rewrite <- !app_assoc.
Qed.
Lemma not_staging_t p d n : ¬ staging p (d ++ [n ++ [x74]]).
Proof. intros (d' & l & E)%staging_last. apply app_inj_2 in E as [_ [= E]]; [|done]. by apply app_inj_tail in E as [_ ?]. Qed.

(** A file that is there is only missed when the call fails. *)
Lemma path_exists_file {E} p s s' m c y :
  wf_tree (tree s) → tree s !! p = Some (Regular m c y) → (next_fault (faults s)).1 = WriteOk →
  path_exists (E := E) p s = (s', Ok false) → False.
Proof.
  intros Hwf En Hf Hrun. unfold path_exists, mbind, st_bind, try_call, syscall in Hrun.
  destruct (next_fault (faults s)) as [o l]. cbn in Hf. subst o. rewrite locate_eq, set_faults_tree in Hrun.
  assert (FileSystem.resolve MAX_LINKS (tree s) true p = Ok p) as Hres.
  { destruct p as [|x d _] using rev_ind; [by apply resolve_dir; [|apply wf_root]|].
    destruct (wf_parent _ Hwf _ _ _ En) as [m' Em]. apply resolve_child; [done|by exists m'|right].
    by apply (plain_regular _ _ _ _ _ Hwf En). }
  rewrite Hres in Hrun. cbv beta iota in Hrun. rewrite node_at_eq, set_faults_tree, En in Hrun. done.
Qed.

(** ** Names *)
Lemma validate_name_ok n u :
  validate_name n = Ok u ↔ n ≠ [] ∧ lengthN n ≤ 128 ∧ forallb name_byte n = true.
Proof.
  unfold validate_name. destruct u. case_decide as Hn; split; try done.
  - intros (H1 & H2 & H3). destruct Hn as [?|[?|?]]; [done|lia|congruence].
  - intros _. split_and!; [tauto|apply N.nlt_ge; tauto|]. destruct (forallb name_byte n); tauto.
Qed.

(** ** Line endings *)
Lemma drop_line_endings_idemp l : drop_line_endings (drop_line_endings l) = drop_line_endings l.
Proof. induction l as [|b l IH]; [done|]. cbn. destruct (line_ending b) eqn:E; [done|]. cbn. by rewrite E. Qed.
Lemma trim_line_endings_idemp v : trim_line_endings (trim_line_endings v) = trim_line_endings v.
Proof. unfold trim_line_endings. by rewrite reverse_involutive, drop_line_endings_idemp. Qed.

(** ** The file of a secret *)
Section Properties.
Context `{Crypto, !CryptoLaws}.

Definition sealed_file (magic : list byte) (version : byte) (nonce : array 12) (sealed : list byte) : list byte :=
  magic ++ [version] ++ vec_to_list nonce ++ sealed.

(** A file of this layout is taken apart into its nonce and its sealed text. *)
Lemma sealed_file_parts magic version bytes :
  length magic = 8%nat → (21 ≤ length bytes)%nat → take 8 bytes = magic → bytes !! 8%nat = Some version →
  bytes = sealed_file magic version (array_of_list 12 (slice 9 21 bytes)) (drop 21 bytes).
Proof using Type.
  intros Hm Hlen Ht Hv. unfold sealed_file. rewrite array_of_list_id by (rewrite length_slice; lia).
  assert (drop 8 bytes = version :: drop 9 bytes) as E8 by (by apply drop_S).
  rewrite <- (take_drop 8 bytes) at 1. by rewrite Ht, E8, (drop_slice 9 21) by lia.
Qed.
Lemma sealed_file_slices magic version nonce sealed :
  length magic = 8%nat →
  let bytes := sealed_file magic version nonce sealed in
  take 8 bytes = magic ∧ bytes !! 8%nat = Some version ∧ array_of_list 12 (slice 9 21 bytes) = nonce
  ∧ drop 21 bytes = sealed ∧ length bytes = (21 + length sealed)%nat.
Proof using Type.
  intros Hm bytes. subst bytes. unfold sealed_file. split_and!.
  - by apply take_app_length'.
  - rewrite lookup_app_r by lia. by rewrite Hm.
  - rewrite (slice_skip 8) by lia. rewrite (slice_skip 1) by done. cbn [Nat.sub].
    rewrite slice_here by (by rewrite length_vec_to_list). apply array_of_to_list.
  - rewrite !app_assoc, drop_app_length'; [done|]. rewrite !length_app, Hm, length_vec_to_list. done.
  - rewrite !length_app, Hm, length_vec_to_list. cbn. lia.
Qed.

(** What is opened is exactly what is sealed: the canonical file of the value. *)
Lemma open_secret_exact self n bytes v :
  open_secret self n bytes = Ok v ↔
  ∃ nonce k sealed, unbound_key (key self) = Some k ∧ seal k nonce (aad n) v = Some sealed
    ∧ bytes = sealed_file MAGIC VERSION nonce sealed ∧ v ≠ [] ∧ lengthN v ≤ MAX_SECRET_BYTES.
Proof using All.
  unfold open_secret. change (length MAGIC) with 8%nat. change NONCE_BYTES with 12%nat. change (8 + 1)%nat with 9%nat.
  change (9 + 12)%nat with 21%nat. split.
  - case_decide as Hc; [done|]. intros (k & Hk%ok_or_ok & Hv)%result_bind_ok.
    apply result_bind_ok in Hv as (v' & Hv'%ok_or_ok%seal_open & Hv). case_decide as Hl; [done|]. injection Hv as ->.
    exists (array_of_list 12 (slice 9 21 bytes)), k, (drop 21 bytes).
    assert (¬ (length bytes ≤ 21 + tag_len)%nat ∧ take 8 bytes = MAGIC ∧ bytes !! 8%nat = Some VERSION) as (H1 & H2 & H3).
    { split_and!; [tauto|destruct (decide (take 8 bytes = MAGIC)); tauto|destruct (decide (bytes !! 8%nat = Some VERSION)); tauto]. }
    split_and!; [done|done|apply sealed_file_parts; [done|lia|done|done]|tauto|apply N.nlt_ge; tauto].
  - intros (nonce & k & sealed & Hk & Hs & -> & Hne & Hlen).
    destruct (sealed_file_slices MAGIC VERSION nonce sealed eq_refl) as (E1 & E2 & E3 & E4 & E5).
    pose proof (seal_length _ _ _ _ _ Hs) as Hsl.
    assert (0 < length v)%nat as Hpos by (destruct v; [done|cbn; lia]).
    rewrite decide_False by (rewrite E1, E2, E5; unfold tag_len; intros [?|[?|?]]; [lia|done|done]).
    rewrite E3, E4. apply result_bind_ok. exists k. split; [by apply ok_or_ok|]. apply result_bind_ok. exists v.
    split; [by apply ok_or_ok, open_seal|]. by rewrite decide_False by (intros [?|?]; [done|lia]).
Qed.

(** The node is a protected file that [resolve] opens to the value. *)
Definition secret_is (self : SecretStore) (n : name) (v : list byte) (o : option node) : Prop :=
  ∃ m bytes y, o = Some (Regular m bytes y) ∧ N.land m OTHERS = 0 ∧ lengthN bytes ≤ MAX_SECRET_FILE_BYTES
    ∧ open_secret self n bytes = Ok v.

Lemma secret_is_fun self n v v' o : secret_is self n v o → secret_is self n v' o → v = v'.
Proof using Type. intros (? & ? & ? & -> & _ & _ & E) (? & ? & ? & [= <- <- <-] & _ & _ & E'). congruence. Qed.

Lemma ro_resolve self reference : read_only (resolve self reference).
Proof using Type. unfold resolve, read_private_limited. read_only. Qed.
Lemma ro_secret_matches self n expected : read_only (secret_matches self n expected).
Proof using Type. unfold secret_matches. pose proof ro_resolve. read_only. Qed.

Lemma resolve_ok self n s s' v :
  wf_tree (tree s) → resolve self (LOCAL ++ n) s = (s', Ok v) →
  same_disk s s' ∧ validate_name n = Ok tt ∧ secret_is self n v (tree s !! secret_path self n).
Proof using Type.
  intros Hwf Hrun. split; [by eapply read_only_same; [apply ro_resolve|]|]. unfold resolve in Hrun.
  rewrite drop_app_length in Hrun. case_decide; [done|].
  apply st_bind_ok in Hrun as ([] & s1 & [-> Hn]%st_lift_ok & Hrun).
  apply st_bind_ok in Hrun as (bytes & s1 & (_ & (m & y & E & Hm) & Hlen & _)%read_limited_ok & [_ Ho]%st_lift_ok); [|done].
  split; [done|]. exists m, bytes, y. split_and!; [done|by apply Hm|done|done].
Qed.

Lemma resolve_quiet self n s v :
  quiet s → wf_tree (tree s) → validate_name n = Ok tt → secret_is self n v (tree s !! secret_path self n) →
  resolve self (LOCAL ++ n) s = (s, Ok v).
Proof using Type.
  intros Hq Hwf Hn (m & bytes & y & E & Hm & Hlen & Ho). unfold resolve. rewrite drop_app_length.
  rewrite decide_False.
  2: { assert (starts_with (LOCAL ++ n) LOCAL = true) as -> by (apply starts_with_true; by eexists). done. }
  rewrite (st_lift_run _ _ _ tt) by done.
  rewrite (st_bind_run _ _ _ s bytes); [by unfold st_lift; rewrite Ho|].
  eapply quiet_read_limited_inner; [done|done|by eapply plain_regular|done|done|done].
Qed.

Lemma secret_matches_ok self n expected s s' same :
  wf_tree (tree s) → secret_matches self n expected s = (s', Ok same) →
  same_disk s s' ∧ (same = true → secret_is self n expected (tree s !! secret_path self n)).
Proof using Type.
  intros Hwf Hrun. split; [by eapply read_only_same; [apply ro_secret_matches|]|]. intros ->.
  unfold secret_matches in Hrun. apply st_bind_ok in Hrun as (present & s1 & Hp & Hrun).
  eapply read_only_same in Hp; [|apply ro_path_exists]. destruct present; [|done]. cbn [negb] in Hrun.
  apply st_bind_ok in Hrun as (v & s2 & (_ & _ & Hv)%resolve_ok & Hrun); [|by rewrite (same_disk_tree _ _ Hp)].
  rewrite (same_disk_tree _ _ Hp) in Hv. injection Hrun as _ Hrun. case_bool_decide; [by subst|done].
Qed.

(** [set] either leaves the disk alone or writes the file of the trimmed value. *)
Lemma set_run self n secret h h' r :
  set self n secret h = (h', r) →
  (host_disk h' = host_disk h ∧ is_ok r = false)
  ∨ ∃ bytes, atomic_write (secret_path self n) bytes MODE_PRIVATE_FILE (host_disk h) = (host_disk h', r)
      ∧ validate_name n = Ok tt
      ∧ secret_is self n (trim_line_endings secret) (Some (Regular MODE_PRIVATE_FILE bytes true)).
Proof using All.
  intros Hrun. unfold set in Hrun. cbn zeta in Hrun. set (v := trim_line_endings secret) in *.
  unfold mbind at 1, st_bind at 1, st_lift at 1 in Hrun.
  destruct (validate_name n) as [[]|e] eqn:En; [|injection Hrun as <- <-; by left].
  case_decide as Hl; [injection Hrun as <- <-; by left|].
  unfold mbind at 1, st_bind at 1 in Hrun.
  destruct (random_fill _ _ h) as [h1 rn] eqn:Er. apply random_fill_run in Er as [Hd Er].
  destruct Er as [->|[nonce ->]]; [injection Hrun as <- <-; by left|].
  unfold mbind at 1, st_bind at 1, st_lift at 1 in Hrun.
  destruct (encryption_key (key self)) as [k|e] eqn:Ek; [|injection Hrun as <- <-; by left].
  unfold mbind at 1, st_bind at 1, st_lift at 1 in Hrun.
  destruct (seal k _ (aad n) v) as [sealed|] eqn:Es; [|injection Hrun as <- <-; by left]. cbn [ok_or] in Hrun.
  apply on_host_run in Hrun as [Hrun _]. rewrite Hd in Hrun. right.
  exists (sealed_file MAGIC VERSION (array_of_list NONCE_BYTES nonce) sealed). split_and!; [exact Hrun|done|].
  apply ok_or_ok in Ek. assert (lengthN v ≤ MAX_SECRET_BYTES) as Hmax by (apply N.nlt_ge; tauto).
  eexists _, _, _. split_and!; [reflexivity|done| |].
  - pose proof (seal_length _ _ _ _ _ Es) as Hsl.
    destruct (sealed_file_slices MAGIC VERSION (array_of_list NONCE_BYTES nonce) sealed eq_refl) as (_ & _ & _ & _ & El).
    unfold lengthN. rewrite El, Hsl. unfold lengthN, MAX_SECRET_FILE_BYTES in *. lia.
  - apply open_secret_exact. exists (array_of_list NONCE_BYTES nonce), k, sealed. split_and!; try done. tauto.
Qed.

(** C0: storing a secret is atomic and exact.  Under every failure and at any crash the file
    of the name is, in every version of the disk, what some version had before or a file
    that opens, for this name, to the value without its line endings; no other file but
    staging files changes.  Once [set] has succeeded it is the new file in every version,
    and [resolve] returns the value. *)
Theorem set_resolves self n secret h h' r :
  wf_tree (tree (host_disk h)) → set self n secret h = (h', r) →
  let v := trim_line_endings secret in
  let s := host_disk h in let s' := host_disk h' in let p := secret_path self n in
  wf_tree (tree s')
  ∧ (∀ t, t ∈ versions s' → (∃ t0, t0 ∈ versions s ∧ t0 !! p = t !! p) ∨ secret_is self n v (t !! p))
  ∧ (∀ q, q ≠ p → ¬ staging p q → ¬ q `prefix_of` p → tree s' !! q = tree s !! q)
  ∧ (r = Ok tt → (∀ t, t ∈ versions s' → secret_is self n v (t !! p))
      ∧ resolve self (LOCAL ++ n) (set_faults [] s') = (set_faults [] s', Ok v)).
Proof using All.
  intros Hwf Hrun. cbn zeta. destruct (set_run _ _ _ _ _ _ Hrun) as [[-> Hr]|(bytes & Hw & Hn & Hs)].
  { split; [done|]. split; [intros t Ht; left; by exists t|]. split; [done|]. intros ->. done. }
  pose proof (atomic_write_run _ _ _ _ _ _ Hwf Hw) as [[Hwf' _] _].
  destruct (atomic_write_self _ _ _ _ _ _ Hwf Hw) as (_ & Hv & Hok). split; [done|]. split; [|split].
  - intros t [|E]%Hv; [by left|right]. by rewrite E.
  - intros q H1 H2 H3. by apply (atomic_write_apart _ _ _ _ _ _ _ Hwf Hw H1 H2 H3).
  - intros [Hall _]%Hok. assert (∀ t, t ∈ versions (host_disk h') → secret_is self n (trim_line_endings secret) (t !! secret_path self n)) as Hsec.
    { intros t E%Hall. by rewrite E. }
    split; [exact Hsec|]. apply resolve_quiet; [done|done|done|]. apply (Hsec (tree (host_disk h'))). left.
Qed.
End Properties.
