(* ===== verification/Deployment.v ===== *)
(** * Deployed credentials (crates/dbx-rs-secure-store/src/deployment.rs)

    A credential is sealed for enrolled installations and signed by the deployment
    authority; an installation verifies, decrypts and imports it into its [SecretStore],
    keeping an authenticated receipt of the revision it imported.  HPKE, Ed25519 and X.509
    are parameters. *)

From stdpp Require Import sorting.
From S2P Require Export Text SecretStore.

Local Open Scope N_scope.
Local Open Scope dbx_scope.

(** ** Parameters: the hpke, ring and x509-cert crates

    A public key is its 32 bytes.  [setup_sender] takes the randomness it draws. *)
Class Hpke := {
  private_key : Type;
  hpke_context : Type;
  sk_to_pk : private_key → array 32;
  private_key_to_bytes : private_key → array 32;
  private_key_from_bytes : list byte → option private_key;
  public_key_from_bytes : array 32 → bool;
  encapped_key_from_bytes : list byte → bool;
  setup_sender : array 32 → list byte → list byte → option (list byte * hpke_context);
  context_seal : hpke_context → list byte → list byte → option (list byte);
  setup_receiver : private_key → list byte → list byte → option hpke_context;
  context_open : hpke_context → list byte → list byte → option (list byte);
}.
(** What is sealed for the public key of an identity, the identity opens; encapsulated keys
    are well formed; a private key is read back from its bytes. *)
Class HpkeLaws `{Hpke} : Prop := {
  hpke_open_seal sk info ephemeral encapped tx text a sealed :
    setup_sender (sk_to_pk sk) info ephemeral = Some (encapped, tx) → context_seal tx text a = Some sealed →
    ∃ rx, setup_receiver sk encapped info = Some rx ∧ context_open rx sealed a = Some text;
  setup_sender_encapped pk info ephemeral encapped tx :
    setup_sender pk info ephemeral = Some (encapped, tx) → encapped_key_from_bytes encapped = true;
  private_key_bytes sk : private_key_from_bytes (vec_to_list (private_key_to_bytes sk)) = Some sk;
}.

Class Ed25519 := {
  key_pair : Type;
  key_pair_from_pkcs8 : list byte → option key_pair;
  key_pair_public : key_pair → list byte;
  ed25519_sign : key_pair → list byte → array 64;
  ed25519_verify : list byte → list byte → list byte → bool;
}.
Class Ed25519Laws `{Ed25519} : Prop := {
  verify_sign pair message : ed25519_verify (key_pair_public pair) message (vec_to_list (ed25519_sign pair message)) = true;
}.

(** An algorithm is its object identifier and whether it has parameters; bit strings that
    are not whole bytes and encoding failures are [None]. *)
Record Certificate := mkCertificate {
  tbs_issuer : list byte;
  tbs_subject : list byte;
  signature_algorithm : list N * bool;
  tbs_signature : list N * bool;
  subject_public_key_algorithm : list N * bool;
  subject_public_key : option (list byte);
  certificate_signature : option (list byte);
  tbs_to_der : option (list byte);
}.
Class X509 := certificate_from_der : list byte → option Certificate.

(** ** Constants *)
Definition PUBLIC_KEY_BYTES : N := 32.
Definition SIGNATURE_BYTES : N := 64.
Definition MAX_CERTIFICATE_BYTES : N := 16 * 1024.
Definition MAX_PRIVATE_KEY_BYTES : N := 4 * 1024.
Definition MAX_RECIPIENTS : N := 256.
Definition MAX_SECRET_NAME_BYTES : N := 128.
Definition MAX_ENVELOPE_BYTES : N := 128 * 1024.
Definition MAX_DEPLOYMENT_FILES : N := 1024.
Definition IDENTITY_MAGIC : list byte := String.list_byte_of_string "DBXRSIDN".
Definition IDENTITY_VERSION : byte := x01.
Definition IDENTITY_FILE_BYTES : N := 8 + 1 + 32.
Definition RECIPIENT_PREFIX : rust_string := str "dbxrs-hpke-x25519-v1:".
Definition RECIPIENT_STRING_BYTES : N := 21 + PUBLIC_KEY_BYTES * 2.
Definition ENVELOPE_MAGIC : list byte := String.list_byte_of_string "DBXRSDPL".
Definition ENVELOPE_VERSION : byte := x01.
Definition CONTENT_TAG_BYTES : N := 16.
Definition RECIPIENT_ID_BYTES : N := 32.
Definition HPKE_ENCAPPED_KEY_BYTES : N := 32.
Definition HPKE_WRAPPED_KEY_BYTES : N := 32 + CONTENT_TAG_BYTES.
Definition RECIPIENT_ENTRY_BYTES : N := RECIPIENT_ID_BYTES + HPKE_ENCAPPED_KEY_BYTES + HPKE_WRAPPED_KEY_BYTES.
Definition ENVELOPE_HEADER_BYTES : N := 8 + 1 + 2 + 12 + 4.
Definition SIGNATURE_DOMAIN : list byte := String.list_byte_of_string "dbx-rs/deployment-envelope/v1" ++ [x00].
Definition HPKE_INFO : list byte := String.list_byte_of_string "dbx-rs/deployment-hpke-wrap/v1" ++ [x00].
Definition HPKE_AAD_DOMAIN : list byte := String.list_byte_of_string "dbx-rs/deployment-hpke-recipient/v1" ++ [x00].
Definition CONTENT_AAD_DOMAIN : list byte := String.list_byte_of_string "dbx-rs/deployment-content/v1" ++ [x00].
Definition PAYLOAD_MAGIC : list byte := String.list_byte_of_string "DBXRSPAY".
Definition PAYLOAD_VERSION : byte := x01.
Definition PAYLOAD_HEADER_BYTES : N := 8 + 1 + 8 + 2 + 4.
Definition MAX_PAYLOAD_BYTES : N := PAYLOAD_HEADER_BYTES + MAX_SECRET_NAME_BYTES + MAX_SECRET_BYTES.
Definition RECEIPT_MAGIC : list byte := String.list_byte_of_string "DBXRSRCP".
Definition RECEIPT_VERSION : byte := x01.
Definition RECEIPT_PLAINTEXT_BYTES : N := 8 + 32.
Definition RECEIPT_FILE_BYTES : N := 8 + 1 + 12 + RECEIPT_PLAINTEXT_BYTES + 16.
Definition RECEIPT_AAD_DOMAIN : list byte := String.list_byte_of_string "dbx-rs/deployment-receipt/v1" ++ [x00].
Definition WRITER_LOCK_FILE : name := String.list_byte_of_string ".writer.lock".
Definition ED25519_OID : list N := [1; 3; 101; 112].

(** ** Errors *)
Definition authority_invalid : SecureStoreError :=
  config_error "DBX-RS-DEPLOY-0002" "deployment_authority" "deployment authority public material is invalid".
Definition signer_invalid : SecureStoreError :=
  config_error "DBX-RS-DEPLOY-0003" "deployment_signer" "deployment authority private key is invalid or does not match this binary".
Definition recipient_invalid : SecureStoreError :=
  config_error "DBX-RS-DEPLOY-0004" "deployment_recipient" "deployment recipient set is invalid".
Definition deployment_input_invalid : SecureStoreError :=
  config_error "DBX-RS-DEPLOY-0005" "deployment_secret" "deployment secret name, revision, or value is invalid".
Definition deployment_encrypt_error : SecureStoreError :=
  SecureStoreError_new "DBX-RS-DEPLOY-0006" "internal" "deployment_encrypt" "deployment secret encryption failed" false false.
Definition envelope_invalid : SecureStoreError :=
  config_error "DBX-RS-DEPLOY-0007" "deployment_envelope" "deployment credential envelope is invalid".
Definition signature_invalid : SecureStoreError :=
  config_error "DBX-RS-DEPLOY-0008" "deployment_signature" "deployment credential signature is invalid".
Definition decrypt_invalid : SecureStoreError :=
  config_error "DBX-RS-DEPLOY-0009" "deployment_decrypt" "deployment credential cannot be decrypted by this installation".
Definition payload_invalid : SecureStoreError :=
  config_error "DBX-RS-DEPLOY-0010" "deployment_payload" "decrypted deployment credential payload is invalid".
Definition identity_invalid : SecureStoreError :=
  config_error "DBX-RS-DEPLOY-0011" "deployment_identity" "installation deployment identity is invalid".
Definition receipt_invalid : SecureStoreError :=
  config_error "DBX-RS-DEPLOY-0012" "deployment_receipt" "deployment credential receipt is invalid or cannot be authenticated".
Definition receipt_crypto_error : SecureStoreError :=
  SecureStoreError_new "DBX-RS-DEPLOY-0013" "internal" "deployment_receipt" "deployment credential receipt encryption failed" false false.
Definition revision_conflict : SecureStoreError :=
  config_error "DBX-RS-DEPLOY-0014" "deployment_revision" "deployment credential revision conflicts with authenticated state".
Definition local_secret_conflict : SecureStoreError :=
  config_error "DBX-RS-DEPLOY-0015" "deployment_import" "deployment credential conflicts with an unmanaged local secret".
Definition deployment_directory_invalid : SecureStoreError :=
  config_error "DBX-RS-DEPLOY-0016" "deployment_scan" "deployment credential directory contains an invalid entry or too many envelopes".

(** ** Data *)
Record DeploymentAuthority := mkAuthority {
  certificate_der : list byte;
  public_key : array 32;
  fingerprint : array 32;
}.
Inductive DeploymentImportPolicy := RequireAbsentOrMatching | ReplaceExisting.
Inductive DeploymentImportResult :=
  | Imported (n : name) (revision : N)
  | AlreadyCurrent (n : name) (revision : N)
  | Repaired (n : name) (revision : N)
  | Stale (n : name) (envelope_revision current_revision : N).
Record DeploymentReconcileSummary := mkReconcile {
  rs_files : N; rs_imported : N; rs_already_current : N; rs_repaired : N; rs_stale : N;
}.
Record DeployedSecret := mkDeployed {
  ds_name : name;
  ds_revision : N;
  ds_secret : list byte;
  ds_envelope_digest : array 32;
}.
Record EnvelopeLayout := mkLayout {
  recipient_count : N;
  layout_nonce : array 12;
  content_start : N;
  unsigned_len : N;
}.
Record Receipt := mkReceipt { rc_revision : N; rc_envelope_digest : array 32 }.
#[global] Instance DeploymentImportPolicy_eq_dec : EqDecision DeploymentImportPolicy.
Proof. solve_decision. Defined.

(** ** Codecs *)
Definition lowercase_hex : list byte → list byte := encode_hex.
Definition decode_lowercase_hex_32 (value : rust_string) : option (array 32) :=
  if decide (str_len value ≠ PUBLIC_KEY_BYTES * 2 ∨ forallb (λ c, bool_decide (c < 128)) value = false) then None
  else array_of_list 32 <$> decode_hex_loop (utf8_bytes value).
Definition hpke_aad (recipient_id : array 32) : list byte := HPKE_AAD_DOMAIN ++ vec_to_list recipient_id.
Definition content_aad (envelope_prefix : list byte) : list byte := CONTENT_AAD_DOMAIN ++ envelope_prefix.
Definition receipt_aad (n : name) : list byte := RECEIPT_AAD_DOMAIN ++ n.
Definition receipt_path (dir : path) (n : name) : path := join dir (n ++ String.list_byte_of_string ".receipt").
Definition sliceN (a b : N) (l : list byte) : list byte := slice (N.to_nat a) (N.to_nat b) l.

Section Deployment.
Context `{Crypto, Sha256, Hpke, Ed25519, X509}.

Definition signature_message (unsigned_envelope : list byte) : list byte :=
  vec_to_list (sha256 (SIGNATURE_DOMAIN ++ unsigned_envelope)).
Definition deployment_recipient_id (pk : array 32) : array 32 := sha256 (vec_to_list pk).

(** ** Authority and signer *)
Definition validate_authority_certificate (der pk : list byte) : result SecureStoreError () :=
  certificate ← ok_or authority_invalid (certificate_from_der der);
  subject_key ← ok_or authority_invalid (subject_public_key certificate);
  signature ← ok_or authority_invalid (certificate_signature certificate);
  reject authority_invalid when (tbs_issuer certificate ≠ tbs_subject certificate
    ∨ signature_algorithm certificate ≠ (ED25519_OID, false)
    ∨ tbs_signature certificate ≠ (ED25519_OID, false)
    ∨ subject_public_key_algorithm certificate ≠ (ED25519_OID, false)
    ∨ subject_key ≠ pk);;
  signed ← ok_or authority_invalid (tbs_to_der certificate);
  reject authority_invalid when (ed25519_verify pk signed signature = false);;
  mret tt.
Definition DeploymentAuthority_from_parts (der pk : list byte) : result SecureStoreError DeploymentAuthority :=
  reject authority_invalid when (der = [] ∨ MAX_CERTIFICATE_BYTES < lengthN der
    ∨ lengthN pk ≠ PUBLIC_KEY_BYTES ∨ Forall (λ b, b = x00) pk);;
  _ ← validate_authority_certificate der pk;
  mret (mkAuthority der (array_of_list 32 pk) (sha256 der)).
Definition fingerprint_hex (self : DeploymentAuthority) : list byte := lowercase_hex (vec_to_list (fingerprint self)).

(** What the build embeds in the binary. *)
Context (EMBEDDED_CERTIFICATE EMBEDDED_PUBLIC_KEY : list byte).
Definition deployment_authority_configured : bool :=
  negb (bool_decide (EMBEDDED_CERTIFICATE = [])) && negb (bool_decide (EMBEDDED_PUBLIC_KEY = [])).
Definition embedded_deployment_authority : result SecureStoreError DeploymentAuthority :=
  reject (config_error "DBX-RS-DEPLOY-0001" "deployment_authority" "this binary has no embedded deployment authority")
    when (deployment_authority_configured = false);;
  DeploymentAuthority_from_parts EMBEDDED_CERTIFICATE EMBEDDED_PUBLIC_KEY.

Definition AuthoritySigner_from_pkcs8 (bytes : list byte) (authority : DeploymentAuthority) : result SecureStoreError key_pair :=
  pair ← ok_or signer_invalid (key_pair_from_pkcs8 bytes);
  reject signer_invalid when (key_pair_public pair ≠ vec_to_list (public_key authority));;
  mret pair.
Definition AuthoritySigner_load (private_key_file : path) (authority : DeploymentAuthority) : secure key_pair :=
  bytes ← read_private_limited private_key_file MAX_PRIVATE_KEY_BYTES;
  st_lift (AuthoritySigner_from_pkcs8 bytes authority).

(** ** The identity of an installation *)
Definition parse_identity (bytes : list byte) : result SecureStoreError private_key :=
  reject identity_invalid when (lengthN bytes ≠ IDENTITY_FILE_BYTES ∨ take 8 bytes ≠ IDENTITY_MAGIC
    ∨ bytes !! 8%nat ≠ Some IDENTITY_VERSION);;
  ok_or identity_invalid (private_key_from_bytes (drop 9 bytes)).
Definition DeploymentIdentity_load (p : path) : secure private_key :=
  bytes ← read_private_limited p IDENTITY_FILE_BYTES;
  st_lift (parse_identity bytes).
(** [generated] is the key pair that [generate] draws. *)
Definition DeploymentIdentity_load_or_create (p : path) (generated : private_key) : secure private_key :=
  present ← path_exists p;
  if present : bool then DeploymentIdentity_load p else
  let bytes := IDENTITY_MAGIC ++ [IDENTITY_VERSION] ++ vec_to_list (private_key_to_bytes generated) in
  r ← try_call (write_new p bytes MODE_PRIVATE_FILE);
  match r with
  | Ok _ => mret generated
  | Err error =>
      if decide (secure_io_kind error = Some Io.AlreadyExists) then DeploymentIdentity_load p else mthrow error
  end.
Definition recipient (identity : private_key) : rust_string :=
  RECIPIENT_PREFIX ++ (Byte.to_N <$> lowercase_hex (vec_to_list (sk_to_pk identity))).

(** ** Sealing *)
Fixpoint recipients_loop (canonical : list (array 32)) (values : list rust_string) : result SecureStoreError (list (array 32)) :=
  match values with
  | [] => mret []
  | value :: values =>
      reject recipient_invalid when (str_len value ≠ RECIPIENT_STRING_BYTES ∨ trim value ≠ value);;
      encoded ← ok_or recipient_invalid (str_strip_prefix RECIPIENT_PREFIX value);
      pk ← ok_or recipient_invalid (decode_lowercase_hex_32 encoded);
      reject recipient_invalid when (Forall (λ b, b = x00) (vec_to_list pk) ∨ pk ∈ canonical);;
      reject recipient_invalid when (public_key_from_bytes pk = false);;
      recipients ← recipients_loop (pk :: canonical) values;
      mret (pk :: recipients)
  end.
Definition parse_recipients (recipient_strings : list rust_string) : result SecureStoreError (list (array 32)) :=
  reject recipient_invalid when (recipient_strings = [] ∨ MAX_RECIPIENTS < lengthN recipient_strings);;
  recipients_loop [] recipient_strings.

(** One entry of the table; the randomness of [setup_sender] is one more draw. *)
Definition recipient_entry (pk content_key : array 32) : hosted (list byte) :=
  let recipient_id := deployment_recipient_id pk in
  ephemeral ← random_fill 32 deployment_encrypt_error;
  '(encapped_key, sender) ← st_lift (ok_or deployment_encrypt_error (setup_sender pk HPKE_INFO (vec_to_list ephemeral)));
  wrapped_key ← st_lift (ok_or deployment_encrypt_error (context_seal sender (vec_to_list content_key) (hpke_aad recipient_id)));
  reject deployment_encrypt_error when (lengthN encapped_key ≠ HPKE_ENCAPPED_KEY_BYTES ∨ lengthN wrapped_key ≠ HPKE_WRAPPED_KEY_BYTES);;
  mret (vec_to_list recipient_id ++ encapped_key ++ wrapped_key).
Fixpoint recipient_table (recipients : list (array 32)) (content_key : array 32) : hosted (list byte) :=
  match recipients with
  | [] => mret []
  | pk :: recipients =>
      entry ← recipient_entry pk content_key;
      table ← recipient_table recipients content_key;
      mret (entry ++ table)
  end.
Definition encrypt_payload_with_key (payload : list byte) (recipients : list (array 32)) (count content_ciphertext_len : N)
    (nonce : array 12) (content_key : array 32) : hosted (list byte) :=
  table ← recipient_table recipients content_key;
  let envelope := ENVELOPE_MAGIC ++ [ENVELOPE_VERSION] ++ u16_be count ++ vec_to_list nonce
    ++ u32_be content_ciphertext_len ++ table in
  k ← st_lift (map_err (λ _, deployment_encrypt_error) (encryption_key content_key));
  ciphertext ← st_lift (ok_or deployment_encrypt_error (seal k nonce (content_aad envelope) payload));
  mret (envelope ++ ciphertext).
Definition u16_try_from (a : N) : option N := if decide (a ≤ u16_max) then Some a else None.
Definition encrypt_payload (payload : list byte) (recipients : list (array 32)) : hosted (list byte) :=
  count ← st_lift (ok_or recipient_invalid (u16_try_from (lengthN recipients)));
  ciphertext_len ← st_lift (ok_or deployment_encrypt_error (checked_add (lengthN payload) CONTENT_TAG_BYTES));
  ciphertext_len_u32 ← st_lift (ok_or deployment_encrypt_error (u32_try_from ciphertext_len));
  table_len ← st_lift (ok_or deployment_encrypt_error (checked_mul (lengthN recipients) RECIPIENT_ENTRY_BYTES));
  total ← st_lift (ok_or deployment_encrypt_error
    (length ← checked_add ENVELOPE_HEADER_BYTES table_len; checked_add length ciphertext_len));
  reject envelope_invalid
    when (is_none_or (λ length, bool_decide (MAX_ENVELOPE_BYTES < length)) (checked_add total SIGNATURE_BYTES) = true);;
  content_key ← random_fill 32 deployment_encrypt_error;
  nonce ← random_fill 12 deployment_encrypt_error;
  encrypt_payload_with_key payload recipients count ciphertext_len_u32 nonce content_key.

Definition payload_bytes (n : name) (revision : N) (secret : list byte) (name_len secret_len : N) : list byte :=
  PAYLOAD_MAGIC ++ [PAYLOAD_VERSION] ++ u64_be revision ++ u16_be name_len ++ u32_be secret_len ++ n ++ secret.
Definition seal_deployment_secret (n : name) (revision : N) (secret : list byte) (recipient_strings : list rust_string)
    (signer : key_pair) : hosted (list byte) :=
  _ ← st_lift (validate_name n);
  let secret := trim_line_endings secret in
  reject deployment_input_invalid when (revision = 0 ∨ secret = [] ∨ MAX_SECRET_BYTES < lengthN secret);;
  recipients ← st_lift (parse_recipients recipient_strings);
  name_len ← st_lift (ok_or deployment_input_invalid (u16_try_from (lengthN n)));
  secret_len ← st_lift (ok_or deployment_input_invalid (u32_try_from (lengthN secret)));
  envelope ← encrypt_payload (payload_bytes n revision secret name_len secret_len) recipients;
  final_len ← st_lift (ok_or envelope_invalid (checked_add (lengthN envelope) SIGNATURE_BYTES));
  reject envelope_invalid when (MAX_ENVELOPE_BYTES < final_len);;
  mret (envelope ++ vec_to_list (ed25519_sign signer (signature_message envelope))).

(** ** Verifying *)
Definition parse_envelope_layout (envelope : list byte) : result SecureStoreError EnvelopeLayout :=
  reject envelope_invalid
    when (lengthN envelope < ENVELOPE_HEADER_BYTES + RECIPIENT_ENTRY_BYTES + CONTENT_TAG_BYTES + SIGNATURE_BYTES
          ∨ MAX_ENVELOPE_BYTES < lengthN envelope ∨ take 8 envelope ≠ ENVELOPE_MAGIC
          ∨ envelope !! 8%nat ≠ Some ENVELOPE_VERSION);;
  let count := from_be (slice 9 11 envelope) in
  let nonce := array_of_list 12 (slice 11 23 envelope) in
  let content_ciphertext_len := from_be (slice 23 27 envelope) in
  reject envelope_invalid when (count = 0 ∨ MAX_RECIPIENTS < count ∨ content_ciphertext_len ≤ CONTENT_TAG_BYTES
    ∨ MAX_PAYLOAD_BYTES + CONTENT_TAG_BYTES < content_ciphertext_len);;
  table_len ← ok_or envelope_invalid (checked_mul count RECIPIENT_ENTRY_BYTES);
  start ← ok_or envelope_invalid (checked_add ENVELOPE_HEADER_BYTES table_len);
  unsigned ← ok_or envelope_invalid (checked_add start content_ciphertext_len);
  expected_len ← ok_or envelope_invalid (checked_add unsigned SIGNATURE_BYTES);
  reject envelope_invalid when (expected_len ≠ lengthN envelope);;
  mret (mkLayout count nonce start unsigned).

(** Entry [index] of the table: its identifier, encapsulated key and wrapped key. *)
Definition entry_start (index : N) : N := ENVELOPE_HEADER_BYTES + index * RECIPIENT_ENTRY_BYTES.
Definition entry_id (envelope : list byte) (index : N) : array 32 :=
  array_of_list 32 (sliceN (entry_start index) (entry_start index + RECIPIENT_ID_BYTES) envelope).
Definition encapped_start (start : N) : N := start + RECIPIENT_ID_BYTES.
Definition wrapped_start (start : N) : N := encapped_start start + HPKE_ENCAPPED_KEY_BYTES.
Definition indexes (count : N) : list N := N.of_nat <$> seq 0 (N.to_nat count).

Fixpoint validate_entries (envelope : list byte) (todo : list N) (seen_recipient_ids : list (array 32))
    : result SecureStoreError () :=
  match todo with
  | [] => mret tt
  | index :: todo =>
      let start := entry_start index in
      reject envelope_invalid when (entry_id envelope index ∈ seen_recipient_ids
        ∨ encapped_key_from_bytes (sliceN (encapped_start start) (wrapped_start start) envelope) = false);;
      validate_entries envelope todo (entry_id envelope index :: seen_recipient_ids)
  end.
Definition validate_recipient_entries (envelope : list byte) (count : N) : result SecureStoreError () :=
  validate_entries envelope (indexes count) [].
Definition verify_deployment_envelope_layout (envelope : list byte) (authority : DeploymentAuthority)
    : result SecureStoreError EnvelopeLayout :=
  layout ← parse_envelope_layout envelope;
  let signature := drop (N.to_nat (unsigned_len layout)) envelope in
  reject signature_invalid
    when (ed25519_verify (vec_to_list (public_key authority))
            (signature_message (take (N.to_nat (unsigned_len layout)) envelope)) signature = false);;
  _ ← validate_recipient_entries envelope (recipient_count layout);
  mret layout.
Definition verify_deployment_envelope (envelope : list byte) (authority : DeploymentAuthority) : result SecureStoreError () :=
  _ ← verify_deployment_envelope_layout envelope authority; mret tt.

(** ** Opening *)
Fixpoint matching_entry (envelope : list byte) (identity_id : array 32) (todo : list N) (seen_recipient_ids : list (array 32))
    (found : option N) : result SecureStoreError (option N) :=
  match todo with
  | [] => mret found
  | index :: todo =>
      let id := entry_id envelope index in
      reject envelope_invalid when (id ∈ seen_recipient_ids);;
      matching_entry envelope identity_id todo (id :: seen_recipient_ids)
        (if decide (id = identity_id) then Some (entry_start index) else found)
  end.
Definition unwrap_content_key (envelope : list byte) (identity : private_key) (count : N) : result SecureStoreError (array 32) :=
  let identity_id := deployment_recipient_id (sk_to_pk identity) in
  found ← matching_entry envelope identity_id (indexes count) [] None;
  start ← ok_or decrypt_invalid found;
  let encapped_key := sliceN (encapped_start start) (wrapped_start start) envelope in
  reject decrypt_invalid when (encapped_key_from_bytes encapped_key = false);;
  receiver ← ok_or decrypt_invalid (setup_receiver identity encapped_key HPKE_INFO);
  unwrapped_key ← ok_or decrypt_invalid (context_open receiver
    (sliceN (wrapped_start start) (wrapped_start start + HPKE_WRAPPED_KEY_BYTES) envelope) (hpke_aad identity_id));
  reject decrypt_invalid when (lengthN unwrapped_key ≠ 32);;
  mret (array_of_list 32 unwrapped_key).

Definition decrypt_payload (envelope_prefix content_ciphertext : list byte) (nonce : array 12) (content_key : array 32)
    : result SecureStoreError (list byte) :=
  k ← map_err (λ _, decrypt_invalid) (encryption_key content_key);
  plaintext ← ok_or decrypt_invalid (open k nonce (content_aad envelope_prefix) content_ciphertext);
  reject payload_invalid when (plaintext = [] ∨ MAX_PAYLOAD_BYTES < lengthN plaintext);;
  mret plaintext.

(** The secret with an empty digest, which [open_deployment_envelope] fills in. *)
Definition parse_payload (plaintext : list byte) : result SecureStoreError DeployedSecret :=
  reject payload_invalid when (lengthN plaintext < PAYLOAD_HEADER_BYTES ∨ take 8 plaintext ≠ PAYLOAD_MAGIC
    ∨ plaintext !! 8%nat ≠ Some PAYLOAD_VERSION);;
  let revision := from_be (slice 9 17 plaintext) in
  let name_len := from_be (slice 17 19 plaintext) in
  let secret_len := from_be (slice 19 23 plaintext) in
  name_end ← ok_or payload_invalid (checked_add PAYLOAD_HEADER_BYTES name_len);
  expected_len ← ok_or payload_invalid (checked_add name_end secret_len);
  reject payload_invalid when (revision = 0 ∨ name_len = 0 ∨ MAX_SECRET_NAME_BYTES < name_len ∨ secret_len = 0
    ∨ MAX_SECRET_BYTES < secret_len ∨ expected_len ≠ lengthN plaintext);;
  n ← ok_or payload_invalid (to_str (sliceN PAYLOAD_HEADER_BYTES name_end plaintext));
  _ ← map_err (λ _, payload_invalid) (validate_name n);
  mret (mkDeployed n revision (drop (N.to_nat name_end) plaintext) (array_of_list 32 (replicate 32 x00))).

Definition open_deployment_envelope (envelope : list byte) (identity : private_key) (authority : DeploymentAuthority)
    : result SecureStoreError DeployedSecret :=
  layout ← verify_deployment_envelope_layout envelope authority;
  content_key ← unwrap_content_key envelope identity (recipient_count layout);
  plaintext ← decrypt_payload (sliceN 0 (content_start layout) envelope)
    (sliceN (content_start layout) (unsigned_len layout) envelope) (layout_nonce layout) content_key;
  deployed ← parse_payload plaintext;
  mret (mkDeployed (ds_name deployed) (ds_revision deployed) (ds_secret deployed) (sha256 envelope)).

(** ** Receipts *)
Definition parse_receipt (store : SecretStore) (n : name) (protected : list byte) : result SecureStoreError Receipt :=
  reject receipt_invalid when (lengthN protected ≠ RECEIPT_FILE_BYTES ∨ take 8 protected ≠ RECEIPT_MAGIC
    ∨ protected !! 8%nat ≠ Some RECEIPT_VERSION);;
  let nonce := array_of_list 12 (slice 9 21 protected) in
  k ← encryption_key (key store);
  plaintext ← ok_or receipt_invalid (open k nonce (receipt_aad n) (drop 21 protected));
  reject receipt_invalid when (lengthN plaintext ≠ RECEIPT_PLAINTEXT_BYTES);;
  let revision := from_be (take 8 plaintext) in
  reject receipt_invalid when (revision = 0);;
  mret (mkReceipt revision (array_of_list 32 (drop 8 plaintext))).
Definition load_receipt (store : SecretStore) (receipt_dir : path) (n : name) : secure (option Receipt) :=
  let p := receipt_path receipt_dir n in
  present ← path_exists p;
  if negb present then mret None else
  protected ← read_private_limited p RECEIPT_FILE_BYTES;
  receipt ← st_lift (parse_receipt store n protected);
  mret (Some receipt).
Definition store_receipt (store : SecretStore) (receipt_dir : path) (n : name) (revision : N) (envelope_digest : array 32)
    : hosted () :=
  nonce ← random_fill 12 receipt_crypto_error;
  k ← st_lift (encryption_key (key store));
  sealed ← st_lift (ok_or receipt_crypto_error (seal k nonce (receipt_aad n) (u64_be revision ++ vec_to_list envelope_digest)));
  on_host (atomic_write (receipt_path receipt_dir n)
    (RECEIPT_MAGIC ++ [RECEIPT_VERSION] ++ vec_to_list nonce ++ sealed) MODE_PRIVATE_FILE).

(** ** Importing *)
Definition import_deployed_secret (store : SecretStore) (receipt_dir : path) (deployed : DeployedSecret)
    (policy : DeploymentImportPolicy) : hosted DeploymentImportResult :=
  let n := ds_name deployed in
  let revision := ds_revision deployed in
  let replace :=
    _ ← set store n (ds_secret deployed);
    _ ← store_receipt store receipt_dir n revision (ds_envelope_digest deployed);
    mret (Imported n revision) in
  receipt ← on_host (load_receipt store receipt_dir n);
  match receipt with
  | Some receipt =>
      if decide (revision < rc_revision receipt) then mret (Stale n revision (rc_revision receipt))
      else if decide (revision = rc_revision receipt) then
        reject revision_conflict when (ds_envelope_digest deployed ≠ rc_envelope_digest receipt);;
        present ← on_host (path_exists (secret_path store n));
        if present : bool then
          same ← on_host (secret_matches store n (ds_secret deployed));
          if negb same then mthrow local_secret_conflict else mret (AlreadyCurrent n revision)
        else _ ← set store n (ds_secret deployed); mret (Repaired n revision)
      else replace
  | None =>
      present ← on_host (path_exists (secret_path store n));
      if negb present then replace else
      same ← on_host (secret_matches store n (ds_secret deployed));
      if same : bool then
        _ ← store_receipt store receipt_dir n revision (ds_envelope_digest deployed); mret (Repaired n revision)
      else reject local_secret_conflict when (policy = RequireAbsentOrMatching);; replace
  end.

(** [ImportFileLock::acquire]; waiting for other processes is one call. *)
Definition lock_error : io_kind → SecureStoreError :=
  SecureStoreError_io "DBX-RS-DEPLOY-0018" "deployment_lock" "failed to acquire the deployment credential lock".
Definition lock_open_error : io_kind → SecureStoreError :=
  SecureStoreError_io "DBX-RS-DEPLOY-0018" "deployment_lock" "failed to open the deployment credential lock".
Definition acquire_import_lock (dir : path) : secure () :=
  _ ← ensure_private_dir dir;
  let p := join dir WRITER_LOCK_FILE in
  present ← path_exists p;
  _ ← (if present : bool then mret tt else
       r ← try_call (write_new p [] MODE_PRIVATE_FILE);
       match r with
       | Ok _ => mret tt
       | Err error => if decide (secure_io_kind error = Some Io.AlreadyExists) then mret tt else mthrow error
       end);
  _ ← read_private_limited p 0;
  _ ← st_map_err lock_open_error (open_existing p);
  st_map_err lock_error (syscall (mret tt)).

Definition import_deployment_envelope (store : SecretStore) (envelope : list byte) (identity : private_key)
    (receipt_dir : path) (authority : DeploymentAuthority) (policy : DeploymentImportPolicy) : hosted DeploymentImportResult :=
  deployed ← st_lift (open_deployment_envelope envelope identity authority);
  _ ← on_host (acquire_import_lock receipt_dir);
  import_deployed_secret store receipt_dir deployed policy.

(** ** Reconciling a directory *)
Definition scan_error (message : string) : io_kind → SecureStoreError :=
  SecureStoreError_io "DBX-RS-DEPLOY-0017" "deployment_scan" message.
Definition directory_error : io_kind → SecureStoreError := scan_error "failed to inspect the deployment credential directory".
Definition entry_error : io_kind → SecureStoreError := scan_error "failed to inspect a deployment credential entry".

(** The loop over the entries; the end of the iterator is a step of it as well. *)
Fixpoint collect_files (dir : path) (entries files : list name) : secure (list name) :=
  match entries with
  | [] => _ ← st_map_err entry_error (syscall (mret tt)); mret files
  | entry :: entries =>
      _ ← st_map_err entry_error (syscall (mret tt));
      if decide ((e ← extension entry; to_str e) ≠ Some (String.list_byte_of_string "dbxsecret"))
      then collect_files dir entries files else
      metadata ← st_map_err entry_error (symlink_metadata (join dir entry));
      reject deployment_directory_invalid when (is_symlink metadata = true ∨ is_file metadata = false);;
      let files := files ++ [entry] in
      reject deployment_directory_invalid when (MAX_DEPLOYMENT_FILES < lengthN files);;
      collect_files dir entries files
  end.
Definition name_le (a b : name) : Prop := bytes_le a b = true.
#[local] Instance name_le_dec : RelDecision name_le := λ a b, decide (_ = true).
Definition deployment_envelope_files (dir : path) : secure (list path) :=
  r ← try_call (symlink_metadata dir);
  match r with
  | Err error => if decide (error = NotFound) then mret [] else mthrow (directory_error error)
  | Ok metadata =>
      reject deployment_directory_invalid when (is_symlink metadata = true ∨ is_dir metadata = false);;
      entries ← st_map_err directory_error (read_dir dir);
      files ← collect_files dir entries [];
      mret (join dir <$> merge_sort name_le files)
  end.

(** The envelope with the greatest revision per name, all of them opened; [stale] counts the others. *)
Fixpoint select_envelopes (identity : private_key) (authority : DeploymentAuthority) (files : list path)
    (selected : gmap name DeployedSecret) (stale : N) : secure (gmap name DeployedSecret * N) :=
  match files with
  | [] => mret (selected, stale)
  | p :: files =>
      bytes ← read_limited p MAX_ENVELOPE_BYTES;
      deployed ← st_lift (open_deployment_envelope bytes identity authority);
      let n := ds_name deployed in
      match selected !! n with
      | None => select_envelopes identity authority files (<[n := deployed]> selected) stale
      | Some current =>
          match (ds_revision current ?= ds_revision deployed) with
          | Eq =>
              reject revision_conflict when (ds_envelope_digest current ≠ ds_envelope_digest deployed);;
              select_envelopes identity authority files selected (saturating_add stale 1)
          | Lt => select_envelopes identity authority files (<[n := deployed]> selected) (saturating_add stale 1)
          | Gt => select_envelopes identity authority files selected (saturating_add stale 1)
          end
      end
  end.
(** [into_values] of the [BTreeMap]: in the order of the names. *)
Definition entry_le (a b : name * DeployedSecret) : Prop := name_le a.1 b.1.
#[local] Instance entry_le_dec : RelDecision entry_le := λ a b, decide (name_le a.1 b.1).
Definition into_values (selected : gmap name DeployedSecret) : list DeployedSecret :=
  (merge_sort entry_le (map_to_list selected)).*2.

Definition count_result (summary : DeploymentReconcileSummary) (r : DeploymentImportResult) : DeploymentReconcileSummary :=
  let '(mkReconcile files imported current repaired stale) := summary in
  match r with
  | Imported _ _ => mkReconcile files (imported + 1) current repaired stale
  | AlreadyCurrent _ _ => mkReconcile files imported (current + 1) repaired stale
  | Repaired _ _ => mkReconcile files imported current (repaired + 1) stale
  | Stale _ _ _ => mkReconcile files imported current repaired (stale + 1)
  end.
Fixpoint import_selected (store : SecretStore) (receipt_dir : path) (selected : list DeployedSecret)
    (summary : DeploymentReconcileSummary) : hosted DeploymentReconcileSummary :=
  match selected with
  | [] => mret summary
  | deployed :: selected =>
      r ← import_deployed_secret store receipt_dir deployed RequireAbsentOrMatching;
      import_selected store receipt_dir selected (count_result summary r)
  end.
Definition reconcile_deployment_files (store : SecretStore) (files : list path) (identity_file receipt_dir : path)
    (authority : DeploymentAuthority) : hosted DeploymentReconcileSummary :=
  identity ← on_host (DeploymentIdentity_load identity_file);
  '(selected, stale) ← on_host (select_envelopes identity authority files ∅ 0);
  _ ← on_host (acquire_import_lock receipt_dir);
  import_selected store receipt_dir (into_values selected) (mkReconcile (lengthN files) 0 0 0 stale).
Definition reconcile_deployment_directory (store : SecretStore) (envelope_dir identity_file receipt_dir : path)
    (authority : DeploymentAuthority) : hosted DeploymentReconcileSummary :=
  files ← on_host (deployment_envelope_files envelope_dir);
  if decide (files = []) then mret (mkReconcile 0 0 0 0 0) else
  reconcile_deployment_files store files identity_file receipt_dir authority.
Definition reconcile_embedded_deployment_directory (store : SecretStore) (envelope_dir identity_file receipt_dir : path)
    : hosted DeploymentReconcileSummary :=
  files ← on_host (deployment_envelope_files envelope_dir);
  if decide (files = []) then mret (mkReconcile 0 0 0 0 0) else
  authority ← st_lift embedded_deployment_authority;
  reconcile_deployment_files store files identity_file receipt_dir authority.
End Deployment.
