(* ===== verification/DeploymentEnvelope.v ===== *)
(** * The envelope of a deployed credential: layout, sealing and opening *)

From S2P Require Export SecretStore.
From S2P Require Export Deployment.

Local Open Scope N_scope.
Local Open Scope dbx_scope.

(** ** Slices by [N] positions *)
Lemma lengthN_to_nat {A} (l : list A) : N.to_nat (lengthN l) = length l.
Proof. unfold lengthN. lia. Qed.
Lemma length_of_lengthN {A} (l : list A) n : lengthN l = n → length l = N.to_nat n.
Proof. unfold lengthN. lia. Qed.
Lemma lengthN_of_length {A} (l : list A) n : length l = n → lengthN l = N.of_nat n.
Proof. by intros <-. Qed.
Lemma sliceN_here a b (l k : list byte) : a = 0 → lengthN l = b → sliceN a b (l ++ k) = l.
Proof. intros -> <-. unfold sliceN. apply slice_here. by rewrite lengthN_to_nat. Qed.
Lemma sliceN_skip n a b (l k : list byte) : lengthN l = n → n ≤ a → sliceN a b (l ++ k) = sliceN (a - n) (b - n) k.
Proof.
  intros <- Hn. unfold sliceN. rewrite (slice_skip (length l)); [|done|unfold lengthN in *; lia].
  f_equal; unfold lengthN; lia.
Qed.
Lemma dropN_app n (l k : list byte) : lengthN l = n → drop (N.to_nat n) (l ++ k) = k.
Proof. intros <-. rewrite lengthN_to_nat. by rewrite drop_app_length. Qed.
Lemma takeN_app n (l k : list byte) : lengthN l = n → take (N.to_nat n) (l ++ k) = l.
Proof. intros <-. rewrite lengthN_to_nat. by rewrite take_app_length. Qed.
Lemma drop_sliceN a b (l : list byte) : a ≤ b → drop (N.to_nat a) l = sliceN a b l ++ drop (N.to_nat b) l.
Proof. intros. apply drop_slice. lia. Qed.
Lemma lengthN_sliceN a b (l : list byte) : b ≤ lengthN l → lengthN (sliceN a b l) = b - a.
Proof. intros. unfold lengthN in *. unfold sliceN. rewrite length_slice; lia. Qed.
Lemma lengthN_dropN a (l : list byte) : lengthN (drop (N.to_nat a) l) = lengthN l - a.
Proof. unfold lengthN. rewrite length_drop. lia. Qed.

Lemma checked_mul_some a b c : checked_mul a b = Some c ↔ c = a * b ∧ in_u64 (a * b).
Proof. unfold checked_mul. case_decide; naive_solver. Qed.
Lemma from_be_u16 l : length l = 2%nat → from_be l ≤ u16_max.
Proof. intros Hl. pose proof (from_be_lt l) as H. rewrite (lengthN_of_length _ _ Hl) in H. change (256 ^ N.of_nat 2) with 65536 in H. ulia. Qed.

(** ** The layout *)
Definition header (count : N) (nonce : array 12) (content_len : N) : list byte :=
  ENVELOPE_MAGIC ++ [ENVELOPE_VERSION] ++ u16_be count ++ vec_to_list nonce ++ u32_be content_len.
Lemma lengthN_header count nonce len : lengthN (header count nonce len) = ENVELOPE_HEADER_BYTES.
Proof. unfold header, lengthN. rewrite !length_app, length_u16_be, length_u32_be, length_vec_to_list. reflexivity. Qed.

Record envelope_parts (envelope : list byte) (count : N) (nonce : array 12) (table ciphertext signature : list byte) : Prop := mkParts {
  ep_bytes : envelope = header count nonce (lengthN ciphertext) ++ table ++ ciphertext ++ signature;
  ep_count : 1 ≤ count ≤ MAX_RECIPIENTS;
  ep_table : lengthN table = count * RECIPIENT_ENTRY_BYTES;
  ep_content : CONTENT_TAG_BYTES < lengthN ciphertext ≤ MAX_PAYLOAD_BYTES + CONTENT_TAG_BYTES;
  ep_signature : lengthN signature = SIGNATURE_BYTES;
  ep_size : lengthN envelope ≤ MAX_ENVELOPE_BYTES;
}.
Definition layout_of (count : N) (nonce : array 12) (ciphertext : list byte) : EnvelopeLayout :=
  let start := ENVELOPE_HEADER_BYTES + count * RECIPIENT_ENTRY_BYTES in
  mkLayout count nonce start (start + lengthN ciphertext).

Ltac layout_lia :=
  unfold ENVELOPE_HEADER_BYTES, RECIPIENT_ENTRY_BYTES, RECIPIENT_ID_BYTES, HPKE_ENCAPPED_KEY_BYTES, HPKE_WRAPPED_KEY_BYTES,
    CONTENT_TAG_BYTES, SIGNATURE_BYTES, MAX_RECIPIENTS, MAX_PAYLOAD_BYTES, PAYLOAD_HEADER_BYTES, MAX_SECRET_NAME_BYTES,
    MAX_SECRET_BYTES, MAX_ENVELOPE_BYTES in *; ulia.

(** The first 27 bytes are a header of what is read from them. *)
Lemma header_parts envelope :
  (27 ≤ length envelope)%nat → take 8 envelope = ENVELOPE_MAGIC → envelope !! 8%nat = Some ENVELOPE_VERSION →
  envelope = header (from_be (slice 9 11 envelope)) (array_of_list 12 (slice 11 23 envelope)) (from_be (slice 23 27 envelope))
    ++ drop 27 envelope.
Proof.
  intros Hlen Ht Hv. unfold header. rewrite u16_be_from, u32_be_from by (rewrite length_slice; lia).
  rewrite array_of_list_id by (rewrite length_slice; lia).
  assert (drop 8 envelope = ENVELOPE_VERSION :: drop 9 envelope) as E8 by (by apply drop_S).
  rewrite <- (take_drop 8 envelope) at 1.
  rewrite Ht, E8, (drop_slice 9 11), (drop_slice 11 23), (drop_slice 23 27) by lia. by rewrite <- !app_assoc.
Qed.
Lemma header_slices count nonce len rest :
  count ≤ u16_max → len ≤ u32_max →
  let envelope := header count nonce len ++ rest in
  take 8 envelope = ENVELOPE_MAGIC ∧ envelope !! 8%nat = Some ENVELOPE_VERSION ∧ from_be (slice 9 11 envelope) = count
  ∧ array_of_list 12 (slice 11 23 envelope) = nonce ∧ from_be (slice 23 27 envelope) = len.
Proof.
  intros Hc Hl envelope. subst envelope. unfold header. rewrite <- !app_assoc. split_and!.
  - done.
  - done.
  - rewrite (slice_skip 8), (slice_skip 1) by (done || lia). cbn [Nat.sub].
    rewrite slice_here by (apply length_u16_be). by apply u16_from_be.
  - rewrite (slice_skip 8), (slice_skip 1), (slice_skip 2) by (apply length_u16_be || done || (cbn; lia)). cbn [Nat.sub].
    rewrite slice_here by (apply length_vec_to_list). apply array_of_to_list.
  - rewrite (slice_skip 8), (slice_skip 1), (slice_skip 2), (slice_skip 12)
      by (apply length_u16_be || apply length_vec_to_list || done || (cbn; lia)). cbn [Nat.sub].
    rewrite slice_here by (apply length_u32_be). by apply u32_from_be.
Qed.

(** A checked operation that cannot overflow here. *)
Ltac checked_step :=
  match goal with
  | |- context [checked_add ?a ?b] => rewrite (proj2 (checked_add_some a b (a + b))) by (split; [done|layout_lia])
  | |- context [checked_mul ?a ?b] => rewrite (proj2 (checked_mul_some a b (a * b))) by (split; [done|layout_lia])
  end; cbn [ok_or]; rewrite ok_bind.

(** The parser accepts exactly the envelopes of this layout. *)
Lemma parse_layout_exact envelope layout :
  parse_envelope_layout envelope = Ok layout ↔
  ∃ count nonce table ciphertext signature,
    envelope_parts envelope count nonce table ciphertext signature ∧ layout = layout_of count nonce ciphertext.
Proof.
  unfold parse_envelope_layout. cbn zeta. split.
  - case_decide as Hc; [done|]. set (count := from_be (slice 9 11 envelope)). set (len := from_be (slice 23 27 envelope)).
    set (nonce := array_of_list 12 (slice 11 23 envelope)). case_decide as Hb; [done|]. rewrite !result_bind_ok.
    intros (t & [-> _]%ok_or_ok%checked_mul_some & Hrun). apply result_bind_ok in Hrun as (st & [-> _]%ok_or_ok%checked_add_some & Hrun).
    apply result_bind_ok in Hrun as (un & [-> _]%ok_or_ok%checked_add_some & Hrun).
    apply result_bind_ok in Hrun as (total & [-> _]%ok_or_ok%checked_add_some & Hrun).
    case_decide as Htot; [done|]. injection Hrun as <-.
    assert (take 8 envelope = ENVELOPE_MAGIC ∧ envelope !! 8%nat = Some ENVELOPE_VERSION) as [H3 H4].
    { split; [destruct (decide (take 8 envelope = ENVELOPE_MAGIC))|destruct (decide (envelope !! 8%nat = Some ENVELOPE_VERSION))]; tauto. }
    set (start := ENVELOPE_HEADER_BYTES + count * RECIPIENT_ENTRY_BYTES) in *.
    assert (ENVELOPE_HEADER_BYTES ≤ start) as Hst by layout_lia.
    set (table := sliceN ENVELOPE_HEADER_BYTES start envelope). set (ct := sliceN start (start + len) envelope).
    assert (lengthN ct = len) as Hct by (subst ct; rewrite lengthN_sliceN; lia).
    exists count, nonce, table, ct, (drop (N.to_nat (start + len)) envelope).
    split; [|unfold layout_of; fold start; by rewrite Hct]. split.
    + rewrite (header_parts envelope) at 1; [|unfold lengthN in *; layout_lia|done|done].
      fold count nonce len. rewrite Hct. f_equal. change (drop 27 envelope) with (drop (N.to_nat ENVELOPE_HEADER_BYTES) envelope).
      rewrite (drop_sliceN _ start), (drop_sliceN start (start + len)) by (lia || layout_lia). done.
    + split; [|apply N.nlt_ge; tauto]. destruct (N.eq_dec count 0); [tauto|lia].
    + subst table. rewrite lengthN_sliceN by lia. subst start. lia.
    + rewrite Hct. split; [apply N.nle_gt; tauto|apply N.nlt_ge; tauto].
    + rewrite lengthN_dropN. lia.
    + apply N.nlt_ge. tauto.
  - intros (count & nonce & table & ct & sig & [Hbytes Hcount Htable Hcontent Hsig Hsize] & ->).
    destruct (header_slices count nonce (lengthN ct) (table ++ ct ++ sig)) as (E1 & E2 & E3 & E4 & E5); [layout_lia..|].
    assert (lengthN envelope = ENVELOPE_HEADER_BYTES + count * RECIPIENT_ENTRY_BYTES + lengthN ct + SIGNATURE_BYTES) as Hlen.
    { rewrite Hbytes. autorewrite with dbx. rewrite lengthN_header. lia. }
    rewrite <- Hbytes in *. rewrite E1, E2, E3, E4, E5.
    rewrite decide_False by (intros [?|[?|[?|?]]]; [layout_lia|layout_lia|done|done]).
    rewrite decide_False by (intros [?|[?|[?|?]]]; layout_lia).
    unfold layout_of. do 4 checked_step.
    by rewrite decide_False by (intros []; lia).
Qed.

(** ** The payload *)
Lemma name_byte_ascii b : name_byte b = true → Byte.to_N b < 128.
Proof.
  unfold name_byte. intros [Hb%bool_decide_eq_true|Hb%bool_decide_eq_true]%orb_prop; [lia|].
  by destruct Hb as [->|[->| ->]].
Qed.
Lemma name_to_str n : validate_name n = Ok tt → to_str n = Some n.
Proof.
  intros (_ & _ & Hn)%validate_name_ok. unfold to_str. rewrite utf8_ascii; [done|].
  apply Is_true_eq_left, forallb_True in Hn. eapply Forall_impl; [exact Hn|]. intros b Hb. by apply name_byte_ascii, Is_true_eq_true.
Qed.

Definition deployed_ok (n : name) (revision : N) (secret : list byte) : Prop :=
  validate_name n = Ok tt ∧ 1 ≤ revision ∧ in_u64 revision ∧ 1 ≤ lengthN secret ∧ lengthN secret ≤ MAX_SECRET_BYTES.
Definition payload (n : name) (revision : N) (secret : list byte) : list byte :=
  payload_bytes n revision secret (lengthN n) (lengthN secret).
Definition no_digest : array 32 := array_of_list 32 (replicate 32 x00).

Lemma lengthN_payload n revision secret : lengthN (payload n revision secret) = PAYLOAD_HEADER_BYTES + lengthN n + lengthN secret.
Proof. unfold payload, payload_bytes, lengthN. rewrite !length_app, length_u64_be, length_u16_be, length_u32_be.
  change (length PAYLOAD_MAGIC) with 8%nat. cbn [length]. layout_lia.
Qed.

Lemma payload_parts plaintext :
  (23 ≤ length plaintext)%nat → take 8 plaintext = PAYLOAD_MAGIC → plaintext !! 8%nat = Some PAYLOAD_VERSION →
  plaintext = PAYLOAD_MAGIC ++ [PAYLOAD_VERSION] ++ u64_be (from_be (slice 9 17 plaintext)) ++ u16_be (from_be (slice 17 19 plaintext))
    ++ u32_be (from_be (slice 19 23 plaintext)) ++ drop 23 plaintext.
Proof.
  intros Hlen Ht Hv. rewrite u64_be_from, u16_be_from, u32_be_from by (rewrite length_slice; lia).
  assert (drop 8 plaintext = PAYLOAD_VERSION :: drop 9 plaintext) as E8 by (by apply drop_S).
  rewrite <- (take_drop 8 plaintext) at 1. rewrite Ht, E8, (drop_slice 9 17), (drop_slice 17 19), (drop_slice 19 23) by lia. done.
Qed.
Lemma payload_slices revision name_len secret_len rest :
  in_u64 revision → name_len ≤ u16_max → secret_len ≤ u32_max →
  let plaintext := PAYLOAD_MAGIC ++ [PAYLOAD_VERSION] ++ u64_be revision ++ u16_be name_len ++ u32_be secret_len ++ rest in
  from_be (slice 9 17 plaintext) = revision ∧ from_be (slice 17 19 plaintext) = name_len
  ∧ from_be (slice 19 23 plaintext) = secret_len ∧ drop 23 plaintext = rest.
Proof.
  intros Hr Hn Hs plaintext. subst plaintext. split_and!.
  - rewrite (slice_skip 8), (slice_skip 1) by (done || lia). cbn [Nat.sub]. rewrite slice_here by (apply length_u64_be). by apply u64_from_be.
  - rewrite (slice_skip 8), (slice_skip 1), (slice_skip 8) by (apply length_u64_be || done || (cbn; lia)). cbn [Nat.sub].
    rewrite slice_here by (apply length_u16_be). by apply u16_from_be.
  - rewrite (slice_skip 8), (slice_skip 1), (slice_skip 8), (slice_skip 2)
      by (apply length_u64_be || apply length_u16_be || done || (cbn; lia)). cbn [Nat.sub].
    rewrite slice_here by (apply length_u32_be). by apply u32_from_be.
  - rewrite !app_assoc, drop_app_length'; [done|]. rewrite !length_app, length_u64_be, length_u16_be, length_u32_be. done.
Qed.

Lemma parse_payload_exact plaintext d :
  parse_payload plaintext = Ok d ↔
  plaintext = payload (ds_name d) (ds_revision d) (ds_secret d) ∧ deployed_ok (ds_name d) (ds_revision d) (ds_secret d)
  ∧ ds_envelope_digest d = no_digest.
Proof.
  unfold parse_payload. cbn zeta. split.
  - case_decide as Hc; [done|]. set (revision := from_be (slice 9 17 plaintext)). set (name_len := from_be (slice 17 19 plaintext)).
    set (secret_len := from_be (slice 19 23 plaintext)). rewrite !result_bind_ok.
    intros (name_end & [-> _]%ok_or_ok%checked_add_some & Hrun). apply result_bind_ok in Hrun as (total & [-> _]%ok_or_ok%checked_add_some & Hrun).
    case_decide as Hb; [done|]. apply result_bind_ok in Hrun as (n & Hn%ok_or_ok & Hrun).
    apply result_bind_ok in Hrun as ([] & Hv%map_err_ok & Hrun). injection Hrun as <-. cbn [ds_name ds_revision ds_secret ds_envelope_digest].
    assert (n = sliceN PAYLOAD_HEADER_BYTES (PAYLOAD_HEADER_BYTES + name_len) plaintext) as ->.
    { unfold to_str in Hn. destruct (utf8 _); congruence. }
    assert (PAYLOAD_HEADER_BYTES ≤ lengthN plaintext) as Hlen by (apply N.nlt_ge; tauto).
    assert (PAYLOAD_HEADER_BYTES + name_len + secret_len = lengthN plaintext) as Htot.
    { destruct (decide (PAYLOAD_HEADER_BYTES + name_len + secret_len = lengthN plaintext)); tauto. }
    assert (lengthN (drop (N.to_nat (PAYLOAD_HEADER_BYTES + name_len)) plaintext) = secret_len) as Hsl by (rewrite lengthN_dropN; lia).
    split; [|split; [|done]].
    + unfold payload, payload_bytes. rewrite lengthN_sliceN, Hsl by lia. replace (PAYLOAD_HEADER_BYTES + name_len - PAYLOAD_HEADER_BYTES) with name_len by lia.
      rewrite <- drop_sliceN by lia. apply payload_parts; [unfold lengthN in *; layout_lia| |].
      * destruct (decide (take 8 plaintext = PAYLOAD_MAGIC)); tauto.
      * destruct (decide (plaintext !! 8%nat = Some PAYLOAD_VERSION)); tauto.
    + unfold deployed_ok. rewrite Hsl. split_and!; [done| | | |].
      * destruct (N.eq_dec revision 0); [tauto|lia].
      * apply from_be_in_u64. rewrite length_slice; [done|]. unfold lengthN in *; layout_lia.
      * destruct (N.eq_dec secret_len 0); [tauto|lia].
      * apply N.nlt_ge. tauto.
  - intros (-> & (Hn & Hr & Hr' & Hs & Hs') & Hdig). set (n := ds_name d) in *. set (secret := ds_secret d) in *.
    pose proof (proj1 (validate_name_ok n tt) Hn) as (Hne & Hnl & _).
    assert (1 ≤ lengthN n) as Hn1 by (destruct n; [done|autorewrite with dbx; lia]).
    pose proof (lengthN_payload n (ds_revision d) secret) as Hlen.
    rewrite decide_False by (intros [?|[E|E]]; [layout_lia|by destruct E|by destruct E]).
    pose proof (payload_slices (ds_revision d) (lengthN n) (lengthN secret) (n ++ secret) Hr' ltac:(layout_lia) ltac:(layout_lia))
      as (E1 & E2 & E3 & E4). fold (payload_bytes n (ds_revision d) secret (lengthN n) (lengthN secret)) in E1, E2, E3, E4.
    fold (payload n (ds_revision d) secret) in E1, E2, E3, E4. rewrite E1, E2, E3. do 2 checked_step.
    rewrite decide_False by (intros [?|[?|[?|[?|[?|?]]]]]; layout_lia).
    assert (payload n (ds_revision d) secret = take 23 (payload n (ds_revision d) secret) ++ n ++ secret) as Ep.
    { rewrite <- E4. symmetry. apply (take_drop 23). }
    assert (lengthN (take 23 (payload n (ds_revision d) secret)) = PAYLOAD_HEADER_BYTES) as Et.
    { unfold lengthN in *. rewrite length_take. layout_lia. }
    assert (sliceN PAYLOAD_HEADER_BYTES (PAYLOAD_HEADER_BYTES + lengthN n) (payload n (ds_revision d) secret) = n) as ->.
    { rewrite Ep, (sliceN_skip _ _ _ _ _ Et) by lia. apply sliceN_here; lia. }
    rewrite name_to_str by done. cbn [ok_or]. rewrite ok_bind, Hn. cbn [map_err]. rewrite ok_bind.
    assert (drop (N.to_nat (PAYLOAD_HEADER_BYTES + lengthN n)) (payload n (ds_revision d) secret) = secret) as ->.
    { rewrite Ep, app_assoc. apply dropN_app. autorewrite with dbx. rewrite Et. lia. }
    destruct d. cbn in *. by subst.
Qed.

(** ** Opening *)
Lemma elem_of_indexes i count : i ∈ indexes count ↔ i < count.
Proof.
  unfold indexes. rewrite list_elem_of_fmap. setoid_rewrite elem_of_seq. split.
  - intros (k & -> & Hk). lia.
  - intros Hi. exists (N.to_nat i). lia.
Qed.

Section Opening.
Context `{Crypto, !CryptoLaws, Sha256, Hpke, Ed25519}.

Definition entry_encapped (envelope : list byte) (i : N) : list byte :=
  sliceN (encapped_start (entry_start i)) (wrapped_start (entry_start i)) envelope.
Definition entry_wrapped (envelope : list byte) (i : N) : list byte :=
  sliceN (wrapped_start (entry_start i)) (wrapped_start (entry_start i) + HPKE_WRAPPED_KEY_BYTES) envelope.

Lemma validate_entries_exact envelope todo seen :
  validate_entries envelope todo seen = Ok tt ↔
  NoDup (entry_id envelope <$> todo) ∧ (∀ i, i ∈ todo → entry_id envelope i ∉ seen)
  ∧ ∀ i, i ∈ todo → encapped_key_from_bytes (entry_encapped envelope i) = true.
Proof using Type.
  revert seen. induction todo as [|i todo IH]; intros seen; cbn [validate_entries].
  - split; [|done]. intros _. split_and!; [constructor|by intros ? ?%elem_of_nil..].
  - cbn zeta. fold (entry_encapped envelope i). case_decide as Hc.
    + split; [done|]. intros (_ & Hs & He). destruct Hc as [Hc|Hc]; [by destruct (Hs i ltac:(left))|].
      by rewrite He in Hc by left.
    + rewrite IH, fmap_cons, NoDup_cons. split.
      * intros (Hnd & Hs & He). split_and!; [|done|..].
        -- intros (j & Ej & Hj)%list_elem_of_fmap. apply (Hs j Hj). rewrite Ej. left.
        -- intros j [->|Hj]%elem_of_cons; [tauto|]. intros Hin. apply (Hs j Hj). by right.
        -- intros j [->|Hj]%elem_of_cons; [|by apply He]. by destruct (encapped_key_from_bytes (entry_encapped envelope i)); [|tauto].
      * intros ([Hni Hnd] & Hs & He). split_and!; [done| |by intros j Hj; apply He; right].
        intros j Hj [E|Hin]%elem_of_cons; [|apply (Hs j); [by right|done]].
        apply Hni. rewrite <- E. by apply list_elem_of_fmap_2.
Qed.

(** The scan for the entry of an identity, among entries with distinct identifiers. *)
Lemma matching_entry_exact envelope id todo seen found :
  NoDup (entry_id envelope <$> todo) → (∀ i, i ∈ todo → entry_id envelope i ∉ seen) →
  ∃ r, matching_entry envelope id todo seen found = Ok r
    ∧ (∀ i, i ∈ todo → entry_id envelope i = id → r = Some (entry_start i))
    ∧ ((∀ i, i ∈ todo → entry_id envelope i ≠ id) → r = found).
Proof using Type.
  revert seen found. induction todo as [|i todo IH]; intros seen found Hnd Hs; cbn [matching_entry].
  - exists found. split_and!; [done|by intros ? ?%elem_of_nil|done].
  - rewrite fmap_cons, NoDup_cons in Hnd. destruct Hnd as [Hni Hnd]. rewrite decide_False by (apply Hs; left).
    destruct (IH (entry_id envelope i :: seen) (if decide (entry_id envelope i = id) then Some (entry_start i) else found) Hnd)
      as (r & Hr & Hin & Hno).
    { intros j Hj [E|Hin]%elem_of_cons; [apply Hni; rewrite <- E; by apply list_elem_of_fmap_2|].
      apply (Hs j); [by right|done]. }
    exists r. split; [exact Hr|]. split.
    + intros j [->|Hj]%elem_of_cons Ej; [|by apply Hin]. rewrite decide_True in Hno by done. apply Hno.
      intros k Hk Ek. apply Hni. rewrite Ej, <- Ek. by apply list_elem_of_fmap_2.
    + intros Hall. rewrite Hno; [by rewrite decide_False by (apply Hall; left)|]. intros k Hk. apply Hall. by right.
Qed.

(** The key that an entry of the table wraps for an identity. *)
Definition unwraps (envelope : list byte) (identity : private_key) (i : N) (content_key : array 32) : Prop :=
  let id := deployment_recipient_id (sk_to_pk identity) in
  entry_id envelope i = id
  ∧ ∃ rx, setup_receiver identity (entry_encapped envelope i) HPKE_INFO = Some rx
      ∧ context_open rx (entry_wrapped envelope i) (hpke_aad id) = Some (vec_to_list content_key).

Lemma unwrap_content_key_exact envelope identity count content_key :
  NoDup (entry_id envelope <$> indexes count) →
  (∀ i, i < count → encapped_key_from_bytes (entry_encapped envelope i) = true) →
  unwrap_content_key envelope identity count = Ok content_key ↔ ∃ i, i < count ∧ unwraps envelope identity i content_key.
Proof using Type.
  intros Hnd Hen. unfold unwrap_content_key. cbn zeta. set (id := deployment_recipient_id (sk_to_pk identity)).
  destruct (matching_entry_exact envelope id (indexes count) [] None Hnd) as (r & Hr & Hin & Hno); [by intros ? _ ?%elem_of_nil|].
  rewrite Hr, ok_bind. split.
  - intros Hrun. apply result_bind_ok in Hrun as (start & Es%ok_or_ok & Hrun).
    assert (∃ i, i < count ∧ entry_id envelope i = id) as (i & Hi & Ei).
    { destruct (decide (Exists (λ i, entry_id envelope i = id) (indexes count))) as [(i & Hi & Ei)%Exists_exists|Hn];
        [exists i; by apply elem_of_indexes in Hi|].
      rewrite Hno in Es; [done|]. intros i Hi Ei. apply Hn, Exists_exists. by exists i. }
    rewrite (Hin i) in Es by (done || by apply elem_of_indexes). injection Es as <-.
    fold (entry_encapped envelope i) (entry_wrapped envelope i) in Hrun. rewrite decide_False in Hrun by (by rewrite Hen).
    apply result_bind_ok in Hrun as (rx & Erx%ok_or_ok & Hrun). apply result_bind_ok in Hrun as (key & Ekey%ok_or_ok & Hrun).
    case_decide as Hl; [done|]. injection Hrun as <-. exists i. split; [done|]. split; [done|]. exists rx. split; [done|].
    fold id. rewrite array_of_list_id; [done|]. unfold lengthN in Hl. lia.
  - intros (i & Hi & Ei & rx & Erx & Ekey). rewrite (Hin i) by (done || by apply elem_of_indexes). cbn [ok_or]. rewrite ok_bind.
    fold (entry_encapped envelope i) (entry_wrapped envelope i). rewrite decide_False by (by rewrite Hen).
    rewrite Erx. cbn [ok_or]. rewrite ok_bind. unfold id. rewrite Ekey. cbn [ok_or]. rewrite ok_bind.
    rewrite decide_False; [by rewrite array_of_to_list|]. intros []. unfold lengthN. by rewrite length_vec_to_list.
Qed.

Lemma decrypt_payload_exact prefix ciphertext nonce content_key plaintext :
  decrypt_payload prefix ciphertext nonce content_key = Ok plaintext ↔
  ∃ k, unbound_key content_key = Some k ∧ seal k nonce (content_aad prefix) plaintext = Some ciphertext
    ∧ plaintext ≠ [] ∧ lengthN plaintext ≤ MAX_PAYLOAD_BYTES.
Proof using Type*.
  unfold decrypt_payload. rewrite result_bind_ok. split.
  - intros (k & Hk%map_err_ok%ok_or_ok & Hrun). apply result_bind_ok in Hrun as (p & Hp%ok_or_ok%seal_open & Hrun).
    case_decide as Hl; [done|]. injection Hrun as ->. exists k. split_and!; [done|done|tauto|apply N.nlt_ge; tauto].
  - intros (k & Hk & Hs & Hne & Hl). exists k. split; [by apply map_err_ok, ok_or_ok|]. apply result_bind_ok. exists plaintext.
    split; [by apply ok_or_ok, open_seal|]. by rewrite decide_False by (intros [?|?]; [done|lia]).
Qed.

(** The envelopes an installation accepts, and what it takes from them: of the layout, signed
    by the authority over everything before the signature, with distinct recipients, one of
    them the installation, whose entry wraps the key under which the payload is sealed
    together with everything before it. *)
Record authorised (envelope : list byte) (identity : private_key) (authority : DeploymentAuthority) (d : DeployedSecret)
    (count : N) (nonce : array 12) (table ciphertext signature : list byte) (content_key : array 32) (k : aead_key) : Prop := mkAuthorised {
  au_parts : envelope_parts envelope count nonce table ciphertext signature;
  au_signed : ed25519_verify (vec_to_list (public_key authority))
    (signature_message (header count nonce (lengthN ciphertext) ++ table ++ ciphertext)) signature = true;
  au_distinct : NoDup (entry_id envelope <$> indexes count);
  au_encapped i : i < count → encapped_key_from_bytes (entry_encapped envelope i) = true;
  au_key : ∃ i, i < count ∧ unwraps envelope identity i content_key;
  au_aead : unbound_key content_key = Some k;
  au_sealed : seal k nonce (content_aad (header count nonce (lengthN ciphertext) ++ table))
    (payload (ds_name d) (ds_revision d) (ds_secret d)) = Some ciphertext;
  au_payload : deployed_ok (ds_name d) (ds_revision d) (ds_secret d);
  au_digest : ds_envelope_digest d = sha256 envelope;
}.

(** The positions of the layout cut the envelope where its parts meet. *)
Lemma parts_cuts envelope count nonce table ciphertext signature :
  envelope_parts envelope count nonce table ciphertext signature →
  let layout := layout_of count nonce ciphertext in
  take (N.to_nat (unsigned_len layout)) envelope = header count nonce (lengthN ciphertext) ++ table ++ ciphertext
  ∧ drop (N.to_nat (unsigned_len layout)) envelope = signature
  ∧ sliceN 0 (content_start layout) envelope = header count nonce (lengthN ciphertext) ++ table
  ∧ sliceN (content_start layout) (unsigned_len layout) envelope = ciphertext.
Proof using Type.
  intros [Hb _ Ht _ _ _]. cbn. set (h := header count nonce (lengthN ciphertext)) in *.
  assert (lengthN h = ENVELOPE_HEADER_BYTES) as Hh by apply lengthN_header.
  assert (lengthN (h ++ table) = ENVELOPE_HEADER_BYTES + count * RECIPIENT_ENTRY_BYTES) as Hp by (autorewrite with dbx; lia).
  assert (envelope = (h ++ table) ++ ciphertext ++ signature) as E2 by (by rewrite Hb, <- app_assoc).
  assert (envelope = (h ++ table ++ ciphertext) ++ signature) as E3 by (by rewrite Hb, <- !app_assoc).
  assert (lengthN (h ++ table ++ ciphertext) = ENVELOPE_HEADER_BYTES + count * RECIPIENT_ENTRY_BYTES + lengthN ciphertext) as Hu
    by (autorewrite with dbx; lia).
  split_and!.
  - rewrite E3. by apply takeN_app.
  - rewrite E3. by apply dropN_app.
  - rewrite E2. by apply sliceN_here.
  - rewrite E2, (sliceN_skip _ _ _ _ _ Hp) by lia. apply sliceN_here; lia.
Qed.

Lemma opened_authorised envelope identity authority d :
  open_deployment_envelope envelope identity authority = Ok d →
  ∃ count nonce table ciphertext signature content_key k,
    authorised envelope identity authority d count nonce table ciphertext signature content_key k.
Proof using Type*.
  unfold open_deployment_envelope, verify_deployment_envelope_layout. rewrite result_bind_ok.
  intros (layout & Hv & Hrun). apply result_bind_ok in Hv as (l & (count & nonce & table & ct & sig & Hparts & ->)%parse_layout_exact & Hv).
  destruct (parts_cuts _ _ _ _ _ _ Hparts) as (C1 & C2 & C3 & C4). cbn zeta in Hv. rewrite C1, C2 in Hv. case_decide as Hsig; [done|].
  apply result_bind_ok in Hv as ([] & (Hnd & _ & Hen)%validate_entries_exact & Hv). injection Hv as <-.
  setoid_rewrite elem_of_indexes in Hen. rewrite C3, C4 in Hrun.
  apply result_bind_ok in Hrun as (ck & Hck%unwrap_content_key_exact & Hrun); [|done|done].
  apply result_bind_ok in Hrun as (plaintext & (k & Hk & Hs & _ & _)%decrypt_payload_exact & Hrun).
  apply result_bind_ok in Hrun as (d' & (-> & Hok & _)%parse_payload_exact & Hrun). injection Hrun as <-.
  exists count, nonce, table, ct, sig, ck, k. split; try done. by destruct (ed25519_verify _ _ sig).
Qed.

Lemma authorised_opens envelope identity authority d count nonce table ct sig ck k :
  authorised envelope identity authority d count nonce table ct sig ck k →
  open_deployment_envelope envelope identity authority = Ok d.
Proof using Type*.
  unfold open_deployment_envelope, verify_deployment_envelope_layout. rewrite result_bind_ok.
  intros [Hparts Hsig Hnd Hen Hkey Hk Hs Hok Hdig].
  destruct (parts_cuts _ _ _ _ _ _ Hparts) as (C1 & C2 & C3 & C4). exists (layout_of count nonce ct). split.
  { apply result_bind_ok. exists (layout_of count nonce ct). split; [apply parse_layout_exact; by exists count, nonce, table, ct, sig|].
    cbn zeta. rewrite C1, C2, decide_False by (by rewrite Hsig). apply result_bind_ok. exists tt. split; [|done].
    apply validate_entries_exact. split_and!; [done|by intros ? _ ?%elem_of_nil|]. by intros i Hi%elem_of_indexes; apply Hen. }
  rewrite C3, C4. apply result_bind_ok. exists ck. split; [by apply unwrap_content_key_exact|].
  apply result_bind_ok. exists (payload (ds_name d) (ds_revision d) (ds_secret d)). split.
  { apply decrypt_payload_exact. exists k. destruct Hok as (Hn & _ & _ & Hs1 & Hs2). split_and!; [done|done|done|].
    rewrite lengthN_payload. apply validate_name_ok in Hn as (_ & Hn & _). layout_lia. }
  apply result_bind_ok. exists (mkDeployed (ds_name d) (ds_revision d) (ds_secret d) no_digest).
  split; [by apply parse_payload_exact|]. destruct d. cbn in *. by rewrite <- Hdig.
Qed.

(** C26: an installation accepts exactly the envelopes that are authorised for it, and takes
    from them exactly the name, revision and secret that were sealed: the bytes have the
    layout and nothing more, the authority signed all of them up to the signature, the
    recipients are distinct and the installation is one of them, and the payload of valid
    name, revision and size is sealed under the key its entry wraps, together with header
    and table.  Whatever it accepts the packaging check accepts as well. *)
Theorem envelope_accepted_exactly envelope identity authority d :
  (open_deployment_envelope envelope identity authority = Ok d ↔
   ∃ count nonce table ciphertext signature content_key k,
     authorised envelope identity authority d count nonce table ciphertext signature content_key k)
  ∧ (open_deployment_envelope envelope identity authority = Ok d → verify_deployment_envelope envelope authority = Ok tt).
Proof using Type*.
  split; [split|].
  - apply opened_authorised.
  - intros (count & nonce & table & ct & sig & ck & k & Hau). by eapply authorised_opens.
  - unfold open_deployment_envelope, verify_deployment_envelope. rewrite !result_bind_ok. intros (layout & Hl & _). by exists layout.
Qed.

(** ** Sealing *)
Lemma utf8_bytes_ascii l : Forall (λ b, Byte.to_N b < 128) l → utf8_bytes (Byte.to_N <$> l) = l.
Proof using Type.
  induction 1 as [|b l Hb _ IH]; [done|]. rewrite fmap_cons. unfold utf8_bytes in *. cbn [mbind list_bind].
  rewrite IH. unfold utf8_char. rewrite decide_True by done. cbn. by rewrite byte_of_to_N.
Qed.
Lemma encode_hex_ascii l : Forall (λ b, Byte.to_N b < 128) (encode_hex l).
Proof using Type.
  pose proof (forallb_encode_hex l) as Hf. apply Is_true_eq_left, forallb_True in Hf.
  eapply Forall_impl; [exact Hf|]. intros b [Hb%bool_decide_eq_true|Hb%bool_decide_eq_true]%Is_true_eq_true%orb_prop; lia.
Qed.
Lemma decode_recipient pk :
  decode_lowercase_hex_32 (Byte.to_N <$> lowercase_hex (vec_to_list pk)) = Some pk.
Proof using Type.
  unfold decode_lowercase_hex_32, lowercase_hex, str_len. rewrite utf8_bytes_ascii by apply encode_hex_ascii.
  rewrite decide_False.
  - rewrite decode_hex_loop_encode. cbn. by rewrite array_of_to_list.
  - intros [[]|E]; [by unfold lengthN; rewrite length_encode_hex, length_vec_to_list|].
    assert (forallb (λ c, bool_decide (c < 128)) (Byte.to_N <$> encode_hex (vec_to_list pk)) = true) as E'; [|congruence].
    apply Is_true_eq_true, forallb_True, Forall_fmap. eapply Forall_impl; [apply encode_hex_ascii|].
    intros b Hb. cbn. by apply bool_decide_pack.
Qed.

Lemma recipients_loop_ok canonical values pks :
  recipients_loop canonical values = Ok pks →
  length pks = length values ∧ NoDup pks ∧ (∀ pk, pk ∈ pks → pk ∉ canonical)
  ∧ ∀ identity, recipient identity ∈ values → sk_to_pk identity ∈ pks.
Proof using Type.
  revert canonical pks. induction values as [|value values IH]; intros canonical pks; cbn [recipients_loop].
  - intros [= <-]. split_and!; [done|constructor|by intros ? ?%elem_of_nil..].
  - case_decide; [done|]. rewrite result_bind_ok. intros (encoded & He%ok_or_ok & Hrun).
    apply result_bind_ok in Hrun as (pk & Hpk%ok_or_ok & Hrun). case_decide as Hc; [done|]. case_decide; [done|].
    apply result_bind_ok in Hrun as (rest & (Hlen & Hnd & Hno & Hin)%IH & Hrun). injection Hrun as <-. split_and!.
    + cbn. by rewrite Hlen.
    + constructor; [|done]. intros Hpk'%Hno. apply Hpk'. left.
    + intros pk' [->|Hpk']%elem_of_cons; [tauto|]. intros Hcan. apply (Hno pk' Hpk'). by right.
    + intros identity [<-|Hid]%elem_of_cons; [|right; by apply Hin].
      unfold recipient, str_strip_prefix in He. rewrite take_app_length, decide_True, drop_app_length in He by done. injection He as <-.
      rewrite decode_recipient in Hpk. injection Hpk as <-. left.
Qed.

(** One entry as the sealer writes it. *)
Definition wraps (content_key pk : array 32) (entry : list byte) : Prop :=
  ∃ encapped wrapped ephemeral tx,
    entry = vec_to_list (deployment_recipient_id pk) ++ encapped ++ wrapped
    ∧ setup_sender pk HPKE_INFO ephemeral = Some (encapped, tx)
    ∧ context_seal tx (vec_to_list content_key) (hpke_aad (deployment_recipient_id pk)) = Some wrapped
    ∧ lengthN encapped = HPKE_ENCAPPED_KEY_BYTES ∧ lengthN wrapped = HPKE_WRAPPED_KEY_BYTES.

Lemma recipient_table_ok pks content_key h h' table :
  recipient_table pks content_key h = (h', Ok table) →
  host_disk h' = host_disk h ∧ ∃ entries, table = concat entries ∧ Forall2 (wraps content_key) pks entries.
Proof using Type.
  revert h h' table. induction pks as [|pk pks IH]; intros h h' table; cbn [recipient_table].
  - intros [= <- <-]. split; [done|]. exists []. by split.
  - intros (entry & h1 & He & Hrun)%st_bind_ok. apply st_bind_ok in Hrun as (rest & h2 & (Hd & entries & -> & Hall)%IH & Hrun).
    injection Hrun as <- <-. unfold recipient_entry in He. cbn zeta in He.
    apply st_bind_ok in He as (eph & h3 & [Hd3 _]%random_fill_run & He).
    apply st_bind_ok in He as ([encapped tx] & h4 & [-> Hs%ok_or_ok]%st_lift_ok & He).
    apply st_bind_ok in He as (wrapped & h5 & [-> Hw%ok_or_ok]%st_lift_ok & He). case_decide as Hl; [done|]. injection He as <- <-.
    split; [congruence|]. eexists (_ :: entries). split; [done|]. constructor; [|done].
    eexists encapped, wrapped, _, tx. split_and!; [done|exact Hs|done|..].
    + destruct (decide (lengthN encapped = HPKE_ENCAPPED_KEY_BYTES)); tauto.
    + destruct (decide (lengthN wrapped = HPKE_WRAPPED_KEY_BYTES)); tauto.
Qed.

Lemma wraps_length content_key pk entry : wraps content_key pk entry → lengthN entry = RECIPIENT_ENTRY_BYTES.
Proof using Type.
  intros (e & w & eph & tx & -> & _ & _ & He & Hw). autorewrite with dbx. rewrite He, Hw. unfold lengthN. rewrite length_vec_to_list. done.
Qed.
Lemma table_length content_key pks entries :
  Forall2 (wraps content_key) pks entries → lengthN (concat entries) = lengthN entries * RECIPIENT_ENTRY_BYTES.
Proof using Type. induction 1 as [|pk entry pks entries Hw _ IH]; [done|]. cbn [concat]. autorewrite with dbx. rewrite IH, (wraps_length _ _ _ Hw). lia. Qed.

(** Entry [i] is found where the opener looks for it. *)
Lemma table_entry content_key pks entries front rest i pk :
  lengthN front = ENVELOPE_HEADER_BYTES → Forall2 (wraps content_key) pks entries → pks !! N.to_nat i = Some pk →
  let envelope := front ++ concat entries ++ rest in
  entry_id envelope i = deployment_recipient_id pk
  ∧ ∃ ephemeral tx, setup_sender pk HPKE_INFO ephemeral = Some (entry_encapped envelope i, tx)
      ∧ context_seal tx (vec_to_list content_key) (hpke_aad (deployment_recipient_id pk)) = Some (entry_wrapped envelope i).
Proof using Type.
  intros Hfront Hall Hpk envelope. destruct (Forall2_lookup_l _ _ _ _ _ Hall Hpk) as (entry & Hi & e & w & eph & tx & -> & Hs & Hw & Hle & Hlw).
  pose proof (table_length _ _ _ (Forall2_take _ _ _ (N.to_nat i) Hall)) as Hbefore.
  assert (lengthN (take (N.to_nat i) entries) = i) as Ei.
  { unfold lengthN. rewrite length_take. apply lookup_lt_Some in Hi. lia. }
  rewrite Ei in Hbefore. set (before := concat (take (N.to_nat i) entries)) in *. set (after := concat (drop (S (N.to_nat i)) entries)).
  assert (envelope = (front ++ before) ++ vec_to_list (deployment_recipient_id pk) ++ e ++ w ++ after ++ rest) as ->.
  { subst envelope. rewrite <- (take_drop_middle _ _ _ Hi) at 1. rewrite concat_app. cbn [concat]. by rewrite <- !app_assoc. }
  assert (lengthN (front ++ before) = entry_start i) as Hst by (autorewrite with dbx; unfold entry_start; lia).
  assert (lengthN (vec_to_list (deployment_recipient_id pk)) = RECIPIENT_ID_BYTES) as Hid by (unfold lengthN; by rewrite length_vec_to_list).
  unfold entry_id, entry_encapped, entry_wrapped, wrapped_start, encapped_start. split.
  - rewrite (sliceN_skip _ _ _ _ _ Hst) by lia. rewrite sliceN_here by lia. apply array_of_to_list.
  - exists eph, tx. rewrite !(sliceN_skip _ _ _ _ _ Hst) by layout_lia. rewrite !(sliceN_skip _ _ _ _ _ Hid) by layout_lia.
    rewrite (sliceN_here _ _ e) by layout_lia. rewrite (sliceN_skip _ _ _ _ _ Hle) by layout_lia.
    rewrite sliceN_here by layout_lia. done.
Qed.

(** The encrypted part that sealing produces. *)
Lemma encrypt_payload_ok text pks h h' envelope :
  encrypt_payload text pks h = (h', Ok envelope) →
  host_disk h' = host_disk h ∧
  ∃ nonce content_key k entries ciphertext,
    envelope = header (lengthN pks) nonce (lengthN ciphertext) ++ concat entries ++ ciphertext
    ∧ Forall2 (wraps content_key) pks entries ∧ unbound_key content_key = Some k
    ∧ seal k nonce (content_aad (header (lengthN pks) nonce (lengthN ciphertext) ++ concat entries)) text = Some ciphertext.
Proof using Type*.
  unfold encrypt_payload. intros Hrun. apply st_bind_ok in Hrun as (count & h1 & [-> Hc%ok_or_ok]%st_lift_ok & Hrun).
  apply st_bind_ok in Hrun as (len & h1 & [-> [-> _]%ok_or_ok%checked_add_some]%st_lift_ok & Hrun).
  apply st_bind_ok in Hrun as (len32 & h1 & [-> [-> _]%ok_or_ok%u32_try_from_some]%st_lift_ok & Hrun).
  apply st_bind_ok in Hrun as (tl & h1 & [-> _]%st_lift_ok & Hrun). apply st_bind_ok in Hrun as (total & h1 & [-> _]%st_lift_ok & Hrun).
  case_decide; [done|]. apply st_bind_ok in Hrun as (ck & h1 & [Hd1 _]%random_fill_run & Hrun).
  apply st_bind_ok in Hrun as (nonce & h2 & [Hd2 _]%random_fill_run & Hrun).
  unfold encrypt_payload_with_key in Hrun. apply st_bind_ok in Hrun as (table & h3 & (Hd3 & entries & -> & Hall)%recipient_table_ok & Hrun).
  cbn zeta in Hrun. apply st_bind_ok in Hrun as (k & h4 & [-> Hk%map_err_ok%ok_or_ok]%st_lift_ok & Hrun).
  apply st_bind_ok in Hrun as (ct & h5 & [-> Hs%ok_or_ok]%st_lift_ok & Hrun). injection Hrun as <- <-.
  split; [congruence|]. assert (count = lengthN pks) as -> by (unfold u16_try_from in Hc; case_decide; congruence).
  assert (lengthN ct = lengthN text + CONTENT_TAG_BYTES) as Hct.
  { unfold lengthN. rewrite (seal_length _ _ _ _ _ Hs). layout_lia. }
  exists nonce, ck, k, entries, ct. rewrite Hct. unfold header. rewrite <- !app_assoc. by split_and!.
Qed.

Context {Hpke_laws : HpkeLaws} {Ed_laws : Ed25519Laws}.

(** The table of a sealed envelope is what the opener asks for. *)
Lemma wrapped_table content_key pks entries front rest identity :
  lengthN front = ENVELOPE_HEADER_BYTES → Forall2 (wraps content_key) pks entries → NoDup pks →
  (∀ a b, a ∈ pks → b ∈ pks → deployment_recipient_id a = deployment_recipient_id b → a = b) → sk_to_pk identity ∈ pks →
  let envelope := front ++ concat entries ++ rest in
  NoDup (entry_id envelope <$> indexes (lengthN pks))
  ∧ (∀ i, i < lengthN pks → encapped_key_from_bytes (entry_encapped envelope i) = true)
  ∧ ∃ i, i < lengthN pks ∧ unwraps envelope identity i content_key.
Proof using Type*.
  intros Hfront Hall Hnd Hinj Hmem envelope.
  assert (∀ i, i < lengthN pks → ∃ pk, pks !! N.to_nat i = Some pk) as Hpk.
  { intros i Hi. apply lookup_lt_is_Some_2. unfold lengthN in Hi. lia. }
  pose proof (table_entry content_key pks entries front rest) as Hentry. fold envelope in Hentry. split_and!.
  - apply NoDup_fmap_2_strong.
    + intros i j (a & Ha)%elem_of_indexes%Hpk (b & Hb)%elem_of_indexes%Hpk E.
      destruct (Hentry i a Hfront Hall Ha) as [Ea _]. destruct (Hentry j b Hfront Hall Hb) as [Eb _].
      assert (a = b) as <- by (apply Hinj; [by eapply list_elem_of_lookup_2..|rewrite <- Ea, <- Eb; exact E]).
      pose proof (NoDup_lookup _ _ _ _ Hnd Ha Hb). lia.
    + unfold indexes. apply NoDup_fmap; [|apply NoDup_seq]. intros a b. lia.
  - intros i (a & Ha)%Hpk. destruct (Hentry i a Hfront Hall Ha) as (_ & eph & tx & Hset & _). by eapply setup_sender_encapped.
  - apply list_elem_of_lookup in Hmem as [i Hi]. exists (N.of_nat i). split; [apply lookup_lt_Some in Hi; unfold lengthN; lia|].
    destruct (Hentry (N.of_nat i) (sk_to_pk identity) Hfront Hall) as (Eid & eph & tx & Hset & Hseal); [by rewrite Nat2N.id|].
    split; [exact Eid|]. by eapply hpke_open_seal.
Qed.

(** C27: a sealed credential reaches every enrolled installation unchanged.  An envelope that
    sealing returns for a set of recipients opens, at an installation whose recipient string
    is in the set and which trusts the signer's key, to the name, the revision and the secret
    without its line endings, as long as no two of the public keys have the same SHA-256;
    sealing touches no file. *)
Theorem sealed_credential_opens n revision secret recipients pks signer authority identity h h' envelope :
  in_u64 revision → key_pair_public signer = vec_to_list (public_key authority) →
  parse_recipients recipients = Ok pks → recipient identity ∈ recipients →
  (∀ a b, a ∈ pks → b ∈ pks → deployment_recipient_id a = deployment_recipient_id b → a = b) →
  seal_deployment_secret n revision secret recipients signer h = (h', Ok envelope) →
  host_disk h' = host_disk h
  ∧ open_deployment_envelope envelope identity authority = Ok (mkDeployed n revision (trim_line_endings secret) (sha256 envelope)).
Proof using All.
  intros Hrev Hsigner Hpks Hidentity Hinj Hrun. unfold seal_deployment_secret in Hrun. cbn zeta in Hrun.
  set (v := trim_line_endings secret) in *. apply st_bind_ok in Hrun as ([] & h1 & [-> Hn]%st_lift_ok & Hrun).
  case_decide as Hin; [done|]. apply st_bind_ok in Hrun as (pks' & h1 & [-> Hp]%st_lift_ok & Hrun).
  rewrite Hpks in Hp. injection Hp as <-.
  apply st_bind_ok in Hrun as (nl & h1 & [-> Hnl%ok_or_ok]%st_lift_ok & Hrun).
  apply st_bind_ok in Hrun as (sl & h1 & [-> [-> _]%ok_or_ok%u32_try_from_some]%st_lift_ok & Hrun).
  assert (nl = lengthN n) as -> by (unfold u16_try_from in Hnl; case_decide; congruence). fold (payload n revision v) in Hrun.
  apply st_bind_ok in Hrun as (unsigned & h1 & (Hd & nonce & ck & k & entries & ct & -> & Hall & Hk & Hs)%encrypt_payload_ok & Hrun).
  apply st_bind_ok in Hrun as (total & h2 & [-> [-> _]%ok_or_ok%checked_add_some]%st_lift_ok & Hrun).
  case_decide as Hsize; [done|]. injection Hrun as <- <-. split; [done|].
  unfold parse_recipients in Hpks. case_decide as Hrec; [done|]. apply recipients_loop_ok in Hpks as (Hlen & Hnd & _ & Hmem).
  specialize (Hmem _ Hidentity). set (hd := header (lengthN pks) nonce (lengthN ct)) in *.
  set (sig := vec_to_list (ed25519_sign signer _)). set (envelope := (hd ++ concat entries ++ ct) ++ sig).
  assert (envelope = hd ++ concat entries ++ ct ++ sig) as Eenv by (subst envelope; by rewrite <- !app_assoc).
  destruct (wrapped_table ck pks entries hd (ct ++ sig) identity) as (Hdist & Hen & Hkey); [apply lengthN_header|done..|].
  rewrite <- Eenv in Hdist, Hen, Hkey.
  assert (1 ≤ lengthN v ∧ lengthN v ≤ MAX_SECRET_BYTES ∧ 1 ≤ revision) as (Hv1 & Hv2 & Hr1).
  { split_and!; [|apply N.nlt_ge; tauto|destruct (N.eq_dec revision 0); [tauto|lia]].
    destruct v as [|b l]; [tauto|autorewrite with dbx; lia]. }
  apply (authorised_opens _ _ _ _ (lengthN pks) nonce (concat entries) ct sig ck k). split; cbn [ds_name ds_revision ds_secret ds_envelope_digest].
  - split.
    + exact Eenv.
    + unfold lengthN. rewrite Hlen. split; [|apply N.nlt_ge; tauto]. destruct recipients; [tauto|cbn; lia].
    + rewrite (table_length _ _ _ Hall). unfold lengthN. by rewrite (Forall2_length _ _ _ Hall).
    + pose proof (lengthN_payload n revision v) as Hpl. apply validate_name_ok in Hn as (_ & Hn & _).
      assert (lengthN ct = lengthN (payload n revision v) + CONTENT_TAG_BYTES) as ->.
      { unfold lengthN. rewrite (seal_length _ _ _ _ _ Hs). layout_lia. }
      split; layout_lia.
    + subst sig. unfold lengthN. by rewrite length_vec_to_list.
    + change (lengthN ((hd ++ concat entries ++ ct) ++ sig) ≤ MAX_ENVELOPE_BYTES). rewrite lengthN_app. apply N.nlt_ge.
      assert (lengthN sig = SIGNATURE_BYTES) as -> by (subst sig; unfold lengthN; by rewrite length_vec_to_list). exact Hsize.
  - rewrite <- Hsigner. apply verify_sign.
  - exact Hdist.
  - exact Hen.
  - exact Hkey.
  - exact Hk.
  - exact Hs.
  - unfold deployed_ok. by split_and!.
  - done.
Qed.
End Opening.
