(* ===== verification/DeploymentImport.v ===== *)
(** * Importing deployed credentials

    What one import and one reconciliation leave on the disk, whatever fails and wherever a
    crash cuts them short. *)

From S2P Require Export DeploymentEnvelope.

Local Open Scope N_scope.
Local Open Scope dbx_scope.

(** ** Paths that do not disturb each other *)
Definition apart_from (p q : path) : Prop := q ≠ p ∧ ¬ staging p q ∧ ¬ q `prefix_of` p.
Definition untouched (q : path) (s s' : fs) : Prop :=
  tree s' !! q = tree s !! q ∧ ∀ t, t ∈ versions s' → ∃ t0, t0 ∈ versions s ∧ t0 !! q = t !! q.
Lemma untouched_refl q s : untouched q s s.
Proof. split; [done|]. intros t Ht. by exists t. Qed.
Lemma untouched_trans q s s1 s' : untouched q s s1 → untouched q s1 s' → untouched q s s'.
Proof.
  intros [E1 V1] [E2 V2]. split; [congruence|]. intros t (t1 & H1 & <-)%V2. destruct (V1 t1 H1) as (t0 & H0 & <-). by exists t0.
Qed.
Lemma same_disk_untouched q s s' : same_disk s s' → untouched q s s'.
Proof. intros Hs. split; [by rewrite (same_disk_tree _ _ Hs)|]. rewrite (same_disk_versions _ _ Hs). intros t Ht. by exists t. Qed.
Lemma write_untouched p q bytes mode s s' r :
  wf_tree (tree s) → atomic_write p bytes mode s = (s', r) → apart_from p q → untouched q s s'.
Proof. intros Hwf Hw (H1 & H2 & H3). by apply (atomic_write_apart _ _ _ _ _ _ _ Hwf Hw). Qed.

Section Importing.
Context `{Crypto} {Hlaws : CryptoLaws} `{Sha256, Hpke, Ed25519}.
Context (store : SecretStore) (receipt_dir : path).

(** No secret file is a directory above the receipts, no receipt one above the secrets. *)
Definition separate : Prop := ∀ n,
  ¬ secret_path store n `prefix_of` receipt_dir ∧ ¬ receipt_path receipt_dir n `prefix_of` directory store.

Lemma secret_path_t n : ∃ l, secret_path store n = directory store ++ [l ++ [x65; x74]].
Proof using Type. exists (n ++ String.list_byte_of_string ".secr"). unfold secret_path, FileSystem.join. by rewrite <- app_assoc. Qed.
Lemma receipt_path_t n : ∃ l, receipt_path receipt_dir n = receipt_dir ++ [l ++ [x70; x74]].
Proof using Type. exists (n ++ String.list_byte_of_string ".recei"). unfold receipt_path, FileSystem.join. by rewrite <- app_assoc. Qed.

Lemma paths_differ n n' : secret_path store n ≠ receipt_path receipt_dir n'.
Proof using Type.
  destruct (secret_path_t n) as [l ->], (receipt_path_t n') as [l' ->]. intros [_ [= E]]%app_inj_2; [|done].
  change [x65; x74] with ([x65] ++ [x74]) in E. change [x70; x74] with ([x70] ++ [x74]) in E.
  rewrite !app_assoc in E. apply app_inj_tail in E as [E _]. by apply app_inj_tail in E as [_ ?].
Qed.
Lemma not_staging_secret p n : ¬ staging p (secret_path store n).
Proof using Type. destruct (secret_path_t n) as [l ->]. change [x65; x74] with ([x65] ++ [x74]). rewrite app_assoc. apply not_staging_t. Qed.
Lemma not_staging_receipt p n : ¬ staging p (receipt_path receipt_dir n).
Proof using Type. destruct (receipt_path_t n) as [l ->]. change [x70; x74] with ([x70] ++ [x74]). rewrite app_assoc. apply not_staging_t. Qed.

Lemma receipt_apart n n' : separate → apart_from (secret_path store n) (receipt_path receipt_dir n').
Proof using Type.
  intros Hsep. split_and!; [by apply not_eq_sym, paths_differ|apply not_staging_receipt|].
  intros [E|E]%prefix_snoc_cases; [exact (paths_differ n n' (eq_sym E))|by destruct (Hsep n')].
Qed.
Lemma secret_apart n n' : separate → apart_from (receipt_path receipt_dir n) (secret_path store n').
Proof using Type.
  intros Hsep. split_and!; [by apply paths_differ|apply not_staging_secret|].
  intros [E|E]%prefix_snoc_cases; [by apply (paths_differ n' n)|by destruct (Hsep n')].
Qed.
Lemma other_secret_apart n n' : n ≠ n' → apart_from (secret_path store n) (secret_path store n').
Proof using Type.
  intros Hne. assert (secret_path store n' ≠ secret_path store n) as Hp.
  { intros [_ [= E]]%app_inj_2; [|done]. by apply app_inv_tail in E. }
  split_and!; [done|apply not_staging_secret|]. intros E. apply Hp, prefix_length_eq; [done|].
  unfold secret_path, receipt_path, FileSystem.join. by rewrite !length_app.
Qed.
Lemma other_receipt_apart n n' : n ≠ n' → apart_from (receipt_path receipt_dir n) (receipt_path receipt_dir n').
Proof using Type.
  intros Hne. assert (receipt_path receipt_dir n' ≠ receipt_path receipt_dir n) as Hp.
  { intros [_ [= E]]%app_inj_2; [|done]. by apply app_inv_tail in E. }
  split_and!; [done|apply not_staging_receipt|]. intros E. apply Hp, prefix_length_eq; [done|].
  unfold secret_path, receipt_path, FileSystem.join. by rewrite !length_app.
Qed.

(** ** Receipts *)
Lemma parse_receipt_exact n bytes rc :
  parse_receipt store n bytes = Ok rc ↔
  ∃ nonce k sealed, unbound_key (key store) = Some k
    ∧ seal k nonce (receipt_aad n) (u64_be (rc_revision rc) ++ vec_to_list (rc_envelope_digest rc)) = Some sealed
    ∧ bytes = sealed_file RECEIPT_MAGIC RECEIPT_VERSION nonce sealed ∧ 1 ≤ rc_revision rc ∧ in_u64 (rc_revision rc).
Proof using Hlaws.
  unfold parse_receipt. cbn zeta. split.
  - case_decide as Hc; [done|]. rewrite result_bind_ok. intros (k & Hk%ok_or_ok & Hrun).
    apply result_bind_ok in Hrun as (text & Ht%ok_or_ok%seal_open & Hrun). case_decide as Hl; [done|]. case_decide as Hr; [done|].
    injection Hrun as <-. exists (array_of_list 12 (slice 9 21 bytes)), k, (drop 21 bytes). cbn [rc_revision rc_envelope_digest].
    assert (lengthN bytes = RECEIPT_FILE_BYTES ∧ take 8 bytes = RECEIPT_MAGIC ∧ bytes !! 8%nat = Some RECEIPT_VERSION) as (B1 & B2 & B3).
    { split_and!; [destruct (decide (lengthN bytes = RECEIPT_FILE_BYTES))|destruct (decide (take 8 bytes = RECEIPT_MAGIC))
        |destruct (decide (bytes !! 8%nat = Some RECEIPT_VERSION))]; tauto. }
    assert (length text = 40%nat) as Htl by (unfold lengthN, RECEIPT_PLAINTEXT_BYTES in Hl; lia).
    rewrite u64_be_from by (rewrite length_take; lia). rewrite array_of_list_id by (rewrite length_drop; lia). rewrite take_drop.
    split_and!; [done|done| | |].
    + apply sealed_file_parts; [done| |done|done]. unfold lengthN, RECEIPT_FILE_BYTES, RECEIPT_PLAINTEXT_BYTES in B1. lia.
    + destruct (N.eq_dec (from_be (take 8 text)) 0); [done|lia].
    + apply from_be_in_u64. rewrite length_take. lia.
  - intros (nonce & k & sealed & Hk & Hs & -> & Hr & Hr').
    destruct (sealed_file_slices RECEIPT_MAGIC RECEIPT_VERSION nonce sealed eq_refl) as (E1 & E2 & E3 & E4 & E5).
    pose proof (seal_length _ _ _ _ _ Hs) as Hsl. rewrite length_app, length_u64_be, length_vec_to_list in Hsl.
    rewrite decide_False by (rewrite E1, E2; unfold lengthN; rewrite E5, Hsl; intros [?|[?|?]]; done).
    rewrite E3, E4. unfold encryption_key. rewrite Hk. cbn [ok_or]. rewrite ok_bind, (open_seal _ _ _ _ _ Hs). cbn [ok_or]. rewrite ok_bind.
    rewrite (take_app_length' _ _ 8), (drop_app_length' _ _ 8) by (by rewrite length_u64_be). rewrite u64_from_be by done.
    rewrite decide_False by (unfold lengthN; rewrite length_app, length_u64_be, length_vec_to_list; intros []; done).
    rewrite decide_False by lia. rewrite array_of_to_list. by destruct rc.
Qed.

(** The node is a protected file that holds the receipt. *)
Definition receipt_is (n : name) (rc : Receipt) (o : option node) : Prop :=
  ∃ m bytes y, o = Some (Regular m bytes y) ∧ N.land m OTHERS = 0 ∧ parse_receipt store n bytes = Ok rc.
Lemma receipt_is_fun n rc rc' o : receipt_is n rc o → receipt_is n rc' o → rc = rc'.
Proof using Type. intros (? & ? & ? & -> & _ & E) (? & ? & ? & [= <- <- <-] & _ & E'). congruence. Qed.

Lemma ro_load_receipt n : read_only (load_receipt store receipt_dir n).
Proof using Type. unfold load_receipt, read_private_limited. read_only. Qed.

(** A receipt on the disk is missed only when the first call fails. *)
Lemma load_receipt_ok n s s' found :
  wf_tree (tree s) → load_receipt store receipt_dir n s = (s', Ok found) →
  let o := tree s !! receipt_path receipt_dir n in
  match found with
  | Some rc => receipt_is n rc o
  | None => ∀ rc, receipt_is n rc o → (next_fault (faults s)).1 ≠ WriteOk
  end.
Proof using Type.
  intros Hwf Hrun o. unfold load_receipt in Hrun. cbn zeta in Hrun. apply st_bind_ok in Hrun as (present & s1 & Hp & Hrun).
  pose proof (read_only_same _ _ _ _ (ro_path_exists _) Hp) as Hsame. destruct present; cbn [negb] in Hrun.
  - apply st_bind_ok in Hrun as (bytes & s2 & (_ & (m & y & E & Hm) & _ & _)%read_limited_ok & Hrun); [|by rewrite (same_disk_tree _ _ Hsame)].
    rewrite (same_disk_tree _ _ Hsame) in E. apply st_bind_ok in Hrun as (rc & s3 & [_ Hrc]%st_lift_ok & Hrun). injection Hrun as _ <-.
    exists m, bytes, y. split_and!; [done|by apply Hm|done].
  - injection Hrun as _ <-. intros rc (m & bytes & y & E & _) Hf. by eapply (path_exists_file (E := SecureStoreError)).
Qed.

Lemma store_receipt_run n revision digest h h' r :
  1 ≤ revision → in_u64 revision → store_receipt store receipt_dir n revision digest h = (h', r) →
  (host_disk h' = host_disk h ∧ is_ok r = false)
  ∨ ∃ bytes, atomic_write (receipt_path receipt_dir n) bytes MODE_PRIVATE_FILE (host_disk h) = (host_disk h', r)
      ∧ receipt_is n (mkReceipt revision digest) (Some (Regular MODE_PRIVATE_FILE bytes true)).
Proof using Hlaws.
  intros Hr Hr' Hrun. unfold store_receipt in Hrun. unfold mbind at 1, st_bind at 1 in Hrun.
  destruct (random_fill _ _ h) as [h1 rn] eqn:Er. apply random_fill_run in Er as [Hd Er].
  destruct Er as [->|[nonce ->]]; [injection Hrun as <- <-; by left|].
  unfold mbind at 1, st_bind at 1, st_lift at 1 in Hrun.
  destruct (encryption_key (key store)) as [k|e] eqn:Ek; [|injection Hrun as <- <-; by left].
  unfold mbind at 1, st_bind at 1, st_lift at 1 in Hrun.
  destruct (seal k _ (receipt_aad n) _) as [sealed|] eqn:Es; [|injection Hrun as <- <-; by left]. cbn [ok_or] in Hrun.
  apply on_host_run in Hrun as [Hrun _]. rewrite Hd in Hrun. right.
  exists (sealed_file RECEIPT_MAGIC RECEIPT_VERSION (array_of_list 12 nonce) sealed). split; [exact Hrun|].
  apply ok_or_ok in Ek. eexists _, _, _. split_and!; [reflexivity|done|].
  apply parse_receipt_exact. by exists (array_of_list 12 nonce), k, sealed.
Qed.

(** ** One import *)
Context (Hsep : separate).

(** Every version shows at [p] what some version showed before, or what [new] describes. *)
Definition old_or (p : path) (new : tree_t → Prop) (s s' : fs) : Prop :=
  ∀ t, t ∈ versions s' → (∃ t0, t0 ∈ versions s ∧ t0 !! p = t !! p) ∨ new t.
Lemma old_or_refl p new s : old_or p new s s.
Proof using Type. intros t Ht. left. by exists t. Qed.
Lemma old_or_untouched p new s s' : untouched p s s' → old_or p new s s'.
Proof using Type. intros [_ Hv] t Ht. left. by apply Hv. Qed.
Lemma old_or_trans (p : path) (new : tree_t → Prop) (s s1 s' : fs) :
  old_or p new s s1 → old_or p new s1 s' →
  (∀ t1 t, t1 ∈ versions s1 → t ∈ versions s' → t1 !! p = t !! p → new t1 → new t) → old_or p new s s'.
Proof using Type.
  intros Hfst Hsnd Hkeep t Ht. destruct (Hsnd t Ht) as [(t1 & Ht1 & E1)|?]; [|by right].
  destruct (Hfst t1 Ht1) as [(t0 & Ht0 & E0)|Hn]; [|right; by eapply Hkeep]. left. exists t0. split; [done|congruence].
Qed.

Definition holds_secret (n : name) (v : list byte) (t : tree_t) : Prop := secret_is store n v (t !! secret_path store n).
(** The value up to line endings, which [set] removes. *)
Definition holds_value (n : name) (v : list byte) (t : tree_t) : Prop :=
  ∃ v', trim_line_endings v' = trim_line_endings v ∧ holds_secret n v' t.
Definition holds_receipt (n : name) (rc : Receipt) (t : tree_t) : Prop := receipt_is n rc (t !! receipt_path receipt_dir n).

(** The value a set writes and a receipt that is stored, on the whole disk. *)
Lemma set_effect n secret h h' r :
  wf_tree (tree (host_disk h)) → set store n secret h = (h', r) →
  let s := host_disk h in let s' := host_disk h' in
  wf_tree (tree s')
  ∧ old_or (secret_path store n) (holds_secret n (trim_line_endings secret)) s s'
  ∧ (∀ q, apart_from (secret_path store n) q → untouched q s s')
  ∧ (r = Ok tt → ∀ t, t ∈ versions s' → holds_secret n (trim_line_endings secret) t).
Proof using Hlaws.
  intros Hwf Hrun. cbn zeta. destruct (set_run _ _ _ _ _ _ Hrun) as [[-> Hr]|(bytes & Hw & _ & Hs)].
  { split_and!; [done|apply old_or_refl|intros; apply untouched_refl|by intros ->]. }
  destruct (atomic_write_self _ _ _ _ _ _ Hwf Hw) as (_ & Hv & Hok). split_and!.
  - by apply (atomic_write_run _ _ _ _ _ _ Hwf Hw).
  - intros t [|E]%Hv; [by left|right]. unfold holds_secret. by rewrite E.
  - intros q Hq. by apply (write_untouched _ _ _ _ _ _ _ Hwf Hw).
  - intros [Hall _]%Hok t Ht. unfold holds_secret. by rewrite (Hall t Ht).
Qed.
Lemma store_receipt_effect n revision digest h h' r :
  wf_tree (tree (host_disk h)) → 1 ≤ revision → in_u64 revision → store_receipt store receipt_dir n revision digest h = (h', r) →
  let s := host_disk h in let s' := host_disk h' in let rc := mkReceipt revision digest in
  wf_tree (tree s') ∧ old_or (receipt_path receipt_dir n) (holds_receipt n rc) s s'
  ∧ (∀ q, apart_from (receipt_path receipt_dir n) q → untouched q s s')
  ∧ (r = Ok tt → ∀ t, t ∈ versions s' → holds_receipt n rc t).
Proof using Hlaws.
  intros Hwf Hr Hr' Hrun. cbn zeta. destruct (store_receipt_run _ _ _ _ _ _ Hr Hr' Hrun) as [[-> Hr0]|(bytes & Hw & Hs)].
  { split_and!; [done|apply old_or_refl|intros; apply untouched_refl|by intros ->]. }
  destruct (atomic_write_self _ _ _ _ _ _ Hwf Hw) as (_ & Hv & Hok). split_and!.
  - by apply (atomic_write_run _ _ _ _ _ _ Hwf Hw).
  - intros t [|E]%Hv; [by left|right]. unfold holds_receipt. by rewrite E.
  - intros q Hq. by apply (write_untouched _ _ _ _ _ _ _ Hwf Hw).
  - intros [Hall _]%Hok t Ht. unfold holds_receipt. by rewrite (Hall t Ht).
Qed.

(** What an import may leave for its name: [dk_receipt] orders the two files. *)
Record import_leaves (d : DeployedSecret) (s s' : fs) : Prop := mkLeaves {
  il_wf : wf_tree (tree s');
  il_secret : old_or (secret_path store (ds_name d)) (holds_value (ds_name d) (ds_secret d)) s s';
  il_receipt : (∀ t, t ∈ versions s → t !! secret_path store (ds_name d) = tree s !! secret_path store (ds_name d)) →
    old_or (receipt_path receipt_dir (ds_name d))
      (λ t, holds_receipt (ds_name d) (mkReceipt (ds_revision d) (ds_envelope_digest d)) t ∧ holds_value (ds_name d) (ds_secret d) t) s s';
  il_other q : apart_from (secret_path store (ds_name d)) q → apart_from (receipt_path receipt_dir (ds_name d)) q → untouched q s s';
}.
(** What the answer of an import says about the disk before and after it. *)
Definition import_answer (d : DeployedSecret) (s s' : fs) (r : DeploymentImportResult) : Prop :=
  let n := ds_name d in let rc := mkReceipt (ds_revision d) (ds_envelope_digest d) in
  match r with
  | Stale n' e c => n' = n ∧ e = ds_revision d ∧ e < c ∧ same_disk s s' ∧ ∃ digest, holds_receipt n (mkReceipt c digest) (tree s)
  | AlreadyCurrent n' e => n' = n ∧ e = ds_revision d ∧ same_disk s s' ∧ holds_receipt n rc (tree s) ∧ holds_value n (ds_secret d) (tree s)
  | Repaired n' e | Imported n' e => n' = n ∧ e = ds_revision d ∧ holds_receipt n rc (tree s') ∧ holds_value n (ds_secret d) (tree s')
  end.

Lemma leaves_same d s s' : wf_tree (tree s) → same_disk s s' → import_leaves d s s'.
Proof using Type.
  intros Hwf Hs. split; [by rewrite (same_disk_tree _ _ Hs)| | |].
  - apply old_or_untouched, same_disk_untouched, Hs.
  - intros _. apply old_or_untouched, same_disk_untouched, Hs.
  - intros q _ _. apply same_disk_untouched, Hs.
Qed.
Lemma leaves_start d s s1 s' : same_disk s s1 → import_leaves d s1 s' → import_leaves d s s'.
Proof using Type.
  intros Hs [Lw Ls Lr Lo]. unfold old_or in *. rewrite (same_disk_versions _ _ Hs), (same_disk_tree _ _ Hs) in *. split; try done.
  intros q Hq Hq'. eapply untouched_trans; [by apply same_disk_untouched|by apply Lo].
Qed.

(** A deployed secret as [open_deployment_envelope] yields it. *)
Definition importable (d : DeployedSecret) : Prop := deployed_ok (ds_name d) (ds_revision d) (ds_secret d).

Lemma holds_all_untouched n v s s' :
  untouched (secret_path store n) s s' → (∀ t, t ∈ versions s → holds_value n v t) → ∀ t, t ∈ versions s' → holds_value n v t.
Proof using Type. intros [_ Hv] Hall t (t0 & H0' & E)%Hv. unfold holds_value, holds_secret. rewrite <- E. by apply Hall. Qed.
Lemma holds_secret_value n v t : holds_secret n v t → holds_value n v t.
Proof using Type. by exists v. Qed.
Lemma holds_trimmed n v t : holds_secret n (trim_line_endings v) t → holds_value n v t.
Proof using Type. exists (trim_line_endings v). split; [apply trim_line_endings_idemp|done]. Qed.

(** Only the secret is written. *)
Lemma leaves_set d h h' r :
  wf_tree (tree (host_disk h)) → set store (ds_name d) (ds_secret d) h = (h', r) →
  import_leaves d (host_disk h) (host_disk h')
  ∧ (r = Ok tt → ∀ t, t ∈ versions (host_disk h') → holds_value (ds_name d) (ds_secret d) t)
  ∧ untouched (receipt_path receipt_dir (ds_name d)) (host_disk h) (host_disk h').
Proof using Hlaws Hsep.
  intros Hwf Hrun. apply set_effect in Hrun as (Hw & Hsec & Hother & Hok); [|done].
  assert (untouched (receipt_path receipt_dir (ds_name d)) (host_disk h) (host_disk h')) as Hr by (by apply Hother, receipt_apart).
  split; [|split; [|done]].
  - split; [done| |intros _; by apply old_or_untouched|intros q Hq _; by apply Hother].
    intros t [?|?]%Hsec; [by left|right; by apply holds_trimmed].
  - intros Hr' t Ht. by apply holds_trimmed, Hok.
Qed.

(** Only the receipt is written, next to a durable secret. *)
Lemma leaves_receipt d h h' r :
  wf_tree (tree (host_disk h)) → importable d → holds_value (ds_name d) (ds_secret d) (tree (host_disk h)) →
  store_receipt store receipt_dir (ds_name d) (ds_revision d) (ds_envelope_digest d) h = (h', r) →
  import_leaves d (host_disk h) (host_disk h')
  ∧ (r = Ok tt → ∀ t, t ∈ versions (host_disk h') → holds_receipt (ds_name d) (mkReceipt (ds_revision d) (ds_envelope_digest d)) t)
  ∧ untouched (secret_path store (ds_name d)) (host_disk h) (host_disk h').
Proof using Hlaws Hsep.
  intros Hwf (_ & Hr1 & Hr2 & _) Hsec Hrun. apply store_receipt_effect in Hrun as (Hw & Hrec & Hother & Hok); [|done..].
  assert (untouched (secret_path store (ds_name d)) (host_disk h) (host_disk h')) as Hs by (by apply Hother, secret_apart).
  split; [|done]. split; [done|by apply old_or_untouched| |intros q _ Hq; by apply Hother].
  intros Hdur t Ht. destruct (Hrec t Ht) as [?|Hn]; [by left|right]. split; [done|].
  eapply (holds_all_untouched _ _ _ _ Hs); [|done]. intros t0 Ht0. unfold holds_value, holds_secret. by rewrite Hdur.
Qed.

(** First the secret, then the receipt. *)
Lemma leaves_replace d h h' r :
  wf_tree (tree (host_disk h)) → importable d →
  (_ ← set store (ds_name d) (ds_secret d);
   _ ← store_receipt store receipt_dir (ds_name d) (ds_revision d) (ds_envelope_digest d);
   mret (Imported (ds_name d) (ds_revision d))) h = (h', r) →
  import_leaves d (host_disk h) (host_disk h')
  ∧ ∀ x, r = Ok x → x = Imported (ds_name d) (ds_revision d) ∧ import_answer d (host_disk h) (host_disk h') x.
Proof using Hlaws Hsep.
  intros Hwf Himp Hrun. unfold mbind at 1, st_bind at 1 in Hrun.
  destruct (set store _ _ h) as [h1 r1] eqn:E1. destruct (leaves_set _ _ _ _ Hwf E1) as (Hl1 & Hok1 & Hun1).
  destruct r1 as [[]|e]; [|injection Hrun as <- <-; by split]. specialize (Hok1 eq_refl). pose proof Hl1 as [Hwf1 Hs1 _ Ho1].
  unfold mbind at 1, st_bind at 1 in Hrun. destruct (store_receipt _ _ _ _ _ h1) as [h2 r2] eqn:E2.
  destruct (leaves_receipt d h1 h2 r2 Hwf1 Himp) as (Hl2 & Hok2 & Hun2); [apply Hok1; left|done|]. pose proof Hl2 as [Hwf2 _ Hr2 Ho2].
  pose proof (holds_all_untouched _ _ _ _ Hun2 Hok1) as Hall.
  assert (import_leaves d (host_disk h) (host_disk h2)) as Hl.
  { split; [done| | |].
    - intros t Ht. right. by apply Hall.
    - intros _ t Ht. apply store_receipt_effect in E2 as (_ & Hrec & _ & _); [|done|by apply Himp..].
      destruct (Hrec t Ht) as [(t1 & Ht1 & Et1)|?]; [left|right; split; [done|by apply Hall]].
      destruct Hun1 as [_ Hv1]. destruct (Hv1 t1 Ht1) as (t0 & Ht0 & Et0). exists t0. split; [done|congruence].
    - intros q Hq Hq'. eapply untouched_trans; [by apply Ho1|by apply Ho2]. }
  destruct r2 as [[]|e]; injection Hrun as <- <-; split; try done. intros x [= <-]. split; [done|].
  cbn. split_and!; [done|done|apply Hok2; [done|left]|apply Hall; left].
Qed.

(** The outcomes of an import, case by case. *)
Lemma on_host_read {A} (m : secure A) h h' r :
  read_only m → on_host m h = (h', r) → same_disk (host_disk h) (host_disk h') ∧ m (host_disk h) = (host_disk h', r).
Proof using Type. intros Hm [Hrun _]%on_host_run. split; [by eapply read_only_same|done]. Qed.

Lemma host_bind_cases {A B} (m : hosted A) (f : A → hosted B) h h' r :
  (m ≫= f) h = (h', r) →
  ∃ h1 r1, m h = (h1, r1) ∧ match r1 with Ok a => f a h1 = (h', r) | Err e => h' = h1 ∧ r = Err e end.
Proof using Type.
  unfold mbind, st_bind. destruct (m h) as [h1 [a|e]] eqn:E; intros Hrun; [by exists h1, (Ok a)|exists h1, (Err e)].
  by injection Hrun as <- <-.
Qed.

Definition outcome (d : DeployedSecret) (s s' : fs) (r : result SecureStoreError DeploymentImportResult) : Prop :=
  import_leaves d s s' ∧ ∀ x, r = Ok x → import_answer d s s' x.
Lemma outcome_err d s s' e : wf_tree (tree s) → same_disk s s' → outcome d s s' (Err e).
Proof using Type. intros Hwf Hs. split; [by apply leaves_same|done]. Qed.

(** The name has a receipt of the same revision and envelope. *)
Lemma import_same_revision d h h' r :
  wf_tree (tree (host_disk h)) → importable d →
  holds_receipt (ds_name d) (mkReceipt (ds_revision d) (ds_envelope_digest d)) (tree (host_disk h)) →
  (present ← on_host (path_exists (secret_path store (ds_name d)));
   if present : bool then
     same ← on_host (secret_matches store (ds_name d) (ds_secret d));
     if negb same then mthrow local_secret_conflict else mret (AlreadyCurrent (ds_name d) (ds_revision d))
   else _ ← set store (ds_name d) (ds_secret d); mret (Repaired (ds_name d) (ds_revision d))) h = (h', r) →
  outcome d (host_disk h) (host_disk h') r ∧ untouched (receipt_path receipt_dir (ds_name d)) (host_disk h) (host_disk h').
Proof using Hlaws Hsep.
  intros Hwf Himp Hrc Hrun. apply host_bind_cases in Hrun as (h1 & r1 & Hex & Hrun).
  apply on_host_read in Hex as [Hs1 _]; [|apply ro_path_exists].
  assert (wf_tree (tree (host_disk h1))) as Hwf1 by (by rewrite (same_disk_tree _ _ Hs1)).
  destruct r1 as [[]|e]; [| |destruct Hrun as [-> ->]; split; [by apply outcome_err|by apply same_disk_untouched]].
  - apply host_bind_cases in Hrun as (h2 & r2 & Hm & Hrun). apply on_host_read in Hm as [Hs2 Hm]; [|apply ro_secret_matches].
    pose proof (same_disk_trans _ _ _ Hs1 Hs2) as Hs. assert (h' = h2) as -> by (destruct r2 as [[]|]; [by injection Hrun..|by destruct Hrun]).
    split; [|by apply same_disk_untouched].
    destruct r2 as [[]|e]; [|injection Hrun as <-; by apply outcome_err|destruct Hrun as [_ ->]; by apply outcome_err].
    injection Hrun as <-. split; [by apply leaves_same|]. intros x [= <-].
    apply secret_matches_ok in Hm as [_ Hm]; [|done]. rewrite (same_disk_tree _ _ Hs1) in Hm.
    cbn. split_and!; [done|done|done|done|by apply holds_secret_value, Hm].
  - apply host_bind_cases in Hrun as (h2 & r2 & Hset & Hrun). destruct (leaves_set d h1 h2 r2 Hwf1 Hset) as (Hl & Hok & Hun).
    assert (untouched (receipt_path receipt_dir (ds_name d)) (host_disk h) (host_disk h2)) as Hun'
      by (eapply untouched_trans; [by apply same_disk_untouched|done]).
    pose proof (leaves_start _ _ _ _ Hs1 Hl) as Hl'. destruct r2 as [[]|e]; [injection Hrun as <- <-|destruct Hrun as [-> ->]; by split; [split|]].
    split; [|done]. split; [done|]. intros x [= <-]. cbn. split_and!; [done|done| |apply Hok; [done|left]].
    destruct Hun' as [Et _]. unfold holds_receipt. by rewrite Et.
Qed.

(** No receipt was found. *)
Lemma import_unmanaged d policy h h' r :
  wf_tree (tree (host_disk h)) → importable d →
  (present ← on_host (path_exists (secret_path store (ds_name d)));
   let replace :=
     _ ← set store (ds_name d) (ds_secret d);
     _ ← store_receipt store receipt_dir (ds_name d) (ds_revision d) (ds_envelope_digest d);
     mret (Imported (ds_name d) (ds_revision d)) in
   if negb present then replace else
   same ← on_host (secret_matches store (ds_name d) (ds_secret d));
   if same : bool then
     _ ← store_receipt store receipt_dir (ds_name d) (ds_revision d) (ds_envelope_digest d);
     mret (Repaired (ds_name d) (ds_revision d))
   else reject local_secret_conflict when (policy = RequireAbsentOrMatching);; replace) h = (h', r) →
  outcome d (host_disk h) (host_disk h') r.
Proof using Hlaws Hsep.
  intros Hwf Himp Hrun. apply host_bind_cases in Hrun as (h1 & r1 & Hex & Hrun).
  apply on_host_read in Hex as [Hs1 _]; [|apply ro_path_exists].
  assert (wf_tree (tree (host_disk h1))) as Hwf1 by (by rewrite (same_disk_tree _ _ Hs1)).
  assert (∀ h2, same_disk (host_disk h) (host_disk h2) →
    (_ ← set store (ds_name d) (ds_secret d);
     _ ← store_receipt store receipt_dir (ds_name d) (ds_revision d) (ds_envelope_digest d);
     mret (Imported (ds_name d) (ds_revision d))) h2 = (h', r) → outcome d (host_disk h) (host_disk h') r) as Hreplace.
  { intros h2 Hs2 Hr. destruct (leaves_replace d h2 h' r) as [Hl Hok]; [by rewrite (same_disk_tree _ _ Hs2)|done|done|].
    split; [by eapply leaves_start|]. by intros x (-> & Ha)%Hok. }
  destruct r1 as [[]|e]; cbn [negb] in Hrun; [|by eapply Hreplace|destruct Hrun as [-> ->]; by apply outcome_err].
  apply host_bind_cases in Hrun as (h2 & r2 & Hm & Hrun). apply on_host_read in Hm as [Hs2 Hm]; [|apply ro_secret_matches].
  pose proof (same_disk_trans _ _ _ Hs1 Hs2) as Hs. destruct r2 as [same|e]; [|destruct Hrun as [-> ->]; by apply outcome_err].
  apply secret_matches_ok in Hm as [_ Hm]; [|done]. destruct same.
  - assert (holds_value (ds_name d) (ds_secret d) (tree (host_disk h2))) as Hsec by (rewrite (same_disk_tree _ _ Hs2); by apply holds_secret_value, Hm).
    apply host_bind_cases in Hrun as (h3 & r3 & Hst & Hrun).
    destruct (leaves_receipt d h2 h3 r3) as (Hl & Hok & Hun); [by rewrite (same_disk_tree _ _ Hs)|done..|].
    pose proof (leaves_start _ _ _ _ Hs Hl) as Hl'. destruct r3 as [[]|e]; [injection Hrun as <- <-|destruct Hrun as [-> ->]; by split].
    split; [done|]. intros x [= <-]. cbn. split_and!; [done|done|apply Hok; [done|left]|].
    destruct Hun as [Et _]. unfold holds_value, holds_secret. by rewrite Et.
  - case_decide; [injection Hrun as <- <-; by apply outcome_err|by eapply Hreplace].
Qed.

Lemma import_run d policy h h' r :
  wf_tree (tree (host_disk h)) → importable d → import_deployed_secret store receipt_dir d policy h = (h', r) →
  outcome d (host_disk h) (host_disk h') r
  ∧ (∀ rc, holds_receipt (ds_name d) rc (tree (host_disk h)) → (next_fault (faults (host_disk h))).1 = WriteOk →
       rc_revision rc < ds_revision d ∨ untouched (receipt_path receipt_dir (ds_name d)) (host_disk h) (host_disk h')).
Proof using Hlaws Hsep.
  intros Hwf Himp Hrun. unfold import_deployed_secret in Hrun. cbn zeta in Hrun.
  apply host_bind_cases in Hrun as (h1 & r1 & Hload & Hrun).
  apply on_host_read in Hload as [Hs1 Hload]; [|apply ro_load_receipt].
  assert (wf_tree (tree (host_disk h1))) as Hwf1 by (by rewrite (same_disk_tree _ _ Hs1)).
  destruct r1 as [found|e]; [|destruct Hrun as [-> ->]; split; [by apply outcome_err|]; right; by apply same_disk_untouched].
  apply load_receipt_ok in Hload; [|done]. cbn zeta in Hload. destruct found as [rc|].
  2: { split; [|intros rc Hrc Hf; by destruct (Hload rc Hrc)]. apply import_unmanaged in Hrun as [Hl Hok]; [|done..].
       split; [by eapply leaves_start|]. intros x Hx. specialize (Hok x Hx). destruct x; cbn in *; rewrite ?(same_disk_tree _ _ Hs1) in Hok; try done.
       all: destruct_and!; split_and!; try done; by eapply same_disk_trans. }
  assert (∀ rc', holds_receipt (ds_name d) rc' (tree (host_disk h)) → rc' = rc) as Hrc by (intros rc' Hrc'; by eapply receipt_is_fun).
  case_decide as Hlt.
  { injection Hrun as <- <-. split; [|intros; right; by apply same_disk_untouched]. split; [by apply leaves_same|].
    intros x [= <-]. cbn. split_and!; [done|done|done|done|]. exists (rc_envelope_digest rc). by destruct rc. }
  case_decide as Heq.
  - case_decide as Hdig; [injection Hrun as <- <-; split; [by apply outcome_err|intros; right; by apply same_disk_untouched]|].
    assert (mkReceipt (ds_revision d) (ds_envelope_digest d) = rc) as Erc.
    { destruct rc as [rev dig]. cbn in *. f_equal; [done|]. by destruct (decide (ds_envelope_digest d = dig)). }
    apply import_same_revision in Hrun as [[Hl Hok] Hun]; [|done|done|rewrite (same_disk_tree _ _ Hs1), Erc; exact Hload].
    split; [|intros; right; eapply untouched_trans; [by apply same_disk_untouched|done]]. split; [by eapply leaves_start|].
    intros x Hx. specialize (Hok x Hx). destruct x; cbn in *; rewrite ?(same_disk_tree _ _ Hs1) in Hok; try done.
    all: destruct_and!; split_and!; try done; by eapply same_disk_trans.
  - destruct (leaves_replace d h1 h' r Hwf1 Himp Hrun) as [Hl Hok].
    split; [split; [by eapply leaves_start|by intros x (-> & Ha)%Hok]|]. intros rc' ->%Hrc _. left. lia.
Qed.

(** ** The lock *)
Definition lock_area (q : path) : Prop := q `prefix_of` receipt_dir ∨ q = receipt_dir ++ [WRITER_LOCK_FILE].
Lemma untouched_outside (A : path → option node → Prop) s s' q :
  base A (tree s) (past s) (tree s') (past s') → (∀ n, ¬ A q n) → untouched q s s'.
Proof using Type.
  intros [_ [Ht Hv]%evolves_paths] Hno. split.
  - destruct (Ht q) as [|E]; [done|]. by destruct (Hno _ E).
  - intros t Hin. destruct (Hv t q Hin) as [|E]; [done|]. by destruct (Hno _ E).
Qed.
Lemma footprint_lock : footprint (λ q _, lock_area q) (acquire_import_lock receipt_dir).
Proof using Type.
  unfold acquire_import_lock. apply footprint_bind; [|intros []].
  { eapply footprint_mono; [|apply footprint_ensure_private_dir]. intros q n Hq. by left. }
  cbn zeta. apply footprint_bind; [apply footprint_read_only, ro_path_exists|]. intros present.
  apply footprint_bind; [|intros []].
  { destruct present; [apply footprint_ret|]. apply footprint_bind.
    - apply footprint_try. eapply footprint_mono; [|apply footprint_write_new]. intros q n Hq. exact Hq.
    - intros [[]|e]; [apply footprint_ret|]. case_decide; [apply footprint_ret|apply footprint_throw]. }
  apply footprint_read_only. unfold read_private_limited. read_only.
Qed.
Lemma lock_run h h' r :
  wf_tree (tree (host_disk h)) → on_host (acquire_import_lock receipt_dir) h = (h', r) →
  wf_tree (tree (host_disk h')) ∧ ∀ q, ¬ lock_area q → untouched q (host_disk h) (host_disk h').
Proof using Type.
  intros Hwf [Hrun _]%on_host_run. pose proof (footprint_lock (host_disk h) Hwf) as Hb. rewrite Hrun in Hb.
  split; [by apply Hb|]. intros q Hq. by eapply untouched_outside.
Qed.
Lemma secret_not_locked n : ¬ lock_area (secret_path store n).
Proof using Hsep.
  intros [E|E]; [by destruct (Hsep n)|]. destruct (secret_path_t n) as [l El]. rewrite El in E.
  apply app_inj_2 in E as [_ [= E]]; [|done]. change [x65; x74] with ([x65] ++ [x74]) in E. rewrite app_assoc in E.
  by apply (app_inj_tail _ (String.list_byte_of_string ".writer.loc")) in E as [_ ?].
Qed.
Lemma receipt_not_locked n : ¬ lock_area (receipt_path receipt_dir n).
Proof using Type.
  destruct (receipt_path_t n) as [l El]. unfold lock_area. rewrite El. intros [E%prefix_length|E]; [rewrite length_app in E; cbn in E; lia|].
  apply app_inj_2 in E as [_ [= E]]; [|done]. change [x70; x74] with ([x70] ++ [x74]) in E. rewrite app_assoc in E.
  by apply (app_inj_tail _ (String.list_byte_of_string ".writer.loc")) in E as [_ ?].
Qed.

Lemma old_or_before (p : path) (new : tree_t → Prop) (s s1 s' : fs) : untouched p s s1 → old_or p new s1 s' → old_or p new s s'.
Proof using Type.
  intros [_ Hv] Hn t Ht. destruct (Hn t Ht) as [(t1 & Ht1 & E1)|?]; [left|by right].
  destruct (Hv t1 Ht1) as (t0 & Ht0 & E0). exists t0. split; [done|congruence].
Qed.

Lemma opened_importable envelope identity authority d :
  open_deployment_envelope envelope identity authority = Ok d → importable d.
Proof using Hlaws. intros (? & ? & ? & ? & ? & ? & ? & Hau)%opened_authorised. exact (au_payload _ _ _ _ _ _ _ _ _ _ _ Hau). Qed.

(** What a result promises of the present tree. *)
Definition import_result (d : DeployedSecret) (s s' : fs) (x : DeploymentImportResult) : Prop :=
  let n := ds_name d in
  let current := holds_receipt n (mkReceipt (ds_revision d) (ds_envelope_digest d)) (tree s') ∧ holds_value n (ds_secret d) (tree s') in
  let same := untouched (secret_path store n) s s' ∧ untouched (receipt_path receipt_dir n) s s' in
  match x with
  | Stale n' e c => n' = n ∧ e = ds_revision d ∧ same ∧ e < c ∧ ∃ digest, holds_receipt n (mkReceipt c digest) (tree s')
  | AlreadyCurrent n' e => n' = n ∧ e = ds_revision d ∧ same ∧ current
  | Repaired n' e | Imported n' e => n' = n ∧ e = ds_revision d ∧ current
  end.

Lemma answer_result d s s1 s' x :
  (∀ q, ¬ lock_area q → untouched q s s1) → import_answer d s1 s' x → import_result d s s' x.
Proof using Hsep.
  intros Hlock Ha.
  assert (same_disk s1 s' → untouched (secret_path store (ds_name d)) s s' ∧ untouched (receipt_path receipt_dir (ds_name d)) s s') as Hsame.
  { intros Hs. split; (eapply untouched_trans; [apply Hlock|by apply same_disk_untouched]);
      [apply secret_not_locked|apply receipt_not_locked]. }
  destruct x as [n e|n e|n e|n e c]; cbn in *.
  - by destruct Ha as (-> & -> & Hr & Hv).
  - destruct Ha as (-> & -> & Hs & Hr & Hv). rewrite (same_disk_tree _ _ Hs). by split_and!; [done|done|apply Hsame|apply Hsame|..].
  - by destruct Ha as (-> & -> & Hr & Hv).
  - destruct Ha as (-> & -> & Hlt & Hs & Hr). rewrite (same_disk_tree _ _ Hs). by split_and!; [done|done|apply Hsame|apply Hsame|..].
Qed.


End Importing.
