(* ===== verification/DeploymentReconcile.v ===== *)
(** * Reconciling a directory of deployed credentials *)

From stdpp Require Import sorting.
From S2P Require Export DeploymentImport.

Local Open Scope N_scope.
Local Open Scope dbx_scope.

Section Reconcile.
Context `{Crypto} {Hlaws : CryptoLaws} `{Sha256, Hpke, Ed25519}.
Context (store : SecretStore) (receipt_dir : path) (authority : DeploymentAuthority).

(** ** Listing and selecting only read *)
Lemma ro_collect_files dir entries files : read_only (collect_files dir entries files).
Proof using Type. revert files. induction entries as [|entry entries IH]; intros files; cbn [collect_files]; read_only. Qed.
Lemma ro_envelope_files dir : read_only (deployment_envelope_files dir).
Proof using Type. unfold deployment_envelope_files. pose proof ro_collect_files. read_only. Qed.
Lemma ro_identity_load p : read_only (DeploymentIdentity_load p).
Proof using Type. unfold DeploymentIdentity_load, read_private_limited. read_only. Qed.
Lemma ro_select identity files selected stale : read_only (select_envelopes identity authority files selected stale).
Proof using Type.
  revert selected stale. induction files as [|p files IH]; intros selected stale; cbn [select_envelopes]; [apply ro_ret|].
  unfold read_limited. cbn zeta. read_only.
Qed.

Lemma collect_files_bound dir entries files s s' found :
  lengthN files ≤ MAX_DEPLOYMENT_FILES → collect_files dir entries files s = (s', Ok found) → lengthN found ≤ MAX_DEPLOYMENT_FILES.
Proof using Type.
  revert files s. induction entries as [|entry entries IH]; intros files s Hl Hrun; cbn [collect_files] in Hrun.
  - apply st_bind_ok in Hrun as (? & ? & _ & Hrun). by injection Hrun as _ <-.
  - apply st_bind_ok in Hrun as (? & ? & _ & Hrun). case_decide; [by eapply IH|].
    apply st_bind_ok in Hrun as (m & ? & _ & Hrun). case_decide; [done|]. cbn zeta in Hrun. case_decide as Hm; [done|].
    eapply IH; [|exact Hrun]. by apply N.nlt_ge.
Qed.
Lemma envelope_files_bound dir s s' files :
  deployment_envelope_files dir s = (s', Ok files) → lengthN files ≤ MAX_DEPLOYMENT_FILES.
Proof using Type.
  unfold deployment_envelope_files. intros (r & s1 & _ & Hrun)%st_bind_ok. destruct r as [m|e].
  - case_decide; [done|]. apply st_bind_ok in Hrun as (entries & s2 & _ & Hrun).
    apply st_bind_ok in Hrun as (names & s3 & Hc%collect_files_bound & Hrun); [|done]. injection Hrun as _ <-.
    rewrite lengthN_fmap. unfold lengthN in *. by rewrite (Permutation_length (merge_sort_Permutation _ _)).
  - case_decide; [by injection Hrun as _ <-|done].
Qed.

(** The file at [p] is an envelope that opens to [d]. *)
Definition opens_to (identity : private_key) (t : tree_t) (p : path) (d : DeployedSecret) : Prop :=
  ∃ m bytes y, t !! p = Some (Regular m bytes y) ∧ open_deployment_envelope bytes identity authority = Ok d.

(** ** Selecting the greatest revision of every name *)
Definition covers (selected : gmap name DeployedSecret) (d : DeployedSecret) : Prop :=
  ∃ best, selected !! ds_name d = Some best ∧ ds_revision d ≤ ds_revision best
    ∧ (ds_revision d = ds_revision best → ds_envelope_digest d = ds_envelope_digest best).
Definition well_named (selected : gmap name DeployedSecret) : Prop := ∀ n d, selected !! n = Some d → ds_name d = n.

(** Replacing the entry of a name by one of a greater revision, or adding one, covers more. *)
Lemma covers_insert selected d d' :
  well_named selected → (∀ current, selected !! ds_name d = Some current → ds_revision current < ds_revision d) →
  covers selected d' → covers (<[ds_name d := d]> selected) d'.
Proof using Type.
  intros Hwn Hgt (best & Hb & Hle & Hdig). destruct (decide (ds_name d = ds_name d')) as [E|Hne].
  - exists d. rewrite E, lookup_insert_eq. rewrite E in Hgt. specialize (Hgt best Hb). split_and!; [done|lia|lia].
  - exists best. rewrite lookup_insert_ne by done. done.
Qed.
Lemma covers_self selected d : covers (<[ds_name d := d]> selected) d.
Proof using Type. exists d. rewrite lookup_insert_eq. split_and!; [done|lia|done]. Qed.
Lemma well_named_insert selected d : well_named selected → well_named (<[ds_name d := d]> selected).
Proof using Type. intros Hwn n d' [[<- <-]|[_ ?]]%lookup_insert_Some; [done|by apply Hwn]. Qed.

(** What a selection is: its entries are among [ds] or were there, it covers all of them, and
    every envelope is either an entry or counted as stale. *)
Record selection (ds : list DeployedSecret) (selected : gmap name DeployedSecret) (stale : N)
    (selected' : gmap name DeployedSecret) (stale' : N) : Prop := mkSelection {
  sl_named : well_named selected';
  sl_from n d : selected' !! n = Some d → d ∈ ds ∨ selected !! n = Some d;
  sl_covers d : d ∈ ds ∨ covers selected d → covers selected' d;
  sl_count : N.of_nat (size selected') + stale' = N.of_nat (size selected) + stale + lengthN ds;
}.

Lemma select_step identity files selected stale s s' selected' stale' :
  wf_tree (tree s) → well_named selected → stale + lengthN files < u64_max →
  select_envelopes identity authority files selected stale s = (s', Ok (selected', stale')) →
  ∃ ds, Forall2 (opens_to identity (tree s)) files ds ∧ selection ds selected stale selected' stale'.
Proof using Type.
  revert selected stale s. induction files as [|p files IH]; intros selected stale s Hwf Hwn Hst Hrun; cbn [select_envelopes] in Hrun.
  - injection Hrun as <- <- <-. exists []. split; [constructor|]. split; [done|by right| |unfold lengthN; cbn; lia].
    intros d [Hd%elem_of_nil|?]; [done|by auto].
  - apply st_bind_ok in Hrun as (bytes & s1 & (_ & (m & y & Ep & _) & _ & l & ->)%read_limited_ok & Hrun); [|done].
    apply st_bind_ok in Hrun as (d & s2 & [-> Ho]%st_lift_ok & Hrun). cbn zeta in Hrun.
    assert (opens_to identity (tree s) p d) as Hopen by (by exists m, bytes, y).
    assert (stale + 1 + lengthN files < u64_max) as Hst1 by (autorewrite with dbx in Hst; lia).
    assert (saturating_add stale 1 = stale + 1) as Esat by (unfold saturating_add; lia).
    destruct (selected !! ds_name d) as [current|] eqn:Ecur; [destruct (N.compare_spec (ds_revision current) (ds_revision d)) as [Ec|Ec|Ec]|].
    + case_decide as Hdig; [done|]. rewrite Esat in Hrun. apply IH in Hrun as (ds & Hall & [Hn Hf Hc Hk]); [|done..].
      exists (d :: ds). split; [by constructor|]. split; [done| | |autorewrite with dbx; lia].
      * intros n d' [?|?]%Hf; [left; by right|by right].
      * intros d' [[->|?]%elem_of_cons|?]; apply Hc; [right|by left|by right]. exists current.
        split_and!; [done|lia|]. intros _. by destruct (decide (ds_envelope_digest current = ds_envelope_digest d)).
    + rewrite Esat in Hrun. apply IH in Hrun as (ds & Hall & [Hn Hf Hc Hk]); [|done|by apply well_named_insert|done].
      exists (d :: ds). split; [by constructor|]. split; [done| | |].
      * intros n d' [?|[[<- <-]|[_ ?]]%lookup_insert_Some]%Hf; [left; by right|left; left|by right].
      * intros d' [[->|?]%elem_of_cons|?]; apply Hc; [right; apply covers_self|by left|right].
        apply covers_insert; [done| |done]. intros c [= <-]%(eq_trans (eq_sym Ecur)). done.
      * rewrite map_size_insert_Some in Hk by (by eexists). autorewrite with dbx. lia.
    + rewrite Esat in Hrun. apply IH in Hrun as (ds & Hall & [Hn Hf Hc Hk]); [|done..].
      exists (d :: ds). split; [by constructor|]. split; [done| | |autorewrite with dbx; lia].
      * intros n d' [?|?]%Hf; [left; by right|by right].
      * intros d' [[->|?]%elem_of_cons|?]; apply Hc; [right|by left|by right]. exists current. split_and!; [done|lia|lia].
    + apply IH in Hrun as (ds & Hall & [Hn Hf Hc Hk]); [|done|by apply well_named_insert|lia].
      exists (d :: ds). split; [by constructor|]. split; [done| | |].
      * intros n d' [?|[[<- <-]|[_ ?]]%lookup_insert_Some]%Hf; [left; by right|left; left|by right].
      * intros d' [[->|?]%elem_of_cons|?]; apply Hc; [right; apply covers_self|by left|right].
        apply covers_insert; [done| |done]. intros c Hcc. by rewrite Ecur in Hcc.
      * rewrite map_size_insert_None in Hk by done. autorewrite with dbx. lia.
Qed.

(** ** Importing the selection *)
Context (Hsep : separate store receipt_dir).

(** The tree holds the credential, or the receipt of a greater revision. *)
Definition up_to_date (d : DeployedSecret) (t : tree_t) : Prop :=
  let n := ds_name d in
  (∃ rc, holds_receipt store receipt_dir n rc t ∧ ds_revision d < rc_revision rc)
  ∨ (holds_receipt store receipt_dir n (mkReceipt (ds_revision d) (ds_envelope_digest d)) t ∧ holds_value store n (ds_secret d) t).
Definition files_untouched (n : name) (s s' : fs) : Prop :=
  untouched (secret_path store n) s s' ∧ untouched (receipt_path receipt_dir n) s s'.
Lemma files_untouched_trans n s s1 s' : files_untouched n s s1 → files_untouched n s1 s' → files_untouched n s s'.
Proof using Type. intros [? ?] [? ?]. split; by eapply untouched_trans. Qed.
Lemma up_to_date_untouched d s s' : files_untouched (ds_name d) s s' → up_to_date d (tree s) → up_to_date d (tree s').
Proof using Type.
  intros [[E _] [E' _]] [(rc & Hr & Hlt)|[Hr Hv]]; [left; exists rc; split; [|done]|right; split].
  - unfold holds_receipt in *. by rewrite E'.
  - unfold holds_receipt in *. by rewrite E'.
  - unfold holds_value, holds_secret in *. by rewrite E.
Qed.
Lemma answer_up_to_date d s s' x : import_answer store receipt_dir d s s' x → up_to_date d (tree s').
Proof using Type.
  unfold up_to_date. destruct x as [n e|n e|n e|n e c]; cbn.
  - intros (_ & _ & ? & ?). by right.
  - intros (_ & _ & Hs & ? & ?). right. by rewrite (same_disk_tree _ _ Hs).
  - intros (_ & _ & ? & ?). by right.
  - intros (_ & -> & Hlt & Hs & digest & Hr). left. rewrite (same_disk_tree _ _ Hs). by eexists.
Qed.

Definition total (summary : DeploymentReconcileSummary) : N :=
  rs_imported summary + rs_already_current summary + rs_repaired summary + rs_stale summary.
Lemma count_result_total summary x : total (count_result summary x) = total summary + 1 ∧ rs_files (count_result summary x) = rs_files summary.
Proof using Type. destruct summary, x; cbn; unfold total; cbn; lia. Qed.

Lemma import_selected_run l summary h h' r :
  wf_tree (tree (host_disk h)) → Forall importable l → NoDup (ds_name <$> l) →
  import_selected store receipt_dir l summary h = (h', r) →
  (∀ n, n ∉ ds_name <$> l → files_untouched n (host_disk h) (host_disk h'))
  ∧ ∀ summary', r = Ok summary' →
      rs_files summary' = rs_files summary ∧ total summary' = total summary + lengthN l
      ∧ ∀ d, d ∈ l → up_to_date d (tree (host_disk h')).
Proof using Hlaws Hsep.
  revert summary h. induction l as [|d l IH]; intros summary h Hwf Himp Hnd Hrun; cbn [import_selected] in Hrun.
  - injection Hrun as <- <-. split; [intros; split; apply untouched_refl|]. intros s' [= <-].
    split_and!; [done|unfold lengthN; cbn; lia|by intros ? ?%elem_of_nil].
  - apply Forall_cons in Himp as [Hd Himp]. rewrite fmap_cons in Hnd. apply NoDup_cons in Hnd as [Hni Hnd].
    apply host_bind_cases in Hrun as (h1 & r1 & Hi & Hrun). apply import_run in Hi as [[[Hwf1 _ _ Ho] Hans] _]; [|done..].
    assert (∀ n, n ≠ ds_name d → files_untouched n (host_disk h) (host_disk h1)) as Hother.
    { intros n Hn. split; apply Ho; [by apply other_secret_apart|by apply secret_apart|by apply receipt_apart|by apply other_receipt_apart]. }
    destruct r1 as [x|e].
    2: { destruct Hrun as [-> ->]. split; [|done]. intros n Hn. apply Hother. rewrite fmap_cons in Hn. intros ->. apply Hn. left. }
    destruct (IH _ _ Hwf1 Himp Hnd Hrun) as [Hun Hok]. split.
    + intros n Hn. rewrite fmap_cons, not_elem_of_cons in Hn. destruct Hn as [Hn1 Hn2].
      eapply files_untouched_trans; [exact (Hother n Hn1)|exact (Hun n Hn2)].
    + intros summary' E. destruct (Hok summary' E) as (Hf & Ht & Hall). destruct (count_result_total summary x) as [Ct Cf].
      split_and!; [congruence|rewrite Ht, Ct; autorewrite with dbx; lia|]. intros d' [->|Hd']%elem_of_cons; [|by apply Hall].
      eapply up_to_date_untouched; [by apply Hun|]. by eapply answer_up_to_date, Hans.
Qed.

Lemma into_values_spec selected :
  well_named selected →
  (∀ d, d ∈ into_values selected ↔ selected !! ds_name d = Some d) ∧ NoDup (ds_name <$> into_values selected)
  ∧ length (into_values selected) = size selected.
Proof using Type.
  intros Hwn. unfold into_values. set (l := merge_sort _ _).
  assert (l ≡ₚ map_to_list selected) as Hp by apply merge_sort_Permutation. split_and!.
  - intros d. rewrite Hp, list_elem_of_fmap. split.
    + intros ([n d'] & -> & Hn%elem_of_map_to_list). cbn. by rewrite (Hwn n d').
    + intros Hd. exists (ds_name d, d). split; [done|]. by apply elem_of_map_to_list.
  - assert (ds_name <$> l.*2 = l.*1) as ->.
    { rewrite <- list_fmap_compose. apply list_fmap_ext. intros i [n d] Hi. cbn. apply Hwn, elem_of_map_to_list.
      rewrite <- Hp. by eapply list_elem_of_lookup_2. }
    rewrite Hp. apply NoDup_fst_map_to_list.
  - by rewrite length_fmap, Hp, length_map_to_list.
Qed.

(** C28: reconciliation authenticates everything first and then brings every name up to date.
    Whatever it ends with, it changes no secret and no receipt before every listed file was
    opened as an envelope for this installation, and none of a name that no envelope has.
    When it succeeds its summary counts every file once, and for every envelope the best one
    of its name, of at least its revision, is on the disk with its secret, or a receipt of
    an even greater revision is. *)
Theorem reconciliation_is_complete envelope_dir identity_file h h' r :
  wf_tree (tree (host_disk h)) →
  reconcile_deployment_directory store envelope_dir identity_file receipt_dir authority h = (h', r) →
  let s := host_disk h in let s' := host_disk h' in
  (same_disk s s' ∧ ∀ summary, r = Ok summary →
     summary = mkReconcile 0 0 0 0 0 ∧ ∃ s1, deployment_envelope_files envelope_dir s = (s1, Ok []))
  ∨ ∃ s1 files identity ds,
      deployment_envelope_files envelope_dir s = (s1, Ok files) ∧ Forall2 (opens_to identity (tree s)) files ds
      ∧ (∀ n, n ∉ ds_name <$> ds → files_untouched n s s')
      ∧ ∀ summary, r = Ok summary →
          rs_files summary = lengthN files ∧ total summary = lengthN files
          ∧ ∀ d, d ∈ ds → ∃ best, best ∈ ds ∧ ds_name best = ds_name d ∧ ds_revision d ≤ ds_revision best
              ∧ (ds_revision d = ds_revision best → ds_envelope_digest d = ds_envelope_digest best) ∧ up_to_date best (tree s').
Proof using Hlaws Hsep.
  intros Hwf Hrun s s'. unfold reconcile_deployment_directory in Hrun. apply host_bind_cases in Hrun as (h1 & r1 & Hfiles & Hrun).
  apply on_host_read in Hfiles as [Hs1 Hfiles]; [|apply ro_envelope_files].
  destruct r1 as [files|e]; [|destruct Hrun as [-> ->]; left; by split].
  case_decide as Hne; [injection Hrun as <- <-; left; split; [done|]; intros ? [= <-]; subst files; by eauto|].
  unfold reconcile_deployment_files in Hrun. apply host_bind_cases in Hrun as (h2 & r2 & Hid & Hrun).
  apply on_host_read in Hid as [Hs2 _]; [|apply ro_identity_load]. pose proof (same_disk_trans _ _ _ Hs1 Hs2) as Hs12.
  destruct r2 as [identity|e]; [|destruct Hrun as [-> ->]; left; by split].
  apply host_bind_cases in Hrun as (h3 & r3 & Hsel & Hrun). apply on_host_read in Hsel as [Hs3 Hsel]; [|apply ro_select].
  pose proof (same_disk_trans _ _ _ Hs12 Hs3) as Hs13. destruct r3 as [[selected stale]|e]; [|destruct Hrun as [-> ->]; left; by split].
  right. pose proof (envelope_files_bound _ _ _ _ Hfiles) as Hbound.
  apply select_step in Hsel as (ds & Hall & [Hn Hfrom Hcov Hcount]); [|by rewrite (same_disk_tree _ _ Hs12)|done|].
  2: { rewrite N.add_0_l. by apply (N.le_lt_trans _ MAX_DEPLOYMENT_FILES). }
  rewrite (same_disk_tree _ _ Hs12) in Hall. rewrite map_size_empty in Hcount.
  exists (host_disk h1), files, identity, ds. split; [done|]. split; [done|].
  assert (∀ d, d ∈ ds → importable d) as Himp.
  { intros d [i Hi]%list_elem_of_lookup. destruct (Forall2_lookup_r _ _ _ _ _ Hall Hi) as (p & _ & m & bytes & y & _ & Ho). by eapply opened_importable. }
  destruct (into_values_spec selected Hn) as (Hel & Hnd & Hsize). set (l := into_values selected) in *.
  assert (∀ d, d ∈ l → d ∈ ds) as Hin.
  { intros d [?|Hd]%Hel%Hfrom; [done|by rewrite lookup_empty in Hd]. }
  apply host_bind_cases in Hrun as (h4 & r4 & Hlock & Hrun). apply lock_run in Hlock as [Hwf4 Hlock]; [|by rewrite (same_disk_tree _ _ Hs13)].
  assert (∀ n, files_untouched n s (host_disk h4)) as Hlocked.
  { intros n. split; (eapply untouched_trans; [by apply same_disk_untouched|apply Hlock]);
      [by apply secret_not_locked|by apply receipt_not_locked]. }
  destruct r4 as [[]|e]; [|destruct Hrun as [-> ->]; split; [by intros n _|done]].
  apply import_selected_run in Hrun as [Hun Hok]; [|done|apply Forall_forall; by auto|done]. split.
  - intros n Hnn. eapply files_untouched_trans; [apply Hlocked|]. apply Hun. intros (d & -> & Hd)%list_elem_of_fmap.
    apply Hnn, list_elem_of_fmap. exists d. split; [done|by apply Hin].
  - intros summary E. destruct (Hok summary E) as (Hf & Ht & Hup). cbn in Hf. unfold total at 2 in Ht. cbn in Ht. split_and!; [done| |].
    + rewrite Ht. assert (lengthN l = N.of_nat (size selected)) as -> by (unfold lengthN; by rewrite Hsize).
      rewrite (lengthN_of_length files (length ds)) by (by eapply Forall2_length). unfold lengthN in Hcount. lia.
    + intros d Hd. destruct (Hcov d (or_introl Hd)) as (best & Hbest & Hle & Hdig). pose proof (Hn _ _ Hbest) as Hname.
      assert (best ∈ l) as Hbl by (apply Hel; by rewrite Hname). exists best. split_and!; [by apply Hin|done|done|done|by apply Hup].
Qed.
End Reconcile.
