(* ===== verification/DeploymentDemo.v ===== *)
(** * Concrete deployments

    An installation, an authority and stand-in ciphers: a secret is stored and resolved, a
    credential is sealed, opened, imported and refused, a directory is reconciled.
    Witnesses of the theorems on secrets and deployments, and what a failing inspection
    makes of the check of the revision. *)

From S2P Require Import SegmentRoundTrip StateStoreDemo.
From S2P Require Export DeploymentReconcile.

Local Open Scope N_scope.
Local Open Scope dbx_scope.
#[local] Existing Instance demo_sha256.
#[local] Existing Instance demo_crypto.
#[local] Existing Instance demo_laws.

(** ** Stand-ins for HPKE and Ed25519

    Whoever knows the public key can seal and open; the tag names the key.  A signature is
    the key and the message. *)
#[local] Instance demo_hpke : Hpke := {|
  private_key := array 32;
  hpke_context := array 32;
  sk_to_pk sk := sk;
  private_key_to_bytes sk := sk;
  private_key_from_bytes l := if decide (length l = 32%nat) then Some (array_of_list 32 l) else None;
  public_key_from_bytes _ := true;
  encapped_key_from_bytes l := bool_decide (length l = 32%nat);
  setup_sender pk _ ephemeral := Some (vec_to_list (array_of_list 32 ephemeral), pk);
  context_seal tx text _ := Some (text ++ take 16 (vec_to_list tx));
  setup_receiver sk _ _ := Some sk;
  context_open rx sealed _ :=
    if decide (drop (length sealed - 16) sealed = take 16 (vec_to_list rx)) then Some (take (length sealed - 16) sealed) else None;
|}.
#[local] Instance demo_hpke_laws : HpkeLaws.
Proof.
  assert (∀ a : array 32, length (take 16 (vec_to_list a)) = 16%nat) as Htag by (intros a; by rewrite length_take, length_vec_to_list).
  split; cbn.
  - intros sk info ephemeral encapped tx text a sealed [= _ <-] [= <-]. eexists; split; [done|].
    rewrite length_app, Htag, Nat.add_sub, drop_app_length, take_app_length. by rewrite decide_True.
  - intros pk info ephemeral encapped tx [= <- _]. by rewrite length_vec_to_list.
  - intros sk. rewrite decide_True by apply length_vec_to_list. f_equal. apply array_of_to_list.
Qed.

#[local] Instance demo_ed25519 : Ed25519 := {|
  key_pair := list byte;
  key_pair_from_pkcs8 l := Some l;
  key_pair_public pair := pair;
  ed25519_sign pair message := array_of_list 64 (pair ++ message);
  ed25519_verify pk message signature := bool_decide (signature = vec_to_list (array_of_list 64 (pk ++ message)));
|}.
#[local] Instance demo_ed25519_laws : Ed25519Laws.
Proof. split. intros pair message. apply bool_decide_eq_true. reflexivity. Qed.

(** ** An installation *)
Definition demo_authority : DeploymentAuthority := mkAuthority [x30] (vreplicate 32 x11) (vreplicate 32 x12).
Definition demo_signer : key_pair := replicate 32 x11.
Definition demo_identity : private_key := vreplicate 32 x21.
Definition other_identity : private_key := vreplicate 32 x22.
Definition secrets_dir : path := [[x73]].
Definition receipts_dir : path := [[x72]].
Definition demo_secrets : SecretStore := mkSecretStore (vreplicate 32 x05) secrets_dir.
Definition demo_name : name := String.list_byte_of_string "mssql-prod".
Definition demo_secret : list byte := String.list_byte_of_string "secret".
Definition demo_host : host := mkHost disk0 (replicate 16 (Some (replicate 12 x07))).

Lemma demo_separate : separate demo_secrets receipts_dir.
Proof.
  intros n. unfold secret_path, receipt_path, FileSystem.join. cbn. split; intros [k E].
  - apply (f_equal length) in E. rewrite length_app in E. cbn in E. lia.
  - apply (f_equal length) in E. rewrite length_app in E. cbn in E. lia.
Qed.

(** ** A secret *)
Definition setting := set demo_secrets demo_name (demo_secret ++ [x0a]) demo_host.
Lemma setting_ok : setting.2 = Ok tt.
Proof. vm_compute. reflexivity. Qed.

Lemma set_resolves_witness :
  resolve demo_secrets (LOCAL ++ demo_name) (set_faults [] (host_disk setting.1))
    = (set_faults [] (host_disk setting.1), Ok demo_secret).
Proof.
  destruct (set_resolves demo_secrets demo_name (demo_secret ++ [x0a]) demo_host setting.1 setting.2) as (_ & _ & _ & Hr);
    [exact demo_tree_wf|apply surjective_pairing|]. exact (proj2 (Hr setting_ok)).
Defined.

(** ** A credential *)
Lemma got_eq {E A} {r : result E A} {a b} : r = Ok a → r = Ok b → a = b.
Proof. intros -> E'. by injection E'. Qed.
Definition recipients : list rust_string := [recipient other_identity; recipient demo_identity].
Definition seal_revision (revision : N) (text : list byte) : host * result SecureStoreError (list byte) :=
  seal_deployment_secret demo_name revision text recipients demo_signer demo_host.
Definition envelope_of (run : host * result SecureStoreError (list byte)) : list byte :=
  match run.2 with Ok bytes => bytes | Err _ => [] end.
Definition sealed5 := seal_revision 5 (demo_secret ++ [x0d; x0a]).
Definition envelope5 : list byte := envelope_of sealed5.
Definition envelope3 : list byte := envelope_of (seal_revision 3 [x6f; x6c; x64]).
Definition deployed5 : DeployedSecret := mkDeployed demo_name 5 demo_secret (sha256 envelope5).
Definition deployed3 : DeployedSecret := mkDeployed demo_name 3 [x6f; x6c; x64] (sha256 envelope3).
Definition recipient_keys : list (array 32) := [sk_to_pk other_identity; sk_to_pk demo_identity].

Lemma sealed5_eq :
  seal_deployment_secret demo_name 5 (demo_secret ++ [x0d; x0a]) recipients demo_signer demo_host = (sealed5.1, Ok envelope5).
Proof. vm_compute. reflexivity. Qed.
Lemma recipients_parsed : parse_recipients recipients = Ok recipient_keys.
Proof. vm_compute. reflexivity. Qed.
Lemma recipient_ids_differ :
  Forall (λ a, Forall (λ b, deployment_recipient_id a = deployment_recipient_id b → a = b) recipient_keys) recipient_keys.
Proof. repeat constructor; intros E; vm_compute in E; first [reflexivity|discriminate]. Qed.

Lemma sealed_credential_opens_witness :
  host_disk sealed5.1 = host_disk demo_host
  ∧ open_deployment_envelope envelope5 demo_identity demo_authority = Ok deployed5.
Proof.
  apply (sealed_credential_opens demo_name 5 (demo_secret ++ [x0d; x0a]) recipients recipient_keys demo_signer
           demo_authority demo_identity demo_host sealed5.1 envelope5).
  - by vm_compute.
  - vm_compute. reflexivity.
  - exact recipients_parsed.
  - right. left.
  - intros a b Ha Hb. pose proof (proj1 (Forall_forall _ _) recipient_ids_differ a Ha) as Ha'.
    exact (proj1 (Forall_forall _ _) Ha' b Hb).
  - exact sealed5_eq.
Defined.
Lemma opened5 : open_deployment_envelope envelope5 demo_identity demo_authority = Ok deployed5.
Proof. vm_compute. reflexivity. Qed.
Lemma opened3 : open_deployment_envelope envelope3 demo_identity demo_authority = Ok deployed3.
Proof. vm_compute. reflexivity. Qed.
Lemma envelope_accepted_exactly_witness :
  (∃ count nonce table ciphertext signature content_key k,
     authorised envelope5 demo_identity demo_authority deployed5 count nonce table ciphertext signature content_key k)
  ∧ verify_deployment_envelope envelope5 demo_authority = Ok tt.
Proof.
  destruct (envelope_accepted_exactly envelope5 demo_identity demo_authority deployed5) as [Hiff Hv].
  split; [exact (proj1 Hiff opened5)|exact (Hv opened5)].
Defined.
(** An installation that is not enrolled, and one changed byte. *)
Example not_enrolled :
  open_deployment_envelope envelope5 (vreplicate 32 x23) demo_authority = Err decrypt_invalid
  ∧ open_deployment_envelope (<[300%nat := x55]> envelope5) demo_identity demo_authority = Err signature_invalid.
Proof. vm_compute. split; reflexivity. Qed.

(** ** Importing *)
Definition import envelope (policy : DeploymentImportPolicy) (h : host) :=
  import_deployment_envelope demo_secrets envelope demo_identity receipts_dir demo_authority policy h.
Definition imported5 := import envelope5 RequireAbsentOrMatching demo_host.
(** The same step by step, and then an older credential. *)
Definition locked := on_host (acquire_import_lock receipts_dir) demo_host.
Definition stored5 := import_deployed_secret demo_secrets receipts_dir deployed5 RequireAbsentOrMatching locked.1.
Definition import3 := import_deployed_secret demo_secrets receipts_dir deployed3 ReplaceExisting stored5.1.
Lemma imported5_ok : imported5.2 = Ok (Imported demo_name 5).
Proof. vm_compute. reflexivity. Qed.

#[local] Strategy expand [imported5 locked stored5 import3 import].
Lemma imported5_eq :
  import_deployment_envelope demo_secrets envelope5 demo_identity receipts_dir demo_authority RequireAbsentOrMatching demo_host
    = (imported5.1, imported5.2).
Proof. exact (surjective_pairing imported5). Qed.
Lemma locked_eq : on_host (acquire_import_lock receipts_dir) demo_host = (locked.1, locked.2).
Proof. exact (surjective_pairing locked). Qed.
Lemma stored5_eq :
  import_deployed_secret demo_secrets receipts_dir deployed5 RequireAbsentOrMatching locked.1 = (stored5.1, stored5.2).
Proof. exact (surjective_pairing stored5). Qed.
Lemma import3_eq :
  import_deployed_secret demo_secrets receipts_dir deployed3 ReplaceExisting stored5.1 = (import3.1, import3.2).
Proof. exact (surjective_pairing import3). Qed.
#[local] Opaque imported5 locked stored5 import3.

Definition receipt5 : Receipt := mkReceipt (ds_revision deployed5) (ds_envelope_digest deployed5).

Lemma stored5_ok : stored5.2 = Ok (Imported demo_name 5).
Proof. vm_compute. reflexivity. Qed.
Lemma stored5_state :
  wf_tree (tree (host_disk stored5.1))
  ∧ holds_receipt demo_secrets receipts_dir (ds_name deployed5) receipt5 (tree (host_disk stored5.1)).
Proof.
  destruct (lock_run receipts_dir demo_host locked.1 locked.2) as [Hwf _]; [exact demo_tree_wf|exact locked_eq|].
  destruct (import_run demo_secrets receipts_dir demo_separate deployed5 RequireAbsentOrMatching locked.1 stored5.1 stored5.2)
    as [[[Hwf' _ _ _] Hans] _]; [exact Hwf|exact (opened_importable _ _ _ _ opened5)|exact stored5_eq|].
  destruct (Hans _ stored5_ok) as (_ & _ & Hr & _). split; [exact Hwf'|exact Hr].
Qed.

(** ** A failing inspection

    [Path::exists] is false when the inspection itself fails, so a receipt that cannot be
    inspected counts as absent: the revision is not compared, and an operator's import of an
    older envelope replaces the newer secret and its receipt. *)
Definition broken : host :=
  mkHost (set_faults [WriteFails 0 OtherFault] (host_disk stored5.1)) (host_randoms stored5.1).
Definition rolled_back := import_deployed_secret demo_secrets receipts_dir deployed3 ReplaceExisting broken.
Example failing_inspection_rolls_back :
  import3.2 = Ok (Stale demo_name 3 5)
  ∧ rolled_back.2 = Ok (Imported demo_name 3)
  ∧ (resolve demo_secrets (LOCAL ++ demo_name) (host_disk stored5.1)).2 = Ok demo_secret
  ∧ (resolve demo_secrets (LOCAL ++ demo_name) (host_disk rolled_back.1)).2 = Ok [x6f; x6c; x64].
Proof. vm_compute. repeat split. Qed.

(** ** A directory *)
Definition envelopes_dir : path := [[x65]].
Definition identity_file : path := [[x73]; [x69]].
Definition envelope_file (x : byte) : path := envelopes_dir ++ [x :: String.list_byte_of_string ".dbxsecret"].
Definition identity_bytes : list byte := IDENTITY_MAGIC ++ [IDENTITY_VERSION] ++ vec_to_list (private_key_to_bytes demo_identity).
Definition deployment_tree : tree_t :=
  <[envelope_file x62 := Regular 420 envelope5 true]> (<[envelope_file x61 := Regular 420 envelope3 true]>
  (<[envelopes_dir := Dir 493]> (<[identity_file := Regular MODE_PRIVATE_FILE identity_bytes true]> demo_tree))).
Definition deployment_host : host := mkHost (mkFs deployment_tree [] [] 18 7 0) (host_randoms demo_host).
Definition reconciled :=
  reconcile_deployment_directory demo_secrets envelopes_dir identity_file receipts_dir demo_authority deployment_host.

Lemma wf_child (t : tree_t) (d : path) x n :
  wf_tree t → match t !! d with Some (Dir _) => true | _ => false end = true → bool_decide (t !! (d ++ [x]) = None) = true → wf_tree (<[d ++ [x] := n]> t).
Proof.
  intros Hwf Hd Hn%bool_decide_eq_true. destruct (t !! d) as [[m| |]|] eqn:E; [|done..].
  apply wf_insert; [done| |].
  - assert (∃ d' x', d ++ [x] = d' ++ [x'] ∧ is_dir_at t d') as Hx by (by eexists d, x; split; [|eexists]). by destruct d.
  - right. intros [m' E']. by rewrite E' in Hn.
Qed.
Lemma deployment_tree_wf : wf_tree deployment_tree.
Proof.
  pose proof demo_tree_wf as Hwf. unfold deployment_tree.
  apply (wf_child _ envelopes_dir); [|vm_compute; reflexivity..].
  apply (wf_child _ envelopes_dir); [|vm_compute; reflexivity..].
  apply (wf_child _ []); [|vm_compute; reflexivity..].
  apply (wf_child _ secrets_dir); [|vm_compute; reflexivity..]. exact Hwf.
Qed.
Lemma reconciled_ok : reconciled.2 = Ok (mkReconcile 2 1 0 0 1).
Proof. vm_compute. reflexivity. Qed.
#[local] Strategy expand [reconciled].
Lemma reconciled_eq :
  reconcile_deployment_directory demo_secrets envelopes_dir identity_file receipts_dir demo_authority deployment_host
    = (reconciled.1, reconciled.2).
Proof. exact (surjective_pairing reconciled). Qed.
#[local] Opaque reconciled.

Lemma reconciliation_is_complete_witness :
  reconciled.2 = Ok (mkReconcile 2 1 0 0 1)
  ∧ ∃ files identity ds,
      Forall2 (opens_to demo_authority identity deployment_tree) files ds ∧ lengthN files = 2
      ∧ ∀ d, d ∈ ds → ∃ best, best ∈ ds ∧ ds_name best = ds_name d ∧ ds_revision d ≤ ds_revision best
          ∧ up_to_date demo_secrets receipts_dir best (tree (host_disk reconciled.1)).
Proof.
  split; [exact reconciled_ok|].
  destruct (reconciliation_is_complete demo_secrets receipts_dir demo_authority demo_separate envelopes_dir identity_file
              deployment_host reconciled.1 reconciled.2 deployment_tree_wf reconciled_eq)
    as [[_ Hnone]|(s1 & files & identity & ds & _ & Hall & _ & Hok)].
  - destruct (Hnone _ reconciled_ok) as [E _]. discriminate E.
  - destruct (Hok _ reconciled_ok) as (Hfiles & _ & Hup). exists files, identity, ds. split; [exact Hall|]. split; [by rewrite <- Hfiles|].
    intros d Hd. destruct (Hup d Hd) as (best & Hin & Hn & Hle & _ & Hdate). exists best. split; [exact Hin|]. split; [exact Hn|].
    split; [exact Hle|exact Hdate].
Defined.
