(* ===== verification/MysqlSql.v ===== *)
(** * SQL of the MySQL-family connector (connectors/mysql/src/connector/sql.rs)

    A configured query is scanned, refused unless it is one read-only SELECT or WITH, and
    wrapped as a derived table of the connector's own query.  The scanner walks over the
    bytes of the text; what it holds is what is left of them and the words so far. *)

From S2P Require Export Sdk.

Local Open Scope N_scope.
Local Open Scope dbx_scope.

Definition MAX_COLLECTION_ROWS : N := 100000.
Definition MAX_QUERY_BYTES : N := 1024 * 1024.
Definition MAX_CURSOR_FIELD_BYTES : N := 63.

Definition configuration_error (code : string) : ConnectorError := ConnectorError_new code Configuration false true.
Definition REJECTED_TOKENS : list rust_string := str <$>
  ["alter"; "analyze"; "call"; "create"; "delete"; "do"; "drop"; "dumpfile"; "execute"; "get_lock"; "grant"; "handler";
   "insert"; "into"; "load"; "load_file"; "lock"; "next"; "nextval"; "outfile"; "procedure"; "release_lock";
   "release_all_locks"; "rename"; "replace"; "reset"; "revoke"; "set"; "setval"; "share"; "spider_bg_direct_sql";
   "spider_copy_tables"; "spider_direct_sql"; "sys_eval"; "sys_exec"; "truncate"; "unlock"; "update"]%string.

Record NormalizedQuery := mkNormalized {
  nq_base : rust_string;
  nq_sql : rust_string;
  nq_cursor_bound : option TimestampIdCursorBound;
}.

(** ** The scanner *)
Definition is_identifier_start (b : byte) : bool := is_ascii_alphabetic b || bool_decide (b = "_"%byte).
Definition is_identifier_continue (b : byte) : bool := is_identifier_start b || is_ascii_digit b || bool_decide (b = "$"%byte).

(** What is left behind the quote that closes; a doubled one is text. *)
Fixpoint skip_closing (quote : byte) (rest : list byte) : option (list byte) :=
  match rest with
  | [] => None
  | b :: rest1 =>
      if decide (b = quote) then
        match rest1 with
        | c :: rest2 => if decide (c = quote) then skip_closing quote rest2 else Some rest1
        | [] => Some rest1
        end
      else skip_closing quote rest1
  end.
Definition skip_quoted (rest : list byte) (quote : byte) : result ConnectorError (list byte) :=
  ok_or (configuration_error "DBX-RS-MY-CFG-0021") (skip_closing quote rest).

Definition is_line_end (b : byte) : bool := bool_decide (b = x0a ∨ b = x0d).
Fixpoint skip_line_comment (rest : list byte) : list byte :=
  match rest with
  | [] => []
  | b :: rest => if is_line_end b then rest else skip_line_comment rest
  end.
Fixpoint skip_block_comment (rest : list byte) : result ConnectorError (list byte) :=
  match rest with
  | b :: (c :: rest2) as rest1 => if decide (b = "*"%byte ∧ c = "/"%byte) then mret rest2 else skip_block_comment rest1
  | _ => mthrow (configuration_error "DBX-RS-MY-CFG-0022")
  end.
Fixpoint span_identifier (rest : list byte) : list byte * list byte :=
  match rest with
  | [] => ([], [])
  | b :: rest1 => if is_identifier_continue b then let '(word, rest2) := span_identifier rest1 in (b :: word, rest2) else ([], rest)
  end.

(** [u8::is_ascii_whitespace]. *)
Definition is_ascii_whitespace (b : byte) : bool := bool_decide (b ∈ [x20; x09; x0a; x0c; x0d]).
(** The text of a line comment that starts at a byte. *)
Definition line_comment (b : byte) (rest : list byte) : option (list byte) :=
  if decide (b = "#"%byte) then Some rest
  else if decide (b = "-"%byte ∧ head rest = Some "-"%byte ∧ is_none_or is_ascii_whitespace (head (tail rest)) = true) then Some (tail rest)
  else None.

(** One turn of [scan_sql] at a byte. *)
Definition scan_turn (b : byte) (rest : list byte) (tokens : list rust_string)
    : result ConnectorError (list byte * list rust_string) :=
  if decide (b = "'"%byte ∨ b = x22 ∨ b = "`"%byte) then rest ← skip_quoted rest b; mret (rest, tokens)
  else match line_comment b rest with
  | Some text => mret (skip_line_comment text, tokens)
  | None =>
      if decide (b = "/"%byte ∧ head rest = Some "*"%byte) then
        reject (configuration_error "DBX-RS-MY-CFG-0019")
          when (head (tail rest) = Some "!"%byte ∨ head (tail rest) = Some "+"%byte);;
        rest ← skip_block_comment (tail rest); mret (rest, tokens)
      else if decide (b = ";"%byte) then mthrow (configuration_error "DBX-RS-MY-CFG-0016")
      else if decide (b = "?"%byte) then mthrow (configuration_error "DBX-RS-MY-CFG-0048")
      else if is_identifier_start b then
        let '(word, rest) := span_identifier rest in
        token ← ok_or (configuration_error "DBX-RS-MY-CFG-0020") (from_utf8 (b :: word));
        mret (rest, tokens ++ [token])
      else mret (rest, tokens)
  end.

(** Every turn takes a byte at least: as much fuel as bytes is enough. *)
Fixpoint scan_loop (fuel : nat) (rest : list byte) (tokens : list rust_string) : result ConnectorError (list rust_string) :=
  match rest, fuel with
  | [], _ => mret tokens
  | _, O => mthrow panicked
  | b :: rest, S fuel => '(rest, tokens) ← scan_turn b rest tokens; scan_loop fuel rest tokens
  end.
Definition scan_sql (query : rust_string) : result ConnectorError (list rust_string) :=
  let bytes := utf8_bytes query in scan_loop (length bytes) bytes [].

(** ** The checks *)
Definition is_word (words : list rust_string) (token : rust_string) : bool := existsb (eq_ignore_ascii_case token) words.
(** [windows(2).any(|window| window == b)]. *)
Fixpoint has_window (x y : byte) (l : list byte) : bool :=
  match l with b :: (c :: _) as l' => bool_decide (b = x ∧ c = y) || has_window x y l' | _ => false end.
Definition reject_unsafe_tokens (query : rust_string) (tokens : list rust_string) : result ConnectorError () :=
  first ← ok_or (configuration_error "DBX-RS-MY-CFG-0017") (head tokens);
  reject (configuration_error "DBX-RS-MY-CFG-0017") when (is_word [str "select"; str "with"] first = false);;
  reject (configuration_error "DBX-RS-MY-CFG-0018")
    when (existsb (is_word REJECTED_TOKENS) tokens = true ∨ has_window ":"%byte "="%byte (utf8_bytes query) = true);;
  mret tt.
Definition normalize_read_query (query : rust_string) (max_rows : N) : result ConnectorError rust_string :=
  reject (configuration_error "DBX-RS-MY-CFG-0014") when (¬ (1 ≤ max_rows ∧ max_rows ≤ MAX_COLLECTION_ROWS));;
  reject (configuration_error "DBX-RS-MY-CFG-0041") when (MAX_QUERY_BYTES < str_len query);;
  let query := trim query in
  reject (configuration_error "DBX-RS-MY-CFG-0015") when (query = [] ∨ str_contains query 0 = true);;
  let query := match strip_suffix_char 59 query with Some query => trim_end query | None => query end in
  reject (configuration_error "DBX-RS-MY-CFG-0016") when (query = []);;
  mret query.
Definition valid_cursor_field (field : rust_string) : bool :=
  bool_decide (str_len field ≤ MAX_CURSOR_FIELD_BYTES) && negb (existsb is_control field).

(** ** Building SQL *)
Definition quote_identifier (identifier : rust_string) : rust_string :=
  str "`" ++ (identifier ≫= λ c, if decide (c = 96) then [96; c] else [c]) ++ str "`".
(** What follows the base query and its closing parenthesis. *)
Definition batch_outer : rust_string := str " AS dbx_rs_row LIMIT ?".
Definition cursor_outer (timestamp_field id_field : rust_string) (bound : option TimestampIdCursorBound) : rust_string :=
  let t := str "dbx_rs_row." ++ timestamp_field in
  let i := str "dbx_rs_row." ++ id_field in
  let predicate := match bound with
    | None => []
    | Some bound =>
        str " WHERE (" ++ t ++ str " IS NULL OR " ++ i ++ str " IS NULL OR (" ++ t ++ str ", " ++ i ++ str ") "
          ++ (if inclusive bound then str ">=" else str ">") ++ str " (?, ?))"
    end in
  str " AS dbx_rs_row" ++ predicate ++ str " ORDER BY (" ++ t ++ str " IS NOT NULL) ASC, " ++ t ++ str " ASC, ("
    ++ i ++ str " IS NOT NULL) ASC, " ++ i ++ str " ASC LIMIT ?".
Definition wrapped (base outer : rust_string) : rust_string := str "SELECT * FROM (" ++ base ++ str ")" ++ outer.

Definition normalize_query (query : rust_string) (max_rows : N) (cursor : option TimestampIdCursorRequest)
    : result ConnectorError NormalizedQuery :=
  base ← normalize_read_query query max_rows;
  tokens ← scan_sql base;
  _ ← reject_unsafe_tokens base tokens;
  match cursor with
  | None => mret (mkNormalized base (wrapped base batch_outer) None)
  | Some cursor =>
      reject (configuration_error "DBX-RS-MY-CFG-0050")
        when (existsb (is_word [str "limit"; str "offset"]) tokens = true);;
      cursor_bound ← map_err (λ _, configuration_error "DBX-RS-MY-CFG-0046") (effective_bound cursor);
      reject (configuration_error "DBX-RS-MY-CFG-0046")
        when (valid_cursor_field (timestamp_field (req_spec cursor)) = false ∨ valid_cursor_field (id_field (req_spec cursor)) = false);;
      let outer := cursor_outer (quote_identifier (timestamp_field (req_spec cursor)))
        (quote_identifier (id_field (req_spec cursor))) cursor_bound in
      mret (mkNormalized base (wrapped base outer) cursor_bound)
  end.

(** ** Turns *)
Abbreviation state := (list byte * list rust_string)%type.
Definition turn (s s' : state) : Prop := ∃ b rest, s.1 = b :: rest ∧ scan_turn b rest s.2 = Ok s'.

Lemma skip_closing_suffix quote l r : skip_closing quote l = Some r → r `suffix_of` l.
Proof.
  revert r. induction l as [l IH] using (induction_ltof1 _ length); unfold ltof in IH. intros r.
  destruct l as [|b [|c l]]; cbn [skip_closing]; [done| |].
  - case_decide; [|done]. intros [= <-]. by apply suffix_cons_r.
  - case_decide; [case_decide|].
    + intros Hrun. apply suffix_cons_r, suffix_cons_r, IH; [cbn; lia|done].
    + intros [= <-]. by apply suffix_cons_r.
    + intros Hrun. apply suffix_cons_r, IH; [cbn; lia|done].
Qed.
Lemma skip_line_suffix l : skip_line_comment l `suffix_of` l.
Proof. induction l as [|b l IH]; cbn; [done|]. destruct (is_line_end b); by apply suffix_cons_r. Qed.
Lemma skip_block_suffix l r : skip_block_comment l = Ok r → r `suffix_of` l.
Proof.
  induction l as [|b [|c l] IH]; cbn [skip_block_comment]; try done. case_decide; [intros [= <-]; by do 2 apply suffix_cons_r|].
  intros Hrun. by apply suffix_cons_r, IH.
Qed.
Lemma span_split l word r : span_identifier l = (word, r) → l = word ++ r.
Proof.
  revert word. induction l as [|b l IH]; intros word; cbn; [by intros [= <- <-]|]. destruct (is_identifier_continue b); [|by intros [= <- <-]].
  destruct (span_identifier l) as [w r']. intros [= <- <-]. by rewrite (IH w).
Qed.
Lemma suffix_tail {A} (l : list A) : tail l `suffix_of` l.
Proof. destruct l; [done|by apply suffix_cons_r]. Qed.
Lemma line_comment_suffix b rest text : line_comment b rest = Some text → text `suffix_of` rest.
Proof. unfold line_comment. case_decide; [by intros [= <-]|]. case_decide; [|done]. intros [= <-]. apply suffix_tail. Qed.

Lemma scan_turn_suffix b rest tokens s : scan_turn b rest tokens = Ok s → s.1 `suffix_of` rest.
Proof.
  unfold scan_turn. case_decide.
  { rewrite result_bind_ok. unfold skip_quoted. intros (r & Hr%ok_or_ok%skip_closing_suffix & [= <-]). done. }
  destruct (line_comment b rest) as [text|] eqn:Hline.
  { intros [= <-]. etrans; [apply skip_line_suffix|by eapply line_comment_suffix]. }
  case_decide.
  { case_decide; [done|]. rewrite result_bind_ok. intros (r & Hr%skip_block_suffix & [= <-]). etrans; [exact Hr|apply suffix_tail]. }
  do 2 (case_decide; [done|]). destruct (is_identifier_start b); [|by intros [= <-]].
  destruct (span_identifier rest) as [word r] eqn:Hs. rewrite result_bind_ok. intros (t & _ & [= <-]).
  cbn. exists word. by apply span_split.
Qed.

Lemma my_scan_loop_turns fuel l ts ts' :
  (length l ≤ fuel)%nat → scan_loop fuel l ts = Ok ts' ↔ rtc turn (l, ts) ([], ts').
Proof.
  revert l ts. induction fuel as [|fuel IH]; intros l ts Hf; destruct l as [|b rest]; cbn [length scan_loop] in *; try lia.
  1, 2: split; [intros [= <-]; done|intros Hrtc].
  1, 2: apply rtc_inv in Hrtc as [[= ->]|(s1 & (b & rest & Hr & _) & _)]; done.
  rewrite result_bind_ok. split.
  - intros ([r t] & Ht & Hl). pose proof (scan_turn_suffix _ _ _ _ Ht) as Hs%suffix_length. cbn in Hs.
    eapply rtc_l; [by exists b, rest|]. apply IH; [lia|done].
  - intros Hrtc. apply rtc_inv in Hrtc as [|([r t] & (b' & rest' & [= <- <-] & Ht) & Hrtc)]; [done|].
    pose proof (scan_turn_suffix _ _ _ _ Ht) as Hs%suffix_length. cbn in Hs. exists (r, t). split; [done|]. apply IH; [lia|done].
Qed.
Lemma scan_sql_turns q ts : scan_sql q = Ok ts ↔ rtc turn (utf8_bytes q, []) ([], ts).
Proof. by apply my_scan_loop_turns. Qed.

(** The fuel is enough: every turn takes a byte at least. *)
Lemma scan_turn_no_panic b rest ts : scan_turn b rest ts ≠ Err panicked.
Proof.
  unfold scan_turn. case_decide.
  { unfold skip_quoted. by destruct (skip_closing b rest). }
  destruct (line_comment b rest); [done|]. case_decide.
  { case_decide; [done|]. assert (∀ l, skip_block_comment l ≠ Err panicked) as Hb.
    { induction l as [|c [|d l] IH]; cbn [skip_block_comment]; [done..|]. by case_decide. }
    specialize (Hb (tail rest)). by destruct (skip_block_comment (tail rest)) as [r|e]; [|intros [= ->]]. }
  do 2 (case_decide; [done|]). destruct (is_identifier_start b); [|done]. destruct (span_identifier rest) as [word r].
  by destruct (from_utf8 (b :: word)).
Qed.
Lemma scan_sql_no_panic q : scan_sql q ≠ Err panicked.
Proof.
  unfold scan_sql. generalize (utf8_bytes q) (@nil rust_string). intros l. generalize (le_n (length l)). generalize (length l) at 2 3.
  intros fuel. revert l. induction fuel as [|fuel IH]; intros [|b rest] Hf ts; cbn [length scan_loop] in *; [done|lia|done|].
  pose proof (scan_turn_no_panic b rest ts) as Hn. destruct (scan_turn b rest ts) as [[r t]|e] eqn:E; [|by intros [= ->]].
  apply IH. pose proof (scan_turn_suffix _ _ _ _ E) as Hs%suffix_length. cbn in Hs. lia.
Qed.

(** ** A text before a closing parenthesis *)
Lemma my_skip_closing_app quote l r y :
  skip_closing quote l = Some r → head y ≠ Some quote → skip_closing quote (l ++ y) = Some (r ++ y).
Proof.
  revert r. induction l as [l IH] using (induction_ltof1 _ length); unfold ltof in IH. intros r.
  destruct l as [|b [|c l]]; cbn [skip_closing app]; [done| |].
  - case_decide; [|done]. intros [= <-] Hy. destruct y as [|c y]; [done|]. rewrite decide_False; [done|]. intros ->. by apply Hy.
  - case_decide; [case_decide|].
    + intros Hrun Hy. apply (IH l); [cbn; lia|done..].
    + by intros [= <-].
    + intros Hrun Hy. apply (IH (c :: l)); [cbn; lia|done..].
Qed.
Lemma my_skip_block_app l r y : skip_block_comment l = Ok r → skip_block_comment (l ++ y) = Ok (r ++ y).
Proof.
  induction l as [|b [|c l] IH]; cbn [skip_block_comment app]; try done. case_decide; [by intros [= <-]|]. intros Hrun. by apply IH.
Qed.
Definition has_line_end (l : list byte) : bool := existsb is_line_end l.
Lemma my_skip_line_app l y :
  skip_line_comment (l ++ y) = if has_line_end l then skip_line_comment l ++ y else skip_line_comment y.
Proof. induction l as [|b l IH]; cbn; [done|]. destruct (is_line_end b); [done|]. by rewrite IH. Qed.
Lemma skip_line_none l : has_line_end l = false → skip_line_comment l = [].
Proof. induction l as [|b l IH]; cbn; [done|]. by destruct (is_line_end b). Qed.
Lemma my_span_app l y word r :
  span_identifier l = (word, r) → is_none_or is_identifier_continue (head y) = false → span_identifier (l ++ y) = (word, r ++ y).
Proof.
  revert word. induction l as [|b l IH]; intros word; cbn.
  - intros [= <- <-] Hy. destruct y as [|c y]; [done|]. cbn in Hy. cbn. by rewrite Hy.
  - destruct (is_identifier_continue b); [|by intros [= <- <-]]. destruct (span_identifier l) as [w r']. intros [= <- <-] Hy.
    by rewrite (IH w).
Qed.

(** Words found before stay. *)
Lemma scan_turn_tokens b rest ts s p : scan_turn b rest ts = Ok s → scan_turn b rest (p ++ ts) = Ok (s.1, p ++ s.2).
Proof.
  unfold scan_turn. case_decide; [rewrite !result_bind_ok; intros (r & Hr & [= <-]); by exists r|].
  destruct (line_comment b rest); [by intros [= <-]|].
  case_decide; [case_decide; [done|]; rewrite !result_bind_ok; intros (r & Hr & [= <-]); by exists r|].
  do 2 (case_decide; [done|]). destruct (is_identifier_start b); [|by intros [= <-]].
  destruct (span_identifier rest) as [word r]. rewrite !result_bind_ok. intros (t & Ht & [= <-]). exists t. by rewrite <- app_assoc.
Qed.
Lemma turns_tokens p l ts r ts' : rtc turn (l, ts) (r, ts') → rtc turn (l, p ++ ts) (r, p ++ ts').
Proof.
  intros Hrtc. remember (l, ts) as s eqn:Es. remember (r, ts') as s' eqn:Es'. revert l ts Es. induction Hrtc as [s|s s1 s2 Hturn _ IH].
  - intros l ts ->. by injection Es' as -> ->.
  - intros l ts ->. destruct s1 as [l1 ts1]. eapply rtc_l; [|by apply IH]. destruct Hturn as (b & rest & [= ->] & Ht).
    exists b, rest. split; [done|]. exact (scan_turn_tokens _ _ _ _ p Ht).
Qed.

(** A closing parenthesis is part of nothing that came before it, except of a line comment
    without an end. *)
Definition closed (y : list byte) : Prop := ∃ tl, y = ")"%byte :: tl.
Lemma closed_head y c : closed y → head y = Some c → c = ")"%byte.
Proof. intros [tl ->] [= <-]. done. Qed.
Lemma line_comment_closed b rest y : closed y → line_comment b rest = None → line_comment b (rest ++ y) = None.
Proof.
  intros [tl ->]. unfold line_comment. case_decide; [done|]. case_decide as Hd; [done|]. intros _. rewrite decide_False; [done|].
  intros (-> & Hh & Hw). apply Hd. destruct rest as [|c [|d rest]]; cbn in *; done.
Qed.
Lemma line_comment_open b rest y text :
  line_comment b rest = Some text → has_line_end text = true → line_comment b (rest ++ y) = Some (text ++ y).
Proof.
  unfold line_comment. case_decide; [by intros [= <-]|]. case_decide as Hd; [|done]. intros [= <-] Hn.
  destruct Hd as (-> & Hh & Hw). destruct rest as [|c [|d rest]]; [done..|]. cbn in *. by rewrite decide_True.
Qed.
Lemma scan_turn_app b rest ts r ts' y :
  closed y → (∀ text, line_comment b rest = Some text → has_line_end text = true) →
  scan_turn b rest ts = Ok (r, ts') → scan_turn b (rest ++ y) ts = Ok (r ++ y, ts').
Proof.
  intros Hy Hline. unfold scan_turn. case_decide as Hq.
  { unfold skip_quoted. rewrite !result_bind_ok. intros (r' & Hr%ok_or_ok & [= <- <-]). exists (r' ++ y). split; [|done].
    apply ok_or_ok, my_skip_closing_app; [done|]. intros E%closed_head; [|done]. subst b. by destruct Hq as [|[|]]. }
  destruct (line_comment b rest) as [text|] eqn:Ec.
  { specialize (Hline text eq_refl). rewrite (line_comment_open _ _ _ _ Ec Hline), my_skip_line_app, Hline. by intros [= <- <-]. }
  rewrite (line_comment_closed _ _ _ Hy Ec). destruct Hy as [tl ->]. case_decide as Hb.
  { destruct Hb as [-> Hh]. destruct rest as [|c [|d rest]]; [done|by injection Hh as ->|]. injection Hh as ->. cbn [app head tail] in *.
    rewrite (decide_True (P := "/"%byte = "/"%byte ∧ _)) by done. case_decide; [done|]. rewrite !result_bind_ok. intros (r' & Hr & [= <- <-]).
    exists (r' ++ ")"%byte :: tl). split; [|done]. exact (my_skip_block_app _ _ (")"%byte :: tl) Hr). }
  rewrite (decide_False (P := b = "/"%byte ∧ head (rest ++ _) = _)) by (intros [-> Hh]; apply Hb; destruct rest; [done|by split]).
  do 2 (case_decide; [done|]). destruct (is_identifier_start b); [|by intros [= <- <-]].
  destruct (span_identifier rest) as [word r'] eqn:Es. rewrite (my_span_app _ (")"%byte :: tl) _ _ Es) by done.
  rewrite !result_bind_ok. intros (t & Ht & [= <- <-]). by exists t.
Qed.

Lemma has_line_end_left text : skip_line_comment text ≠ [] → has_line_end text = true.
Proof. intros Hn. destruct (has_line_end text) eqn:E; [done|]. by rewrite skip_line_none in Hn. Qed.
Lemma turn_left b rest ts r ts' text :
  r ≠ [] → scan_turn b rest ts = Ok (r, ts') → line_comment b rest = Some text → has_line_end text = true.
Proof.
  intros Hr Hrun Hline. apply has_line_end_left. unfold scan_turn in Hrun. rewrite Hline in Hrun. case_decide as Hq.
  - exfalso. unfold line_comment in Hline. destruct Hq as [->|[->| ->]]; done.
  - by injection Hrun as -> _.
Qed.
Lemma turns_app l ts r ts' y : closed y → r ≠ [] → rtc turn (l, ts) (r, ts') → rtc turn (l ++ y, ts) (r ++ y, ts').
Proof.
  intros Hy Hr Hrtc. remember (l, ts) as s eqn:Es. remember (r, ts') as s' eqn:Es'. revert l ts Es.
  induction Hrtc as [s|s [l1 ts1] s2 Hturn Hrtc IH]; intros l ts ->; [by injection Es' as -> ->|].
  eapply rtc_l; [|by apply IH]. destruct Hturn as (b & rest & [= ->] & Ht). exists b, (rest ++ y). split; [done|].
  apply scan_turn_app; [done| |done]. intros text. eapply turn_left; [|exact Ht]. intros ->.
  apply rtc_inv in Hrtc as [E|(s3 & (b3 & rest3 & E & _) & _)]; [|done]. rewrite Es' in E. by injection E as <- _.
Qed.

(** ** The wrapped query *)
Fixpoint steps (n : nat) (s : state) : option state :=
  match n, s.1 with
  | O, _ => Some s
  | S n, b :: rest => match scan_turn b rest s.2 with Ok s => steps n s | Err _ => None end
  | _, [] => None
  end.
Lemma steps_turns n s s' : steps n s = Some s' → rtc turn s s'.
Proof.
  revert s. induction n as [|n IH]; intros [l ts]; cbn [steps fst snd]; [by intros [= <-]|]. destruct l as [|b rest]; [done|].
  destruct (scan_turn b rest ts) as [s1|] eqn:E; [|done]. intros Hs%IH. eapply rtc_l; [|exact Hs]. by exists b, rest.
Qed.
Definition wrap_words : list rust_string := [str "SELECT"; str "FROM"].
Lemma wrap_prefix l : rtc turn (utf8_bytes (str "SELECT * FROM (") ++ l, []) (l, wrap_words).
Proof. apply (steps_turns 7). vm_compute. reflexivity. Qed.

Lemma wrapped_turns l r ts : rtc turn (l, []) (r, ts) → rtc turn (utf8_bytes (str "SELECT * FROM (") ++ l, []) (r, wrap_words ++ ts).
Proof.
  intros Hrtc%(turns_tokens wrap_words). rewrite app_nil_r in Hrtc. etrans; [apply wrap_prefix|exact Hrtc].
Qed.

(** A line comment of the base query that only its end ends; it stays one when something
    follows, but for two bare dashes. *)
Definition ends_in_comment (l : list byte) : Prop := ∃ ts b rest text,
  rtc turn (l, []) (b :: rest, ts) ∧ scan_turn b rest ts = Ok ([], ts) ∧ line_comment b rest = Some text ∧ has_line_end text = false.
Definition comments_out (l : list byte) : Prop := ∃ ts b rest text,
  rtc turn (l, []) (b :: rest, ts) ∧ line_comment b rest = Some text ∧ has_line_end text = false
  ∧ (∀ y, closed y → line_comment b (rest ++ y) = Some (text ++ y)).

Definition permitted (ts : list rust_string) : Prop :=
  (∃ first others, ts = first :: others ∧ is_word [str "select"; str "with"] first = true)
  ∧ Forall (λ t, is_word REJECTED_TOKENS t = false) ts.

Lemma reject_unsafe_tokens_ok q ts : reject_unsafe_tokens q ts = Ok tt → permitted ts.
Proof.
  unfold reject_unsafe_tokens. rewrite result_bind_ok. intros (first & Hfirst%ok_or_ok & Hrun). case_decide as Hw; [done|].
  case_decide as Hr; [done|]. apply not_false_is_true in Hw. split.
  - destruct ts as [|t ts]; [done|]. injection Hfirst as ->. by exists first, ts.
  - apply Forall_forall. intros t Ht. destruct (is_word REJECTED_TOKENS t) eqn:E; [|done]. destruct Hr. left.
    apply existsb_exists. exists t. split; [by apply list_elem_of_In|done].
Qed.
Lemma my_normalize_query_ok query max_rows cursor nq :
  normalize_query query max_rows cursor = Ok nq →
  ∃ ts outer, scan_sql (nq_base nq) = Ok ts ∧ permitted ts ∧ nq_sql nq = wrapped (nq_base nq) outer
    ∧ (cursor = None → outer = batch_outer).
Proof.
  unfold normalize_query. rewrite result_bind_ok. intros (base & _ & Hrun). revert Hrun. rewrite result_bind_ok. intros (ts & Hts & Hrun).
  revert Hrun. rewrite result_bind_ok. intros ([] & Hp%reject_unsafe_tokens_ok & Hrun). destruct cursor as [cursor|].
  - case_decide; [done|]. revert Hrun. rewrite result_bind_ok. intros (bound & _ & Hrun). case_decide; [done|]. injection Hrun as <-.
    cbn. by eexists ts, _.
  - injection Hrun as <-. cbn. by exists ts, batch_outer.
Qed.

Lemma wrapped_bytes base outer :
  utf8_bytes (wrapped base outer) = utf8_bytes (str "SELECT * FROM (") ++ utf8_bytes base ++ utf8_bytes (str ")" ++ outer).
Proof. unfold wrapped. by rewrite !utf8_bytes_app. Qed.
Lemma closed_outer outer : closed (utf8_bytes (str ")" ++ outer)).
Proof. rewrite utf8_bytes_app. by eexists. Qed.

Lemma base_read l ts y : closed y → rtc turn (l, []) ([], ts) →
  ends_in_comment l ∨ rtc turn (utf8_bytes (str "SELECT * FROM (") ++ l ++ y, []) (y, wrap_words ++ ts).
Proof.
  intros Hy Hrtc. apply rtc_inv_r in Hrtc as [[= -> <-]|([r ts0] & Hrtc & b & rest & [= ->] & Ht)].
  { right. rewrite app_nil_r. apply wrap_prefix. }
  assert (ends_in_comment l ∨ scan_turn b (rest ++ y) ts0 = Ok ([] ++ y, ts)) as [?|Hlast].
  - cbn [snd] in Ht. destruct (line_comment b rest) as [text|] eqn:Ec; [destruct (has_line_end text) eqn:En|].
    + right. apply scan_turn_app; [done| |done]. by intros ? [= <-]%(eq_trans (eq_sym Ec)).
    + left. exists ts0, b, rest, text. split; [done|]. split; [|done]. revert Ht. unfold scan_turn. rewrite Ec.
      case_decide; [|by intros [= _ ->]; by rewrite skip_line_none].
      rewrite !result_bind_ok. intros (r & Hr & [= -> ->]). by exists [].
    + right. apply scan_turn_app; [done| |done]. intros text. by rewrite Ec.
  - by left.
  - right. apply wrapped_turns. apply (rtc_r _ ((b :: rest) ++ y, ts0)); [by apply turns_app|]. by exists b, (rest ++ y).
Qed.
Lemma base_commented l ts y : closed y → has_line_end y = false → rtc turn (l, []) ([], ts) → comments_out l →
  rtc turn (utf8_bytes (str "SELECT * FROM (") ++ l ++ y, []) ([], wrap_words ++ ts).
Proof.
  intros Hy Hn Hall (ts0 & b & rest & text & Hrtc & Ec & En & Hopen).
  assert (b ≠ "'"%byte ∧ b ≠ x22 ∧ b ≠ "`"%byte) as Hb.
  { unfold line_comment in Ec. case_decide; [by subst b|]. case_decide as Hd; [|done]. by destruct Hd as [-> _]. }
  assert (∀ rest' text', line_comment b rest' = Some text' → scan_turn b rest' ts0 = Ok (skip_line_comment text', ts0)) as Hturn.
  { intros rest' text' E. unfold scan_turn. rewrite decide_False by tauto. by rewrite E. }
  assert (ts0 = ts) as ->.
  { assert (rtc turn (l, []) ([], ts0)) as H0.
    { eapply rtc_r; [exact Hrtc|]. exists b, rest. split; [done|]. cbn [snd]. by rewrite (Hturn _ _ Ec), skip_line_none. }
    apply (my_scan_loop_turns (length l)) in H0, Hall; [|done..]. congruence. }
  apply wrapped_turns. apply (rtc_r _ ((b :: rest) ++ y, ts)); [by apply turns_app|]. exists b, (rest ++ y). split; [done|]. cbn [snd].
  rewrite (Hturn _ _ (Hopen y Hy)), my_skip_line_app, En. by rewrite skip_line_none.
Qed.


(** ** Concrete queries *)
Definition commented_query : rust_string := str "SELECT 1 -- insert; ?" ++ [10].
Definition commented : NormalizedQuery := mkNormalized (str "SELECT 1 -- insert; ?")
  (str "SELECT * FROM (SELECT 1 -- insert; ?) AS dbx_rs_row LIMIT ?") None.
Lemma commented_accepted : normalize_query commented_query 10 None = Ok commented.
Proof. vm_compute. reflexivity. Qed.
Lemma commented_comments_out : comments_out (utf8_bytes (nq_base commented)).
Proof.
  exists [str "SELECT"], "-"%byte, (String.list_byte_of_string "- insert; ?"), (String.list_byte_of_string " insert; ?").
  split; [apply (steps_turns 4); vm_compute; reflexivity|]. split; [reflexivity|]. split; [reflexivity|]. intros y _. reflexivity.
Qed.

(** A server that takes a backslash before a quote as an escape, as MySQL does by default,
    reads [sys_exec(1)] as code here; the scanner reads it as text. *)
Example backslash_hides_a_function :
  normalize_query (str "SELECT 'x\'' , sys_exec(1) , '\''") 10 None
    = Ok (mkNormalized (str "SELECT 'x\'' , sys_exec(1) , '\''")
            (str "SELECT * FROM (SELECT 'x\'' , sys_exec(1) , '\'') AS dbx_rs_row LIMIT ?") None)
  ∧ normalize_query (str "SELECT 'x' , sys_exec(1)") 10 None = Err (configuration_error "DBX-RS-MY-CFG-0018").
Proof. vm_compute. split; reflexivity. Qed.
(** Parentheses are not counted. *)
Example parentheses_are_not_counted :
  is_ok (normalize_query (str "SELECT 1) AS t UNION ALL SELECT * FROM (SELECT 2") 10 None) = true.
Proof. vm_compute. reflexivity. Qed.
